(* ===== verification/_CoqProject ===== *)
-Q . S2P
Prelude.v
Interleaving.v
Heap.v
GoogleBms.v
BmsTiers.v
BmsTiersProps.v
GoogleBmsProps.v
BmsState.v
BmsStateProps.v
BmsText.v
Ttf.v
TtfProps.v
Logbuffer.v
LogbufferProps.v
Storage.v
Eeprom.v
EepromLayout.v
StorageProps.v
EepromProps.v
AocIpc.v
AocRing.v
AocQueue.v
Gvotable.v
GvotableElection.v
GvotableBook.v
GvotableProps.v
LwisAllocator.v
LwisLists.v
LwisAllocatorProps.v
LwisIoEntry.v
LwisProcess.v
LwisProcessProps.v
LwisTransaction.v
LwisTriggerProps.v
LwisClientInv.v
LwisClientProps.v
LwisWorkerProps.v
LwisEvent.v
LwisEventProps.v
LwisEventInv.v
GcipQueue.v
GcipMailbox.v
GcipMailboxInv.v
GcipMailboxSteps.v
GcipMailboxMoves.v
GcipSettle.v
GcipProgress.v
GcipKci.v
GcipKciProps.v
GcipFetch.v
GcipKciInv.v
GcipKciMoves.v
GcipKciFifo.v
GcipProps.v
IifTable.v
IifFence.v
IifSystem.v
IifInv.v
IifWorld.v
IifSteps.v
IifSubmit.v
IifOrder.v
IifMoves.v
IifPower.v
IifSignal.v
IifProps.v
