(* ===== verification/Prelude.v ===== *)
(** * Pixel common kernel drivers: a verification library

    The repository holds the kernel modules that Pixel phones share
    ([google-modules/]) and their device trees ([devices/]).  Most of it is board
    support: register tables, vendor Wi-Fi and GPU drivers, panels.  This
    library verifies the parts that carry logic of their own which other drivers
    rely on, function by function, as shallow embeddings of the C code.

    ** The program's parts, and where they are

    - Charging ([google-modules/bms/google_bms.c], [google_bms.h]).  A charger
      driver asks, for a battery temperature, voltage and cycle count, which
      current and float voltage to use.  [GoogleBms] reads the charge profile from
      the device tree, scales it, and swaps in the profile of an aged battery;
      [BmsTiers] has the lookups; [BmsState] the charger state word, the
      statistics of a tier and the forwarding of properties; [BmsText] cycle
      counts and logs as text; [Ttf] how long a charge takes and what is learned
      from one ([google_ttf.c]).  Theorems: [GoogleBmsProps], [BmsTiersProps],
      [BmsStateProps], [BmsText], [TtfProps].  The drivers' own logs
      ([google-modules/bms/misc/logbuffer.c]) are in [Logbuffer], with
      [LogbufferProps].

    - Battery data ([google-modules/bms/gbms_storage.c], [google_eeprom.c],
      [google_eeprom_01.c], [google_eeprom_02.c]).  Named items (serial number, cycle
      counts, history) are read and written through providers that register, with a
      cache of who serves what ([Storage]); the EEPROM of the battery is such a provider,
      in three layouts, with a conversion of the older ones ([Eeprom], its fields in
      [EepromLayout]), which is looked for at the start.  Theorems: [StorageProps],
      [EepromProps].

    - Elections ([google-modules/bms/misc/gvotable.c]).  Drivers cast votes on a
      shared value (a current limit, a disable); the election publishes the
      winner to its owner through a callback.  [Gvotable] has every operation with
      the two mutexes and the heap of allocated votes; [GvotableElection] the
      invariant of the list of ballots; [GvotableBook] the same list as a map
      from voters to votes; [GvotableProps] the properties.

    - Always-on compute ([google-modules/aoc_ipc/aoc_ipc_core.c]).  The processor
      and the AoC firmware exchange bytes through rings and messages through
      queues in shared memory, each side moving its own 32-bit counter.
      [AocIpc] has every function; [AocRing] and [AocQueue] prove that rings are
      lossy byte FIFOs and queues bounded FIFOs of messages.

    - Camera ([google-modules/lwis/]).  A client submits transactions, lists of
      register accesses, which run when an event or a fence triggers them; their
      results come back in an event.  [LwisAllocator] is the recycling allocator
      that the buffers of requests come from ([lwis_allocator.c], on the lists of
      [LwisLists]); [LwisIoEntry] the accesses that poll, assert, wait or copy
      ([lwis_io_entry.c]); [LwisProcess] the loop that runs entries in turns and
      the response ([process_transaction]); [LwisTransaction] the life of
      transactions, from submission to their event ([lwis_transaction.c], the
      conditions and completion fences of [lwis_fence.c]); [LwisEvent] the events
      of a device, which trigger the transactions of its clients and carry their
      results ([lwis_event.c]).  Theorems: [LwisAllocatorProps],
      [LwisProcessProps], [LwisTriggerProps], on the invariant of [LwisClientInv],
      [LwisClientProps] and [LwisWorkerProps], and, on these, [LwisEventProps] and
      [LwisEventInv].

    - Machine learning accelerators ([google-modules/edgetpu/], whose GCIP library
      [gcip-kernel-driver/] the GXP driver has too).  The kernel sends commands to
      the firmware through mailboxes and gets responses back.  [GcipQueue] has the
      circular queues and their registers ([gcip-mailbox.h],
      [edgetpu-mailbox.c]); [GcipMailbox] the mailboxes ([gcip-mailbox.c]), as
      threads that interleave: senders, cancellations, timers, responses, the
      release; [GcipKci] the kernel control interface on them ([gcip-kci.c],
      [edgetpu-kci.c]) with the buffer of the requests of the firmware.  The
      invariant of a mailbox is in [GcipMailboxInv], [GcipMailboxSteps] and
      [GcipMailboxMoves] keep it, [GcipSettle] and [GcipProgress] add who has to
      settle and to complete an awaiter, [GcipFetch] the fetching of responses;
      [GcipKciProps] shows that the interface obeys the laws of a user,
      [GcipKciInv] and [GcipKciMoves] that it uses its mailbox as it must,
      [GcipKciFifo] the order of its commands.  Theorems: [GcipProps].

    - Inter-IP fences ([drivers/gcip/iif/] of the GCIP library).  A fence tells the
      commands that wait for it that the commands before them are done, across the
      processor and its accelerators, which share a table of fences.  [IifTable]
      has the entries of the table and their error codes ([iif-fence-table.c]);
      [IifFence] what runs under the lock of one fence, and the direct fences that
      the kernel signals itself ([iif-fence.c], [iif-direct.c]); [IifSystem] what
      takes locks, wakelocks and references: the submission of a command with the
      fences it waits for and those it signals, signals, the end of waiters, works,
      release and destruction ([iif-fence.c], [iif-manager.c], [iif-sync-file.c]),
      as threads that interleave.  [IifInv] is the invariant of a fence, [IifWorld]
      that of all of them, kept by what [IifSteps], [IifSubmit] and [IifOrder] show
      of the steps, by every move of [IifMoves]; [IifPower] relates wakelocks and
      waiters, [IifSignal] is about signals.  Theorems: [IifProps].

    [Interleaving] has what the proofs about mailboxes and fences share: counting
    the references that threads hold, and weakest preconditions of steps.

    ** How the code is modelled

    A C function is a definition of the same name; a structure is a record, a
    tagged union an inductive type.  Integers are [Z] with the wrap of their
    width written out ([u32], [s32], ... below), counters included.  What can fail
    is an [outcome] (below) or an [option]: [Undef] is what C leaves undefined (an
    access outside an object or after its release, a division by zero), and
    [Blocked] is a lock that is taken twice or a loop that runs out of fuel.  The
    kernel heap of the charging drivers is [Heap]; LWIS keeps heaps of its own in
    the client ([objects], [io_arrays]) and in the allocator.  Doubly linked lists
    are pointers for the allocator, whose code relinks them, and sequences for the
    transactions, whose code only adds and removes.  Code that runs under one lock
    is one step; operations are then interleaved in any order ([history] of
    [LwisClientProps], the programs of [AocRing] and [AocQueue], the [client] of
    [LwisAllocatorProps]).  Mailboxes and fences go further: an operation that other threads
    can run in the middle of is a list of steps, one for each section or atomic
    access, and a play is any interleaving of the steps of all threads.

    Interfaces are type classes or arguments: [lwis_vops] is the operation table a
    kind of device fills in, with the laws [lwis_clock] (time does not go back)
    and [lwis_reads] (a read fills its size) that clients are proved against;
    [lwis_fences] is the kernel's fences; [nvmem] is the kernel's memory chips, with
    [nvmem_laws]; [desc_laws] is what the battery storage relies on in a provider, which
    [gbee_laws] shows of the EEPROM; [lwis_event_ops] the interrupts of a
    device and, through the top device, the other ones; [gcip_mailbox_ops] is the
    operation table of a mailbox, with the laws [user_laws] and [match_laws] that
    [kci_laws] and [kci_match] discharge; the [world] of the charging drivers
    holds which allocations succeed, the device tree and the callbacks.  Every
    property with such a hypothesis has a witness that instantiates it.

    ** What the theorems show

    - Refinement: rings and queues deliver what a FIFO would
      ([aoc_ring_refines_fifo], [aoc_queue_refines_mailbox]), also when the
      counters wrap, for queues if the number of slots divides 2^32; the recycling allocator implements allocation of fresh
      buffers ([lwis_allocator_safe]); the firmware takes the commands of the kernel
      as from a bounded FIFO ([kci_fifo]), and its requests are handled so
      ([kci_requests_fifo]); reading a log buffer gives the last lines of all that
      was logged ([logbuffer_keeps_last]).
    - Invariants over every sequence of operations: the optimal vote is published
      with the locks released ([gvotable_election_optimal]); a transaction ends
      exactly once, with no use of freed memory ([lwis_transactions_exactly_once]);
      tier averages stay between minima and maxima ([gbms_tier_averages_between]) and
      what is learned of a charge near its reference ([ttf_learned_near_reference]); a
      write to the EEPROM leaves the other fields alone ([eeprom_fields_apart]), and the
      conversion of its layout keeps the history ([lotr_v1_keeps_history]); every operation on a camera device keeps it well formed
      ([lwis_device_well_formed]); in every interleaving a mailbox uses only memory
      that lives and leaks none ([gcip_mailbox_safe], [gcip_mailbox_no_leak]), a
      command is settled once ([gcip_settled_once]) and gets its own response
      ([kci_answer]); a fence lives as long as anything uses it ([iif_fence_safe]),
      each wakelock is released once ([iif_wakelocks_balance]) and an IP that waits
      holds one ([iif_waiters_powered]).
    - Liveness and termination: the worker drains its queue
      ([lwis_worker_drains]), the emission of an event and of all it causes ends
      ([lwis_event_emission_ends]), a cancellation does not wait for ever
      ([gcip_cancel_wait_ends]), fetching ends with all responses
      ([gcip_fetch_responses_all]), freed buffers are recycled
      ([lwis_allocator_recycles]), the last release frees all
      ([lwis_allocator_release_frees]), the log handler ends.
    - Equivalence with a reference: turns with a limit do what one run does
      ([lwis_turns_equal_single_run]); the lookups of the charge table return the
      tier their specification names; conditions on fences are AND and OR; a
      command is refused exactly when two of its fences are the same
      ([iif_submission_uniqueness]); the storage with its cache behaves as it does
      without ([storage_cache_transparent]); an estimate of the time to full is the sum
      of those of its parts ([ttf_estimate_additive]).
    - Bounds, round trips, and error paths.  The last signal of a fence, and no
      other, unblocks it ([iif_signals_unblock_once]); an error that the table
      holds is read as one ([iif_error_codes]); what is written to the EEPROM is read back
      ([eeprom_write_read]).
    - Failures that hold of the code as it is: an election whose lock is leaked, an
      aged profile that frees the table in use, a queue that skips slots when its
      counter wraps, a request cut to 32 bits, the high priority path and the flush
      of repeating transactions, which use freed memory, an emission that never
      ends, an interrupt that stays enabled, a timeout that ends the wrong command
      ([gcip_early_timeout]), submissions that wait for each other's locks
      ([iif_submissions_deadlock]), a signal that is refused after it has unblocked
      its fence ([iif_signal_race]), a fence that is looked up while it dies
      ([iif_get_from_id_dying]), a sync point added to a retired fence
      ([iif_sync_point_after_retire]), a message that logs the stack
      ([logbuffer_null_reads_stack]), a provider taken offline instead of another
      ([storage_offline_next_provider]), a layout of the EEPROM in which fields overlap
      ([eeprom_v1_fields_overlap]), a conversion that forgets to move the history
      ([lotr_v2_garbles_history]), entries behind one of an unknown type, which only
      turns execute ([lwis_turns_pass_unrecognized]), a division by the resolution of a
      device tree that may be 0 ([gbms_init_chg_profile_ok]), an estimate by tiers and a
      reference that are read outside of their arrays ([ttf_tier_estimate_overruns],
      [ttf_reference_short]) and one of less than a percent that is more than a percent
      ([ttf_estimate_within_percent]).

    The theorems about sequences of operations say which operations: what is known to
    fail is left out of them and is in the list above.  The disciplined plays of
    mailboxes and fences leave out early timers, timed commands without a response,
    sync points on retired fences and lookups of dying ones; those of the camera leave
    out flushes, the high priority path and transactions that repeat or are nested;
    those of elections the changes of the default that keep a lock.

    ** Bounds and fuel

    Loops over arrays recurse on the list or on the number of elements left, the
    printing of a number on its digits.  The other loops have fuel, with a theorem
    that it is enough: the poll of a register (100 turns per millisecond of
    timeout, as each turn sleeps 10 microseconds at least, [LwisProcessProps]), the
    turns of a transaction (one per entry and one more), the release of the
    allocator's lists (their length), and the emission of pending events (as many
    as transactions wait; with one that repeats and triggers itself, no fuel is),
    the fetching of responses and the work on requests (more than the queue has
    elements), the reading of a log buffer (its entries), and the merge of the
    fences of a command (the length of both arrays).
    The cancellation of nested transactions takes their depth from its caller.

    ** Not modelled

    Memory barriers, the interleaving of code inside a lock's section, reference
    counts of fences and devices, text dumps (debugfs, logs, dumps of profiles),
    and failures of small allocations inside the LWIS operations.  Of LWIS: the
    ioctl layer's copies from and to user space, interrupts, the subscriptions
    kept by the top device, periodic I/O, bus managers and the devices behind
    [lwis_vops].  Of the charging drivers: the state machines of the charger and
    the battery, the texts of the time to full and its fake value, the debug files of the
    battery storage, and the chip drivers.  Of the accelerators: the values of timeouts (a timer may fire at
    any time), lists of waiters that mailboxes share, the allocation of mailboxes,
    the payload of commands, the other users of mailboxes, memory and power
    management.  Of the fences: sync units other than direct fences, waiting in the
    kernel with a timeout, the poll and ioctl of sync files, the waiter of
    submissions, the bridge to DMA fences, warnings and the mapping of the table.  The other modules (Wi-Fi, GPU, display, touch, radio, SoC) are
    vendor or board support code and are left out whole. *)

From stdpp Require Export base list numbers option strings gmap.
From Stdlib Require Export ZArith Lia.

#[global] Open Scope Z_scope.

(** ** Machine integers *)

Definition u8 (x : Z) : Z := x mod 2 ^ 8.
Definition u16 (x : Z) : Z := x mod 2 ^ 16.
Definition u32 (x : Z) : Z := x mod 2 ^ 32.
Definition u64 (x : Z) : Z := x mod 2 ^ 64.
Definition s8 (x : Z) : Z := (x + 2 ^ 7) mod 2 ^ 8 - 2 ^ 7.
Definition s16 (x : Z) : Z := (x + 2 ^ 15) mod 2 ^ 16 - 2 ^ 15.
Definition s32 (x : Z) : Z := (x + 2 ^ 31) mod 2 ^ 32 - 2 ^ 31.
Definition s64 (x : Z) : Z := (x + 2 ^ 63) mod 2 ^ 64 - 2 ^ 63.

(** [SIZE_MAX] on the 64-bit targets of the drivers. *)
Definition SIZE_MAX : Z := 2 ^ 64 - 1.

(** ** Error codes of the kernel, as returned (negated [errno]). *)
Definition EPERM : Z := 1.
Definition ENOENT : Z := 2.
Definition EIO : Z := 5.
Definition EBADF : Z := 9.
Definition EAGAIN : Z := 11.
Definition ENOMEM : Z := 12.
Definition EACCES : Z := 13.
Definition EFAULT : Z := 14.
Definition EBUSY : Z := 16.
Definition EEXIST : Z := 17.
Definition ENODEV : Z := 19.
Definition EINVAL : Z := 22.
Definition ENOSPC : Z := 28.
Definition ERANGE : Z := 34.
Definition EDEADLK : Z := 35.
Definition ETIME : Z := 62.
Definition EBADMSG : Z := 74.
Definition EOVERFLOW : Z := 75.
Definition EOPNOTSUPP : Z := 95.
Definition ETIMEDOUT : Z := 110.
Definition EALREADY : Z := 114.
Definition ECANCELED : Z := 125.
Definition EOWNERDEAD : Z := 130.
Definition ENOTRECOVERABLE : Z := 131.
Definition MAX_ERRNO : Z := 4095.

(** ** Arithmetic lemmas on the wrapped integers *)

Lemma u8_range x : 0 <= u8 x < 2 ^ 8.
Proof. apply Z.mod_pos_bound. lia. Qed.

Lemma u16_range x : 0 <= u16 x < 2 ^ 16.
Proof. apply Z.mod_pos_bound. lia. Qed.

Lemma u32_range x : 0 <= u32 x < 2 ^ 32.
Proof. apply Z.mod_pos_bound. lia. Qed.

Lemma u64_range x : 0 <= u64 x < 2 ^ 64.
Proof. apply Z.mod_pos_bound. lia. Qed.

Lemma s32_range x : - 2 ^ 31 <= s32 x < 2 ^ 31.
Proof.
  unfold s32. pose proof (Z.mod_pos_bound (x + 2 ^ 31) (2 ^ 32) ltac:(lia)). lia.
Qed.

Lemma s8_range x : - 2 ^ 7 <= s8 x < 2 ^ 7.
Proof.
  unfold s8. pose proof (Z.mod_pos_bound (x + 2 ^ 7) (2 ^ 8) ltac:(lia)). lia.
Qed.

Lemma s16_range x : - 2 ^ 15 <= s16 x < 2 ^ 15.
Proof.
  unfold s16. pose proof (Z.mod_pos_bound (x + 2 ^ 15) (2 ^ 16) ltac:(lia)). lia.
Qed.

Lemma u8_small x : 0 <= x < 2 ^ 8 → u8 x = x.
Proof. apply Z.mod_small. Qed.

Lemma u16_small x : 0 <= x < 2 ^ 16 → u16 x = x.
Proof. apply Z.mod_small. Qed.

Lemma u32_small x : 0 <= x < 2 ^ 32 → u32 x = x.
Proof. apply Z.mod_small. Qed.

Lemma u64_small x : 0 <= x < 2 ^ 64 → u64 x = x.
Proof. apply Z.mod_small. Qed.

Lemma s8_small x : - 2 ^ 7 <= x < 2 ^ 7 → s8 x = x.
Proof. intros H. unfold s8. rewrite Z.mod_small; lia. Qed.

Lemma s16_small x : - 2 ^ 15 <= x < 2 ^ 15 → s16 x = x.
Proof. intros H. unfold s16. rewrite Z.mod_small; lia. Qed.

Lemma s64_small x : - 2 ^ 63 <= x < 2 ^ 63 → s64 x = x.
Proof. intros H. unfold s64. rewrite Z.mod_small; lia. Qed.

Lemma s32_small x : - 2 ^ 31 <= x < 2 ^ 31 → s32 x = x.
Proof. intros H. unfold s32. rewrite Z.mod_small; lia. Qed.

Lemma s32_u32 x : s32 (u32 x) = s32 x.
Proof. unfold s32, u32. by rewrite Z.add_mod_idemp_l by lia. Qed.

Lemma u32_s32 x : u32 (s32 x) = u32 x.
Proof.
  unfold u32, s32. rewrite Zminus_mod_idemp_l. f_equal. lia.
Qed.

Lemma u32_u32 x : u32 (u32 x) = u32 x.
Proof. unfold u32. by rewrite Z.mod_mod by lia. Qed.

Lemma u32_add_l x y : u32 (u32 x + y) = u32 (x + y).
Proof. unfold u32. by rewrite Z.add_mod_idemp_l by lia. Qed.

Lemma u32_sub_l x y : u32 (u32 x - y) = u32 (x - y).
Proof. unfold u32. by rewrite Zminus_mod_idemp_l. Qed.

(** Reduction modulo a ring size, for an argument known to lie in one of the
    two turns around the ring. *)
Lemma mod_first a n : 0 <= a < n → a mod n = a.
Proof. apply Z.mod_small. Qed.

Lemma mod_second a n : n <= a < 2 * n → a mod n = a - n.
Proof. intros H. symmetry. apply (Z.mod_unique _ _ 1); lia. Qed.

Lemma mod_before a n : - n <= a < 0 → a mod n = a + n.
Proof. intros H. symmetry. apply (Z.mod_unique _ _ (-1)); lia. Qed.

Create HintDb wrap.
Create Rewrite HintDb wrap.
#[export] Hint Rewrite u32_u32 u32_add_l u32_sub_l s32_u32 : wrap.
#[export] Hint Resolve u8_range u16_range u32_range u64_range s8_range s16_range s32_range : wrap.

(** Drops every wrap whose argument [lia] can bound by the hypotheses. *)
Ltac unwrap :=
  repeat match goal with
  | |- context [u8 ?x] => rewrite (u8_small x) by lia
  | |- context [u16 ?x] => rewrite (u16_small x) by lia
  | |- context [u32 ?x] => rewrite (u32_small x) by lia
  | |- context [u64 ?x] => rewrite (u64_small x) by lia
  | |- context [s8 ?x] => rewrite (s8_small x) by lia
  | |- context [s16 ?x] => rewrite (s16_small x) by lia
  | |- context [s32 ?x] => rewrite (s32_small x) by lia
  | |- context [s64 ?x] => rewrite (s64_small x) by lia
  end.

(** Case analysis on the boolean comparisons the C conditions become, the
    innermost first. *)
Ltac no_if t := lazymatch t with context [if _ then _ else _] => fail | _ => idtac end.

Ltac case_bool :=
  match goal with
  | |- context [Z.ltb ?x ?y] => no_if x; no_if y; destruct (Z.ltb_spec x y)
  | |- context [Z.leb ?x ?y] => no_if x; no_if y; destruct (Z.leb_spec x y)
  | |- context [Z.eqb ?x ?y] => no_if x; no_if y; destruct (Z.eqb_spec x y)
  | |- context [Z.gtb ?x ?y] => rewrite (Z.gtb_ltb x y)
  | |- context [Z.geb ?x ?y] => rewrite (Z.geb_leb x y)
  end.

(** ** Byte memory

    The shared or private memory a driver copies to and from: a byte at every
    address.  [mem_store] is [memcpy]/[memcpy_toio] into it, [mem_load] the
    copy out of it. *)
Abbreviation memory := (Z → Z).

Definition mem_store (m : memory) (a : Z) (l : list Z) : memory :=
  λ x, if decide (a <= x < a + Z.of_nat (length l))
       then default 0 (l !! Z.to_nat (x - a)) else m x.

Definition mem_load (m : memory) (a n : Z) : list Z :=
  (λ i, m (a + i)) <$> seqZ 0 n.

Lemma mem_store_in m a l x :
  a <= x < a + Z.of_nat (length l) →
  mem_store m a l x = default 0 (l !! Z.to_nat (x - a)).
Proof. intros H. unfold mem_store. by rewrite decide_True. Qed.

Lemma mem_store_out m a l x :
  ¬ (a <= x < a + Z.of_nat (length l)) → mem_store m a l x = m x.
Proof. intros H. unfold mem_store. by rewrite decide_False. Qed.

Lemma length_mem_load m a n : length (mem_load m a n) = Z.to_nat n.
Proof. unfold mem_load. by rewrite length_fmap, length_seqZ. Qed.

Lemma lookup_mem_load m a n (i : nat) :
  Z.of_nat i < n → mem_load m a n !! i = Some (m (a + Z.of_nat i)).
Proof.
  intros H. unfold mem_load.
  rewrite list_lookup_fmap, lookup_seqZ_lt by lia. simpl. do 2 f_equal. 
Qed.

Lemma mem_load_store m a (l : list Z) :
  mem_load (mem_store m a l) a (Z.of_nat (length l)) = l.
Proof.
  apply list_eq_same_length with (n := length l); [done|by rewrite length_mem_load, Nat2Z.id|].
  intros i x y Hi. rewrite lookup_mem_load by lia. intros [= <-] Hy.
  rewrite mem_store_in by lia.
  replace (Z.to_nat (a + Z.of_nat i - a)) with i by lia. by rewrite Hy.
Qed.

Lemma mem_load_store_ne m a b n (l : list Z) :
  b + n <= a ∨ a + Z.of_nat (length l) <= b →
  mem_load (mem_store m a l) b n = mem_load m b n.
Proof.
  intros H. unfold mem_load. apply list_fmap_ext. intros i x Hi.
  apply lookup_seqZ in Hi as [-> ?]. apply mem_store_out. lia.
Qed.

Lemma mem_load_shift (m m' : memory) a b n :
  (∀ y, 0 <= y < n → m' (a + y) = m (b + y)) → mem_load m' a n = mem_load m b n.
Proof.
  intros H. unfold mem_load. apply list_fmap_ext. intros i x Hi. apply lookup_seqZ in Hi as [-> ?].
  apply H. lia.
Qed.

Lemma mem_load_app m a p q : 0 <= p → 0 <= q →
  mem_load m a (p + q) = mem_load m a p ++ mem_load m (a + p) q.
Proof.
  intros Hp Hq. unfold mem_load. rewrite seqZ_app, fmap_app, Z.add_0_l by done. f_equal.
  apply list_eq. intros j. rewrite !list_lookup_fmap. destruct (decide (Z.of_nat j < q)).
  - rewrite !lookup_seqZ_lt by done. cbn. do 2 f_equal. lia.
  - by rewrite !lookup_seqZ_ge by lia.
Qed.

(** [n] bytes of a caller's buffer from offset [off]; [None] when the buffer is
    shorter (an out-of-bounds read, undefined behaviour). *)
Definition buf_read (l : list Z) (off n : Z) : option (list Z) :=
  if decide (0 <= off ∧ 0 <= n ∧ off + n <= Z.of_nat (length l))
  then Some (take (Z.to_nat n) (drop (Z.to_nat off) l)) else None.

(** The last [n] elements: what a lossy window of [n] entries retains. *)
Definition lastn {A} (n : nat) (l : list A) : list A :=
  drop (length l - n) l.

Lemma length_lastn {A} n (l : list A) : length (lastn n l) = min (length l) n.
Proof. unfold lastn. rewrite length_drop. lia. Qed.

Lemma lastn_all {A} n (l : list A) : (length l ≤ n)%nat → lastn n l = l.
Proof. intros H. unfold lastn. by replace (length l - n)%nat with 0%nat by lia. Qed.

Lemma lookup_lastn {A} n (l : list A) i :
  lastn n l !! i = l !! (length l - n + i)%nat.
Proof. apply lookup_drop. Qed.

Lemma buf_read_ok l off n :
  0 <= off → 0 <= n → off + n <= Z.of_nat (length l) →
  buf_read l off n = Some (take (Z.to_nat n) (drop (Z.to_nat off) l)).
Proof. intros. unfold buf_read. by rewrite decide_True by lia. Qed.

Lemma buf_read_all l : buf_read l 0 (Z.of_nat (length l)) = Some l.
Proof. rewrite buf_read_ok by lia. by rewrite drop_0, Nat2Z.id, firstn_all. Qed.

(** ** Outcomes of stateful code

    [Ok] is a return; [Blocked] is a task that waits for ever (a mutex it
    already holds); [Undef] is undefined behaviour (a null or dangling pointer
    is dereferenced). *)
Inductive outcome (A : Type) : Type :=
| Ok (a : A)
| Blocked
| Undef.

Arguments Ok {A} _.
Arguments Blocked {A}.
Arguments Undef {A}.

#[global] Instance outcome_ret : MRet outcome := λ A x, Ok x.
#[global] Instance outcome_bind : MBind outcome := λ A B f o,
  match o with Ok x => f x | Blocked => Blocked | Undef => Undef end.

#[global] Instance outcome_fmap : FMap outcome := λ A B f o,
  match o with Ok x => Ok (f x) | Blocked => Blocked | Undef => Undef end.

(** A value that must be there, [Undef] otherwise. *)
Definition must {A} (o : option A) : outcome A :=
  match o with Some x => Ok x | None => Undef end.

(** Whether a function returns. *)
Definition returns {A} (o : outcome A) : bool := match o with Ok _ => true | _ => false end.

Lemma returns_false {A} (o : outcome A) : (∀ x, o ≠ Ok x) → returns o = false.
Proof. by destruct o as [x| |]; intros Ho; [destruct (Ho x)| |]. Qed.

Lemma outcome_bind_Ok {A B} (f : A → outcome B) o y :
  (o ≫= f) = Ok y ↔ ∃ x, o = Ok x ∧ f x = Ok y.
Proof.
  split; [|by intros (x & -> & H)]. destruct o as [x| |]; simpl; [eauto|done|done].
Qed.

(** ** C strings, without their terminating zero *)

(** [strlcpy] into an array of [n > 0] bytes: what the array then holds. *)
Definition strlcpy (src : string) (n : nat) : string := String.substring 0 (n - 1) src.

(** [strncmp(a, b, n) == 0] *)
Definition strncmp_eq (a b : string) (n : nat) : bool :=
  String.eqb (String.substring 0 n a) (String.substring 0 n b).

Lemma substring_all n s : (String.length s ≤ n)%nat → String.substring 0 n s = s.
Proof.
  revert n. induction s as [|c s IH]; intros [|n] H; simpl in *; try done; [lia|].
  f_equal. apply IH. lia.
Qed.

Lemma length_substring n s :
  String.length (String.substring 0 n s) = Nat.min n (String.length s).
Proof.
  revert n. induction s as [|c s IH]; intros [|n]; simpl; try done. by rewrite IH.
Qed.

Lemma strlcpy_short s n : (String.length s < n)%nat → strlcpy s n = s.
Proof. intros H. apply substring_all. lia. Qed.

Lemma strncmp_eq_short a b n :
  (String.length a < n)%nat → (String.length b < n)%nat →
  strncmp_eq a b n = true ↔ a = b.
Proof.
  intros Ha Hb. unfold strncmp_eq. rewrite !substring_all by lia. apply String.eqb_eq.
Qed.

Lemma delete_insert_list {A} (l : list A) i x : delete i (<[i := x]> l) = delete i l.
Proof.
  revert i. induction l as [|a l IH]; intros [|i]; simpl; try done. by rewrite IH.
Qed.

(** A string cut to less than [n] bytes never equals one of at least [n]. *)
Lemma strncmp_eq_long a b n :
  (String.length a < n ≤ String.length b)%nat → strncmp_eq a b n = false.
Proof.
  intros H. unfold strncmp_eq. apply String.eqb_neq. intros He.
  apply (f_equal String.length) in He. rewrite !length_substring in He. lia.
Qed.
