(* ===== verification/Interleaving.v ===== *)
(** * Interleavings

    What the models of concurrent code share: counting the elements of a list (the
    references that threads hold), and the weakest precondition of an outcome, which
    a step that waits satisfies and undefined behaviour does not. *)

From S2P Require Import Prelude.

(** ** Counting *)

Definition cnt {A} (f : A → nat) (l : list A) : nat := sum_list_with f l.

Lemma cnt_nil {A} (f : A → nat) : cnt f [] = 0%nat.
Proof. done. Qed.

Lemma cnt_cons {A} (f : A → nat) x l : cnt f (x :: l) = (f x + cnt f l)%nat.
Proof. done. Qed.

Lemma cnt_app {A} (f : A → nat) l1 l2 : cnt f (l1 ++ l2) = (cnt f l1 + cnt f l2)%nat.
Proof. apply sum_list_with_app. Qed.

Lemma cnt_insert {A} (f : A → nat) l i x y :
  l !! i = Some x → (cnt f (<[i := y]> l) + f x = cnt f l + f y)%nat.
Proof.
  revert i. induction l as [|z l IH]; intros [|i] Hi; simplify_eq/=; rewrite ?cnt_cons; [lia|].
  specialize (IH i Hi). lia.
Qed.

Lemma cnt_lookup {A} (f : A → nat) l i x : l !! i = Some x → (f x ≤ cnt f l)%nat.
Proof.
  revert i. induction l as [|z l IH]; intros [|i] Hi; simplify_eq/=; rewrite ?cnt_cons; [lia|].
  specialize (IH i Hi). lia.
Qed.

Lemma cnt_two {A} (f : A → nat) l i j x y :
  i ≠ j → l !! i = Some x → l !! j = Some y → (f x + f y ≤ cnt f l)%nat.
Proof.
  revert i j. induction l as [|z l IH]; intros [|i] [|j] Hij Hi Hj; simplify_eq/=;
    rewrite ?cnt_cons; try done.
  - pose proof (cnt_lookup f l j y Hj). lia.
  - pose proof (cnt_lookup f l i x Hi). lia.
  - specialize (IH i j ltac:(congruence) Hi Hj). lia.
Qed.

Lemma cnt_zero {A} (f : A → nat) l : cnt f l = 0%nat ↔ ∀ x, x ∈ l → f x = 0%nat.
Proof.
  induction l as [|z l IH]; [by split; [intros _ x ?%elem_of_nil|]|].
  rewrite cnt_cons. split.
  - intros H0 x [->|Hx]%elem_of_cons; [lia|]. apply IH; [lia|done].
  - intros H0. rewrite (H0 z), (proj2 IH) by set_solver. done.
Qed.

(** [1] if [P] holds *)
Definition one (P : Prop) `{Decision P} : nat := if decide P then 1%nat else 0%nat.

Lemma one_yes P `{Decision P} : P → one P = 1%nat.
Proof. intros. unfold one. by rewrite decide_True. Qed.

Lemma one_no P `{Decision P} : ¬ P → one P = 0%nat.
Proof. intros. unfold one. by rewrite decide_False. Qed.

(** ** Weakest preconditions of outcomes *)

Definition wp {A} (o : outcome A) (Q : A → Prop) : Prop :=
  match o with Ok x => Q x | Blocked => True | Undef => False end.

Lemma wp_bind {A B} (o : outcome A) (f : A → outcome B) Q :
  wp o (λ x, wp (f x) Q) → wp (o ≫= f) Q.
Proof. by destruct o. Qed.

Lemma wp_mono {A} (o : outcome A) (P Q : A → Prop) : wp o P → (∀ x, P x → Q x) → wp o Q.
Proof. destruct o; simpl; auto. Qed.

Lemma wp_must {A} (x : option A) y Q : x = Some y → Q y → wp (must x) Q.
Proof. by intros ->. Qed.

Lemma must_Ok {A} (x : option A) y : must x = Ok y → x = Some y.
Proof. by destruct x; intros [= ->]. Qed.

(** ** Automation *)

Ltac simp_one :=
  repeat match goal with
  | |- context [one ?P] =>
      first [rewrite (one_yes P) by done|rewrite (one_no P) by (done || congruence)]
  | Ho : context [one ?P] |- _ =>
      first [rewrite (one_yes P) in Ho by done|rewrite (one_no P) in Ho by (done || congruence)]
  end.

Ltac counts := simpl in *; simp_one; simpl; done || lia.

Ltac singletons :=
  repeat match goal with
  | H : _ ∈ [] |- _ => by apply elem_of_nil in H
  | H : _ ∈ _ :: _ |- _ => apply elem_of_cons in H as [->|H]
  end.
