(* ===== verification/Heap.v ===== *)
(** * The kernel heap

    Blocks allocated by [kzalloc], as the drivers use them: a block is the list
    of its cells (bytes, or 32-bit words for an array of [u32]) and its address
    is the key.  Which allocations succeed, and where, is the world's. *)

From S2P Require Import Prelude.

(** Blocks by address, and the outcomes of the allocations to come ([None], or
    nothing left, is a failure). *)
Record world := World {
  heap : gmap Z (list Z);
  allocs : list (option Z)
}.

Definition kzalloc (n : Z) (w : world) : option Z * world :=
  match w.(allocs) with
  | Some a :: rest => (Some a, World (<[a := replicate (Z.to_nat n) 0]> w.(heap)) rest)
  | None :: rest => (None, World w.(heap) rest)
  | [] => (None, w)
  end.

(** [kfree]; freeing NULL does nothing. *)
Definition kfree (a : Z) (w : world) : world :=
  if a =? 0 then w else World (delete a w.(heap)) w.(allocs).

(** Overwrites the first cells of a block. *)
Definition heap_store (dst : Z) (cells : list Z) (w : world) : outcome world :=
  to ← must (w.(heap) !! dst);
  if Z.of_nat (length to) <? Z.of_nat (length cells) then Undef
  else Ok (World (<[dst := cells ++ drop (length cells) to]> w.(heap)) w.(allocs)).

(** [memcpy(dst, src, n)] between two blocks. *)
Definition heap_memcpy (dst src n : Z) (w : world) : outcome world :=
  from ← must (w.(heap) !! src);
  cells ← must (buf_read from 0 n);
  heap_store dst cells w.

Lemma kzalloc_Some n w p w' :
  kzalloc n w = (Some p, w') →
  w'.(heap) = <[p := replicate (Z.to_nat n) 0]> w.(heap) ∧
  w.(allocs) = Some p :: w'.(allocs).
Proof.
  unfold kzalloc. destruct (allocs w) as [|[a|] rest]; try done. by intros [= -> <-].
Qed.

Lemma kzalloc_None n w w' : kzalloc n w = (None, w') → w'.(heap) = w.(heap).
Proof. unfold kzalloc. destruct (allocs w) as [|[a|] rest]; by intros [= <-]. Qed.

Lemma heap_store_Ok dst cells w w' :
  heap_store dst cells w = Ok w' →
  ∃ to, w.(heap) !! dst = Some to ∧ (length cells ≤ length to)%nat ∧
    w' = World (<[dst := cells ++ drop (length cells) to]> w.(heap)) w.(allocs).
Proof.
  unfold heap_store. destruct (heap w !! dst) as [to|]; simpl; [|done].
  case_bool; [done|]. intros [= <-]. exists to. split_and!; [done|lia|done].
Qed.
