(* ===== verification/GoogleBms.v ===== *)
(** * google_bms: the charge profile

    Model of the charge table of [google-modules/bms/google_bms.c] and
    [google_bms.h]: how the profile is read from the device tree, scaled to the
    capacity of the battery, replaced by an aged profile (AACT), and how a
    temperature, a voltage or a cycle count selects an entry.  The arrays of
    the structure are lists of their declared lengths; reading outside of one
    is [Undef], as is a division by zero.  [cccm_limits] and the AACT table are
    blocks of the kernel heap.  The device tree and the storage of the battery
    identifier are the environment's. *)

From S2P Require Import Prelude Heap.

Definition GBMS_DEFAULT_FV_UV_RESOLUTION : Z := 25000.
Definition GBMS_DEFAULT_FV_UV_MARGIN_DPCT : Z := 1020.
Definition GBMS_DEFAULT_FV_DC_RATIO : Z := 20.
Definition GBMS_DEFAULT_CV_DEBOUNCE_CNT : Z := 3.
Definition GBMS_DEFAULT_CV_UPDATE_INTERVAL : Z := 2000.
Definition GBMS_DEFAULT_CV_TIER_OV_CNT : Z := 10.
Definition GBMS_DEFAULT_CV_TIER_SWITCH_CNT : Z := 3.
Definition GBMS_DEFAULT_CV_OTV_MARGIN : Z := 0.

Definition GBMS_STORAGE_READ_RETRIES : Z := 20.
Definition EPROBE_DEFER : Z := 517.

Definition GBMS_CHG_TEMP_NB_LIMITS_MAX : Z := 10.
Definition GBMS_CHG_VOLT_NB_LIMITS_MAX : Z := 10.
Definition GBMS_CHG_TOPOFF_NB_LIMITS_MAX : Z := 10.
Definition GBMS_AACR_DATA_MAX : Z := 10.
Definition GBMS_AAFV_DATA_MAX : Z := 16.
Definition GBMS_AACT_NB_LIMITS_MAX : Z := 5.
Definition GBMS_AACC_TEMP_NB_MAX : Z := 10.
Definition GBMS_AACC_SOC_SIZE : Z := 100.

(** ** Data: [struct gbms_chg_profile], by the groups its comments name *)

Record aacc_weight_profile := AaccWeights {
  w_temp_nb_limits : Z;
  w_temp_limits : list Z;
  weight_limits : Z
}.

Record cc_table := CcTable {
  temp_nb_limits : Z;
  temp_limits : list Z;
  volt_nb_limits : Z;
  volt_limits : list Z;
  topoff_nb_limits : Z;
  topoff_limits : list Z;
  cccm_limits : Z;
  capacity_ma : Z;
  last_volt : Z
}.

Record behavior := Behavior {
  fv_uv_margin_dpct : Z;
  fv_dc_ratio : Z;
  cv_range_accuracy : Z;
  cv_debounce_cnt : Z;
  cv_update_interval : Z;
  cv_tier_ov_cnt : Z;
  cv_tier_switch_cnt : Z;
  fv_uv_resolution : Z;
  cv_otv_margin : Z;
  cc_ua_resolution : Z;
  enable_switch_chg_profile : bool
}.

Record aacr_data := Aacr {
  aacr_reference_cycles : list Z;
  aacr_reference_fade10 : list Z;
  aacr_nb_limits : Z
}.

Record aafv_data := Aafv {
  aafv_cycles : list Z;
  aafv_offsets : list Z;
  aafv_nb_limits : Z
}.

Record aact_data := Aact {
  aact_temp_nb_limits : Z;
  aact_temp_limits : list Z;
  aact_volt_nb_limits : Z;
  aact_volt_limits : list Z;
  aact_nb_limits : Z;
  aact_limits : list Z;
  aact_idx : Z;
  aact_init_profile : bool;
  aact_update_profile : bool;
  aact_support_multiple_profiles : bool;
  aact_load_chg_ecc : bool;
  aact_cccm_limits : Z
}.

Record chg_profile := ChgProfile {
  owner_name : string;
  table : cc_table;
  tuning : behavior;
  aacr : aacr_data;
  aafv : aafv_data;
  aact : aact_data;
  aacc_chg : aacc_weight_profile;
  aacc_dsg : aacc_weight_profile
}.

Definition set_owner_name v (p : chg_profile) : chg_profile :=
  ChgProfile v p.(table) p.(tuning) p.(aacr) p.(aafv) p.(aact) p.(aacc_chg) p.(aacc_dsg).
Definition set_table v (p : chg_profile) : chg_profile :=
  ChgProfile p.(owner_name) v p.(tuning) p.(aacr) p.(aafv) p.(aact) p.(aacc_chg)
    p.(aacc_dsg).
Definition set_tuning v (p : chg_profile) : chg_profile :=
  ChgProfile p.(owner_name) p.(table) v p.(aacr) p.(aafv) p.(aact) p.(aacc_chg)
    p.(aacc_dsg).
Definition set_aacr v (p : chg_profile) : chg_profile :=
  ChgProfile p.(owner_name) p.(table) p.(tuning) v p.(aafv) p.(aact) p.(aacc_chg)
    p.(aacc_dsg).
Definition set_aafv v (p : chg_profile) : chg_profile :=
  ChgProfile p.(owner_name) p.(table) p.(tuning) p.(aacr) v p.(aact) p.(aacc_chg)
    p.(aacc_dsg).
Definition set_aact v (p : chg_profile) : chg_profile :=
  ChgProfile p.(owner_name) p.(table) p.(tuning) p.(aacr) p.(aafv) v p.(aacc_chg)
    p.(aacc_dsg).
Definition set_aacc_chg v (p : chg_profile) : chg_profile :=
  ChgProfile p.(owner_name) p.(table) p.(tuning) p.(aacr) p.(aafv) p.(aact) v p.(aacc_dsg).
Definition set_aacc_dsg v (p : chg_profile) : chg_profile :=
  ChgProfile p.(owner_name) p.(table) p.(tuning) p.(aacr) p.(aafv) p.(aact) p.(aacc_chg) v.

Definition set_cc_temps nb l (t : cc_table) : cc_table :=
  CcTable nb l t.(volt_nb_limits) t.(volt_limits) t.(topoff_nb_limits) t.(topoff_limits)
    t.(cccm_limits) t.(capacity_ma) t.(last_volt).
Definition set_cc_volts nb l (t : cc_table) : cc_table :=
  CcTable t.(temp_nb_limits) t.(temp_limits) nb l t.(topoff_nb_limits) t.(topoff_limits)
    t.(cccm_limits) t.(capacity_ma) t.(last_volt).
Definition set_cc_topoffs nb l (t : cc_table) : cc_table :=
  CcTable t.(temp_nb_limits) t.(temp_limits) t.(volt_nb_limits) t.(volt_limits) nb l
    t.(cccm_limits) t.(capacity_ma) t.(last_volt).
Definition set_cccm_limits v (t : cc_table) : cc_table :=
  CcTable t.(temp_nb_limits) t.(temp_limits) t.(volt_nb_limits) t.(volt_limits)
    t.(topoff_nb_limits) t.(topoff_limits) v t.(capacity_ma) t.(last_volt).
Definition set_capacity_ma v (t : cc_table) : cc_table :=
  CcTable t.(temp_nb_limits) t.(temp_limits) t.(volt_nb_limits) t.(volt_limits)
    t.(topoff_nb_limits) t.(topoff_limits) t.(cccm_limits) v t.(last_volt).
Definition set_last_volt v (t : cc_table) : cc_table :=
  CcTable t.(temp_nb_limits) t.(temp_limits) t.(volt_nb_limits) t.(volt_limits)
    t.(topoff_nb_limits) t.(topoff_limits) t.(cccm_limits) t.(capacity_ma) v.

Definition set_aact_temps nb l (a : aact_data) : aact_data :=
  Aact nb l a.(aact_volt_nb_limits) a.(aact_volt_limits) a.(aact_nb_limits)
    a.(aact_limits) a.(aact_idx) a.(aact_init_profile) a.(aact_update_profile)
    a.(aact_support_multiple_profiles) a.(aact_load_chg_ecc) a.(aact_cccm_limits).
Definition set_aact_volts nb l (a : aact_data) : aact_data :=
  Aact a.(aact_temp_nb_limits) a.(aact_temp_limits) nb l a.(aact_nb_limits)
    a.(aact_limits) a.(aact_idx) a.(aact_init_profile) a.(aact_update_profile)
    a.(aact_support_multiple_profiles) a.(aact_load_chg_ecc) a.(aact_cccm_limits).
Definition set_aact_ecc nb l (multiple loaded : bool) (a : aact_data) : aact_data :=
  Aact a.(aact_temp_nb_limits) a.(aact_temp_limits) a.(aact_volt_nb_limits)
    a.(aact_volt_limits) nb l a.(aact_idx) a.(aact_init_profile)
    a.(aact_update_profile) multiple loaded a.(aact_cccm_limits).
Definition set_aact_flags (init update : bool) (a : aact_data) : aact_data :=
  Aact a.(aact_temp_nb_limits) a.(aact_temp_limits) a.(aact_volt_nb_limits)
    a.(aact_volt_limits) a.(aact_nb_limits) a.(aact_limits) a.(aact_idx) init update
    a.(aact_support_multiple_profiles) a.(aact_load_chg_ecc) a.(aact_cccm_limits).
Definition set_aact_cccm_limits v (a : aact_data) : aact_data :=
  Aact a.(aact_temp_nb_limits) a.(aact_temp_limits) a.(aact_volt_nb_limits)
    a.(aact_volt_limits) a.(aact_nb_limits) a.(aact_limits) a.(aact_idx)
    a.(aact_init_profile) a.(aact_update_profile) a.(aact_support_multiple_profiles)
    a.(aact_load_chg_ecc) v.

(** ** The environment

    [of_property_count_elems_of_size] for 32-bit cells, and the other accessors
    of the device tree: an error code, and the values when it is not negative.
    [storage_brid k] is what the [k]-th read of the battery identifier made by
    one call of [gbms_batt_id_node] returns. *)
Class gbms_env := {
  dt_count : Z → string → Z;
  dt_array : Z → string → Z → Z * list Z;
  dt_u32 : Z → string → Z * Z;
  dt_bool : Z → string → bool;
  dt_children : Z → list Z;
  storage_brid : nat → Z * Z
}.

(** What the accessors document: a successful read stores as many 32-bit
    cells as asked, and never fewer than the count can be read. *)
Class gbms_env_ok (env : gbms_env) : Prop := {
  dt_array_length n s c : 0 <= (dt_array n s c).1 → 0 <= c →
    Z.of_nat (length (dt_array n s c).2) = c;
  dt_array_range n s c : Forall (λ v, 0 <= v < 2 ^ 32) (dt_array n s c).2;
  dt_u32_range n s : 0 <= (dt_u32 n s).2 < 2 ^ 32;
  dt_count_range n s : - 2 ^ 31 <= dt_count n s < 2 ^ 31
}.

(** An element of an array; outside of it the behaviour is undefined. *)
Definition at_ (l : list Z) (i : Z) : outcome Z :=
  if i <? 0 then Undef else must (l !! Z.to_nat i).

Section Bms.
Context `{env : gbms_env}.

(** ** The node of the battery *)

(** [do ... while (ret < 0 && retry_cnt-- > 0)]: the reads left once the
    first [k] asked to be deferred. *)
Fixpoint read_brid (k retries : nat) : Z * Z :=
  let '(ret, id) := storage_brid k in
  if negb (ret =? - EPROBE_DEFER) then (ret, id)
  else match retries with
       | O => (ret, id)
       | S retries => read_brid (S k) retries
       end.

Fixpoint find_batt_id (batt_id : Z) (l : list Z) : option Z :=
  match l with
  | [] => None
  | c :: l =>
      let '(ret, gbatt_id) := dt_u32 c "google,batt-id" in
      if (ret =? 0) && (batt_id =? gbatt_id) then Some c else find_batt_id batt_id l
  end.

Definition gbms_batt_id_node (config_node : Z) : Z :=
  let '(ret, batt_id) := read_brid 0 (Z.to_nat GBMS_STORAGE_READ_RETRIES) in
  if ret <? 0 then config_node
  else default config_node (find_batt_id batt_id (dt_children config_node)).

(** ** Reading arrays *)

(** [of_property_read_u32_array] into the first [n] elements of an array. *)
Definition read_array (node : Z) (prop : string) (n : Z) (l : list Z) : Z * list Z :=
  let '(ret, v) := dt_array node prop n in
  if ret <? 0 then (ret, l) else (ret, v ++ drop (length v) l).

(** The same into an array of [s32]. *)
Definition read_s32_array (node : Z) (prop : string) (n : Z) (l : list Z) : Z * list Z :=
  let '(ret, v) := dt_array node prop n in
  if ret <? 0 then (ret, l) else (ret, (s32 <$> v) ++ drop (length v) l).

(** The same into a block of the heap. *)
Definition read_block (node : Z) (prop : string) (n : Z) (dst : Z) (w : world) :
    outcome (Z * world) :=
  let '(ret, v) := dt_array node prop n in
  if ret <? 0 then Ok (ret, w) else w ← heap_store dst v w; Ok (ret, w).

(** First the node of the battery, then the configuration node. *)
Definition count_either (node : Z) (prop : string) : Z :=
  let n := dt_count (gbms_batt_id_node node) prop in
  if n <=? 0 then dt_count node prop else n.

Definition read_either_s32 (node : Z) (prop : string) (n : Z) (l : list Z) : Z * list Z :=
  let '(ret, l) := read_s32_array (gbms_batt_id_node node) prop n l in
  if ret <? 0 then read_s32_array node prop n l else (ret, l).

Definition read_either_block (node : Z) (prop : string) (n : Z) (dst : Z) (w : world) :
    outcome (Z * world) :=
  '(ret, w) ← read_block (gbms_batt_id_node node) prop n dst w;
  if ret <? 0 then read_block node prop n dst w else Ok (ret, w).

Definition read_u32_default (node : Z) (prop : string) (d : Z) : Z :=
  let '(ret, v) := dt_u32 node prop in if ret <? 0 then d else v.

(** ** The charge table *)

Definition gbms_read_cccm_limits (p : chg_profile) (node : Z) : Z * chg_profile :=
  let t := p.(table) in
  let nb := dt_count node "google,chg-temp-limits" in
  let t := set_cc_temps nb t.(temp_limits) t in
  if nb <=? 0 then (- EINVAL, set_table t p)
  else if GBMS_CHG_TEMP_NB_LIMITS_MAX <? nb then (- EINVAL, set_table t p)
  else
    let '(ret, l) := read_s32_array node "google,chg-temp-limits" nb t.(temp_limits) in
    let t := set_cc_temps nb l t in
    if ret <? 0 then (ret, set_table t p)
    else
      let nb := count_either node "google,chg-cv-limits" in
      let t := set_cc_volts nb t.(volt_limits) t in
      if nb <=? 0 then (- EINVAL, set_table t p)
      else if GBMS_CHG_VOLT_NB_LIMITS_MAX <? nb then (- EINVAL, set_table t p)
      else
        let '(ret, l) := read_either_s32 node "google,chg-cv-limits" nb t.(volt_limits) in
        let t := set_cc_volts nb l t in
        if ret <? 0 then (ret, set_table t p)
        else
          let nb := dt_count node "google,chg-topoff-limits" in
          let t := set_cc_topoffs nb
                     (replicate (Z.to_nat GBMS_CHG_TOPOFF_NB_LIMITS_MAX) 0) t in
          if 0 <? nb then
            if GBMS_CHG_TOPOFF_NB_LIMITS_MAX <? nb then (- EINVAL, set_table t p)
            else
              let '(ret, l) :=
                read_s32_array node "google,chg-topoff-limits" nb t.(topoff_limits) in
              (if ret <? 0 then ret else 0, set_table (set_cc_topoffs nb l t) p)
          else (0, set_table t p).

(** [volt_limits[vi] / fv_uv_resolution * fv_uv_resolution]: the division of a
    signed by an unsigned is unsigned. *)
Definition round_down (res v : Z) : outcome Z :=
  if res =? 0 then Undef else Ok (s32 (u32 (u32 v / res * res))).

Definition gbms_init_chg_profile_internal (p : chg_profile) (node : Z) (owner : string)
    (w : world) : outcome (Z * world * chg_profile) :=
  let p := set_owner_name owner p in
  let '(ret, p) := gbms_read_cccm_limits p node in
  if ret <? 0 then Ok (ret, w, p)
  else
    let t := p.(table) in
    let cccm_array_size := u32 ((t.(temp_nb_limits) - 1) * t.(volt_nb_limits)) in
    let '(ptr, w) := kzalloc cccm_array_size w in
    match ptr with
    | None => Ok (- ENOMEM, w, set_table (set_cccm_limits 0 t) p)
    | Some cccm =>
        '(ret, w) ← read_block node "google,chg-cc-limits" cccm_array_size cccm w;
        if ret <? 0
        then Ok (- EINVAL, kfree cccm w, set_table (set_cccm_limits 0 t) p)
        else
          let u := read_u32_default node in
          let res := u "google,fv-uv-resolution" GBMS_DEFAULT_FV_UV_RESOLUTION in
          let b :=
            Behavior (u "google,fv-uv-margin-dpct" GBMS_DEFAULT_FV_UV_MARGIN_DPCT)
              (u "google,fv-dc-ratio" GBMS_DEFAULT_FV_DC_RATIO)
              (u "google,cv-range-accuracy" (res / 2))
              (u "google,cv-debounce-cnt" GBMS_DEFAULT_CV_DEBOUNCE_CNT)
              (u "google,cv-update-interval" GBMS_DEFAULT_CV_UPDATE_INTERVAL)
              (u "google,cv-tier-ov-cnt" GBMS_DEFAULT_CV_TIER_OV_CNT)
              (u "google,cv-tier-switch-cnt" GBMS_DEFAULT_CV_TIER_SWITCH_CNT)
              res
              (u "google,cv-otv-margin" GBMS_DEFAULT_CV_OTV_MARGIN)
              (u "google,chg-cc-ua-resolution" res)
              (dt_bool node "google,enable-switch-chg-profile") in
          let nb := Z.to_nat t.(volt_nb_limits) in
          rounded ← mapM (round_down res) (take nb t.(volt_limits));
          let volts := rounded ++ drop nb t.(volt_limits) in
          last ← at_ volts (t.(volt_nb_limits) - 1);
          let t := set_last_volt (u32 last)
                     (set_cccm_limits cccm (set_cc_volts t.(volt_nb_limits) volts t)) in
          Ok (0, w, set_aact (set_aact_flags false false p.(aact))
                      (set_tuning b (set_table t p)))
    end.

Definition gbms_free_chg_profile (p : chg_profile) (w : world) : world * chg_profile :=
  (kfree p.(table).(cccm_limits) w, set_table (set_cccm_limits 0 p.(table)) p).

(** ** The aged charge tables *)

Definition aact_all_limits_temp_limits : list string :=
  ["google,aact-temp-limits"; "google,aact-temp-limits-1"; "google,aact-temp-limits-2";
   "google,aact-temp-limits-3"; "google,aact-temp-limits-4"].

Definition aact_all_limits_cv_limits : list string :=
  ["google,aact-cv-limits"; "google,aact-cv-limits-1"; "google,aact-cv-limits-2";
   "google,aact-cv-limits-3"; "google,aact-cv-limits-4"].

Definition aact_all_limits_cc_limits : list string :=
  ["google,aact-cc-limits"; "google,aact-cc-limits-1"; "google,aact-cc-limits-2";
   "google,aact-cc-limits-3"; "google,aact-cc-limits-4"].

Definition GBMS_AACT_TI (p : chg_profile) : Z :=
  if p.(aact).(aact_support_multiple_profiles) then 0
  else p.(aact).(aact_idx) * (p.(table).(temp_nb_limits) - 1).

Definition GBMS_AACT_IDX (p : chg_profile) : Z :=
  if p.(aact).(aact_support_multiple_profiles) then p.(aact).(aact_idx) else 0.

Definition GBMS_AACT_NB_LIMITS (p : chg_profile) : Z :=
  if p.(aact).(aact_support_multiple_profiles) then 1 else p.(aact).(aact_nb_limits).

(** An element of one of the arrays of property names. *)
Definition limits_name (l : list string) (p : chg_profile) : outcome string :=
  if GBMS_AACT_IDX p <? 0 then Undef else must (l !! Z.to_nat (GBMS_AACT_IDX p)).

Definition gbms_read_chg_aact_ecc (p : chg_profile) (node : Z) : Z * chg_profile :=
  let a := p.(aact) in
  let prop := "google,aact-support-multiple-profiles"%string in
  let multiple :=
    if dt_bool (gbms_batt_id_node node) prop then true else dt_bool node prop in
  let nb := count_either node "google,chg-aact-ecc" in
  let a := set_aact_ecc nb a.(aact_limits) multiple a.(aact_load_chg_ecc) a in
  if nb <=? 0 then (- EINVAL, set_aact a p)
  else if GBMS_AACT_NB_LIMITS_MAX <? nb then (- EINVAL, set_aact a p)
  else
    let '(ret, l) := read_either_s32 node "google,chg-aact-ecc" nb a.(aact_limits) in
    if ret <? 0 then (ret, set_aact (set_aact_ecc nb l multiple a.(aact_load_chg_ecc) a) p)
    else (0, set_aact (set_aact_ecc nb l multiple true a) p).

Definition gbms_read_aact_cccm_limits (p : chg_profile) (node : Z) :
    outcome (Z * chg_profile) :=
  let '(ret, p) :=
    if p.(aact).(aact_load_chg_ecc) then (0, p) else gbms_read_chg_aact_ecc p node in
  if ret <? 0 then Ok (ret, p)
  else
    temps ← limits_name aact_all_limits_temp_limits p;
    volts ← limits_name aact_all_limits_cv_limits p;
    let a := p.(aact) in
    let nb := count_either node temps in
    let a := set_aact_temps nb a.(aact_temp_limits) a in
    if nb <=? 0 then Ok (- EINVAL, set_aact a p)
    else if GBMS_CHG_TEMP_NB_LIMITS_MAX <? nb then Ok (- EINVAL, set_aact a p)
    else
      let '(ret, l) := read_either_s32 node temps nb a.(aact_temp_limits) in
      let a := set_aact_temps nb l a in
      if ret <? 0 then Ok (ret, set_aact a p)
      else
        let nb := count_either node volts in
        let a := set_aact_volts nb a.(aact_volt_limits) a in
        if nb <=? 0 then Ok (- EINVAL, set_aact a p)
        else if GBMS_CHG_VOLT_NB_LIMITS_MAX <? nb then Ok (- EINVAL, set_aact a p)
        else
          let '(ret, l) := read_either_s32 node volts nb a.(aact_volt_limits) in
          Ok (if ret <? 0 then ret else 0, set_aact (set_aact_volts nb l a) p).

(** The number of entries of the aged table. *)
Definition aact_array_size (p : chg_profile) : Z :=
  u32 ((p.(aact).(aact_temp_nb_limits) - 1) * p.(aact).(aact_volt_nb_limits)
       * GBMS_AACT_NB_LIMITS p).

Definition gbms_init_aact_profile_internal (p : chg_profile) (node : Z) (owner : string)
    (w : world) : outcome (Z * world * chg_profile) :=
  let p := set_owner_name owner p in
  if p.(aact).(aact_update_profile) then Ok (0, w, p)
  else
    '(ret, p) ← gbms_read_aact_cccm_limits p node;
    if ret <? 0 then Ok (ret, w, p)
    else
      let cccm_array_size := aact_array_size p in
      let '(ptr, w) := kzalloc cccm_array_size w in
      match ptr with
      | None => Ok (- ENOMEM, w, set_aact (set_aact_cccm_limits 0 p.(aact)) p)
      | Some cccm =>
          let p := set_aact (set_aact_cccm_limits cccm p.(aact)) p in
          limits ← limits_name aact_all_limits_cc_limits p;
          '(ret, w) ← read_either_block node limits cccm_array_size cccm w;
          if ret <? 0
          then Ok (- EINVAL, kfree p.(table).(cccm_limits) w,
                   set_table (set_cccm_limits 0 p.(table)) p)
          else Ok (0, w, p)
      end.

(** [memcpy] of the first [n] elements of an array over another's. *)
Definition copy_prefix (n : Z) (src dst : list Z) : outcome (list Z) :=
  if (Z.of_nat (length dst) <? n) then Undef
  else v ← must (buf_read src 0 n); Ok (v ++ drop (Z.to_nat n) dst).

Definition gbms_update_chg_profile_from_aact (p : chg_profile) (w : world) :
    outcome (Z * world * chg_profile) :=
  let a := p.(aact) in
  let cccm_array_size := aact_array_size p in
  let '(ptr, w) := kzalloc cccm_array_size w in
  match ptr with
  | None => Ok (- ENOMEM, w, set_table (set_cccm_limits 0 p.(table)) p)
  | Some cccm =>
      w ← heap_memcpy cccm a.(aact_cccm_limits) cccm_array_size w;
      let t := p.(table) in
      temps ← copy_prefix a.(aact_temp_nb_limits) a.(aact_temp_limits) t.(temp_limits);
      volts ← copy_prefix a.(aact_volt_nb_limits) a.(aact_volt_limits) t.(volt_limits);
      last ← at_ volts (a.(aact_volt_nb_limits) - 1);
      let t := set_last_volt (u32 last)
                 (set_cc_volts a.(aact_volt_nb_limits) volts
                   (set_cc_temps a.(aact_temp_nb_limits) temps (set_cccm_limits cccm t))) in
      Ok (0, w, set_aact (set_aact_flags true a.(aact_update_profile) a) (set_table t p))
  end.

(** ** Scaling the table to the capacity of the battery *)

(** [DIV_ROUND_CLOSEST(ccm, step) * step] for a [u32] and an [int]; the
    conditions of the macro are constant for an unsigned dividend. *)
Definition round_closest (ccm step : Z) : Z :=
  u32 (u32 (ccm + u32 (Z.quot step 2)) / u32 step * u32 step).

(** C rates, relative to 100, to currents in uA. *)
Definition scale_cc (capacity_ma cc_ua_step ccm : Z) : Z :=
  let ccm := u32 (ccm * u32 (capacity_ma * 10)) in
  if cc_ua_step =? 0 then ccm else round_closest ccm cc_ua_step.

(** The entries of the table in the order of the loops over [ti] and [vi]. *)
Definition gbms_init_chg_table (p : chg_profile) (node : Z) (capacity : Z) (w : world) :
    outcome (world * chg_profile) :=
  let cc_ua_step := s32 p.(tuning).(cc_ua_resolution) in
  let t := p.(table) in
  let p := set_table (set_capacity_ma capacity t) p in
  let rows := t.(temp_nb_limits) - 1 in
  let aact_rows := rows * GBMS_AACT_NB_LIMITS p in
  '(temp_nb_count, w) ←
    (if p.(aact).(aact_init_profile) && p.(aact).(aact_update_profile) then
       w ← heap_memcpy t.(cccm_limits) p.(aact).(aact_cccm_limits)
             (u32 (aact_rows * t.(volt_nb_limits))) w;
       Ok (aact_rows, w)
     else if negb p.(aact).(aact_init_profile) then
       '(_, w) ← read_block node "google,chg-cc-limits"
                   (u32 (rows * t.(volt_nb_limits))) t.(cccm_limits) w;
       Ok (rows, w)
     else
       limits ← limits_name aact_all_limits_cc_limits p;
       '(_, w) ← read_either_block node limits
                   (u32 (aact_rows * t.(volt_nb_limits))) t.(cccm_limits) w;
       Ok (aact_rows, w));
  let n := Z.max 0 temp_nb_count * Z.max 0 t.(volt_nb_limits) in
  if n =? 0 then Ok (w, p)
  else
    blk ← must (w.(heap) !! t.(cccm_limits));
    cells ← must (buf_read blk 0 n);
    w ← heap_store t.(cccm_limits) (scale_cc capacity cc_ua_step <$> cells) w;
    Ok (w, p).

(** ** Capacity fade, voltage offsets, weights *)

Definition gbms_read_aacr_limits (p : option chg_profile) (node : option Z) :
    Z * option chg_profile :=
  match p, node with
  | Some p, Some node =>
      let a := p.(aacr) in
      let set c f nb := Some (set_aacr (Aacr c f nb) p) in
      let cyc := a.(aacr_reference_cycles) in
      let fade := a.(aacr_reference_fade10) in
      let cycle_nb := dt_count node "google,aacr-ref-cycles" in
      if cycle_nb <? 0 then (cycle_nb, set cyc fade 0)
      else
        let fade10_nb := dt_count node "google,aacr-ref-fade10" in
        if fade10_nb <? 0 then (fade10_nb, set cyc fade 0)
        else if negb (cycle_nb =? fade10_nb) || (GBMS_AACR_DATA_MAX <? cycle_nb)
                || (cycle_nb =? 0)
        then (- ERANGE, set cyc fade 0)
        else
          let '(ret, cyc) := read_array node "google,aacr-ref-cycles" cycle_nb cyc in
          if ret <? 0 then (ret, set cyc fade a.(aacr_nb_limits))
          else
            let '(ret, fade) := read_array node "google,aacr-ref-fade10" fade10_nb fade in
            if ret <? 0 then (ret, set cyc fade a.(aacr_nb_limits))
            else (0, set cyc fade cycle_nb)
  | _, _ => (- ENODEV, p)
  end.

(** The first index below [nb - 1] whose element is above [v], else [nb - 1];
    [nb] is a [u32] that is not 0. *)
Fixpoint first_above (v : Z) (l : list Z) (idx : Z) (fuel : nat) : outcome Z :=
  match fuel with
  | O => Ok idx
  | S fuel =>
      x ← at_ l idx;
      if v <? x then Ok idx else first_above v l (idx + 1) fuel
  end.

(** The difference and the product are those of [int]s (the drivers are built
    with wrapping arithmetic). *)
Definition gbms_aacr_fade10 (p : chg_profile) (cycles : Z) : outcome Z :=
  let a := p.(aacr) in
  if (a.(aacr_nb_limits) =? 0) || (cycles <? 0) then Ok (- EINVAL)
  else
    idx ← first_above cycles a.(aacr_reference_cycles) 0
            (Z.to_nat (a.(aacr_nb_limits) - 1));
    cycle_f ← at_ a.(aacr_reference_cycles) idx;
    fade_f ← at_ a.(aacr_reference_fade10) idx;
    '(cycle_s, fade_s) ←
      (if 0 <? idx then
         cycle_s ← at_ a.(aacr_reference_cycles) (idx - 1);
         fade_s ← at_ a.(aacr_reference_fade10) (idx - 1);
         Ok (s32 cycle_s, s32 fade_s)
       else Ok (0, 0));
    let num := s32 (s32 (cycles - cycle_s) * s32 (s32 fade_f - fade_s)) in
    let den := s32 (s32 cycle_f - cycle_s) in
    if den =? 0 then Undef else Ok (s32 (Z.quot num den + fade_s)).

Definition gbms_read_aafv_limits (p : option chg_profile) (node : option Z) :
    Z * option chg_profile :=
  match p, node with
  | Some p, Some node =>
      let a := p.(aafv) in
      let set c f nb := Some (set_aafv (Aafv c f nb) p) in
      let cyc := a.(aafv_cycles) in
      let off := a.(aafv_offsets) in
      let cycle_nb := dt_count node "google,aafv-ref-cycles" in
      if cycle_nb <? 0 then (cycle_nb, set cyc off 0)
      else
        let offset_nb := dt_count node "google,aafv-ref-offset" in
        if offset_nb <? 0 then (offset_nb, set cyc off 0)
        else if negb (cycle_nb =? offset_nb) || (GBMS_AAFV_DATA_MAX <? cycle_nb)
                || (cycle_nb =? 0)
        then (- ERANGE, set cyc off 0)
        else
          let '(ret, cyc) := read_array node "google,aafv-ref-cycles" cycle_nb cyc in
          if ret <? 0 then (ret, set cyc off a.(aafv_nb_limits))
          else
            let '(ret, off) := read_array node "google,aafv-ref-offset" offset_nb off in
            if ret <? 0 then (ret, set cyc off a.(aafv_nb_limits))
            else (0, set cyc off cycle_nb)
  | _, _ => (- ENODEV, p)
  end.

Definition gbms_aafv_get_offset (p : chg_profile) (cycles : Z) : outcome Z :=
  let a := p.(aafv) in
  if (a.(aafv_nb_limits) =? 0) || (cycles <? 0) then Ok 0
  else
    idx ← first_above cycles a.(aafv_cycles) 0 (Z.to_nat (a.(aafv_nb_limits) - 1));
    off ← at_ a.(aafv_offsets) idx;
    Ok (s32 off).

(** [offset >= 0] always holds for a [u32]. *)
Definition gbms_aafv_offset_is_valid (p : chg_profile) (offset len : Z) : outcome bool :=
  let t := p.(table) in
  penultimate_fv ←
    (if 1 <? t.(volt_nb_limits) then at_ t.(volt_limits) (t.(volt_nb_limits) - 2)
     else Ok 0);
  let delta := u32 (t.(last_volt) - u32 penultimate_fv) / 1000 in
  Ok ((offset <? delta) && (0 <? len)).

Definition gbms_aafv_get_last_entry (p : chg_profile) : outcome Z :=
  let a := p.(aafv) in
  if 1 <? a.(aafv_nb_limits)
  then c ← at_ a.(aafv_cycles) (a.(aafv_nb_limits) - 2); Ok (s32 c)
  else Ok 0.

(** The part the readers of the charge and of the discharge weights share. *)
Definition read_aacc_weights (node : Z) (temp_prop weights_prop : string)
    (g : aacc_weight_profile) (w : world) : outcome (Z * world * aacc_weight_profile) :=
  let nb := dt_count node temp_prop in
  let g := AaccWeights nb g.(w_temp_limits) g.(weight_limits) in
  if nb <=? 0 then Ok (- EINVAL, w, g)
  else if GBMS_AACC_TEMP_NB_MAX <? nb then Ok (- EINVAL, w, g)
  else
    let '(ret, l) := read_s32_array node temp_prop nb g.(w_temp_limits) in
    let g := AaccWeights nb l g.(weight_limits) in
    if ret <? 0 then Ok (- EINVAL, w, g)
    else
      let weight_size := u32 ((nb - 1) * GBMS_AACC_SOC_SIZE) in
      let '(ptr, w) := kzalloc weight_size w in
      match ptr with
      | None => Ok (- ENOMEM, w, AaccWeights nb l 0)
      | Some a =>
          '(ret, w) ← read_block node weights_prop weight_size a w;
          if ret <? 0 then Ok (- EINVAL, kfree a w, AaccWeights nb l 0)
          else Ok (0, w, AaccWeights nb l a)
      end.

Definition gbms_read_aacc_chg_weights (p : option chg_profile) (node : option Z)
    (w : world) : outcome (Z * world * option chg_profile) :=
  match p, node with
  | Some p, Some node =>
      '(ret, w, g) ← read_aacc_weights node "google,aacc-chg-temp"
                       "google,aacc-chg-weights" p.(aacc_chg) w;
      Ok (ret, w, Some (set_aacc_chg g p))
  | _, _ => Ok (- ENODEV, w, p)
  end.

Definition gbms_read_aacc_dsg_weights (p : option chg_profile) (node : option Z)
    (w : world) : outcome (Z * world * option chg_profile) :=
  match p, node with
  | Some p, Some node =>
      '(ret, w, g) ← read_aacc_weights node "google,aacc-dsg-temp"
                       "google,aacc-dsg-weights" p.(aacc_dsg) w;
      Ok (ret, w, Some (set_aacc_dsg g p))
  | _, _ => Ok (- ENODEV, w, p)
  end.

End Bms.
