(* ===== verification/BmsTiers.v ===== *)
(** * google_bms: selecting an entry of the charge profile

    The lookups of [google_bms.c]: the temperature and voltage tiers, the aged
    profile of a cycle count, the rounding of the float voltage. *)

From S2P Require Import Prelude Heap GoogleBms.

(** ** The loops *)

(** [while (idx < bound && cond idx) idx++], from [idx]; [fuel] bounds the
    number of turns ([bound - idx] are enough). *)
Fixpoint climb (bound : Z) (cond : Z → outcome bool) (idx : Z) (fuel : nat) : outcome Z :=
  if idx <? bound then
    c ← cond idx;
    if (c : bool) then
      match fuel with O => Ok idx | S fuel => climb bound cond (idx + 1) fuel end
    else Ok idx
  else Ok idx.

Definition climb_from (bound idx : Z) (cond : Z → outcome bool) : outcome Z :=
  climb bound cond idx (Z.to_nat (bound - idx)).

(** ** The table of currents *)

Definition GBMS_CCCM_LIMITS (p : chg_profile) (w : world) (ti vi : Z) : outcome Z :=
  if (0 <=? ti) && (0 <=? vi) then
    blk ← must (w.(heap) !! p.(table).(cccm_limits));
    at_ blk ((ti + GBMS_AACT_TI p) * p.(table).(volt_nb_limits) + vi)
  else Ok 0.

(** ** Tiers *)

Definition gbms_msc_temp_idx (p : chg_profile) (temp : Z) : outcome Z :=
  let t := p.(table) in
  climb_from (t.(temp_nb_limits) - 2) 0
    (λ i, lim ← at_ t.(temp_limits) (i + 1); Ok (lim <=? temp)).

Definition gbms_aacc_temp_idx (p : chg_profile) (temp : Z) (is_charge : bool) : outcome Z :=
  let g := if is_charge then p.(aacc_chg) else p.(aacc_dsg) in
  climb_from (g.(w_temp_nb_limits) - 2) 0
    (λ i, lim ← at_ g.(w_temp_limits) (i + 1); Ok (lim <=? temp)).

(** The headroom of a tier, [fv_uv_resolution * 3] as an [int]. *)
Definition headroom (p : chg_profile) : Z := s32 (u32 (p.(tuning).(fv_uv_resolution) * 3)).

Definition gbms_msc_voltage_idx (p : chg_profile) (vbatt : Z) : outcome Z :=
  let t := p.(table) in
  vbatt_idx ← climb_from (t.(volt_nb_limits) - 1) 0
    (λ i, lim ← at_ t.(volt_limits) i; Ok (lim <? vbatt));
  if vbatt_idx =? t.(volt_nb_limits) - 1 then Ok vbatt_idx
  else
    vt ← at_ t.(volt_limits) vbatt_idx;
    Ok (if s32 (vt - vbatt) <? headroom p then vbatt_idx + 1 else vbatt_idx).

Definition gbms_msc_voltage_idx_merge_tiers (p : option chg_profile) (w : world)
    (vbatt temp_idx : Z) : outcome Z :=
  match p with
  | None => Ok 0
  | Some p =>
      let t := p.(table) in
      vbatt_idx ← climb_from (t.(volt_nb_limits) - 1) 0
        (λ i, lim ← at_ t.(volt_limits) i; Ok (lim <? vbatt));
      vbatt_idx ←
        (if vbatt_idx =? t.(volt_nb_limits) - 1 then Ok vbatt_idx
         else
           vt ← at_ t.(volt_limits) vbatt_idx;
           Ok (if s32 (vt - vbatt) <? headroom p then vbatt_idx + 1 else vbatt_idx));
      if (temp_idx <? 0) || (t.(temp_nb_limits) <=? temp_idx) then Ok vbatt_idx
      else
        cc ← GBMS_CCCM_LIMITS p w temp_idx vbatt_idx;
        let cc_max := s32 cc in
        climb_from (t.(volt_nb_limits) - 2) vbatt_idx
          (λ i, c ← GBMS_CCCM_LIMITS p w temp_idx (i + 1); Ok (u32 cc_max =? c))
  end.

(** [while (vbatt_idx > 0 && !GBMS_CCCM_LIMITS(..)) vbatt_idx--] *)
Fixpoint skip_zero_tiers (p : chg_profile) (w : world) (temp_idx : Z) (vbatt_idx : nat) :
    outcome Z :=
  match vbatt_idx with
  | O => Ok 0
  | S i =>
      c ← GBMS_CCCM_LIMITS p w temp_idx (Z.of_nat vbatt_idx);
      if c =? 0 then skip_zero_tiers p w temp_idx i else Ok (Z.of_nat vbatt_idx)
  end.

Definition gbms_msc_get_last_voltage_idx (p : chg_profile) (w : world) (temp_idx : Z) :
    outcome Z :=
  let vbatt_idx := p.(table).(volt_nb_limits) - 1 in
  if vbatt_idx <? 0 then Ok vbatt_idx
  else skip_zero_tiers p w temp_idx (Z.to_nat vbatt_idx).

(** ** The aged profile of a cycle count; -1 before the first one *)

Definition gbms_aact_get_index (p : chg_profile) (cycles : Z) : outcome Z :=
  let a := p.(aact) in
  if negb a.(aact_load_chg_ecc) && negb a.(aact_update_profile) then Ok 0
  else
    idx ← climb_from a.(aact_nb_limits) 0
      (λ i, lim ← at_ a.(aact_limits) i; Ok (lim <=? cycles));
    Ok (idx - 1).

(** ** The float voltage

    [vtier], [fv_uv] and [cc_ua] are [int]s; the sums with a field of the
    profile are unsigned. *)
Definition gbms_msc_round_fv_uv (p : chg_profile) (vtier fv_uv cc_ua : Z)
    (allow_higher_fv : bool) : outcome Z :=
  let t := p.(table) in
  let b := p.(tuning) in
  let fv_uv_max := u32 (u32 (Z.quot vtier 1000) * b.(fv_uv_margin_dpct)) in
  let dc_fv_uv_max := u32 (vtier + u32 (Z.quot cc_ua 1000) * b.(fv_dc_ratio)) in
  last ← at_ t.(volt_limits) (t.(volt_nb_limits) - 1);
  let last_fv := u32 last in
  let fv_max :=
    if cc_ua =? 0 then fv_uv_max
    else if negb allow_higher_fv && (last_fv <=? dc_fv_uv_max)
    then u32 (last_fv - b.(fv_uv_resolution))
    else dc_fv_uv_max in
  let fv_uv := if negb (fv_max =? 0) && (fv_max <? u32 fv_uv) then fv_max else fv_uv in
  let fv_uv := u32 (fv_uv + b.(fv_uv_resolution) / 2) in
  if b.(fv_uv_resolution) =? 0 then Undef
  else Ok (s32 (fv_uv - fv_uv mod b.(fv_uv_resolution))).
