(* ===== verification/BmsTiersProps.v ===== *)
(** * google_bms: the tiers selected are the right ones

    Each lookup is compared with what it is meant to compute on a well-formed
    profile: it never reads outside of the tables, and it returns the tier that
    contains the temperature, the first voltage tier with enough headroom, and
    so on. *)

From S2P Require Import Prelude Heap GoogleBms BmsTiers.

(** ** Arrays *)

Definition get (l : list Z) (i : Z) : Z := default 0 (l !! Z.to_nat i).

Lemma at_get l i : 0 <= i < Z.of_nat (length l) → at_ l i = Ok (get l i).
Proof.
  intros H. unfold at_, get. case_bool; [lia|].
  destruct (lookup_lt_is_Some_2 l (Z.to_nat i) ltac:(lia)) as [x ->]. done.
Qed.

Lemma at_Ok l i x : at_ l i = Ok x → 0 <= i < Z.of_nat (length l) ∧ x = get l i.
Proof.
  unfold at_, get. case_bool; [done|].
  destruct (l !! Z.to_nat i) as [y|] eqn:Hl; [|done]. intros [= <-].
  apply lookup_lt_Some in Hl. split; [lia|done].
Qed.

(** ** The climbing loop *)

Lemma climb_spec bound cond f idx fuel :
  (∀ i, idx <= i < bound → cond i = Ok (f i)) →
  (Z.to_nat (bound - idx) ≤ fuel)%nat →
  ∃ r, climb bound cond idx fuel = Ok r ∧ idx <= r <= Z.max idx bound ∧
    (∀ i, idx <= i < r → f i = true) ∧ (r < bound → f r = false).
Proof.
  revert idx. induction fuel as [|fuel IH]; intros idx Hc Hf; simpl.
  - case_bool; [lia|]. exists idx. split_and!; [done|lia..].
  - case_bool; [|exists idx; split_and!; [done|lia..]].
    rewrite Hc by lia. simpl. destruct (f idx) eqn:Hi.
    + destruct (IH (idx + 1)) as (r & Hr & Hb & Htrue & Hfalse); [intros; apply Hc; lia|lia|].
      exists r. split_and!; [done|lia|lia| |done]. intros i Hi'.
      destruct (Z.eq_dec i idx) as [->|]; [done|]. apply Htrue. lia.
    + exists idx. split_and!; [done|lia..|]. done.
Qed.

Lemma climb_from_spec bound idx cond f :
  (∀ i, idx <= i < bound → cond i = Ok (f i)) →
  ∃ r, climb_from bound idx cond = Ok r ∧ idx <= r <= Z.max idx bound ∧
    (∀ i, idx <= i < r → f i = true) ∧ (r < bound → f r = false).
Proof. intros H. by apply climb_spec. Qed.

(** ** Well-formed profiles *)

(** The first [n] elements of [l] are at least [d] apart. *)
Definition spaced (d n : Z) (l : list Z) : Prop :=
  ∀ i, 0 <= i → i + 1 < n → get l i + d <= get l (i + 1).

Lemma spaced_mono d n l i j :
  0 <= d → spaced d n l → 0 <= i → i <= j → j < n → get l i <= get l j.
Proof.
  intros Hd Hs Hi Hij Hj.
  assert (∀ k : nat, i + Z.of_nat k < n → get l i <= get l (i + Z.of_nat k)) as H.
  { induction k as [|k IH]; intros Hk; [by rewrite Z.add_0_r|].
    specialize (Hs (i + Z.of_nat k)).
    replace (i + Z.of_nat (S k)) with (i + Z.of_nat k + 1) in * by lia. lia. }
  specialize (H (Z.to_nat (j - i))). rewrite Z2Nat.id in H by lia.
  replace (i + (j - i)) with j in H by lia. lia.
Qed.

Abbreviation temps p := p.(table).(temp_limits).
Abbreviation temp_nb p := p.(table).(temp_nb_limits).
Abbreviation volts p := p.(table).(volt_limits).
Abbreviation volt_nb p := p.(table).(volt_nb_limits).

(** The temperature and voltage tables as the device tree promises them. *)
Record tiers_wf (p : chg_profile) : Prop := {
  tw_temp_nb : 2 <= p.(table).(temp_nb_limits) <= GBMS_CHG_TEMP_NB_LIMITS_MAX;
  tw_temp_len : Z.of_nat (length p.(table).(temp_limits)) = GBMS_CHG_TEMP_NB_LIMITS_MAX;
  tw_temp_sorted : spaced 1 p.(table).(temp_nb_limits) p.(table).(temp_limits);
  tw_volt_nb : 1 <= p.(table).(volt_nb_limits) <= GBMS_CHG_VOLT_NB_LIMITS_MAX;
  tw_volt_len : Z.of_nat (length p.(table).(volt_limits)) = GBMS_CHG_VOLT_NB_LIMITS_MAX;
  tw_volt_range : Forall (λ v, 0 <= v < 2 ^ 30) p.(table).(volt_limits);
  tw_res : 0 < p.(tuning).(fv_uv_resolution) < 2 ^ 28
}.

Lemma get_range (P : Z → Prop) l i :
  Forall P l → 0 <= i < Z.of_nat (length l) → P (get l i).
Proof.
  intros HF Hi. unfold get.
  destruct (lookup_lt_is_Some_2 l (Z.to_nat i) ltac:(lia)) as [x Hx]. rewrite Hx.
  by eapply Forall_lookup_1.
Qed.

Lemma volt_range p i :
  tiers_wf p → 0 <= i < GBMS_CHG_VOLT_NB_LIMITS_MAX → 0 <= get p.(table).(volt_limits) i < 2 ^ 30.
Proof. intros [] Hi. apply (get_range _ _ i tw_volt_range0). lia. Qed.

(** The temperature index never leaves the table, and names the range
    [temp_limits[i] <= temp < temp_limits[i + 1]] that contains the
    temperature; below the first limit it is the first range, above the last
    limit the last one. *)
Theorem gbms_msc_temp_idx_range p temp :
  tiers_wf p →
  ∃ i, gbms_msc_temp_idx p temp = Ok i ∧ 0 <= i <= temp_nb p - 2 ∧
    (get (temps p) 0 <= temp → get (temps p) i <= temp) ∧
    (temp < get (temps p) 0 → i = 0) ∧
    (temp < get (temps p) (temp_nb p - 1) → temp < get (temps p) (i + 1)) ∧
    (get (temps p) (temp_nb p - 1) <= temp → i = temp_nb p - 2).
Proof.
  intros []. unfold gbms_msc_temp_idx.
  unfold GBMS_CHG_TEMP_NB_LIMITS_MAX in *.
  destruct (climb_from_spec (temp_nb p - 2) 0
    (λ i, lim ← at_ (temps p) (i + 1); Ok (lim <=? temp))
    (λ i, get (temps p) (i + 1) <=? temp)) as (r & Hr & Hb & Htrue & Hfalse).
  { intros i Hi. by rewrite at_get by lia. }
  assert (∀ i j, 0 <= i → i <= j → j < temp_nb p →
    get (temps p) i <= get (temps p) j) as Hmono
    by (intros; by apply (spaced_mono 1 (temp_nb p))).
  exists r. split; [done|]. split; [lia|]. split_and!.
  - intros H0. destruct (Z.eq_dec r 0) as [->|]; [done|].
    specialize (Htrue (r - 1) ltac:(lia)).
    replace (r - 1 + 1) with r in Htrue by lia. lia.
  - intros H0. destruct (Z.eq_dec r 0) as [->|]; [done|].
    specialize (Htrue 0 ltac:(lia)). change (0 + 1) with 1 in Htrue.
    pose proof (Hmono 0 1 ltac:(lia) ltac:(lia) ltac:(lia)). lia.
  - intros Hl. destruct (Z.eq_dec r (temp_nb p - 2)) as [->|].
    + by replace (temp_nb p - 2 + 1) with (temp_nb p - 1) by lia.
    + specialize (Hfalse ltac:(lia)). lia.
  - intros Hl. destruct (Z.eq_dec r (temp_nb p - 2)) as [->|]; [done|].
    specialize (Hfalse ltac:(lia)).
    pose proof (Hmono (r + 1) (temp_nb p - 1) ltac:(lia) ltac:(lia) ltac:(lia)). lia.
Qed.

(** ** Voltage tiers *)

(** The tier the voltage loops stop at. *)
Lemma volt_climb p vbatt :
  tiers_wf p →
  ∃ r, climb_from (volt_nb p - 1) 0 (λ i, lim ← at_ (volts p) i; Ok (lim <? vbatt)) = Ok r ∧
    0 <= r <= volt_nb p - 1 ∧
    (∀ i, 0 <= i < r → get (volts p) i < vbatt) ∧
    (r < volt_nb p - 1 → vbatt <= get (volts p) r).
Proof.
  intros []. unfold GBMS_CHG_VOLT_NB_LIMITS_MAX in *.
  destruct (climb_from_spec (volt_nb p - 1) 0
    (λ i, lim ← at_ (volts p) i; Ok (lim <? vbatt))
    (λ i, get (volts p) i <? vbatt)) as (r & Hr & Hb & Htrue & Hfalse).
  { intros i Hi. by rewrite at_get by lia. }
  exists r. split_and!; [done|lia|lia| |].
  - intros i Hi. specialize (Htrue i Hi). lia.
  - intros Hl. specialize (Hfalse Hl). lia.
Qed.

Lemma headroom_eq p : tiers_wf p → headroom p = 3 * p.(tuning).(fv_uv_resolution).
Proof.
  intros []. unfold headroom. rewrite u32_small by lia. rewrite s32_small by lia. lia.
Qed.

(** [i] is the first tier with the headroom above [vbatt], or the last one. *)
Definition first_with_headroom (p : chg_profile) (vbatt i : Z) : Prop :=
  0 <= i <= volt_nb p - 1 ∧
  (i < volt_nb p - 1 → 3 * p.(tuning).(fv_uv_resolution) <= get (volts p) i - vbatt) ∧
  ∀ j, 0 <= j < i → get (volts p) j - vbatt < 3 * p.(tuning).(fv_uv_resolution).

Lemma voltage_idx_spec p vbatt :
  tiers_wf p → spaced (3 * p.(tuning).(fv_uv_resolution)) (volt_nb p) (volts p) →
  - 2 ^ 30 < vbatt < 2 ^ 30 →
  ∃ i, gbms_msc_voltage_idx p vbatt = Ok i ∧ first_with_headroom p vbatt i.
Proof.
  intros Hwf Hsp Hvb. pose proof Hwf as [].
  unfold GBMS_CHG_VOLT_NB_LIMITS_MAX in *.
  destruct (volt_climb p vbatt Hwf) as (r & Hr & Hb & Hlt & Hge).
  unfold gbms_msc_voltage_idx. rewrite Hr. simpl. rewrite headroom_eq by done.
  unfold first_with_headroom. case_bool.
  - exists r. split_and!; [done|lia..|]. intros j Hj. specialize (Hlt j Hj). lia.
  - rewrite at_get by lia. simpl.
    pose proof (volt_range p r Hwf ltac:(unfold GBMS_CHG_VOLT_NB_LIMITS_MAX; lia)) as Hvr.
    rewrite s32_small by lia. specialize (Hge ltac:(lia)). case_bool.
    + exists (r + 1). split_and!; [done|lia..| |].
      * intros Hl. specialize (Hsp r ltac:(lia) ltac:(lia)). lia.
      * intros j Hj. destruct (Z.eq_dec j r) as [->|]; [lia|].
        specialize (Hlt j ltac:(lia)). lia.
    + exists r. split_and!; [done|lia..|]. intros j Hj. specialize (Hlt j Hj). lia.
Qed.

(** On a profile whose tiers are at least the headroom apart (three times
    the resolution), [gbms_msc_voltage_idx] returns the first voltage tier with
    that headroom above the battery voltage, and the last tier when none has. *)
Theorem gbms_msc_voltage_idx_first p vbatt :
  tiers_wf p → spaced (3 * p.(tuning).(fv_uv_resolution)) (volt_nb p) (volts p) →
  - 2 ^ 30 < vbatt < 2 ^ 30 →
  ∃ i, gbms_msc_voltage_idx p vbatt = Ok i ∧ 0 <= i <= volt_nb p - 1 ∧
    (i < volt_nb p - 1 → 3 * p.(tuning).(fv_uv_resolution) <= get (volts p) i - vbatt) ∧
    ∀ j, 0 <= j < i → get (volts p) j - vbatt < 3 * p.(tuning).(fv_uv_resolution).
Proof. intros Hwf Hsp Hvb. exact (voltage_idx_spec p vbatt Hwf Hsp Hvb). Qed.

(** ** Currents *)

(** A table of [u32] currents with a row per temperature range, shifted by the
    rows of the aged profile in use. *)
Record currents_wf (p : chg_profile) (w : world) (blk : list Z) : Prop := {
  cw_block : w.(heap) !! p.(table).(cccm_limits) = Some blk;
  cw_range : Forall (λ v, 0 <= v < 2 ^ 32) blk;
  cw_shift : 0 <= GBMS_AACT_TI p;
  cw_size : (GBMS_AACT_TI p + temp_nb p - 1) * volt_nb p <= Z.of_nat (length blk)
}.

(** The current of row [ti] and tier [vi]. *)
Definition current (p : chg_profile) (blk : list Z) (ti vi : Z) : Z :=
  get blk ((ti + GBMS_AACT_TI p) * volt_nb p + vi).

Lemma cccm_get p w blk ti vi :
  currents_wf p w blk → 0 <= ti < temp_nb p - 1 → 0 <= vi < volt_nb p →
  GBMS_CCCM_LIMITS p w ti vi = Ok (current p blk ti vi) ∧
  0 <= current p blk ti vi < 2 ^ 32.
Proof.
  intros [] Hti Hvi. unfold GBMS_CCCM_LIMITS, current.
  assert (0 <= (ti + GBMS_AACT_TI p) * volt_nb p + vi < Z.of_nat (length blk)) by nia.
  rewrite cw_block0. split; [|by apply (get_range _ _ _ cw_range0)].
  replace ((0 <=? ti) && (0 <=? vi)) with true by (symmetry; apply andb_true_iff; lia).
  simpl. by apply at_get.
Qed.

(** For a temperature index the lookups return, merging the tiers climbs
    from the first tier with headroom over the tiers of equal current, and
    stops before a tier of another current or at the last tier but one; no
    read leaves the table. *)
Theorem gbms_merge_tiers_equal_current p w blk vbatt ti :
  tiers_wf p → spaced (3 * p.(tuning).(fv_uv_resolution)) (volt_nb p) (volts p) →
  - 2 ^ 30 < vbatt < 2 ^ 30 → currents_wf p w blk → 0 <= ti < temp_nb p - 1 →
  ∃ i j, gbms_msc_voltage_idx p vbatt = Ok i ∧
    gbms_msc_voltage_idx_merge_tiers (Some p) w vbatt ti = Ok j ∧
    i <= j <= Z.max i (volt_nb p - 2) ∧
    (∀ k, i <= k <= j → current p blk ti k = current p blk ti i) ∧
    (j < volt_nb p - 2 → current p blk ti (j + 1) <> current p blk ti i).
Proof.
  intros Hwf Hsp Hvb Hcw Hti.
  destruct (voltage_idx_spec p vbatt Hwf Hsp Hvb) as (i & Hi & Hib & _).
  exists i. pose proof Hi as Hidx. unfold gbms_msc_voltage_idx in Hi. unfold gbms_msc_voltage_idx_merge_tiers.
  destruct (climb_from _ 0 _) as [r| |]; try done. simpl in *.
  rewrite Hi. simpl.
  replace ((ti <? 0) || (temp_nb p <=? ti)) with false
    by (symmetry; apply orb_false_iff; lia).
  destruct (cccm_get p w blk ti i Hcw Hti ltac:(lia)) as [-> Hcur]. simpl.
  rewrite u32_s32, u32_small by done.
  destruct (climb_from_spec (volt_nb p - 2) i
    (λ i0, c ← GBMS_CCCM_LIMITS p w ti (i0 + 1); Ok (current p blk ti i =? c))
    (λ i0, current p blk ti i =? current p blk ti (i0 + 1)))
    as (j & Hj & Hjb & Htrue & Hfalse).
  { intros k Hk. destruct (cccm_get p w blk ti (k + 1) Hcw Hti ltac:(lia)) as [-> _]. done. }
  exists j. split; [exact Hidx|]. split; [exact Hj|]. split; [lia|]. split.
  - intros k Hk. destruct (Z.eq_dec k i) as [->|]; [done|].
    specialize (Htrue (k - 1) ltac:(lia)). replace (k - 1 + 1) with k in Htrue by lia. lia.
  - intros Hl. specialize (Hfalse Hl). lia.
Qed.

(** [gbms_msc_get_last_voltage_idx] returns the last voltage tier with a
    current: every tier above it has none, and unless it is the first tier it
    has one. *)
Theorem gbms_last_voltage_idx_last_current p w blk ti :
  tiers_wf p → currents_wf p w blk → 0 <= ti < temp_nb p - 1 →
  ∃ i, gbms_msc_get_last_voltage_idx p w ti = Ok i ∧ 0 <= i <= volt_nb p - 1 ∧
    (∀ k, i < k <= volt_nb p - 1 → current p blk ti k = 0) ∧
    (0 < i → current p blk ti i <> 0).
Proof.
  intros Hwf Hcw Hti. unfold gbms_msc_get_last_voltage_idx. pose proof (tw_volt_nb _ Hwf).
  case_bool; [lia|].
  assert (∀ n : nat, Z.of_nat n <= volt_nb p - 1 →
    ∃ i, skip_zero_tiers p w ti n = Ok i ∧ 0 <= i <= Z.of_nat n ∧
      (∀ k, i < k <= Z.of_nat n → current p blk ti k = 0) ∧
      (0 < i → current p blk ti i <> 0)) as Hskip.
  { induction n as [|n IH]; intros Hn; simpl.
    - exists 0. split_and!; [done|lia..].
    - destruct (cccm_get p w blk ti (Z.of_nat (S n)) Hcw Hti ltac:(lia)) as [Hg _].
      change (Z.pos (Pos.of_succ_nat n)) with (Z.of_nat (S n)). rewrite Hg. simpl. case_bool.
      + destruct IH as (i & Hi & Hib & Hz & Hnz); [lia|].
        exists i. split_and!; [done|lia|lia| |done].
        intros k Hk. destruct (Z.eq_dec k (Z.of_nat (S n))) as [->|]; [done|].
        apply Hz. lia.
      + exists (Z.of_nat (S n)). split_and!; [done|lia|lia| |done]. lia. }
  destruct (Hskip (Z.to_nat (volt_nb p - 1)) ltac:(lia)) as (i & Hi & Hib & Hz & Hnz).
  rewrite Z2Nat.id in * by lia. by exists i.
Qed.

(** ** The float voltage *)

(** The cap on the float voltage, in exact arithmetic. *)
Definition fv_limit (p : chg_profile) (vtier cc_ua : Z) (allow_higher_fv : bool) : Z :=
  let last_fv := get (volts p) (volt_nb p - 1) in
  let dc := vtier + cc_ua / 1000 * p.(tuning).(fv_dc_ratio) in
  if cc_ua =? 0 then vtier / 1000 * p.(tuning).(fv_uv_margin_dpct)
  else if negb allow_higher_fv && (last_fv <=? dc) then last_fv - p.(tuning).(fv_uv_resolution)
  else dc.

Lemma round_fv_uv_eq p vtier fv_uv cc_ua allow :
  tiers_wf p → 0 <= vtier → 0 <= fv_uv < 2 ^ 30 → 0 <= cc_ua →
  0 <= p.(tuning).(fv_dc_ratio) → 0 <= p.(tuning).(fv_uv_margin_dpct) →
  vtier + cc_ua / 1000 * p.(tuning).(fv_dc_ratio) < 2 ^ 31 →
  vtier / 1000 * p.(tuning).(fv_uv_margin_dpct) < 2 ^ 31 →
  0 < fv_limit p vtier cc_ua allow →
  let m := Z.min fv_uv (fv_limit p vtier cc_ua allow) in
  let x := m + p.(tuning).(fv_uv_resolution) / 2 in
  gbms_msc_round_fv_uv p vtier fv_uv cc_ua allow
    = Ok (x - x mod p.(tuning).(fv_uv_resolution)).
Proof.
  intros Hwf Hvt Hfv Hcc Hra Hma Hdc Hmax Hlim. pose proof Hwf as [].
  unfold GBMS_CHG_VOLT_NB_LIMITS_MAX in *. cbv zeta.
  pose proof (volt_range p (volt_nb p - 1) Hwf
    ltac:(unfold GBMS_CHG_VOLT_NB_LIMITS_MAX; lia)) as Hlast.
  unfold gbms_msc_round_fv_uv. rewrite at_get by lia. simpl.
  set (lim := fv_limit p vtier cc_ua allow) in *.
  set (res := fv_uv_resolution (tuning p)) in *.
  assert (0 <= cc_ua / 1000 * fv_dc_ratio (tuning p)) as Hdc0
    by (apply Z.mul_nonneg_nonneg; [apply Z.div_pos|]; lia).
  assert (0 <= vtier / 1000 * fv_uv_margin_dpct (tuning p)) as Hmx0
    by (apply Z.mul_nonneg_nonneg; [apply Z.div_pos|]; lia).
  rewrite !Z.quot_div_nonneg by lia.
  assert (u32 (vtier + u32 (cc_ua / 1000) * fv_dc_ratio (tuning p))
          = vtier + cc_ua / 1000 * fv_dc_ratio (tuning p)) as ->.
  { unfold u32. rewrite <- Zplus_mod_idemp_r, Zmult_mod_idemp_l, Zplus_mod_idemp_r.
    apply Z.mod_small. lia. }
  assert (u32 (u32 (vtier / 1000) * fv_uv_margin_dpct (tuning p))
          = vtier / 1000 * fv_uv_margin_dpct (tuning p)) as ->.
  { unfold u32. rewrite Zmult_mod_idemp_l. apply Z.mod_small. lia. }
  rewrite (u32_small (get _ _)) by lia.
  match goal with |- context [negb (?m =? 0) && _] =>
    assert (m = lim) as -> end.
  { unfold lim, fv_limit in *. destruct (cc_ua =? 0); [done|].
    destruct (negb allow && _); [|done]. fold res in Hlim |- *. apply u32_small. lia. }
  clearbody lim. replace (lim =? 0) with false by lia. simpl.
  replace (res =? 0) with false by lia.
  rewrite (u32_small fv_uv) by lia.
  replace (if lim <? fv_uv then lim else fv_uv) with (Z.min fv_uv lim)
    by (case_bool; lia).
  assert (0 <= res / 2 < 2 ^ 28) as Hhalf
    by (split; [apply Z.div_pos; lia|apply Z.div_lt_upper_bound; lia]).
  rewrite (u32_small (_ + res / 2)) by lia.
  pose proof (Z.mod_le (Z.min fv_uv lim + res / 2) res ltac:(lia) ltac:(lia)).
  pose proof (Z.mod_pos_bound (Z.min fv_uv lim + res / 2) res ltac:(lia)).
  rewrite s32_small by lia. done.
Qed.

(** The rounded float voltage is a multiple of the resolution, within half
    a resolution of the request capped at the limit of the tier; in direct
    charging, unless a higher voltage is allowed, it never exceeds the voltage
    of the last tier. *)
Theorem gbms_msc_round_fv_uv_nearest p vtier fv_uv cc_ua allow :
  tiers_wf p → 0 <= vtier → 0 <= fv_uv < 2 ^ 30 → 0 <= cc_ua →
  0 <= p.(tuning).(fv_dc_ratio) → 0 <= p.(tuning).(fv_uv_margin_dpct) →
  vtier + cc_ua / 1000 * p.(tuning).(fv_dc_ratio) < 2 ^ 31 →
  vtier / 1000 * p.(tuning).(fv_uv_margin_dpct) < 2 ^ 31 →
  0 < fv_limit p vtier cc_ua allow →
  (p.(tuning).(fv_uv_resolution) | get (volts p) (volt_nb p - 1)) →
  ∃ r, gbms_msc_round_fv_uv p vtier fv_uv cc_ua allow = Ok r ∧
    (p.(tuning).(fv_uv_resolution) | r) ∧
    Z.abs (r - Z.min fv_uv (fv_limit p vtier cc_ua allow))
      <= p.(tuning).(fv_uv_resolution) / 2 ∧
    (0 < cc_ua → allow = false → r <= get (volts p) (volt_nb p - 1)).
Proof.
  intros Hwf Hvt Hfv Hcc Hra Hma Hdc Hmax Hlim [k Hk].
  eexists. split; [by apply round_fv_uv_eq|]. pose proof (tw_res _ Hwf) as Hres.
  set (res := fv_uv_resolution (tuning p)) in *.
  set (lim := fv_limit p vtier cc_ua allow) in *.
  set (m := Z.min fv_uv lim). assert (m <= lim) as Hm by lia. clearbody m.
  pose proof (Z.div_mod (m + res / 2) res ltac:(lia)) as Hdm.
  pose proof (Z.mod_pos_bound (m + res / 2) res ltac:(lia)) as Hmb.
  pose proof (Z.div_mod res 2 ltac:(lia)). pose proof (Z.mod_pos_bound res 2 ltac:(lia)).
  set (q := (m + res / 2) / res) in *. split_and!.
  - exists q. lia.
  - lia.
  - intros Hpos ->. unfold lim, fv_limit in Hm. fold res in Hm.
    replace (cc_ua =? 0) with false in Hm by lia. simpl in Hm.
    assert (m < get (volts p) (volt_nb p - 1)) as Hlt.
    { revert Hm. case_bool; lia. }
    rewrite Hk in *. assert (q <= k); nia.
Qed.

(** ** Aged profiles *)

(** with the list of cycle counts loaded and increasing, the index is that
    of the last count reached, or -1 before the first. *)
Theorem gbms_aact_get_index_last_reached p cycles :
  0 <= p.(aact).(aact_nb_limits) <= Z.of_nat (length p.(aact).(aact_limits)) →
  spaced 1 p.(aact).(aact_nb_limits) p.(aact).(aact_limits) →
  p.(aact).(aact_load_chg_ecc) || p.(aact).(aact_update_profile) = true →
  ∃ i, gbms_aact_get_index p cycles = Ok i ∧ -1 <= i < p.(aact).(aact_nb_limits) ∧
    ∀ j, 0 <= j < p.(aact).(aact_nb_limits) →
      get p.(aact).(aact_limits) j <= cycles ↔ j <= i.
Proof.
  intros Hnb Hsp Hload. unfold gbms_aact_get_index.
  rewrite <- negb_orb, Hload. simpl.
  destruct (climb_from_spec (aact_nb_limits (aact p)) 0
    (λ i, lim ← at_ (aact_limits (aact p)) i; Ok (lim <=? cycles))
    (λ i, get (aact_limits (aact p)) i <=? cycles)) as (r & Hr & Hb & Htrue & Hfalse).
  { intros i Hi. by rewrite at_get by lia. }
  rewrite Hr. exists (r - 1). split_and!; [done|lia|lia|]. intros j Hj. split.
  - intros Hle. destruct (Z.le_gt_cases j (r - 1)) as [|Hgt]; [done|].
    specialize (Hfalse ltac:(lia)).
    pose proof (spaced_mono 1 _ _ r j ltac:(lia) Hsp ltac:(lia) ltac:(lia) ltac:(lia)). lia.
  - intros Hle. specialize (Htrue j ltac:(lia)). lia.
Qed.

(** ** Capacity fade *)

(** The reference tables: increasing cycle counts from above 0, fades in
    tenths of a percent that never decrease. *)
Record aacr_wf (a : aacr_data) : Prop := {
  aw_nb : 1 <= a.(aacr_nb_limits) <= GBMS_AACR_DATA_MAX;
  aw_cycles_len : Z.of_nat (length a.(aacr_reference_cycles)) = GBMS_AACR_DATA_MAX;
  aw_fade_len : Z.of_nat (length a.(aacr_reference_fade10)) = GBMS_AACR_DATA_MAX;
  aw_cycles_first : 0 < get a.(aacr_reference_cycles) 0;
  aw_cycles : spaced 1 a.(aacr_nb_limits) a.(aacr_reference_cycles);
  aw_cycles_range : Forall (λ v, 0 <= v < 2 ^ 15) a.(aacr_reference_cycles);
  aw_fade : spaced 0 a.(aacr_nb_limits) a.(aacr_reference_fade10);
  aw_fade_range : Forall (λ v, 0 <= v < 2 ^ 15) a.(aacr_reference_fade10)
}.

Lemma first_above_spec v l idx fuel :
  0 <= idx → idx + Z.of_nat fuel <= Z.of_nat (length l) →
  ∃ r, first_above v l idx fuel = Ok r ∧ idx <= r <= idx + Z.of_nat fuel ∧
    (∀ i, idx <= i < r → get l i <= v) ∧ (r < idx + Z.of_nat fuel → v < get l r).
Proof.
  revert idx. induction fuel as [|fuel IH]; intros idx Hi Hl; simpl.
  - exists idx. split_and!; [done|lia..].
  - rewrite at_get by lia. simpl. case_bool.
    + exists idx. split_and!; [done|lia..|]. done.
    + destruct (IH (idx + 1)) as (r & Hr & Hb & Hle & Hlt); [lia..|].
      exists r. split_and!; [done|lia..| |].
      * intros i Hir. destruct (Z.eq_dec i idx) as [->|]; [lia|]. apply Hle. lia.
      * intros Hr'. apply Hlt. lia.
Qed.

(** The left end of segment [k]; the first segment starts at 0. *)
Definition before (l : list Z) (k : Z) : Z := if 0 <? k then get l (k - 1) else 0.

(** The fade at a cycle count is the linear interpolation, rounded down, in
    the segment of the reference table that contains the count, extended
    beyond the last reference; inside the table it lies between the fades at
    the ends of the segment, and at a reference it is the reference. *)
Theorem gbms_aacr_fade10_interpolates p cycles :
  aacr_wf p.(aacr) → 0 <= cycles < 2 ^ 15 →
  let c := p.(aacr).(aacr_reference_cycles) in
  let f := p.(aacr).(aacr_reference_fade10) in
  ∃ k r, gbms_aacr_fade10 p cycles = Ok r ∧ 0 <= k < p.(aacr).(aacr_nb_limits) ∧
    before c k <= cycles ∧ before c k < get c k ∧
    (k < p.(aacr).(aacr_nb_limits) - 1 → cycles < get c k) ∧
    r = before f k + (cycles - before c k) * (get f k - before f k) / (get c k - before c k) ∧
    (cycles <= get c k → before f k <= r <= get f k) ∧
    (cycles = get c k → r = get f k).
Proof.
  intros Hwf Hcy c f. pose proof Hwf as [Hnb Hcl Hfl Hc0 Hcs Hcr Hfs Hfr].
  unfold GBMS_AACR_DATA_MAX in *. fold c in Hcl, Hc0, Hcs, Hcr. fold f in Hfl, Hfs, Hfr.
  set (nb := aacr_nb_limits (aacr p)) in *.
  assert (∀ i, 0 <= i < 10 → 0 <= get c i < 2 ^ 15) as Hgc
    by (intros; apply (get_range _ _ _ Hcr); lia).
  assert (∀ i, 0 <= i < 10 → 0 <= get f i < 2 ^ 15) as Hgf
    by (intros; apply (get_range _ _ _ Hfr); lia).
  destruct (first_above_spec cycles c 0 (Z.to_nat (nb - 1)) ltac:(lia) ltac:(lia))
    as (k & Hk & Hkb & Hle & Hlt).
  assert (before c k <= cycles ∧ 0 <= before c k < get c k ∧
          0 <= before f k <= get f k) as (Hb1 & Hb2 & Hb3).
  { unfold before. case_bool.
    - pose proof (Hcs (k - 1) ltac:(lia) ltac:(lia)) as H1.
      pose proof (Hfs (k - 1) ltac:(lia) ltac:(lia)) as H2.
      replace (k - 1 + 1) with k in * by lia.
      pose proof (Hgc (k - 1) ltac:(lia)). pose proof (Hgf (k - 1) ltac:(lia)).
      pose proof (Hle (k - 1) ltac:(lia)). lia.
    - replace k with 0 in * by lia. pose proof (Hgf 0 ltac:(lia)). lia. }
  pose proof (Hgc k ltac:(lia)) as Hck. pose proof (Hgf k ltac:(lia)) as Hfk.
  assert (0 <= (cycles - before c k) * (get f k - before f k) < 2 ^ 30) as Hnum by nia.
  pose proof (Z.div_pos ((cycles - before c k) * (get f k - before f k))
    (get c k - before c k) ltac:(lia) ltac:(lia)) as Hq0.
  pose proof (Z.div_le_upper_bound ((cycles - before c k) * (get f k - before f k))
    (get c k - before c k) (2 ^ 30) ltac:(lia) ltac:(nia)) as Hq1.
  assert (0 < get c k - before c k) as Hden by lia.
  exists k. eexists. split.
  - unfold gbms_aacr_fade10. fold nb c f.
    replace (nb =? 0) with false by lia. replace (cycles <? 0) with false by lia. simpl.
    rewrite Hk. simpl. rewrite !(at_get _ k) by lia. simpl.
    rewrite (s32_small (get c k)), (s32_small (get f k)) by lia.
    assert ((if 0 <? k
             then at_ c (k - 1) ≫= λ cycle_s, at_ f (k - 1) ≫= λ fade_s,
                    Ok (s32 cycle_s, s32 fade_s)
             else Ok (0, 0)) = Ok (before c k, before f k)) as ->.
    { unfold before. case_bool; [|done]. rewrite !at_get by lia. simpl.
      pose proof (Hgc (k - 1) ltac:(lia)). pose proof (Hgf (k - 1) ltac:(lia)).
      by unwrap. }
    simpl. unwrap. rewrite Z.quot_div_nonneg by lia. unwrap.
    replace (get c k - before c k =? 0) with false by lia. reflexivity.
  - clear Hk Hnum Hq1. split_and!; try lia.
    + intros Hin. split; [lia|].
      enough (forall a b d, 0 <= a <= d -> 0 < d -> 0 <= b -> a * b / d <= b) as Hdiv.
      { specialize (Hdiv (cycles - before c k) (get f k - before f k)
          (get c k - before c k) ltac:(lia) Hden ltac:(lia)). lia. }
      intros. apply Z.div_le_upper_bound; nia.
    + intros ->. rewrite Z.mul_comm, Z.div_mul by lia. lia.
Qed.

(** ** Witnesses: a profile of three temperature ranges and three tiers *)

Module Demo.

Definition table : cc_table :=
  CcTable 4 [0; 100; 200; 450; 0; 0; 0; 0; 0; 0] 3
    [4200000; 4350000; 4500000; 0; 0; 0; 0; 0; 0; 0] 0 (replicate 10 0) 4096 4000 4500000.

Definition profile : chg_profile :=
  ChgProfile "battery" table (Behavior 1020 20 12500 3 2000 10 3 25000 0 25000 false)
    (Aacr [300; 400; 600; 800; 0; 0; 0; 0; 0; 0] [50; 80; 140; 200; 0; 0; 0; 0; 0; 0] 4)
    (Aafv (replicate 16 0) (replicate 16 0) 0)
    (Aact 0 (replicate 10 0) 0 (replicate 10 0) 3 [0; 200; 500; 0; 0] 0 false false false
       true 0)
    (AaccWeights 0 (replicate 10 0) 0) (AaccWeights 0 (replicate 10 0) 0).

Definition currents : list Z := [3000; 3000; 1000; 2000; 0; 0; 1000; 1000; 500].

Definition w : world := World (<[4096 := currents]> ∅) [].

End Demo.

Lemma spaced_check d (n : nat) l :
  forallb (λ i : nat, (get l (Z.of_nat i) + d <=? get l (Z.of_nat i + 1))) (seq 0 (n - 1)) = true →
  spaced d (Z.of_nat n) l.
Proof.
  intros H i Hi Hn. rewrite forallb_forall in H.
  specialize (H (Z.to_nat i) ltac:(apply in_seq; lia)). rewrite Z2Nat.id in H by lia. lia.
Qed.

Lemma demo_tiers_wf : tiers_wf Demo.profile.
Proof.
  split; [by vm_compute|done|by apply (spaced_check 1 4)|by vm_compute|done
         |repeat constructor; lia|by vm_compute].
Qed.

Lemma demo_spaced : spaced (3 * 25000) 3 (volts Demo.profile).
Proof. by apply (spaced_check _ 3). Qed.

Lemma demo_currents_wf : currents_wf Demo.profile Demo.w Demo.currents.
Proof.
  split; [reflexivity|repeat constructor; lia|by vm_compute|by vm_compute].
Qed.

Lemma gbms_msc_temp_idx_range_witness :
  let p := Demo.profile in
  ∃ i, gbms_msc_temp_idx p 150 = Ok i ∧ 0 <= i <= 2 ∧
    (get (temps p) 0 <= 150 → get (temps p) i <= 150) ∧
    (150 < get (temps p) 0 → i = 0) ∧
    (150 < get (temps p) 3 → 150 < get (temps p) (i + 1)) ∧
    (get (temps p) 3 <= 150 → i = 2).
Proof. apply (gbms_msc_temp_idx_range Demo.profile 150). exact demo_tiers_wf. Defined.

Lemma gbms_msc_voltage_idx_first_witness :
  let p := Demo.profile in
  ∃ i, gbms_msc_voltage_idx p 4150000 = Ok i ∧ 0 <= i <= 2 ∧
    (i < 2 → 3 * 25000 <= get (volts p) i - 4150000) ∧
    ∀ j, 0 <= j < i → get (volts p) j - 4150000 < 3 * 25000.
Proof.
  apply (gbms_msc_voltage_idx_first Demo.profile 4150000);
    [exact demo_tiers_wf|exact demo_spaced|lia].
Defined.

Lemma gbms_merge_tiers_equal_current_witness :
  let p := Demo.profile in
  let b := Demo.currents in
  ∃ i j, gbms_msc_voltage_idx p 4000000 = Ok i ∧
    gbms_msc_voltage_idx_merge_tiers (Some p) Demo.w 4000000 0 = Ok j ∧
    i <= j <= Z.max i 1 ∧
    (∀ k, i <= k <= j → current p b 0 k = current p b 0 i) ∧
    (j < 1 → current p b 0 (j + 1) <> current p b 0 i).
Proof.
  apply (gbms_merge_tiers_equal_current Demo.profile Demo.w Demo.currents 4000000 0);
    [exact demo_tiers_wf|exact demo_spaced|lia|exact demo_currents_wf|vm_compute; done].
Defined.

Lemma gbms_last_voltage_idx_last_current_witness :
  let p := Demo.profile in
  ∃ i, gbms_msc_get_last_voltage_idx p Demo.w 1 = Ok i ∧ 0 <= i <= 2 ∧
    (∀ k, i < k <= 2 → current p Demo.currents 1 k = 0) ∧
    (0 < i → current p Demo.currents 1 i <> 0).
Proof.
  apply (gbms_last_voltage_idx_last_current Demo.profile Demo.w Demo.currents 1);
    [exact demo_tiers_wf|exact demo_currents_wf|vm_compute; done].
Defined.

Lemma gbms_msc_round_fv_uv_nearest_witness :
  let p := Demo.profile in
  ∃ r, gbms_msc_round_fv_uv p 4450000 4540000 3000000 false = Ok r ∧
    (25000 | r) ∧ Z.abs (r - Z.min 4540000 (fv_limit p 4450000 3000000 false)) <= 12500 ∧
    (0 < 3000000 → false = false → r <= get (volts p) 2).
Proof.
  apply (gbms_msc_round_fv_uv_nearest Demo.profile 4450000 4540000 3000000 false);
    [exact demo_tiers_wf|vm_compute; done..|]. by exists 180.
Defined.

Lemma gbms_aact_get_index_last_reached_witness :
  let p := Demo.profile in
  ∃ i, gbms_aact_get_index p 350 = Ok i ∧ -1 <= i < 3 ∧
    ∀ j, 0 <= j < 3 → get p.(aact).(aact_limits) j <= 350 ↔ j <= i.
Proof.
  apply (gbms_aact_get_index_last_reached Demo.profile 350);
    [vm_compute; done|by apply (spaced_check 1 3)|reflexivity].
Defined.

Lemma gbms_aacr_fade10_interpolates_witness :
  let c := Demo.profile.(aacr).(aacr_reference_cycles) in
  let f := Demo.profile.(aacr).(aacr_reference_fade10) in
  ∃ k r, gbms_aacr_fade10 Demo.profile 450 = Ok r ∧ 0 <= k < 4 ∧
    before c k <= 450 ∧ before c k < get c k ∧ (k < 3 → 450 < get c k) ∧
    r = before f k + (450 - before c k) * (get f k - before f k) / (get c k - before c k) ∧
    (450 <= get c k → before f k <= r <= get f k) ∧ (450 = get c k → r = get f k).
Proof.
  apply (gbms_aacr_fade10_interpolates Demo.profile 450); [|lia].
  split; [by vm_compute|done|done|by vm_compute|by apply (spaced_check 1 4)
         |repeat constructor; lia|by apply (spaced_check 0 4)|repeat constructor; lia].
Defined.
