(* ===== verification/GoogleBmsProps.v ===== *)
(** * google_bms: reading, scaling and replacing the charge table *)

From S2P Require Import Prelude Heap GoogleBms BmsTiers BmsTiersProps.

Lemma mapM_Ok {A B} (f : A → outcome B) (g : A → B) l :
  (∀ x, x ∈ l → f x = Ok (g x)) → mapM f l = Ok (g <$> l).
Proof.
  induction l as [|x l IH]; intros H; simpl; [done|].
  rewrite H by left. simpl. rewrite IH; [done|]. intros y Hy. apply H. by right.
Qed.

Section Bms.
Context {env : gbms_env} {env_ok : gbms_env_ok env}.

(** ** Reading arrays keeps their lengths *)

Lemma read_s32_array_length n s c l ret l' :
  read_s32_array n s c l = (ret, l') → 0 <= c <= Z.of_nat (length l) →
  length l' = length l.
Proof.
  unfold read_s32_array. pose proof (dt_array_length n s c) as Hlen.
  destruct (dt_array n s c) as [r v]. simpl in Hlen. case_bool; intros [= <- <-] Hc; [done|].
  specialize (Hlen ltac:(lia) ltac:(lia)).
  rewrite length_app, length_fmap, length_drop. lia.
Qed.

Lemma read_either_s32_length n s c l ret l' :
  read_either_s32 n s c l = (ret, l') → 0 <= c <= Z.of_nat (length l) →
  length l' = length l.
Proof.
  unfold read_either_s32. destruct (read_s32_array (gbms_batt_id_node n) s c l)
    as [r1 l1] eqn:H1. intros H2 Hc.
  apply read_s32_array_length in H1; [|done]. rewrite <- H1 in *.
  revert H2. case_bool; [|by intros [= _ <-]].
  intros H2. by apply read_s32_array_length in H2.
Qed.

(** ** The shape of the charge table *)

Record table_shape (t : cc_table) : Prop := {
  ts_temps : Z.of_nat (length t.(temp_limits)) = GBMS_CHG_TEMP_NB_LIMITS_MAX;
  ts_volts : Z.of_nat (length t.(volt_limits)) = GBMS_CHG_VOLT_NB_LIMITS_MAX;
  ts_topoffs : Z.of_nat (length t.(topoff_limits)) = GBMS_CHG_TOPOFF_NB_LIMITS_MAX
}.

Record table_counts (t : cc_table) : Prop := {
  tc_temp : 1 <= t.(temp_nb_limits) <= GBMS_CHG_TEMP_NB_LIMITS_MAX;
  tc_volt : 1 <= t.(volt_nb_limits) <= GBMS_CHG_VOLT_NB_LIMITS_MAX;
  tc_topoff : t.(topoff_nb_limits) <= GBMS_CHG_TOPOFF_NB_LIMITS_MAX
}.

Local Ltac solve_shape :=
  split_and!; simpl; try done; try lia; try (intros ?; lia); try (intros _);
  split; simpl; unfold GBMS_CHG_TEMP_NB_LIMITS_MAX, GBMS_CHG_VOLT_NB_LIMITS_MAX,
    GBMS_CHG_TOPOFF_NB_LIMITS_MAX; done || lia.

Lemma read_cccm_limits_spec p node ret p' :
  table_shape p.(table) → gbms_read_cccm_limits p node = (ret, p') →
  table_shape p'.(table) ∧ p'.(table).(cccm_limits) = p.(table).(cccm_limits) ∧
  p'.(aact) = p.(aact) ∧ ret <= 0 ∧ (ret = 0 → table_counts p'.(table)).
Proof.
  intros [Ht Hv Hto] H. unfold gbms_read_cccm_limits in H. cbv zeta in H.
  unfold GBMS_CHG_TEMP_NB_LIMITS_MAX, GBMS_CHG_VOLT_NB_LIMITS_MAX,
    GBMS_CHG_TOPOFF_NB_LIMITS_MAX in *.
  assert (- EINVAL < 0) by done. simpl in H.
  destruct (Z.leb_spec (dt_count node "google,chg-temp-limits") 0) as [|Hn1];
    [injection H as <- <-; solve_shape|].
  destruct (Z.ltb_spec 10 (dt_count node "google,chg-temp-limits")) as [|Hn1'];
    [injection H as <- <-; solve_shape|].
  destruct (read_s32_array node "google,chg-temp-limits" _ _) as [r1 l1] eqn:E1.
  apply read_s32_array_length in E1; [|lia].
  destruct (Z.ltb_spec r1 0); [injection H as <- <-; solve_shape|]. simpl in H.
  destruct (Z.leb_spec (count_either node "google,chg-cv-limits") 0) as [|Hn2];
    [injection H as <- <-; solve_shape|].
  destruct (Z.ltb_spec 10 (count_either node "google,chg-cv-limits")) as [|Hn2'];
    [injection H as <- <-; solve_shape|].
  destruct (read_either_s32 node "google,chg-cv-limits" _ _) as [r2 l2] eqn:E2.
  apply read_either_s32_length in E2; [|lia].
  destruct (Z.ltb_spec r2 0); [injection H as <- <-; solve_shape|]. simpl in H.
  destruct (Z.ltb_spec 0 (dt_count node "google,chg-topoff-limits")) as [Hn3|];
    [|injection H as <- <-; solve_shape].
  destruct (Z.ltb_spec 10 (dt_count node "google,chg-topoff-limits")) as [|Hn3'];
    [injection H as <- <-; solve_shape|].
  destruct (read_s32_array node "google,chg-topoff-limits" _ _) as [r3 l3] eqn:E3.
  apply read_s32_array_length in E3; [|simpl; lia].
  injection H as <- <-. simpl in E3. destruct (Z.ltb_spec r3 0); solve_shape.
Qed.

Lemma u32_array_size nb vb :
  1 <= nb <= 10 → 1 <= vb <= 10 → u32 ((nb - 1) * vb) = (nb - 1) * vb.
Proof. intros. apply u32_small. nia. Qed.

Lemma u32_quot_mul v res : 0 < res → 0 <= u32 v / res * res <= u32 v.
Proof.
  intros. pose proof (u32_range v). pose proof (Z.div_mod (u32 v) res ltac:(lia)).
  pose proof (Z.mod_pos_bound (u32 v) res ltac:(lia)).
  pose proof (Z.div_pos (u32 v) res ltac:(lia) ltac:(lia)). nia.
Qed.

Lemma round_down_Ok res v : 0 < res →
  ∃ v', round_down res v = Ok v' ∧ (res | u32 v') ∧ u32 v - res < u32 v' <= u32 v.
Proof.
  intros Hres. unfold round_down. replace (res =? 0) with false by lia.
  eexists. split; [done|]. rewrite u32_s32, u32_u32.
  pose proof (u32_quot_mul v res Hres) as Hm. pose proof (u32_range v).
  rewrite u32_small by lia. split; [by exists (u32 v / res)|].
  pose proof (Z.div_mod (u32 v) res ltac:(lia)).
  pose proof (Z.mod_pos_bound (u32 v) res ltac:(lia)). lia.
Qed.

(** The value [round_down] returns. *)
Definition rounded (res v : Z) : Z := s32 (u32 (u32 v / res * res)).

Lemma round_down_rounded res v : 0 < res → round_down res v = Ok (rounded res v).
Proof. intros. unfold round_down. by replace (res =? 0) with false by lia. Qed.

Lemma read_block_spec node prop n dst w blk :
  0 <= n → w.(heap) !! dst = Some blk → Z.of_nat (length blk) = n →
  ∃ ret w', read_block node prop n dst w = Ok (ret, w') ∧ w'.(allocs) = w.(allocs) ∧
    (ret < 0 → w' = w) ∧
    (0 <= ret → w'.(heap) = <[dst := (dt_array node prop n).2]> w.(heap) ∧
                Z.of_nat (length (dt_array node prop n).2) = n).
Proof.
  intros Hn Hb Hl. unfold read_block. pose proof (dt_array_length node prop n) as Hlen.
  destruct (dt_array node prop n) as [r v]. simpl in *. case_bool.
  { exists r, w. split_and!; [done|done|done|lia]. }
  specialize (Hlen ltac:(lia) Hn). unfold heap_store. rewrite Hb. simpl.
  case_bool; [lia|]. simpl. eexists r, _. split_and!; [done|done|lia|].
  intros _. simpl. rewrite drop_ge by lia. by rewrite app_nil_r.
Qed.

(** The resolution the profile is read with. *)
Definition dt_resolution (node : Z) : Z :=
  read_u32_default node "google,fv-uv-resolution" GBMS_DEFAULT_FV_UV_RESOLUTION.

(** Allocation returns a block that is not in use. *)
Definition alloc_fresh (w : world) : Prop :=
  ∀ a rest, w.(allocs) = Some a :: rest → a <> 0 ∧ w.(heap) !! a = None.

(** What a successful initialisation promises of the profile. *)
Record init_done (node : Z) (w w' : world) (p' : chg_profile) : Prop := {
  id_shape : table_shape p'.(table);
  id_counts : table_counts p'.(table);
  id_volts : ∀ i, 0 <= i < p'.(table).(volt_nb_limits) →
    (p'.(tuning).(fv_uv_resolution) | u32 (get p'.(table).(volt_limits) i));
  id_last : p'.(table).(last_volt)
            = u32 (get p'.(table).(volt_limits) (p'.(table).(volt_nb_limits) - 1));
  id_res : p'.(tuning).(fv_uv_resolution) = dt_resolution node;
  id_aact : p'.(aact).(aact_init_profile) = false ∧ p'.(aact).(aact_update_profile) = false;
  id_block : ∃ blk, w'.(heap) = <[p'.(table).(cccm_limits) := blk]> w.(heap) ∧
    Z.of_nat (length blk)
      = (p'.(table).(temp_nb_limits) - 1) * p'.(table).(volt_nb_limits)
}.

Lemma get_app_l l1 l2 i :
  0 <= i < Z.of_nat (length l1) → get (l1 ++ l2) i = get l1 i.
Proof. intros. unfold get. by rewrite lookup_app_l by lia. Qed.

Lemma get_fmap (f : Z → Z) l i :
  0 <= i < Z.of_nat (length l) → get (f <$> l) i = f (get l i).
Proof.
  intros. unfold get. rewrite list_lookup_fmap.
  by destruct (lookup_lt_is_Some_2 l (Z.to_nat i) ltac:(lia)) as [x ->].
Qed.

Lemma init_chg_profile_spec p node owner w :
  table_shape p.(table) → alloc_fresh w →
  (∃ ret w' p', gbms_init_chg_profile_internal p node owner w = Ok (ret, w', p') ∧
    ret <= 0 ∧ (ret < 0 → w'.(heap) = w.(heap)) ∧ (ret = 0 → init_done node w w' p')) ∨
  dt_resolution node = 0 ∧ gbms_init_chg_profile_internal p node owner w = Undef.
Proof.
  intros Hshape Hfresh. unfold gbms_init_chg_profile_internal.
  destruct (gbms_read_cccm_limits (set_owner_name owner p) node) as [ret p1] eqn:Hread.
  destruct (read_cccm_limits_spec (set_owner_name owner p) node ret p1 Hshape Hread)
    as (Hshape1 & Hcc & Ha & Hret & Hcounts).
  case_bool; [left; exists ret, w, p1; split_and!; [done|lia|done|lia]|].
  specialize (Hcounts ltac:(lia)). pose proof Hcounts as [Ht Hv Hto].
  pose proof Hshape1 as [Hlt Hlv Hlto].
  unfold GBMS_CHG_TEMP_NB_LIMITS_MAX, GBMS_CHG_VOLT_NB_LIMITS_MAX in *.
  rewrite u32_array_size by lia.
  set (sz := (temp_nb_limits (table p1) - 1) * volt_nb_limits (table p1)).
  assert (0 <= sz) as Hsz by (unfold sz; nia).
  destruct (kzalloc sz w) as [[a|] w1] eqn:Halloc.
  2:{ left. eexists _, w1, _. split_and!; [done|done|intros _; by eapply kzalloc_None|done]. }
  apply kzalloc_Some in Halloc as [Hh1 Hal1]. destruct (Hfresh a _ Hal1) as [Ha0 Hnone].
  destruct (read_block_spec node "google,chg-cc-limits" sz a w1 (replicate (Z.to_nat sz) 0))
    as (r2 & w2 & Hr2 & _ & Hbad & Hok);
    [done|by rewrite Hh1, lookup_insert_eq|rewrite length_replicate; lia|].
  rewrite Hr2. simpl. case_bool.
  { left. eexists _, _, _. split_and!; [done|done| |done]. intros _.
    rewrite (Hbad ltac:(done)). unfold kfree. replace (a =? 0) with false by lia.
    simpl. rewrite Hh1. by rewrite delete_insert_id. }
  destruct (Hok ltac:(lia)) as [Hh2 Hlen2].
  fold (dt_resolution node). destruct (Z.eq_dec (dt_resolution node) 0) as [Hz|Hres].
  { right. split; [done|]. rewrite Hz.
    destruct (volt_limits (table p1)) as [|v vl]; [cbn in Hlv; lia|].
    destruct (Z.to_nat (volt_nb_limits (table p1))) as [|n] eqn:En; [lia|]. done. }
  left. assert (0 < dt_resolution node) as Hres0.
  { unfold dt_resolution, read_u32_default in *.
    pose proof (dt_u32_range node "google,fv-uv-resolution").
    destruct (dt_u32 node _) as [r v]. simpl in *. revert Hres. case_bool; [done|lia]. }
  set (nb := volt_nb_limits (table p1)) in *. set (vl := volt_limits (table p1)) in *.
  rewrite (mapM_Ok _ (rounded (dt_resolution node)))
    by (intros; by apply round_down_rounded). simpl.
  assert (Z.of_nat (length (rounded (dt_resolution node) <$> take (Z.to_nat nb) vl)) = nb)
    as Hlr by (rewrite length_fmap, length_take; lia).
  rewrite at_get by (rewrite length_app; lia). simpl.
  eexists 0, w2, _. split; [reflexivity|]. split; [done|]. split; [lia|].
  intros _. split; simpl; try done.
  - split; simpl; [done| |done]. rewrite length_app, length_drop.
    unfold GBMS_CHG_VOLT_NB_LIMITS_MAX. fold vl nb. lia.
  - intros i Hi. fold nb in Hi |- *. rewrite get_app_l by lia.
    rewrite length_fmap in Hlr. rewrite get_fmap by lia.
    destruct (round_down_Ok (dt_resolution node) (get (take (Z.to_nat nb) vl) i) Hres0)
      as (v & Hv' & Hd & _).
    rewrite round_down_rounded in Hv' by done. by injection Hv' as ->.
  - exists (dt_array node "google,chg-cc-limits" sz).2. rewrite Hh2, Hh1.
    by rewrite insert_insert_eq.
Qed.

(** ** Scaling *)

Lemma scale_cc_nearest cap step rate :
  0 <= cap → 0 <= rate → 0 < step < 2 ^ 31 →
  rate * (cap * 10) + step / 2 < 2 ^ 32 → cap * 10 < 2 ^ 32 →
  (step | scale_cc cap step rate) ∧
  Z.abs (scale_cc cap step rate - rate * (cap * 10)) <= step / 2.
Proof.
  intros Hcap Hrate Hstep Hx Hc. unfold scale_cc, round_closest.
  pose proof (Z.div_mod step 2 ltac:(lia)) as H2.
  pose proof (Z.mod_pos_bound step 2 ltac:(lia)) as H2b.
  pose proof (Z.div_pos step 2 ltac:(lia) ltac:(lia)) as H20.
  rewrite (u32_small (cap * 10)) by lia. rewrite (u32_small (rate * _)) by nia.
  replace (step =? 0) with false by lia. rewrite Z.quot_div_nonneg by lia.
  rewrite (u32_small (step / 2)), (u32_small (_ + step / 2)), (u32_small step) by nia.
  set (x := rate * (cap * 10)) in *. assert (0 <= x) by (unfold x; nia). clearbody x.
  pose proof (Z.div_mod (x + step / 2) step ltac:(lia)) as Hdm.
  pose proof (Z.mod_pos_bound (x + step / 2) step ltac:(lia)) as Hmb.
  pose proof (Z.div_pos (x + step / 2) step ltac:(lia) ltac:(lia)) as Hq.
  rewrite u32_small by nia. split; [by exists ((x + step / 2) / step)|]. lia.
Qed.

(** The profile reads its default table, of one row per temperature range. *)
Record default_table (p : chg_profile) (w : world) : Prop := {
  dtab_aact : p.(aact).(aact_init_profile) = false;
  dtab_counts : table_counts p.(table);
  dtab_block : ∃ blk, w.(heap) !! p.(table).(cccm_limits) = Some blk ∧
    Z.of_nat (length blk) = (p.(table).(temp_nb_limits) - 1) * p.(table).(volt_nb_limits)
}.

(** The rates of the device tree. *)
Definition dt_rates (p : chg_profile) (node : Z) : Z * list Z :=
  dt_array node "google,chg-cc-limits"
    ((p.(table).(temp_nb_limits) - 1) * p.(table).(volt_nb_limits)).

Lemma init_chg_table_default p node cap w :
  default_table p w → 0 <= (dt_rates p node).1 →
  ∃ w' , gbms_init_chg_table p node cap w
           = Ok (w', set_table (set_capacity_ma cap p.(table)) p) ∧
    w'.(heap) = <[p.(table).(cccm_limits) :=
      scale_cc cap (s32 p.(tuning).(cc_ua_resolution)) <$> (dt_rates p node).2]> w.(heap) ∧
    Z.of_nat (length (dt_rates p node).2)
      = (p.(table).(temp_nb_limits) - 1) * p.(table).(volt_nb_limits).
Proof.
  intros [Haact [Ht Hv _] (blk & Hblk & Hlen)] Hret.
  unfold GBMS_CHG_TEMP_NB_LIMITS_MAX, GBMS_CHG_VOLT_NB_LIMITS_MAX in *.
  unfold gbms_init_chg_table. simpl. rewrite Haact. simpl.
  rewrite u32_array_size by lia. unfold dt_rates in *.
  set (nv := volt_nb_limits (table p)) in *.
  set (rows := temp_nb_limits (table p) - 1) in *.
  assert (0 <= rows * nv) as Hsz by (apply Z.mul_nonneg_nonneg; lia).
  destruct (read_block_spec node "google,chg-cc-limits" (rows * nv)
    (cccm_limits (table p)) w blk) as (r & w1 & Hr & Hal & _ & Hok); [done..|].
  rewrite Hr. simpl.
  assert (r = (dt_array node "google,chg-cc-limits" (rows * nv)).1) as Hr1.
  { revert Hr. unfold read_block. destruct (dt_array node _ _) as [r' v]. simpl.
    case_bool; [by intros [= <- _]|]. destruct (heap_store _ _ _); try done.
    by intros [= <- _]. }
  destruct (Hok ltac:(lia)) as [Hh1 Hlv].
  set (vals := (dt_array node "google,chg-cc-limits" (rows * nv)).2) in *.
  rewrite !Z.max_r by lia. case_bool.
  - exists w1. split_and!; [done| |done]. rewrite Hh1.
    assert (vals = []) as -> by (apply nil_length_inv; lia). done.
  - rewrite Hh1, lookup_insert_eq. simpl.
    rewrite <- Hlv, buf_read_all. simpl. unfold heap_store. rewrite Hh1, lookup_insert_eq. simpl.
    rewrite length_fmap. case_bool; [lia|]. simpl. eexists. split; [done|].
    rewrite drop_all, app_nil_r. simpl. by rewrite insert_insert_eq.
Qed.

(** ** Properties *)

(** C29: reading the profile returns an error or 0, unless the resolution of the voltages
    in the device tree is 0 and divides the limits.  On an error
    no block is left allocated; on success the counts are within the arrays,
    every voltage limit of the table is a multiple of the resolution, the last
    one is kept, and the table of currents has one entry per temperature range
    and voltage limit, in a new block, the rest of the heap untouched. *)
Theorem gbms_init_chg_profile_ok p node owner w :
  table_shape p.(table) → alloc_fresh w →
  (∃ ret w' p', gbms_init_chg_profile_internal p node owner w = Ok (ret, w', p') ∧
    ret <= 0 ∧ (ret < 0 → w'.(heap) = w.(heap)) ∧ (ret = 0 → init_done node w w' p')) ∨
  dt_resolution node = 0 ∧ gbms_init_chg_profile_internal p node owner w = Undef.
Proof. intros. by apply init_chg_profile_spec. Qed.

(** Scaling turns the C rate of every range and tier into the multiple of
    the current resolution nearest to rate * capacity * 10, when that product
    fits 32 bits. *)
Theorem gbms_init_chg_table_nearest p node cap w :
  default_table p w → 0 <= (dt_rates p node).1 →
  let step := s32 p.(tuning).(cc_ua_resolution) in
  0 < step → 0 <= cap → cap * 10 < 2 ^ 32 →
  Forall (λ rate, rate * (cap * 10) + step / 2 < 2 ^ 32) (dt_rates p node).2 →
  ∃ w' p' blk, gbms_init_chg_table p node cap w = Ok (w', p') ∧
    w'.(heap) !! p.(table).(cccm_limits) = Some blk ∧
    p' = set_table (set_capacity_ma cap p.(table)) p ∧
    ∀ i, 0 <= i < (p.(table).(temp_nb_limits) - 1) * p.(table).(volt_nb_limits) →
      (step | get blk i) ∧
      Z.abs (get blk i - get (dt_rates p node).2 i * (cap * 10)) <= step / 2.
Proof.
  intros Hd Hret step Hstep Hcap Hc10 Hall.
  destruct (init_chg_table_default p node cap w Hd Hret) as (w' & Hrun & Hh & Hlen).
  eexists w', _, _. split; [exact Hrun|]. split; [by rewrite Hh, lookup_insert_eq|].
  split; [done|]. intros i Hi. fold step. rewrite get_fmap by lia.
  assert (0 <= get (dt_rates p node).2 i) as Hpos
    by (apply (get_range (λ v, 0 <= v < 2 ^ 32)); [apply dt_array_range|lia]).
  pose proof (get_range _ _ i Hall ltac:(lia)) as Hfit. simpl in Hfit.
  apply scale_cc_nearest; try done. pose proof (s32_range (cc_ua_resolution (tuning p))).
  unfold step in *. lia.
Qed.

(** scaling the default table again gives the same table: the rates are
    read again from the device tree, although the comment of the function says
    that it converts them in place and cannot be called twice. *)
Theorem gbms_init_chg_table_idempotent p node cap w :
  default_table p w → 0 <= (dt_rates p node).1 →
  ∃ w1 p1 w2, gbms_init_chg_table p node cap w = Ok (w1, p1) ∧
    gbms_init_chg_table p1 node cap w1 = Ok (w2, p1) ∧ w2.(heap) = w1.(heap).
Proof.
  intros Hd Hret. pose proof Hd as [Haact Hcounts _].
  destruct (init_chg_table_default p node cap w Hd Hret) as (w1 & Hrun & Hh & Hlen).
  set (p1 := set_table (set_capacity_ma cap (table p)) p) in *.
  assert (default_table p1 w1) as Hd1.
  { split; [done|by destruct Hcounts|]. eexists. split; [by rewrite Hh; apply lookup_insert_eq|].
    by rewrite length_fmap. }
  destruct (init_chg_table_default p1 node cap w1 Hd1 Hret) as (w2 & Hrun2 & Hh2 & _).
  exists w1, p1, w2. split_and!; [done|exact Hrun2|]. rewrite Hh2, Hh.
  by rewrite insert_insert_eq.
Qed.

(** ** The aged table *)

(** The aged table is loaded. *)
Record aact_loaded (p : chg_profile) (w : world) (blk : list Z) : Prop := {
  al_block : w.(heap) !! p.(aact).(aact_cccm_limits) = Some blk;
  al_len : Z.of_nat (length blk) = aact_array_size p;
  al_temp : 1 <= p.(aact).(aact_temp_nb_limits) <= GBMS_CHG_TEMP_NB_LIMITS_MAX;
  al_volt : 1 <= p.(aact).(aact_volt_nb_limits) <= GBMS_CHG_VOLT_NB_LIMITS_MAX;
  al_temps : Z.of_nat (length p.(aact).(aact_temp_limits)) = GBMS_CHG_TEMP_NB_LIMITS_MAX;
  al_volts : Z.of_nat (length p.(aact).(aact_volt_limits)) = GBMS_CHG_VOLT_NB_LIMITS_MAX
}.

Lemma copy_prefix_Ok n src dst :
  0 <= n <= Z.of_nat (length dst) → length src = length dst →
  ∃ l, copy_prefix n src dst = Ok l ∧ length l = length dst ∧
    ∀ i, 0 <= i < n → get l i = get src i.
Proof.
  intros Hn Hl. unfold copy_prefix. case_bool; [lia|].
  rewrite buf_read_ok by lia. rewrite drop_0. simpl. eexists. split; [done|]. split.
  - rewrite length_app, length_take, length_drop. lia.
  - intros i Hi. rewrite get_app_l by (rewrite length_take; lia).
    unfold get. by rewrite lookup_take_lt by lia.
Qed.

(** Replacing the charge table by the aged one installs a copy of it, with
    its temperatures and voltages; the block of the table that was in use is
    neither freed nor referenced any more. *)
Theorem gbms_update_from_aact_copies_and_leaks p w blk old a rest :
  aact_loaded p w blk → table_shape p.(table) →
  w.(allocs) = Some a :: rest → alloc_fresh w →
  w.(heap) !! p.(table).(cccm_limits) = Some old →
  ∃ w' p', gbms_update_chg_profile_from_aact p w = Ok (0, w', p') ∧
    p'.(table).(cccm_limits) = a ∧ a <> p.(table).(cccm_limits) ∧
    w'.(heap) = <[a := blk]> w.(heap) ∧
    w'.(heap) !! p.(table).(cccm_limits) = Some old ∧
    p'.(aact).(aact_init_profile) = true ∧
    p'.(table).(temp_nb_limits) = p.(aact).(aact_temp_nb_limits) ∧
    p'.(table).(volt_nb_limits) = p.(aact).(aact_volt_nb_limits) ∧
    (∀ i, 0 <= i < p.(aact).(aact_temp_nb_limits) →
       get p'.(table).(temp_limits) i = get p.(aact).(aact_temp_limits) i) ∧
    (∀ i, 0 <= i < p.(aact).(aact_volt_nb_limits) →
       get p'.(table).(volt_limits) i = get p.(aact).(aact_volt_limits) i).
Proof.
  intros [Hblk Hlen Ht Hv Hts Hvs] [Hs1 Hs2 _] Hal Hfresh Hold.
  destruct (Hfresh a rest Hal) as [Ha0 Hnone].
  unfold GBMS_CHG_TEMP_NB_LIMITS_MAX, GBMS_CHG_VOLT_NB_LIMITS_MAX in *.
  unfold gbms_update_chg_profile_from_aact, kzalloc. rewrite Hal.
  assert (a <> aact_cccm_limits (aact p)) as Hne by congruence.
  assert (a <> cccm_limits (table p)) as Hne2 by congruence.
  unfold heap_memcpy at 1. simpl. rewrite lookup_insert_ne, Hblk by done. simpl.
  rewrite <- Hlen, buf_read_all. simpl. unfold heap_store. simpl.
  rewrite lookup_insert_eq. simpl. rewrite length_replicate, Nat2Z.id. case_bool; [lia|]. simpl.
  destruct (copy_prefix_Ok (aact_temp_nb_limits (aact p)) (aact_temp_limits (aact p))
    (temp_limits (table p))) as (tl & -> & Htl & Hget); [lia..|]. simpl.
  destruct (copy_prefix_Ok (aact_volt_nb_limits (aact p)) (aact_volt_limits (aact p))
    (volt_limits (table p))) as (vl & -> & Hvl & Hgetv); [lia..|]. simpl.
  rewrite at_get by lia. simpl. eexists _, _. split; [reflexivity|].
  rewrite drop_ge by (rewrite length_replicate; lia). rewrite app_nil_r. simpl.
  split_and!; try done.
  - by rewrite insert_insert_eq.
  - by rewrite !lookup_insert_ne by done.
Qed.

(** When the currents of the aged table cannot be read, the error path
    frees the table that is in use instead of the new one: the profile is left
    without a table, and keeps a pointer to the aged table, all zeros. *)
Theorem gbms_init_aact_error_frees_table_in_use p p1 node owner w a rest limits :
  p.(aact).(aact_update_profile) = false →
  gbms_read_aact_cccm_limits (set_owner_name owner p) node = Ok (0, p1) →
  w.(allocs) = Some a :: rest → a <> 0 → a <> p1.(table).(cccm_limits) →
  p1.(table).(cccm_limits) <> 0 →
  limits_name aact_all_limits_cc_limits p1 = Ok limits →
  (dt_array (gbms_batt_id_node node) limits (aact_array_size p1)).1 < 0 →
  (dt_array node limits (aact_array_size p1)).1 < 0 →
  ∃ w' p', gbms_init_aact_profile_internal p node owner w = Ok (- EINVAL, w', p') ∧
    p'.(table).(cccm_limits) = 0 ∧
    w'.(heap) !! p1.(table).(cccm_limits) = None ∧
    p'.(aact).(aact_cccm_limits) = a ∧
    w'.(heap) !! a = Some (replicate (Z.to_nat (aact_array_size p1)) 0).
Proof.
  intros Hup Hread Hal Ha0 Hne Hcc Hlim Hb Hc. unfold gbms_init_aact_profile_internal.
  simpl. rewrite Hup, Hread. simpl. unfold kzalloc. rewrite Hal. simpl.
  unfold limits_name, GBMS_AACT_IDX in *. simpl. rewrite Hlim. simpl.
  unfold read_either_block, read_block.
  destruct (dt_array (gbms_batt_id_node node) _ _) as [r1 v1]. simpl in Hb.
  replace (r1 <? 0) with true by lia. simpl. replace (r1 <? 0) with true by lia.
  destruct (dt_array node _ _) as [r2 v2]. simpl in Hc.
  replace (r2 <? 0) with true by lia. simpl. replace (r2 <? 0) with true by lia.
  eexists _, _. split; [reflexivity|]. unfold kfree. simpl.
  replace (cccm_limits (table p1) =? 0) with false by lia. simpl. split_and!; try done.
  - apply lookup_delete_eq.
  - rewrite lookup_delete_ne by done. apply lookup_insert_eq.
Qed.

End Bms.

(** ** Witnesses *)

Module DemoDt.

(** A device tree with the default table; the aged profile lacks its currents. *)
Definition values (s : string) : option (list Z) :=
  if String.eqb s "google,chg-temp-limits" then Some [0; 100; 200; 450]
  else if String.eqb s "google,chg-cv-limits" then Some [4200000; 4350000; 4510000]
  else if String.eqb s "google,chg-cc-limits" then Some [30; 30; 10; 50; 30; 0; 20; 10; 0]
  else if String.eqb s "google,chg-aact-ecc" then Some [0]
  else if String.eqb s "google,aact-temp-limits" then Some [0; 450]
  else if String.eqb s "google,aact-cv-limits" then Some [4200000]
  else None.

Definition env : gbms_env :=
  {| dt_count := λ _ s, match values s with Some l => Z.of_nat (length l) | None => - EINVAL end;
     dt_array := λ _ s c, match values s with
       | Some l => (0, take (Z.to_nat c) (l ++ replicate (Z.to_nat c) 0))
       | None => (- EINVAL, []) end;
     dt_u32 := λ _ _, (- EINVAL, 0);
     dt_bool := λ _ _, false;
     dt_children := λ _, [];
     storage_brid := λ _, (- ENODEV, 0) |}.

Definition w : world := World (<[4096 := replicate 9 0]> ∅) [Some 8192].

End DemoDt.

Lemma demo_values_range s l :
  DemoDt.values s = Some l → (length l ≤ 9)%nat ∧ Forall (λ v, 0 <= v < 2 ^ 32) l.
Proof.
  unfold DemoDt.values. repeat (case_match; [intros [= <-]; split; [simpl; lia|repeat constructor; lia]|]).
  done.
Qed.

#[export] Instance demo_env_ok : gbms_env_ok DemoDt.env.
Proof.
  split; simpl.
  - intros n s c Hr Hc. destruct (DemoDt.values s); [|by vm_compute in Hr]. simpl.
    rewrite length_take, length_app, length_replicate. lia.
  - intros n s c. destruct (DemoDt.values s) as [l|] eqn:Hl; simpl; [|constructor].
    apply Forall_take, Forall_app. split; [by eapply demo_values_range|].
    apply Forall_replicate. lia.
  - lia.
  - intros n s. destruct (DemoDt.values s) as [l|] eqn:Hl; [|vm_compute; done].
    apply demo_values_range in Hl as [? _]. lia.
Qed.

Lemma demo_shape : table_shape (table Demo.profile).
Proof. by split. Qed.

Lemma demo_fresh : alloc_fresh DemoDt.w.
Proof. by intros a rest [= <- _]. Qed.

Lemma gbms_init_chg_profile_ok_witness :
  ∃ ret w' p', @gbms_init_chg_profile_internal DemoDt.env Demo.profile 1 "battery" DemoDt.w
      = Ok (ret, w', p') ∧ ret <= 0 ∧ (ret < 0 → w'.(heap) = heap DemoDt.w) ∧
    (ret = 0 → @init_done DemoDt.env 1 DemoDt.w w' p').
Proof.
  destruct (@gbms_init_chg_profile_ok DemoDt.env demo_env_ok Demo.profile 1 "battery" DemoDt.w)
    as [H|[H _]]; [exact demo_shape|exact demo_fresh|exact H|by vm_compute in H].
Defined.

Lemma demo_default : default_table Demo.profile DemoDt.w.
Proof.
  split; [done|split; vm_compute; done|]. exists (replicate 9 0). split; vm_compute; done.
Qed.

Lemma gbms_init_chg_table_nearest_witness :
  let p := Demo.profile in
  ∃ w' p' blk, @gbms_init_chg_table DemoDt.env p 1 4100 DemoDt.w = Ok (w', p') ∧
    w'.(heap) !! p.(table).(cccm_limits) = Some blk ∧
    p' = set_table (set_capacity_ma 4100 p.(table)) p ∧
    ∀ i, 0 <= i < 9 →
      (25000 | get blk i) ∧
      Z.abs (get blk i - get (@dt_rates DemoDt.env p 1).2 i * (4100 * 10)) <= 12500.
Proof.
  apply (@gbms_init_chg_table_nearest DemoDt.env demo_env_ok Demo.profile 1 4100 DemoDt.w).
  - exact demo_default.
  - vm_compute. done.
  - vm_compute. done.
  - lia.
  - lia.
  - repeat constructor; vm_compute; done.
Defined.

Lemma gbms_init_chg_table_idempotent_witness :
  ∃ w1 p1 w2, @gbms_init_chg_table DemoDt.env Demo.profile 1 4100 DemoDt.w = Ok (w1, p1) ∧
    @gbms_init_chg_table DemoDt.env p1 1 4100 w1 = Ok (w2, p1) ∧ w2.(heap) = w1.(heap).
Proof.
  apply (@gbms_init_chg_table_idempotent DemoDt.env demo_env_ok);
    [exact demo_default|vm_compute; done].
Defined.

(** The demo profile with an aged table of one range and two tiers. *)
Definition demo_aged : chg_profile :=
  set_aact (Aact 2 [0; 450; 0; 0; 0; 0; 0; 0; 0; 0] 2
              [4100000; 4400000; 0; 0; 0; 0; 0; 0; 0; 0] 1 [0; 0; 0; 0; 0] 0 false false
              false true 512) Demo.profile.

Definition demo_aged_w : world :=
  World (<[512 := [20; 10]]> (<[4096 := replicate 9 0]> ∅)) [Some 8192].

Lemma gbms_update_from_aact_copies_and_leaks_witness :
  let p := demo_aged in
  ∃ w' p', gbms_update_chg_profile_from_aact p demo_aged_w = Ok (0, w', p') ∧
    p'.(table).(cccm_limits) = 8192 ∧ 8192 <> p.(table).(cccm_limits) ∧
    w'.(heap) = <[8192 := [20; 10]]> (heap demo_aged_w) ∧
    w'.(heap) !! p.(table).(cccm_limits) = Some (replicate 9 0) ∧
    p'.(aact).(aact_init_profile) = true ∧
    p'.(table).(temp_nb_limits) = 2 ∧ p'.(table).(volt_nb_limits) = 2 ∧
    (∀ i, 0 <= i < 2 → get p'.(table).(temp_limits) i = get p.(aact).(aact_temp_limits) i) ∧
    (∀ i, 0 <= i < 2 → get p'.(table).(volt_limits) i = get p.(aact).(aact_volt_limits) i).
Proof.
  apply (gbms_update_from_aact_copies_and_leaks demo_aged demo_aged_w [20; 10]
    (replicate 9 0) 8192 []).
  - split; vm_compute; done.
  - by split.
  - reflexivity.
  - by intros a rest [= <- _].
  - vm_compute. done.
Defined.

(** The demo profile once the aged temperatures and voltages are read. *)
Definition demo_read : chg_profile :=
  match @gbms_read_aact_cccm_limits DemoDt.env (set_owner_name "battery" Demo.profile) 1 with
  | Ok (_, p) => p
  | _ => Demo.profile
  end.

Lemma gbms_init_aact_error_frees_table_in_use_witness :
  ∃ w' p', @gbms_init_aact_profile_internal DemoDt.env Demo.profile 1 "battery" DemoDt.w
             = Ok (- EINVAL, w', p') ∧
    p'.(table).(cccm_limits) = 0 ∧ w'.(heap) !! demo_read.(table).(cccm_limits) = None ∧
    p'.(aact).(aact_cccm_limits) = 8192 ∧
    w'.(heap) !! 8192 = Some (replicate (Z.to_nat (aact_array_size demo_read)) 0).
Proof.
  apply (@gbms_init_aact_error_frees_table_in_use DemoDt.env Demo.profile demo_read 1
    "battery" DemoDt.w 8192 [] "google,aact-cc-limits"%string);
    [reflexivity|vm_compute; reflexivity|reflexivity|done|vm_compute; done|vm_compute; done
    |vm_compute; reflexivity|vm_compute; done|vm_compute; done].
Defined.
