(* ===== verification/BmsState.v ===== *)
(** * google_bms: charger state, tier statistics, properties and text

    The rest of [google_bms.c]: the charger state shared by the charging
    drivers, the statistics of a charge tier, the forwarding of properties, and
    the conversion of cycle counts and logs to text.  The numbers of the
    kernel's power supply enumerations are parameters. *)

From S2P Require Import Prelude.

(** ** Names *)

Definition psy_chgs_str : list string :=
  ["Unknown"; "Charging"; "Discharging"; "Not Charging"; "Full"].

(** [index < 0 || index > ARRAY_SIZE(l)], then [l[index]]. *)
Definition name_in (l : list string) (index : Z) : outcome string :=
  if (index <? 0) || (Z.of_nat (length l) <? index) then Ok "<err>"%string
  else must (l !! Z.to_nat index).

Definition gbms_chg_status_s (chg_status : Z) : outcome string :=
  name_in psy_chgs_str chg_status.

Definition chg_ev_adapter_type_str : list string :=
  ["UNKNOWN"; "USB"; "USB_SDP"; "USB_DCP"; "USB_CDP"; "USB_ACA"; "USB_C"; "USB_PD";
   "USB_PD_DRP"; "USB_PD_PPS"; "USB_BRICKID"; "USB_HVDCP"; "USB_HVDCP3"; "FLOAT"; "WLC";
   "WLC_EPP"; "WLC_SPP"; "GPP"; "10W"; "L7"; "DL"; "WPC_EPP"; "WPC_GPP"; "WPC_10W";
   "WPC_BPP"; "WPC_L7"; "EXT"; "EXT1"; "EXT2"; "EXT_UNKNOWN"; "USB_UNKNOWN";
   "WLC_UNKNOWN"].

Definition gbms_chg_ev_adapter_s (adapter : Z) : outcome string :=
  name_in chg_ev_adapter_type_str adapter.

(** [enum gbms_msc_states_t] *)
Definition MSC_STATES_COUNT : Z := 21.

Definition msc_codes : list string :=
  ["n"; "s"; "d"; "l"; "v"; "vo"; "p"; "f"; "t"; "dl"; "st"; "tc"; "r"; "w"; "rs"; "n";
   "ny"; "do"; "h"; "hp"; "ha"].

Definition gbms_get_code (index : Z) : outcome string :=
  if (0 <=? index) && (index <? Z.of_nat (length msc_codes))
  then must (msc_codes !! Z.to_nat index) else Ok "?"%string.

(** ** The charger state: the 64 bits of the union, the first field lowest *)

Record charger_state := ChargerState {
  flags : Z;
  pad : Z;
  chg_status : Z;
  chg_type : Z;
  vchrg : Z;
  icl : Z
}.

Definition state_of_v (v : Z) : charger_state :=
  ChargerState (u8 v) (u8 (Z.shiftr v 8)) (u8 (Z.shiftr v 16)) (u8 (Z.shiftr v 24))
    (u16 (Z.shiftr v 32)) (u16 (Z.shiftr v 48)).

Definition v_of_state (s : charger_state) : Z :=
  s.(flags) + 2 ^ 8 * s.(pad) + 2 ^ 16 * s.(chg_status) + 2 ^ 24 * s.(chg_type)
  + 2 ^ 32 * s.(vchrg) + 2 ^ 48 * s.(icl).

Definition GBMS_CS_FLAG_BUCK_EN : Z := 1.
Definition GBMS_CS_FLAG_DONE : Z := 2.
Definition GBMS_CS_FLAG_CC : Z := 4.
Definition GBMS_CS_FLAG_CV : Z := 8.
Definition GBMS_CS_FLAG_INPUT_SUSPEND : Z := 128.

(** The kernel's enumerations. *)
Class psy_enums := {
  POWER_SUPPLY_STATUS_UNKNOWN : Z;
  POWER_SUPPLY_STATUS_DISCHARGING : Z;
  POWER_SUPPLY_STATUS_FULL : Z;
  POWER_SUPPLY_CHARGE_TYPE_FAST : Z;
  POWER_SUPPLY_CHARGE_TYPE_TAPER_EXT : Z;
  POWER_SUPPLY_PROP_STATUS : Z;
  POWER_SUPPLY_PROP_CHARGE_TYPE : Z;
  POWER_SUPPLY_PROP_VOLTAGE_NOW : Z;
  POWER_SUPPLY_PROP_CURRENT_NOW : Z;
  GBMS_PROP_CHARGE_CHARGER_STATE : Z
}.

(** ** Power supplies

    [struct gbms_desc] over the data [D] of its driver; the last two are the
    kernel's accessors.  A value is the 64 bits of the union. *)
Record psy_desc (D : Type) := PsyDesc {
  get_property : option (D → Z → D * Z * Z);
  set_property : option (D → Z → Z → D * Z);
  property_is_writeable : option (D → Z → bool);
  forward : bool;
  power_supply_get_property : D → Z → D * Z * Z;
  power_supply_set_property : D → Z → Z → D * Z
}.

Arguments get_property {D}.
Arguments set_property {D}.
Arguments property_is_writeable {D}.
Arguments forward {D}.
Arguments power_supply_get_property {D}.
Arguments power_supply_set_property {D}.

Section Psy.
Context `{psy_enums} {D : Type} (dsc : psy_desc D).

Definition gbms_set_property (psy : option D) (psp val : Z) : option D * Z :=
  match psy with
  | None => (None, - EINVAL)
  | Some d =>
      let '(d, done) :=
        match dsc.(set_property) with
        | Some set =>
            let writable :=
              match dsc.(property_is_writeable) with Some f => f d psp | None => false end in
            if writable then let '(d, ret) := set d psp val in (d, ret =? 0) else (d, false)
        | None => (d, false)
        end in
      if done then (Some d, 0)
      else if negb dsc.(forward) then (Some d, - ENODEV)
      else let '(d, ret) := dsc.(power_supply_set_property) d psp val in (Some d, ret)
  end.

(** The supply, the error code and the value. *)
Definition gbms_get_property (psy : option D) (psp : Z) : option D * Z * Z :=
  match psy with
  | None => (None, - EINVAL, 0)
  | Some d =>
      let '(d, ret, val) :=
        match dsc.(get_property) with
        | Some get => get d psp
        | None => (d, - ENODEV, 0)
        end in
      if (match dsc.(get_property) with Some _ => true | None => false end) && (ret =? 0)
      then (Some d, 0, val)
      else if negb dsc.(forward) then (Some d, - ENODEV, val)
      else let '(d, ret, val) := dsc.(power_supply_get_property) d psp in (Some d, ret, val)
  end.

(** [GPSY_GET_INT_PROP]: the value, or the error in its place, and the error. *)
Definition gpsy_get_prop (psy : option D) (psp : Z) : option D * Z * Z :=
  let '(psy, ret, val) := gbms_get_property psy psp in
  (psy, if ret <? 0 then ret else s32 val, ret).

Definition gpsy_get_int64_prop (psy : option D) (psp : Z) : option D * Z * Z :=
  let '(psy, err, val) := gbms_get_property psy psp in
  (psy, if err <? 0 then err else s64 val, err).

(** ** Charger state *)

Definition gbms_gen_chg_flags (chg_status chg_type : Z) : Z :=
  let flags := 0 in
  let flags :=
    if negb (chg_status =? POWER_SUPPLY_STATUS_DISCHARGING) then
      let flags := Z.lor flags GBMS_CS_FLAG_BUCK_EN in
      if chg_status =? POWER_SUPPLY_STATUS_FULL then Z.lor flags GBMS_CS_FLAG_DONE else flags
    else flags in
  let flags :=
    if chg_type =? POWER_SUPPLY_CHARGE_TYPE_FAST then Z.lor flags GBMS_CS_FLAG_CC else flags in
  if chg_type =? POWER_SUPPLY_CHARGE_TYPE_TAPER_EXT then Z.lor flags GBMS_CS_FLAG_CV
  else flags.

Definition gbms_gen_state (psy : option D) (s : charger_state) :
    option D * Z * charger_state :=
  let '(psy, vchrg, _) := gpsy_get_prop psy POWER_SUPPLY_PROP_VOLTAGE_NOW in
  let '(psy, chg_type, _) := gpsy_get_prop psy POWER_SUPPLY_PROP_CHARGE_TYPE in
  let '(psy, chg_status, ioerr) := gpsy_get_prop psy POWER_SUPPLY_PROP_STATUS in
  if (vchrg <? 0) || (chg_type <? 0) || (ioerr <? 0) then (psy, - EINVAL, s)
  else
    let st := u8 chg_status in
    let ty := u8 chg_type in
    (psy, 0, ChargerState (gbms_gen_chg_flags st ty) s.(pad) st ty
               (u16 (Z.quot vchrg 1000)) s.(icl)).

Definition gbms_read_charger_state (psy : option D) (s : charger_state) :
    option D * Z * charger_state :=
  let '(psy, val, ret) := gpsy_get_int64_prop psy GBMS_PROP_CHARGE_CHARGER_STATE in
  if ret =? 0 then (psy, 0, state_of_v val)
  else if ret =? - EAGAIN then (psy, ret, s)
  else
    let '(psy, ret, s) := gbms_gen_state psy s in
    if ret <? 0 then (psy, ret, s)
    else
      let '(psy, ichg, _) := gpsy_get_prop psy POWER_SUPPLY_PROP_CURRENT_NOW in
      (psy, 0,
       if 0 <? ichg
       then ChargerState s.(flags) s.(pad) s.(chg_status) s.(chg_type) s.(vchrg)
              (u16 (Z.quot ichg 1000))
       else s).

Definition chg_state_is_disconnected (s : charger_state) : bool :=
  ((Z.land s.(flags) GBMS_CS_FLAG_BUCK_EN =? 0)
     && ((s.(chg_status) =? POWER_SUPPLY_STATUS_DISCHARGING)
         || (s.(chg_status) =? POWER_SUPPLY_STATUS_UNKNOWN)))
  || negb (Z.land s.(flags) GBMS_CS_FLAG_INPUT_SUSPEND =? 0).

End Psy.

(** ** Statistics of a charge tier *)

Record tier_stats := TierStats {
  t_temp_idx : Z;
  vtier_idx : Z;
  soc_in : Z;
  cc_in : Z;
  cc_total : Z;
  time_fast : Z;
  time_taper : Z;
  time_other : Z;
  temp_in : Z;
  temp_min : Z;
  temp_max : Z;
  ibatt_min : Z;
  ibatt_max : Z;
  icl_min : Z;
  icl_max : Z;
  icl_sum : Z;
  temp_sum : Z;
  ibatt_sum : Z;
  sample_count : Z;
  msc_cnt : list Z;
  msc_elap : list Z
}.

Definition gbms_tier_stats_init (idx : Z) (t : tier_stats) : tier_stats :=
  TierStats (-1) (s8 idx) (-1) t.(cc_in) t.(cc_total) t.(time_fast) t.(time_taper)
    t.(time_other) t.(temp_in) t.(temp_min) t.(temp_max) t.(ibatt_min) t.(ibatt_max)
    t.(icl_min) t.(icl_max) t.(icl_sum) t.(temp_sum) t.(ibatt_sum) t.(sample_count)
    t.(msc_cnt) t.(msc_elap).

Definition gbms_chg_stats_tier (t : tier_stats) (msc_state elap : Z) : tier_stats :=
  if (msc_state <? 0) || (MSC_STATES_COUNT <=? msc_state) then t
  else
    let i := Z.to_nat msc_state in
    TierStats t.(t_temp_idx) t.(vtier_idx) t.(soc_in) t.(cc_in) t.(cc_total) t.(time_fast)
      t.(time_taper) t.(time_other) t.(temp_in) t.(temp_min) t.(temp_max) t.(ibatt_min)
      t.(ibatt_max) t.(icl_min) t.(icl_max) t.(icl_sum) t.(temp_sum) t.(ibatt_sum)
      t.(sample_count) (alter (λ c, u16 (c + 1)) i t.(msc_cnt))
      (alter (λ e, u32 (e + elap)) i t.(msc_elap)).

(** [elap] is in seconds, the other arguments are [int]s; the minima and maxima
    compare before the store cuts to 16 bits. *)
Definition gbms_stats_update_tier `{psy_enums} (temp_idx ibatt_ma temp elap cc : Z)
    (s : charger_state) (msc_state soc : Z) (tier : tier_stats) : tier_stats :=
  let icl_settled := s.(icl) in
  let t := gbms_chg_stats_tier tier msc_state elap in
  let samples := u32 (t.(sample_count) + 1) in
  if t.(soc_in) =? -1 then
    TierStats (s8 temp_idx) t.(vtier_idx) (s16 soc) (u16 cc) 0 t.(time_fast)
      t.(time_taper) t.(time_other) (s16 temp) (s16 temp) (s16 temp) (s16 ibatt_ma)
      (s16 ibatt_ma) icl_settled icl_settled t.(icl_sum) t.(temp_sum) t.(ibatt_sum)
      samples t.(msc_cnt) t.(msc_elap)
  else
    let fast := s.(chg_type) =? POWER_SUPPLY_CHARGE_TYPE_FAST in
    let taper := negb fast && (s.(chg_type) =? POWER_SUPPLY_CHARGE_TYPE_TAPER_EXT) in
    let other := negb fast && negb taper in
    let book (b : bool) v := if b then u32 (v + elap) else v in
    TierStats
      (if temp_idx =? t.(t_temp_idx) then t.(t_temp_idx) else -1)
      t.(vtier_idx) t.(soc_in) t.(cc_in) (u16 (cc - t.(cc_in)))
      (book fast t.(time_fast)) (book taper t.(time_taper)) (book other t.(time_other))
      t.(temp_in)
      (if temp <? t.(temp_min) then s16 temp else t.(temp_min))
      (if t.(temp_max) <? temp then s16 temp else t.(temp_max))
      (if ibatt_ma <? t.(ibatt_min) then s16 ibatt_ma else t.(ibatt_min))
      (if t.(ibatt_max) <? ibatt_ma then s16 ibatt_ma else t.(ibatt_max))
      (if icl_settled <? t.(icl_min) then icl_settled else t.(icl_min))
      (if t.(icl_max) <? icl_settled then icl_settled else t.(icl_max))
      (s64 (t.(icl_sum) + icl_settled * elap))
      (s64 (t.(temp_sum) + temp * elap))
      (s64 (t.(ibatt_sum) + ibatt_ma * elap))
      samples t.(msc_cnt) t.(msc_elap).

(** The averages the tier is reported with: [div_s64] of the sums by the time
    booked, 0 when none is; [elap] is the [u32] sum of the three times. *)
Definition tier_elap (t : tier_stats) : Z :=
  u32 (t.(time_fast) + t.(time_taper) + t.(time_other)).

Definition tier_averages (t : tier_stats) : Z * Z * Z :=
  let elap := tier_elap t in
  if elap =? 0 then (0, 0, 0)
  else (Z.quot t.(temp_sum) (s32 elap), Z.quot t.(ibatt_sum) (s32 elap),
        Z.quot t.(icl_sum) (s32 elap)).
