(* ===== verification/BmsStateProps.v ===== *)
(** * google_bms: the charger state and the statistics of a tier *)

From S2P Require Import Prelude BmsState.

(** ** Names *)

Lemma name_in_Undef l i : name_in l i = Undef ↔ i = Z.of_nat (length l).
Proof.
  unfold name_in. destruct (Z.ltb_spec i 0) as [|H0]; simpl; [split; [done|lia]|].
  destruct (Z.ltb_spec (Z.of_nat (length l)) i) as [|H1]; [split; [done|lia]|].
  destruct (l !! Z.to_nat i) as [s|] eqn:Hl; simpl.
  - apply lookup_lt_Some in Hl. split; [done|lia].
  - apply lookup_ge_None in Hl. split; [lia|done].
Qed.

(** the names of a charge status and of an adapter type are read one past
    the end of their tables for exactly one argument each, the number of
    entries, which the bound checks let through. *)
Theorem gbms_names_read_past_end status adapter :
  (gbms_chg_status_s status = Undef ↔ status = 5) ∧
  (gbms_chg_ev_adapter_s adapter = Undef ↔ adapter = 32).
Proof. split; apply name_in_Undef. Qed.

(** ** The charger state as 64 bits *)

Lemma shiftr_mod v a b : 0 <= a → 0 <= b →
  Z.shiftr v a mod 2 ^ b = (v mod 2 ^ (a + b)) / 2 ^ a.
Proof.
  intros. rewrite Z.shiftr_div_pow2 by done. rewrite Z.pow_add_r by done.
  rewrite Z.rem_mul_r by (try apply Z.pow_pos_nonneg; lia).
  rewrite Z.add_comm, (Z.mul_comm (2 ^ a)), Z.div_add_l by (apply Z.pow_nonzero; lia).
  rewrite (Z.div_small (v mod 2 ^ a)) by (apply Z.mod_pos_bound; lia). lia.
Qed.

Lemma mod_split v a b : 0 <= a → 0 <= b →
  v mod 2 ^ (a + b) = v mod 2 ^ a + 2 ^ a * (Z.shiftr v a mod 2 ^ b).
Proof.
  intros. rewrite Z.shiftr_div_pow2 by done. rewrite Z.pow_add_r by done.
  by rewrite Z.rem_mul_r by (try apply Z.pow_pos_nonneg; lia).
Qed.

Lemma v_of_state_of_v v : 0 <= v < 2 ^ 64 → v_of_state (state_of_v v) = v.
Proof.
  intros Hv. unfold v_of_state, state_of_v, u8, u16. simpl flags. simpl pad.
  simpl chg_status. simpl chg_type. simpl vchrg. simpl icl.
  rewrite <- (Z.mod_small v (2 ^ 64)) at 7 by lia.
  pose proof (mod_split v 48 16 ltac:(lia) ltac:(lia)) as H1.
  pose proof (mod_split v 32 16 ltac:(lia) ltac:(lia)) as H2.
  pose proof (mod_split v 24 8 ltac:(lia) ltac:(lia)) as H3.
  pose proof (mod_split v 16 8 ltac:(lia) ltac:(lia)) as H4.
  pose proof (mod_split v 8 8 ltac:(lia) ltac:(lia)) as H5.
  change (48 + 16) with 64 in H1. change (32 + 16) with 48 in H2.
  change (24 + 8) with 32 in H3. change (16 + 8) with 24 in H4. change (8 + 8) with 16 in H5.
  lia.
Qed.

(** A state whose fields fit their widths. *)
Record state_wf (s : charger_state) : Prop := {
  sw_flags : 0 <= s.(flags) < 2 ^ 8;
  sw_pad : 0 <= s.(pad) < 2 ^ 8;
  sw_status : 0 <= s.(chg_status) < 2 ^ 8;
  sw_type : 0 <= s.(chg_type) < 2 ^ 8;
  sw_vchrg : 0 <= s.(vchrg) < 2 ^ 16;
  sw_icl : 0 <= s.(icl) < 2 ^ 16
}.

Lemma state_of_v_wf v : state_wf (state_of_v v).
Proof. split; simpl; auto with wrap. Qed.

Lemma v_of_state_inj s t : state_wf s → state_wf t → v_of_state s = v_of_state t → s = t.
Proof.
  intros [] []. unfold v_of_state. destruct s, t; simpl in *. intros H.
  assert (icl = icl0) as -> by lia. assert (vchrg = vchrg0) as -> by lia.
  assert (chg_type = chg_type0) as -> by lia. assert (chg_status = chg_status0) as -> by lia.
  assert (pad = pad0) as -> by lia. assert (flags = flags0) as -> by lia. done.
Qed.

Lemma v_of_state_range s : state_wf s → 0 <= v_of_state s < 2 ^ 64.
Proof. intros []. unfold v_of_state. lia. Qed.

(** The fields of the charger state and its 64-bit value determine each
    other. *)
Theorem charger_state_roundtrip v s :
  0 <= v < 2 ^ 64 → state_wf s →
  v_of_state (state_of_v v) = v ∧ state_of_v (v_of_state s) = s.
Proof.
  intros Hv Hs. split; [by apply v_of_state_of_v|].
  pose proof (v_of_state_range s Hs) as Hr.
  apply v_of_state_inj; [apply state_of_v_wf|done|by apply v_of_state_of_v].
Qed.

Lemma charger_state_roundtrip_witness :
  v_of_state (state_of_v 0x0bb8125c04010005) = 0x0bb8125c04010005 ∧
  state_of_v (v_of_state (ChargerState 5 0 1 4 4700 3000)) = ChargerState 5 0 1 4 4700 3000.
Proof.
  apply (charger_state_roundtrip 0x0bb8125c04010005 (ChargerState 5 0 1 4 4700 3000)); [lia|].
  by split.
Defined.

(** ** Statistics *)

Record sample := Sample {
  s_temp_idx : Z;
  s_ibatt : Z;
  s_temp : Z;
  s_elap : Z;
  s_cc : Z;
  s_state : charger_state;
  s_msc : Z;
  s_soc : Z
}.

Section Tier.
Context `{psy_enums}.

Definition update (t : tier_stats) (x : sample) : tier_stats :=
  gbms_stats_update_tier x.(s_temp_idx) x.(s_ibatt) x.(s_temp) x.(s_elap) x.(s_cc)
    x.(s_state) x.(s_msc) x.(s_soc) t.

(** Samples that fit the fields they are stored in. *)
Record sample_wf (x : sample) : Prop := {
  sm_ibatt : - 2 ^ 15 <= x.(s_ibatt) < 2 ^ 15;
  sm_temp : - 2 ^ 15 <= x.(s_temp) < 2 ^ 15;
  sm_elap : 0 <= x.(s_elap);
  sm_icl : 0 <= x.(s_state).(icl) < 2 ^ 16;
  sm_soc : 0 <= x.(s_soc) < 2 ^ 15
}.

Definition total_elap (l : list sample) : Z := foldr (λ x e, x.(s_elap) + e) 0 l.

(** A weighted sum between its bounds, all of them in range. *)
Definition between (lo hi sum e : Z) : Prop :=
  - 2 ^ 16 < lo ∧ lo <= hi ∧ hi < 2 ^ 16 ∧ lo * e <= sum <= hi * e.

Record tier_inv (e : Z) (t : tier_stats) : Prop := {
  ti_soc : t.(soc_in) <> -1;
  ti_times : 0 <= t.(time_fast) ∧ 0 <= t.(time_taper) ∧ 0 <= t.(time_other);
  ti_elap : t.(time_fast) + t.(time_taper) + t.(time_other) = e;
  ti_temp : between t.(temp_min) t.(temp_max) t.(temp_sum) e;
  ti_ibatt : between t.(ibatt_min) t.(ibatt_max) t.(ibatt_sum) e;
  ti_icl : between t.(icl_min) t.(icl_max) t.(icl_sum) e
}.

Lemma between_step lo hi sum e v d :
  between lo hi sum e → - 2 ^ 16 < v < 2 ^ 16 → 0 <= e → 0 <= d → e + d < 2 ^ 31 →
  between (if v <? lo then v else lo) (if hi <? v then v else hi) (s64 (sum + v * d)) (e + d).
Proof.
  intros (H1 & H2 & H3 & H4) Hv He Hd Hed.
  assert (- 2 ^ 47 <= sum + v * d <= 2 ^ 47) by nia.
  rewrite s64_small by lia. unfold between. repeat case_bool; split_and!; nia.
Qed.

Lemma stats_tier_fields t i e :
  let t' := gbms_chg_stats_tier t i e in
  soc_in t' = soc_in t ∧ time_fast t' = time_fast t ∧ time_taper t' = time_taper t ∧
  time_other t' = time_other t ∧ temp_min t' = temp_min t ∧ temp_max t' = temp_max t ∧
  ibatt_min t' = ibatt_min t ∧ ibatt_max t' = ibatt_max t ∧ icl_min t' = icl_min t ∧
  icl_max t' = icl_max t ∧ icl_sum t' = icl_sum t ∧ temp_sum t' = temp_sum t ∧
  ibatt_sum t' = ibatt_sum t.
Proof. cbv zeta. unfold gbms_chg_stats_tier. by case_match. Qed.

Lemma update_inv e t x :
  tier_inv e t → sample_wf x → 0 <= e → e + x.(s_elap) < 2 ^ 31 →
  tier_inv (e + x.(s_elap)) (update t x).
Proof.
  intros [Hsoc (Hf & Hta & Hot) Hel Htemp Hib Hicl] [Wib Wte Wel Wic Wsoc] He Hb.
  unfold update, gbms_stats_update_tier. cbv zeta.
  destruct (stats_tier_fields t (s_msc x) (s_elap x))
    as (-> & -> & -> & -> & -> & -> & -> & -> & -> & -> & -> & -> & ->).
  apply Z.eqb_neq in Hsoc as Hsoc'. rewrite Hsoc'.
  split; simpl; [done| | |..].
  - repeat case_match; rewrite ?u32_small by lia; lia.
  - destruct (_ =? POWER_SUPPLY_CHARGE_TYPE_FAST); simpl; rewrite ?u32_small by lia; [lia|].
    destruct (_ =? POWER_SUPPLY_CHARGE_TYPE_TAPER_EXT); simpl; rewrite ?u32_small by lia; lia.
  - rewrite (s16_small (s_temp x)) by lia. apply between_step; try done; lia.
  - rewrite (s16_small (s_ibatt x)) by lia. apply between_step; try done; lia.
  - apply between_step; try done; lia.
Qed.

(** A tier that was just initialised, its counters zero. *)
Record tier_clear (t : tier_stats) : Prop := {
  tc_soc : t.(soc_in) = -1;
  tc_times : t.(time_fast) = 0 ∧ t.(time_taper) = 0 ∧ t.(time_other) = 0;
  tc_sums : t.(temp_sum) = 0 ∧ t.(ibatt_sum) = 0 ∧ t.(icl_sum) = 0
}.

Lemma first_update_inv t x : tier_clear t → sample_wf x → tier_inv 0 (update t x).
Proof.
  intros [Hsoc (Hf & Hta & Hot) (Hs1 & Hs2 & Hs3)] [Wib Wte Wel Wic Wsoc].
  unfold update, gbms_stats_update_tier. cbv zeta.
  destruct (stats_tier_fields t (s_msc x) (s_elap x))
    as (-> & -> & -> & -> & -> & -> & -> & -> & -> & -> & -> & -> & ->).
  rewrite Hsoc. simpl. split; simpl; rewrite ?s16_small by lia; try lia;
    unfold between; lia.
Qed.

Lemma updates_inv l e t :
  tier_inv e t → Forall sample_wf l → 0 <= e → e + total_elap l < 2 ^ 31 →
  tier_inv (e + total_elap l) (foldl update t l).
Proof.
  intros Ht Hl. revert e t Ht. induction Hl as [|x l Hx Hl IH]; intros e t Ht He Hb; simpl in *.
  - by rewrite Z.add_0_r.
  - assert (0 <= total_elap l) as Hpos.
    { clear -Hl. induction Hl as [|y l [] Hl IH]; simpl; lia. }
    pose proof (sm_elap _ Hx). rewrite Z.add_assoc. apply IH; [|lia..].
    apply update_inv; try done. lia.
Qed.

Lemma quot_between lo hi sum e :
  0 < e → lo * e <= sum <= hi * e → lo <= Z.quot sum e <= hi.
Proof.
  intros He Hs. pose proof (Z.quot_rem sum e ltac:(lia)) as Hq.
  pose proof (Z.rem_bound_abs sum e ltac:(lia)) as Hr.
  destruct (Z.le_gt_cases 0 sum) as [Hpos|Hneg].
  - pose proof (Z.rem_nonneg sum e ltac:(lia) Hpos). nia.
  - pose proof (Z.rem_nonpos sum e ltac:(lia) ltac:(lia)). nia.
Qed.

(** After any sequence of samples on a cleared tier, the time booked is
    that of every sample but the first, and the averages the tier is reported
    with lie between its minima and maxima, as long as the time fits 31 bits. *)
Theorem gbms_tier_averages_between t x l :
  tier_clear t → sample_wf x → Forall sample_wf l → total_elap l < 2 ^ 31 →
  let t' := foldl update t (x :: l) in
  tier_elap t' = total_elap l ∧
  (0 < total_elap l →
    let '(temp_avg, ibatt_avg, icl_avg) := tier_averages t' in
    t'.(temp_min) <= temp_avg <= t'.(temp_max) ∧
    t'.(ibatt_min) <= ibatt_avg <= t'.(ibatt_max) ∧
    t'.(icl_min) <= icl_avg <= t'.(icl_max)).
Proof.
  intros Hc Hx Hl Hb t'.
  assert (0 <= total_elap l) as Hpos.
  { clear -Hl. induction Hl as [|y l [] Hl IH]; simpl; lia. }
  assert (tier_inv (total_elap l) t') as [_ Hts He Ht Hi Hic].
  { apply (updates_inv l 0 (update t x)); [by apply first_update_inv|done|lia|lia]. }
  assert (tier_elap t' = total_elap l) as Heq
    by (unfold tier_elap; rewrite He; apply u32_small; lia).
  split; [done|]. intros Hpos'. unfold tier_averages. rewrite Heq.
  case_bool; [lia|]. rewrite s32_small by lia.
  destruct Ht as (_ & _ & _ & Ht), Hi as (_ & _ & _ & Hi), Hic as (_ & _ & _ & Hic).
  split; [by apply quot_between|]. split; by apply quot_between.
Qed.

(** ** Generated state *)

Context {D : Type} (dsc : psy_desc D).

Lemma gen_flags_buck status type :
  (Z.land (gbms_gen_chg_flags status type) GBMS_CS_FLAG_BUCK_EN =? 0)
    = (status =? POWER_SUPPLY_STATUS_DISCHARGING) ∧
  Z.land (gbms_gen_chg_flags status type) GBMS_CS_FLAG_INPUT_SUSPEND = 0.
Proof.
  unfold gbms_gen_chg_flags.
  destruct (status =? POWER_SUPPLY_STATUS_DISCHARGING), (status =? POWER_SUPPLY_STATUS_FULL),
    (type =? POWER_SUPPLY_CHARGE_TYPE_FAST), (type =? POWER_SUPPLY_CHARGE_TYPE_TAPER_EXT);
    by vm_compute.
Qed.

(** reading the charger state either fails and leaves the state alone, or
    takes the 64 bits the charger keeps, or generates a state; a generated
    state counts as disconnected exactly when the charger reports that it is
    discharging. *)
Theorem gbms_read_charger_state_cases psy s :
  let '(_, ret, s') := gbms_read_charger_state dsc psy s in
  let '(_, val, err) := gpsy_get_int64_prop dsc psy GBMS_PROP_CHARGE_CHARGER_STATE in
  (ret <> 0 ∧ s' = s) ∨
  (ret = 0 ∧ err = 0 ∧ s' = state_of_v val) ∨
  (ret = 0 ∧ err <> 0 ∧
   chg_state_is_disconnected s' = (chg_status s' =? POWER_SUPPLY_STATUS_DISCHARGING)).
Proof.
  unfold gbms_read_charger_state.
  destruct (gpsy_get_int64_prop _ _ _) as [[psy1 val] err].
  destruct (Z.eqb_spec err 0) as [|He]; [by right; left|].
  destruct (Z.eqb_spec err (- EAGAIN)) as [->|]; [by left|].
  unfold gbms_gen_state.
  destruct (gpsy_get_prop _ _ POWER_SUPPLY_PROP_VOLTAGE_NOW) as [[psy2 v] e2].
  destruct (gpsy_get_prop _ _ POWER_SUPPLY_PROP_CHARGE_TYPE) as [[psy3 ty] e3].
  destruct (gpsy_get_prop _ _ POWER_SUPPLY_PROP_STATUS) as [[psy4 st] e4].
  destruct (_ || _); [by left|]. simpl.
  destruct (gpsy_get_prop _ _ POWER_SUPPLY_PROP_CURRENT_NOW) as [[psy5 ichg] e5].
  right; right. split_and!; [done|done|].
  assert (∀ s0, flags s0 = gbms_gen_chg_flags (chg_status s0) (chg_type s0) →
    chg_state_is_disconnected s0 = (chg_status s0 =? POWER_SUPPLY_STATUS_DISCHARGING)) as Hd.
  { intros s0 Hf. unfold chg_state_is_disconnected. rewrite Hf.
    destruct (gen_flags_buck (chg_status s0) (chg_type s0)) as [-> ->]. simpl.
    rewrite orb_false_r. destruct (_ =? POWER_SUPPLY_STATUS_DISCHARGING); done. }
  destruct (0 <? ichg); by apply Hd.
Qed.
End Tier.

Lemma gbms_tier_averages_between_witness :
  let enums := Build_psy_enums 0 2 4 3 8 0 1 2 3 4 in
  let t := TierStats (-1) 0 (-1) 0 0 0 0 0 0 0 0 0 0 0 0 0 0 0 0 (replicate 21 0)
             (replicate 21 0) in
  let x temp ib el := Sample 1 ib temp el 10 (ChargerState 5 0 1 3 4400 3000) 7 50 in
  let t' := foldl (@update enums) t [x 250 (-3000) 5; x 260 (-2900) 10; x 300 (-2500) 7] in
  tier_elap t' = 17 ∧
  (0 < 17 →
    let '(temp_avg, ibatt_avg, icl_avg) := tier_averages t' in
    t'.(temp_min) <= temp_avg <= t'.(temp_max) ∧
    t'.(ibatt_min) <= ibatt_avg <= t'.(ibatt_max) ∧
    t'.(icl_min) <= icl_avg <= t'.(icl_max)).
Proof.
  intros enums t x.
  apply (@gbms_tier_averages_between enums t (x 250 (-3000) 5)
    [x 260 (-2900) 10; x 300 (-2500) 7]).
  - by split.
  - split; simpl; lia.
  - repeat constructor; simpl; lia.
  - vm_compute. done.
Defined.
