(* ===== verification/BmsText.v ===== *)
(** * google_bms: cycle counts and logs as text

    Text is a list of character codes.  The conversions of [scnprintf] and
    [sscanf] used by [google_bms.c] ("%d" and the space) are written out as the
    kernel's library defines them. *)

From S2P Require Import Prelude.

Definition SPACE : Z := 32.
Definition NEWLINE : Z := 10.
Definition is_space (c : Z) : bool := ((9 <=? c) && (c <=? 13)) || (c =? 32).
Definition is_digit (c : Z) : bool := (48 <=? c) && (c <=? 57).

(** ** "%d" of an integer that is not negative; [fuel + 1] digits *)

Fixpoint print_go (fuel : nat) (n : Z) (acc : list Z) : list Z :=
  match fuel with
  | O => 48 + n :: acc
  | S fuel => if n <? 10 then 48 + n :: acc else print_go fuel (n / 10) (48 + n mod 10 :: acc)
  end.

(** At most 20 digits. *)
Definition print_d (n : Z) : list Z := print_go 19 n [].

Fixpoint scan_digits (v : Z) (s : list Z) : Z * list Z :=
  match s with
  | c :: s' => if is_digit c then scan_digits (10 * v + (c - 48)) s' else (v, s)
  | [] => (v, [])
  end.

Fixpoint skip_spaces (s : list Z) : list Z :=
  match s with c :: s' => if is_space c then skip_spaces s' else s | [] => [] end.

(** One "%d"; the number stored is cut to an [int]. *)
Definition scan_d (s : list Z) : option (Z * list Z) :=
  match skip_spaces s with
  | [] => None
  | c :: s' =>
      if c =? 45 then
        match s' with
        | d :: _ =>
            if is_digit d then let '(v, r) := scan_digits 0 s' in Some (s32 (- v), r)
            else None
        | [] => None
        end
      else if is_digit c then let '(v, r) := scan_digits 0 (c :: s') in Some (s32 v, r)
      else None
  end.

(** [n] conversions: the values stored before the first that fails. *)
Fixpoint scan_ints (n : nat) (s : list Z) : list Z :=
  match n with
  | O => []
  | S n => match scan_d s with Some (v, r) => v :: scan_ints n r | None => [] end
  end.

(** ** Cycle counts *)

Definition U16_MAX : Z := 65535.

(** [scnprintf] of [s] after [out] in a buffer of [size] bytes. *)
Definition scn_append (size : Z) (out s : list Z) : list Z :=
  out ++ take (Z.to_nat (size - Z.of_nat (length out) - 1)) s.

(** The length and the text, in a buffer of [size] bytes. *)
Definition gbms_cycle_count_cstr_bc (size : Z) (ccount : list Z) : outcome (Z * list Z) :=
  let buf := foldl (λ out c, scn_append size out (print_d c ++ [SPACE])) [] ccount in
  if Nat.eqb (length buf) 0 then Undef
  else Ok (Z.of_nat (length buf), <[(length buf - 1)%nat := NEWLINE]> buf).

Definition gbms_cycle_count_sscan_bc (ccount : list Z) (bcnt : Z) (buff : list Z) :
    Z * list Z :=
  if negb (bcnt =? 10) then (- ERANGE, ccount)
  else
    let val := scan_ints 10 buff in
    if negb (Z.of_nat (length val) =? bcnt) then (- EINVAL, ccount)
    else (0, zip_with (λ v c, if (0 <=? v) && (v <? U16_MAX) then v else c) val ccount).

(** ** Logs *)

Definition LOG_BUFFER_ENTRY_SIZE : Z := 256.

(** The lines logged from the characters left; [first] when none was read, and
    [tmp] holds the line so far.  A full line is logged and its last character
    read again. *)
Fixpoint log_lines (first : bool) (buf tmp : list Z) : list (list Z) :=
  match buf with
  | [] => []
  | c :: buf =>
      if c =? NEWLINE then
        if first then log_lines false buf [] else tmp :: log_lines false buf []
      else if LOG_BUFFER_ENTRY_SIZE - 1 <=? Z.of_nat (length tmp)
      then tmp :: log_lines false buf [c]
      else log_lines false buf (tmp ++ [c])
  end.

Definition gbms_log_cstr_handler (buf : list Z) (len : Z) : outcome (list (list Z)) :=
  if (len <? 0) || (Z.of_nat (length buf) <=? len) then Undef
  else Ok (log_lines true (take (Z.to_nat len) buf ++ [NEWLINE]) []).

(** ** Round trip *)

Lemma digit_range n : 0 <= n < 10 → is_digit (48 + n) = true.
Proof. intros. unfold is_digit. apply andb_true_iff. lia. Qed.

Lemma digit_not_space c : is_digit c = true → is_space c = false.
Proof.
  unfold is_digit, is_space. intros [? ?]%andb_true_iff.
  apply orb_false_iff. split; [apply andb_false_iff|]; lia.
Qed.

Lemma scan_print_go fuel n acc :
  0 <= n < 10 ^ (Z.of_nat fuel + 1) →
  scan_digits 0 (print_go fuel n acc) = scan_digits n acc.
Proof.
  revert n acc. induction fuel as [|fuel IH]; intros n acc Hn; simpl.
  - rewrite digit_range by (simpl in Hn; lia). f_equal. lia.
  - case_bool.
    + simpl. rewrite digit_range by lia. f_equal. lia.
    + replace (Z.of_nat (S fuel) + 1) with (Z.succ (Z.of_nat fuel + 1)) in Hn by lia.
      rewrite Z.pow_succ_r in Hn by lia.
      pose proof (Z.mod_pos_bound n 10 ltac:(lia)). pose proof (Z.div_mod n 10 ltac:(lia)).
      rewrite IH by lia. simpl. rewrite digit_range by lia. f_equal. lia.
Qed.

Lemma print_go_head fuel n acc :
  0 <= n < 10 ^ (Z.of_nat fuel + 1) →
  ∃ c s, print_go fuel n acc = c :: s ∧ is_digit c = true.
Proof.
  revert n acc. induction fuel as [|fuel IH]; intros n acc Hn; simpl.
  - eexists _, _. split; [done|]. apply digit_range. simpl in Hn. lia.
  - case_bool; [eexists _, _; split; [done|]; apply digit_range; lia|].
    replace (Z.of_nat (S fuel) + 1) with (Z.succ (Z.of_nat fuel + 1)) in Hn by lia.
    rewrite Z.pow_succ_r in Hn by lia. apply IH.
    pose proof (Z.mod_pos_bound n 10 ltac:(lia)). pose proof (Z.div_mod n 10 ltac:(lia)). lia.
Qed.

Lemma print_go_app fuel n acc s : print_go fuel n (acc ++ s) = print_go fuel n acc ++ s.
Proof.
  revert n acc. induction fuel as [|fuel IH]; intros n acc; simpl; [done|].
  case_bool; [done|]. by rewrite <- (IH (n / 10) (_ :: acc)).
Qed.

Lemma length_print_go fuel n acc (k : nat) :
  0 <= n < 10 ^ (Z.of_nat k + 1) →
  (length (print_go fuel n acc) ≤ k + 1 + length acc)%nat.
Proof.
  revert n acc k. induction fuel as [|fuel IH]; intros n acc k Hn; simpl; [lia|].
  case_bool; simpl; [lia|].
  destruct k as [|k]; [simpl in Hn; lia|].
  replace (Z.of_nat (S k) + 1) with (Z.succ (Z.of_nat k + 1)) in Hn by lia.
  rewrite Z.pow_succ_r in Hn by lia.
  pose proof (Z.mod_pos_bound n 10 ltac:(lia)). pose proof (Z.div_mod n 10 ltac:(lia)).
  specialize (IH (n / 10) (48 + n mod 10 :: acc) k ltac:(lia)). simpl in IH. lia.
Qed.

Lemma scan_d_print n sep rest :
  0 <= n < 2 ^ 31 → is_digit sep = false →
  scan_d (print_d n ++ sep :: rest) = Some (n, sep :: rest).
Proof.
  intros Hn Hsep. unfold print_d. rewrite <- print_go_app. simpl ([] ++ _).
  assert (0 <= n < 10 ^ (Z.of_nat 19 + 1)) as Hn' by lia.
  destruct (print_go_head 19 n (sep :: rest) Hn') as (c & s & Hp & Hc).
  pose proof (scan_print_go 19 n (sep :: rest) Hn') as Hs.
  assert (scan_digits n (sep :: rest) = (n, sep :: rest)) as Hstop
    by (simpl; by rewrite Hsep).
  rewrite Hstop in Hs. rewrite Hp in *. unfold scan_d. cbn [skip_spaces].
  rewrite (digit_not_space c Hc), Hc, Hs.
  assert (c <> 45) as Hne by (unfold is_digit in Hc; lia).
  apply Z.eqb_neq in Hne. rewrite Hne. by rewrite s32_small by lia.
Qed.

(** The text of a list of counts, [sep] after the last. *)
Fixpoint counts_text (sep : Z) (l : list Z) : list Z :=
  match l with
  | [] => []
  | [c] => print_d c ++ [sep]
  | c :: l => print_d c ++ SPACE :: counts_text sep l
  end.

Lemma skip_space_scan c s : is_space c = true → scan_d (c :: s) = scan_d s.
Proof. intros H. unfold scan_d. simpl. by rewrite H. Qed.

Lemma scan_ints_space n c s : is_space c = true → scan_ints n (c :: s) = scan_ints n s.
Proof. intros H. destruct n; simpl; [done|]. by rewrite skip_space_scan. Qed.

Lemma scan_ints_S n s v r :
  scan_d s = Some (v, r) → scan_ints (S n) s = v :: scan_ints n r.
Proof. intros H. simpl. by rewrite H. Qed.

Arguments scan_ints : simpl never.

Lemma scan_counts_text sep l :
  Forall (λ c, 0 <= c < 2 ^ 31) l → is_digit sep = false →
  scan_ints (length l) (counts_text sep l) = l.
Proof.
  intros Hl Hsep. induction Hl as [|c l Hc Hl IH]; [done|].
  destruct l as [|d l].
  - simpl. by rewrite (scan_ints_S 0 _ c [sep]) by (by apply scan_d_print).
  - change (counts_text sep (c :: d :: l)) with (print_d c ++ SPACE :: counts_text sep (d :: l)).
    change (length (c :: d :: l)) with (S (length (d :: l))).
    rewrite (scan_ints_S _ _ c (SPACE :: counts_text sep (d :: l))) by (by apply scan_d_print).
    by rewrite scan_ints_space, IH.
Qed.

Lemma counts_text_snoc sep l c : counts_text sep (l ++ [c]) = counts_text SPACE l ++ print_d c ++ [sep].
Proof.
  induction l as [|a l IH]; [done|]. destruct l as [|b l]; simpl in *.
  - by rewrite <- app_assoc.
  - rewrite IH. by rewrite <- app_assoc.
Qed.

(** The loop writes the whole text when it fits. *)
Lemma cstr_loop size l :
  Forall (λ c, 0 <= c < 2 ^ 16) l → 6 * Z.of_nat (length l) < size →
  foldl (λ out c, scn_append size out (print_d c ++ [SPACE])) [] l = counts_text SPACE l ∧
  (length (counts_text SPACE l) ≤ 6 * length l)%nat.
Proof.
  intros Hl. induction l as [|c l IH] using rev_ind; intros Hs; [done|].
  rewrite length_app in *. simpl in Hs.
  apply Forall_app in Hl as [Hl Hc]. inversion_clear Hc.
  destruct (IH Hl ltac:(lia)) as [Hf Hlen].
  rewrite foldl_app, Hf. simpl. rewrite counts_text_snoc.
  assert (length (print_d c ++ [SPACE]) ≤ 6)%nat as Hpc.
  { rewrite length_app. simpl. unfold print_d.
    pose proof (length_print_go 19 c [] 4 ltac:(simpl; lia)) as H5.
    cbn [length] in H5. lia. }
  split.
  - unfold scn_append. f_equal. apply take_ge. lia.
  - rewrite length_app. lia.
Qed.

(** The text of ten cycle counts, printed in a buffer of more than 60
    bytes and parsed back, restores every count but those equal to U16_MAX,
    which keep the value they had. *)
Theorem gbms_cycle_count_roundtrip size ccount old :
  length ccount = 10%nat → length old = 10%nat →
  Forall (λ c, 0 <= c <= U16_MAX) ccount → 60 < size →
  ∃ len text, gbms_cycle_count_cstr_bc size ccount = Ok (len, text) ∧
    Z.of_nat (length text) = len ∧ len < size ∧
    gbms_cycle_count_sscan_bc old 10 text
      = (0, zip_with (λ c o, if c <? U16_MAX then c else o) ccount old).
Proof.
  intros Hl Ho Hr Hs. unfold U16_MAX in Hr.
  assert (Forall (λ c, 0 <= c < 2 ^ 16) ccount) as Hr16
    by (eapply Forall_impl; [exact Hr|]; simpl; lia).
  destruct (cstr_loop size ccount Hr16 ltac:(lia)) as [Hf Hlen].
  unfold gbms_cycle_count_cstr_bc. rewrite Hf.
  destruct ccount as [|c l _] using rev_ind; [done|].
  rewrite counts_text_snoc in *. set (text := counts_text SPACE l ++ print_d c) in *.
  rewrite app_assoc in *. fold text in Hlen |- *.
  assert (length (text ++ [SPACE]) - 1 = length text)%nat as ->
    by (rewrite length_app; simpl; lia).
  rewrite insert_app_r_alt, Nat.sub_diag by lia. simpl.
  case_match eqn:Hz; [apply Nat.eqb_eq in Hz; rewrite length_app in Hz; simpl in Hz; lia|].
  eexists _, _. split; [reflexivity|]. rewrite !length_app in *. simpl in *.
  split_and!; [lia..|].
  assert (text ++ [NEWLINE] = counts_text NEWLINE (l ++ [c])) as ->
    by (by rewrite counts_text_snoc, app_assoc).
  unfold gbms_cycle_count_sscan_bc. change (negb (10 =? 10)) with false. cbv iota zeta.
  assert (scan_ints 10 (counts_text NEWLINE (l ++ [c])) = l ++ [c]) as ->.
  { rewrite <- (scan_counts_text NEWLINE (l ++ [c])) at 2; [|eapply Forall_impl; [exact Hr|]; simpl; lia|done].
    rewrite length_app. simpl. by replace (length l + 1)%nat with 10%nat by lia. }
  rewrite length_app. cbn [length].
  replace (Z.of_nat (length l + 1) =? 10) with true by (symmetry; apply Z.eqb_eq; lia).
  cbn [negb].
  f_equal. clear -Hr. revert old. induction Hr as [|x m Hx Hm IH]; intros [|o old]; try done.
  simpl. rewrite IH. f_equal. by replace (0 <=? x) with true by lia.
Qed.

Lemma gbms_cycle_count_roundtrip_witness :
  let cc := [0; 12; 345; 6789; 65534; 65535; 7; 80; 900; 1000] in
  let old := replicate 10 1 in
  ∃ len text, gbms_cycle_count_cstr_bc 61 cc = Ok (len, text) ∧
    Z.of_nat (length text) = len ∧ len < 61 ∧
    gbms_cycle_count_sscan_bc old 10 text
      = (0, [0; 12; 345; 6789; 65534; 1; 7; 80; 900; 1000]).
Proof.
  apply (gbms_cycle_count_roundtrip 61 [0; 12; 345; 6789; 65534; 65535; 7; 80; 900; 1000]
    (replicate 10 1)); [done|done| |lia].
  repeat constructor; vm_compute; done.
Defined.

(** ** Log lines *)

Lemma log_lines_spec first buf tmp :
  Z.of_nat (length tmp) < LOG_BUFFER_ENTRY_SIZE → NEWLINE ∉ tmp → (first = true → tmp = []) →
  let lines := log_lines first (buf ++ [NEWLINE]) tmp in
  Forall (λ l, Z.of_nat (length l) < LOG_BUFFER_ENTRY_SIZE ∧ NEWLINE ∉ l) lines ∧
  concat lines = tmp ++ filter (λ c, c <> NEWLINE) buf.
Proof.
  unfold LOG_BUFFER_ENTRY_SIZE.
  revert first tmp. induction buf as [|c buf IH]; intros first tmp Hl Hn Hf; simpl.
  - destruct first; simpl; [by rewrite Hf|]. split; [by constructor|done].
  - destruct (Z.eqb_spec c NEWLINE).
    + subst c. rewrite filter_cons_False by (by intros []).
      destruct (IH false [] ltac:(simpl; lia) ltac:(apply not_elem_of_nil) ltac:(done))
        as [H1 H2].
      destruct first; simpl; [by rewrite Hf|]. split; [by constructor|]. by rewrite H2.
    + rewrite filter_cons_True by done.
      case_bool.
      * destruct (IH false [c] ltac:(simpl; lia)
          ltac:(rewrite list_elem_of_singleton; congruence) ltac:(done)) as [H1 H2].
        simpl. split; [by constructor|]. by rewrite H2.
      * destruct (IH false (tmp ++ [c])) as [H1 H2];
          [unfold LOG_BUFFER_ENTRY_SIZE in *; rewrite length_app; simpl; lia| |done|].
        { rewrite elem_of_app, list_elem_of_singleton. intros [?|?]; [done|congruence]. }
        split; [exact H1|]. by rewrite H2, <- app_assoc.
Qed.

(** The log handler ends, and the lines it logs are the text in order
    without its newlines, each line without a newline and short enough, with
    its terminator, for an entry of the log. *)
Theorem gbms_log_cstr_handler_lines buf len :
  0 <= len < Z.of_nat (length buf) →
  ∃ lines, gbms_log_cstr_handler buf len = Ok lines ∧
    Forall (λ l, Z.of_nat (length l) < LOG_BUFFER_ENTRY_SIZE ∧ NEWLINE ∉ l) lines ∧
    concat lines = filter (λ c, c <> NEWLINE) (take (Z.to_nat len) buf).
Proof.
  intros Hlen. unfold gbms_log_cstr_handler.
  replace (len <? 0) with false by lia.
  replace (Z.of_nat (length buf) <=? len) with false by lia. simpl.
  eexists. split; [reflexivity|].
  apply (log_lines_spec true (take (Z.to_nat len) buf) []);
    [unfold LOG_BUFFER_ENTRY_SIZE; simpl; lia|apply not_elem_of_nil|done].
Qed.

Lemma gbms_log_cstr_handler_lines_witness :
  ∃ lines, gbms_log_cstr_handler [10; 65; 66; 10; 67; 0] 5 = Ok lines ∧
    Forall (λ l, Z.of_nat (length l) < LOG_BUFFER_ENTRY_SIZE ∧ NEWLINE ∉ l) lines ∧
    concat lines = [65; 66; 67].
Proof. apply (gbms_log_cstr_handler_lines [10; 65; 66; 10; 67; 0] 5). simpl. lia. Defined.
