(* ===== verification/Ttf.v ===== *)
(** * Time to full

    Model of [google-modules/bms/google_ttf.c]: how long a battery takes to charge.  A
    reference says how long each percent of charge takes with the best adapter; what is
    measured while charging is averaged into it, and an estimate scales it with the
    power that is there.

    A [ktime_t] has 64 bits and an [int] 32; both wrap, as the kernel is compiled.  An
    array is a list, read with [at_].  The lock of the statistics is held over each
    operation and left out, as are the dumps as text, the scan of a dump, the names of
    tiers ([ti]) and the fake time.

    Theorems: [TtfProps]. *)

From Stdlib Require Import String.
From S2P Require Import Prelude.
From S2P Require Import Heap.
From S2P Require Import GoogleBms.
From S2P Require Import BmsTiers.
From S2P Require Import BmsState.

Definition ENODATA : Z := 61.
Definition ELAP_LIMIT_S : Z := 60.
Definition GBMS_STATS_TIER_COUNT : Z := 3.
Definition GBMS_SOC_STATS_LEN : Z := 101.

(** ** Data *)

Record ttf_soc_stats := TtfSocStats {
  s_cc : list Z;
  s_elap : list Z
}.

Record ttf_tier_stat := TtfTierStat {
  ts_soc_in : Z;
  ts_cc_in : Z;
  ts_cc_total : Z;
  avg_time : Z
}.

Record batt_ttf_stats := BattTtfStats {
  soc_ref : ttf_soc_stats;
  ref_temp_idx : Z;
  ref_watts : Z;
  soc_stats : ttf_soc_stats;
  ttf_tier_stats : list ttf_tier_stat;
  report_max_ratio : Z;
  fcc_now : Z
}.

Definition CHG_HEALTH_ACTIVE : Z := 2.
Definition CHG_HEALTH_PAUSE : Z := 3.

(** The fields that the estimate reads. *)
Record batt_chg_health := BattChgHealth {
  rest_soc : Z;
  always_on_soc : Z;
  rest_rate : Z;
  rest_state : Z;
  rest_cc_max : Z
}.

Record gbms_charging_event := ChargingEvent {
  ad_voltage : Z;
  ad_amperage : Z;
  ce_chg_profile : chg_profile;
  ssoc_in : Z;
  ssoc_out : Z;
  ce_tier_stats : list tier_stats;
  ce_soc_stats : ttf_soc_stats;
  last_soc : Z;
  ce_health : batt_chg_health;
  health_stats : tier_stats
}.

(** An element of an array of structures. *)
Definition tier_at {A} (l : list A) (i : Z) : outcome A :=
  if i <? 0 then Undef else must (l !! Z.to_nat i).

(** Storing an element; outside of the array the behaviour is undefined. *)
Definition store_at (l : list Z) (i v : Z) : outcome (list Z) :=
  _ ← at_ l i; Ok (<[Z.to_nat i := v]> l).

(** [div_s64], [ktime_divns] and the division of [int]s *)
Definition quot_ (a b : Z) : outcome Z := if b =? 0 then Undef else Ok (Z.quot a b).

Definition set_soc_stats (v : ttf_soc_stats) (s : batt_ttf_stats) : batt_ttf_stats :=
  BattTtfStats s.(soc_ref) s.(ref_temp_idx) s.(ref_watts) v s.(ttf_tier_stats)
    s.(report_max_ratio) s.(fcc_now).

Definition set_tier_stats (v : list ttf_tier_stat) (s : batt_ttf_stats) : batt_ttf_stats :=
  BattTtfStats s.(soc_ref) s.(ref_temp_idx) s.(ref_watts) s.(soc_stats) v
    s.(report_max_ratio) s.(fcc_now).

(** ** Power *)

Definition ttf_pwr_icl (ts : tier_stats) (ce : gbms_charging_event) : outcome Z :=
  let elap := s32 (ts.(time_fast) + ts.(time_taper)) in
  if elap <=? ELAP_LIMIT_S then Ok (ce.(ad_amperage) * 100)
  else q ← quot_ ts.(icl_sum) (s32 (elap + ts.(time_other))); Ok (s32 q).

Definition ttf_pwr_ibatt (ts : tier_stats) : outcome Z :=
  let elap := s32 (ts.(time_fast) + ts.(time_taper)) in
  if elap <=? ELAP_LIMIT_S then Ok 0
  else
    q ← quot_ ts.(ibatt_sum) (s32 (elap + ts.(time_other)));
    let avg_ibatt := s32 q in
    Ok (s32 (avg_ibatt * (if avg_ibatt <? 0 then -1 else 1))).

(** The tiers from [i] on. *)
Fixpoint vtier_from (l : list ttf_tier_stat) (soc i : Z) : Z :=
  match l with
  | [] => i - 1
  | t :: l => if soc <? Z.shiftr t.(ts_soc_in) 8 then i - 1 else vtier_from l soc (i + 1)
  end.

Definition ttf_pwr_vtier_idx (stats : batt_ttf_stats) (soc : Z) : Z :=
  vtier_from (tail stats.(ttf_tier_stats)) soc 1.

Definition ttf_cc_check (s : ttf_soc_stats) (soc : Z) : outcome bool :=
  c0 ← at_ s.(s_cc) soc;
  if c0 =? 0 then Ok false
  else c1 ← at_ s.(s_cc) (soc + 1); Ok (negb (c1 =? 0) && (c0 <? c1)).

(** Whether there are both a current and a time at [soc]. *)
Definition has_data (s : ttf_soc_stats) (soc : Z) : outcome bool :=
  ok ← ttf_cc_check s soc;
  if (ok : bool) then elap ← at_ s.(s_elap) soc; Ok (negb (elap =? 0)) else Ok false.

Definition ttf_ref_cc (stats : batt_ttf_stats) (soc : Z) : outcome Z :=
  if GBMS_SOC_STATS_LEN <=? soc + 1 then Ok 0
  else
    own ← has_data stats.(soc_stats) soc;
    ref ← (if (own : bool) then Ok false else has_data stats.(soc_ref) soc);
    if (own || ref : bool) then
      let sstat := if own : bool then stats.(soc_stats) else stats.(soc_ref) in
      c0 ← at_ sstat.(s_cc) soc;
      c1 ← at_ sstat.(s_cc) (soc + 1);
      elap ← at_ sstat.(s_elap) soc;
      let delta_cc := s32 (c1 - c0) in
      Ok (s32 (u64 (s32 (delta_cc * 3600)) / u64 elap))
    else Ok 0.

Definition CHG_HEALTH_REST_SOC (h : batt_chg_health) : Z :=
  if negb (h.(always_on_soc) =? -1) then h.(always_on_soc) else h.(rest_soc).

Definition ttf_pwr_health (ce : gbms_charging_event) (soc : Z) : bool :=
  (ce.(ce_health).(rest_state) =? CHG_HEALTH_ACTIVE) && (CHG_HEALTH_REST_SOC ce.(ce_health) <=? soc).

Definition ttf_pwr_health_pause (ce : gbms_charging_event) (soc : Z) : bool :=
  (ce.(ce_health).(rest_state) =? CHG_HEALTH_PAUSE) && (CHG_HEALTH_REST_SOC ce.(ce_health) <=? soc).

(** Percent. *)
Definition efficiency : Z := 95.

Definition ttf_pwr_equiv_icl (ce : gbms_charging_event) (vbatt_idx soc fcc_now : Z) : outcome Z :=
  let profile := ce.(ce_chg_profile) in
  let h := ce.(ce_health) in
  v ← at_ profile.(table).(volt_limits) vbatt_idx;
  volt_limit ← (if v =? 0
                then at_ profile.(table).(volt_limits) (profile.(table).(volt_nb_limits) - 1)
                else Ok v);
  aratio ← quot_ (ce.(ad_voltage) * 10000) (Z.quot volt_limit 1000);
  '(health_ibatt, tier) ←
    (if ttf_pwr_health ce soc then Ok (Z.quot h.(rest_cc_max) 1000, ce.(health_stats))
     else if ttf_pwr_health_pause ce soc
     then Ok (s32 (u32 (u32 (profile.(table).(capacity_ma) * h.(rest_rate)) * 10) / 1000),
              ce.(health_stats))
     else t ← tier_at ce.(ce_tier_stats) vbatt_idx; Ok (-1, t));
  act_icl ← ttf_pwr_icl tier ce;
  if act_icl <=? 0 then Ok (- EINVAL)
  else
    let equiv_icl := Z.quot (s32 (s32 (act_icl * aratio) * efficiency)) 10000 in
    ibatt ← ttf_pwr_ibatt tier;
    let act_ibatt :=
      if (ibatt =? 0) && (0 <? health_ibatt) then health_ibatt
      else if (0 <? fcc_now) && ((ibatt =? 0) || (fcc_now <? ibatt)) then fcc_now
      else ibatt in
    if act_ibatt <? 0 then Ok (- EINVAL)
    else if (0 <? act_ibatt) && (act_ibatt <? equiv_icl) then Ok act_ibatt
    else Ok equiv_icl.

(** The temperature tier: that of the tier, or the one of its temperature when it
    changed; negative if there is none. *)
Definition ratio_temp_idx (profile : chg_profile) (t : tier_stats) : outcome Z :=
  if t.(t_temp_idx) =? -1 then
    let elap := s32 (t.(time_fast) + t.(time_taper) + t.(time_other)) in
    let t_avg := if negb (t.(temp_sum) =? 0) || (elap =? 0) then t.(temp_in) else 0 in
    gbms_msc_temp_idx profile (if t_avg =? 0 then 250 else t_avg)
  else Ok t.(t_temp_idx).

Definition ttf_pwr_ratio (w : world) (stats : batt_ttf_stats) (ce : gbms_charging_event)
    (soc vbatt_idx : Z) : outcome Z :=
  let profile := ce.(ce_chg_profile) in
  if vbatt_idx <? 0 then Ok (- EINVAL)
  else
    t ← tier_at ce.(ce_tier_stats) vbatt_idx;
    temp_idx ← ratio_temp_idx profile t;
    if (t.(t_temp_idx) =? -1) && (temp_idx <? 0) then Ok (- EINVAL)
    else
      let nb := profile.(table).(volt_nb_limits) in
      let vbatt_idx := if nb - 1 <? vbatt_idx then nb - 1 else vbatt_idx in
      limit ← GBMS_CCCM_LIMITS profile w temp_idx vbatt_idx;
      let cc_max := limit / 1000 in
      ref_cc ← ttf_ref_cc stats soc;
      let avg_cc := if ref_cc <=? 0 then cc_max else ref_cc in
      icl ← ttf_pwr_equiv_icl ce vbatt_idx soc (Z.quot stats.(fcc_now) 1000);
      if icl <=? 0 then Ok (- EINVAL)
      else
        let equiv_icl := if cc_max <? icl then cc_max else icl in
        if equiv_icl =? 0 then Ok (- EINVAL)
        else if equiv_icl <? avg_cc then Ok (Z.quot (s32 (avg_cc * 100)) equiv_icl)
        else Ok 100.

(** ** Estimates by percent *)

Definition ttf_ref_elap (stats : batt_ttf_stats) (soc : Z) : outcome Z :=
  if (soc <? 0) || (100 <=? soc) then Ok 0
  else
    elap ← at_ stats.(soc_stats).(s_elap) soc;
    elap ← (if elap =? 0 then at_ stats.(soc_ref).(s_elap) soc else Ok elap);
    Ok (s32 elap).

(** The ratio, or an error, and the estimate if it is stored. *)
Definition ttf_elap (w : world) (stats : batt_ttf_stats) (ce : gbms_charging_event)
    (soc tier_idx : Z) : outcome (Z * Z) :=
  elap ← ttf_ref_elap stats soc;
  if elap =? 0 then Ok (- EINVAL, 0)
  else
    ratio ← ttf_pwr_ratio w stats ce soc tier_idx;
    if ratio <? 0 then Ok (- EINVAL, 0) else Ok (ratio, s64 (elap * ratio)).

(** Numbers with 24 fractional bits ([qmath.h]). *)
Definition qnum_toint (x : Z) : Z := Z.shiftr x 24.
Definition QNUM_FRAC2 (x : Z) : Z :=
  Z.shiftr (Z.shiftl (Z.land x (Z.ones 24)) 8 * 100) 32 mod 100.
Definition qnum_rconst_100 : Z := 100 * 2 ^ 24 + 50.

(** A part, in hundredths, of the time of [soc]: the estimate and the highest ratio. *)
Definition add_part (w : world) (stats : batt_ttf_stats) (ce : gbms_charging_event)
    (soc tier_idx part : Z) (acc : Z * Z) : outcome (Z * Z) :=
  let '(estimate, max_ratio) := acc in
  '(ratio, elap) ← ttf_elap w stats ce soc tier_idx;
  Ok (if 0 <=? ratio then s64 (estimate + Z.quot (s64 (elap * part)) 100) else estimate,
      if max_ratio <? ratio then ratio else max_ratio).

(** [n] percents from [i] on; an error ends it. *)
Fixpoint add_percents (w : world) (stats : batt_ttf_stats) (ce : gbms_charging_event)
    (tier_idx : Z) (n : nat) (i : Z) (acc : Z * Z) : outcome (Z + Z * Z) :=
  match n with
  | O => Ok (inr acc)
  | S n =>
      let '(estimate, max_ratio) := acc in
      if (ce.(ssoc_in) <=? i) && (i <? ce.(last_soc)) then
        elap ← at_ ce.(ce_soc_stats).(s_elap) i;
        add_percents w stats ce tier_idx n (i + 1) (s64 (estimate + s64 (elap * 100)), max_ratio)
      else
        '(ratio, elap) ← ttf_elap w stats ce i tier_idx;
        if ratio <? 0 then Ok (inl ratio)
        else add_percents w stats ce tier_idx n (i + 1)
               (s64 (estimate + elap), if max_ratio <? ratio then ratio else max_ratio)
  end.

(** The result, and the estimate where it is stored. *)
Definition ttf_soc_estimate (w : world) (stats : batt_ttf_stats) (ce : gbms_charging_event)
    (soc last tier_idx : Z) : outcome (Z * option Z) :=
  if (qnum_rconst_100 <? last) || (last <? soc) then Ok (- EINVAL, None)
  else if last =? soc then Ok (0, Some 0)
  else
    let frac := QNUM_FRAC2 soc in
    acc ← (if frac =? 0 then Ok (0, 0)
           else add_part w stats ce (qnum_toint soc) tier_idx (100 - frac) (0, 0));
    let i := qnum_toint soc + (if frac =? 0 then 0 else 1) in
    r ← add_percents w stats ce tier_idx (Z.to_nat (qnum_toint last - i)) i acc;
    match r with
    | inl ratio => Ok (ratio, None)
    | inr acc =>
        let frac := QNUM_FRAC2 last in
        '(estimate, max_ratio) ← (if frac =? 0 then Ok acc
                                  else add_part w stats ce (qnum_toint last) tier_idx frac acc);
        Ok (max_ratio, Some (Z.quot estimate 100))
    end.

(** ** Learning from a charge *)

Definition TTF_SOC_QUAL_ELAP_RATIO_MAX : Z := 200.
Definition TTF_SOC_QUAL_ELAP_DELTA_CUR_ABS_MAX : Z := 60.
Definition TTF_SOC_QUAL_ELAP_DELTA_REF_PCT_MAX : Z := 20.
Definition TTF_SOC_QUAL_CC_DELTA_CUR_ABS_MAX : Z := 40.
Definition TTF_SOC_QUAL_CC_DELTA_REF_PCT_MAX : Z := 20.

(** [v] brought between [lo] and [hi]; [hi] is looked at first. *)
Definition cap (lo hi v : Z) : Z := if hi <? v then hi else if v <? lo then lo else v.

Definition ttf_soc_qual_elap (w : world) (stats : batt_ttf_stats) (ce : gbms_charging_event)
    (i tier_idx : Z) : outcome Z :=
  ref ← at_ stats.(soc_ref).(s_elap) i;
  let max_elap := s32 (Z.quot (s64 ((100 + TTF_SOC_QUAL_ELAP_DELTA_REF_PCT_MAX) * ref)) 100) in
  let min_elap := s32 (Z.quot (s64 ((100 - TTF_SOC_QUAL_ELAP_DELTA_REF_PCT_MAX) * ref)) 100) in
  src ← at_ ce.(ce_soc_stats).(s_elap) i;
  if src =? 0 then Ok 0
  else
    ratio ← ttf_pwr_ratio w stats ce i tier_idx;
    if (ratio <=? 0) || (TTF_SOC_QUAL_ELAP_RATIO_MAX <? ratio) then Ok 0
    else
      let elap_new := Z.quot (s64 (src * 100)) ratio in
      dst ← at_ stats.(soc_stats).(s_elap) i;
      let elap_cur := if dst =? 0 then ref else dst in
      let elap := Z.quot (s64 (elap_cur + elap_new)) 2 in
      let d := TTF_SOC_QUAL_ELAP_DELTA_CUR_ABS_MAX in
      Ok (cap min_elap max_elap (cap (s64 (elap_cur - d)) (s64 (elap_cur + d)) elap)).

Definition ttf_soc_qual_cc (stats : batt_ttf_stats) (ce : gbms_charging_event) (i : Z) : outcome Z :=
  ref ← at_ stats.(soc_ref).(s_cc) i;
  let max_cc := Z.quot (s32 ((100 + TTF_SOC_QUAL_CC_DELTA_REF_PCT_MAX) * ref)) 100 in
  let min_cc := Z.quot (s32 ((100 - TTF_SOC_QUAL_CC_DELTA_REF_PCT_MAX) * ref)) 100 in
  src ← at_ ce.(ce_soc_stats).(s_cc) i;
  if src =? 0 then Ok 0
  else
    dst ← at_ stats.(soc_stats).(s_cc) i;
    let cc_cur := if dst <=? 0 then ref else dst in
    let cc := Z.quot (s32 (cc_cur + src)) 2 in
    let d := TTF_SOC_QUAL_CC_DELTA_CUR_ABS_MAX in
    Ok (cap min_cc max_cc (cap (s32 (cc_cur - d)) (s32 (cc_cur + d)) cc)).

Definition store_elap (i v : Z) (s : batt_ttf_stats) : outcome batt_ttf_stats :=
  l ← store_at s.(soc_stats).(s_elap) i v;
  Ok (set_soc_stats (TtfSocStats s.(soc_stats).(s_cc) l) s).

Definition store_cc (i v : Z) (s : batt_ttf_stats) : outcome batt_ttf_stats :=
  l ← store_at s.(soc_stats).(s_cc) i v;
  Ok (set_soc_stats (TtfSocStats l s.(soc_stats).(s_elap)) s).

(** What one percent teaches. *)
Definition learn (w : world) (ce : gbms_charging_event) (i : Z) (stats : batt_ttf_stats) :
    outcome batt_ttf_stats :=
  e ← at_ ce.(ce_soc_stats).(s_elap) i;
  c ← (if e =? 0 then Ok 0 else at_ ce.(ce_soc_stats).(s_cc) i);
  if (e =? 0) || (c =? 0) then Ok stats
  else
    elap ← ttf_soc_qual_elap w stats ce i (ttf_pwr_vtier_idx stats i);
    stats ← (if elap =? 0 then Ok stats else store_elap i elap stats);
    cc ← ttf_soc_qual_cc stats ce i;
    if cc =? 0 then Ok stats else store_cc i cc stats.

Fixpoint learn_all (w : world) (ce : gbms_charging_event) (n : nat) (i : Z)
    (stats : batt_ttf_stats) : outcome batt_ttf_stats :=
  match n with
  | O => Ok stats
  | S n => stats ← learn w ce i stats; learn_all w ce n (i + 1) stats
  end.

Definition ttf_soc_update (w : world) (stats : batt_ttf_stats) (ce : gbms_charging_event)
    (first last : Z) : outcome batt_ttf_stats :=
  stats ← learn_all w ce (Z.to_nat (last - first + 1)) first stats;
  if last =? 98 then
    ok ← ttf_cc_check stats.(soc_ref) 98;
    if (ok : bool) then
      c98 ← at_ stats.(soc_stats).(s_cc) 98;
      r99 ← at_ stats.(soc_ref).(s_cc) 99;
      r98 ← at_ stats.(soc_ref).(s_cc) 98;
      store_cc 99 (s32 (c98 + s32 (r99 - r98))) stats
    else Ok stats
  else Ok stats.

(** ** Tiers *)

Definition BATT_TTF_TS_VALID (t : ttf_tier_stat) : bool :=
  negb (t.(ts_cc_total) =? 0) && negb (t.(avg_time) =? 0).

Definition ttf_tier_update_stats (t : ttf_tier_stat) (c : tier_stats) (force : bool) :
    ttf_tier_stat :=
  if negb force && (c.(cc_total) =? 0) then t
  else
    let or_ v d := if v =? 0 then d else v in
    let elap := s32 (c.(time_fast) + c.(time_taper) + c.(time_other)) in
    TtfTierStat (s16 (Z.quot (or_ t.(ts_soc_in) c.(soc_in) + c.(soc_in)) 2))
      (Z.quot (s32 (or_ t.(ts_cc_in) c.(cc_in) + c.(cc_in))) 2)
      (Z.quot (s32 (or_ t.(ts_cc_total) c.(cc_total) + c.(cc_total))) 2)
      (Z.quot (s64 (or_ t.(avg_time) elap + elap)) 2).

(** Whether a charge says something of tier [i]; times are a [long]. *)
Definition tier_counts (ce : gbms_charging_event) (force : bool) (i : Z) (c : tier_stats) : bool :=
  negb (c.(t_temp_idx) =? -1)
  && negb (u32 (c.(time_fast) + c.(time_taper)) =? 0)
  && negb (negb force && (i =? 0) && (1 <? Z.shiftr c.(soc_in) 8))
  && negb (negb force && (i =? GBMS_STATS_TIER_COUNT - 1) && negb (ce.(ssoc_out) =? 100)).

(** [force] is not handed on. *)
Fixpoint tiers_from (ce : gbms_charging_event) (force : bool) (i : Z) (l : list ttf_tier_stat) :
    outcome (list ttf_tier_stat) :=
  match l with
  | [] => Ok []
  | t :: l =>
      c ← tier_at ce.(ce_tier_stats) i;
      l ← tiers_from ce force (i + 1) l;
      Ok ((if tier_counts ce force i c then ttf_tier_update_stats t c false else t) :: l)
  end.

Definition ttf_tier_update (stats : batt_ttf_stats) (ce : gbms_charging_event) (force : bool) :
    outcome batt_ttf_stats :=
  l ← tiers_from ce force 0 stats.(ttf_tier_stats); Ok (set_tier_stats l stats).

(** The tiers from [vbatt_idx] on, [n] of them, as elements of the array that starts at
    [ts]; [ts] is the index of its first element. *)
Fixpoint accumulate (n : nat) (l : list ttf_tier_stat) (ts vbatt_idx estimate : Z) : outcome Z :=
  match n with
  | O => Ok estimate
  | S n =>
      t ← tier_at l ts;
      if negb (BATT_TTF_TS_VALID t) then Ok (- ENODATA)
      else
        v ← tier_at l (ts + vbatt_idx);
        accumulate n l ts (vbatt_idx + 1) (s64 (estimate + v.(avg_time)))
  end.

Definition ttf_tier_accumulate (stats : batt_ttf_stats) (ts vbatt_idx : Z) : outcome Z :=
  if GBMS_STATS_TIER_COUNT <=? vbatt_idx then Ok 0
  else accumulate (Z.to_nat (GBMS_STATS_TIER_COUNT - vbatt_idx)) stats.(ttf_tier_stats) ts vbatt_idx 0.

Definition ttf_tier_estimate (stats : batt_ttf_stats) (temp_idx vbatt_idx : Z) :
    outcome (Z * option Z) :=
  if (vbatt_idx =? -1) && (temp_idx =? -1) then Ok (- EINVAL, None)
  else
    t ← tier_at stats.(ttf_tier_stats) vbatt_idx;
    if negb (BATT_TTF_TS_VALID t) then Ok (- ENODATA, None)
    else
      estimate ← ttf_tier_accumulate stats vbatt_idx (vbatt_idx + 1);
      Ok (if estimate <? 0 then (- ENODATA, None) else (0, Some estimate)).

(** ** Updates *)

Definition TTF_STATS_QUAL_DELTA_MIN : Z := 3.

(** The first percent from [i] on with a time, of [n], or the one after them. *)
Fixpoint first_elap (n : nat) (l : list Z) (i : Z) : outcome Z :=
  match n with
  | O => Ok i
  | S n => e ← at_ l i; if e =? 0 then first_elap n l (i + 1) else Ok i
  end.

Definition ttf_stats_update (w : world) (stats : batt_ttf_stats) (ce : gbms_charging_event)
    (force : bool) : outcome batt_ttf_stats :=
  if ce.(last_soc) - ce.(ssoc_in) <? TTF_STATS_QUAL_DELTA_MIN then Ok stats
  else
    first ← first_elap (Z.to_nat (ce.(last_soc) - ce.(ssoc_in) + 1)) ce.(ce_soc_stats).(s_elap)
              ce.(ssoc_in);
    stats ← ttf_soc_update w stats ce (first + 1) (ce.(last_soc) - 1);
    ttf_tier_update stats ce force.

(** ** Start *)

(** [fuel] is more than the table has entries; its entries are followed by those of the
    other table. *)
Fixpoint ttf_as_default (fuel : nat) (soc_table elap_table : list Z) (table_count i table_i : Z) :
    outcome Z :=
  match fuel with
  | O => Blocked
  | S fuel =>
      s ← at_ (soc_table ++ elap_table) table_i;
      if (u32 s <? u32 i) && (table_i <? table_count)
      then ttf_as_default fuel soc_table elap_table table_count i (table_i + 1)
      else Ok table_i
  end.

Fixpoint reference (n : nat) (soc_table elap_table : list Z) (table_count cc i table_i : Z) :
    outcome (list Z * list Z) :=
  match n with
  | O => Ok ([], [])
  | S n =>
      table_i ← ttf_as_default (S (S (Z.to_nat table_count))) soc_table elap_table table_count i table_i;
      e ← at_ elap_table table_i;
      '(ccs, elaps) ← reference n soc_table elap_table table_count cc (i + 1) table_i;
      Ok (Z.quot (s32 (cc * i)) 100 :: ccs, e :: elaps)
  end.

Section Init.
Context `{env : gbms_env}.

(** [kzalloc] is whether there is memory. *)
Definition ttf_init_soc_parse_dt (kzalloc : bool) (stats : batt_ttf_stats) (node capacity_ma : Z) :
    outcome (Z * batt_ttf_stats) :=
  let cc := Z.quot (s32 (capacity_ma * 100)) GBMS_SOC_STATS_LEN in
  let table_count := dt_count node "google,ttf-soc-table" in
  if table_count <=? 0 then Ok (- EINVAL, stats)
  else if negb (Z.rem table_count 2 =? 0) then Ok (- EINVAL, stats)
  else if negb kzalloc then Ok (- ENOMEM, stats)
  else
    let '(ret, soc_table) := dt_array node "google,ttf-soc-table" table_count in
    if ret <? 0 then Ok (ret, stats)
    else
      let '(ret, elap_table) := dt_array node "google,ttf-elap-table" table_count in
      if ret <? 0 then Ok (ret, stats)
      else
        '(ccs, elaps) ← reference (Z.to_nat GBMS_SOC_STATS_LEN) soc_table elap_table table_count cc 0 0;
        Ok (0, BattTtfStats (TtfSocStats ccs elaps) stats.(ref_temp_idx) stats.(ref_watts)
                 stats.(soc_stats) stats.(ttf_tier_stats) stats.(report_max_ratio) stats.(fcc_now)).

Definition ttf_tier_reset (stats : batt_ttf_stats) : batt_ttf_stats :=
  set_tier_stats ((λ t, TtfTierStat t.(ts_soc_in) 0 0 0) <$> stats.(ttf_tier_stats)) stats.

Definition ttf_init_tier_parse_dt (stats : batt_ttf_stats) (node capacity_ma : Z) :
    Z * batt_ttf_stats :=
  let count := dt_count node "google,ttf-tier-table" in
  if negb (count =? GBMS_STATS_TIER_COUNT) then (- EINVAL, stats)
  else
    let '(ret, tier_table) := dt_array node "google,ttf-tier-table" count in
    if ret <? 0 then (ret, stats)
    else
      let soc i := s16 (Z.shiftl (default 0 (tier_table !! i)) 8) in
      let soc_in_diff := s16 (soc 2%nat - soc 1%nat) in
      let cc_in_of i := Z.quot (s32 (capacity_ma * soc i)) 100 in
      (0, set_tier_stats
            [TtfTierStat (soc 0%nat) 0 0 0;
             TtfTierStat (soc 1%nat) (cc_in_of 1%nat) (Z.quot (s32 (capacity_ma * soc_in_diff)) 100) 0;
             TtfTierStat (soc 2%nat) (cc_in_of 2%nat) (s32 (capacity_ma - cc_in_of 2%nat)) 0] stats).

Definition no_soc_stats : ttf_soc_stats :=
  TtfSocStats (replicate (Z.to_nat GBMS_SOC_STATS_LEN) 0) (replicate (Z.to_nat GBMS_SOC_STATS_LEN) 0).

Definition no_tier_stats : list ttf_tier_stat :=
  replicate (Z.to_nat GBMS_STATS_TIER_COUNT) (TtfTierStat 0 0 0 0).

Definition ttf_stats_dup (src : batt_ttf_stats) : batt_ttf_stats :=
  set_tier_stats no_tier_stats (set_soc_stats no_soc_stats src).

Definition TTF_REPORT_MAX_RATIO : Z := 300.

Definition ttf_stats_init (kzalloc : bool) (node capacity_ma : Z) : outcome (Z * batt_ttf_stats) :=
  let stats watts temp_idx ratio :=
    BattTtfStats no_soc_stats temp_idx watts no_soc_stats no_tier_stats ratio 0 in
  let '(ret, watts) := dt_u32 node "google,ttf-adapter" in
  if ret <? 0 then Ok (ret, stats 0 0 0)
  else
    let '(ret, temp_idx) := dt_u32 node "google,ttf-temp-idx" in
    if ret <? 0 then Ok (ret, stats (s32 watts) 0 0)
    else
      let '(ret, ratio) := dt_u32 node "google,ttf-report-max-ratio" in
      let ratio := if ret <? 0 then TTF_REPORT_MAX_RATIO else ratio in
      '(ret, s) ← ttf_init_soc_parse_dt kzalloc (stats (s32 watts) (s32 temp_idx) (s32 ratio)) node capacity_ma;
      if ret <? 0 then Ok (ret, s)
      else
        let '(ret, s) := ttf_init_tier_parse_dt s node capacity_ma in
        Ok (if ret <? 0 then ret else 0, s).

End Init.
