(* ===== verification/TtfProps.v ===== *)
(** * Time to full: properties

    What is learned stays near the reference over any number of charges; an estimate is
    the sum of the estimates of its parts; the reference is looked up as the table says;
    the estimate by tiers reads elements of another place. *)

From S2P Require Import Prelude.
From S2P Require Import Heap.
From S2P Require Import GoogleBms.
From S2P Require Import BmsTiers.
From S2P Require Import BmsTiersProps.
From S2P Require Import BmsState.
From S2P Require Import Ttf.

(** ** Arrays *)

Lemma at_blocked l i : at_ l i ≠ Blocked.
Proof. unfold at_. destruct (_ <? 0); [done|]. by destruct (l !! _). Qed.

Lemma store_at_Ok l i v l' :
  store_at l i v = Ok l' →
  0 <= i < Z.of_nat (length l) ∧ length l' = length l ∧
  ∀ j, 0 <= j → get l' j = if decide (j = i) then v else get l j.
Proof.
  unfold store_at. intros (x & Hx & [= <-])%outcome_bind_Ok. apply at_Ok in Hx as [Hi _].
  refine (conj Hi (conj (length_insert _ _ _) _)). intros j Hj. unfold get.
  case_decide as Hji; [subst j; by rewrite list_lookup_insert_eq by lia|].
  by rewrite list_lookup_insert_ne by lia.
Qed.

Lemma cap_range lo hi v : lo <= hi → lo <= cap lo hi v <= hi.
Proof. unfold cap. repeat case_bool; lia. Qed.

(** ** What is learned *)

(** Within a fifth of the reference, as the integers of the code have it. *)
Definition within (ref v : Z) : Prop := Z.quot (80 * ref) 100 <= v <= Z.quot (120 * ref) 100.

Definition elap_in (s : batt_ttf_stats) (i : Z) : Prop :=
  let v := get s.(soc_stats).(s_elap) i in v = 0 ∨ within (get s.(soc_ref).(s_elap) i) v.

Definition cc_in_ref (s : batt_ttf_stats) (i : Z) : Prop :=
  let v := get s.(soc_stats).(s_cc) i in v = 0 ∨ within (get s.(soc_ref).(s_cc) i) v.

(** The current at 99 percent may be made from that at 98, and that may be zero. *)
Definition cc99_in_ref (s : batt_ttf_stats) : Prop :=
  cc_in_ref s 99 ∨
  get s.(soc_stats).(s_cc) 99 = get s.(soc_ref).(s_cc) 99 - get s.(soc_ref).(s_cc) 98.

Record learned_ok (s : batt_ttf_stats) : Prop := {
  learned_elap : ∀ i, 0 <= i <= 100 → elap_in s i;
  learned_cc : ∀ i, 0 <= i <= 100 → i ≠ 99 → cc_in_ref s i;
  learned_cc99 : cc99_in_ref s;
  learned_len : length s.(soc_stats).(s_elap) = 101%nat ∧ length s.(soc_stats).(s_cc) = 101%nat
}.

(** Such that the percentages of the reference fit in an [int]. *)
Definition ref_ok (r : ttf_soc_stats) : Prop :=
  ∀ i, 0 <= i <= 100 → 0 <= get r.(s_elap) i < 2 ^ 30 ∧ 0 <= get r.(s_cc) i < 2 ^ 24.

Lemma quot_100 a : 0 <= a → Z.quot a 100 = a / 100.
Proof. intros. by apply Z.quot_div_nonneg; lia. Qed.

Lemma within_cap ref a b v :
  0 <= ref → a = Z.quot (80 * ref) 100 → b = Z.quot (120 * ref) 100 → within ref (cap a b v).
Proof.
  intros Hr -> ->. apply cap_range. rewrite !quot_100 by lia. apply Z.div_le_mono; lia.
Qed.

Lemma qual_elap_ok w s ce i t e :
  ref_ok s.(soc_ref) → 0 <= i <= 100 →
  ttf_soc_qual_elap w s ce i t = Ok e → e = 0 ∨ within (get s.(soc_ref).(s_elap) i) e.
Proof.
  intros Hr Hi. unfold ttf_soc_qual_elap. intros (ref & Href & He)%outcome_bind_Ok.
  apply at_Ok in Href as [_ ->]. apply outcome_bind_Ok in He as (src & _ & He).
  destruct (src =? 0); [left; congruence|].
  apply outcome_bind_Ok in He as (ratio & _ & He).
  destruct (_ || _); [left; congruence|].
  apply outcome_bind_Ok in He as (dst & _ & [= <-]). right.
  destruct (Hr i Hi) as [[H0 H1] _]. generalize dependent (get (s_elap (soc_ref s)) i). intros ref H0 H1.
  unfold TTF_SOC_QUAL_ELAP_DELTA_REF_PCT_MAX. cbn [Z.add Z.sub Pos.add].
  apply within_cap; [lia|..].
  - change (100 - 20) with 80. rewrite s64_small, s32_small; [done| |lia].
    rewrite quot_100 by lia. pose proof (Z.div_le_mono (80 * ref) (80 * 2 ^ 30) 100).
    pose proof (Z.div_pos (80 * ref) 100). change (80 * 2 ^ 30 / 100) with 858993459 in *. lia.
  - change (100 + 20) with 120. rewrite s64_small, s32_small; [done| |lia].
    rewrite quot_100 by lia. pose proof (Z.div_le_mono (120 * ref) (120 * 2 ^ 30) 100).
    pose proof (Z.div_pos (120 * ref) 100). change (120 * 2 ^ 30 / 100) with 1288490188 in *. lia.
Qed.

Lemma qual_cc_ok s ce i c :
  ref_ok s.(soc_ref) → 0 <= i <= 100 →
  ttf_soc_qual_cc s ce i = Ok c → c = 0 ∨ within (get s.(soc_ref).(s_cc) i) c.
Proof.
  intros Hr Hi. unfold ttf_soc_qual_cc. intros (ref & Href & Hc)%outcome_bind_Ok.
  apply at_Ok in Href as [_ ->]. apply outcome_bind_Ok in Hc as (src & _ & Hc).
  destruct (src =? 0); [left; congruence|].
  apply outcome_bind_Ok in Hc as (dst & _ & [= <-]). right.
  destruct (Hr i Hi) as [_ [H0 H1]].
  unfold TTF_SOC_QUAL_CC_DELTA_REF_PCT_MAX. apply within_cap; [lia|..].
  - change (100 - 20) with 80. by rewrite s32_small by lia.
  - change (100 + 20) with 120. by rewrite s32_small by lia.
Qed.

Lemma learned_store_elap s i v s' :
  learned_ok s → (0 <= i <= 100 → v = 0 ∨ within (get s.(soc_ref).(s_elap) i) v) →
  store_elap i v s = Ok s' → learned_ok s' ∧ soc_ref s' = soc_ref s.
Proof.
  intros [He Hc H99 [Hl1 Hl2]] Hv. unfold store_elap.
  intros (l & (Hi & Hl & Hg)%store_at_Ok & [= <-])%outcome_bind_Ok.
  split; [|done]. split; [|exact Hc|exact H99|by cbn; rewrite Hl].
  intros j Hj. unfold elap_in. cbn. rewrite Hg by lia.
  case_decide as E; [subst j; by apply Hv|by apply He].
Qed.

Lemma learned_store_cc s i v s' :
  learned_ok s →
  (0 <= i <= 100 → v = 0 ∨ within (get s.(soc_ref).(s_cc) i) v ∨
     i = 99 ∧ v = get s.(soc_ref).(s_cc) 99 - get s.(soc_ref).(s_cc) 98) →
  store_cc i v s = Ok s' → learned_ok s' ∧ soc_ref s' = soc_ref s.
Proof.
  intros [He Hc H99 [Hl1 Hl2]] Hv. unfold store_cc.
  intros (l & (Hi & Hl & Hg)%store_at_Ok & [= <-])%outcome_bind_Ok.
  split; [|done]. split; [exact He| | |by cbn; rewrite Hl].
  - intros j Hj Hne. unfold cc_in_ref. cbn. rewrite Hg by lia.
    case_decide as E; [subst j|by apply Hc].
    destruct (Hv Hj) as [?|[?|[? _]]]; [by left|by right|done].
  - unfold cc99_in_ref, cc_in_ref in *. cbn. rewrite Hg by lia.
    case_decide as E; [subst i|done].
    destruct (Hv ltac:(lia)) as [?|[?|[_ ?]]]; [by left; left|by left; right|by right].
Qed.

Lemma learn_ok w ce i s s' :
  learned_ok s → ref_ok s.(soc_ref) → learn w ce i s = Ok s' → learned_ok s' ∧ soc_ref s' = soc_ref s.
Proof.
  intros Hs Hr. unfold learn. intros (e & He & H)%outcome_bind_Ok.
  apply outcome_bind_Ok in H as (c & _ & H).
  destruct (_ || _); [by injection H as <-|].
  apply outcome_bind_Ok in H as (elap & Helap & H).
  apply outcome_bind_Ok in H as (s1 & Hs1 & H).
  assert (learned_ok s1 ∧ soc_ref s1 = soc_ref s) as [Hok1 Hr1].
  { destruct (elap =? 0); [by injection Hs1 as <-|].
    apply (learned_store_elap s i elap s1 Hs); [|done]. intros Hi.
    exact (qual_elap_ok _ _ _ _ _ _ Hr Hi Helap). }
  apply outcome_bind_Ok in H as (cc & Hcc & H). rewrite <- Hr1 in Hr |- *.
  destruct (cc =? 0); [by injection H as <-|].
  apply (learned_store_cc s1 i cc s' Hok1); [|done]. intros Hi.
  destruct (qual_cc_ok s1 ce i cc Hr Hi Hcc) as [?|?]; [by left|by right; left].
Qed.

Lemma learn_all_ok w ce n i s s' :
  learned_ok s → ref_ok s.(soc_ref) → learn_all w ce n i s = Ok s' →
  learned_ok s' ∧ soc_ref s' = soc_ref s.
Proof.
  revert i s. induction n as [|n IH]; intros i s Hs Hr; cbn; [by intros [= <-]|].
  intros (s1 & Hs1 & H)%outcome_bind_Ok.
  destruct (learn_ok w ce i s s1 Hs Hr Hs1) as [Hok Hr1]. rewrite <- Hr1 in Hr |- *.
  by apply (IH (i + 1)).
Qed.

(** The difference of the references is kept within a fifth. *)
Lemma within_add r98 r99 v :
  0 <= r98 → r98 <= r99 → within r98 v → within r99 (v + (r99 - r98)).
Proof.
  intros H0 H1. unfold within. rewrite !quot_100 by lia.
  pose proof (Z.div_mod (80 * r98) 100). pose proof (Z.mod_pos_bound (80 * r98) 100).
  pose proof (Z.div_mod (80 * r99) 100). pose proof (Z.mod_pos_bound (80 * r99) 100).
  pose proof (Z.div_mod (120 * r98) 100). pose proof (Z.mod_pos_bound (120 * r98) 100).
  pose proof (Z.div_mod (120 * r99) 100). pose proof (Z.mod_pos_bound (120 * r99) 100).
  lia.
Qed.

Lemma soc_update_ok w s ce a b s' :
  learned_ok s → ref_ok s.(soc_ref) → ttf_soc_update w s ce a b = Ok s' →
  learned_ok s' ∧ soc_ref s' = soc_ref s.
Proof.
  intros Hs Hr. unfold ttf_soc_update. intros (s1 & Hs1 & H)%outcome_bind_Ok.
  destruct (learn_all_ok w ce _ a s s1 Hs Hr Hs1) as [Hok Hr1]. rewrite <- Hr1 in Hr |- *.
  destruct (b =? 98); [|by injection H as <-].
  apply outcome_bind_Ok in H as (ok & Hck & H). destruct ok; [|by injection H as <-].
  unfold ttf_cc_check in Hck. apply outcome_bind_Ok in Hck as (c0 & Hc0 & Hck).
  apply at_Ok in Hc0 as [_ ->]. destruct (_ =? 0); [done|].
  apply outcome_bind_Ok in Hck as (c1 & Hc1 & [= [_ Hlt%Z.ltb_lt]%andb_true_iff]).
  apply at_Ok in Hc1 as [_ ->]. change (98 + 1) with 99 in Hlt.
  apply outcome_bind_Ok in H as (c98 & Hc98 & H). apply at_Ok in Hc98 as [_ ->].
  apply outcome_bind_Ok in H as (r99 & Hr99 & H). apply at_Ok in Hr99 as [_ ->].
  apply outcome_bind_Ok in H as (r98 & Hr98 & H). apply at_Ok in Hr98 as [_ ->].
  destruct (Hr 98 ltac:(lia)) as [_ H98]. destruct (Hr 99 ltac:(lia)) as [_ H99].
  rewrite (s32_small (_ - _)) in H by lia.
  refine (learned_store_cc s1 99 _ s' Hok _ H). intros _.
  destruct (learned_cc _ Hok 98 ltac:(lia) ltac:(lia)) as [E|E].
  - rewrite E, Z.add_0_l, s32_small by lia. by right; right.
  - right; left. rewrite s32_small; [apply within_add; [lia..|done]|].
    apply within_add with (r99 := get (s_cc (soc_ref s1)) 99) in E; [|lia..].
    unfold within in E. rewrite !quot_100 in E by lia.
    pose proof (Z.div_le_mono (120 * get (s_cc (soc_ref s1)) 99) (120 * 2 ^ 24) 100).
    pose proof (Z.div_pos (80 * get (s_cc (soc_ref s1)) 99) 100).
    change (120 * 2 ^ 24 / 100) with 20132659 in *. lia.
Qed.

Lemma update_ok w s ce force s' :
  learned_ok s → ref_ok s.(soc_ref) → ttf_stats_update w s ce force = Ok s' →
  learned_ok s' ∧ soc_ref s' = soc_ref s.
Proof.
  intros Hs Hr. unfold ttf_stats_update. destruct (_ <? _); [by intros [= <-]|].
  intros (first & _ & H)%outcome_bind_Ok. apply outcome_bind_Ok in H as (s1 & Hs1 & H).
  apply outcome_bind_Ok in H as (l & _ & [= <-]).
  destruct (soc_update_ok w s ce _ _ s1 Hs Hr Hs1) as [[] Hr1]. by split; [split|].
Qed.

(** ** An update returns *)

(** The tables of the profile cover what is looked up, and nothing is divided by zero. *)
Record event_ok (w : world) (ce : gbms_charging_event) : Prop := {
  ev_tiers_wf : tiers_wf ce.(ce_chg_profile);
  ev_currents : ∃ blk, currents_wf ce.(ce_chg_profile) w blk;
  ev_volts : ∀ i, 0 <= i < volt_nb ce.(ce_chg_profile) → 1000 <= get (volts ce.(ce_chg_profile)) i;
  ev_tiers : length ce.(ce_tier_stats) = 3%nat;
  ev_tier : Forall (λ t, (t.(t_temp_idx) = -1 ∨ 0 <= t.(t_temp_idx) < temp_nb ce.(ce_chg_profile) - 1) ∧
                         0 <= t.(time_fast) < 2 ^ 29 ∧ 0 <= t.(time_taper) < 2 ^ 29 ∧
                         0 <= t.(time_other) < 2 ^ 29) (ce.(health_stats) :: ce.(ce_tier_stats));
  ev_len : length ce.(ce_soc_stats).(s_elap) = 101%nat ∧ length ce.(ce_soc_stats).(s_cc) = 101%nat;
  ev_soc : 0 <= ce.(ssoc_in) <= 100 ∧ 0 <= ce.(last_soc) <= 100
}.

Definition oks {A} (o : outcome A) : Prop := ∃ x, o = Ok x.

Lemma oks_Ok {A} (x : A) : oks (Ok x).
Proof. by exists x. Qed.

Lemma oks_bind {A B} (o : outcome A) (f : A → outcome B) :
  oks o → (∀ x, o = Ok x → oks (f x)) → oks (o ≫= f).
Proof. intros [x Hx] Hf. rewrite Hx. by apply Hf. Qed.

Lemma oks_at l i : 0 <= i < Z.of_nat (length l) → oks (at_ l i).
Proof. intros Hi. rewrite at_get by done. apply oks_Ok. Qed.

Lemma oks_tier_at {A} (l : list A) i : 0 <= i < Z.of_nat (length l) → oks (tier_at l i).
Proof.
  intros Hi. unfold tier_at. rewrite (proj2 (Z.ltb_ge _ _)) by lia.
  destruct (lookup_lt_is_Some_2 l (Z.to_nat i)) as [x Hx]; [lia|]. rewrite Hx. apply oks_Ok.
Qed.

Lemma oks_quot a b : b ≠ 0 → oks (quot_ a b).
Proof. intros Hb. unfold quot_. rewrite (proj2 (Z.eqb_neq _ _)) by done. apply oks_Ok. Qed.

Lemma oks_store l i v : 0 <= i < Z.of_nat (length l) → oks (store_at l i v).
Proof. intros Hi. apply oks_bind; [by apply oks_at|]. intros. apply oks_Ok. Qed.

(** Each step of a sequence returns. *)
Ltac oks :=
  repeat match goal with
    | |- oks (Ok _) => apply oks_Ok
    | |- oks (mbind _ _) => apply oks_bind; [|intros ? ?]
    | |- oks (if ?b then _ else _) => destruct b eqn:?
    end.

Lemma oks_cc_check r soc : length r.(s_cc) = 101%nat → 0 <= soc < 100 → oks (ttf_cc_check r soc).
Proof. intros Hl Hs. unfold ttf_cc_check. oks; apply oks_at; lia. Qed.

Definition lens (r : ttf_soc_stats) : Prop := length r.(s_cc) = 101%nat ∧ length r.(s_elap) = 101%nat.

Lemma oks_has_data r soc : lens r → 0 <= soc < 100 → oks (has_data r soc).
Proof.
  intros [Hc He] Hs. unfold has_data. oks; [by apply oks_cc_check|apply oks_at; lia].
Qed.

Lemma oks_ref_cc s soc : lens s.(soc_stats) → lens s.(soc_ref) → 0 <= soc < 100 → oks (ttf_ref_cc s soc).
Proof.
  intros H1 H2 Hs. pose proof H1 as [? ?]. pose proof H2 as [? ?]. unfold ttf_ref_cc.
  oks; try (by apply oks_has_data); apply oks_at; repeat case_match; lia.
Qed.

Section Event.
Context (w : world) (ce : gbms_charging_event) (Hev : event_ok w ce).

Definition times_fit (t : tier_stats) : Prop :=
  0 <= t.(time_fast) < 2 ^ 29 ∧ 0 <= t.(time_taper) < 2 ^ 29 ∧ 0 <= t.(time_other) < 2 ^ 29.

Lemma oks_icl t : times_fit t → oks (ttf_pwr_icl t ce).
Proof.
  intros (? & ? & ?). unfold ttf_pwr_icl, ELAP_LIMIT_S. rewrite (s32_small (_ + _)) by lia.
  destruct (Z.leb_spec (time_fast t + time_taper t) 60); oks. apply oks_quot.
  rewrite s32_small by lia. lia.
Qed.

Lemma oks_ibatt t : times_fit t → oks (ttf_pwr_ibatt t).
Proof.
  intros (? & ? & ?). unfold ttf_pwr_ibatt, ELAP_LIMIT_S. rewrite (s32_small (_ + _)) by lia.
  destruct (Z.leb_spec (time_fast t + time_taper t) 60); oks. apply oks_quot.
  rewrite s32_small by lia. lia.
Qed.

Lemma tier_fits t i :
  tier_at ce.(ce_tier_stats) i = Ok t →
  (t.(t_temp_idx) = -1 ∨ 0 <= t.(t_temp_idx) < temp_nb ce.(ce_chg_profile) - 1) ∧ times_fit t.
Proof.
  unfold tier_at. destruct (_ <? _); [done|].
  destruct (_ !! _) as [x|] eqn:E; intros [= ->].
  exact (Forall_lookup_1 _ _ _ _ (Forall_inv_tail (ev_tier _ _ Hev)) E).
Qed.

Lemma oks_equiv_icl vi soc fcc :
  0 <= vi < volt_nb ce.(ce_chg_profile) → vi < 3 → oks (ttf_pwr_equiv_icl ce vi soc fcc).
Proof.
  intros Hvi H3. pose proof (ev_tiers_wf _ _ Hev) as []. pose proof (ev_tiers _ _ Hev) as Ht.
  unfold GBMS_CHG_VOLT_NB_LIMITS_MAX in *. unfold ttf_pwr_equiv_icl.
  apply oks_bind; [apply oks_at; lia|]. intros v [_ ->]%at_Ok.
  pose proof (ev_volts _ _ Hev vi Hvi) as Hv. rewrite (proj2 (Z.eqb_neq _ 0)) by lia.
  cbn [mbind outcome_bind]. apply oks_bind.
  { apply oks_quot. rewrite Z.quot_div_nonneg by lia.
    pose proof (Z.div_le_lower_bound (get (volts (ce_chg_profile ce)) vi) 1000 1). lia. }
  intros aratio _. apply oks_bind.
  { oks. apply oks_tier_at. lia. }
  intros [hi t] Hit. assert (times_fit t) as Hfit.
  { pose proof (Forall_inv (ev_tier _ _ Hev)) as [_ Hh].
    destruct (ttf_pwr_health ce soc); [by injection Hit as _ <-|].
    destruct (ttf_pwr_health_pause ce soc); [by injection Hit as _ <-|].
    apply outcome_bind_Ok in Hit as (t' & Ht' & [= _ <-]). exact (proj2 (tier_fits _ _ Ht')). }
  oks; [by apply oks_icl|by apply oks_ibatt].
Qed.

Lemma oks_pwr_ratio s soc t :
  lens s.(soc_stats) → lens s.(soc_ref) → 0 <= soc < 100 → 0 <= t < 3 → oks (ttf_pwr_ratio w s ce soc t).
Proof.
  intros H1 H2 Hs Ht3. pose proof (ev_tiers_wf _ _ Hev) as Hwf. pose proof Hwf as [].
  pose proof (ev_tiers _ _ Hev) as Ht. destruct (ev_currents _ _ Hev) as [blk Hblk].
  unfold GBMS_CHG_VOLT_NB_LIMITS_MAX, GBMS_CHG_TEMP_NB_LIMITS_MAX in *. unfold ttf_pwr_ratio.
  rewrite (proj2 (Z.ltb_ge _ _)) by lia.
  apply oks_bind; [apply oks_tier_at; lia|]. intros x Hx.
  destruct (tier_fits _ _ Hx) as [Hti _].
  assert (∃ i, ratio_temp_idx (ce_chg_profile ce) x = Ok i ∧ 0 <= i < temp_nb (ce_chg_profile ce) - 1)
    as (ti & -> & Hr).
  { unfold ratio_temp_idx. destruct (Z.eqb_spec (t_temp_idx x) (-1)) as [|Hne].
    - set (temp := if _ =? 0 then 250 else _). clearbody temp. unfold gbms_msc_temp_idx.
      destruct (climb_from_spec (temp_nb (ce_chg_profile ce) - 2) 0
        (λ i, lim ← at_ (temps (ce_chg_profile ce)) (i + 1); Ok (lim <=? temp))
        (λ i, get (temps (ce_chg_profile ce)) (i + 1) <=? temp)) as (r & Hr & Hb & _).
      { intros i Hi. by rewrite at_get by lia. }
      exists r. split; [done|lia].
    - exists (t_temp_idx x). split; [done|]. destruct Hti; [done|lia]. }
  cbn [mbind outcome_bind]. rewrite (proj2 (Z.ltb_ge ti 0)), andb_false_r by lia.
  set (vi := if _ <? t then _ else t).
  assert (0 <= vi < volt_nb (ce_chg_profile ce) ∧ vi < 3) as [Hvi Hvi3]
    by (subst vi; case_bool; lia).
  clearbody vi. rewrite (proj1 (cccm_get _ _ _ ti vi Hblk Hr Hvi)). cbn [mbind outcome_bind].
  oks; [by apply oks_ref_cc|by apply oks_equiv_icl].
Qed.
(** What an update needs of the statistics besides. *)
Record stats_ok (s : batt_ttf_stats) : Prop := {
  so_learned : learned_ok s;
  so_ref : ref_ok s.(soc_ref);
  so_lens : lens s.(soc_ref);
  so_tiers : length s.(ttf_tier_stats) = 3%nat
}.

Lemma vtier_range s soc : stats_ok s → 0 <= ttf_pwr_vtier_idx s soc < 3.
Proof.
  intros [_ _ _ Hl]. unfold ttf_pwr_vtier_idx.
  destruct (ttf_tier_stats s) as [|t0 [|t1 [|t2 [|]]]]; try done. cbn [tail vtier_from].
  destruct (soc <? Z.shiftr (ts_soc_in t1) 8); [done|].
  by destruct (soc <? Z.shiftr (ts_soc_in t2) 8).
Qed.

Lemma own_lens s : learned_ok s → lens s.(soc_stats).
Proof. intros [_ _ _ [? ?]]. by split. Qed.

Lemma learn_total i s : stats_ok s → 0 <= i < 100 → oks (learn w ce i s).
Proof.
  intros Hs Hi. pose proof (ev_len _ _ Hev) as [Le Lc]. pose proof (so_lens _ Hs) as [Rc Re].
  pose proof (own_lens _ (so_learned _ Hs)) as [Oc Oe]. unfold learn.
  oks; try (apply oks_at; lia).
  - unfold ttf_soc_qual_elap. oks; try (apply oks_at; lia).
    apply oks_pwr_ratio; [by split|by split|lia|by apply vtier_range].
  - unfold store_elap. oks. apply oks_store. lia.
  - match goal with H : _ = Ok ?s1 |- oks (ttf_soc_qual_cc ?s1 _ _) =>
      assert (lens (soc_stats s1) ∧ soc_ref s1 = soc_ref s) as [[Oc1 Oe1] E1]
    end.
    { match goal with H : (if ?b then _ else store_elap _ _ _) = Ok _ |- _ => destruct b; [by injection H as <-|];
        apply outcome_bind_Ok in H as (l & (_ & Hl & _)%store_at_Ok & [= <-]) end.
      split; [|done]. split; cbn; [done|by rewrite Hl]. }
    unfold ttf_soc_qual_cc. oks; rewrite ?E1; apply oks_at; lia.
  - match goal with H : (if ?b then _ else store_elap _ _ _) = Ok ?s1 |- _ =>
      assert (length (s_cc (soc_stats s1)) = 101%nat) as Oc1 by
        (destruct b; [by injection H as <-|]; by apply outcome_bind_Ok in H as (l & _ & [= <-])) end.
    unfold store_cc. oks. apply oks_store. lia.
Qed.
Lemma learn_tiers i s s' : learn w ce i s = Ok s' → s'.(ttf_tier_stats) = s.(ttf_tier_stats).
Proof.
  unfold learn. intros (e & _ & H)%outcome_bind_Ok. apply outcome_bind_Ok in H as (c & _ & H).
  destruct (_ || _); [by injection H as <-|].
  apply outcome_bind_Ok in H as (elap & _ & H). apply outcome_bind_Ok in H as (s1 & Hs1 & H).
  assert (ttf_tier_stats s1 = ttf_tier_stats s) as <-.
  { destruct (elap =? 0); [by injection Hs1 as <-|]. by apply outcome_bind_Ok in Hs1 as (l & _ & [= <-]). }
  apply outcome_bind_Ok in H as (cc & _ & H). destruct (cc =? 0); [by injection H as <-|].
  by apply outcome_bind_Ok in H as (l & _ & [= <-]).
Qed.

Lemma learn_all_total n i s :
  stats_ok s → 0 <= i → i + Z.of_nat n <= 100 →
  ∃ s', learn_all w ce n i s = Ok s' ∧ stats_ok s' ∧ s'.(soc_ref) = s.(soc_ref).
Proof.
  revert i s. induction n as [|n IH]; intros i s Hs Hi Hn; cbn [learn_all]; [by exists s|].
  destruct (learn_total i s Hs) as [s1 Hs1]; [lia|]. rewrite Hs1. cbn [mbind outcome_bind].
  destruct (learn_ok w ce i s s1 (so_learned _ Hs) (so_ref _ Hs) Hs1) as [Hl Hr].
  destruct (IH (i + 1) s1) as (s' & Hs' & Hok & Hr'); [|lia|lia|].
  { split; [done|rewrite Hr; apply Hs|rewrite Hr; apply Hs|rewrite (learn_tiers _ _ _ Hs1); apply Hs]. }
  exists s'. split; [done|]. split; [done|]. congruence.
Qed.

Lemma soc_update_total a b s :
  stats_ok s → 0 <= a → b <= 99 →
  ∃ s', ttf_soc_update w s ce a b = Ok s' ∧ s'.(ttf_tier_stats) = s.(ttf_tier_stats).
Proof.
  intros Hs Ha Hb. unfold ttf_soc_update.
  assert (∃ s1, learn_all w ce (Z.to_nat (b - a + 1)) a s = Ok s1 ∧ stats_ok s1 ∧
            ttf_tier_stats s1 = ttf_tier_stats s) as (s1 & -> & Hs1 & Ht).
  { destruct (Z.ltb_spec b a).
    - replace (Z.to_nat (b - a + 1)) with 0%nat by lia. by exists s.
    - destruct (learn_all_total (Z.to_nat (b - a + 1)) a s) as (s1 & H1 & Hok & _); [done|lia|lia|].
      exists s1. split; [done|]. split; [done|]. clear -H1. revert H1. generalize (Z.to_nat (b - a + 1)).
      intros n. revert a s. induction n as [|n IH]; intros a s; cbn; [by intros [= <-]|].
      intros (s2 & H2 & H3)%outcome_bind_Ok. rewrite <- (learn_tiers _ _ _ H2). by eapply IH. }
  cbn [mbind outcome_bind]. rewrite <- Ht. destruct (b =? 98); [|by exists s1].
  destruct (so_lens _ Hs1) as [Rc Re]. destruct (own_lens _ (so_learned _ Hs1)) as [Oc Oe].
  destruct (oks_cc_check (soc_ref s1) 98 Rc ltac:(lia)) as [ck ->]. cbn [mbind outcome_bind].
  destruct ck; [|by exists s1]. rewrite !at_get by lia. cbn [mbind outcome_bind]. unfold store_cc.
  edestruct (oks_store (s_cc (soc_stats s1)) 99) as [l ->]; [lia|]. by eexists.
Qed.

Lemma tiers_total force i l :
  0 <= i → i + Z.of_nat (length l) <= 3 →
  ∃ l', tiers_from ce force i l = Ok l' ∧ length l' = length l.
Proof.
  pose proof (ev_tiers _ _ Hev) as H3.
  revert i. induction l as [|t l IH]; intros i Hi Hl; cbn [tiers_from length] in *; [by exists []|].
  destruct (oks_tier_at (ce_tier_stats ce) i) as [c ->]; [lia|]. cbn [mbind outcome_bind].
  destruct (IH (i + 1)) as (l' & -> & Hl'); [lia|lia|]. cbn [mbind outcome_bind].
  eexists. split; [done|]. cbn. by rewrite Hl'.
Qed.

Lemma first_elap_total n i :
  0 <= i → i + Z.of_nat n <= 101 → ∃ k, first_elap n ce.(ce_soc_stats).(s_elap) i = Ok k ∧ i <= k.
Proof.
  pose proof (ev_len _ _ Hev) as [Le _].
  revert i. induction n as [|n IH]; intros i Hi Hn; cbn [first_elap]; [by exists i|].
  rewrite at_get by lia. cbn [mbind outcome_bind]. destruct (_ =? 0); [|by exists i].
  destruct (IH (i + 1)) as (k & -> & Hk); [lia|lia|]. exists k. split; [done|lia].
Qed.

Lemma update_total force s :
  stats_ok s → ∃ s', ttf_stats_update w s ce force = Ok s' ∧ stats_ok s' ∧ s'.(soc_ref) = s.(soc_ref).
Proof.
  intros Hs. pose proof (ev_soc _ _ Hev) as [H1 H2].
  assert (∃ s', ttf_stats_update w s ce force = Ok s' ∧ length s'.(ttf_tier_stats) = 3%nat)
    as (s' & Hu & Ht).
  { unfold ttf_stats_update. destruct (Z.ltb_spec (last_soc ce - ssoc_in ce) TTF_STATS_QUAL_DELTA_MIN).
    { exists s. split; [done|apply Hs]. }
    unfold TTF_STATS_QUAL_DELTA_MIN in *.
    destruct (first_elap_total (Z.to_nat (last_soc ce - ssoc_in ce + 1)) (ssoc_in ce)) as (k & -> & Hk);
      [lia|lia|]. cbn [mbind outcome_bind].
    destruct (soc_update_total (k + 1) (last_soc ce - 1) s) as (s1 & -> & Ht); [done|lia|lia|].
    cbn [mbind outcome_bind]. unfold ttf_tier_update.
    destruct (tiers_total force 0 (ttf_tier_stats s1)) as (l & -> & Hl);
      [lia|rewrite Ht, (so_tiers _ Hs); cbn; lia|]. cbn [mbind outcome_bind].
    eexists. split; [done|]. cbn. by rewrite Hl, Ht, (so_tiers _ Hs). }
  exists s'. split; [done|].
  destruct (update_ok w s ce force s' (so_learned _ Hs) (so_ref _ Hs) Hu) as [Hl Hr].
  split; [|done]. split; [done|rewrite Hr; apply Hs|rewrite Hr; apply Hs|done].
Qed.
End Event.

(** The statistics after the charges [l], in this order. *)
Fixpoint updates (l : list (world * gbms_charging_event * bool)) (s : batt_ttf_stats) :
    outcome batt_ttf_stats :=
  match l with
  | [] => Ok s
  | (w, ce, force) :: l => s ← ttf_stats_update w s ce force; updates l s
  end.

(** C20. From statistics of the code's sizes with nothing learned, whatever the charges were
    ([event_ok]: their tables cover what is looked up and divide by no zero), every update
    returns, the reference is that of the start, and every time and every current that
    has been learned is within a fifth of the reference at that percent; only the current
    at 99 may instead be the difference of two references. *)
Theorem ttf_learned_near_reference l s :
  soc_stats s = no_soc_stats → lens (soc_ref s) → ref_ok (soc_ref s) →
  length (ttf_tier_stats s) = 3%nat → Forall (λ '(w, ce, _), event_ok w ce) l →
  ∃ s', updates l s = Ok s' ∧ soc_ref s' = soc_ref s ∧ cc99_in_ref s' ∧
    ∀ i, 0 <= i <= 100 → elap_in s' i ∧ (i ≠ 99 → cc_in_ref s' i).
Proof.
  intros Hno Hlens Hr Ht Hl.
  assert (stats_ok s) as Hs.
  { split; [|done..].
    assert (∀ i, get (replicate 101 0) i = 0) as Hz.
    { intros i. unfold get. destruct (_ !! _) as [v|] eqn:E; [|done].
      by apply lookup_replicate in E as [-> _]. }
    split; unfold elap_in, cc99_in_ref, cc_in_ref; rewrite Hno; cbn; try done;
      intros; rewrite ?Hz; auto. }
  clear Hno Hlens Hr Ht.
  assert (∃ s', updates l s = Ok s' ∧ stats_ok s' ∧ soc_ref s' = soc_ref s) as (s' & -> & Hs' & E).
  { revert s Hs. induction Hl as [|[[w ce] f] l Hev _ IH]; intros s Hs; cbn; [by exists s|].
    destruct (update_total w ce Hev f s Hs) as (s1 & -> & Hs1 & E1). cbn [mbind outcome_bind].
    destruct (IH s1 Hs1) as (s' & -> & Hok & E2). exists s'. split; [done|]. split; [done|congruence]. }
  destruct (so_learned _ Hs') as []. exists s'. auto 7.
Qed.

(** ** Estimates *)

(** No time is negative or above a million seconds. *)
Definition times_ok (r : ttf_soc_stats) : Prop := ∀ i, 0 <= get r.(s_elap) i <= 1000000.

Lemma pwr_ratio_le w s ce soc t r : ttf_pwr_ratio w s ce soc t = Ok r → r <= 2 ^ 31.
Proof.
  unfold ttf_pwr_ratio. case_bool; [by intros [= <-]|].
  intros (t0 & _ & Hr)%outcome_bind_Ok. apply outcome_bind_Ok in Hr as (ti & _ & Hr).
  destruct (_ && _); [by injection Hr as <-|].
  apply outcome_bind_Ok in Hr as (lim & _ & Hr). apply outcome_bind_Ok in Hr as (cc & _ & Hr).
  apply outcome_bind_Ok in Hr as (icl & _ & Hr). revert Hr.
  set (avg := if cc <=? 0 then _ else _). clearbody avg.
  destruct (icl <=? 0); [by intros [= <-]|].
  set (eq := if _ <? icl then _ else _). clearbody eq.
  destruct (Z.eqb_spec eq 0); [by intros [= <-]|].
  destruct (eq <? avg); intros [= <-]; [|lia].
  pose proof (s32_range (avg * 100)).
  pose proof (Z.quot_rem' (s32 (avg * 100)) eq). pose proof (Z.rem_bound_abs (s32 (avg * 100)) eq).
  assert (Z.abs (Z.quot (s32 (avg * 100)) eq) <= Z.abs (s32 (avg * 100))); [|lia].
  rewrite <- Z.quot_abs by done. apply Z.quot_le_upper_bound; [lia|]. nia.
Qed.

(** The time of one percent is stored as it is scaled, and is never above this. *)
Definition percent_max : Z := 2 ^ 51.

Lemma elap_range w s ce soc t ratio e :
  times_ok s.(soc_stats) → times_ok s.(soc_ref) →
  ttf_elap w s ce soc t = Ok (ratio, e) → 0 <= e <= percent_max.
Proof.
  intros H1 H2. unfold ttf_elap. intros (elap & He & H)%outcome_bind_Ok.
  assert (0 <= elap <= 1000000) as Hr.
  { revert He. unfold ttf_ref_elap. destruct (_ || _); [intros [= <-]; lia|].
    intros (x & Hx & He)%outcome_bind_Ok. apply at_Ok in Hx as [_ ->].
    apply outcome_bind_Ok in He as (y & Hy & [= <-]).
    assert (0 <= y <= 1000000); [|by rewrite s32_small by lia].
    revert Hy. case_bool; [intros [_ ->]%at_Ok; apply H2|intros [= <-]; apply H1]. }
  unfold percent_max. destruct (elap =? 0); [injection H as _ <-; lia|].
  apply outcome_bind_Ok in H as (r & Hle%pwr_ratio_le & H).
  destruct (Z.ltb_spec r 0); injection H as _ <-; [lia|]. rewrite s64_small; nia.
Qed.

(** A step of the estimate that adds [d] and has the highest ratio [m]. *)
Definition adds (f : Z * Z → outcome (Z + Z * Z)) (bound d m : Z) : Prop :=
  0 <= d <= bound ∧ 0 <= m ∧
  ∀ e r, 0 <= e → e + bound <= 2 ^ 62 → 0 <= r → f (e, r) = Ok (inr (e + d, Z.max r m)).

Lemma max_if r m : (if r <? m then m else r) = Z.max r m.
Proof. destruct (Z.ltb_spec r m); lia. Qed.

Lemma add_part_eq w s ce soc t part ratio elap e r :
  ttf_elap w s ce soc t = Ok (ratio, elap) → 0 <= elap <= percent_max → 0 <= part <= 100 →
  0 <= e → e + percent_max <= 2 ^ 62 →
  let d := if 0 <=? ratio then elap * part / 100 else 0 in
  add_part w s ce soc t part (e, r) = Ok (e + d, Z.max r ratio) ∧ 0 <= d <= percent_max.
Proof.
  intros He Hr Hp Hre Hmax. unfold percent_max in *.
  assert (0 <= elap * part / 100 <= elap) as Hd.
  { split; [apply Z.div_pos; nia|]. apply Z.div_le_upper_bound; nia. }
  cbv zeta. split; [|destruct (0 <=? ratio); lia].
  unfold add_part. rewrite He. cbn [mbind outcome_bind].
  rewrite max_if, (s64_small (elap * part)), quot_100 by nia.
  destruct (Z.leb_spec 0 ratio); [by rewrite s64_small by lia|]. by rewrite Z.add_0_r.
Qed.

Lemma add_part_adds w s ce soc t part acc acc' :
  times_ok s.(soc_stats) → times_ok s.(soc_ref) → 0 <= part <= 100 →
  add_part w s ce soc t part acc = Ok acc' →
  ∃ d m, adds (λ acc, x ← add_part w s ce soc t part acc; Ok (inr x)) percent_max d m.
Proof.
  intros H1 H2 Hp. destruct acc as [e0 r0]. unfold add_part at 1.
  intros ([ratio elap] & He & _)%outcome_bind_Ok.
  pose proof (elap_range _ _ _ _ _ _ _ H1 H2 He) as Hr.
  exists (if 0 <=? ratio then elap * part / 100 else 0), (Z.max 0 ratio).
  split; [by apply (add_part_eq w s ce soc t part ratio elap 0 0)|]. split; [lia|].
  intros e r Hre Hmax Hrr.
  destruct (add_part_eq w s ce soc t part ratio elap e r He Hr Hp Hre Hmax) as [-> _].
  cbn [mbind outcome_bind]. do 3 f_equal. lia.
Qed.

Lemma add_percents_adds w s ce t n i acc acc' :
  times_ok s.(soc_stats) → times_ok s.(soc_ref) → times_ok ce.(ce_soc_stats) →
  add_percents w s ce t n i acc = Ok (inr acc') →
  ∃ d m, adds (add_percents w s ce t n i) (Z.of_nat n * percent_max) d m.
Proof.
  intros H1 H2 H3. revert i acc. induction n as [|n IH]; intros i [e0 r0].
  { intros _. exists 0, 0. unfold adds. cbn. split; [lia|]. split; [lia|].
    intros e r He _ Hr. do 3 f_equal; lia. }
  cbn [add_percents]. unfold adds. cbn [add_percents].
  destruct ((ssoc_in ce <=? i) && (i <? last_soc ce)).
  - intros (x & Hx & Hn)%outcome_bind_Ok. rewrite Hx. apply at_Ok in Hx as [_ Hx].
    pose proof (H3 i) as Hb. rewrite <- Hx in Hb. clear Hx.
    apply IH in Hn as (d & m & Hd & Hm & Hf). unfold percent_max in *.
    exists (100 * x + d), m. split; [lia|]. split; [done|]. intros e r He Hmax Hr.
    cbn [mbind outcome_bind]. rewrite (s64_small (x * 100)), s64_small by lia.
    rewrite Hf by lia. do 3 f_equal; lia.
  - intros ([ratio elap] & Hx & Hn)%outcome_bind_Ok. rewrite Hx.
    pose proof (elap_range _ _ _ _ _ _ _ H1 H2 Hx) as Hb. cbn [mbind outcome_bind].
    destruct (Z.ltb_spec ratio 0); [done|].
    apply IH in Hn as (d & m & Hd & Hm & Hf). unfold percent_max in *.
    exists (elap + d), (Z.max ratio m). split; [lia|]. split; [lia|]. intros e r He Hmax Hr.
    rewrite max_if, s64_small by lia. rewrite Hf by lia. do 3 f_equal; lia.
Qed.

Lemma add_percents_app w s ce t n m i acc :
  add_percents w s ce t (n + m) i acc =
  (r ← add_percents w s ce t n i acc;
   match r with inl e => Ok (inl e) | inr acc => add_percents w s ce t m (i + Z.of_nat n) acc end).
Proof.
  revert i acc. induction n as [|n IH]; intros i [e r].
  { cbn. by rewrite Z.add_0_r. }
  cbn [add_percents Nat.add]. destruct (_ && _).
  - destruct (at_ _ i) as [x| |]; cbn; [|done..]. rewrite IH.
    by replace (i + 1 + Z.of_nat n) with (i + Z.of_nat (S n)) by lia.
  - destruct (ttf_elap w s ce i t) as [[ratio elap]| |]; cbn; [|done..].
    destruct (ratio <? 0); [done|]. rewrite IH.
    by replace (i + 1 + Z.of_nat n) with (i + Z.of_nat (S n)) by lia.
Qed.

(** The part of a percent at either end, if there is one. *)
Definition end_part w s ce t (q part : Z) (acc : Z * Z) : outcome (Z + Z * Z) :=
  if QNUM_FRAC2 q =? 0 then Ok (inr acc)
  else x ← add_part w s ce (qnum_toint q) t part acc; Ok (inr x).

Definition first_whole (q : Z) : Z := qnum_toint q + (if QNUM_FRAC2 q =? 0 then 0 else 1).

Lemma frac_range q : 0 <= QNUM_FRAC2 q <= 100.
Proof. unfold QNUM_FRAC2. pose proof (Z.mod_pos_bound (Z.shiftr (Z.shiftl (Z.land q (Z.ones 24)) 8 * 100) 32) 100). lia. Qed.

Lemma adds_none : adds (λ acc, Ok (inr acc)) percent_max 0 0.
Proof.
  unfold adds, percent_max. split; [lia|]. split; [lia|]. intros. do 3 f_equal; lia.
Qed.

Lemma adds_none_eq d m : adds (λ acc, Ok (inr acc)) percent_max d m → d = 0 ∧ m = 0.
Proof.
  intros (Hd & Hm & Hf). specialize (Hf 0 0). unfold percent_max in Hf.
  specialize (Hf ltac:(lia) ltac:(lia) ltac:(lia)). injection Hf as ? ?. lia.
Qed.

Lemma adds_app w s ce t n n' i d m d' m' :
  adds (add_percents w s ce t n i) (Z.of_nat n * percent_max) d m →
  adds (add_percents w s ce t n' (i + Z.of_nat n)) (Z.of_nat n' * percent_max) d' m' →
  adds (add_percents w s ce t (n + n') i) (Z.of_nat (n + n') * percent_max) (d + d') (Z.max m m').
Proof.
  unfold percent_max. intros (Hd & Hm & Hf) (Hd' & Hm' & Hf'). unfold adds.
  split; [lia|]. split; [lia|]. intros e r He Hmax Hr.
  rewrite add_percents_app, Hf by lia. cbn [mbind outcome_bind]. rewrite Hf' by lia.
  do 3 f_equal; lia.
Qed.

Section Additive.
Context (w : world) (s : batt_ttf_stats) (ce : gbms_charging_event) (t : Z).
Context (Hstats : times_ok s.(soc_stats)) (Href : times_ok s.(soc_ref)) (Hce : times_ok ce.(ce_soc_stats)).

Lemma end_part_adds q part acc acc' :
  0 <= part <= 100 → end_part w s ce t q part acc = Ok acc' →
  ∃ d m, adds (end_part w s ce t q part) percent_max d m.
Proof.
  intros Hp. unfold end_part. destruct (QNUM_FRAC2 q =? 0).
  { intros _. exists 0, 0. apply adds_none. }
  intros (x & Hx & _)%outcome_bind_Ok. by eapply add_part_adds.
Qed.

(** What the estimate from [a] to [b] is made of. *)
Record parts (a b dh mh dp mp dt mt : Z) : Prop := {
  parts_head : adds (end_part w s ce t a (100 - QNUM_FRAC2 a)) percent_max dh mh;
  parts_middle : let n := Z.to_nat (qnum_toint b - first_whole a) in
    adds (add_percents w s ce t n (first_whole a)) (Z.of_nat n * percent_max) dp mp;
  parts_tail : adds (end_part w s ce t b (QNUM_FRAC2 b)) percent_max dt mt
}.

Lemma toint_le a b : a <= b → qnum_toint a <= qnum_toint b.
Proof. unfold qnum_toint. rewrite !Z.shiftr_div_pow2 by lia. intros. apply Z.div_le_mono; lia. Qed.

Lemma percents_few a b :
  0 <= a → b <= qnum_rconst_100 → Z.of_nat (Z.to_nat (qnum_toint b - first_whole a)) <= 100.
Proof.
  intros Ha Hb%toint_le. change (qnum_toint qnum_rconst_100) with 100 in Hb.
  apply (toint_le 0) in Ha. change (qnum_toint 0) with 0 in Ha.
  unfold first_whole. destruct (_ =? 0); lia.
Qed.

Lemma estimate_expand a b :
  a < b → b <= qnum_rconst_100 →
  ttf_soc_estimate w s ce a b t =
  (acc ← end_part w s ce t a (100 - QNUM_FRAC2 a) (0, 0);
   match acc with
   | inl ratio => Ok (ratio, None)
   | inr acc =>
     r ← add_percents w s ce t (Z.to_nat (qnum_toint b - first_whole a)) (first_whole a) acc;
     match r with
     | inl ratio => Ok (ratio, None)
     | inr acc =>
         r ← end_part w s ce t b (QNUM_FRAC2 b) acc;
         match r with
         | inl ratio => Ok (ratio, None)
         | inr (estimate, max_ratio) => Ok (max_ratio, Some (Z.quot estimate 100))
         end
     end
   end).
Proof.
  intros Hlt Hb. unfold ttf_soc_estimate.
  rewrite (proj2 (Z.ltb_ge qnum_rconst_100 b)), (proj2 (Z.ltb_ge b a)) by lia.
  rewrite (proj2 (Z.eqb_neq b a)) by lia. cbn [orb]. unfold end_part, first_whole.
  destruct (QNUM_FRAC2 a =? 0); cbn [mbind outcome_bind].
  - destruct (add_percents _ _ _ _ _ _ _) as [[ratio|acc]| |]; cbn; [done| |done..].
    destruct (QNUM_FRAC2 b =? 0); cbn; [by destruct acc|].
    by destruct (add_part _ _ _ _ _ _ acc) as [[]| |].
  - destruct (add_part _ _ _ _ _ _ (0, 0)) as [x| |]; cbn; [|done..].
    destruct (add_percents _ _ _ _ _ _ _) as [[ratio|acc]| |]; cbn; [done| |done..].
    destruct (QNUM_FRAC2 b =? 0); cbn; [by destruct acc|].
    by destruct (add_part _ _ _ _ _ _ acc) as [[]| |].
Qed.

Lemma parts_estimate a b dh mh dp mp dt mt :
  0 <= a < b → b <= qnum_rconst_100 → parts a b dh mh dp mp dt mt →
  ttf_soc_estimate w s ce a b t =
    Ok (Z.max mh (Z.max mp mt), Some ((dh + dp + dt) / 100)).
Proof.
  intros Hab Hb [(Hdh & Hmh & Hh) (Hdp & Hmp & Hp) (Hdt & Hmt & Ht)].
  rewrite estimate_expand by lia. pose proof (percents_few a b ltac:(lia) Hb).
  unfold percent_max in *. rewrite Hh by lia. cbn [mbind outcome_bind].
  rewrite Hp by lia. cbn [mbind outcome_bind]. rewrite Ht by lia. cbn [mbind outcome_bind].
  rewrite quot_100, Z.add_0_l by lia. do 2 f_equal. lia.
Qed.

Lemma estimate_parts a b r e :
  0 <= a < b → ttf_soc_estimate w s ce a b t = Ok (r, Some e) →
  b <= qnum_rconst_100 ∧ ∃ dh mh dp mp dt mt, parts a b dh mh dp mp dt mt ∧
    r = Z.max mh (Z.max mp mt) ∧ e = (dh + dp + dt) / 100.
Proof.
  intros Hab H. destruct (Z.ltb_spec qnum_rconst_100 b) as [Hb|Hb].
  { unfold ttf_soc_estimate in H. by rewrite (proj2 (Z.ltb_lt _ _) Hb) in H. }
  split; [done|]. pose proof H as E. rewrite estimate_expand in H by lia.
  apply outcome_bind_Ok in H as (acc & Hh & H). destruct acc as [|acc]; [done|].
  apply outcome_bind_Ok in H as (acc1 & Hp & H). destruct acc1 as [|acc1]; [done|].
  apply outcome_bind_Ok in H as (acc2 & Ht & _).
  pose proof (frac_range a). pose proof (frac_range b).
  apply end_part_adds in Hh as (dh & mh & Hh'); [|lia].
  destruct (add_percents_adds _ _ _ _ _ _ _ _ Hstats Href Hce Hp) as (dp & mp & Hp').
  apply end_part_adds in Ht as (dt & mt & Ht'); [|lia].
  assert (parts a b dh mh dp mp dt mt) as Hparts by done.
  exists dh, mh, dp, mp, dt, mt. split; [done|].
  rewrite (parts_estimate a b _ _ _ _ _ _ Hab Hb Hparts) in E. by injection E as <- <-.
Qed.
Lemma parts_bounds a b dh mh dp mp dt mt :
  0 <= a → b <= qnum_rconst_100 → parts a b dh mh dp mp dt mt →
  (0 <= dh ∧ 0 <= dp ∧ 0 <= dt) ∧ 0 <= mh ∧ 0 <= mp ∧ 0 <= mt.
Proof. intros Ha Hb [(? & ? & _) (? & ? & _) (? & ? & _)]. lia. Qed.

Lemma whole_frac k : QNUM_FRAC2 (k * 2 ^ 24) = 0.
Proof.
  unfold QNUM_FRAC2. rewrite Z.land_ones, Z.mod_mul by lia. done.
Qed.

Lemma whole_toint k : qnum_toint (k * 2 ^ 24) = k.
Proof. unfold qnum_toint. by rewrite Z.shiftr_div_pow2, Z.div_mul by lia. Qed.

Lemma first_whole_le a k : 0 <= a → a < k * 2 ^ 24 → first_whole a <= k.
Proof.
  intros Ha Hlt. unfold first_whole, qnum_toint. rewrite Z.shiftr_div_pow2 by lia.
  assert (a / 2 ^ 24 < k) by (apply Z.div_lt_upper_bound; lia). destruct (_ =? 0); lia.
Qed.

(** The parts up to a whole percent and the parts from there are the parts of both. *)
Lemma parts_app a k c dh mh dp mp dt mt dh' mh' dp' mp' dt' mt' :
  0 <= a < k * 2 ^ 24 → k * 2 ^ 24 < c → c <= qnum_rconst_100 →
  parts a (k * 2 ^ 24) dh mh dp mp dt mt → parts (k * 2 ^ 24) c dh' mh' dp' mp' dt' mt' →
  parts a c dh mh (dp + dp') (Z.max mp mp') dt' mt' ∧ dt = 0 ∧ mt = 0 ∧ dh' = 0 ∧ mh' = 0.
Proof.
  intros Ha Hc Hc' [Hh Hp Ht] [Hh' Hp' Ht'].
  unfold end_part in Ht, Hh'. rewrite whole_frac in Ht, Hh'. cbn in Ht, Hh'.
  apply adds_none_eq in Ht as [-> ->]. apply adds_none_eq in Hh' as [-> ->].
  split; [|done]. split; [exact Hh| |exact Ht'].
  pose proof (first_whole_le a k ltac:(lia) ltac:(lia)) as Hk.
  pose proof (toint_le (k * 2 ^ 24) c ltac:(lia)) as Hkc. rewrite whole_toint in Hkc.
  assert (first_whole (k * 2 ^ 24) = k) as Hw.
  { unfold first_whole. rewrite whole_frac, whole_toint. cbn. lia. }
  rewrite Hw in Hp'. rewrite whole_toint in Hp.
  replace (Z.to_nat (qnum_toint c - first_whole a))
    with (Z.to_nat (k - first_whole a) + Z.to_nat (qnum_toint c - k))%nat by lia.
  apply adds_app; [done|]. by replace (first_whole a + Z.of_nat _) with k by lia.
Qed.

Lemma estimate_same a r e : ttf_soc_estimate w s ce a a t = Ok (r, Some e) → r = 0 ∧ e = 0.
Proof.
  unfold ttf_soc_estimate. destruct (_ || _); [done|]. rewrite Z.eqb_refl. by intros [= <- <-].
Qed.
End Additive.

(** C21. The estimate from [a] to [c] is the sum of those from [a] to a whole percent in
    between and from there to [c], to the second that a division drops; its ratio is the
    higher of theirs.  Nothing wraps, when no percent takes above a million seconds. *)
Theorem ttf_estimate_additive w s ce t a k c r r' e e' :
  times_ok (soc_stats s) → times_ok (soc_ref s) → times_ok (ce_soc_stats ce) →
  0 <= a → a <= k * 2 ^ 24 <= c →
  ttf_soc_estimate w s ce a (k * 2 ^ 24) t = Ok (r, Some e) →
  ttf_soc_estimate w s ce (k * 2 ^ 24) c t = Ok (r', Some e') →
  ∃ e'', ttf_soc_estimate w s ce a c t = Ok (Z.max r r', Some e'') ∧ e + e' <= e'' <= e + e' + 1.
Proof.
  intros H1 H2 H3 Ha Hk E E'.
  destruct (decide (a = k * 2 ^ 24)) as [->|Hak], (decide (k * 2 ^ 24 = c)) as [<-|Hkc].
  - apply estimate_same in E as E0. destruct E0 as [-> ->].
    apply estimate_same in E' as E0. destruct E0 as [-> ->]. exists 0. split; [done|lia].
  - apply estimate_same in E as [-> ->]. exists e'. rewrite E'.
    apply estimate_parts in E' as (Hb & ? & ? & ? & ? & ? & ? & Hparts & -> & ->); [|done..|lia].
    apply parts_bounds in Hparts; [|lia..]. rewrite (Z.max_r 0) by lia. split; [done|lia].
  - apply estimate_same in E' as [-> ->]. exists e. rewrite E.
    apply estimate_parts in E as (Hb & ? & ? & ? & ? & ? & ? & Hparts & -> & ->); [|done..|lia].
    apply parts_bounds in Hparts; [|lia..]. rewrite (Z.max_l _ 0) by lia. split; [done|lia].
  - apply estimate_parts in E as (Hb & dh & mh & dp & mp & dt & mt & HP & -> & ->); [|done..|lia].
    apply estimate_parts in E' as (Hb' & dh' & mh' & dp' & mp' & dt' & mt' & HP' & -> & ->);
      [|done..|lia].
    destruct (parts_app w s ce t a k c dh mh dp mp dt mt dh' mh' dp' mp' dt' mt'
      ltac:(lia) ltac:(lia) Hb' HP HP') as (HP'' & -> & -> & -> & ->).
    assert (0 <= a < c) as Hac by lia. rewrite (parts_estimate _ _ _ _ _ _ _ _ _ _ _ _ Hac Hb' HP'').
    apply parts_bounds in HP; [|lia..]. apply parts_bounds in HP'; [|lia..].
    eexists. refine (conj (f_equal Ok (f_equal2 pair _ eq_refl)) _); [lia|].
    pose proof (Z.div_mod (dh + dp + 0) 100). pose proof (Z.mod_pos_bound (dh + dp + 0) 100).
    pose proof (Z.div_mod (0 + dp' + dt') 100). pose proof (Z.mod_pos_bound (0 + dp' + dt') 100).
    pose proof (Z.div_mod (dh + (dp + dp') + dt') 100).
    pose proof (Z.mod_pos_bound (dh + (dp + dp') + dt') 100). lia.
Qed.

Lemma frac_eq q : QNUM_FRAC2 q = q mod 2 ^ 24 * 100 / 2 ^ 24.
Proof.
  unfold QNUM_FRAC2. rewrite Z.land_ones, Z.shiftl_mul_pow2, Z.shiftr_div_pow2 by lia.
  pose proof (Z.mod_pos_bound q (2 ^ 24) ltac:(lia)) as Hm.
  replace (q mod 2 ^ 24 * 2 ^ 8 * 100) with (q mod 2 ^ 24 * 100 * 2 ^ 8) by lia.
  change (2 ^ 32) with (2 ^ 24 * 2 ^ 8). rewrite Z.div_mul_cancel_r by lia.
  apply Z.mod_small. split; [apply Z.div_pos; lia|]. apply Z.div_lt_upper_bound; lia.
Qed.

Lemma frac_le a c : qnum_toint a = qnum_toint c → a <= c → QNUM_FRAC2 a <= QNUM_FRAC2 c.
Proof.
  unfold qnum_toint. rewrite !Z.shiftr_div_pow2, !frac_eq by lia. intros Hq Hle.
  apply Z.div_le_mono; [lia|].
  pose proof (Z.div_mod a (2 ^ 24)). pose proof (Z.div_mod c (2 ^ 24)). lia.
Qed.

(** Two parts that are a whole or more. *)
Lemma two_parts elap fa fc :
  0 <= elap → fa <= fc → elap / 100 - 1 <= (elap * (100 - fa) / 100 + elap * fc / 100) / 100.
Proof.
  intros He Hf.
  pose proof (Z.div_mod (elap * (100 - fa)) 100). pose proof (Z.mod_pos_bound (elap * (100 - fa)) 100).
  pose proof (Z.div_mod (elap * fc) 100). pose proof (Z.mod_pos_bound (elap * fc) 100).
  pose proof (Z.div_mod elap 100). pose proof (Z.mod_pos_bound elap 100).
  apply Z.div_le_lower_bound; [lia|]. nia.
Qed.

(** Between two charges of the same percent, each with a fraction, the estimate is
    the rest of that percent after the first and the part of it before the second: at
    least about the time of a whole percent, however near they are. *)
Theorem ttf_estimate_within_percent w s ce t p a c ratio elap :
  times_ok (soc_stats s) → times_ok (soc_ref s) →
  0 <= a < c → c <= qnum_rconst_100 → qnum_toint a = p → qnum_toint c = p →
  QNUM_FRAC2 a ≠ 0 → QNUM_FRAC2 c ≠ 0 → ttf_elap w s ce p t = Ok (ratio, elap) → 0 <= ratio →
  ∃ e, ttf_soc_estimate w s ce a c t = Ok (ratio, Some e) ∧
    e = (elap * (100 - QNUM_FRAC2 a) / 100 + elap * QNUM_FRAC2 c / 100) / 100 ∧
    elap / 100 - 1 <= e.
Proof.
  intros H1 H2 Ha Hc Hpa Hpc Hfa Hfc He Hr.
  pose proof (elap_range _ _ _ _ _ _ _ H1 H2 He) as Hrange.
  pose proof (frac_range a). pose proof (frac_range c).
  assert (QNUM_FRAC2 a <= QNUM_FRAC2 c) as Hle.
  { apply frac_le; [congruence|lia]. }
  eexists. split; [|split; [reflexivity|]].
  - rewrite estimate_expand by lia. unfold end_part, first_whole.
    rewrite (proj2 (Z.eqb_neq _ _) Hfa), (proj2 (Z.eqb_neq _ _) Hfc), Hpa, Hpc.
    replace (Z.to_nat (p - (p + 1))) with 0%nat by lia.
    edestruct (add_part_eq w s ce p t (100 - QNUM_FRAC2 a)) as [-> Hd];
      [exact He|exact Hrange|lia|lia|by vm_compute|].
    cbn [mbind outcome_bind add_percents] in *. rewrite (proj2 (Z.leb_le 0 ratio)) in * by lia.
    edestruct (add_part_eq w s ce p t (QNUM_FRAC2 c)) as [-> Hd'];
      [exact He|exact Hrange|lia|lia|unfold percent_max in *; lia|].
    rewrite (proj2 (Z.leb_le 0 ratio)) in * by lia. cbn [mbind outcome_bind].
    rewrite quot_100, Z.add_0_l by lia. do 2 f_equal. lia.
  - apply two_parts; lia.
Qed.

(** ** The reference *)

(** The first entry that is not below [i]. *)
Fixpoint first_at (l : list Z) (i : Z) : Z :=
  match l with
  | [] => 0
  | x :: l => if i <=? x then 0 else 1 + first_at l i
  end.

Lemma get_cons x l k : 0 < k → get (x :: l) k = get l (k - 1).
Proof. intros Hk. unfold get. by replace (Z.to_nat k) with (S (Z.to_nat (k - 1))) by lia. Qed.

Lemma first_at_char l i j :
  0 <= j <= Z.of_nat (length l) → (∀ k, 0 <= k < j → get l k < i) →
  (j < Z.of_nat (length l) → i <= get l j) → first_at l i = j.
Proof.
  revert j. induction l as [|x l IH]; intros j Hj Hlt Hge; cbn [first_at length] in *; [lia|].
  destruct (Z.leb_spec i x) as [Hx|Hx].
  - destruct (Z.eqb_spec j 0) as [->|]; [done|]. specialize (Hlt 0 ltac:(lia)).
    change (get (x :: l) 0) with x in Hlt. lia.
  - assert (j ≠ 0) by (intros ->; specialize (Hge ltac:(lia)); change (get (x :: l) 0) with x in Hge; lia).
    rewrite (IH (j - 1)); [lia|lia| |].
    + intros k Hk. specialize (Hlt (k + 1) ltac:(lia)). rewrite get_cons in Hlt by lia.
      by replace (k + 1 - 1) with k in Hlt by lia.
    + intros Hin. rewrite <- (get_cons x) by lia. apply Hge. lia.
Qed.

Lemma first_at_spec l i :
  0 <= first_at l i <= Z.of_nat (length l) ∧ (∀ k, 0 <= k < first_at l i → get l k < i) ∧
  (first_at l i < Z.of_nat (length l) → i <= get l (first_at l i)).
Proof.
  induction l as [|x l (H1 & H2 & H3)]; cbn [first_at length];
    [split; [done|]; split; [intros; lia|done]|].
  destruct (Z.leb_spec i x) as [Hx|Hx]; (split; [lia|]; split).
  - intros k Hk. lia.
  - intros _. exact Hx.
  - intros k Hk. destruct (decide (k = 0)) as [->|]; [exact Hx|]. rewrite get_cons by lia. apply H2. lia.
  - intros H. rewrite get_cons by lia. replace (1 + first_at l i - 1) with (first_at l i) by lia.
    apply H3. lia.
Qed.

Lemma first_at_none l i : Forall (λ x, x < i) l → first_at l i = Z.of_nat (length l).
Proof. induction 1 as [|x l Hx _ IH]; cbn; [done|]. case_bool; lia. Qed.

Section Reference.
Context (soc_table elap_table : list Z).
Context (Hsoc : Forall (λ v, 0 <= v < 2 ^ 32) soc_table).
Context (Hlen : length elap_table = length soc_table) (Hne : 0 < Z.of_nat (length soc_table)).

Lemma get_soc k : 0 <= k < Z.of_nat (length soc_table) → 0 <= get soc_table k < 2 ^ 32.
Proof.
  intros Hk. unfold get. destruct (lookup_lt_is_Some_2 soc_table (Z.to_nat k)) as [x Hx]; [lia|].
  rewrite Hx. exact (Forall_lookup_1 _ _ _ _ Hsoc Hx).
Qed.

Lemma as_default_first fuel i ti :
  0 <= i <= 100 → 0 <= ti <= Z.of_nat (length soc_table) → (∀ k, 0 <= k < ti → get soc_table k < i) →
  (Z.to_nat (Z.of_nat (length soc_table) - ti) < fuel)%nat →
  ttf_as_default fuel soc_table elap_table (Z.of_nat (length soc_table)) i ti =
    Ok (first_at soc_table i).
Proof.
  intros Hi. revert ti. induction fuel as [|fuel IH]; intros ti Hti Hlt Hf; [lia|].
  cbn [ttf_as_default]. rewrite at_get by (rewrite length_app; lia). cbn [mbind outcome_bind].
  destruct (Z.ltb_spec ti (Z.of_nat (length soc_table))) as [Hin|Hin].
  - rewrite andb_true_r.
    replace (get (soc_table ++ elap_table) ti) with (get soc_table ti)
      by (unfold get; by rewrite lookup_app_l by lia).
    pose proof (get_soc ti ltac:(lia)). rewrite !u32_small by lia.
    destruct (Z.ltb_spec (get soc_table ti) i).
    + apply IH; [lia| |lia]. intros k Hk. destruct (decide (k = ti)) as [->|]; [lia|apply Hlt; lia].
    + by rewrite (first_at_char soc_table i ti).
  - rewrite andb_false_r. rewrite (first_at_char soc_table i ti); [done|lia|done|lia].
Qed.

Lemma reference_step n cc i ti :
  0 <= i <= 100 → 0 <= ti <= Z.of_nat (length soc_table) → (∀ k, 0 <= k < ti → get soc_table k < i) →
  reference (S n) soc_table elap_table (Z.of_nat (length soc_table)) cc i ti =
  (e ← at_ elap_table (first_at soc_table i);
   '(ccs, elaps) ← reference n soc_table elap_table (Z.of_nat (length soc_table)) cc (i + 1)
                     (first_at soc_table i);
   Ok (Z.quot (s32 (cc * i)) 100 :: ccs, e :: elaps)).
Proof. intros. cbn [reference]. rewrite as_default_first by (done || lia). done. Qed.

Lemma below_next i k : 0 <= k < first_at soc_table i → get soc_table k < i + 1.
Proof. intros Hk. pose proof (proj1 (proj2 (first_at_spec soc_table i)) k Hk). lia. Qed.

Lemma reference_eq n cc i ti :
  Exists (λ v, 100 <= v) soc_table →
  0 <= i → i + Z.of_nat n <= 101 → 0 <= ti <= Z.of_nat (length soc_table) →
  (∀ k, 0 <= k < ti → get soc_table k < i) →
  reference n soc_table elap_table (Z.of_nat (length soc_table)) cc i ti =
    Ok ((λ j, Z.quot (s32 (cc * j)) 100) <$> seqZ i (Z.of_nat n),
        (λ j, get elap_table (first_at soc_table j)) <$> seqZ i (Z.of_nat n)).
Proof.
  intros Hex. revert i ti. induction n as [|n IH]; intros i ti Hi Hn Hti Hlt; [done|].
  pose proof (first_at_spec soc_table i) as (Hr & Hb & _).
  assert (first_at soc_table i < Z.of_nat (length soc_table)) as Hin.
  { apply Exists_exists in Hex as (x & (j & Hj)%list_elem_of_lookup & Hx).
    apply Z.nle_gt. intros Hge. specialize (Hb (Z.of_nat j)). unfold get in Hb.
    rewrite Nat2Z.id, Hj in Hb. apply lookup_lt_Some in Hj. cbn in Hb. lia. }
  rewrite reference_step by (done || lia). rewrite at_get by lia. cbn [mbind outcome_bind].
  rewrite (IH (i + 1)); [|lia|lia|lia|apply below_next]. cbn [mbind outcome_bind].
  rewrite (seqZ_cons i (Z.of_nat (S n))) by lia.
  by replace (Z.pred (Z.of_nat (S n))) with (Z.of_nat n) by lia.
Qed.

Lemma reference_undef n cc i ti :
  Forall (λ v, v < 100) soc_table → 0 <= i → i + Z.of_nat (S n) = 101 →
  0 <= ti <= Z.of_nat (length soc_table) → (∀ k, 0 <= k < ti → get soc_table k < i) →
  reference (S n) soc_table elap_table (Z.of_nat (length soc_table)) cc i ti = Undef.
Proof.
  intros Hall. revert i ti. induction n as [|n IH]; intros i ti Hi Hn Hti Hlt;
    rewrite reference_step by (done || lia); pose proof (first_at_spec soc_table i) as (Hr & _ & _).
  - assert (i = 100) as -> by lia. rewrite first_at_none by done.
    unfold at_. rewrite (proj2 (Z.ltb_ge _ _)), Nat2Z.id, <- Hlen by lia.
    by rewrite lookup_ge_None_2 by lia.
  - destruct (at_ _ _) as [e| |] eqn:E; cbn [mbind outcome_bind]; [|by destruct (at_blocked _ _ E)|done].
    rewrite (IH (i + 1)); [done|lia|lia|lia|apply below_next].
Qed.
End Reference.

Section Reference_dt.
Context `{env : gbms_env} `{!gbms_env_ok env}.
Context (node capacity_ma : Z) (s : batt_ttf_stats).

(** Both tables are there, of one even length. *)
Record tables (soc_table elap_table : list Z) (ret ret' : Z) : Prop := {
  tables_count : 0 < dt_count node "google,ttf-soc-table";
  tables_even : Z.rem (dt_count node "google,ttf-soc-table") 2 = 0;
  tables_soc : dt_array node "google,ttf-soc-table" (dt_count node "google,ttf-soc-table") =
               (ret, soc_table);
  tables_elap : dt_array node "google,ttf-elap-table" (dt_count node "google,ttf-soc-table") =
                (ret', elap_table);
  tables_ret : 0 <= ret ∧ 0 <= ret'
}.

Lemma soc_parse_dt_reference soc_table elap_table ret ret' :
  tables soc_table elap_table ret ret' →
  Forall (λ v, 0 <= v < 2 ^ 32) soc_table ∧ length elap_table = length soc_table ∧
  0 < Z.of_nat (length soc_table) ∧
  ttf_init_soc_parse_dt true s node capacity_ma =
    ('(ccs, elaps) ← reference 101 soc_table elap_table (Z.of_nat (length soc_table))
                       (Z.quot (s32 (capacity_ma * 100)) 101) 0 0;
     Ok (0, BattTtfStats (TtfSocStats ccs elaps) s.(ref_temp_idx) s.(ref_watts)
              s.(soc_stats) s.(ttf_tier_stats) s.(report_max_ratio) s.(fcc_now))).
Proof.
  intros [Hc He Hs Hl [Hr Hr']].
  pose proof (dt_array_length node "google,ttf-soc-table" (dt_count node "google,ttf-soc-table")) as L.
  pose proof (dt_array_length node "google,ttf-elap-table" (dt_count node "google,ttf-soc-table")) as L'.
  pose proof (dt_array_range node "google,ttf-soc-table" (dt_count node "google,ttf-soc-table")) as R.
  rewrite Hs in L, R. rewrite Hl in L'. cbn in L, L', R.
  specialize (L Hr ltac:(lia)). specialize (L' Hr' ltac:(lia)).
  split; [done|]. split; [lia|]. split; [lia|].
  unfold ttf_init_soc_parse_dt. rewrite Hs, Hl, He. cbn [Z.eqb negb].
  rewrite (proj2 (Z.leb_gt _ _)), !(proj2 (Z.ltb_ge _ _)), <- L by lia. done.
Qed.

(** The reference is what the tables say, for every percent: the time at the first
    entry that is not below it, and a hundredth of the same current at each. *)
Theorem ttf_reference_lookup soc_table elap_table ret ret' :
  tables soc_table elap_table ret ret' → Exists (λ v, 100 <= v) soc_table →
  ttf_init_soc_parse_dt true s node capacity_ma =
    Ok (0, BattTtfStats
             (TtfSocStats
                ((λ i, Z.quot (s32 (Z.quot (s32 (capacity_ma * 100)) 101 * i)) 100) <$> seqZ 0 101)
                ((λ i, get elap_table (first_at soc_table i)) <$> seqZ 0 101))
             s.(ref_temp_idx) s.(ref_watts) s.(soc_stats) s.(ttf_tier_stats)
             s.(report_max_ratio) s.(fcc_now)).
Proof.
  intros (Hr & Hl & Hne & ->)%soc_parse_dt_reference Hex.
  rewrite reference_eq; [done|done..|lia|lia|lia|intros; lia].
Qed.

(** A table that ends before a hundred percent has the reference read outside
    of the memory of the tables. *)
Theorem ttf_reference_short soc_table elap_table ret ret' :
  tables soc_table elap_table ret ret' → Forall (λ v, v < 100) soc_table →
  ttf_init_soc_parse_dt true s node capacity_ma = Undef.
Proof.
  intros (Hr & Hl & Hne & ->)%soc_parse_dt_reference Hall.
  rewrite (reference_undef _ _ Hr Hl Hne 100); [done|done|lia|lia|lia|intros; lia].
Qed.
End Reference_dt.

(** ** Tiers *)

(** Where every tier has data, the estimate by tiers is that of the two others in
    the first tier, reads outside of the array in the second, where it should be that
    of the third, and is zero in the third. *)
Theorem ttf_tier_estimate_overruns s temp_idx t0 t1 t2 :
  ttf_tier_stats s = [t0; t1; t2] → Forall (λ t, BATT_TTF_TS_VALID t = true) [t0; t1; t2] →
  0 <= avg_time t1 < 2 ^ 62 → 0 <= avg_time t2 < 2 ^ 62 →
  ttf_tier_estimate s temp_idx 0 = Ok (0, Some (avg_time t1 + avg_time t2)) ∧
  ttf_tier_estimate s temp_idx 1 = Undef ∧
  ttf_tier_estimate s temp_idx 2 = Ok (0, Some 0).
Proof.
  intros Hl [H0 [H1 [H2 _]%Forall_cons]%Forall_cons]%Forall_cons Ht1 Ht2.
  unfold ttf_tier_estimate, ttf_tier_accumulate. rewrite Hl.
  change (Z.to_nat (GBMS_STATS_TIER_COUNT - (0 + 1))) with 2%nat.
  change (Z.to_nat (GBMS_STATS_TIER_COUNT - (1 + 1))) with 1%nat.
  change (GBMS_STATS_TIER_COUNT <=? 0 + 1) with false.
  change (GBMS_STATS_TIER_COUNT <=? 1 + 1) with false.
  change (GBMS_STATS_TIER_COUNT <=? 2 + 1) with true. cbn [accumulate Z.eqb andb].
  change (tier_at [t0; t1; t2] 0) with (Ok t0). change (tier_at [t0; t1; t2] 1) with (Ok t1).
  change (tier_at [t0; t1; t2] 2) with (Ok t2).
  change (tier_at [t0; t1; t2] (0 + (0 + 1))) with (Ok t1).
  change (tier_at [t0; t1; t2] (0 + (0 + 1 + 1))) with (Ok t2).
  change (tier_at [t0; t1; t2] (1 + (1 + 1))) with (@Undef ttf_tier_stat).
  cbn [mbind outcome_bind]. rewrite H0, H1, H2. cbn [negb mbind outcome_bind].
  rewrite Z.add_0_l, !s64_small by (try rewrite s64_small; lia).
  rewrite (proj2 (Z.ltb_ge _ _)) by lia. done.
Qed.

(** ** Witnesses: an adapter of 9 V and 3 A, a battery of 4000 mAh *)

Module Ttf_demo.

Definition profile : chg_profile := Demo.profile.

Definition w : world :=
  World (<[4096 := [3000000; 3000000; 1000000; 2000000; 1500000; 800000; 1000000; 1000000; 500000]]> ∅) [].

(** 4000 mAh by percent, and what a charge from 20 to 40 percent counted. *)
Definition cc_by (f : Z → Z) : list Z := f <$> seqZ 0 101.

Definition stats : batt_ttf_stats :=
  BattTtfStats (TtfSocStats (cc_by (λ i, 3960 * i / 100)) (replicate 101 60)) 1 27
    no_soc_stats
    [TtfTierStat 0 0 100 900; TtfTierStat (40 * 256) 1600 1200 1800;
     TtfTierStat (80 * 256) 3200 800 2400] 300 0.

Definition tier (soc cc fast : Z) : tier_stats :=
  TierStats 1 0 (soc * 256) cc 400 fast 20 5 250 250 260 (-1900) (-1800) 2500 3000
    (fast * 3000) (fast * 250) (fast * (-1900)) 10 (replicate 21 0) (replicate 21 0).

Definition event : gbms_charging_event :=
  ChargingEvent 90 30 profile 20 40 [tier 20 800 1200; tier 40 1600 0; tier 40 1600 0]
    (TtfSocStats (cc_by (λ i, if (i <? 20) || (40 <? i) then 0 else 41 * i))
       (cc_by (λ i, if (i <? 20) || (40 <? i) then 0 else 55 + i)))
    40 (BattChgHealth (-1) (-1) 0 0 0) (tier 20 800 0).

End Ttf_demo.

Lemma demo_event_ok : event_ok Ttf_demo.w Ttf_demo.event.
Proof.
  split.
  - exact demo_tiers_wf.
  - eexists. split; [reflexivity|repeat constructor; lia|by vm_compute|by vm_compute].
  - intros i Hi. change (volt_nb _) with 3 in Hi.
    assert (i = 0 ∨ i = 1 ∨ i = 2) as [->|[->| ->]] by lia; by vm_compute.
  - done.
  - cbn [health_stats ce_tier_stats Ttf_demo.event].
    repeat (apply Forall_cons; split; [split; [right|]; by vm_compute|]). by apply Forall_nil.
  - done.
  - done.
Qed.

Lemma demo_lens : lens (soc_ref Ttf_demo.stats).
Proof. done. Qed.

Lemma demo_by_percent (P : Z → bool) i :
  forallb P (seqZ 0 101) = true → 0 <= i <= 100 → P i = true.
Proof.
  intros H Hi. rewrite forallb_forall in H. apply H, list_elem_of_In, elem_of_seqZ. lia.
Qed.

Lemma demo_ref_ok : ref_ok (soc_ref Ttf_demo.stats).
Proof.
  intros i Hi. set (r := soc_ref Ttf_demo.stats).
  pose proof (demo_by_percent (λ i, (0 <=? get r.(s_elap) i) && (get r.(s_elap) i <? 2 ^ 30)
    && (0 <=? get r.(s_cc) i) && (get r.(s_cc) i <? 2 ^ 24)) i ltac:(by vm_compute) Hi) as H.
  cbn beta in H. lia.
Qed.

Lemma times_ok_check r :
  forallb (λ v, (0 <=? v) && (v <=? 1000000)) r.(s_elap) = true → times_ok r.
Proof.
  intros H i. unfold get. destruct (_ !! _) as [v|] eqn:E; cbn; [|lia].
  rewrite forallb_forall in H. apply list_elem_of_lookup_2, list_elem_of_In, H in E. lia.
Qed.

(** Two charges from 20 to 40 percent: 61 seconds are learned for the percent 26. *)
Lemma ttf_learned_near_reference_witness :
  let l := [(Ttf_demo.w, Ttf_demo.event, false); (Ttf_demo.w, Ttf_demo.event, true)] in
  ∃ s', updates l Ttf_demo.stats = Ok s' ∧ soc_ref s' = soc_ref Ttf_demo.stats ∧ cc99_in_ref s' ∧
    (∀ i, 0 <= i <= 100 → elap_in s' i ∧ (i ≠ 99 → cc_in_ref s' i)) ∧
    get (s_elap (soc_stats s')) 26 = 61.
Proof.
  intros l.
  destruct (ttf_learned_near_reference l Ttf_demo.stats) as (s' & Hu & Hr & H99 & Hi);
    [done|exact demo_lens|exact demo_ref_ok|done
    |repeat (apply Forall_cons; split; [exact demo_event_ok|]); by apply Forall_nil|].
  exists s'. refine (conj Hu (conj Hr (conj H99 (conj Hi _)))).
  vm_compute in Hu. by injection Hu as <-.
Defined.

Lemma ttf_estimate_additive_witness :
  ∃ e'', ttf_soc_estimate Ttf_demo.w Ttf_demo.stats Ttf_demo.event (10 * 2 ^ 24 + 2 ^ 23)
           (70 * 2 ^ 24 + 2 ^ 22) 0 = Ok (Z.max 128 128, Some e'') ∧
    3174 + 1540 <= e'' <= 3174 + 1540 + 1.
Proof.
  apply (ttf_estimate_additive Ttf_demo.w Ttf_demo.stats Ttf_demo.event 0 (10 * 2 ^ 24 + 2 ^ 23) 50);
    [by apply times_ok_check; vm_compute..|lia|lia|vm_compute; reflexivity|vm_compute; reflexivity].
Defined.

(** From 55.5 to 55.75 percent: 93 seconds, where the whole percent takes 75. *)
Lemma ttf_estimate_within_percent_witness :
  ∃ e, ttf_soc_estimate Ttf_demo.w Ttf_demo.stats Ttf_demo.event (55 * 2 ^ 24 + 2 ^ 23)
         (55 * 2 ^ 24 + 3 * 2 ^ 22) 0 = Ok (125, Some e) ∧
    e = (7500 * (100 - 50) / 100 + 7500 * 75 / 100) / 100 ∧ 7500 / 100 - 1 <= e.
Proof.
  apply (ttf_estimate_within_percent Ttf_demo.w Ttf_demo.stats Ttf_demo.event 0 55
    (55 * 2 ^ 24 + 2 ^ 23) (55 * 2 ^ 24 + 3 * 2 ^ 22) 125 7500);
    [by apply times_ok_check; vm_compute..|lia|by vm_compute|by vm_compute|by vm_compute
    |by vm_compute|by vm_compute|vm_compute; reflexivity|lia].
Defined.

Lemma ttf_tier_estimate_overruns_witness :
  ttf_tier_estimate Ttf_demo.stats 1 0 = Ok (0, Some (1800 + 2400)) ∧
  ttf_tier_estimate Ttf_demo.stats 1 1 = Undef ∧
  ttf_tier_estimate Ttf_demo.stats 1 2 = Ok (0, Some 0).
Proof.
  apply (ttf_tier_estimate_overruns Ttf_demo.stats 1 (TtfTierStat 0 0 100 900)
    (TtfTierStat (40 * 256) 1600 1200 1800) (TtfTierStat (80 * 256) 3200 800 2400));
    [done|by repeat constructor|cbn; lia|cbn; lia].
Defined.

(** A device tree with the times up to a percent and over. *)
Definition ttf_env (last : Z) : gbms_env := {|
  dt_count _ s := if String.eqb s "google,ttf-soc-table" then 2 else 0;
  dt_array _ s c :=
    (0, take (Z.to_nat c) ((if String.eqb s "google,ttf-soc-table" then [50; u32 last] else [40; 70])
                             ++ replicate (Z.to_nat c) 0));
  dt_u32 _ _ := (0, 0);
  dt_bool _ _ := false;
  dt_children _ := [];
  storage_brid _ := (0, 0)
|}.

Lemma ttf_env_ok last : gbms_env_ok (ttf_env last).
Proof.
  split; cbn [dt_array dt_u32 dt_count ttf_env fst snd].
  - intros _ s c _ Hc. rewrite length_take, length_app, length_replicate. lia.
  - intros _ s c. apply Forall_take, Forall_app. split; [|apply Forall_replicate; lia].
    destruct (String.eqb _ _); repeat constructor; try lia; apply u32_range.
  - intros _ _. cbn. lia.
  - intros _ s. destruct (String.eqb _ _); lia.
Qed.

Lemma ttf_env_tables last : @tables (ttf_env last) 1 [50; u32 last] [40; 70] 0 0.
Proof. by split. Qed.

Lemma ttf_reference_lookup_witness :
  ∃ ccs elaps, @ttf_init_soc_parse_dt (ttf_env 100) true Ttf_demo.stats 1 4000
    = Ok (0, BattTtfStats (TtfSocStats ccs elaps) 1 27 no_soc_stats Ttf_demo.stats.(ttf_tier_stats) 300 0) ∧
    get elaps 50 = 40 ∧ get elaps 51 = 70.
Proof.
  eexists _, _. split.
  - apply (@ttf_reference_lookup (ttf_env 100) (ttf_env_ok 100) 1 4000 Ttf_demo.stats
      [50; u32 100] [40; 70] 0 0 (ttf_env_tables 100)).
    right; left. by vm_compute.
  - by vm_compute.
Defined.

Lemma ttf_reference_short_witness :
  @ttf_init_soc_parse_dt (ttf_env 99) true Ttf_demo.stats 1 4000 = Undef.
Proof.
  apply (@ttf_reference_short (ttf_env 99) (ttf_env_ok 99) 1 4000 Ttf_demo.stats
    [50; u32 99] [40; 70] 0 0 (ttf_env_tables 99)).
  by repeat constructor.
Defined.
