(* ===== verification/LogbufferProps.v ===== *)
(** * Log buffers: what they keep

    The specification of a log buffer is the list of all the lines ever logged
    ([history]); what is read is the last of them. *)

From Stdlib Require Import Ascii String.
From S2P Require Import Prelude.
From S2P Require Import BmsText.
From S2P Require Import Logbuffer.

(** ** Text without NUL *)

Fixpoint upto_nul (l : list Z) : list Z :=
  match l with
  | [] => []
  | c :: l => if c =? 0 then [] else c :: upto_nul l
  end.

Lemma upto_nul_no l : 0 ∉ upto_nul l.
Proof.
  induction l as [|c l IH]; simpl; [apply not_elem_of_nil|].
  destruct (Z.eqb_spec c 0); [apply not_elem_of_nil|]. apply not_elem_of_cons. split; [lia|done].
Qed.

Lemma cstr_in l : 0 ∈ l → cstr l = Ok (upto_nul l).
Proof.
  induction l as [|c l IH]; intros H; [by apply elem_of_nil in H|]. simpl.
  destruct (Z.eqb_spec c 0); [done|]. apply elem_of_cons in H as [?|H]; [lia|].
  by rewrite IH.
Qed.

Lemma upto_nul_all l : 0 ∉ l → upto_nul l = l.
Proof.
  induction l as [|c l IH]; intros H; [done|]. apply not_elem_of_cons in H as [H1 H2]. simpl.
  destruct (Z.eqb_spec c 0); [lia|]. by rewrite IH.
Qed.

Lemma cstr_app l r : 0 ∉ l → cstr (l ++ 0 :: r) = Ok l.
Proof.
  induction l as [|c l IH]; intros H; [done|]. apply not_elem_of_cons in H as [H1 H2]. simpl.
  destruct (Z.eqb_spec c 0); [lia|]. by rewrite IH.
Qed.

Lemma cstr_out l : 0 ∉ l → cstr l = Undef.
Proof.
  induction l as [|c l IH]; intros H; [done|]. apply not_elem_of_cons in H as [H1 H2]. simpl.
  destruct (Z.eqb_spec c 0); [lia|]. by rewrite IH.
Qed.

Lemma cstr_cut size s : cstr (cut size s) = Ok (upto_nul (take (Z.to_nat size - 1) s)).
Proof.
  unfold cut. rewrite cstr_in by (apply elem_of_app; right; by left). f_equal.
  induction (take _ s) as [|c l IH]; simpl; [done|]. by destruct (c =? 0); [|rewrite IH].
Qed.

Lemma print_go_no fuel n acc : 0 ≤ n → 0 ∉ acc → 0 ∉ print_go fuel n acc.
Proof.
  revert n acc. induction fuel as [|fuel IH]; intros n acc Hn Ha; simpl.
  { apply not_elem_of_cons. split; [lia|done]. }
  case_match; [apply not_elem_of_cons; split; [lia|done]|]. apply IH; [by apply Z.div_pos; lia|].
  apply not_elem_of_cons. split; [|done]. pose proof (Z.mod_pos_bound n 10). lia.
Qed.

Lemma print_d_no n : 0 ≤ n → 0 ∉ print_d n.
Proof. intros Hn. apply print_go_no; [done|apply not_elem_of_nil]. Qed.

Lemma print_pad_no c w n : c ≠ 0 → 0 ≤ n → 0 ∉ print_pad c w n.
Proof.
  intros Hc Hn. unfold print_pad. apply not_elem_of_app. split; [|by apply print_d_no].
  intros [H _]%elem_of_replicate. done.
Qed.

Record time_ok (t : now) : Prop := {
  ok_clock : 0 ≤ t.(local_clock);
  ok_date : 0 ≤ t.(tm_year) ∧ 0 ≤ t.(tm_mon) ∧ 0 ≤ t.(tm_mday);
  ok_time : 0 ≤ t.(tm_hour) ∧ 0 ≤ t.(tm_min) ∧ 0 ≤ t.(tm_sec) ∧ 0 ≤ t.(tv_nsec)
}.

Lemma txt_no s : forallb (λ c, negb (c =? 0)) (txt s) = true → 0 ∉ txt s.
Proof.
  rewrite forallb_forall. intros Hf H%list_elem_of_In%Hf. done.
Qed.

Ltac no_nul :=
  lazymatch goal with
  | |- 0 ∉ _ ++ _ => apply not_elem_of_app; split; no_nul
  | |- 0 ∉ print_pad _ _ _ => apply print_pad_no; [done|try lia]
  | |- 0 ∉ print_d _ => apply print_d_no; try lia
  | |- 0 ∉ txt _ => apply txt_no; reflexivity
  end.

Lemma timestamp_no t : time_ok t → 0 ∉ timestamp t.
Proof.
  intros [Hc _ _]. unfold timestamp. no_nul; [by apply Z.div_pos; lia|].
  apply Z.div_pos; [|lia]. by apply Z.mod_pos_bound; lia.
Qed.

Lemma utc_no t : time_ok t → 0 ∉ utc t.
Proof. intros [_ Hd Ht]. unfold utc. no_nul. Qed.

(** ** The specification *)

Record history := History { lines : list (list Z); seen : Z }.

Definition line (t : now) (text : list Z) : list Z := take 255 (timestamp t ++ text).

(** Logs a message when the ring has [n] entries: the date comes with the first line,
    whenever the ring starts over and after a suspend. *)
Definition note (n suspended : Z) (t : now) (null : bool) (text : list Z) (h : history) : history :=
  let k := Z.of_nat (length h.(lines)) in
  let both := h.(lines) ++ [line t (utc t)] ++ [line t text] in
  if (k =? 0) || (k mod n =? n - 1) then History both h.(seen)
  else if negb (suspended =? h.(seen)) then History both suspended
  else if null then h
  else History (h.(lines) ++ [line t text]) h.(seen).

Section Ops.
Context {args : Type} (vsnprintf : list Z → args → list Z).

Inductive op :=
| Log (t : now) (stack : list Z) (fmt : option (list Z)) (a : args)
| Logk (printk : bool) (t : now) (stack : list Z) (fmt : option (list Z)) (a : args)
| Suspend.

(** What is formatted in a buffer of the size of a line. *)
Definition formatted (fmt : list Z) (a : args) : list Z := upto_nul (take 255 (vsnprintf fmt a)).

Definition spec (o : op) (s : module_state * history) : module_state * history :=
  let '(g, h) := s in
  let n := g.(buffer_entries) in
  match o with
  | Log t stack (Some fmt) a => (g, note n g.(driver_suspended_count) t false (formatted fmt a) h)
  | Log t stack None a => (g, note n g.(driver_suspended_count) t true (upto_nul stack) h)
  | Logk _ t _ (Some fmt) a =>
      let g := inc_log_index g in
      let fmt := upto_nul (take 255 (indexed g.(log_index) fmt)) in
      (g, note n g.(driver_suspended_count) t false (formatted fmt a) h)
  | Logk _ _ _ None _ => (g, h)
  | Suspend => (logbuffer_suspend g, h)
  end.

Definition run_op (o : op) (s : module_state * logbuffer) : outcome (module_state * logbuffer) :=
  let '(g, i) := s in
  match o with
  | Log t stack fmt a =>
      i ← logbuffer_vlog vsnprintf g t stack (Some i) fmt a;
      i ← must i;
      Ok (g, i)
  | Logk printk t stack fmt a =>
      '(g, i, _) ← logbuffer_logk vsnprintf printk g t stack (Some i) fmt a;
      i ← must i;
      Ok (g, i)
  | Suspend => Ok (logbuffer_suspend g, i)
  end.

Fixpoint run (ops : list op) (s : module_state * logbuffer) : outcome (module_state * logbuffer) :=
  match ops with
  | [] => Ok s
  | o :: ops => s ← run_op o s; run ops s
  end.

(** The string that a message without a format finds on the stack ends there. *)
Definition op_ok (o : op) : Prop :=
  match o with
  | Log t stack fmt _ => time_ok t ∧ (fmt = None → 0 ∈ stack)
  | Logk _ t _ _ _ => time_ok t
  | Suspend => True
  end.

End Ops.

(** ** The ring *)

(** The module after [logbuffer_dev_init]. *)
Record module_ok (g : module_state) : Prop := {
  ok_shift : 3 ≤ g.(buffer_entry_shift) ≤ 20;
  ok_entries : g.(buffer_entries) = 2 ^ g.(buffer_entry_shift);
  ok_mask : g.(buffer_entry_mask) = Z.ones g.(buffer_entry_shift)
}.

(** The lines in memory are those of the history that the ring has room for. *)
Record keeps (n : Z) (i : logbuffer) (h : history) : Prop := {
  kp_head : i.(logbuffer_head) = Z.of_nat (length h.(lines)) mod n;
  kp_tail : i.(logbuffer_tail) = if Z.of_nat (length h.(lines)) <? n then 0
                                 else (Z.of_nat (length h.(lines)) + 1) mod n;
  kp_seen : i.(suspend_count) = h.(seen);
  kp_lines : Forall (λ l, (0 ∉ l) ∧ (length l ≤ 255)%nat) h.(lines);
  kp_slots j l : h.(lines) !! j = Some l → (Z.of_nat (length h.(lines)) < Z.of_nat j + n) →
    mem_load i.(buffer) (Z.of_nat j mod n * 256) (Z.of_nat (length l) + 1) = l ++ [0];
  kp_rest x : ¬ (0 ≤ x < n * 256) → i.(buffer) x = 0
}.

Lemma module_bounds g : module_ok g → 8 ≤ g.(buffer_entries) ≤ 2 ^ 20.
Proof.
  intros [Hs He _]. rewrite He. split.
  - apply (Z.pow_le_mono_r 2 3); lia.
  - apply Z.pow_le_mono_r; lia.
Qed.

(** The next position of the ring. *)
Lemma next_pos g p : module_ok g → 0 ≤ p < g.(buffer_entries) →
  Z.land (u32 (p + 1)) g.(buffer_entry_mask) = (p + 1) mod g.(buffer_entries).
Proof.
  intros Hg Hp. pose proof (module_bounds g Hg). destruct Hg as [Hs He Hm].
  rewrite u32_small by lia. rewrite Hm, Z.land_ones by lia. by rewrite He.
Qed.

Lemma mod_succ k n : 0 < n → (k mod n + 1) mod n = (k + 1) mod n.
Proof. intros Hn. by rewrite Zplus_mod_idemp_l. Qed.

(** Two lines that the ring has room for are in different slots. *)
Lemma mod_apart j k n : 0 ≤ j < k → k < j + n → j mod n ≠ k mod n.
Proof.
  intros Hj Hk He. assert (k mod n = j mod n) as He' by lia.
  assert ((k - j) mod n = 0) as H0 by (rewrite Zminus_mod, He', Z.sub_diag; done).
  rewrite Z.mod_small in H0 by lia. lia.
Qed.

Lemma line_ok t text : time_ok t → 0 ∉ text → (0 ∉ line t text) ∧ (length (line t text) ≤ 255)%nat.
Proof.
  intros Ht Hx. split; [|unfold line; rewrite length_take; lia].
  intros H%elem_of_take. destruct H as (j & H & _).
  apply list_elem_of_lookup_2, elem_of_app in H as [H|H]; [by apply (timestamp_no t)|done].
Qed.

(** A line is stored in its slot, over none of the lines that are kept. *)
Lemma log_one g i h t tmpbuffer (record_utc : bool) text :
  module_ok g → keeps g.(buffer_entries) i h → time_ok t → 0 ∉ text →
  (if record_utc then text = utc t else cstr tmpbuffer = Ok text) →
  ∃ i', __logbuffer_log g t tmpbuffer record_utc i = Ok i'
    ∧ keeps g.(buffer_entries) i' (History (h.(lines) ++ [line t text]) h.(seen)).
Proof.
  intros Hg [Hh Ht Hs Hl Hsl Hr] Htime Hx Htext. pose proof (module_bounds g Hg) as Hn.
  set (n := buffer_entries g) in *. set (k := Z.of_nat (length h.(lines))) in *.
  destruct (line_ok t text Htime Hx) as [Hl0 Hl1].
  assert (0 ≤ k mod n < n) as Hk by (apply Z.mod_pos_bound; lia).
  assert (cut LOGBUFFER_ENTRY_SIZE (timestamp t ++ text) = line t text ++ [0]) as Hcut by done.
  unfold __logbuffer_log. assert ((if record_utc then Ok (utc t) else cstr tmpbuffer) = Ok text) as ->
    by (destruct record_utc; congruence). cbn [mbind outcome_bind]. rewrite Hcut.
  eexists. split; [reflexivity|].
  assert (Z.of_nat (length (h.(lines) ++ [line t text])) = k + 1) as Hk1.
  { rewrite length_app. simpl. lia. }
  split; cbn [logbuffer_head logbuffer_tail buffer suspend_count lines seen]; rewrite ?Hk1.
  - rewrite Hh, next_pos by done. apply mod_succ. lia.
  - rewrite Hh, next_pos by done. fold n. rewrite mod_succ, Ht by lia.
    destruct (Z.ltb_spec k n) as [Hkn|Hkn].
    + destruct (Z.ltb_spec (k + 1) n) as [Hkn1|Hkn1].
      * rewrite (Z.mod_small (k + 1)) by lia. by rewrite (proj2 (Z.eqb_neq _ _)) by lia.
      * replace (k + 1) with n by lia. rewrite Z.mod_same by lia. cbn [Z.eqb].
        rewrite next_pos by (fold n; lia || done). fold n.
        by rewrite (Zplus_mod n 1), Z_mod_same_full, !Z.add_0_l, Zmod_mod.
    + rewrite (proj2 (Z.ltb_ge (k + 1) n)), Z.eqb_refl by lia.
      rewrite next_pos by (done || (apply Z.mod_pos_bound; lia)). apply mod_succ. lia.
  - done.
  - apply Forall_app_2; [done|]. by apply Forall_singleton.
  - intros j l Hj Hjn. rewrite Hh. fold k n.
    destruct (decide (j = length h.(lines))) as [->|Hne].
    + rewrite list_lookup_middle in Hj by done. injection Hj as <-. fold k.
      change LOGBUFFER_ENTRY_SIZE with 256.
      replace (Z.of_nat (length (line t text)) + 1) with (Z.of_nat (length (line t text ++ [0])))
        by (rewrite length_app; simpl; lia). apply mem_load_store.
    + assert (j < length h.(lines))%nat as Hlt.
      { apply lookup_lt_Some in Hj. rewrite length_app in Hj. simpl in Hj. lia. }
      rewrite lookup_app_l in Hj by done.
      pose proof (Forall_lookup_1 _ _ _ _ Hl Hj) as [_ Hlen].
      pose proof (mod_apart (Z.of_nat j) k n ltac:(lia) ltac:(lia)) as Hap.
      assert (0 ≤ Z.of_nat j mod n < n) by (apply Z.mod_pos_bound; lia).
      rewrite mem_load_store_ne; [apply Hsl; [done|lia]|].
      unfold LOGBUFFER_ENTRY_SIZE. rewrite length_app. cbn [length].
      revert Hap H Hk. generalize (Z.of_nat j mod n) as p, (k mod n) as q. lia.
  - intros x Hx'. rewrite Hh. fold k n. change LOGBUFFER_ENTRY_SIZE with 256.
    rewrite mem_store_out; [by apply Hr|]. rewrite length_app. cbn [length].
    revert Hk. generalize (k mod n) as q. lia.
Qed.

(** ** Reading *)

Lemma slot_cstr m pos size l :
  mem_load m pos (Z.of_nat (length l) + 1) = l ++ [0] → 0 ∉ l → Z.of_nat (length l) < size →
  cstr (mem_load m pos size) = Ok l.
Proof.
  intros Hm Hl Hs.
  replace size with ((Z.of_nat (length l) + 1) + (size - (Z.of_nat (length l) + 1))) by lia.
  rewrite mem_load_app, Hm, <-app_assoc by lia. by apply cstr_app.
Qed.

Lemma show_from_ok g i h fuel m j :
  module_ok g → keeps g.(buffer_entries) i h → (j + m = length h.(lines))%nat →
  Z.of_nat m < g.(buffer_entries) → (m < fuel)%nat →
  show_from fuel g i (Z.of_nat j mod g.(buffer_entries))
  = Ok ((λ l, l ++ [NEWLINE]) <$> drop j h.(lines)).
Proof.
  intros Hg Hk. pose proof (module_bounds g Hg) as Hn. pose proof Hk as [Hh _ _ Hl Hs _].
  set (n := g.(buffer_entries)) in *. revert m j. induction fuel as [|fuel IH]; intros m j Hj Hm Hf; [lia|].
  cbn [show_from]. fold n. rewrite Hh. destruct m as [|m].
  - replace j with (length h.(lines)) by lia. by rewrite Z.eqb_refl, drop_all.
  - assert (Z.of_nat j mod n ≠ Z.of_nat (length h.(lines)) mod n) as Hap by (apply mod_apart; lia).
    rewrite (proj2 (Z.eqb_neq _ _) Hap).
    destruct (lookup_lt_is_Some_2 h.(lines) j) as [l Hjl]; [lia|].
    pose proof (Forall_lookup_1 _ _ _ _ Hl Hjl) as [Hl0 Hl1].
    assert (0 ≤ Z.of_nat j mod n < n) as Hb by (apply Z.mod_pos_bound; lia).
    unfold LOGBUFFER_ENTRY_SIZE. rewrite (slot_cstr _ _ _ l).
    + cbn [mbind outcome_bind]. rewrite next_pos by done. fold n. rewrite mod_succ by lia.
      replace (Z.of_nat j + 1) with (Z.of_nat (S j)) by lia. rewrite (IH m (S j)) by lia.
      cbn [mbind outcome_bind]. by rewrite (drop_S _ _ _ Hjl).
    + apply Hs; [done|lia].
    + done.
    + revert Hb. generalize (Z.of_nat j mod n) as p. lia.
Qed.

Lemma seq_show_ok g i h :
  module_ok g → keeps g.(buffer_entries) i h →
  logbuffer_seq_show g i
  = Ok ((λ l, l ++ [NEWLINE]) <$> lastn (Z.to_nat g.(buffer_entries) - 1) h.(lines)).
Proof.
  intros Hg Hk. pose proof (module_bounds g Hg) as Hn. unfold logbuffer_seq_show, lastn.
  rewrite (kp_tail _ _ _ Hk). set (n := g.(buffer_entries)) in *.
  destruct (Z.ltb_spec (Z.of_nat (length h.(lines))) n) as [Hlt|Hge].
  - replace (length h.(lines) - (Z.to_nat n - 1))%nat with 0%nat by lia.
    rewrite <-(Z.mod_0_l n) at 1 by lia.
    apply (show_from_ok g i h (Z.to_nat n) (length h.(lines)) 0 Hg Hk); fold n; lia.
  - replace ((Z.of_nat (length h.(lines)) + 1) mod n)
      with (Z.of_nat (length h.(lines) - (Z.to_nat n - 1)) mod n).
    + apply (show_from_ok g i h (Z.to_nat n) (Z.to_nat n - 1) _ Hg Hk); fold n; lia.
    + replace (Z.of_nat (length h.(lines)) + 1)
        with (Z.of_nat (length h.(lines) - (Z.to_nat n - 1)) + 1 * n) by lia.
      by rewrite Z_mod_plus_full.
Qed.

(** ** The operations *)

Lemma start_iff n i h : 8 ≤ n → keeps n i h →
  (i.(logbuffer_head) =? i.(logbuffer_tail)) = (Z.of_nat (length h.(lines)) =? 0).
Proof.
  intros Hn [Hh Ht _ _ _ _]. rewrite Hh, Ht. set (k := Z.of_nat (length h.(lines))).
  assert (0 ≤ k) by (subst k; lia).
  destruct (Z.ltb_spec k n); [by rewrite Z.mod_small by lia|].
  rewrite (proj2 (Z.eqb_neq k 0)) by lia. apply Z.eqb_neq. apply mod_apart; lia.
Qed.

Lemma vlog_ok {args} (vsnprintf : list Z → args → list Z) g t stack i h fmt a :
  module_ok g → keeps g.(buffer_entries) i h → time_ok t → (fmt = None → 0 ∈ stack) →
  ∃ i', logbuffer_vlog vsnprintf g t stack (Some i) fmt a = Ok (Some i')
    ∧ keeps g.(buffer_entries) i'
        (note g.(buffer_entries) g.(driver_suspended_count) t
           (match fmt with Some _ => false | None => true end)
           (match fmt with Some fmt => formatted vsnprintf fmt a | None => upto_nul stack end) h).
Proof.
  intros Hg Hk Ht Hst. pose proof (module_bounds g Hg) as Hn.
  set (text := match fmt with Some fmt => formatted vsnprintf fmt a | None => upto_nul stack end).
  set (tmp := match fmt with Some fmt => cut LOGBUFFER_ENTRY_SIZE (vsnprintf fmt a) | None => stack end).
  assert (cstr tmp = Ok text) as Htmp.
  { subst tmp text. destruct fmt; [apply cstr_cut|by apply cstr_in, Hst]. }
  assert (0 ∉ text) as Htext by (subst text; destruct fmt; apply upto_nul_no).
  unfold logbuffer_vlog, note. fold tmp. rewrite (start_iff _ _ _ (proj1 Hn) Hk).
  rewrite (kp_head _ _ _ Hk), (kp_seen _ _ _ Hk), u32_small by lia.
  destruct (log_one g i h t tmp true (utc t) Hg Hk Ht (utc_no t Ht) eq_refl) as (i1 & H1 & K1).
  assert (∀ v, keeps g.(buffer_entries) (set_suspend_count v i1)
    (History (h.(lines) ++ [line t (utc t)]) v)) as K1' by (intros v; by destruct K1).
  destruct (_ || _); [|destruct (negb _)].
  - rewrite H1. cbn [mbind outcome_bind].
    destruct (log_one g i1 _ t tmp false text Hg K1 Ht Htext Htmp) as (i2 & H2 & K2).
    rewrite H2. eexists. split; [reflexivity|]. cbn [lines seen] in K2. by rewrite <-app_assoc in K2.
  - rewrite H1. cbn [mbind outcome_bind].
    destruct (log_one g _ _ t tmp false text Hg (K1' g.(driver_suspended_count)) Ht Htext Htmp)
      as (i2 & H2 & K2).
    rewrite H2. eexists. split; [reflexivity|]. cbn [lines seen] in K2. by rewrite <-app_assoc in K2.
  - destruct fmt as [fmt|]; [|by exists i].
    destruct (log_one g i h t tmp false text Hg Hk Ht Htext Htmp) as (i2 & H2 & K2).
    rewrite H2. by eexists.
Qed.

Lemma op_keeps {args} (vsnprintf : list Z → args → list Z) o g i h :
  module_ok g → keeps g.(buffer_entries) i h → op_ok o →
  let '(g', h') := spec vsnprintf o (g, h) in
  ∃ i', run_op vsnprintf o (g, i) = Ok (g', i') ∧ module_ok g'
    ∧ g'.(buffer_entries) = g.(buffer_entries) ∧ keeps g'.(buffer_entries) i' h'.
Proof.
  intros Hg Hk Ho. destruct o as [t stack fmt a|printk t stack fmt a|]; cbn [spec run_op op_ok] in *.
  - destruct Ho as [Ht Hst].
    destruct (vlog_ok vsnprintf g t stack i h fmt a Hg Hk Ht Hst) as (i' & Hv & K').
    destruct fmt as [fmt|]; rewrite Hv; exists i'; done.
  - destruct fmt as [fmt|]; [|by exists i]. unfold logbuffer_logk, logbuffer_indexed_vlog.
    assert (module_ok (inc_log_index g)) as Hg' by by destruct Hg.
    rewrite cstr_cut. cbn [mbind outcome_bind].
    change (Z.to_nat LOGBUFFER_ENTRY_SIZE - 1)%nat with 255%nat.
    set (f := upto_nul _).
    destruct (vlog_ok vsnprintf (inc_log_index g) t stack i h (Some f) a Hg' Hk Ho) as (i' & Hv & K');
      [done|].
    rewrite Hv. cbn [mbind outcome_bind]. exists i'. split; [|done].
    destruct printk; cbn [negb]; [by rewrite cstr_cut|done].
  - exists i. split; [done|]. split; [by destruct Hg|done].
Qed.

Lemma init_ok shift : module_ok (logbuffer_dev_init shift).
Proof.
  unfold logbuffer_dev_init, LOGBUFFER_ENTRY_SHIFT_MAX, LOGBUFFER_ENTRY_SHIFT_MIN.
  set (v := if _ <? 3 then _ else _).
  assert (3 ≤ v ≤ 20) by (subst v; repeat case_match; lia).
  split; cbn [buffer_entry_shift buffer_entries buffer_entry_mask]; [done|by rewrite Z.shiftl_1_l|done].
Qed.

(** A new buffer holds nothing. *)
Definition fresh (name : string) : logbuffer :=
  Logbuffer 0 0 (λ _, 0) (strlcpy name LOGBUFFER_ID_LENGTH) (strlcpy ("logbuffer_" ++ name) 50) 0.

Lemma registered g name : module_ok g → keeps g.(buffer_entries) (fresh name) (History [] 0).
Proof.
  intros Hg. pose proof (module_bounds g Hg) as Hn.
  split; cbn [fresh logbuffer_head logbuffer_tail suspend_count buffer lines seen length];
    change (Z.of_nat 0) with 0; try done.
  - by rewrite (proj2 (Z.ltb_lt _ _)) by lia.
Qed.

(** ** Theorems *)

(** C30.  Whatever is logged, reading a log buffer returns its last lines, whole and in
    order: those of the list of all the lines logged that the ring has room for.
    Nothing is written outside of the ring, the lines are cut to 255 characters, and
    the date comes with the first line, each time that the ring starts over and
    after a suspend. *)
Theorem logbuffer_keeps_last {args} (vsnprintf : list Z → args → list Z) shift name ops :
  Forall op_ok ops →
  let g0 := logbuffer_dev_init shift in
  let '(g, h) := foldl (λ s o, spec vsnprintf o s) (g0, History [] 0) ops in
  ∃ i0 i, logbuffer_register (true, true) 0 name = (0, Some i0)
  ∧ run vsnprintf ops (g0, i0) = Ok (g, i)
  ∧ logbuffer_seq_show g i
    = Ok ((λ l, l ++ [NEWLINE]) <$> lastn (Z.to_nat g0.(buffer_entries) - 1) h.(lines))
  ∧ (∀ x, ¬ (0 ≤ x < g0.(buffer_entries) * LOGBUFFER_ENTRY_SIZE) → i.(buffer) x = 0)
  ∧ Forall (λ l, (length l ≤ 255)%nat) h.(lines).
Proof.
  intros Hops. cbv zeta. pose proof (init_ok shift) as Hg. pose proof (module_bounds _ Hg) as Hn.
  set (g0 := logbuffer_dev_init shift) in *.
  assert (∀ g h i, module_ok g → keeps g.(buffer_entries) i h →
    let '(g', h') := foldl (λ s o, spec vsnprintf o s) (g, h) ops in
    ∃ i', run vsnprintf ops (g, i) = Ok (g', i') ∧ module_ok g'
      ∧ g'.(buffer_entries) = g.(buffer_entries) ∧ keeps g'.(buffer_entries) i' h') as Hall.
  { clear -Hops. induction Hops as [|o ops Ho _ IH]; intros g h i Hg Hk; [by exists i|].
    cbn [foldl run]. pose proof (op_keeps vsnprintf o g i h Hg Hk Ho) as H1.
    destruct (spec vsnprintf o (g, h)) as [g1 h1]. destruct H1 as (i1 & -> & Hg1 & Hn1 & K1).
    cbn [mbind outcome_bind]. specialize (IH g1 h1 i1 Hg1 K1).
    destruct (foldl _ _ _) as [g2 h2]. destruct IH as (i2 & H2 & Hg2 & Hn2 & K2).
    exists i2. split_and!; [done|done|congruence|done]. }
  specialize (Hall g0 (History [] 0)).
  set (i0 := fresh name) in *.
  assert (keeps g0.(buffer_entries) i0 (History [] 0)) as K0 by (by apply registered).
  specialize (Hall i0 Hg K0). destruct (foldl _ _ _) as [g h].
  destruct Hall as (i & Hrun & Hg' & Hn' & K). exists i0, i. rewrite <-Hn'.
  split_and!; [done|done|by apply seq_show_ok|apply (kp_rest _ _ _ K)|].
  eapply Forall_impl; [apply (kp_lines _ _ _ K)|]. by intros l [_ ?].
Qed.

Definition demo_time (s : Z) : now := Now (s * 1000000000) 124 4 6 10 20 30 0.

Definition demo : list (op (args := unit)) :=
  [Log (demo_time 1) [] (Some (txt "a")) (); Log (demo_time 2) [] (Some (txt "b")) (); Suspend;
   Log (demo_time 3) [7; 0] None (); Logk true (demo_time 4) [] (Some (txt "c")) ();
   Log (demo_time 5) [] (Some (txt "d")) (); Log (demo_time 6) [] (Some (txt "e")) ()].

(** Nine lines in eight slots, one of which stays free: the first two are gone. *)
Lemma logbuffer_keeps_last_witness :
  Forall op_ok demo
  ∧ ∃ i0 i g, logbuffer_register (true, true) 0 "ttf" = (0, Some i0)
    ∧ run (λ f _, f) demo (logbuffer_dev_init 3, i0) = Ok (g, i)
    ∧ logbuffer_seq_show g i = Ok ((λ l, l ++ [NEWLINE]) <$>
        [txt "[    2.000000] b"; txt "[    3.000000] 2024-05-06 10:20:30.000000000 UTC";
         txt "[    3.000000] " ++ [7]; txt "[    4.000000] [    1] c";
         txt "[    5.000000] d"; txt "[    6.000000] 2024-05-06 10:20:30.000000000 UTC";
         txt "[    6.000000] e"]).
Proof.
  assert (Forall op_ok demo) as Hok.
  { repeat constructor; cbn; try lia; intros; try done. }
  split; [exact Hok|].
  pose proof (logbuffer_keeps_last (λ f _, f) 3 "ttf" demo Hok) as H. cbv zeta in H.
  destruct (foldl _ _ _) as [g h] eqn:Hs. vm_compute in Hs. injection Hs as <- <-.
  destruct H as (i0 & i & H1 & H2 & H3 & _). exists i0, i. eexists.
  split; [exact H1|]. split; [exact H2|]. rewrite H3. vm_compute. reflexivity.
Defined.

(** C38.  A message without a format is meant to leave only the date in the log; at the
    start of a buffer it also logs the bytes that the function finds on its stack,
    which it has never written, and it reads beyond them when none of them is zero. *)
Theorem logbuffer_null_reads_stack {args} (vsnprintf : list Z → args → list Z) shift name t stack a :
  time_ok t →
  let g := logbuffer_dev_init shift in
  (0 ∉ stack → logbuffer_vlog vsnprintf g t stack (Some (fresh name)) None a = Undef)
  ∧ (0 ∈ stack → ∃ i, logbuffer_vlog vsnprintf g t stack (Some (fresh name)) None a = Ok (Some i)
      ∧ logbuffer_seq_show g i
        = Ok [line t (utc t) ++ [NEWLINE]; line t (upto_nul stack) ++ [NEWLINE]]).
Proof.
  intros Ht. cbv zeta. pose proof (init_ok shift) as Hg. set (g := logbuffer_dev_init shift) in *.
  pose proof (registered g name Hg) as K. pose proof (module_bounds g Hg) as Hn. split; intros Hs.
  - cbn [logbuffer_vlog fresh logbuffer_head logbuffer_tail Z.eqb orb].
    unfold __logbuffer_log at 1. cbn [mbind outcome_bind]. unfold __logbuffer_log.
    by rewrite cstr_out.
  - destruct (vlog_ok vsnprintf g t stack (fresh name) (History [] 0) None a Hg K Ht (λ _, Hs))
      as (i & Hi & Ki).
    exists i. split; [done|]. rewrite (seq_show_ok g i _ Hg Ki). unfold note.
    rewrite lastn_all; [done|]. change (2 ≤ Z.to_nat g.(buffer_entries) - 1)%nat. lia.
Qed.

Lemma logbuffer_null_reads_stack_witness :
  time_ok (demo_time 1)
  ∧ logbuffer_vlog (λ f (_ : unit), f) (logbuffer_dev_init 10) (demo_time 1) [] (Some (fresh "ttf")) None ()
    = Undef.
Proof.
  assert (time_ok (demo_time 1)) as Ht by (split; cbn; lia).
  split; [exact Ht|].
  apply (proj1 (logbuffer_null_reads_stack (λ f _, f) 10 "ttf" (demo_time 1) [] () Ht)).
  apply not_elem_of_nil.
Defined.
