(* ===== verification/Storage.v ===== *)
(** * Battery storage

    Model of [google-modules/bms/gbms_storage.c].  Drivers read and write named items
    (tags) such as the serial number of the battery; providers (an EEPROM, a fuel gauge)
    register under a name and each knows some of the tags.  The first provider that
    serves a tag is remembered in a cache.

    The callbacks of a provider act on [W], the state of all devices.  A reading gives
    the bytes that it stores in the buffer of its caller; [data] is whether there is a
    buffer.  [iter] and [info] give their result with the values they store.
    The hash table of the cache is the list of its entries, the last added first.

    Theorems ([StorageProps]): the cache changes no result
    ([storage_cache_transparent]); taking a provider offline hits another one
    ([storage_offline_next_provider]). *)

From Stdlib Require Import String.
From S2P Require Import Prelude.

Definition EPROBE_DEFER : Z := 517.
Definition GBMS_STORAGE_ADDR_INVALID : Z := SIZE_MAX.
Definition GBMS_STORAGE_INDEX_INVALID : Z := -1.
Definition GBMS_PROVIDER_NAME_MAX : nat := 32.
Definition GBMS_PROVIDERS_MAX : nat := 6.
Definition GBMS_HASHTABLE_SIZE : Z := 5.

(** ** Tags *)

Definition tag2cstr (tag : Z) : list Z :=
  [Z.land (Z.shiftr tag 24) 255; Z.land (Z.shiftr tag 16) 255; Z.land (Z.shiftr tag 8) 255;
   Z.land tag 255; 0].

Definition cstr2tag (buff : list Z) : Z :=
  let byte i := u8 (default 0 (buff !! i)) in
  let tag := byte 0%nat in
  let tag := u32 (u32 (Z.shiftl tag 8) + byte 1%nat) in
  let tag := u32 (u32 (Z.shiftl tag 8) + byte 2%nat) in
  u32 (u32 (Z.shiftl tag 8) + byte 3%nat).

(** ** Providers *)

(** The result, the data read, the devices after it. *)
Abbreviation reading W := (outcome (Z * list Z * W)).
Abbreviation writing W := (outcome (Z * W)).

Section Storage.
Context {W : Type}.


Record gbms_storage_desc := Desc {
  iter : option (Z → Z → Z * Z);
  info : option (Z → Z → Z * Z * Z);
  read : option (Z → bool → Z → Z → W → reading W);
  write : option (Z → list Z → Z → Z → W → writing W);
  fetch : option (Z → Z → Z → W → reading W);
  store : option (list Z → Z → Z → Z → W → writing W);
  flush : option (bool → Z → W → writing W);
  read_data : option (Z → bool → Z → Z → Z → W → reading W);
  write_data : option (Z → option (list Z) → Z → Z → Z → W → writing W)
}.

Record gbms_storage_provider := Provider {
  name : string;
  dsc : option gbms_storage_desc;
  offline : bool;
  ptr : Z
}.

(** [provider] is an index of the table. *)
Record gbms_cache_entry := CacheEntry {
  provider : nat;
  tag : Z;
  count : Z;
  addr : Z
}.

(** [gbms_cache_pool] is how many entries it still has. *)
Record storage := Storage {
  gbms_storage_init_done : bool;
  gbms_providers_count : nat;
  gbms_providers : list gbms_storage_provider;
  gbms_cache : list gbms_cache_entry;
  gbms_cache_pool : option nat
}.

Definition set_providers (n : nat) (l : list gbms_storage_provider) (s : storage) : storage :=
  Storage s.(gbms_storage_init_done) n l s.(gbms_cache) s.(gbms_cache_pool).

Definition is_some {A} (o : option A) : bool := match o with Some _ => true | None => false end.

(** ** The cache *)

(** [*addr] is not written. *)
Definition gbms_cache_lookup (t : Z) (s : storage) : option gbms_cache_entry :=
  list_find (λ ce, ce.(tag) = t) s.(gbms_cache) ≫= λ p, Some p.2.

Definition gbms_cache_add (t : Z) (slot : option nat) (s : storage) :
    outcome (option gbms_cache_entry * storage) :=
  match s.(gbms_cache_pool), slot with
  | Some (S free), Some i =>
      p ← must (s.(gbms_providers) !! i);
      d ← must p.(dsc);
      let entry :=
        match d.(fetch), d.(store), d.(info) with
        | Some _, Some _, Some info =>
            let '(ret, addr, count) := info t p.(ptr) in
            if ret =? 0 then CacheEntry i t count addr
            else CacheEntry i t 0 GBMS_STORAGE_ADDR_INVALID
        | _, _, _ => CacheEntry i t 0 GBMS_STORAGE_ADDR_INVALID
        end in
      Ok (Some entry, Storage s.(gbms_storage_init_done) s.(gbms_providers_count)
                        s.(gbms_providers) (entry :: s.(gbms_cache)) (Some free))
  | _, _ => Ok (None, s)
  end.

(** ** Registration *)

Fixpoint find_slot (nm : string) (index : nat) (l : list gbms_storage_provider) : Z + nat :=
  match l with
  | [] => inr index
  | slot :: l =>
      if strncmp_eq slot.(name) nm (String.length slot.(name))
      then match slot.(dsc) with Some _ => inl (- EBUSY) | None => inr index end
      else find_slot nm (S index) l
  end.

Definition gbms_storage_find_slot (nm : string) (s : storage) : Z + nat :=
  match find_slot nm 0 (take s.(gbms_providers_count) s.(gbms_providers)) with
  | inl e => inl e
  | inr index => if (index =? GBMS_PROVIDERS_MAX)%nat then inl (- ENOMEM) else inr index
  end.

(** What was said about the slot being offline stays. *)
Definition gbms_storage_register_internal (desc : option gbms_storage_desc)
    (nm : option string) (p : Z) (s : storage) : outcome (Z * storage) :=
  match nm with
  | None => Ok (- EINVAL, s)
  | Some nm =>
      if (GBMS_PROVIDER_NAME_MAX <=? String.length nm)%nat then Ok (- EINVAL, s)
      else match gbms_storage_find_slot nm s with
           | inl e => Ok (e, s)
           | inr index =>
               slot ← must (s.(gbms_providers) !! index);
               let l := <[index := Provider nm desc slot.(offline) p]> s.(gbms_providers) in
               let n := s.(gbms_providers_count) in
               Ok (0, set_providers (if (index =? n)%nat then S n else n) l s)
           end
  end.

Definition gbms_storage_register (desc : option gbms_storage_desc) (nm : option string) (p : Z)
    (s : storage) : outcome (Z * storage) :=
  match desc with
  | None => Ok (- EINVAL, s)
  | Some _ => if negb s.(gbms_storage_init_done) then Ok (- EPROBE_DEFER, s)
              else gbms_storage_register_internal desc nm p s
  end.

(** ** Reading *)

Definition gbms_cache_read (t : Z) (data : bool) (n : Z) (s : storage) (w : W) : reading W :=
  let addr := GBMS_STORAGE_ADDR_INVALID in
  match gbms_cache_lookup t s with
  | None => Ok (- ENOENT, [], w)
  | Some ce =>
      slot ← must (s.(gbms_providers) !! ce.(provider));
      if slot.(offline) then Ok (- ENODEV, [], w)
      else
        d ← must slot.(dsc);
        match d.(fetch), negb (addr =? GBMS_STORAGE_ADDR_INVALID), d.(read) with
        | Some fetch, true, _ => fetch addr n slot.(ptr) w
        | _, _, None => Ok (- EACCES, [], w)
        | _, _, Some read => read t data n slot.(ptr) w
        end
  end.

(** The providers from [i] on: the result, the data, whether one is still to come. *)
Fixpoint read_from (t : Z) (data : bool) (n : Z) (i : nat) (l : list gbms_storage_provider)
    (s : storage) (w : W) : outcome (Z * list Z * bool * storage * W) :=
  match l with
  | [] => Ok (- ENOENT, [], false, s, w)
  | slot :: l =>
      match slot.(dsc) with
      | None =>
          '(ret, out, _, s, w) ← read_from t data n (S i) l s w;
          Ok (ret, out, true, s, w)
      | Some d =>
          match d.(read) with
          | None => read_from t data n (S i) l s w
          | Some read =>
              '(ret, out, w) ← read t data n slot.(ptr) w;
              '(_, s) ← (if 0 <=? ret then gbms_cache_add t (Some i) s else Ok (None, s));
              if ret =? - ENOENT then read_from t data n (S i) l s w
              else Ok (ret, out, false, s, w)
          end
      end
  end.

Definition defer (late_inits : bool) (ret : Z) : Z :=
  if late_inits && (ret =? - ENOENT) then - EPROBE_DEFER else ret.

Definition gbms_storage_read (t : Z) (data : bool) (n : Z) (s : storage) (w : W) :
    outcome (Z * list Z * storage * W) :=
  if negb s.(gbms_storage_init_done) then Ok (- EPROBE_DEFER, [], s, w)
  else if negb data && negb (n =? 0) then Ok (- EINVAL, [], s, w)
  else
    '(ret, out, w) ← gbms_cache_read t data n s w;
    if ret =? - ENOENT
    then
      '(ret, out, late_inits, s, w)
        ← read_from t data n 0 (take s.(gbms_providers_count) s.(gbms_providers)) s w;
      Ok (defer late_inits ret, out, s, w)
    else Ok (ret, out, s, w).

Fixpoint read_data_from (t : Z) (data : bool) (n idx : Z) (l : list gbms_storage_provider)
    (w : W) : outcome (Z * list Z * bool * W) :=
  match l with
  | [] => Ok (- ENOENT, [], false, w)
  | slot :: l =>
      if slot.(offline) then read_data_from t data n idx l w
      else match slot.(dsc) with
           | None =>
               '(ret, out, _, w) ← read_data_from t data n idx l w;
               Ok (ret, out, true, w)
           | Some d =>
               match d.(read_data) with
               | None => read_data_from t data n idx l w
               | Some read_data =>
                   '(ret, out, w) ← read_data t data n idx slot.(ptr) w;
                   if ret =? - ENOENT then read_data_from t data n idx l w
                   else Ok (ret, out, false, w)
               end
           end
  end.

Definition gbms_storage_read_data (t : Z) (data : bool) (n idx : Z) (s : storage) (w : W) :
    reading W :=
  if negb s.(gbms_storage_init_done) then Ok (- EPROBE_DEFER, [], w)
  else if negb data && negb (n =? 0) then Ok (- EINVAL, [], w)
  else
    '(ret, out, late_inits, w)
      ← read_data_from t data n idx (take s.(gbms_providers_count) s.(gbms_providers)) w;
    Ok (defer late_inits ret, out, w).

(** ** Writing *)

Definition gbms_cache_write (t : Z) (data : list Z) (n : Z) (s : storage) (w : W) : writing W :=
  let addr := GBMS_STORAGE_ADDR_INVALID in
  match gbms_cache_lookup t s with
  | None => Ok (- ENOENT, w)
  | Some ce =>
      slot ← must (s.(gbms_providers) !! ce.(provider));
      if slot.(offline) then Ok (- ENODEV, w)
      else
        d ← must slot.(dsc);
        match d.(store), negb (addr =? GBMS_STORAGE_ADDR_INVALID), d.(write) with
        | Some store, true, _ => store data addr n slot.(ptr) w
        | _, _, None => Ok (- EACCES, w)
        | _, _, Some write => write t data n slot.(ptr) w
        end
  end.

Fixpoint write_from (t : Z) (data : list Z) (n : Z) (i : nat) (l : list gbms_storage_provider)
    (s : storage) (w : W) : outcome (Z * bool * storage * W) :=
  match l with
  | [] => Ok (- ENOENT, false, s, w)
  | slot :: l =>
      if slot.(offline) then write_from t data n (S i) l s w
      else match slot.(dsc) with
           | None =>
               '(ret, _, s, w) ← write_from t data n (S i) l s w;
               Ok (ret, true, s, w)
           | Some d =>
               match d.(write) with
               | None => write_from t data n (S i) l s w
               | Some write =>
                   '(ret, w) ← write t data n slot.(ptr) w;
                   '(_, s) ← (if 0 <=? ret then gbms_cache_add t (Some i) s else Ok (None, s));
                   if ret =? - ENOENT then write_from t data n (S i) l s w
                   else Ok (ret, false, s, w)
               end
           end
  end.

(** A null [data] comes with no bytes. *)
Definition gbms_storage_write (t : Z) (data : option (list Z)) (n : Z) (s : storage) (w : W) :
    outcome (Z * storage * W) :=
  if negb s.(gbms_storage_init_done) then Ok (- EPROBE_DEFER, s, w)
  else if negb (is_some data) && negb (n =? 0) then Ok (- EINVAL, s, w)
  else
    let data := default [] data in
    '(ret, w) ← gbms_cache_write t data n s w;
    if ret =? - ENOENT
    then
      '(ret, late_inits, s, w)
        ← write_from t data n 0 (take s.(gbms_providers_count) s.(gbms_providers)) s w;
      Ok (defer late_inits ret, s, w)
    else Ok (ret, s, w).

Fixpoint write_data_from (t : Z) (data : option (list Z)) (n idx : Z)
    (l : list gbms_storage_provider) (w : W) : outcome (Z * bool * W) :=
  match l with
  | [] => Ok (- ENOENT, false, w)
  | slot :: l =>
      if slot.(offline) then write_data_from t data n idx l w
      else match slot.(dsc) with
           | None =>
               '(ret, _, w) ← write_data_from t data n idx l w;
               Ok (ret, true, w)
           | Some d =>
               match d.(write_data) with
               | None => write_data_from t data n idx l w
               | Some write_data =>
                   '(ret, w) ← write_data t data n idx slot.(ptr) w;
                   if ret =? - ENOENT then write_data_from t data n idx l w
                   else Ok (ret, false, w)
               end
           end
  end.

Definition gbms_storage_write_data (t : Z) (data : option (list Z)) (n idx : Z) (s : storage)
    (w : W) : writing W :=
  if negb s.(gbms_storage_init_done) then Ok (- EPROBE_DEFER, w)
  else if negb (is_some data) && negb (n =? 0) then Ok (- EINVAL, w)
  else
    '(ret, late_inits, w)
      ← write_data_from t data n idx (take s.(gbms_providers_count) s.(gbms_providers)) w;
    Ok (defer late_inits ret, w).

(** ** Flushing, and taking a provider offline *)

Definition gbms_storage_flush_provider (slot : gbms_storage_provider) (force : bool) (w : W) :
    writing W :=
  if slot.(offline) then Ok (0, w)
  else match slot.(dsc) ≫= flush with
       | None => Ok (0, w)
       | Some flush => flush force slot.(ptr) w
       end.

Fixpoint flush_from (force success : bool) (l : list gbms_storage_provider) (w : W) :
    outcome (bool * W) :=
  match l with
  | [] => Ok (success, w)
  | slot :: l =>
      '(ret, w) ← gbms_storage_flush_provider slot force w;
      flush_from force (if ret <? 0 then false else success) l w
  end.

Definition gbms_storage_flush_all_internal (force : bool) (s : storage) (w : W) : writing W :=
  '(success, w) ← flush_from force true (take s.(gbms_providers_count) s.(gbms_providers)) w;
  Ok (if (success : bool) then 0 else - EIO, w).

Definition gbms_storage_flush_all (s : storage) (w : W) : writing W :=
  if negb s.(gbms_storage_init_done) then Ok (- EPROBE_DEFER, w)
  else gbms_storage_flush_all_internal false s w.

Definition gbms_storage_offline (nm : string) (flush : bool) (s : storage) (w : W) :
    outcome (Z * storage * W) :=
  if negb s.(gbms_storage_init_done) then Ok (- EPROBE_DEFER, s, w)
  else match gbms_storage_find_slot nm s with
       | inl e => Ok (e, s, w)
       | inr index =>
           slot ← must (s.(gbms_providers) !! index);
           '(ret, w) ← (if flush then gbms_storage_flush_provider slot false w else Ok (0, w));
           let l := if ret =? 0
                    then <[index := Provider slot.(name) slot.(dsc) true slot.(ptr)]>
                           s.(gbms_providers)
                    else s.(gbms_providers) in
           Ok (ret, set_providers s.(gbms_providers_count) l s, w)
       end.

(** ** The tags of a provider *)

(** [fuel] is more than the provider has tags. *)
Fixpoint gbms_find (fuel : nat) (i : Z) (iter : Z → Z → Z * Z) (p t : Z) : outcome bool :=
  match fuel with
  | O => Blocked
  | S fuel =>
      let '(ret, tmp) := iter i p in
      if ret <? 0 then Ok false
      else if t =? tmp then Ok true
      else if ret =? 0 then gbms_find fuel (i + 1) iter p t
      else Ok false
  end.

Fixpoint preload_from (fuel : nat) (t : Z) (i : nat) (l : list gbms_storage_provider) :
    outcome (option nat) :=
  match l with
  | [] => Ok None
  | slot :: l =>
      match slot.(dsc) ≫= iter with
      | None => preload_from fuel t (S i) l
      | Some iter =>
          found ← gbms_find fuel 0 iter slot.(ptr) t;
          if (found : bool) then Ok (Some i) else preload_from fuel t (S i) l
      end
  end.

Definition gbms_cache_preload_tag (fuel : nat) (t : Z) (s : storage) :
    outcome (option gbms_cache_entry * storage) :=
  slot ← preload_from fuel t 0 (take s.(gbms_providers_count) s.(gbms_providers));
  gbms_cache_add t slot s.

(** ** Devices that list an enumeration *)

Record gbms_storage_device := StorageDevice {
  entry : gbms_cache_entry;
  index : Z;
  device_count : Z
}.

(** The position, if there is something to show. *)
Definition ct_seq_start (pos : Z) (gdev : gbms_storage_device) (s : storage) (w : W) :
    outcome (option Z * gbms_storage_device * W) :=
  '(ret, _, w) ← gbms_storage_read_data gdev.(entry).(tag) false 0 0 s w;
  if ret <? 0 then Ok (None, gdev, w)
  else if ret <=? pos then Ok (None, gdev, w)
  else Ok (Some pos, StorageDevice gdev.(entry) pos ret, w).

Definition ct_seq_next (gdev : gbms_storage_device) : option Z * gbms_storage_device :=
  let pos := gdev.(index) + 1 in
  (if gdev.(device_count) <=? pos then None else Some pos,
   StorageDevice gdev.(entry) pos gdev.(device_count)).

Definition ct_seq_stop (gdev : gbms_storage_device) (s : storage) (w : W) : outcome W :=
  '(_, _, w) ← gbms_storage_read_data gdev.(entry).(tag) false 0 GBMS_STORAGE_INDEX_INVALID s w;
  Ok w.

Definition ct_seq_show (gdev : gbms_storage_device) (s : storage) (w : W) : reading W :=
  gbms_storage_read_data gdev.(entry).(tag) true gdev.(entry).(count) gdev.(index) s w.

(** The entry of the first provider that knows the tag. *)
Fixpoint find_info (t : Z) (i : nat) (l : list gbms_storage_provider) : option gbms_cache_entry :=
  match l with
  | [] => None
  | slot :: l =>
      match slot.(dsc) ≫= info with
      | None => find_info t (S i) l
      | Some info =>
          let '(ret, addr, count) := info t slot.(ptr) in
          if ret =? 0 then Some (CacheEntry i t count addr)
          else if ret =? - ENOENT then find_info t (S i) l
          else None
      end
  end.

(** [created] is whether the kernel gives the memory and the device. *)
Definition gbms_storage_create_device (created : bool) (t : Z) (s : storage) :
    option gbms_storage_device :=
  if negb created then None
  else match find_info t 0 (take s.(gbms_providers_count) s.(gbms_providers)) with
       | None => None
       | Some entry => Some (StorageDevice entry 0 0)
       end.

End Storage.

Arguments gbms_storage_desc : clear implicits.
Arguments gbms_storage_provider : clear implicits.
Arguments storage : clear implicits.
