(* ===== verification/Eeprom.v ===== *)
(** * The EEPROM of the battery

    Model of [google-modules/bms/google_eeprom.c], [google_eeprom_01.c] and
    [google_eeprom_02.c]: the layouts of the EEPROM of a battery, as a provider of the
    battery storage, and the conversion of one layout to the next; and of the start of
    the storage ([gbms_storage.c]), which looks for the EEPROM.

    The memory chip is the kernel's [nvmem] device, an interface ([nvmem], with the laws
    [nvmem_laws]).  A [switch] on tags is the list of its cases.  What a read that
    fails leaves in the buffer is left out, as are delays.

    Theorems: [EepromProps]. *)

From Stdlib Require Import String.
From S2P Require Import Prelude.
From S2P Require Import Storage.

(** ** Tags *)

Definition GBMS_TAG_AAWC : Z := 0x41415743.
Definition GBMS_TAG_ACIM : Z := 0x4143494d.
Definition GBMS_TAG_AYMD : Z := 0x41594d44.
Definition GBMS_TAG_BCNT : Z := 0x42434e54.
Definition GBMS_TAG_BGPN : Z := 0x4247504e.
Definition GBMS_TAG_BPST : Z := 0x42505354.
Definition GBMS_TAG_BRID : Z := 0x42524944.
Definition GBMS_TAG_CELC : Z := 0x43454C43.
Definition GBMS_TAG_CNHS : Z := 0x434E4853.
Definition GBMS_TAG_DINF : Z := 0x44494e46.
Definition GBMS_TAG_FCRU : Z := 0x46435255.
Definition GBMS_TAG_FGST : Z := 0x46475354.
Definition GBMS_TAG_GCFE : Z := 0x47434645.
Definition GBMS_TAG_GMSR : Z := 0x474d5352.
Definition GBMS_TAG_HIST : Z := 0x48495354.
Definition GBMS_TAG_LOTR : Z := 0x4C4F5452.
Definition GBMS_TAG_MINF : Z := 0x4d494e46.
Definition GBMS_TAG_MYMD : Z := 0x4d594d44.
Definition GBMS_TAG_RAVG : Z := 0x52415647.
Definition GBMS_TAG_RFCN : Z := 0x5246434e.
Definition GBMS_TAG_SELC : Z := 0x53454C43.
Definition GBMS_TAG_SNUM : Z := 0x534e554d.
Definition GBMS_TAG_STRD : Z := 0x53545244.
Definition GBMS_TAG_THAS : Z := 0x54484153.

Definition ENODATA : Z := 61.

Definition GBMS_LOTR_DEFAULT : Z := 0xff.
Definition GBMS_LOTR_V1 : Z := 1.
Definition GBMS_LOTR_V2 : Z := 2.

Definition BATT_ONE_HIST_LEN : Z := 12.
Definition BATT_MAX_HIST_CNT : Z := 75.
Definition BATT_TOTAL_HIST_LEN : Z := BATT_ONE_HIST_LEN * BATT_MAX_HIST_CNT.
(** of [google_eeprom_02.c] *)
Definition BATT_MAX_HIST_CNT_02 : Z := 200.

Definition BATT_EEPROM_TAG_BRID_OFFSET : Z := 0x17.
Definition BATT_EEPROM_TAG_LOTR_OFFSET : Z := 0x59.
Definition BATT_EEPROM_TAG_LOTR_LEN : Z := 1.
Definition BATT_EEPROM_TAG_FCRU_OFFSET : Z := 0x3E2.

(** ** Layouts *)

(** A [switch] on a tag; each case stores an address and a length. *)
Fixpoint cases (t : Z) (l : list (Z * (Z * Z))) (default : Z * Z * Z) : Z * Z * Z :=
  match l with
  | [] => default
  | (t', (addr, count)) :: l => if t =? t' then (0, addr, count) else cases t l default
  end.

Definition default_layout : list (Z * (Z * Z)) :=
  [(GBMS_TAG_MINF, (0x00, 30)); (GBMS_TAG_DINF, (0x3EE, 16));
   (GBMS_TAG_HIST, (0x5E, BATT_ONE_HIST_LEN)); (GBMS_TAG_SNUM, (0x03, 10));
   (GBMS_TAG_BGPN, (0x03, 10)); (GBMS_TAG_GMSR, (0x42, 23)); (GBMS_TAG_BCNT, (0x2E, 20));
   (GBMS_TAG_CNHS, (0x5A, 2));
   (GBMS_TAG_LOTR, (BATT_EEPROM_TAG_LOTR_OFFSET, BATT_EEPROM_TAG_LOTR_LEN));
   (GBMS_TAG_SELC, (0x5C, 1)); (GBMS_TAG_CELC, (0x5D, 1)); (GBMS_TAG_STRD, (0x1E, 12));
   (GBMS_TAG_ACIM, (0x2C, 2)); (GBMS_TAG_GCFE, (0x3E8, 2)); (GBMS_TAG_RAVG, (0x3EA, 2));
   (GBMS_TAG_RFCN, (0x3EC, 2)); (GBMS_TAG_THAS, (0x3FE, 2)); (GBMS_TAG_AYMD, (0x3E5, 3));
   (GBMS_TAG_MYMD, (0x0F, 3)); (GBMS_TAG_FCRU, (BATT_EEPROM_TAG_FCRU_OFFSET, 2));
   (GBMS_TAG_FGST, (0x3E4, 1))].

Definition gbee_storage_info (t ptr : Z) : Z * Z * Z := cases t default_layout (- ENOENT, 0, 0).

Definition layout_01 : list (Z * (Z * Z)) :=
  [(GBMS_TAG_BPST, (0x5E, 1)); (GBMS_TAG_HIST, (0x64, BATT_ONE_HIST_LEN))].

Definition gbee_storage01_info (t ptr : Z) : Z * Z * Z :=
  cases t layout_01 (gbee_storage_info t ptr).

Definition layout_02 : list (Z * (Z * Z)) :=
  [(GBMS_TAG_DINF, (0x1FEE, 16)); (GBMS_TAG_HIST, (0x5E, BATT_ONE_HIST_LEN));
   (GBMS_TAG_GCFE, (0x1FE8, 2)); (GBMS_TAG_RAVG, (0x1FEA, 2)); (GBMS_TAG_RFCN, (0x1FEC, 2));
   (GBMS_TAG_THAS, (0x1FFE, 2)); (GBMS_TAG_AYMD, (0x1FE5, 3)); (GBMS_TAG_FGST, (0x1FE4, 1));
   (GBMS_TAG_FCRU, (0x1FE2, 2)); (GBMS_TAG_AAWC, (0x1FDE, 4))].

Definition gbee_storage02_info (t ptr : Z) : Z * Z * Z :=
  cases t layout_02 (gbee_storage_info t ptr).

Definition keys : list Z :=
  [GBMS_TAG_BGPN; GBMS_TAG_MINF; GBMS_TAG_DINF; GBMS_TAG_HIST; GBMS_TAG_BRID; GBMS_TAG_SNUM;
   GBMS_TAG_GMSR; GBMS_TAG_BCNT; GBMS_TAG_CNHS; GBMS_TAG_SELC; GBMS_TAG_CELC; GBMS_TAG_LOTR;
   GBMS_TAG_STRD; GBMS_TAG_ACIM; GBMS_TAG_GCFE; GBMS_TAG_RAVG; GBMS_TAG_RFCN; GBMS_TAG_THAS;
   GBMS_TAG_AYMD; GBMS_TAG_MYMD; GBMS_TAG_FGST; GBMS_TAG_FCRU; GBMS_TAG_AAWC].

Definition keys_01 : list Z :=
  [GBMS_TAG_BGPN; GBMS_TAG_MINF; GBMS_TAG_DINF; GBMS_TAG_HIST; GBMS_TAG_BRID; GBMS_TAG_SNUM;
   GBMS_TAG_GMSR; GBMS_TAG_BCNT; GBMS_TAG_CNHS; GBMS_TAG_SELC; GBMS_TAG_CELC; GBMS_TAG_LOTR;
   GBMS_TAG_BPST; GBMS_TAG_STRD].

(** The tag is 0 where none is stored. *)
Definition iter_keys (l : list Z) (index : Z) : Z * Z :=
  if (index <? 0) || (Z.of_nat (length l) <=? index) then (- ENOENT, 0)
  else (0, default 0 (l !! Z.to_nat index)).

Definition gbee_storage_iter (index ptr : Z) : Z * Z := iter_keys keys index.
Definition gbee_storage01_iter (index ptr : Z) : Z * Z := iter_keys keys_01 index.

Definition gbee_storage_is_writable (t : Z) : bool :=
  existsb (Z.eqb t)
    [GBMS_TAG_DINF; GBMS_TAG_GMSR; GBMS_TAG_BCNT; GBMS_TAG_CNHS; GBMS_TAG_SELC; GBMS_TAG_CELC;
     GBMS_TAG_BPST; GBMS_TAG_STRD; GBMS_TAG_ACIM; GBMS_TAG_GCFE; GBMS_TAG_RAVG; GBMS_TAG_RFCN;
     GBMS_TAG_THAS; GBMS_TAG_AYMD; GBMS_TAG_FGST; GBMS_TAG_FCRU; GBMS_TAG_AAWC].

(** ** The memory chip *)

(** The length or a negative error. *)
Class nvmem (D : Type) := {
  nvmem_device_read : Z → Z → D → Z * list Z * D;
  nvmem_device_write : Z → list Z → D → Z * D;
  cells : D → memory
}.

Record nvmem_laws {D} `{!nvmem D} (size : Z) : Prop := {
  nvmem_read_ok off n d : 0 <= off → 0 < n → off + n <= size →
    let '(ret, data, d') := nvmem_device_read off n d in
    (∀ x, cells d' x = cells d x)
    ∧ (ret < 0 ∨ ret = n ∧ data = mem_load (cells d) off n);
  nvmem_write_ok off data d : 0 <= off → 0 < Z.of_nat (length data) →
    off + Z.of_nat (length data) <= size →
    let '(ret, d') := nvmem_device_write off data d in
    (∀ x, ¬ (off <= x < off + Z.of_nat (length data)) → cells d' x = cells d x)
    ∧ (ret < 0 ∨ ret = Z.of_nat (length data)
       ∧ ∀ x, cells d' x = mem_store (cells d) off data x)
}.

Arguments nvmem_laws D {_} size.

(** The descriptor in use ([gbee_desc]). *)
Inductive gbee_dsc := gbee_storage_dsc | gbee_storage01_dsc | gbee_storage02_dsc.

Definition GBEE_STORAGE_INFO (gbee_desc : option gbee_dsc) (t ptr : Z) : Z * Z * Z :=
  match gbee_desc with
  | Some gbee_storage01_dsc => gbee_storage01_info t ptr
  | Some gbee_storage02_dsc => gbee_storage02_info t ptr
  | _ => gbee_storage_info t ptr
  end.

Section Eeprom.
Context {D : Type} `{!nvmem D}.

(** ** Reading and writing *)

Definition gbee_storage_read (gbee_desc : option gbee_dsc) (t : Z) (data : bool) (size ptr : Z)
    (d : D) : reading D :=
  if t =? GBMS_TAG_BRID then
    if negb (size =? 4) then Ok (- ENOMEM, [], d)
    else
      let '(ret, temp, d) := nvmem_device_read BATT_EEPROM_TAG_BRID_OFFSET 1 d in
      if ret <? 0 then Ok (ret, [], d)
      else temp ← must (temp !! 0%nat); Ok (0, [temp; 0; 0; 0], d)
  else
    let '(ret, offset, len) := GBEE_STORAGE_INFO gbee_desc t ptr in
    if ret <? 0 then Ok (ret, [], d)
    else if len =? 0 then Ok (- ENOENT, [], d)
    else if size <? len then Ok (- ENOMEM, [], d)
    else
      let '(ret, buff, d) := nvmem_device_read offset len d in
      Ok (if ret =? 0 then len else ret, if ret <? 0 then [] else buff, d).

(** The bytes of [buff] from [i] on, [n] of them, each at [at + i]. *)
Fixpoint write_bytes (n : nat) (buff : list Z) (i : nat) (at_ : Z) (d : D) : writing D :=
  match n with
  | O => Ok (0, d)
  | S n =>
      byte ← must (buff !! i);
      let '(ret, d) := nvmem_device_write (Z.of_nat i + at_) [byte] d in
      if ret <? 0 then Ok (ret, d) else write_bytes n buff (S i) at_ d
  end.

Definition gbee_storage_write (gbee_desc : option gbee_dsc) (t : Z) (buff : list Z)
    (size ptr : Z) (d : D) : writing D :=
  if negb (gbee_storage_is_writable t) then Ok (- ENOENT, d)
  else
    let '(ret, offset, len) := GBEE_STORAGE_INFO gbee_desc t ptr in
    if ret <? 0 then Ok (ret, d)
    else if len <? size then Ok (- ENOMEM, d)
    else
      '(ret, d) ← write_bytes (Z.to_nat size) buff 0 offset d;
      Ok (if ret <? 0 then ret else size, d).

(** The reading of both files, with its table and its number of entries. *)
Definition read_hist (info : Z → Z → Z * Z * Z) (max : Z) (t : Z) (data : bool)
    (n idx ptr : Z) (d : D) : reading D :=
  let '(ret, offset, len) := if t =? GBMS_TAG_HIST then info t ptr else (- ENOENT, 0, 0) in
  if ret <? 0 then Ok (ret, [], d)
  else if negb data || (n =? 0)
  then Ok (if idx =? GBMS_STORAGE_INDEX_INVALID then 0 else max, [], d)
  else if idx <? 0 then Ok (- EINVAL, [], d)
  else if max <=? idx then Ok (- ENODATA, [], d)
  else if n <? len then Ok (- EINVAL, [], d)
  else
    let '(ret, out, d) := nvmem_device_read (offset + len * idx) len d in
    Ok (if ret =? 0 then len else ret, if ret <? 0 then [] else out, d).

Definition gbee_storage_read_data (gbee_desc : option gbee_dsc) : Z → bool → Z → Z → Z → D → reading D :=
  read_hist (GBEE_STORAGE_INFO gbee_desc) BATT_MAX_HIST_CNT.

Definition gbee_storage_read_data_02 : Z → bool → Z → Z → Z → D → reading D :=
  read_hist gbee_storage02_info BATT_MAX_HIST_CNT_02.

Definition gbee_storage_write_data (gbee_desc : option gbee_dsc) (t : Z)
    (data : option (list Z)) (n idx ptr : Z) (d : D) : writing D :=
  let '(ret, offset, len) :=
    if t =? GBMS_TAG_HIST then GBEE_STORAGE_INFO gbee_desc t ptr else (- ENOENT, 0, 0) in
  if ret <? 0 then Ok (ret, d)
  else match data with
       | None => Ok (- EINVAL, d)
       | Some data =>
           if (idx <? 0) || (n =? 0) then Ok (- EINVAL, d)
           else if BATT_MAX_HIST_CNT <=? idx then Ok (- ENODATA, d)
           else if len <? n then Ok (- EINVAL, d)
           else
             '(ret, d) ← write_bytes (Z.to_nat len) data 0 (offset + len * idx) d;
             Ok (if ret <? 0 then ret else len, d)
       end.

(** [gbee_desc] is the descriptor itself once it is registered. *)
Definition gbee_operations (v : gbee_dsc) : gbms_storage_desc D :=
  let gbee_desc := Some v in
  Desc (Some match v with
             | gbee_storage01_dsc => gbee_storage01_iter
             | _ => gbee_storage_iter
             end)
       (Some (GBEE_STORAGE_INFO gbee_desc))
       (Some (gbee_storage_read gbee_desc)) (Some (gbee_storage_write gbee_desc)) None None None
       (Some match v with
             | gbee_storage02_dsc => gbee_storage_read_data_02
             | _ => gbee_storage_read_data gbee_desc
             end)
       (Some (gbee_storage_write_data gbee_desc)).

(** ** Conversion of layouts *)

(** The entries from [from] on, up to the first that is not used; [ret] is the result of
    the last read, and the buffer has [len] bytes. *)
Fixpoint hist_used (n : nat) (from len ret : Z) (buff : list Z) (d : D) : outcome (Z * list Z * D) :=
  match n with
  | O => Ok (ret, buff, d)
  | S n =>
      if len <? Z.of_nat (length buff) + BATT_ONE_HIST_LEN then Undef
      else
        let '(ret, p, d) := nvmem_device_read from BATT_ONE_HIST_LEN d in
        if ret <? 0 then Ok (ret, buff, d)
        else
          first ← must (p !! 0%nat);
          if first =? 0xff then Ok (ret, buff, d)
          else hist_used n (from + BATT_ONE_HIST_LEN) len ret (buff ++ p) d
  end.

(** [kzalloc] is whether there is memory. *)
Definition gbms_hist_move (kzalloc : bool) (from to len : Z) (d : D) : writing D :=
  if negb kzalloc then Ok (- ENOMEM, d)
  else
    '(ret, buff, d) ← hist_used (Z.to_nat BATT_MAX_HIST_CNT) from len 0 [] d;
    if ret <? 0 then Ok (ret, d)
    else match buff with
         | [] => Ok (ret, d)
         | _ => Ok (nvmem_device_write to buff d)
         end.

Definition gbms_lotr_update_to_v1 (kzalloc : bool) (d : D) : writing D :=
  '(ret, d) ← gbms_hist_move kzalloc 0x5E 0x64 BATT_TOTAL_HIST_LEN d;
  if ret <? 0 then Ok (ret, d)
  else
    let '(ret, d) := nvmem_device_write 0x5E (replicate 5 0) d in
    Ok (if negb (ret =? 5) then if ret <? 0 then ret else - EINVAL else ret, d).

(** [n] bytes from [offset] on. *)
Fixpoint clear_bytes (n : nat) (offset ret : Z) (d : D) : Z * D :=
  match n with
  | O => (ret, d)
  | S n =>
      let '(ret, d) := nvmem_device_write offset [0xff] d in
      if ret <? 0 then (ret, d) else clear_bytes n (offset + 1) ret d
  end.

Definition gbms_lotr_update_to_v2 (d : D) : Z * D :=
  let offset := BATT_EEPROM_TAG_FCRU_OFFSET in
  clear_bytes (Z.to_nat (0x3FF - offset)) offset 0 d.

Definition gbms_lotr_update (kzalloc : bool) (lotr_to : Z) (d : D) : writing D :=
  let '(ret, lotr_from, d) :=
    nvmem_device_read BATT_EEPROM_TAG_LOTR_OFFSET BATT_EEPROM_TAG_LOTR_LEN d in
  let lotr_from := default 0 (lotr_from !! 0%nat) in
  if (ret <? 0) || (lotr_from =? lotr_to) then Ok (ret, d)
  else
    let write_lotr ret d :=
      if ret <? 0 then (0, d)
      else nvmem_device_write BATT_EEPROM_TAG_LOTR_OFFSET [u8 lotr_to] d in
    if (lotr_to =? GBMS_LOTR_V1) && (lotr_from =? GBMS_LOTR_DEFAULT)
    then '(ret, d) ← gbms_lotr_update_to_v1 kzalloc d; Ok (write_lotr ret d)
    else if (lotr_to =? GBMS_LOTR_V2) && negb (lotr_from =? GBMS_LOTR_V2)
    then let '(ret, d) := gbms_lotr_update_to_v2 d in Ok (write_lotr ret d)
    else Ok (0, d).

Definition gbms_lotr_2_dsc (lotr_ver : Z) : gbee_dsc :=
  if lotr_ver =? GBMS_LOTR_V1 then gbee_storage01_dsc
  else if lotr_ver =? GBMS_LOTR_V2 then gbee_storage02_dsc
  else gbee_storage_dsc.

(** The result, the descriptor in use, the storage and the chip. *)
Definition gbee_register_device (kzalloc : bool) (nm : string) (lotr nvram : Z)
    (s : storage D) (d : D) : outcome (Z * option gbee_dsc * storage D * D) :=
  let gbee_desc := gbms_lotr_2_dsc lotr in
  '(ret, d) ← gbms_lotr_update kzalloc lotr d;
  if ret <? 0 then Ok (ret, None, s, d)
  else
    '(ret, s) ← gbms_storage_register (Some (gbee_operations gbee_desc)) (Some nm) nvram s;
    if ret =? 0 then Ok (0, Some gbee_desc, s, d) else Ok (ret, None, s, d).

(** ** The start of the storage *)

Inductive gbee_status := GBEE_STATUS_NOENT | GBEE_STATUS_PROBE | GBEE_STATUS_OK.

Definition GBEE_POLL_RETRIES : nat := 100.

(** [bee_work] is whether the work that looks for the EEPROM is scheduled. *)
Record gbee_data := GbeeData {
  bee_name : option string;
  bee_status : gbee_status;
  lotr_version : Z;
  bee_poll_retries : nat;
  bee_work : bool
}.

(** The node of the device tree: the name of the EEPROM, the providers that register
    later (one may be unreadable), the version of the layout. *)
Record bms_node := BmsNode {
  google_bee_name : option string;
  google_gbms_providers : list (option string);
  google_lotr_version : option Z
}.

Definition gbms_dummy_dsc : gbms_storage_desc D :=
  Desc None None None None None None None None None.

Fixpoint gbms_storage_parse_provider_refs (l : list (option string)) (s : storage D) :
    outcome (storage D) :=
  match l with
  | [] => Ok s
  | None :: l => gbms_storage_parse_provider_refs l s
  | nm :: l =>
      '(_, s) ← gbms_storage_register_internal None nm 0 s;
      gbms_storage_parse_provider_refs l s
  end.

(** [cached] is whether the cache could be allocated, [kstrdup] whether the name could
    be copied. *)
Definition gbms_storage_init (cached kstrdup : bool) (node : option bms_node) :
    outcome (Z * storage D * gbee_data) :=
  let s := Storage false 0 (replicate GBMS_PROVIDERS_MAX (Provider "" None false 0)) []
             (if cached then Some (Z.to_nat (2 ^ GBMS_HASHTABLE_SIZE)) else None) in
  let ready s := Storage true s.(gbms_providers_count) s.(gbms_providers) s.(gbms_cache)
                   s.(gbms_cache_pool) in
  match node with
  | None => Ok (0, ready s, GbeeData None GBEE_STATUS_NOENT 0 GBEE_POLL_RETRIES false)
  | Some node =>
      if is_some node.(google_bee_name) && negb kstrdup
      then Ok (- ENOMEM, s, GbeeData None GBEE_STATUS_NOENT 0 GBEE_POLL_RETRIES false)
      else
        '(_, s) ← (if is_some node.(google_bee_name)
                   then gbms_storage_register_internal None node.(google_bee_name) 0 s
                   else Ok (0, s));
        s ← gbms_storage_parse_provider_refs node.(google_gbms_providers) s;
        Ok (0, ready s,
            GbeeData node.(google_bee_name)
              (if is_some node.(google_bee_name) then GBEE_STATUS_PROBE else GBEE_STATUS_NOENT)
              (default 0xff node.(google_lotr_version)) GBEE_POLL_RETRIES
              (is_some node.(google_bee_name)))
  end.

(** [found] is the chip, once its driver is there. *)
Definition gbee_probe_work (found : option Z) (kzalloc : bool) (b : gbee_data) (s : storage D)
    (d : D) : outcome (gbee_data * storage D * D) :=
  match b.(bee_status), b.(bee_name) with
  | GBEE_STATUS_PROBE, Some nm =>
      match found with
      | None =>
          match b.(bee_poll_retries) with
          | O =>
              '(_, s) ← gbms_storage_register_internal (Some gbms_dummy_dsc) (Some nm) 0 s;
              Ok (GbeeData b.(bee_name) b.(bee_status) b.(lotr_version) 0 false, s, d)
          | S retries =>
              Ok (GbeeData b.(bee_name) b.(bee_status) b.(lotr_version) retries true, s, d)
          end
      | Some nvram =>
          '(ret, _, s, d) ← gbee_register_device kzalloc nm b.(lotr_version) nvram s d;
          Ok (GbeeData b.(bee_name) (if ret <? 0 then GBEE_STATUS_NOENT else GBEE_STATUS_OK)
                b.(lotr_version) b.(bee_poll_retries) false, s, d)
      end
  | _, _ => Ok (GbeeData b.(bee_name) b.(bee_status) b.(lotr_version) b.(bee_poll_retries) false,
                s, d)
  end.

Definition gbee_destroy (nm : string) (s : storage D) (d : D) : outcome (storage D * D) :=
  '(_, s, d) ← gbms_storage_offline nm true s d;
  Ok (s, d).

Definition gbms_storage_exit (b : gbee_data) (s : storage D) (d : D) : outcome (storage D * D) :=
  '(_, d) ← gbms_storage_flush_all_internal true s d;
  '(s, d) ← match b.(bee_status), b.(bee_name) with
            | GBEE_STATUS_OK, Some nm => gbee_destroy nm s d
            | _, _ => Ok (s, d)
            end;
  Ok (Storage s.(gbms_storage_init_done) 0 s.(gbms_providers) s.(gbms_cache) None, d).

End Eeprom.
