(* ===== verification/EepromLayout.v ===== *)
(** * The EEPROM of the battery: where its fields are

    The fields of a layout, and what writing bytes one by one does to the chip. *)

From S2P Require Import Prelude.
From S2P Require Import Storage.
From S2P Require Import Eeprom.

(** ** Layouts *)

Definition tags (v : gbee_dsc) : list Z :=
  match v with
  | gbee_storage_dsc => []
  | gbee_storage01_dsc => layout_01.*1
  | gbee_storage02_dsc => layout_02.*1
  end ++ default_layout.*1.

(** The address and the length of a tag. *)
Definition field (v : gbee_dsc) (t : Z) : option (Z * Z) :=
  let '(ret, addr, count) := GBEE_STORAGE_INFO (Some v) t 0 in
  if ret =? 0 then Some (addr, count) else None.

Definition chip_size (v : gbee_dsc) : Z :=
  match v with gbee_storage02_dsc => 0x2000 | _ => 0x400 end.

(** Where the history is, and its number of entries. *)
Definition hist_at (v : gbee_dsc) : Z := match v with gbee_storage01_dsc => 0x64 | _ => 0x5E end.

Definition hist_max (v : gbee_dsc) : Z :=
  match v with gbee_storage02_dsc => BATT_MAX_HIST_CNT_02 | _ => BATT_MAX_HIST_CNT end.

Lemma cases_In t l dflt : (∃ f, (t, f) ∈ l ∧ cases t l dflt = (0, f.1, f.2)) ∨ ((t ∉ l.*1) ∧ cases t l dflt = dflt).
Proof.
  induction l as [|[t' [a n]] l IH]; [right; split; [apply not_elem_of_nil|done]|]. cbn.
  destruct (Z.eqb_spec t t') as [->|Hne].
  - left. exists (a, n). split; [by left|done].
  - destruct IH as [(f & Hf & Hc)|[Hn Hc]].
    + left. exists f. split; [by right|done].
    + right. split; [|done]. by apply not_elem_of_cons.
Qed.

Lemma info_field v t p :
  match field v t with
  | Some (addr, count) => t ∈ tags v ∧ GBEE_STORAGE_INFO (Some v) t p = (0, addr, count)
  | None => (t ∉ tags v) ∧ ∃ addr count, GBEE_STORAGE_INFO (Some v) t p = (- ENOENT, addr, count)
  end.
Proof.
  unfold field. assert (∀ q, GBEE_STORAGE_INFO (Some v) t q = GBEE_STORAGE_INFO (Some v) t 0) as Hp
    by (intros q; by destruct v).
  rewrite (Hp p). clear Hp.
  assert ((t ∈ tags v ∧ (GBEE_STORAGE_INFO (Some v) t 0).1.1 = 0)
    ∨ ((t ∉ tags v) ∧ (GBEE_STORAGE_INFO (Some v) t 0).1.1 = - ENOENT)) as H.
  { assert (∀ l, (t ∈ l.*1 ++ default_layout.*1
        ∧ (cases t l (gbee_storage_info t 0)).1.1 = 0)
      ∨ ((t ∉ l.*1 ++ default_layout.*1) ∧ (cases t l (gbee_storage_info t 0)).1.1 = - ENOENT)) as Hall.
    { intros l. unfold gbee_storage_info.
      destruct (cases_In t l (cases t default_layout (- ENOENT, 0, 0))) as [(f & Hf & ->)|[Hn ->]].
      { left. split; [|done]. apply elem_of_app. left. by apply (list_elem_of_fmap_2 fst l (t, f)). }
      destruct (cases_In t default_layout (- ENOENT, 0, 0)) as [(f & Hf & ->)|[Hn' ->]].
      - left. split; [|done]. apply elem_of_app. right. by apply (list_elem_of_fmap_2 fst _ (t, f)).
      - right. split; [|done]. by apply not_elem_of_app. }
    destruct v; [apply (Hall [])|apply (Hall layout_01)|apply (Hall layout_02)]. }
  destruct (GBEE_STORAGE_INFO (Some v) t 0) as [[ret addr] count]. cbn in H.
  destruct H as [[Ht ->]|[Ht ->]]; cbn; [done|]. split; [done|]. by do 2 eexists.
Qed.

Definition apart (a n b m : Z) : bool := (a + n <=? b) || (b + m <=? a).

(** Every field is in the chip. *)
Lemma fields_fit v t addr count : field v t = Some (addr, count) →
  0 ≤ addr ∧ 0 < count ∧ addr + count ≤ chip_size v.
Proof.
  intros Hf. pose proof (info_field v t 0) as H. rewrite Hf in H. destruct H as [Ht _].
  assert (forallb (λ t, match field v t with
    | Some (a, n) => (0 <=? a) && (0 <? n) && (a + n <=? chip_size v) | None => true end) (tags v) = true)
    as Hall by (destruct v; vm_compute; reflexivity).
  rewrite forallb_forall in Hall. specialize (Hall t). rewrite Hf in Hall.
  apply list_elem_of_In in Ht. apply Hall in Ht. lia.
Qed.

(** In the default layout and in the second one a field that can be written shares no
    byte with another one, nor with the history. *)
Lemma fields_apart v t t' addr count addr' count' : v ≠ gbee_storage01_dsc →
  gbee_storage_is_writable t = true → t ≠ t' →
  field v t = Some (addr, count) → field v t' = Some (addr', count') →
  apart addr count addr' count' = true
  ∧ apart addr count (hist_at v) (BATT_ONE_HIST_LEN * hist_max v) = true.
Proof.
  intros Hv Hw Hne Hf Hf'.
  pose proof (info_field v t 0) as H. rewrite Hf in H. destruct H as [Ht%list_elem_of_In _].
  pose proof (info_field v t' 0) as H. rewrite Hf' in H. destruct H as [Ht'%list_elem_of_In _].
  assert (forallb (λ t, forallb (λ t', match field v t, field v t' with
    | Some (a, n), Some (b, m) => (t =? t') || negb (gbee_storage_is_writable t)
        || (apart a n b m && apart a n (hist_at v) (BATT_ONE_HIST_LEN * hist_max v))
    | _, _ => true end) (tags v)) (tags v) = true) as Hall
    by (destruct v; [vm_compute; reflexivity|done|vm_compute; reflexivity]).
  rewrite forallb_forall in Hall. specialize (Hall t Ht). rewrite forallb_forall in Hall.
  specialize (Hall t' Ht'). rewrite Hf, Hf', Hw, (proj2 (Z.eqb_neq _ _) Hne) in Hall.
  cbn [negb orb] in Hall. by apply andb_true_iff in Hall.
Qed.

(** Of the other fields, only the history itself is where the history is. *)
Lemma hist_apart v t addr count : v ≠ gbee_storage01_dsc → t ≠ GBMS_TAG_HIST →
  field v t = Some (addr, count) →
  apart addr count (hist_at v) (BATT_ONE_HIST_LEN * hist_max v) = true.
Proof.
  intros Hv Hne Hf. pose proof (info_field v t 0) as H. rewrite Hf in H. destruct H as [Ht%list_elem_of_In _].
  assert (forallb (λ t, match field v t with
    | Some (a, n) => (t =? GBMS_TAG_HIST) || apart a n (hist_at v) (BATT_ONE_HIST_LEN * hist_max v)
    | _ => true end) (tags v) = true) as Hall
    by (destruct v; [vm_compute; reflexivity|done|vm_compute; reflexivity]).
  rewrite forallb_forall in Hall. specialize (Hall t Ht). rewrite Hf, (proj2 (Z.eqb_neq _ _) Hne) in Hall.
  done.
Qed.

Lemma hist_field v : field v GBMS_TAG_HIST = Some (hist_at v, BATT_ONE_HIST_LEN)
  ∧ 0 ≤ hist_at v ∧ hist_at v + BATT_ONE_HIST_LEN * hist_max v ≤ chip_size v.
Proof. by destruct v. Qed.

(** ** Access to the chip *)

Section Chip.
Context {D : Type} `{!nvmem D} (size : Z) (Hchip : nvmem_laws D size).

Lemma write_bytes_ok n buff i at_ d :
  0 ≤ at_ → at_ + Z.of_nat (i + n) ≤ size → (i + n ≤ length buff)%nat →
  ∃ ret d', write_bytes n buff i at_ d = Ok (ret, d')
    ∧ (∀ x, ¬ (at_ + Z.of_nat i ≤ x < at_ + Z.of_nat (i + n)) → cells d' x = cells d x)
    ∧ (ret < 0 ∨ ret = 0 ∧ ∀ x, cells d' x = mem_store (cells d) (at_ + Z.of_nat i) (take n (drop i buff)) x).
Proof.
  intros Ha Hs. revert i d Hs. induction n as [|n IH]; intros i d Hs Hb.
  { exists 0, d. split_and!; [done|done|right]. split; [done|]. intros x.
    rewrite take_0, mem_store_out; [done|]. cbn. lia. }
  destruct (lookup_lt_is_Some_2 buff i) as [c Hc]; [lia|]. cbn [write_bytes]. rewrite Hc.
  cbn [must mbind outcome_bind].
  pose proof (nvmem_write_ok _ Hchip (Z.of_nat i + at_) [c] d) as Hw. cbn [length] in Hw.
  destruct (nvmem_device_write _ _ _) as [ret d1].
  destruct Hw as [Hout Hw]; [lia..|]. destruct (Z.ltb_spec ret 0) as [Hr|Hr].
  { exists ret, d1. split_and!; [done| |by left]. intros x Hx. apply Hout. lia. }
  destruct Hw as [?|[_ Hw]]; [lia|].
  destruct (IH (S i) d1) as (ret2 & d2 & Hrun & Hout2 & Hw2); [lia..|].
  exists ret2, d2. split; [done|]. split.
  { intros x Hx. rewrite Hout2 by lia. apply Hout. lia. }
  destruct Hw2 as [?|[-> Hw2]]; [by left|right]. split; [done|]. intros x. rewrite Hw2.
  rewrite (drop_S buff c i Hc). cbn [take].
  assert (length (take n (drop (S i) buff)) = n) as Hlen by (rewrite length_take, length_drop; lia).
  destruct (decide (at_ + Z.of_nat i + 1 ≤ x < at_ + Z.of_nat i + 1 + Z.of_nat n)).
  - rewrite !mem_store_in by (cbn [length]; lia).
    replace (Z.to_nat (x - (at_ + Z.of_nat i))) with (S (Z.to_nat (x - (at_ + Z.of_nat (S i))))) by lia.
    done.
  - rewrite mem_store_out by lia. rewrite Hw.
    destruct (decide (x = at_ + Z.of_nat i)) as [->|].
    + rewrite !mem_store_in by (cbn [length]; lia).
      replace (Z.to_nat _) with 0%nat by lia. by replace (Z.to_nat _) with 0%nat by lia.
    + rewrite !mem_store_out; [done|cbn [length]; lia..].
Qed.

Lemma load_ext (m m' : memory) a n :
  (∀ x, a ≤ x < a + n → m x = m' x) → mem_load m a n = mem_load m' a n.
Proof. intros H. apply mem_load_shift. intros y Hy. apply H. lia. Qed.

End Chip.

(** ** A chip that never fails *)

#[export] Instance chip : nvmem memory := {|
  nvmem_device_read off n d := (n, mem_load d off n, d);
  nvmem_device_write off data d := (Z.of_nat (length data), mem_store d off data);
  cells d := d
|}.

Lemma chip_laws size : nvmem_laws memory size.
Proof. split; cbn; intros; (split; [done|right; done]) || (split; [|by right]). intros x Hx. by apply mem_store_out. Qed.
