(* ===== verification/StorageProps.v ===== *)
(** * Battery storage: properties

    The storage with its cache is compared with the same storage whose cache could not be
    allocated ([uncached]): reads and writes are both a call that goes through the
    providers ([serve]), from the cache or from the first one.  The laws of a provider
    ([desc_laws]) hold of the EEPROM ([gbee_laws]).  Then devices, and taking a provider
    offline. *)

From Stdlib Require Import String.
From S2P Require Import Prelude.
From S2P Require Import Storage.
From S2P Require Import Eeprom.
From S2P Require Import EepromLayout.

(** ** Tags *)

Lemma tag_roundtrip t : 0 ≤ t < 2 ^ 32 → cstr2tag (tag2cstr t) = t.
Proof.
  intros Ht. unfold cstr2tag, tag2cstr. cbn [lookup list_lookup default from_option id].
  change 255 with (Z.ones 8). rewrite !Z.land_ones, !Z.shiftr_div_pow2, !Z.shiftl_mul_pow2 by lia.
  unfold u8, u32. Z.to_euclidean_division_equations. lia.
Qed.

Section Cache.
Context {W : Type}.

Abbreviation storage := (storage W).

(** The storage when its cache could not be allocated. *)
Definition uncached (s : storage) : storage :=
  Storage s.(gbms_storage_init_done) s.(gbms_providers_count) s.(gbms_providers) [] None.

(** ** Operations of clients and of providers *)

Inductive op :=
| Register (d : gbms_storage_desc W) (nm : string) (p : Z)
| Read (t : Z) (data : bool) (n : Z)
| Write (t : Z) (data : option (list Z)) (n : Z)
| ReadData (t : Z) (data : bool) (n idx : Z)
| WriteData (t : Z) (data : option (list Z)) (n idx : Z)
| Flush.

(** The result and the data read. *)
Definition run_op (o : op) (s : storage) (w : W) : outcome (Z * list Z * storage * W) :=
  match o with
  | Register d nm p => '(ret, s) ← gbms_storage_register (Some d) (Some nm) p s; Ok (ret, [], s, w)
  | Read t data n => gbms_storage_read t data n s w
  | Write t data n => '(ret, s, w) ← gbms_storage_write t data n s w; Ok (ret, [], s, w)
  | ReadData t data n idx =>
      '(ret, out, w) ← gbms_storage_read_data t data n idx s w; Ok (ret, out, s, w)
  | WriteData t data n idx =>
      '(ret, w) ← gbms_storage_write_data t data n idx s w; Ok (ret, [], s, w)
  | Flush => '(ret, w) ← gbms_storage_flush_all s w; Ok (ret, [], s, w)
  end.

(** All the results, and the devices at the end. *)
Fixpoint run (ops : list op) (s : storage) (w : W) : outcome (list (Z * list Z) * W) :=
  match ops with
  | [] => Ok ([], w)
  | o :: ops =>
      '(ret, out, s, w) ← run_op o s w;
      '(results, w) ← run ops s w;
      Ok ((ret, out) :: results, w)
  end.

(** ** What the cache relies on *)

Context (owner : Z → Z).

(** A provider answers -ENOENT to the tags that it does not own, and does nothing when
    it answers so; it both reads and writes tags, or neither. *)
Record desc_laws (p : Z) (d : gbms_storage_desc W) : Prop := {
  law_both : is_some d.(read) = is_some d.(write);
  law_read_other rd t data n w : d.(read) = Some rd → owner t ≠ p →
    rd t data n p w = Ok (- ENOENT, [], w);
  law_write_other wr t data n w : d.(write) = Some wr → owner t ≠ p →
    wr t data n p w = Ok (- ENOENT, w);
  law_read_refused rd t data n w out w' : d.(read) = Some rd →
    rd t data n p w = Ok (- ENOENT, out, w') → w' = w ∧ out = [];
  law_write_refused wr t data n w w' : d.(write) = Some wr →
    wr t data n p w = Ok (- ENOENT, w') → w' = w
}.

Definition op_laws (o : op) : Prop :=
  match o with Register d _ p => desc_laws p d | _ => True end.

Definition op_ptrs (o : op) : list Z := match o with Register _ _ p => [p] | _ => [] end.

(** A storage in which no provider has registered. *)
Record started (s : storage) : Prop := {
  st_length : length s.(gbms_providers) = GBMS_PROVIDERS_MAX;
  st_count : (s.(gbms_providers_count) ≤ GBMS_PROVIDERS_MAX)%nat;
  st_slots : Forall (λ p, p.(dsc) = None ∧ p.(offline) = false) s.(gbms_providers);
  st_cache : s.(gbms_cache) = []
}.

(** ** Invariant *)

Record storage_inv (later : list Z) (s : storage) : Prop := {
  si_length : length s.(gbms_providers) = GBMS_PROVIDERS_MAX;
  si_count : (s.(gbms_providers_count) ≤ GBMS_PROVIDERS_MAX)%nat;
  si_online : Forall (λ p, p.(offline) = false) s.(gbms_providers);
  si_beyond i p : s.(gbms_providers) !! i = Some p → (s.(gbms_providers_count) ≤ i)%nat →
    p.(dsc) = None;
  si_laws i p d : s.(gbms_providers) !! i = Some p → p.(dsc) = Some d →
    desc_laws p.(ptr) d ∧ p.(ptr) ∉ later;
  si_ptrs i j p q : s.(gbms_providers) !! i = Some p → s.(gbms_providers) !! j = Some q →
    is_some p.(dsc) = true → is_some q.(dsc) = true → p.(ptr) = q.(ptr) → i = j;
  si_cache ce : ce ∈ s.(gbms_cache) → ∃ p d, s.(gbms_providers) !! ce.(provider) = Some p
    ∧ p.(dsc) = Some d ∧ is_some d.(read) = true ∧ p.(ptr) = owner ce.(tag)
}.

(** ** Serving a tag *)

(** Reading and writing go through the providers in the same way. *)
Definition call : Type := gbms_storage_provider W → option (W → outcome (Z * list Z * W)).

Definition call_read (t : Z) (data : bool) (n : Z) : call := λ slot,
  slot.(dsc) ≫= λ d, (λ rd w, rd t data n slot.(ptr) w) <$> d.(read).

Definition call_write (t : Z) (data : list Z) (n : Z) : call := λ slot,
  slot.(dsc) ≫= λ d,
    (λ wr w, '(ret, w) ← wr t data n slot.(ptr) w; Ok (ret, [], w)) <$> d.(write).

Fixpoint serve (f : call) (t : Z) (i : nat) (l : list (gbms_storage_provider W)) (s : storage)
    (w : W) : outcome (Z * list Z * bool * storage * W) :=
  match l with
  | [] => Ok (- ENOENT, [], false, s, w)
  | slot :: l =>
      match slot.(dsc), f slot with
      | None, _ => '(ret, out, _, s, w) ← serve f t (S i) l s w; Ok (ret, out, true, s, w)
      | _, None => serve f t (S i) l s w
      | _, Some c =>
          '(ret, out, w) ← c w;
          '(_, s) ← (if 0 <=? ret then gbms_cache_add t (Some i) s else Ok (None, s));
          if ret =? - ENOENT then serve f t (S i) l s w else Ok (ret, out, false, s, w)
      end
  end.

Lemma bind_assoc {A B C} (o : outcome A) (f : A → outcome B) (g : B → outcome C) :
  (o ≫= f) ≫= g = o ≫= (λ x, f x ≫= g).
Proof. by destruct o. Qed.

Lemma bind_ext {A B} (o : outcome A) (f g : A → outcome B) :
  (∀ x, f x = g x) → o ≫= f = o ≫= g.
Proof. intros H. destruct o; [apply H|done|done]. Qed.

Lemma read_from_serve t data n i l s w :
  read_from t data n i l s w = serve (call_read t data n) t i l s w.
Proof.
  revert i s w. induction l as [|slot l IH]; intros i s w; [done|]. cbn [read_from serve].
  unfold call_read at 1. destruct (dsc slot) as [d|]; cbn; [|by rewrite IH].
  destruct (read d) as [rd|]; cbn; [|by rewrite IH].
  apply bind_ext. intros [[ret out] w']. apply bind_ext. intros [_ s']. by rewrite IH.
Qed.

Lemma write_from_serve t data n i l s w :
  Forall (λ p, p.(offline) = false) l →
  ('(ret, late, s, w) ← write_from t data n i l s w; Ok (ret, [], late, s, w))
  = serve (call_write t data n) t i l s w.
Proof.
  intros Hl. revert i s w. induction Hl as [|slot l Hs _ IH]; intros i s w; [done|].
  cbn [write_from serve]. rewrite Hs. unfold call_write at 1.
  destruct (dsc slot) as [d|]; cbn; [|rewrite <-IH, !bind_assoc; apply bind_ext; by intros [[[]]]].
  destruct (write d) as [wr|]; cbn; [|by rewrite IH].
  rewrite !bind_assoc. apply bind_ext. intros [ret w']. cbn [mbind outcome_bind].
  rewrite !bind_assoc. apply bind_ext. intros [_ s']. by destruct (ret =? - ENOENT); [rewrite IH|].
Qed.

(** What a call answers for the tag [t]. *)
Record call_laws (f : call) (t : Z) : Prop := {
  cl_other slot c w d : slot.(dsc) = Some d → desc_laws slot.(ptr) d → f slot = Some c →
    owner t ≠ slot.(ptr) → c w = Ok (- ENOENT, [], w);
  cl_refused slot c w out w' d : slot.(dsc) = Some d → desc_laws slot.(ptr) d →
    f slot = Some c → c w = Ok (- ENOENT, out, w') → w' = w ∧ out = [];
  cl_reads slot d : slot.(dsc) = Some d → desc_laws slot.(ptr) d →
    is_some (f slot) = is_some d.(read)
}.

Lemma call_read_laws t data n : call_laws (call_read t data n) t.
Proof.
  split; unfold call_read.
  - intros slot c w d -> Hd. cbn. destruct (read d) as [rd|] eqn:Hr; [|done]. intros [= <-] Ho.
    by eapply law_read_other.
  - intros slot c w out w' d -> Hd. cbn. destruct (read d) as [rd|] eqn:Hr; [|done]. intros [= <-].
    by apply (law_read_refused _ _ Hd).
  - intros slot d -> Hd. cbn. by destruct (read d).
Qed.

Lemma call_write_laws t data n : call_laws (call_write t data n) t.
Proof.
  split; unfold call_write.
  - intros slot c w d -> Hd. cbn. destruct (write d) as [wr|] eqn:Hr; [|done]. intros [= <-] Ho.
    by rewrite (law_write_other _ _ Hd wr).
  - intros slot c w out w' d -> Hd. cbn. destruct (write d) as [wr|] eqn:Hr; [|done]. intros [= <-].
    destruct (wr _ _ _ _ _) as [[ret w1]| |] eqn:Hw; [|done|done]. cbn. intros [= -> <- <-].
    split; [|done]. by apply (law_write_refused _ _ Hd wr t data n).
  - intros slot d -> Hd. cbn. rewrite (law_both _ _ Hd). by destruct (write d).
Qed.


(** ** The cache *)

Definition agrees (later : list Z) (s s' : storage) : Prop :=
  storage_inv later s' ∧ uncached s' = uncached s.

Lemma agrees_refl later s : storage_inv later s → agrees later s s.
Proof. done. Qed.

Lemma agrees_trans later s1 s2 s3 : agrees later s1 s2 → agrees later s2 s3 → agrees later s1 s3.
Proof. intros [_ H1] [Hi H2]. split; [done|congruence]. Qed.

Lemma cache_add_same later t i s slot d :
  storage_inv later s → s.(gbms_providers) !! i = Some slot → slot.(dsc) = Some d →
  is_some d.(read) = true → slot.(ptr) = owner t →
  ∃ ce s', gbms_cache_add t (Some i) s = Ok (ce, s') ∧ agrees later s s'.
Proof.
  intros Hi Hs Hd Hr Ho. unfold gbms_cache_add.
  destruct (gbms_cache_pool s) as [[|free]|]; [by do 2 eexists| |by do 2 eexists].
  rewrite Hs. cbn. rewrite Hd. cbn. do 2 eexists. split; [reflexivity|]. split; [|done].
  destruct Hi as [Hl Hc Hon Hb Hlaw Hp Hca]. split; try done. cbn.
  intros ce [->|Hce]%elem_of_cons; [|by apply Hca].
  exists slot, d. repeat case_match; done.
Qed.

Lemma uncached_add t i s : gbms_cache_add t i (uncached s) = Ok (None, uncached s).
Proof. done. Qed.

(** The providers that [serve] goes through are those from [i] on. *)
Definition from (i : nat) (l : list (gbms_storage_provider W)) (s : storage) : Prop :=
  ∀ j p, l !! j = Some p → s.(gbms_providers) !! (i + j)%nat = Some p.

Lemma from_cons i slot l s : from i (slot :: l) s →
  s.(gbms_providers) !! i = Some slot ∧ from (S i) l s.
Proof.
  intros H. split; [by rewrite <-(H 0%nat slot eq_refl), Nat.add_0_r|].
  intros j p Hj. rewrite <-(H (S j) p Hj). f_equal. lia.
Qed.

Lemma from_same later i l s s' : agrees later s s' → from i l s → from i l s'.
Proof. intros [_ H] Hf j p Hj. apply (f_equal gbms_providers) in H. cbn in H. rewrite H. by apply Hf. Qed.

Lemma from_table s : from 0 (take s.(gbms_providers_count) s.(gbms_providers)) s.
Proof. intros j p Hj. by apply lookup_take_Some in Hj as [Hj _]. Qed.

Lemma serve_same f t later i l s w :
  call_laws f t → storage_inv later s → from i l s →
  match serve f t i l (uncached s) w with
  | Ok (ret, out, late, s0, w') => s0 = uncached s
      ∧ ∃ s', serve f t i l s w = Ok (ret, out, late, s', w') ∧ agrees later s s'
  | Blocked => serve f t i l s w = Blocked
  | Undef => serve f t i l s w = Undef
  end.
Proof.
  intros Hf. revert i s w. induction l as [|slot l IH]; intros i s w Hi Hl.
  { split; [done|]. by exists s. }
  apply from_cons in Hl as [Hs Hl]. cbn [serve]. destruct (dsc slot) as [d|] eqn:Hd.
  - destruct (f slot) as [c|] eqn:Hc; [|by apply IH].
    destruct (c w) as [[[ret out] w']| |] eqn:Hw; cbn [mbind outcome_bind]; [|done|done].
    destruct (si_laws _ _ Hi _ _ _ Hs Hd) as [Hlaw _].
    assert (∃ s', (if 0 <=? ret then gbms_cache_add t (Some i) s else Ok (None, s)) ≫= (λ p, Ok p.2)
        = Ok s' ∧ agrees later s s') as (s' & Hadd & Hsame).
    { destruct (Z.leb_spec 0 ret); [|by exists s].
      destruct (cache_add_same later t i s slot d) as (ce & s' & -> & H'); try done.
      - rewrite <-(cl_reads _ _ Hf _ _ Hd Hlaw). by rewrite Hc.
      - destruct (decide (owner t = slot.(ptr))) as [->|Hne]; [done|].
        rewrite (cl_other _ _ Hf _ _ _ _ Hd Hlaw Hc Hne) in Hw. injection Hw as <- _ _. done.
      - by exists s'. }
    assert ((if 0 <=? ret then gbms_cache_add t (Some i) (uncached s) else Ok (None, uncached s))
      = Ok (None, uncached s)) as -> by (by destruct (0 <=? ret)).
    destruct (if 0 <=? ret then gbms_cache_add t (Some i) s else _) as [[ce s1]| |];
      cbn in Hadd; [|done|done]. injection Hadd as ->. cbn [mbind outcome_bind].
    destruct (ret =? - ENOENT); [|split; [done|by exists s']].
    specialize (IH (S i) s' w' (proj1 Hsame) (from_same _ _ _ _ _ Hsame Hl)).
    rewrite (proj2 Hsame) in IH.
    destruct (serve f t (S i) l (uncached s) w') as [[[[[r o] la] s0] w0]| |]; [|done|done].
    destruct IH as [-> (s2 & -> & H2)]. split; [done|]. exists s2. split; [done|].
    by eapply agrees_trans.
  - specialize (IH (S i) s w Hi Hl).
    destruct (serve f t (S i) l (uncached s) w) as [[[[[r o] la] s0] w0]| |]; [|by rewrite IH|by rewrite IH].
    destruct IH as [-> (s2 & -> & H2)]. split; [done|]. by exists s2.
Qed.

(** Going through the providers ends at the owner of the tag, unless it refuses. *)
Lemma serve_owner f t later i l s w j slot d c :
  call_laws f t → storage_inv later s → from i l s →
  l !! j = Some slot → slot.(dsc) = Some d → f slot = Some c → slot.(ptr) = owner t →
  match c w with
  | Ok (ret, out, w') =>
      ret ≠ - ENOENT → ∃ late, serve f t i l (uncached s) w = Ok (ret, out, late, uncached s, w')
  | Blocked => serve f t i l (uncached s) w = Blocked
  | Undef => serve f t i l (uncached s) w = Undef
  end.
Proof.
  intros Hf Hi. revert i j. induction l as [|p l IH]; intros i j Hl Hj Hd Hc Ho; [done|].
  apply from_cons in Hl as [Hp Hl]. cbn [serve]. destruct j as [|j].
  - injection Hj as ->. rewrite Hd, Hc. destruct (c w) as [[[ret out] w']| |]; [|done|done].
    intros Hr. exists false. cbn [mbind outcome_bind].
    rewrite (proj2 (Z.eqb_neq _ _) Hr). by destruct (0 <=? ret).
  - specialize (IH (S i) j Hl Hj Hd Hc Ho).
    pose proof (Hl j slot Hj) as Hslot.
    assert (serve f t i (p :: l) (uncached s) w =
      if is_some p.(dsc) then serve f t (S i) l (uncached s) w
      else '(ret, out, _, s, w) ← serve f t (S i) l (uncached s) w; Ok (ret, out, true, s, w)) as Heq.
    { cbn [serve]. destruct (dsc p) as [dp|] eqn:Hdp; [|done].
      destruct (f p) as [cp|] eqn:Hcp; [|done]. destruct (si_laws _ _ Hi _ _ _ Hp Hdp) as [Hlaw _].
      rewrite (cl_other _ _ Hf _ _ _ _ Hdp Hlaw Hcp); [done|]. rewrite <-Ho. intros He.
      assert (S i + j = i)%nat as Hij; [|lia].
      apply (si_ptrs _ _ Hi _ _ slot p); rewrite ?Hd, ?Hdp; done. }
    cbn [serve] in Heq. rewrite Heq.
    destruct (c w) as [[[ret out] w']| |]; [|by rewrite IH; destruct (is_some _)..].
    intros Hr. destruct (IH Hr) as [late ->]. destruct (is_some _); by eexists.
Qed.

(** A cached tag is asked of its owner. *)
Lemma lookup_owner later t s ce : storage_inv later s → gbms_cache_lookup t s = Some ce →
  ∃ slot d, s.(gbms_providers) !! ce.(provider) = Some slot
    ∧ take s.(gbms_providers_count) s.(gbms_providers) !! ce.(provider) = Some slot
    ∧ slot.(offline) = false ∧ slot.(dsc) = Some d ∧ is_some d.(read) = true
    ∧ slot.(ptr) = owner t.
Proof.
  intros Hi. unfold gbms_cache_lookup. destruct (list_find _ _) as [[k e]|] eqn:He; [|done].
  cbn. intros [= ->]. apply list_find_Some in He as (Hk & <- & _).
  destruct (si_cache _ _ Hi ce (list_elem_of_lookup_2 _ _ _ Hk)) as (slot & d & Hs & Hd & Hr & Ho).
  exists slot, d. split_and!; try done.
  - apply lookup_take_Some. split; [done|]. destruct (decide (ce.(provider) < s.(gbms_providers_count)))%nat;
      [done|]. rewrite (si_beyond _ _ Hi _ _ Hs) in Hd; [done|lia].
  - by apply (Forall_lookup_1 _ _ _ _ (si_online _ _ Hi) Hs).
Qed.

(** What an access does, with its cache or without. *)
Definition access (f : call) (t : Z) (s : storage) (w : W) : outcome (Z * list Z * storage * W) :=
  '(ret, out, w) ← match gbms_cache_lookup t s with
                   | None => Ok (- ENOENT, [], w)
                   | Some ce => slot ← must (s.(gbms_providers) !! ce.(provider)); c ← must (f slot); c w
                   end;
  if ret =? - ENOENT then
    '(ret, out, late, s, w)
      ← serve f t 0 (take s.(gbms_providers_count) s.(gbms_providers)) s w;
    Ok (defer late ret, out, s, w)
  else Ok (ret, out, s, w).

Lemma access_same f t later s w : call_laws f t → storage_inv later s →
  match access f t (uncached s) w with
  | Ok (ret, out, s0, w') => s0 = uncached s
      ∧ ∃ s', access f t s w = Ok (ret, out, s', w') ∧ agrees later s s'
  | Blocked => access f t s w = Blocked
  | Undef => access f t s w = Undef
  end.
Proof.
  intros Hf Hi. set (l := take s.(gbms_providers_count) s.(gbms_providers)).
  pose proof (serve_same f t later 0 l s w Hf Hi (from_table s)) as Hmiss.
  assert (access f t (uncached s) w
    = '(ret, out, late, s, w) ← serve f t 0 l (uncached s) w; Ok (defer late ret, out, s, w)) as ->
    by done.
  assert (gbms_cache_lookup t s = None ∨ ∃ slot c d, gbms_cache_lookup t s ≫= (λ ce,
      s.(gbms_providers) !! ce.(provider)) = Some slot ∧ f slot = Some c ∧ slot.(dsc) = Some d
      ∧ desc_laws slot.(ptr) d ∧ slot.(ptr) = owner t ∧ ∃ j, l !! j = Some slot) as [Hn|Hhit].
  { destruct (gbms_cache_lookup t s) as [ce|] eqn:Hce; [right|by left].
    destruct (lookup_owner _ _ _ _ Hi Hce) as (slot & d & Hs & Ht & _ & Hd & Hr & Ho).
    destruct (si_laws _ _ Hi _ _ _ Hs Hd) as [Hlaw _].
    rewrite <-(cl_reads _ _ Hf _ _ Hd Hlaw) in Hr. destruct (f slot) as [c|] eqn:Hc; [|done].
    exists slot, c, d. split_and!; try done. by exists ce.(provider). }
  - unfold access. rewrite Hn. cbn [mbind outcome_bind Z.eqb]. fold l. rewrite Z.eqb_refl.
    destruct (serve f t 0 l (uncached s) w) as [[[[[r o] la] s0] w0]| |]; [|by rewrite Hmiss..].
    destruct Hmiss as [-> (s' & -> & H')]. split; [done|]. by exists s'.
  - destruct Hhit as (slot & c & d & Hlk & Hc & Hd & Hlaw & Ho & j & Hj). unfold access.
    destruct (gbms_cache_lookup t s) as [ce|]; cbn in Hlk; [|done]. rewrite Hlk. cbn [must mbind outcome_bind].
    rewrite Hc. cbn [must mbind outcome_bind].
    pose proof (serve_owner f t later 0 l s w j slot d c Hf Hi (from_table s) Hj Hd Hc Ho) as Hown.
    destruct (c w) as [[[ret out] w']| |] eqn:Hw; cbn [mbind outcome_bind]; [|by rewrite Hown..].
    destruct (Z.eqb_spec ret (- ENOENT)) as [->|Hr].
    + destruct (cl_refused _ _ Hf _ _ _ _ _ _ Hd Hlaw Hc Hw) as [-> ->]. fold l.
      destruct (serve f t 0 l (uncached s) w) as [[[[[r o] la] s0] w0]| |]; [|by rewrite Hmiss..].
      destruct Hmiss as [-> (s' & -> & H')]. split; [done|]. by exists s'.
    + destruct (Hown Hr) as [late ->]. cbn [mbind outcome_bind]. unfold defer.
      rewrite (proj2 (Z.eqb_neq _ _) Hr), andb_false_r. split; [done|]. by exists s.
Qed.

(** ** Operations *)

Lemma read_access later t data n s w :
  storage_inv later s → s.(gbms_storage_init_done) = true → negb data && negb (n =? 0) = false →
  gbms_storage_read t data n s w = access (call_read t data n) t s w.
Proof.
  intros Hi Hinit Hdata. unfold gbms_storage_read, access. rewrite Hinit, Hdata. cbn [negb].
  assert (gbms_cache_read t data n s w = match gbms_cache_lookup t s with
    | None => Ok (- ENOENT, [], w)
    | Some ce => slot ← must (s.(gbms_providers) !! ce.(provider));
                 c ← must (call_read t data n slot); c w end) as ->.
  { unfold gbms_cache_read. destruct (gbms_cache_lookup t s) as [ce|] eqn:Hce; [|done].
    destruct (lookup_owner _ _ _ _ Hi Hce) as (slot & d & -> & _ & Hon & Hd & Hr & _).
    cbn [must mbind outcome_bind]. unfold call_read. rewrite Hon, Hd, Z.eqb_refl. cbn.
    destruct (read d); [|done]. by destruct (fetch d). }
  apply bind_ext. intros [[ret out] w']. destruct (ret =? - ENOENT); [|done].
  by rewrite read_from_serve.
Qed.

Lemma write_access later t data n s w :
  storage_inv later s → s.(gbms_storage_init_done) = true →
  negb (is_some data) && negb (n =? 0) = false →
  ('(ret, s, w) ← gbms_storage_write t data n s w; Ok (ret, [], s, w))
  = access (call_write t (default [] data) n) t s w.
Proof.
  intros Hi Hinit Hdata. unfold gbms_storage_write, access. rewrite Hinit, Hdata. cbn [negb].
  set (dat := default [] data).
  assert (('(ret, w) ← gbms_cache_write t dat n s w; Ok (ret, [], w)) =
    match gbms_cache_lookup t s with
    | None => Ok (- ENOENT, [], w)
    | Some ce => slot ← must (s.(gbms_providers) !! ce.(provider));
                 c ← must (call_write t dat n slot); c w end) as <-.
  { unfold gbms_cache_write. destruct (gbms_cache_lookup t s) as [ce|] eqn:Hce; [|done].
    destruct (lookup_owner _ _ _ _ Hi Hce) as (slot & d & Hs & _ & Hon & Hd & Hr & _).
    destruct (si_laws _ _ Hi _ _ _ Hs Hd) as [Hlaw _]. rewrite Hs.
    rewrite (law_both _ _ Hlaw) in Hr.
    cbn [must mbind outcome_bind]. unfold call_write. rewrite Hon, Hd, Z.eqb_refl. cbn.
    destruct (write d); [|done]. by destruct (store d). }
  rewrite !bind_assoc. apply bind_ext. intros [ret w']. cbn [mbind outcome_bind].
  destruct (ret =? - ENOENT); [|done].
  rewrite <-write_from_serve by (apply Forall_take, (si_online _ _ Hi)).
  rewrite !bind_assoc. apply bind_ext. by intros [[[]]].
Qed.

Lemma find_slot_spec nm k (l : list (gbms_storage_provider W)) i :
  find_slot nm k l = inr i →
  (k ≤ i)%nat ∧ match l !! (i - k)%nat with Some p => p.(dsc) = None | None => i = (k + length l)%nat end.
Proof.
  revert k. induction l as [|slot l IH]; intros k; cbn [find_slot].
  { intros [= <-]. split; [lia|]. rewrite lookup_nil. cbn. lia. }
  destruct (strncmp_eq _ _ _).
  - destruct (dsc slot) eqn:Hd; [done|]. intros [= <-]. split; [lia|]. by rewrite Nat.sub_diag.
  - intros H%IH. destruct H as [Hk H]. split; [lia|].
    replace (i - k)%nat with (S (i - S k)) by lia. cbn [lookup list_lookup length].
    destruct (l !! (i - S k)%nat); [done|lia].
Qed.

(** The slot that a registration takes holds no provider. *)
Lemma find_slot_free later nm s i : storage_inv later s → gbms_storage_find_slot nm s = inr i →
  (i ≤ s.(gbms_providers_count))%nat ∧ ∃ p, s.(gbms_providers) !! i = Some p ∧ p.(dsc) = None.
Proof.
  intros Hi. unfold gbms_storage_find_slot. set (l := take _ _).
  destruct (find_slot nm 0 l) as [e|k] eqn:Hf; [done|].
  destruct (Nat.eqb_spec k GBMS_PROVIDERS_MAX); [done|]. intros [= ->].
  apply find_slot_spec in Hf as [_ Hf]. rewrite Nat.sub_0_r, Nat.add_0_l in Hf.
  pose proof (si_length _ _ Hi). pose proof (si_count _ _ Hi).
  assert (length l = s.(gbms_providers_count)) as Hlen by (subst l; rewrite length_take; lia).
  destruct (l !! i) as [p|] eqn:Hp.
  - pose proof (lookup_lt_Some _ _ _ Hp). apply lookup_take_Some in Hp as [Hp _].
    split; [lia|]. by exists p.
  - split; [lia|]. destruct (lookup_lt_is_Some_2 s.(gbms_providers) i) as [p Hq]; [lia|].
    exists p. split; [done|]. apply (si_beyond _ _ Hi i); [done|lia].
Qed.

Lemma register_same d nm p later s :
  storage_inv (p :: later) s → desc_laws p d → p ∉ later →
  ∃ ret s', gbms_storage_register (Some d) (Some nm) p s = Ok (ret, s')
    ∧ gbms_storage_register (Some d) (Some nm) p (uncached s) = Ok (ret, uncached s')
    ∧ storage_inv later s'.
Proof.
  intros Hi Hd Hp.
  assert (storage_inv later s) as Hi'.
  { destruct Hi as [H1 H2 H3 H4 H5 H6 H7]. split; try done. intros i q e Hq He.
    destruct (H5 i q e Hq He) as [? Hn]. split; [done|]. by apply not_elem_of_cons in Hn as [_ ?]. }
  unfold gbms_storage_register, gbms_storage_register_internal.
  cbn [gbms_storage_init_done uncached]. destruct (gbms_storage_init_done s) eqn:Hin;
    cbn [negb]; [|by do 2 eexists].
  destruct (GBMS_PROVIDER_NAME_MAX <=? String.length nm)%nat; [by do 2 eexists|].
  change (gbms_storage_find_slot nm (uncached s)) with (gbms_storage_find_slot nm s).
  destruct (gbms_storage_find_slot nm s) as [e|i] eqn:Hf; [by do 2 eexists|].
  destruct (find_slot_free _ _ _ _ Hi Hf) as [Hic (slot & Hs & Hnone)].
  cbn [uncached gbms_providers gbms_providers_count]. rewrite Hs. cbn [must mbind outcome_bind].
  do 2 eexists. split; [reflexivity|]. split; [done|].
  pose proof (si_length _ _ Hi) as Hlen. pose proof (lookup_lt_Some _ _ _ Hs) as Hlt.
  assert (∀ j q, <[i := Provider nm (Some d) slot.(offline) p]> s.(gbms_providers) !! j = Some q →
    j = i ∧ q = Provider nm (Some d) slot.(offline) p ∨ j ≠ i ∧ s.(gbms_providers) !! j = Some q) as Hcases.
  { intros j q. destruct (decide (j = i)) as [->|Hne].
    - rewrite list_lookup_insert_eq by done. intros [= <-]. by left.
    - rewrite list_lookup_insert_ne by done. by right. }
  destruct Hi as [_ H2 H3 H4 H5 H6 H7].
  split; cbn [set_providers gbms_providers gbms_providers_count gbms_cache].
  - by rewrite length_insert.
  - destruct (Nat.eqb_spec i s.(gbms_providers_count)); [|done]. rewrite <-Hlen. lia.
  - apply Forall_insert; [done|]. cbn. by apply (Forall_lookup_1 _ _ _ _ H3 Hs).
  - intros j q [[-> ->]|[Hne Hq]]%Hcases Hle.
    + exfalso. destruct (Nat.eqb_spec i s.(gbms_providers_count)); lia.
    + apply (H4 j); [done|]. destruct (i =? _)%nat; lia.
  - intros j q e [[-> ->]|[Hne Hq]]%Hcases; cbn; [by intros [= <-]|].
    intros He. destruct (H5 _ _ _ Hq He) as [? Hn]. by apply not_elem_of_cons in Hn as [_ ?].
  - assert (∀ j q, s.(gbms_providers) !! j = Some q → is_some q.(dsc) = true → q.(ptr) ≠ p) as Hother.
    { intros j q Hq He. destruct (dsc q) as [e|] eqn:Heq; [|done].
      destruct (H5 _ _ _ Hq Heq) as [_ Hn]. by apply not_elem_of_cons in Hn as [? _]. }
    intros j k q r [[-> ->]|[Hj Hq]]%Hcases [[-> ->]|[Hk Hr]]%Hcases; cbn; intros Hq1 Hr1 He; try done.
    + by destruct (Hother _ _ Hr Hr1).
    + by destruct (Hother _ _ Hq Hq1).
    + by apply (H6 j k q r).
  - intros ce Hce. destruct (H7 ce Hce) as (q & e & Hq & He & Hr). exists q, e.
    destruct (decide (ce.(provider) = i)) as [Heq|Hne].
    + rewrite Heq, Hs in Hq. injection Hq as <-. congruence.
    + by rewrite list_lookup_insert_ne by done.
Qed.

Lemma uncached_inv later s : storage_inv later s → storage_inv later (uncached s).
Proof. intros Hi. destruct Hi. split; try done. intros ce H. by apply elem_of_nil in H. Qed.

Lemma op_same o later s w :
  storage_inv (op_ptrs o ++ later) s → NoDup (op_ptrs o ++ later) → op_laws o →
  match run_op o (uncached s) w with
  | Ok (ret, out, s0, w') => ∃ s', s0 = uncached s' ∧ run_op o s w = Ok (ret, out, s', w')
      ∧ storage_inv later s'
  | Blocked => run_op o s w = Blocked
  | Undef => run_op o s w = Undef
  end.
Proof.
  intros Hi Hnd Ho. destruct o as [d nm p|t data n|t data n|t data n idx|t data n idx|]; cbn [run_op op_ptrs app] in *.
  - apply NoDup_cons in Hnd as [Hp _].
    destruct (register_same d nm p later s Hi Ho Hp) as (ret & s' & -> & -> & Hi'). by exists s'.
  - destruct (gbms_storage_init_done s) eqn:Hin; [|unfold gbms_storage_read; cbn; rewrite Hin; by exists s].
    destruct (negb data && negb (n =? 0)) eqn:Hdata;
      [unfold gbms_storage_read; cbn; rewrite Hin, Hdata; by exists s|].
    rewrite (read_access later t data n s w Hi Hin Hdata).
    assert (gbms_storage_read t data n (uncached s) w = access (call_read t data n) t (uncached s) w) as ->.
    { apply (read_access later); [by apply uncached_inv|done|done]. }
    pose proof (access_same (call_read t data n) t later s w (call_read_laws t data n) Hi) as H.
    destruct (access _ _ (uncached s) w) as [[[[r out] s0] w']| |]; [|done|done].
    destruct H as [-> (s' & -> & H1 & H2)]. by exists s'.
  - destruct (gbms_storage_init_done s) eqn:Hin; [|unfold gbms_storage_write; cbn; rewrite Hin; by exists s].
    destruct (negb (is_some data) && negb (n =? 0)) eqn:Hdata;
      [unfold gbms_storage_write; cbn [negb uncached gbms_storage_init_done]; rewrite Hin, Hdata; by exists s|].
    rewrite (write_access later t data n s w Hi Hin Hdata).
    rewrite (write_access later t data n (uncached s) w (uncached_inv _ _ Hi) Hin Hdata).
    pose proof (access_same (call_write t (default [] data) n) t later s w (call_write_laws _ _ _) Hi) as H.
    destruct (access _ _ (uncached s) w) as [[[[r out] s0] w']| |]; [|done|done].
    destruct H as [-> (s' & -> & H1 & H2)]. by exists s'.
  - change (gbms_storage_read_data t data n idx (uncached s) w) with (gbms_storage_read_data t data n idx s w).
    destruct (gbms_storage_read_data t data n idx s w) as [[[r out] w']| |]; [by exists s|done|done].
  - change (gbms_storage_write_data t data n idx (uncached s) w) with (gbms_storage_write_data t data n idx s w).
    destruct (gbms_storage_write_data t data n idx s w) as [[r w']| |]; [by exists s|done|done].
  - change (gbms_storage_flush_all (uncached s) w) with (gbms_storage_flush_all s w).
    destruct (gbms_storage_flush_all s w) as [[r w']| |]; [by exists s|done|done].
Qed.

Lemma run_same ops s w :
  storage_inv (concat (op_ptrs <$> ops)) s → NoDup (concat (op_ptrs <$> ops)) → Forall op_laws ops →
  run ops s w = run ops (uncached s) w.
Proof.
  revert s w. induction ops as [|o ops IH]; intros s w Hi Hnd Hl; [done|]. cbn [run].
  apply Forall_cons in Hl as [Ho Hl]. cbn in Hi, Hnd. pose proof (op_same o _ s w Hi Hnd Ho) as H.
  destruct (run_op o (uncached s) w) as [[[[r out] s0] w']| |]; [|by rewrite H..].
  destruct H as (s' & -> & -> & Hi'). cbn [mbind outcome_bind].
  rewrite (IH s' w' Hi'); [done| |done]. by apply NoDup_app in Hnd as (_ & _ & ?).
Qed.

Lemma started_inv later s : started s → storage_inv later s.
Proof.
  intros [Hlen Hc Hs Hca]. rewrite Forall_forall in Hs.
  assert (∀ i p, s.(gbms_providers) !! i = Some p → p.(dsc) = None) as Hnone.
  { intros i p Hp. by apply Hs, (list_elem_of_lookup_2 _ i). }
  split; try done.
  - apply Forall_forall. intros p Hp. by apply Hs.
  - intros i p Hp _. by apply (Hnone i).
  - intros i p d Hp Hd. by rewrite (Hnone i p Hp) in Hd.
  - intros i j p q Hp _ H. by rewrite (Hnone i p Hp) in H.
  - rewrite Hca. intros ce H. by apply elem_of_nil in H.
Qed.

End Cache.

(** ** The EEPROM is such a provider *)

Section Gbee.
Context {D : Type} `{!nvmem D}.
Context (read_errors : ∀ off n (d : D), 0 < n → (nvmem_device_read off n d).1.1 ≠ - ENOENT).
Context (write_errors : ∀ off data (d : D), (nvmem_device_write off data d).1 ≠ - ENOENT).

Lemma write_bytes_error n buff i at_ (d : D) ret d' :
  write_bytes n buff i at_ d = Ok (ret, d') → ret ≠ - ENOENT.
Proof.
  revert i d. induction n as [|n IH]; intros i d; cbn [write_bytes]; [by intros [= <- _]|].
  destruct (buff !! i) as [c|]; [|done]. cbn [must mbind outcome_bind].
  pose proof (write_errors (Z.of_nat i + at_) [c] d) as H. destruct (nvmem_device_write _ _ _) as [r d1].
  destruct (r <? 0); [|apply IH]. by intros [= <- _].
Qed.

Lemma gbee_laws v owner p :
  (∀ t, t = GBMS_TAG_BRID ∨ t ∈ tags v → owner t = p) → desc_laws owner p (gbee_operations (D := D) v).
Proof.
  intros Hown. split; cbn [gbee_operations read write].
  - done.
  - intros rd t data n w [= <-] Ho. unfold gbee_storage_read.
    destruct (Z.eqb_spec t GBMS_TAG_BRID); [by destruct Ho; apply Hown; left|].
    pose proof (info_field v t p) as H. destruct (field v t) as [[addr count]|].
    + destruct Ho. apply Hown. right. apply H.
    + by destruct H as (_ & addr & count & ->).
  - intros wr t data n w [= <-] Ho. unfold gbee_storage_write.
    destruct (gbee_storage_is_writable t); [|done].
    pose proof (info_field v t p) as H. destruct (field v t) as [[addr count]|].
    + destruct Ho. apply Hown. right. apply H.
    + by destruct H as (_ & addr & count & ->).
  - intros rd t data n w out w' [= <-]. unfold gbee_storage_read. destruct (t =? GBMS_TAG_BRID).
    { destruct (negb (n =? 4)); [done|].
      pose proof (read_errors BATT_EEPROM_TAG_BRID_OFFSET 1 w eq_refl) as He.
      destruct (nvmem_device_read _ _ _) as [[ret temp] d]. destruct (ret <? 0); [by intros [= ? _ _]|].
      by destruct (temp !! 0%nat). }
    pose proof (info_field v t p) as H. destruct (field v t) as [[addr count]|] eqn:Hf.
    + destruct H as [_ ->]. destruct (fields_fit v t addr count Hf) as (_ & Hc & _). cbn.
      rewrite (proj2 (Z.eqb_neq count 0)) by lia. destruct (n <? count); [done|].
      pose proof (read_errors addr count w Hc) as He. destruct (nvmem_device_read _ _ _) as [[ret temp] d].
      destruct (ret =? 0); [intros [= ? _ _]; unfold ENOENT in *; lia|by intros [= ? _ _]].
    + destruct H as (_ & addr & count & ->). by intros [= <- <-].
  - intros wr t data n w w' [= <-]. unfold gbee_storage_write.
    destruct (gbee_storage_is_writable t); [|by intros [= <-]]. cbn [negb].
    pose proof (info_field v t p) as H. destruct (field v t) as [[addr count]|] eqn:Hf.
    + destruct H as [_ ->]. cbn. destruct (count <? n); [done|].
      destruct (write_bytes _ _ _ _ _) as [[ret d]| |] eqn:Hw; [|done|done]. cbn.
      pose proof (write_bytes_error _ _ _ _ _ _ _ Hw) as He.
      destruct (ret <? 0); [by intros [= ? _]|]. intros [= Hn <-].
      replace (Z.to_nat n) with 0%nat in Hw by (unfold ENOENT in *; lia). by injection Hw as _ <-.
    + destruct H as (_ & addr & count & ->). by intros [= <-].
Qed.

End Gbee.

(** ** A storage that has just started *)

Lemma register_ref_started {W} nm p (s : storage W) : started s →
  ∃ ret s', gbms_storage_register_internal None nm p s = Ok (ret, s') ∧ started s'.
Proof.
  intros Hs. unfold gbms_storage_register_internal. destruct nm as [nm|]; [|by do 2 eexists].
  destruct (GBMS_PROVIDER_NAME_MAX <=? String.length nm)%nat; [by do 2 eexists|].
  destruct (gbms_storage_find_slot nm s) as [e|i] eqn:Hf; [by do 2 eexists|].
  destruct (find_slot_free (λ _, 0) [] nm s i (started_inv _ _ _ Hs) Hf) as [Hi (slot & Hslot & _)].
  rewrite Hslot. cbn [must mbind outcome_bind]. do 2 eexists. split; [reflexivity|].
  destruct Hs as [Hl Hc Hs Hca]. pose proof (lookup_lt_Some _ _ _ Hslot).
  split; cbn [set_providers gbms_providers gbms_providers_count gbms_cache]; [| | |done].
  - by rewrite length_insert.
  - destruct (i =? _)%nat eqn:He; [|done]. apply Nat.eqb_eq in He. rewrite <-Hl. lia.
  - apply Forall_insert; [done|]. split; [done|]. by apply (Forall_lookup_1 _ _ _ _ Hs Hslot).
Qed.

Lemma refs_started {D} l (s : storage D) : started s →
  ∃ s', gbms_storage_parse_provider_refs l s = Ok s' ∧ started s'.
Proof.
  revert s. induction l as [|[nm|] l IH]; intros s Hs; cbn [gbms_storage_parse_provider_refs];
    [by exists s| |by apply IH].
  destruct (register_ref_started (Some nm) 0 s Hs) as (ret & s' & -> & Hs'). by apply IH.
Qed.

(** The start always returns, with a storage that waits for its providers. *)
Lemma init_started {D} cached kstrdup node :
  ∃ ret (s : storage D) b, gbms_storage_init cached kstrdup node = Ok (ret, s, b) ∧ started s.
Proof.
  unfold gbms_storage_init.
  set (s0 := Storage false 0 _ [] _). assert (started s0) as H0.
  { split; [done|cbn; lia| |done]. by apply Forall_replicate. }
  destruct node as [node|]; [|do 3 eexists; split; [reflexivity|by destruct H0]].

  destruct (is_some _ && negb kstrdup); [by do 3 eexists|].
  assert (∃ ret s', (if is_some node.(google_bee_name)
    then gbms_storage_register_internal None node.(google_bee_name) 0 s0 else Ok (0, s0)) = Ok (ret, s')
    ∧ started s') as (ret & s1 & -> & H1).
  { destruct (is_some _); [by apply register_ref_started|by do 2 eexists]. }
  cbn [mbind outcome_bind].
  destruct (refs_started node.(google_gbms_providers) s1 H1) as (s2 & -> & H2). cbn [mbind outcome_bind].
  do 3 eexists. split; [reflexivity|]. by destruct H2.
Qed.

(** ** The cache changes no result *)

(** C19.  Providers register, clients read, write and flush, in any order: with the cache
    every operation returns what it returns without, the same data is read, and the
    devices end up in the same state, if no two providers own a tag and each provider
    both reads and writes tags. *)
Theorem storage_cache_transparent {W} (owner : Z → Z) (ops : list (op (W := W))) (s : storage W) w :
  started s → Forall (op_laws owner) ops → NoDup (concat (op_ptrs <$> ops)) →
  run ops s w = run ops (uncached s) w.
Proof. intros Hs Hl Hn. apply (run_same owner); [by apply started_inv|done|done]. Qed.

Definition demo_node : bms_node := BmsNode (Some "bee") [Some "maxfg"] (Some 0xff).

Definition demo_owner (t : Z) : Z := if existsb (Z.eqb t) (GBMS_TAG_BRID :: tags gbee_storage_dsc) then 1 else 0.

Definition demo_ops : list (op (W := memory)) :=
  [Read GBMS_TAG_GMSR true 23; Register (gbee_operations gbee_storage_dsc) "bee" 1;
   Write GBMS_TAG_CNHS (Some [5; 6]) 2; Read GBMS_TAG_CNHS true 2; Read GBMS_TAG_CNHS true 1;
   Read 7 true 4; Write GBMS_TAG_MINF (Some [1]) 1; Flush].

Lemma storage_cache_transparent_witness :
  Forall (op_laws demo_owner) demo_ops ∧
  ∃ s b, gbms_storage_init true true (Some demo_node) = Ok (0, s, b) ∧ started s
  ∧ run demo_ops s (λ _, 0xff) = run demo_ops (uncached s) (λ _, 0xff)
  ∧ fst <$> run demo_ops s (λ _, 0xff)
    = Ok [(- EPROBE_DEFER, []); (0, []); (2, []); (2, [5; 6]); (- ENOMEM, []);
          (- EPROBE_DEFER, []); (- EPROBE_DEFER, []); (0, [])].
Proof.
  assert (Forall (op_laws demo_owner) demo_ops) as Hl.
  { apply Forall_cons; split; [done|]. apply Forall_cons; split; [|by repeat constructor]. cbn [op_laws].
    apply gbee_laws; [cbn; intros; unfold ENOENT; lia|cbn; intros; unfold ENOENT; lia|].
    intros t Ht. unfold demo_owner.
    assert (existsb (Z.eqb t) (GBMS_TAG_BRID :: tags gbee_storage_dsc) = true) as ->; [|done].
    apply existsb_exists. exists t. split; [|apply Z.eqb_refl]. destruct Ht as [->|Ht]; [by left|right].
    by apply list_elem_of_In. }
  split; [exact Hl|]. destruct (@init_started memory true true (Some demo_node)) as (ret & s & b & Hi & Hs).
  exists s, b. assert (ret = 0) as -> by (vm_compute in Hi; by injection Hi). split; [exact Hi|]. split; [exact Hs|]. split.
  - apply (storage_cache_transparent demo_owner); [exact Hs|exact Hl|]. vm_compute. repeat constructor; set_solver.
  - vm_compute in Hi. injection Hi as <- _. vm_compute. reflexivity.
Defined.

(** ** Devices *)

(** The positions that a reader of the device sees: the start, then the next ones until
    there is none. *)
Fixpoint seq_shown (fuel : nat) (pos : option Z) (gdev : gbms_storage_device) : outcome (list Z) :=
  match pos with
  | None => Ok []
  | Some p =>
      match fuel with
      | O => Blocked
      | S fuel =>
          let '(next, gdev) := ct_seq_next gdev in
          l ← seq_shown fuel next gdev; Ok (p :: l)
      end
  end.

(** A reader sees every entry of the enumeration once, in order. *)
Lemma device_shows_all {W} gdev (s : storage W) w n out w' :
  gbms_storage_read_data gdev.(entry).(tag) false 0 0 s w = Ok (n, out, w') → 0 < n →
  ∃ gdev', ct_seq_start 0 gdev s w = Ok (Some 0, gdev', w')
    ∧ seq_shown (Z.to_nat n) (Some 0) gdev' = Ok (seqZ 0 n).
Proof.
  intros Hread Hn. unfold ct_seq_start. rewrite Hread. cbn [mbind outcome_bind].
  rewrite (proj2 (Z.ltb_ge n 0)), (proj2 (Z.leb_gt n 0)) by lia. eexists. split; [reflexivity|].
  assert (∀ m i e, i + Z.of_nat (S m) = n →
    seq_shown (S m) (Some i) (StorageDevice e i n) = Ok (seqZ i (Z.of_nat (S m)))) as Hall.
  { induction m as [|m IH]; intros i e Hi.
    - cbn [seq_shown ct_seq_next index device_count entry].
      rewrite (proj2 (Z.leb_le n (i + 1))) by lia. by rewrite seqZ_cons by lia.
    - assert (seq_shown (S (S m)) (Some i) (StorageDevice e i n)
        = l ← seq_shown (S m) (if n <=? i + 1 then None else Some (i + 1)) (StorageDevice e (i + 1) n);
          Ok (i :: l)) as -> by done.
      rewrite (proj2 (Z.leb_gt n (i + 1))), (IH (i + 1)) by lia.
      cbn [mbind outcome_bind]. rewrite (seqZ_cons i) by lia.
      by replace (Z.pred (Z.of_nat (S (S m)))) with (Z.of_nat (S m)) by lia. }
  replace (Z.to_nat n) with (S (Z.to_nat n - 1)) by lia. rewrite Hall by lia. do 2 f_equal. lia.
Qed.

(** ** Taking a provider offline *)

Lemma find_slot_snoc {W} nm k (l : list (gbms_storage_provider W)) slot :
  find_slot nm k l = inr (k + length l)%nat → Forall (λ p, strncmp_eq p.(name) nm (String.length p.(name)) = false) l →
  find_slot nm k (l ++ [slot])
  = if strncmp_eq slot.(name) nm (String.length slot.(name))
    then match slot.(dsc) with Some _ => inl (- EBUSY) | None => inr (k + length l)%nat end
    else inr (S (k + length l)).
Proof.
  intros Hf Hl. revert k Hf. induction Hl as [|p l Hp Hl IH]; intros k Hf; cbn [app find_slot length].
  - by rewrite Nat.add_0_r.
  - rewrite Hp. cbn [find_slot] in Hf. rewrite Hp in Hf. rewrite IH; [|rewrite Hf; f_equal; cbn; lia].
    by rewrite Nat.add_succ_r.
Qed.

Definition unknown {W} (nm : string) (l : list (gbms_storage_provider W)) : Prop :=
  Forall (λ p, strncmp_eq p.(name) nm (String.length p.(name)) = false) l.

Lemma find_slot_unknown {W} nm k (l : list (gbms_storage_provider W)) :
  unknown nm l → find_slot nm k l = inr (k + length l)%nat.
Proof.
  intros Hl. revert k. induction Hl as [|p l Hp Hl IH]; intros k; cbn [find_slot length].
  - by rewrite Nat.add_0_r.
  - by rewrite Hp, IH, Nat.add_succ_r.
Qed.

Lemma register_ok {W} d nm p (s : storage W) i slot :
  s.(gbms_storage_init_done) = true → (String.length nm < GBMS_PROVIDER_NAME_MAX)%nat →
  gbms_storage_find_slot nm s = inr i → s.(gbms_providers) !! i = Some slot →
  gbms_storage_register (Some d) (Some nm) p s
  = Ok (0, set_providers (if (i =? s.(gbms_providers_count))%nat then S s.(gbms_providers_count)
                          else s.(gbms_providers_count))
             (<[i := Provider nm (Some d) slot.(offline) p]> s.(gbms_providers)) s).
Proof.
  intros Hin Hl Hf Hs. unfold gbms_storage_register. rewrite Hin.
  assert ((GBMS_PROVIDER_NAME_MAX <=? String.length nm)%nat = false) as Hl' by (apply Nat.leb_gt; lia).
  cbv [negb gbms_storage_register_internal]. by rewrite Hl', Hf, Hs.
Qed.

(** The first provider comes after references to others. *)
Lemma read_from_refs {W} t data n i (l : list (gbms_storage_provider W)) slot d rd s w ret out w' ce s' :
  Forall (λ p, p.(dsc) = None) l → slot.(dsc) = Some d → d.(read) = Some rd →
  rd t data n slot.(ptr) w = Ok (ret, out, w') → 0 ≤ ret →
  gbms_cache_add t (Some (i + length l)%nat) s = Ok (ce, s') →
  ∃ late, read_from t data n i (l ++ [slot]) s w = Ok (ret, out, late, s', w').
Proof.
  intros Hl Hd Hr Hrd Hret. revert i. induction Hl as [|p l Hp Hl IH]; intros i Hadd; cbn [app read_from length] in *.
  - rewrite Nat.add_0_r in Hadd. rewrite Hd, Hr, Hrd. cbn [mbind outcome_bind].
    rewrite (proj2 (Z.leb_le _ _) Hret), Hadd. cbn [mbind outcome_bind].
    rewrite (proj2 (Z.eqb_neq ret (- ENOENT))) by (unfold ENOENT; lia). by exists false.
  - rewrite Hp. destruct (IH (S i)) as [late ->]; [by rewrite <-Nat.add_succ_comm in Hadd|].
    by exists true.
Qed.

(** C34.  Taking offline a provider that has registered fails with -EBUSY, while doing so
    with an unknown name succeeds and hits the provider that registers next: a tag of
    it can be read once, which caches it, and then no more (-ENODEV). *)
Theorem storage_offline_next_provider {W} (s : storage W) nm nm' d rd p t n free (w : W) :
  started s → s.(gbms_storage_init_done) = true → s.(gbms_cache_pool) = Some (S free) →
  (s.(gbms_providers_count) < GBMS_PROVIDERS_MAX)%nat →
  unknown nm (take s.(gbms_providers_count) s.(gbms_providers)) →
  unknown nm' (take s.(gbms_providers_count) s.(gbms_providers)) →
  (String.length nm' < GBMS_PROVIDER_NAME_MAX)%nat →
  d.(read) = Some rd → 0 ≤ n → (∀ w, ∃ out w', rd t true n p w = Ok (n, out, w')) →
  ∃ s1 s2 s3 out w',
    gbms_storage_offline nm false s w = Ok (0, s1, w)
    ∧ gbms_storage_register (Some d) (Some nm') p s1 = Ok (0, s2)
    ∧ gbms_storage_read t true n s2 w = Ok (n, out, s3, w')
    ∧ gbms_storage_read t true n s3 w' = Ok (- ENODEV, [], s3, w')
    ∧ gbms_storage_offline nm' false s2 w = Ok (- EBUSY, s2, w).
Proof.
  intros [Hlen _ Hs Hca] Hin Hpool Hc Hnm Hnm' Hl Hr Hn Hrd.
  destruct s as [init c l ca pool].
  cbn [gbms_storage_init_done gbms_cache_pool gbms_providers_count gbms_providers gbms_cache]
    in Hlen, Hs, Hca, Hin, Hpool, Hc, Hnm, Hnm'. subst init ca pool.
  destruct (lookup_lt_is_Some_2 l c) as [q Hq]; [lia|].
  assert (length (take c l) = c) as Htake by (rewrite length_take; lia).
  assert ((c =? GBMS_PROVIDERS_MAX)%nat = false) as Hmax by (apply Nat.eqb_neq; lia).
  set (q1 := Provider q.(name) q.(dsc) true q.(ptr)). set (q2 := Provider nm' (Some d) true p).
  set (s1 := Storage true c (<[c := q1]> l) [] (Some (S free))).
  set (s2 := Storage true (S c) (<[c := q2]> l) [] (Some (S free))).
  assert (take (S c) (<[c := q2]> l) = take c l ++ [q2]) as Htable.
  { rewrite (take_S_r _ _ q2) by (apply list_lookup_insert_eq; lia).
    by rewrite take_insert_ge by lia. }
  assert (∃ ce s3, gbms_cache_add t (Some c) s2 = Ok (ce, s3)
    ∧ s3.(gbms_providers) = s2.(gbms_providers) ∧ s3.(gbms_storage_init_done) = true
    ∧ ∃ e, s3.(gbms_cache) = [e] ∧ e.(tag) = t ∧ e.(provider) = c) as (ce & s3 & Hadd & Hs3).
  { unfold gbms_cache_add, s2. cbn [gbms_cache_pool gbms_providers].
    rewrite list_lookup_insert_eq by lia. cbn [must mbind outcome_bind q2 dsc].
    do 2 eexists. split; [reflexivity|]. split_and!; [done|done|]. eexists. split; [reflexivity|].
    by repeat case_match. }
  destruct (Hrd w) as (out & w' & Hw).
  exists s1, s2, s3, out, w'. refine (conj _ (conj _ (conj _ (conj _ _)))).
  - unfold gbms_storage_offline, gbms_storage_find_slot. cbn [gbms_storage_init_done negb
      gbms_providers_count gbms_providers].
    rewrite find_slot_unknown by done. rewrite Htake, Nat.add_0_l, Hmax, Hq. done.
  - rewrite (register_ok d nm' p s1 c q1); [|done|done| |by apply list_lookup_insert_eq; lia].
    + cbn [s1 set_providers gbms_providers gbms_providers_count]. by rewrite list_insert_insert_eq, Nat.eqb_refl.
    + unfold gbms_storage_find_slot. cbn [s1 gbms_providers_count gbms_providers].
      by rewrite take_insert_ge, find_slot_unknown, Htake, Nat.add_0_l, Hmax by (done || lia).
  - assert (gbms_storage_read t true n s2 w = '(ret, out, late, s, w)
        ← read_from t true n 0 (take (S c) (<[c := q2]> l)) s2 w; Ok (defer late ret, out, s, w))
      as -> by done.
    rewrite Htable.
    destruct (read_from_refs t true n 0 (take c l) q2 d rd s2 w n out w' ce s3) as [late ->]; try done.
    + apply Forall_take. eapply Forall_impl; [exact Hs|]. by intros ? [? _].
    + by rewrite Htake.
    + cbn [mbind outcome_bind]. unfold defer. rewrite (proj2 (Z.eqb_neq n (- ENOENT))) by (unfold ENOENT; lia).
      by rewrite andb_false_r.
  - destruct Hs3 as (Hp3 & Hi3 & e & He & Het & Hep). unfold gbms_storage_read. rewrite Hi3.
    cbn [negb andb]. unfold gbms_cache_read, gbms_cache_lookup. rewrite He. cbn [list_find].
    rewrite decide_True by done. cbn [mbind option_bind snd]. rewrite Hep, Hp3. cbn [s2 gbms_providers].
    by rewrite list_lookup_insert_eq by lia.
  - unfold gbms_storage_offline, gbms_storage_find_slot. cbn [s2 gbms_storage_init_done negb
      gbms_providers_count gbms_providers]. rewrite Htable.
    rewrite find_slot_snoc; [|by apply find_slot_unknown|done]. cbn [q2 name dsc].
    unfold strncmp_eq. by rewrite String.eqb_refl.
Qed.

Lemma storage_offline_next_provider_witness :
  ∃ (s s1 s2 s3 : storage memory) out w',
    gbms_storage_offline "foo" false s (λ _, 9) = Ok (0, s1, λ _, 9)
    ∧ gbms_storage_register (Some (gbee_operations gbee_storage_dsc)) (Some "gauge") 1 s1 = Ok (0, s2)
    ∧ gbms_storage_read GBMS_TAG_GMSR true 23 s2 (λ _, 9) = Ok (23, out, s3, w')
    ∧ gbms_storage_read GBMS_TAG_GMSR true 23 s3 w' = Ok (- ENODEV, [], s3, w')
    ∧ gbms_storage_offline "gauge" false s2 (λ _, 9) = Ok (- EBUSY, s2, λ _, 9).
Proof.
  destruct (@init_started memory true true (Some demo_node)) as (ret & s & b & Hi & Hs).
  vm_compute in Hi. injection Hi as _ Hi _. subst s. eexists.
  apply (storage_offline_next_provider _ "foo" "gauge" (gbee_operations gbee_storage_dsc)
    (gbee_storage_read (Some gbee_storage_dsc)) 1 GBMS_TAG_GMSR 23 31 (λ _, 9)).
  - exact Hs.
  - reflexivity.
  - reflexivity.
  - vm_compute. lia.
  - repeat constructor.
  - repeat constructor.
  - vm_compute. lia.
  - reflexivity.
  - lia.
  - intros w. do 2 eexists. reflexivity.
Defined.
