(* ===== verification/EepromProps.v ===== *)
(** * The EEPROM of the battery: properties

    Reading and writing the fields and the history of the three layouts, on any chip that
    obeys [nvmem_laws] and may fail at any access; the conversion of one layout to the
    next; the look-up of the chip at the start. *)

From Stdlib Require Import String.
From S2P Require Import Prelude.
From S2P Require Import Storage.
From S2P Require Import Eeprom.
From S2P Require Import EepromLayout.

Section Chip.
Context {D : Type} `{!nvmem D} (size : Z) (Hchip : nvmem_laws D size).

(** Reading a field, unless the chip fails. *)
Lemma read_field v t addr count n p d : chip_size v ≤ size → t ≠ GBMS_TAG_BRID →
  field v t = Some (addr, count) → count ≤ n →
  ∃ ret out d', gbee_storage_read (Some v) t true n p d = Ok (ret, out, d')
    ∧ (∀ x, cells d' x = cells d x) ∧ (ret < 0 ∨ ret = count ∧ out = mem_load (cells d) addr count).
Proof.
  intros Hsize Hb Hf Hn. pose proof (fields_fit v t addr count Hf) as (Ha & Hc & Hs).
  pose proof (info_field v t p) as H. rewrite Hf in H. destruct H as [_ Hinfo].
  unfold gbee_storage_read. rewrite (proj2 (Z.eqb_neq _ _) Hb), Hinfo. cbn [Z.ltb Z.compare].
  rewrite (proj2 (Z.eqb_neq count 0)), (proj2 (Z.ltb_ge n count)) by lia.
  pose proof (nvmem_read_ok _ Hchip addr count d) as Hr.
  destruct (nvmem_device_read addr count d) as [[ret out] d']. destruct Hr as [Hsame Hr]; [lia..|].
  do 3 eexists. split; [reflexivity|]. split; [done|].
  destruct Hr as [Hr|[-> ->]]; [left|right].
  - by rewrite (proj2 (Z.eqb_neq ret 0)) by lia.
  - by rewrite (proj2 (Z.eqb_neq count 0)), (proj2 (Z.ltb_ge count 0)) by lia.
Qed.

(** Writing a field or the start of one changes nothing else, also when the chip fails. *)
Lemma write_field v t addr count data n p d : chip_size v ≤ size →
  gbee_storage_is_writable t = true → field v t = Some (addr, count) →
  0 ≤ n ≤ count → n ≤ Z.of_nat (length data) →
  ∃ ret d', gbee_storage_write (Some v) t data n p d = Ok (ret, d')
    ∧ (∀ x, ¬ (addr ≤ x < addr + n) → cells d' x = cells d x)
    ∧ (ret < 0 ∨ ret = n ∧ ∀ x, cells d' x = mem_store (cells d) addr (take (Z.to_nat n) data) x).
Proof.
  intros Hsize Hw Hf Hn Hd. pose proof (fields_fit v t addr count Hf) as (Ha & Hc & Hs).
  pose proof (info_field v t p) as H. rewrite Hf in H. destruct H as [_ Hinfo].
  unfold gbee_storage_write. rewrite Hw, Hinfo. cbn [negb Z.ltb Z.compare].
  rewrite (proj2 (Z.ltb_ge count n)) by lia.
  destruct (write_bytes_ok size Hchip (Z.to_nat n) data 0 addr d) as (ret & d' & -> & Hout & Hst); [lia..|].
  cbn [mbind outcome_bind]. rewrite drop_0, Z.add_0_r in Hst. do 2 eexists. split; [reflexivity|]. split.
  - intros x Hx. apply Hout. lia.
  - destruct Hst as [Hr|[-> Hst]]; [left|right; done]. by rewrite (proj2 (Z.ltb_lt _ _) Hr).
Qed.

Lemma write_entry v data n idx p d : chip_size v ≤ size →
  0 < n ≤ BATT_ONE_HIST_LEN → BATT_ONE_HIST_LEN ≤ Z.of_nat (length data) → 0 ≤ idx < BATT_MAX_HIST_CNT →
  ∃ ret d', gbee_storage_write_data (Some v) GBMS_TAG_HIST (Some data) n idx p d = Ok (ret, d')
    ∧ (∀ x, ¬ (hist_at v + 12 * idx ≤ x < hist_at v + 12 * idx + 12) → cells d' x = cells d x)
    ∧ (ret < 0 ∨ ret = BATT_ONE_HIST_LEN
       ∧ ∀ x, cells d' x = mem_store (cells d) (hist_at v + 12 * idx) (take 12 data) x).
Proof.
  intros Hsize Hn Hd Hi. destruct (hist_field v) as (Hf & Ha & Hs).
  pose proof (info_field v GBMS_TAG_HIST p) as H. rewrite Hf in H. destruct H as [_ Hinfo].
  unfold gbee_storage_write_data. rewrite Z.eqb_refl, Hinfo. cbn [Z.ltb Z.compare].
  unfold BATT_ONE_HIST_LEN, BATT_MAX_HIST_CNT in *.
  rewrite (proj2 (Z.ltb_ge idx 0)), (proj2 (Z.eqb_neq n 0)), (proj2 (Z.leb_gt 75 idx)),
    (proj2 (Z.ltb_ge 12 n)) by lia. cbn [orb].
  assert (75 ≤ hist_max v) by (by destruct v).
  destruct (write_bytes_ok size Hchip (Z.to_nat 12) data 0 (hist_at v + 12 * idx) d)
    as (ret & d' & -> & Hout & Hst); [lia..|].
  cbn [mbind outcome_bind]. rewrite drop_0, Z.add_0_r in Hst. do 2 eexists. split; [reflexivity|]. split.
  - intros x Hx. apply Hout. lia.
  - destruct Hst as [Hr|[-> Hst]]; [left|right; done]. by rewrite (proj2 (Z.ltb_lt _ _) Hr).
Qed.

(** What is written at all is written to the field. *)
Lemma write_cases v t data n p d ret d' : chip_size v ≤ size → 0 ≤ n ≤ Z.of_nat (length data) →
  gbee_storage_write (Some v) t data n p d = Ok (ret, d') →
  d' = d ∨ ∃ addr count, gbee_storage_is_writable t = true ∧ field v t = Some (addr, count)
    ∧ ∀ x, ¬ (addr ≤ x < addr + count) → cells d' x = cells d x.
Proof.
  intros Hsize Hn Hrun. pose proof Hrun as Hrun0. unfold gbee_storage_write in Hrun.
  destruct (gbee_storage_is_writable t) eqn:Hw; [|left; by injection Hrun].
  pose proof (info_field v t p) as H. destruct (field v t) as [[addr count]|] eqn:Hf.
  - destruct H as [_ Hinfo]. rewrite Hinfo in Hrun. cbn [negb Z.ltb Z.compare] in Hrun.
    destruct (Z.ltb_spec count n); [left; by injection Hrun|]. right. exists addr, count.
    destruct (write_field v t addr count data n p d Hsize Hw Hf) as (ret' & d2 & Hrun' & Hout & _); [lia..|].
    rewrite Hrun0 in Hrun'. injection Hrun' as _ <-. split_and!; [done..|]. intros x Hx. apply Hout. lia.
  - destruct H as (_ & a & c & Hinfo). rewrite Hinfo in Hrun. left. by injection Hrun.
Qed.

Lemma write_data_cases v data n idx p d ret d' : chip_size v ≤ size → (12 ≤ length data)%nat → 0 ≤ n →
  gbee_storage_write_data (Some v) GBMS_TAG_HIST (Some data) n idx p d = Ok (ret, d') →
  d' = d ∨ 0 ≤ idx < 75
    ∧ ∀ x, ¬ (hist_at v + 12 * idx ≤ x < hist_at v + 12 * idx + 12) → cells d' x = cells d x.
Proof.
  intros Hsize Hdata Hn Hrun. pose proof Hrun as Hrun0.
  destruct (hist_field v) as (Hf & _). pose proof (info_field v GBMS_TAG_HIST p) as H.
  rewrite Hf in H. destruct H as [_ Hinfo]. unfold gbee_storage_write_data in Hrun.
  rewrite Z.eqb_refl, Hinfo in Hrun. cbn [Z.ltb Z.compare] in Hrun.
  destruct ((idx <? 0) || (n =? 0)) eqn:H0; [left; by injection Hrun|].
  unfold BATT_MAX_HIST_CNT, BATT_ONE_HIST_LEN in Hrun.
  destruct (Z.leb_spec 75 idx); [left; by injection Hrun|].
  destruct (Z.ltb_spec 12 n); [left; by injection Hrun|]. right. split; [lia|].
  destruct (write_entry v data n idx p d Hsize) as (ret' & d2 & Hrun' & Hout & _);
    [unfold BATT_ONE_HIST_LEN; lia..|unfold BATT_MAX_HIST_CNT; lia|].
  rewrite Hrun0 in Hrun'. by injection Hrun' as _ <-.
Qed.

(** Reading an entry of the history. *)
Definition read_entry (v : gbee_dsc) (n idx p : Z) (d : D) : reading D :=
  match (gbee_operations (D := D) v).(read_data) with
  | Some read => read GBMS_TAG_HIST true n idx p d
  | None => Ok (- ENOENT, [], d)
  end.

Lemma read_entry_ok v n idx p d : chip_size v ≤ size → 12 ≤ n → 0 ≤ idx < hist_max v →
  ∃ ret out d', read_entry v n idx p d = Ok (ret, out, d')
    ∧ (∀ x, cells d' x = cells d x)
    ∧ (ret < 0 ∨ ret = 12 ∧ out = mem_load (cells d) (hist_at v + 12 * idx) 12).
Proof.
  intros Hsize Hn Hi. destruct (hist_field v) as (Hf & Ha & Hs).
  assert (read_entry v n idx p d = read_hist (GBEE_STORAGE_INFO (Some v)) (hist_max v) GBMS_TAG_HIST
    true n idx p d) as -> by (by destruct v).
  pose proof (info_field v GBMS_TAG_HIST p) as H. rewrite Hf in H. destruct H as [_ Hinfo].
  unfold read_hist. rewrite Z.eqb_refl, Hinfo. cbn [Z.ltb Z.compare negb orb].
  unfold BATT_ONE_HIST_LEN in *.
  rewrite (proj2 (Z.eqb_neq n 0)), (proj2 (Z.ltb_ge idx 0)), (proj2 (Z.leb_gt (hist_max v) idx)),
    (proj2 (Z.ltb_ge n 12)) by lia.
  pose proof (nvmem_read_ok _ Hchip (hist_at v + 12 * idx) 12 d) as Hr.
  destruct (nvmem_device_read _ _ _) as [[ret out] d']. destruct Hr as [Hsame Hr]; [lia..|].
  do 3 eexists. split; [reflexivity|]. split; [done|].
  destruct Hr as [Hr|[-> ->]]; [left|by right].
  by rewrite (proj2 (Z.eqb_neq ret 0)) by lia.
Qed.

End Chip.

Lemma load_stored (m m' : memory) a l : (∀ x, m' x = mem_store m a l x) → mem_load m' a (Z.of_nat (length l)) = l.
Proof. intros H. rewrite (load_ext m' (mem_store m a l)); [apply mem_load_store|done]. Qed.

(** ** Theorems *)

(** C24.  What is written to a field of the EEPROM, or to an entry of its history, is what
    is read from it, unless the chip fails; both always return. *)
Theorem eeprom_write_read {D} `{!nvmem D} size v (d : D) p : nvmem_laws D size → chip_size v ≤ size →
  (∀ t addr count data, gbee_storage_is_writable t = true → field v t = Some (addr, count) →
    Z.of_nat (length data) = count →
    ∃ ret d', gbee_storage_write (Some v) t data count p d = Ok (ret, d')
      ∧ (ret < 0 ∨ ret = count ∧ ∃ ret' out d'', gbee_storage_read (Some v) t true count p d' = Ok (ret', out, d'')
           ∧ (ret' < 0 ∨ ret' = count ∧ out = data)))
  ∧ (∀ data idx, length data = 12%nat → 0 ≤ idx < BATT_MAX_HIST_CNT →
    ∃ ret d', gbee_storage_write_data (Some v) GBMS_TAG_HIST (Some data) 12 idx p d = Ok (ret, d')
      ∧ (ret < 0 ∨ ret = 12 ∧ ∃ ret' out d'', read_entry v 12 idx p d' = Ok (ret', out, d'')
           ∧ (ret' < 0 ∨ ret' = 12 ∧ out = data))).
Proof.
  intros Hchip Hsize. split.
  - intros t addr count data Hw Hf Hlen.
    destruct (write_field size Hchip v t addr count data count p d Hsize Hw Hf) as (ret & d' & Hrun & _ & Hst);
      [lia..|].
    exists ret, d'. split; [done|]. destruct Hst as [?|[-> Hst]]; [by left|right]. split; [done|].
    rewrite firstn_all2 in Hst by lia.
    destruct (read_field size Hchip v t addr count count p d' Hsize) as (ret & out & d'' & Hr & _ & Ho);
      [intros ->; discriminate Hw|exact Hf|lia|].
    exists ret, out, d''. split; [done|]. destruct Ho as [?|[-> ->]]; [by left|right]. split; [done|].
    rewrite <-Hlen. by apply load_stored with (m := cells d).
  - intros data idx Hlen Hi.
    destruct (write_entry size Hchip v data 12 idx p d Hsize) as (ret & d' & Hrun & _ & Hst);
      [unfold BATT_ONE_HIST_LEN; lia..|done|].
    exists ret, d'. split; [done|]. destruct Hst as [?|[-> Hst]]; [by left|right]. split; [done|].
    rewrite firstn_all2 in Hst by lia.
    destruct (read_entry_ok size Hchip v 12 idx p d' Hsize) as (ret & out & d'' & Hr & _ & Ho); [done| |].
    { unfold BATT_MAX_HIST_CNT in Hi. assert (75 ≤ hist_max v) by (by destruct v). lia. }
    exists ret, out, d''. split; [done|]. destruct Ho as [?|[-> ->]]; [by left|right]. split; [done|].
    pose proof (load_stored _ _ _ _ Hst) as Hl. rewrite Hlen in Hl. exact Hl.
Qed.

Lemma eeprom_write_read_witness :
  nvmem_laws memory 0x400
  ∧ ∃ d' ret out d'', gbee_storage_write (Some gbee_storage01_dsc) GBMS_TAG_CNHS [3; 4] 2 1 (λ _, 0xff) = Ok (2, d')
    ∧ gbee_storage_read (Some gbee_storage01_dsc) GBMS_TAG_CNHS true 2 1 d' = Ok (ret, out, d'')
    ∧ (ret < 0 ∨ ret = 2 ∧ out = [3; 4]).
Proof.
  split; [exact (chip_laws 0x400)|].
  destruct (eeprom_write_read 0x400 gbee_storage01_dsc (λ _, 0xff) 1 (chip_laws 0x400)) as [H _]; [done|].
  destruct (H GBMS_TAG_CNHS 0x5A 2 [3; 4] eq_refl eq_refl eq_refl) as (ret & d' & Hw & Hr).
  assert (ret = 2) as -> by (cbn in Hw; by injection Hw).
  exists d'. destruct Hr as [?|[_ (ret & out & d'' & Hr & Ho)]]; [lia|].
  exists ret, out, d''. split; [exact Hw|]. split; [exact Hr|exact Ho].
Defined.

(** C23.  In the default layout and in the second one, what is written to a field, or to
    an entry of the history, leaves every other field and entry as it was, also when
    the chip fails in the middle. *)
Theorem eeprom_fields_apart {D} `{!nvmem D} size v (d : D) p : nvmem_laws D size → chip_size v ≤ size →
  v ≠ gbee_storage01_dsc →
  (∀ t data n ret d', 0 ≤ n ≤ Z.of_nat (length data) →
    gbee_storage_write (Some v) t data n p d = Ok (ret, d') →
    (∀ t' addr count, t' ≠ t → field v t' = Some (addr, count) →
       mem_load (cells d') addr count = mem_load (cells d) addr count)
    ∧ ∀ idx, 0 ≤ idx < hist_max v →
       mem_load (cells d') (hist_at v + 12 * idx) 12 = mem_load (cells d) (hist_at v + 12 * idx) 12)
  ∧ (∀ data n idx ret d', (12 ≤ length data)%nat → 0 ≤ n →
    gbee_storage_write_data (Some v) GBMS_TAG_HIST (Some data) n idx p d = Ok (ret, d') →
    (∀ t' addr count, t' ≠ GBMS_TAG_HIST → field v t' = Some (addr, count) →
       mem_load (cells d') addr count = mem_load (cells d) addr count)
    ∧ ∀ idx', 0 ≤ idx' < hist_max v → idx' ≠ idx →
       mem_load (cells d') (hist_at v + 12 * idx') 12 = mem_load (cells d) (hist_at v + 12 * idx') 12).
Proof.
  intros Hchip Hsize Hv. split.
  - intros t data n ret d' Hn Hrun.
    destruct (write_cases size Hchip v t data n p d ret d' Hsize Hn Hrun) as [->|H]; [done|].
    destruct H as (addr & count & Hw & Hf & Hout). split.
    + intros t' addr' count' Hne Hf'.
      destruct (fields_apart v t t' addr count addr' count' Hv Hw (not_eq_sym Hne) Hf Hf') as [Hap _].
      unfold apart in Hap. apply load_ext. intros x Hx. apply Hout. lia.
    + intros idx Hidx. destruct (hist_field v) as (Hfh & _).
      assert (t ≠ GBMS_TAG_HIST) as Hne by (intros ->; discriminate Hw).
      destruct (fields_apart v t GBMS_TAG_HIST addr count _ _ Hv Hw Hne Hf Hfh) as [_ Hap].
      unfold apart, BATT_ONE_HIST_LEN in Hap. apply load_ext. intros x Hx. apply Hout. lia.
  - intros data n idx ret d' Hdata Hn Hrun.
    destruct (write_data_cases size Hchip v data n idx p d ret d' Hsize Hdata Hn Hrun) as [->|[Hi Hout]];
      [done|].
    assert (75 ≤ hist_max v) by (by destruct v). split.
    + intros t' addr count Hne Hf. pose proof (hist_apart v t' addr count Hv Hne Hf) as Hap.
      unfold apart, BATT_ONE_HIST_LEN in Hap. apply load_ext. intros x Hx. apply Hout. lia.
    + intros idx' Hi' Hne. apply load_ext. intros x Hx. apply Hout. nia.
Qed.

Lemma eeprom_fields_apart_witness :
  chip_size gbee_storage02_dsc ≤ 0x2000 ∧ gbee_storage02_dsc ≠ gbee_storage01_dsc
  ∧ ∃ d', gbee_storage_write (Some gbee_storage02_dsc) GBMS_TAG_FCRU [3; 4] 2 1 (λ x, x) = Ok (2, d')
    ∧ mem_load d' (0x5E + 12 * 199) 12 = mem_load (λ x, x) (0x5E + 12 * 199) 12
    ∧ mem_load d' 0x1FE4 1 = [0x1FE4].
Proof.
  split; [done|]. split; [done|].
  destruct (eeprom_fields_apart 0x2000 gbee_storage02_dsc (λ x, x) 1 (chip_laws 0x2000)) as [H _]; [done|done|].
  eexists. split; [reflexivity|].
  edestruct (H GBMS_TAG_FCRU [3; 4] 2) as [H1 H2]; [by split|reflexivity|]. split.
  - apply (H2 199). by split.
  - exact (H1 GBMS_TAG_FGST 0x1FE4 1 ltac:(done) eq_refl).
Defined.

(** ** Conversion of layouts *)

Lemma load_halves (m : memory) a : mem_load m a 12 = mem_load m a 6 ++ mem_load m (a + 6) 6.
Proof. by apply (mem_load_app m a 6 6). Qed.

(** The [k] first entries from [at_] on are used, of [n]. *)
Definition used (m : memory) (at_ n k : Z) : Prop :=
  0 ≤ k ≤ n ∧ (∀ i, 0 ≤ i < k → m (at_ + 12 * i) ≠ 0xff) ∧ (k < n → m (at_ + 12 * k) = 0xff).

Section Convert.
Context {D : Type} `{!nvmem D} (size : Z) (Hchip : nvmem_laws D size).

Lemma hist_used_ok n from ret0 buff d :
  0 ≤ from → from + 12 * Z.of_nat n ≤ size → 0 ≤ ret0 →
  Z.of_nat (length buff) + 12 * Z.of_nat n ≤ BATT_TOTAL_HIST_LEN →
  ∃ ret buff' d', hist_used n from BATT_TOTAL_HIST_LEN ret0 buff d = Ok (ret, buff', d')
    ∧ (∀ x, cells d' x = cells d x)
    ∧ (ret < 0 ∨ ∃ k, used (cells d) from (Z.of_nat n) k ∧ buff' = buff ++ mem_load (cells d) from (12 * k)).
Proof.
  revert from ret0 buff d. induction n as [|n IH]; intros from ret0 buff d Hf Hs Hr Hb.
  { exists ret0, buff, d. split_and!; [done..|]. right. exists 0. split; [split; [lia|split; lia]|].
    cbn. by rewrite app_nil_r. }
  cbn [hist_used]. change BATT_TOTAL_HIST_LEN with 900 in *. change BATT_ONE_HIST_LEN with 12 in *.
  rewrite (proj2 (Z.ltb_ge _ _)) by lia.
  pose proof (nvmem_read_ok _ Hchip from 12 d) as Hrd.
  destruct (nvmem_device_read from 12 d) as [[ret p] d1]. destruct Hrd as [Hsame Hrd]; [lia..|].
  destruct (Z.ltb_spec ret 0); [by exists ret, buff, d1; split_and!; [..|left]|].
  destruct Hrd as [?|[-> ->]]; [lia|].
  change (mem_load (cells d) from 12 !! 0%nat) with (Some (cells d (from + 0))). cbn [must mbind outcome_bind].
  rewrite Z.add_0_r. destruct (Z.eqb_spec (cells d from) 0xff) as [He|He].
  - exists 12, buff, d1. split_and!; [done..|]. right. exists 0. split.
    + split; [lia|]. split; [lia|]. intros _. by rewrite Z.mul_0_r, Z.add_0_r.
    + cbn. by rewrite app_nil_r.
  - destruct (IH (from + 12) 12 (buff ++ mem_load (cells d) from 12) d1) as (ret' & buff' & d' & -> & Hs' & Hres);
      [lia|lia|lia|rewrite length_app, length_mem_load; lia|].
    exists ret', buff', d'. split; [done|]. split; [intros x; by rewrite Hs'|].
    destruct Hres as [?|(k & (Hk & Hused & Hfree) & ->)]; [by left|right]. exists (k + 1). split.
    + split; [lia|]. split.
      * intros i Hi. destruct (decide (i = 0)) as [->|]; [by rewrite Z.mul_0_r, Z.add_0_r|].
        rewrite <-Hsame. replace (from + 12 * i) with (from + 12 + 12 * (i - 1)) by lia. apply Hused. lia.
      * intros Hlt. rewrite <-Hsame. replace (from + 12 * (k + 1)) with (from + 12 + 12 * k) by lia.
        apply Hfree. lia.
    + rewrite <-app_assoc. f_equal. replace (12 * (k + 1)) with (12 + 12 * k) by lia.
      rewrite mem_load_app by lia. f_equal. apply mem_load_shift. intros y Hy. by rewrite Hsame.
Qed.

(** A write that succeeds. *)
Lemma written off data d ret d' : 0 ≤ off → 0 < Z.of_nat (length data) →
  off + Z.of_nat (length data) ≤ size → nvmem_device_write off data d = (ret, d') → 0 ≤ ret →
  ret = Z.of_nat (length data) ∧ ∀ x, cells d' x = mem_store (cells d) off data x.
Proof.
  intros Ho Hl Hs Hw Hr. pose proof (nvmem_write_ok _ Hchip off data d Ho Hl Hs) as H.
  rewrite Hw in H. destruct H as [_ [?|H]]; [lia|done].
Qed.

Lemma hist_move_ok kzalloc d ret d' : 0x400 ≤ size →
  gbms_hist_move kzalloc 0x5E 0x64 BATT_TOTAL_HIST_LEN d = Ok (ret, d') → 0 ≤ ret →
  ∃ k, used (cells d) 0x5E BATT_MAX_HIST_CNT k
    ∧ ∀ x, cells d' x = if decide (0x64 ≤ x < 0x64 + 12 * k) then cells d (x - 6) else cells d x.
Proof.
  intros Hsize. unfold gbms_hist_move. destruct kzalloc; [|intros [= <- _]; unfold ENOMEM; lia].
  cbn [negb].
  destruct (hist_used_ok (Z.to_nat BATT_MAX_HIST_CNT) 0x5E 0 [] d) as (r & buff & d1 & -> & Hsame & Hres);
    [unfold BATT_TOTAL_HIST_LEN, BATT_MAX_HIST_CNT, BATT_ONE_HIST_LEN; cbn; lia..|].
  cbn [mbind outcome_bind]. destruct (Z.ltb_spec r 0); [intros [= <- _]; lia|].
  destruct Hres as [?|(k & Hu & ->)]; [lia|]. rewrite Z2Nat.id in Hu by done. cbn [app].
  pose proof Hu as (Hk & _). unfold BATT_MAX_HIST_CNT in Hk.
  destruct (mem_load (cells d) 0x5E (12 * k)) as [|b l] eqn:Hl.
  - intros [= <- <-] _. exists k. split; [done|]. intros x. rewrite Hsame.
    apply (f_equal length) in Hl. rewrite length_mem_load in Hl. cbn in Hl.
    rewrite decide_False by lia. done.
  - intros [= Hw] Hr. rewrite <-Hl in Hw.
    assert (Z.of_nat (length (mem_load (cells d) 0x5E (12 * k))) = 12 * k) as Hlen
      by (rewrite length_mem_load; lia).
    assert (0 < k) by (apply (f_equal length) in Hl; rewrite length_mem_load in Hl; cbn in Hl; lia).
    pose proof (λ H1 H2 H3, written 0x64 _ d1 ret d' H1 H2 H3 Hw Hr) as H1.
    rewrite Hlen in H1. destruct H1 as [_ Hst]; [lia..|].
    exists k. split; [done|]. intros x. rewrite Hst. case_decide.
    + rewrite mem_store_in, lookup_mem_load by lia. cbn. f_equal. lia.
    + rewrite mem_store_out by lia. apply Hsame.
Qed.

End Convert.

Section Convert.
Context {D : Type} `{!nvmem D} (size : Z) (Hchip : nvmem_laws D size).

Lemma clear_bytes_ok n offset ret0 d ret d' : 0 ≤ offset → offset + Z.of_nat n ≤ size →
  clear_bytes n offset ret0 d = (ret, d') → 0 ≤ ret →
  ∀ x, cells d' x = if decide (offset ≤ x < offset + Z.of_nat n) then 0xff else cells d x.
Proof.
  intros Ho Hs. revert offset ret0 d Ho Hs. induction n as [|n IH]; intros offset ret0 d Ho Hs.
  { cbn [clear_bytes]. intros [= <- <-] _ x. rewrite decide_False by lia. done. }
  cbn [clear_bytes]. destruct (nvmem_device_write offset [0xff] d) as [r d1] eqn:Hw.
  destruct (Z.ltb_spec r 0); [intros [= <- _]; lia|]. intros Hrun Hr x.
  destruct (written size Hchip offset [0xff] d r d1 Ho) as [_ Hst]; [cbn; lia|cbn; lia|done..|].
  rewrite (IH (offset + 1) r d1 ltac:(lia) ltac:(lia) Hrun Hr x), Hst.
  destruct (decide (x = offset)) as [->|Hne].
  - rewrite decide_False, decide_True by lia. rewrite mem_store_in by (cbn; lia).
    by rewrite Z.sub_diag.
  - rewrite (mem_store_out _ _ _ x) by (cbn; lia). repeat case_decide; done || lia.
Qed.

(** What a conversion that succeeds did: it read the version, converted, and wrote the
    new version. *)
Lemma lotr_update_ok kzalloc lotr_to d d' : 0x400 ≤ size → cells d 0x59 ≠ lotr_to →
  gbms_lotr_update kzalloc lotr_to d = Ok (1, d') →
  ∃ d1 ret d2, (∀ x, cells d1 x = cells d x) ∧ 0 ≤ ret
    ∧ ((lotr_to = GBMS_LOTR_V1 ∧ cells d 0x59 = GBMS_LOTR_DEFAULT
        ∧ gbms_lotr_update_to_v1 kzalloc d1 = Ok (ret, d2))
       ∨ lotr_to = GBMS_LOTR_V2 ∧ gbms_lotr_update_to_v2 d1 = (ret, d2))
    ∧ ∀ x, cells d' x = if decide (x = 0x59) then u8 lotr_to else cells d2 x.
Proof.
  intros Hsize Hne. unfold gbms_lotr_update, BATT_EEPROM_TAG_LOTR_OFFSET, BATT_EEPROM_TAG_LOTR_LEN.
  pose proof (nvmem_read_ok _ Hchip 0x59 1 d) as Hrd.
  destruct (nvmem_device_read 0x59 1 d) as [[r p] d1]. destruct Hrd as [Hsame Hrd]; [lia..|].
  destruct (Z.ltb_spec r 0); [intros [= -> _]; lia|]. destruct Hrd as [?|[-> ->]]; [lia|].
  change (default 0 (mem_load (cells d) 0x59 1 !! 0%nat)) with (cells d 0x59).
  rewrite (proj2 (Z.eqb_neq _ _) Hne). cbn [orb].
  assert (∀ ret d2, (if ret <? 0 then (0, d2) else nvmem_device_write 0x59 [u8 lotr_to] d2) = (1, d') →
    0 ≤ ret ∧ ∀ x, cells d' x = if decide (x = 0x59) then u8 lotr_to else cells d2 x) as Hwrite.
  { intros ret d2. destruct (Z.ltb_spec ret 0); [done|]. intros Hw. split; [done|]. intros x.
    destruct (written size Hchip 0x59 [u8 lotr_to] d2 1 d') as [_ ->]; [lia|cbn; lia|cbn; lia|done|lia|].
    case_decide as Hx; [subst x; by rewrite mem_store_in by (cbn; lia)|].
    by rewrite mem_store_out by (cbn; lia). }
  destruct ((lotr_to =? GBMS_LOTR_V1) && (cells d 0x59 =? GBMS_LOTR_DEFAULT)) eqn:H1.
  - apply andb_true_iff in H1 as [->%Z.eqb_eq H1%Z.eqb_eq].
    destruct (gbms_lotr_update_to_v1 kzalloc d1) as [[ret d2]| |] eqn:Hv; [|done|done].
    cbn [mbind outcome_bind]. intros [= Hw]. destruct (Hwrite ret d2 Hw) as [Hr Hx].
    exists d1, ret, d2. split_and!; [done..| |done]. by left.
  - destruct ((lotr_to =? GBMS_LOTR_V2) && _) eqn:H2; [|by intros [= ?]].
    apply andb_true_iff in H2 as [->%Z.eqb_eq _].
    destruct (gbms_lotr_update_to_v2 d1) as [ret d2] eqn:Hv.
    intros [= Hw]. destruct (Hwrite ret d2 Hw) as [Hr Hx].
    exists d1, ret, d2. split_and!; [done..| |done]. by right.
Qed.

Lemma to_v1_ok kzalloc d ret d' : 0x400 ≤ size →
  gbms_lotr_update_to_v1 kzalloc d = Ok (ret, d') → 0 ≤ ret →
  ∃ k, used (cells d) 0x5E BATT_MAX_HIST_CNT k
    ∧ ∀ x, cells d' x = if decide (0x5E ≤ x < 0x63) then 0
                        else if decide (0x64 ≤ x < 0x64 + 12 * k) then cells d (x - 6) else cells d x.
Proof.
  intros Hsize. unfold gbms_lotr_update_to_v1.
  destruct (gbms_hist_move _ _ _ _ d) as [[r d1]| |] eqn:Hm; [|done|done]. cbn [mbind outcome_bind].
  destruct (Z.ltb_spec r 0); [intros [= <- _]; lia|].
  destruct (hist_move_ok size Hchip kzalloc d r d1 Hsize Hm) as (k & Hk & Hst); [done|].
  destruct (nvmem_device_write 0x5E (replicate 5 0) d1) as [r2 d2] eqn:Hw.
  intros [= Hr <-] Hret. assert (0 ≤ r2) as Hr2.
  { destruct (Z.eqb_spec r2 5); cbn [negb] in Hr; [lia|]. destruct (Z.ltb_spec r2 0); lia. }
  exists k. split; [done|]. intros x.
  destruct (written size Hchip 0x5E (replicate 5 0) d1 r2 d2) as [_ ->]; [lia|cbn; lia|cbn; lia|done..|].
  case_decide as Hx.
  - rewrite mem_store_in by (cbn; lia). by rewrite lookup_replicate_2 by lia.
  - rewrite mem_store_out by (cbn; lia). apply Hst.
Qed.

End Convert.

(** C31.  Converting the default layout to the first version, when it succeeds, keeps
    every entry of the history that is used, at its new place; the first that is not
    used stays so, the state of health and the bytes after it are zero, and nothing
    else changes but the version.  A full history is written over the six bytes that
    follow it, the fields FCRU, FGST and AYMD. *)
Theorem lotr_v1_keeps_history {D} `{!nvmem D} size kzalloc (d d' : D) : nvmem_laws D size → 0x400 ≤ size →
  cells d 0x59 = GBMS_LOTR_DEFAULT → gbms_lotr_update kzalloc GBMS_LOTR_V1 d = Ok (1, d') →
  cells d' 0x59 = GBMS_LOTR_V1 ∧
  ∃ k, used (cells d) (hist_at gbee_storage_dsc) 75 k
    ∧ (∀ i, 0 ≤ i < k → mem_load (cells d') (hist_at gbee_storage01_dsc + 12 * i) 12
                        = mem_load (cells d) (hist_at gbee_storage_dsc + 12 * i) 12)
    ∧ (k < 75 → cells d (hist_at gbee_storage_dsc + 12 * k + 6) = 0xff →
       used (cells d') (hist_at gbee_storage01_dsc) 75 k)
    ∧ mem_load (cells d') 0x5E 5 = replicate 5 0
    ∧ (∀ x, x ≠ 0x59 → ¬ (0x5E ≤ x < 0x63) → ¬ (0x64 ≤ x < 0x64 + 12 * k) → cells d' x = cells d x).
Proof.
  intros Hchip Hsize Hfrom Hrun.
  destruct (lotr_update_ok size Hchip kzalloc GBMS_LOTR_V1 d d' Hsize) as (d1 & ret & d2 & Hsame & Hret & Hcase & Hx);
    [by rewrite Hfrom|done|].
  destruct Hcase as [(_ & _ & Hv)|[? _]]; [|done].
  destruct (to_v1_ok size Hchip kzalloc d1 ret d2 Hsize Hv Hret) as (k & (Hk & Hu & Hfree) & Hst).
  assert (∀ x, cells d' x = if decide (x = 0x59) then 1 else if decide (0x5E ≤ x < 0x63) then 0
    else if decide (0x64 ≤ x < 0x64 + 12 * k) then cells d (x - 6) else cells d x) as Hall.
  { intros x. rewrite Hx, Hst, !Hsame. done. }
  split; [by rewrite Hall|]. unfold BATT_MAX_HIST_CNT in *. cbn [hist_at]. exists k. split_and!.
  - split; [done|]. split; [intros i Hi; rewrite <-Hsame; by apply Hu|intros ?; rewrite <-Hsame; by apply Hfree].
  - intros i Hi. apply mem_load_shift. intros y Hy. rewrite Hall. repeat case_decide; try lia. f_equal. lia.
  - intros Hlt Hblank. split; [done|]. split.
    + intros i Hi. rewrite Hall. repeat case_decide; try lia. replace (100 + 12 * i - 6) with (94 + 12 * i) by lia.
      rewrite <-Hsame. by apply Hu.
    + intros _. rewrite Hall. repeat case_decide; try lia. by replace (100 + 12 * k) with (94 + 12 * k + 6) by lia.
  - apply list_eq_same_length with (n := 5%nat); [done..|]. intros i a b Hi.
    rewrite lookup_mem_load by lia. rewrite lookup_replicate_2 by lia. intros [= <-] [= <-].
    rewrite Hall. repeat case_decide; lia.
  - intros x H1 H2 H3. rewrite Hall. by repeat case_decide.
Qed.

Definition demo_chip : memory := λ x, if (0x5E <=? x) && (x <? 0x5E + 24) then x else 0xff.

Lemma lotr_v1_keeps_history_witness :
  ∃ d', gbms_lotr_update true GBMS_LOTR_V1 demo_chip = Ok (1, d')
    ∧ d' 0x59 = GBMS_LOTR_V1
    ∧ ∃ k, used demo_chip 0x5E 75 k ∧ mem_load d' 0x5E 5 = replicate 5 0
      ∧ ∀ i, 0 ≤ i < k → mem_load d' (0x64 + 12 * i) 12 = mem_load demo_chip (0x5E + 12 * i) 12.
Proof.
  destruct (gbms_lotr_update true GBMS_LOTR_V1 demo_chip) as [[ret d']| |] eqn:Hrun;
    [|vm_compute in Hrun; discriminate|vm_compute in Hrun; discriminate].
  assert (ret = 1) as -> by (vm_compute in Hrun; congruence).
  destruct (lotr_v1_keeps_history 0x400 true demo_chip d' (chip_laws 0x400) ltac:(lia) eq_refl Hrun)
    as [H1 (k & Hk & H2 & _ & H3 & _)].
  exists d'. split; [reflexivity|]. split; [exact H1|]. exists k. split; [exact Hk|]. split; [exact H3|exact H2].
Defined.

(** C35.  Converting the first version to the second succeeds without moving the history,
    which starts six bytes earlier: each entry is then read as the end of the one before
    it and the start of its own.  The space after the history is cleared but for its
    last byte. *)
Theorem lotr_v2_garbles_history {D} `{!nvmem D} size kzalloc (d d' : D) : nvmem_laws D size → 0x400 ≤ size →
  cells d 0x59 = GBMS_LOTR_V1 → gbms_lotr_update kzalloc GBMS_LOTR_V2 d = Ok (1, d') →
  cells d' 0x59 = GBMS_LOTR_V2
  ∧ (∀ i, 0 ≤ i < 74 →
      let entry i := mem_load (cells d) (hist_at gbee_storage01_dsc + 12 * i) 12 in
      mem_load (cells d') (hist_at gbee_storage02_dsc + 12 * (i + 1)) 12
      = drop 6 (entry i) ++ take 6 (entry (i + 1)))
  ∧ (∀ x, 0x3E2 ≤ x < 0x3FF → cells d' x = 0xff) ∧ cells d' 0x3FF = cells d 0x3FF.
Proof.
  intros Hchip Hsize Hfrom Hrun.
  destruct (lotr_update_ok size Hchip kzalloc GBMS_LOTR_V2 d d' Hsize) as (d1 & ret & d2 & Hsame & Hret & Hcase & Hx);
    [by rewrite Hfrom|done|].
  destruct Hcase as [(? & _)|[_ Hv]]; [done|].
  assert (0x3E2 + Z.of_nat 29 ≤ size) as Hend by lia.
  pose proof (clear_bytes_ok size Hchip 29 0x3E2 0 d1 ret d2 ltac:(done) Hend Hv Hret) as Hst.
  change (0x3E2 + Z.of_nat 29) with 0x3FF in Hst.
  assert (∀ x, cells d' x = if decide (x = 0x59) then 2 else if decide (0x3E2 ≤ x < 0x3FF) then 0xff
    else cells d x) as Hall.
  { intros x. rewrite Hx, Hst, Hsame. done. }
  split; [by rewrite Hall|]. split_and!.
  - intros i Hi. cbn [hist_at]. cbv zeta. rewrite (load_ext (cells d') (cells d)).
    2: { intros x Hx'. rewrite Hall. repeat case_decide; lia. }
    rewrite !load_halves, drop_app_length', take_app_length' by by rewrite length_mem_load.
    f_equal; apply mem_load_shift; intros y Hy; f_equal; lia.
  - intros x Hx'. rewrite Hall. repeat case_decide; lia.
  - rewrite Hall. repeat case_decide; lia.
Qed.

Lemma lotr_v2_garbles_history_witness :
  let d : memory := λ x, if x =? 0x59 then GBMS_LOTR_V1 else x in
  ∃ d', gbms_lotr_update true GBMS_LOTR_V2 d = Ok (1, d') ∧ d' 0x59 = GBMS_LOTR_V2
    ∧ mem_load d' (0x5E + 12) 12 = drop 6 (mem_load d 0x64 12) ++ take 6 (mem_load d (0x64 + 12) 12)
    ∧ d' 0x3FF = 0x3FF.
Proof.
  intros d. destruct (gbms_lotr_update true GBMS_LOTR_V2 d) as [[ret d']| |] eqn:Hrun;
    [|vm_compute in Hrun; discriminate|vm_compute in Hrun; discriminate].
  assert (ret = 1) as -> by (vm_compute in Hrun; congruence).
  destruct (lotr_v2_garbles_history 0x400 true d d' (chip_laws 0x400) ltac:(lia) eq_refl Hrun)
    as [H1 (H2 & _ & H3)].
  exists d'. split; [reflexivity|]. split; [exact H1|]. split; [|exact H3].
  exact (H2 0 ltac:(lia)).
Defined.

(** C36.  In the first version the last entry of the history and the fields FCRU, FGST and
    AYMD share six bytes: writing FCRU changes that entry, and writing the entry changes
    the fields. *)
Theorem eeprom_v1_fields_overlap {D} `{!nvmem D} size (d d' : D) p : nvmem_laws D size → 0x400 ≤ size →
  (∀ a b, gbee_storage_write (Some gbee_storage01_dsc) GBMS_TAG_FCRU [a; b] 2 p d = Ok (2, d') →
     let entry d := mem_load (cells d) (hist_at gbee_storage01_dsc + 12 * 74) 12 in
     entry d' = take 6 (entry d) ++ [a; b] ++ drop 8 (entry d))
  ∧ (∀ data, length data = 12%nat →
     gbee_storage_write_data (Some gbee_storage01_dsc) GBMS_TAG_HIST (Some data) 12 74 p d = Ok (12, d') →
     ∃ fcru fgst aymd, field gbee_storage01_dsc GBMS_TAG_FCRU = Some fcru
       ∧ field gbee_storage01_dsc GBMS_TAG_FGST = Some fgst
       ∧ field gbee_storage01_dsc GBMS_TAG_AYMD = Some aymd
       ∧ mem_load (cells d') fcru.1 fcru.2 ++ mem_load (cells d') fgst.1 fgst.2
           ++ mem_load (cells d') aymd.1 aymd.2 = drop 6 data).
Proof.
  intros Hchip Hsize. split.
  - intros a b Hrun. cbv zeta. cbn [hist_at].
    destruct (write_field size Hchip gbee_storage01_dsc GBMS_TAG_FCRU 0x3E2 2 [a; b] 2 p d Hsize
      eq_refl eq_refl) as (ret & d2 & Hrun' & _ & Hst); [lia|done|].
    rewrite Hrun in Hrun'. injection Hrun' as <- <-. destruct Hst as [?|[_ Hst]]; [lia|].
    cbv [mem_load seqZ fmap list_fmap seq Z.to_nat Pos.to_nat Pos.iter_op Nat.add take drop app].
    rewrite !Hst. reflexivity.
  - intros data Hlen Hrun. do 3 eexists. do 3 (split; [reflexivity|]). cbn [fst snd].
    destruct (write_entry size Hchip gbee_storage01_dsc data 12 74 p d Hsize) as (ret & d2 & Hrun' & _ & Hst);
      [unfold BATT_ONE_HIST_LEN; lia..|done|].
    rewrite Hrun in Hrun'. injection Hrun' as <- <-. destruct Hst as [?|[_ Hst]]; [lia|].
    do 12 (destruct data as [|? data]; [done|]). destruct data; [|done].
    cbv [mem_load seqZ fmap list_fmap seq Z.to_nat Pos.to_nat Pos.iter_op Nat.add take drop app].
    rewrite !Hst. reflexivity.
Qed.

Lemma eeprom_v1_fields_overlap_witness :
  ∃ d', gbee_storage_write (Some gbee_storage01_dsc) GBMS_TAG_FCRU [1; 2] 2 1 demo_chip = Ok (2, d')
    ∧ mem_load d' (hist_at gbee_storage01_dsc + 12 * 74) 12
      = [255; 255; 255; 255; 255; 255; 1; 2; 255; 255; 255; 255].
Proof.
  destruct (gbee_storage_write (Some gbee_storage01_dsc) GBMS_TAG_FCRU [1; 2] 2 1 demo_chip)
    as [[ret d']| |] eqn:Hrun; [|vm_compute in Hrun; discriminate|vm_compute in Hrun; discriminate].
  assert (ret = 2) as -> by (vm_compute in Hrun; congruence).
  exists d'. split; [reflexivity|].
  exact (proj1 (eeprom_v1_fields_overlap 0x400 demo_chip d' 1 (chip_laws 0x400) ltac:(lia)) 1 2 Hrun).
Defined.

(** ** Other behaviours *)

Lemma write_bytes_short {D} `{!nvmem D} n buff i at_ (d : D) :
  (∀ off data (d : D), 0 ≤ (nvmem_device_write off data d).1) →
  (length buff < i + n)%nat → (i ≤ length buff)%nat → write_bytes n buff i at_ d = Undef.
Proof.
  intros Hw. revert i d. induction n as [|n IH]; intros i d Hlt Hle; [lia|]. cbn [write_bytes].
  destruct (buff !! i) as [c|] eqn:Hc; [|done]. cbn [must mbind outcome_bind].
  pose proof (Hw (Z.of_nat i + at_) [c] d) as Hr. destruct (nvmem_device_write _ _ _) as [ret d1].
  cbn in Hr. rewrite (proj2 (Z.ltb_ge _ _) Hr). apply lookup_lt_Some in Hc. apply IH; lia.
Qed.

(** An entry of the history that is given short is accepted, and written with the bytes
    that follow it in memory. *)
Lemma hist_write_overruns {D} `{!nvmem D} v data idx p (d : D) :
  (∀ off data (d : D), 0 ≤ (nvmem_device_write off data d).1) →
  (0 < length data < 12)%nat → 0 ≤ idx < BATT_MAX_HIST_CNT →
  gbee_storage_write_data (Some v) GBMS_TAG_HIST (Some data) (Z.of_nat (length data)) idx p d = Undef.
Proof.
  intros Hw Hl Hi. destruct (hist_field v) as (Hf & _). pose proof (info_field v GBMS_TAG_HIST p) as H.
  rewrite Hf in H. destruct H as [_ Hinfo]. unfold gbee_storage_write_data.
  rewrite Z.eqb_refl, Hinfo. cbn [Z.ltb Z.compare]. unfold BATT_MAX_HIST_CNT, BATT_ONE_HIST_LEN in *.
  rewrite (proj2 (Z.ltb_ge idx 0)), (proj2 (Z.eqb_neq (Z.of_nat (length data)) 0)),
    (proj2 (Z.leb_gt 75 idx)), (proj2 (Z.ltb_ge 12 (Z.of_nat (length data)))) by lia. cbn [orb].
  rewrite write_bytes_short; [done|done|lia|lia].
Qed.

(** The second layout announces 200 entries and reads them all, but only the first 75 can
    be written. *)
Lemma hist_02_read_only {D} `{!nvmem D} data n idx p (d : D) : n ≠ 0 → BATT_MAX_HIST_CNT ≤ idx →
  gbee_storage_write_data (Some gbee_storage02_dsc) GBMS_TAG_HIST (Some data) n idx p d = Ok (- ENODATA, d).
Proof.
  intros Hn Hi. unfold gbee_storage_write_data. cbn [GBEE_STORAGE_INFO].
  change (gbee_storage02_info GBMS_TAG_HIST p) with (0, 0x5E, 12). rewrite Z.eqb_refl. cbn [Z.ltb Z.compare].
  unfold BATT_MAX_HIST_CNT in *.
  by rewrite (proj2 (Z.ltb_ge idx 0)), (proj2 (Z.eqb_neq n 0)), (proj2 (Z.leb_le 75 idx)) by lia.
Qed.

(** Reading the identifier of the battery succeeds with 0, not with its length. *)
Lemma brid_length v p : gbee_storage_read (Some v) GBMS_TAG_BRID true 4 p (λ _, 7) = Ok (0, [7; 0; 0; 0], λ _, 7).
Proof. by destruct v. Qed.

(** The work that looks for the chip, while it is not there. *)
Fixpoint probe_runs {D} `{!nvmem D} (n : nat) (b : gbee_data) (s : storage D) (d : D) :
    outcome (gbee_data * storage D * D) :=
  match n with
  | O => Ok (b, s, d)
  | S n => '(b, s, d) ← gbee_probe_work None true b s d; probe_runs n b s d
  end.

(** It is scheduled again for as many times as there are retries, and then never more. *)
Lemma gbee_probe_gives_up {D} `{!nvmem D} n b nm (s : storage D) d :
  b.(bee_status) = GBEE_STATUS_PROBE → b.(bee_name) = Some nm → (n ≤ b.(bee_poll_retries))%nat →
  b.(bee_work) = true →
  ∃ b', probe_runs n b s d = Ok (b', s, d) ∧ b'.(bee_work) = true
    ∧ b'.(bee_status) = GBEE_STATUS_PROBE ∧ b'.(bee_name) = Some nm
    ∧ b'.(bee_poll_retries) = (b.(bee_poll_retries) - n)%nat
    ∧ (n = b.(bee_poll_retries) → ∀ b2 s2 d2, gbee_probe_work None true b' s d = Ok (b2, s2, d2) →
         b2.(bee_work) = false ∧ d2 = d).
Proof.
  revert b. induction n as [|n IH]; intros b Hs Hn Hle Hw.
  - exists b. split_and!; try done; [lia|]. intros Hz b2 s2 d2. unfold gbee_probe_work.
    rewrite Hs, Hn, <-Hz. destruct (gbms_storage_register_internal _ _ _ _) as [[r s1]| |]; [|done|done].
    cbn. by intros [= <- _ <-].
  - cbn [probe_runs]. unfold gbee_probe_work at 1. rewrite Hs, Hn.
    destruct (bee_poll_retries b) as [|r] eqn:Hr; [lia|]. cbn [mbind outcome_bind].
    edestruct (IH (GbeeData (Some nm) GBEE_STATUS_PROBE b.(lotr_version) r true)) as (b' & -> & H1 & H2 & H3 & H4 & H5);
      [done|done|cbn; lia|done|].
    exists b'. cbn in *. split_and!; try done. intros Hz. apply H5. lia.
Qed.
