(* ===== verification/AocIpc.v ===== *)
(** * AoC IPC core: the services shared with the always-on compute firmware

    Model of [google-modules/aoc_ipc/aoc_ipc_core.c] and of the structures of
    [aoc_ipc_core_internal.h].  Everything an operation changes (the seven
    32-bit words of a region, the bytes of the shared memory) is threaded
    explicitly.  The option monad carries undefined behaviour: [None] is an
    access outside [regions[2]], a remainder by zero or a read past the
    caller's buffer. *)

From S2P Require Import Prelude.

(** ** Data *)

Definition AOC_UP : Z := 0.
Definition AOC_DOWN : Z := 1.
Definition VALID_DIRECTION (d : Z) : bool := (d =? AOC_UP) || (d =? AOC_DOWN).

Definition AOC_SERVICE_NAME_LENGTH : Z := 32.
Definition AOC_SERVICE_TYPE_MASK : Z := 0x00070000.
Definition AOC_SERVICE_IRQ_MASK : Z := 0x00f80000.
Definition AOC_SERVICE_IRQ_SHIFT : Z := 19.
Definition AOC_SERVICE_FLAG_RING_PUSH : Z := 0x01000000.

Definition AOC_SERVICE_TYPE_QUEUE : Z := 0.
Definition AOC_SERVICE_TYPE_RING : Z := 1.
Definition AOC_SERVICE_TYPE_BUFFER : Z := 2.

(** [struct aoc_ipc_memory_region]: every field is a [u32]. *)
Record region := Region {
  offset : Z; size : Z; slots : Z; tx : Z; rx : Z; wp : Z; rp : Z
}.

(** [struct aoc_ipc_service_header], with [regions[0]] and [regions[1]]. *)
Record service := Service {
  name : list Z; flags : Z; region_up : region; region_down : region
}.

(** [sizeof(struct aoc_ipc_message_header)]: four [u16]. *)
Definition message_header_size : Z := 8.

(** [&header->regions[dir]] *)
Definition region_at (s : service) (dir : Z) : option region :=
  if dir =? 0 then Some s.(region_up)
  else if dir =? 1 then Some s.(region_down) else None.

Definition set_region (s : service) (dir : Z) (r : region) : service :=
  if dir =? 0 then Service s.(name) s.(flags) r s.(region_down)
  else if dir =? 1 then Service s.(name) s.(flags) s.(region_up) r else s.

(** ** Region counters *)

Definition _region_advance_tx (r : region) (amount : Z) : option region :=
  if r.(size) =? 0 then None
  else Some (Region r.(offset) r.(size) r.(slots)
               (u32 (r.(tx) + amount)) r.(rx)
               (u32 (r.(wp) + amount) mod r.(size)) r.(rp)).

Definition _region_advance_rx (r : region) (amount : Z) : option region :=
  if r.(size) =? 0 then None
  else Some (Region r.(offset) r.(size) r.(slots)
               r.(tx) (u32 (r.(rx) + amount))
               r.(wp) (u32 (r.(rp) + amount) mod r.(size))).

Definition _read_write_delta (r : region) : Z :=
  if r.(rx) <=? r.(tx) then u32 (r.(tx) - r.(rx))
  else u32 (u64 (u64 (u64 (SIZE_MAX - r.(rx)) + r.(tx)) + 1)).

Definition _aoc_ring_reader_sync_offset (r : region) (bytes_to_leave : Z) :
    option region :=
  let sz := r.(size) in
  let delta := _read_write_delta r in
  let leave := if sz <? bytes_to_leave then sz else bytes_to_leave in
  let leave := if delta <? leave then delta else leave in
  _region_advance_rx r (u32 (u64 (delta - leave))).

(** ** Copies between a caller's buffer and the shared memory *)

(** The header ([length], then three zero [u16]) followed by the payload. *)
Definition _aoc_queue_write_buffer (m : memory) (dest : Z) (src : list Z)
    (length : Z) : option memory :=
  let hdr := [u16 length mod 256; u16 length / 256; 0; 0; 0; 0; 0; 0] in
  let m := mem_store m dest hdr in
  data ← buf_read src 0 length;
  Some (mem_store m (dest + message_header_size) data).

(** Returns the bytes read, the bytes copied to [dest] and the region (the
    reader is resynchronised after an overflow). *)
Definition _aoc_ring_read_buffer (m : memory) (ring : Z) (r : region)
    (dest_size : Z) : option (Z * list Z * region) :=
  let bytes_available := _read_write_delta r in
  let sz := r.(size) in
  r ← (if sz <? bytes_available
       then _aoc_ring_reader_sync_offset r sz else Some r);
  let bytes_available :=
    if r.(rp) <? r.(wp) then u32 (r.(wp) - r.(rp))
    else if r.(wp) <? r.(rp) then u32 (u32 (r.(wp) + sz) - r.(rp))
    else if r.(tx) =? r.(rx) then 0 else sz in
  let to_read :=
    if dest_size <? bytes_available then u32 dest_size else bytes_available in
  let bytes :=
    if u32 (r.(rp) + to_read) <=? sz
    then mem_load m (ring + r.(rp)) to_read
    else let partial := u32 (sz - r.(rp)) in
         mem_load m (ring + r.(rp)) partial
           ++ mem_load m ring (u32 (to_read - partial)) in
  Some (to_read, bytes, r).

(** Returns the bytes committed and the memory. *)
Definition _aoc_ring_write_buffer (m : memory) (ring : Z) (r : region)
    (src : list Z) (size : Z) : option (Z * memory) :=
  let wp := r.(wp) in
  let sz := r.(AocIpc.size) in
  let to_write := u32 size in
  let to_write := if sz <? to_write then sz else to_write in
  if u32 (wp + to_write) <=? sz
  then data ← buf_read src 0 to_write;
       Some (to_write, mem_store m (ring + wp) data)
  else
    let partial := u32 (sz - wp) in
    first ← buf_read src 0 partial;
    rest ← buf_read src partial (u64 (to_write - partial));
    Some (to_write, mem_store (mem_store m (ring + wp) first) ring rest).

(** ** Service attributes *)

Definition aoc_service_name (header : service) : option (option (list Z)) :=
  last ← header.(name) !! Z.to_nat (AOC_SERVICE_NAME_LENGTH - 1);
  Some (if last =? 0 then Some header.(name) else None).

Definition aoc_service_type (header : service) : Z :=
  Z.shiftr (Z.land header.(flags) AOC_SERVICE_TYPE_MASK) 16.

Definition aoc_service_is_queue (s : service) : bool :=
  aoc_service_type s =? AOC_SERVICE_TYPE_QUEUE.

Definition aoc_service_is_ring (s : service) : bool :=
  aoc_service_type s =? AOC_SERVICE_TYPE_RING.

Definition aoc_service_is_buffer (s : service) : bool :=
  aoc_service_type s =? AOC_SERVICE_TYPE_BUFFER.

Definition aoc_service_irq_index (header : service) : Z :=
  Z.shiftr (Z.land header.(flags) AOC_SERVICE_IRQ_MASK) AOC_SERVICE_IRQ_SHIFT.

(** A call on a service handle ([None] is a null pointer): [dflt] when the
    handle is null or [ok] refuses it, the body on its region otherwise. *)
Definition on_region {A} (h : option service) (dir : Z) (ok : service → bool)
    (dflt : A) (body : service → region → option A) : option A :=
  match h with
  | None => Some dflt
  | Some s =>
      if negb (ok s) || negb (VALID_DIRECTION dir) then Some dflt
      else r ← region_at s dir; body s r
  end.

Definition any_service (s : service) : bool := true.

Definition aoc_ring_bytes_read (h : option service) (dir : Z) : option Z :=
  on_region h dir aoc_service_is_ring 0 (λ _ r, Some r.(rx)).

Definition aoc_ring_bytes_written (h : option service) (dir : Z) : option Z :=
  on_region h dir aoc_service_is_ring 0 (λ _ r, Some r.(tx)).

Definition aoc_ring_did_overflow (h : option service) (dir : Z) : option bool :=
  on_region h dir aoc_service_is_ring false
    (λ _ r, Some (r.(size) <? _read_write_delta r)).

Definition aoc_service_message_size (h : option service) (dir : Z) : option Z :=
  on_region h dir any_service 0 (λ s r,
    if aoc_service_is_ring s || aoc_service_is_buffer s then Some r.(size)
    else if r.(size) <=? message_header_size then Some 0
    else Some (r.(size) - message_header_size)).

Definition aoc_service_message_slots (h : option service) (dir : Z) : option Z :=
  on_region h dir any_service 0 (λ _ r, Some r.(slots)).

Definition aoc_service_total_size (h : option service) (dir : Z) : option Z :=
  on_region h dir any_service 0 (λ _ r, Some (u32 (r.(slots) * r.(size)))).

Definition aoc_ring_bytes_available_to_read (h : option service) (dir : Z) :
    option Z :=
  on_region h dir aoc_service_is_ring 0 (λ _ r,
    let difference := _read_write_delta r in
    Some (if r.(size) <? difference then r.(size) else difference)).

Definition aoc_ring_bytes_available_to_write (h : option service) (dir : Z) :
    option Z :=
  on_region h dir aoc_service_is_ring 0 (λ _ r,
    available ← aoc_ring_bytes_available_to_read h dir;
    Some (u64 (r.(size) - available))).

Definition aoc_service_slots_available_to_read (h : option service) (dir : Z) :
    option Z :=
  on_region h dir any_service 0 (λ s r,
    if r.(slots) =? 0 then Some 0
    else if aoc_service_is_buffer s then Some 0
    else if aoc_service_is_ring s
    then Some (if negb (r.(tx) =? r.(rx)) then 1 else 0)
    else let diff := _read_write_delta r in
         Some (if r.(slots) <? diff then r.(slots) else diff)).

Definition aoc_service_slots_available_to_write (h : option service) (dir : Z) :
    option Z :=
  on_region h dir any_service 0 (λ s r,
    if r.(slots) =? 0 then Some 0
    else if aoc_service_is_ring s then Some 1
    else if aoc_service_is_buffer s then Some 0
    else let diff := _read_write_delta r in
         Some (u64 (r.(slots) - diff))).

(** The byte offset of the current slot, [counter] being [rx] or [tx]. *)
Definition slot_offset (r : region) (counter : Z) : option Z :=
  if r.(slots) =? 0 then None
  else Some (u32 (r.(size) * (counter mod r.(slots)))).

(** Pointers: 0 is [NULL]. *)
Definition aoc_service_current_read_pointer (h : option service) (base dir : Z) :
    option Z :=
  if base =? 0 then Some 0
  else on_region h dir any_service 0 (λ s r,
    off ← (if aoc_service_is_ring s then Some r.(rp)
           else slot_offset r r.(rx));
    Some (base + r.(offset) + off)).

Definition aoc_service_current_write_pointer (h : option service) (base dir : Z) :
    option Z :=
  if base =? 0 then Some 0
  else on_region h dir any_service 0 (λ s r,
    off ← (if aoc_service_is_ring s then Some r.(wp)
           else slot_offset r r.(tx));
    Some (base + r.(offset) + off)).

Definition aoc_service_can_read_message (h : option service) (dir : Z) :
    option bool :=
  n ← aoc_service_slots_available_to_read h dir; Some (0 <? n).

Definition aoc_service_can_write_message (h : option service) (dir : Z) :
    option bool :=
  n ← aoc_service_slots_available_to_write h dir; Some (0 <? n).

(** [hdr->length], a little-endian [u16] at [p]; [None] on a null pointer. *)
Definition header_length (m : memory) (p : Z) : option Z :=
  if p =? 0 then None else Some (u16 (m p + 256 * m (p + 1))).

Definition aoc_service_current_message_size (m : memory) (h : option service)
    (base dir : Z) : option Z :=
  can ← aoc_service_can_read_message h dir;
  if negb can then Some 0
  else hdr ← aoc_service_current_read_pointer h base dir; header_length m hdr.

Definition aoc_service_current_message_pointer (h : option service)
    (base dir : Z) : option Z :=
  can ← aoc_service_can_read_message h dir;
  if negb can then Some 0
  else ptr ← aoc_service_current_read_pointer h base dir;
       Some (ptr + message_header_size).

(** ** Index updates: the result and the updated service *)

Definition aoc_service_advance_write_index (h : option service)
    (dir amount : Z) : option (bool * option service) :=
  match h with
  | None => Some (false, None)
  | Some s =>
      available ← aoc_service_slots_available_to_write h dir;
      available ← (if aoc_service_is_ring s
                   then aoc_service_message_size h dir else Some available);
      if available <? amount then Some (false, h)
      else r ← region_at s dir;
           r ← _region_advance_tx r amount;
           Some (true, Some (set_region s dir r))
  end.

Definition aoc_service_advance_read_index (h : option service)
    (dir amount : Z) : option (bool * option service) :=
  match h with
  | None => Some (false, None)
  | Some s =>
      to_advance ←
        (if aoc_service_is_ring s
         then bytes_available ← aoc_ring_bytes_available_to_read h dir;
              Some (Some (if u32 bytes_available <? amount
                          then u32 bytes_available else amount))
         else available ← aoc_service_slots_available_to_read h dir;
              Some (if available <? amount then None else Some amount));
      match to_advance with
      | None => Some (false, h)
      | Some bytes_to_advance =>
          r ← region_at s dir;
          r ← _region_advance_rx r bytes_to_advance;
          Some (bytes_to_advance =? amount, Some (set_region s dir r))
      end
  end.

Definition aoc_service_increment_write_index (h : option service) (dir : Z) :=
  aoc_service_advance_write_index h dir 1.

Definition aoc_service_increment_read_index (h : option service) (dir : Z) :=
  aoc_service_advance_read_index h dir 1.

Definition aoc_ring_flush_read_data (h : option service)
    (dir bytes_to_leave : Z) : option (bool * option service) :=
  match h with
  | None => Some (false, None)
  | Some s =>
      if negb (aoc_service_is_ring s) then Some (false, h)
      else r ← region_at s dir;
           r ← _aoc_ring_reader_sync_offset r bytes_to_leave;
           Some (true, Some (set_region s dir r))
  end.

Definition aoc_ring_reset_write_pointer (h : option service) (dir : Z) :
    option (bool * option service) :=
  match h with
  | None => Some (false, None)
  | Some s =>
      if negb (aoc_service_is_ring s) then Some (false, h)
      else r ← region_at s dir;
           let bytes_remaining := s32 (u32 (r.(size) - r.(wp))) in
           if 0 <? bytes_remaining
           then r ← _region_advance_tx r bytes_remaining;
                Some (true, Some (set_region s dir r))
           else Some (true, h)
  end.

(** ** Messages *)

Definition aoc_service_ring_base (h : option service) (base dir : Z) : option Z :=
  on_region h dir aoc_service_is_ring 0 (λ _ r,
    Some (if 0 <? r.(size) then base + r.(offset) else 0)).

(** What [aoc_service_read_message] leaves: its result, the service, the bytes
    stored to [buffer] and the value of [*size]. *)
Record read_result := ReadResult {
  read_ok : bool; read_service : option service;
  read_bytes : list Z; read_size : Z
}.

(** [buffer] tells whether the pointer is non-null; [size] is [None] for a null
    [size_t *]. *)
Definition aoc_service_read_message (m : memory) (h : option service)
    (base dir : Z) (buffer : bool) (size : option Z) : option read_result :=
  match h, size with
  | Some s, Some sz =>
      let refuse := Some (ReadResult false h [] sz) in
      if (base =? 0) || negb buffer || negb (VALID_DIRECTION dir) then refuse
      else
        can ← aoc_service_can_read_message h dir;
        if negb can then refuse
        else
          r ← region_at s dir;
          if aoc_service_is_ring s then
            ptr ← aoc_service_ring_base h base dir;
            '(bytes_read, bytes, r) ← _aoc_ring_read_buffer m ptr r sz;
            r ← _region_advance_rx r bytes_read;
            Some (ReadResult true (Some (set_region s dir r)) bytes bytes_read)
          else
            ptr ← aoc_service_current_read_pointer h base dir;
            length ← header_length m ptr;
            if sz <? length then refuse
            else
              let bytes := mem_load m (ptr + message_header_size) length in
              '(_, h') ← aoc_service_increment_read_index h dir;
              Some (ReadResult true h' bytes length)
  | _, _ => Some (ReadResult false h [] (default 0 size))
  end.

(** The result, the service and the shared memory after the call. *)
Definition aoc_service_write_message (m : memory) (h : option service)
    (base dir : Z) (buffer : option (list Z)) (size : Z) :
    option (bool * option service * memory) :=
  match h, buffer with
  | Some s, Some src =>
      let refuse := Some (false, h, m) in
      if (base =? 0) || negb (VALID_DIRECTION dir) then refuse
      else
        r ← region_at s dir;
        can ← aoc_service_can_write_message h dir;
        if negb can then refuse
        else
          max ← aoc_service_message_size h dir;
          if max <? size then refuse
          else if aoc_service_is_ring s then
            ptr ← aoc_service_ring_base h base dir;
            '(bytes_written, m) ← _aoc_ring_write_buffer m ptr r src size;
            r ← _region_advance_tx r bytes_written;
            Some (true, Some (set_region s dir r), m)
          else
            ptr ← aoc_service_current_write_pointer h base dir;
            m ← _aoc_queue_write_buffer m ptr src (u32 size);
            '(_, h') ← aoc_service_increment_write_index h dir;
            Some (true, h', m)
  | _, _ => Some (false, h, m)
  end.

Definition aoc_service_ring_size (h : option service) (dir : Z) : option Z :=
  on_region h dir aoc_service_is_ring 0 (λ _ r, Some r.(size)).

Definition aoc_service_ring_read_offset (h : option service) (dir : Z) : option Z :=
  on_region h dir aoc_service_is_ring 0 (λ _ r, Some r.(rp)).

Definition aoc_service_ring_write_offset (h : option service) (dir : Z) : option Z :=
  on_region h dir aoc_service_is_ring 0 (λ _ r, Some r.(wp)).

Definition aoc_ring_is_push (h : option service) : bool :=
  match h with
  | None => false
  | Some s =>
      if negb (aoc_service_is_ring s) then false
      else negb (Z.land s.(flags) AOC_SERVICE_FLAG_RING_PUSH =? 0)
  end.

#[global] Arguments on_region : simpl never.
#[global] Arguments aoc_service_message_size : simpl never.
#[global] Arguments aoc_service_slots_available_to_read : simpl never.
#[global] Arguments aoc_service_slots_available_to_write : simpl never.
#[global] Arguments aoc_service_can_read_message : simpl never.
#[global] Arguments aoc_service_can_write_message : simpl never.
#[global] Arguments aoc_service_ring_base : simpl never.
#[global] Arguments aoc_service_current_read_pointer : simpl never.
#[global] Arguments aoc_service_current_write_pointer : simpl never.
#[global] Arguments aoc_service_advance_read_index : simpl never.
#[global] Arguments aoc_service_advance_write_index : simpl never.
#[global] Arguments aoc_service_read_message : simpl never.
#[global] Arguments aoc_service_write_message : simpl never.
#[global] Arguments aoc_ring_flush_read_data : simpl never.
#[global] Arguments _aoc_ring_read_buffer : simpl never.
#[global] Arguments _aoc_ring_write_buffer : simpl never.
#[global] Arguments _region_advance_tx : simpl never.
#[global] Arguments _region_advance_rx : simpl never.
#[global] Arguments region_at : simpl never.
#[global] Arguments set_region : simpl never.
#[global] Arguments aoc_service_is_ring : simpl never.
#[global] Arguments aoc_service_increment_write_index : simpl never.
#[global] Arguments aoc_service_increment_read_index : simpl never.
#[global] Arguments header_length : simpl never.
