(* ===== verification/AocRing.v ===== *)
(** * AoC rings refine a lossy byte FIFO

    The abstraction of a ring region is the list of bytes its reader can still
    obtain; writing appends and keeps the last [size] bytes, reading removes a
    prefix. *)

From S2P Require Import Prelude AocIpc.

(** ** Abstraction *)

(** Bytes between the producer and the consumer, modulo 2^32. *)
Definition delta (r : region) : Z := u32 (r.(tx) - r.(rx)).

Definition pending (r : region) : Z := Z.min (delta r) r.(size).

(** The counters are 32-bit words, the offsets lie in the ring, and they differ
    by what the counters say.  The half-range bound on [size] is what keeps
    [wp + amount] from wrapping. *)
Record ring_wf (r : region) : Prop := {
  wf_size : 0 < r.(size) <= 2 ^ 31;
  wf_tx : 0 <= r.(tx) < 2 ^ 32;
  wf_rx : 0 <= r.(rx) < 2 ^ 32;
  wf_wp : 0 <= r.(wp) < r.(size);
  wf_rp : 0 <= r.(rp) < r.(size);
  wf_gap : (r.(wp) - r.(rp)) mod r.(size) = delta r mod r.(size)
}.

(** The bytes available to the reader, oldest first, in a ring based at [p]. *)
Definition ring_view (m : memory) (p : Z) (r : region) : list Z :=
  (λ i, m (p + (r.(wp) - pending r + i) mod r.(size))) <$> seqZ 0 (pending r).

(** A handle on a service whose region [r] of direction [dir] is a ring in
    use. *)
Record ring_service (s : service) (dir : Z) (r : region) : Prop := {
  rs_ring : aoc_service_is_ring s = true;
  rs_region : region_at s dir = Some r;
  rs_slots : r.(slots) <> 0;
  rs_wf : ring_wf r
}.

(** ** Counter arithmetic *)

Lemma read_write_delta_spec r :
  0 <= r.(tx) < 2 ^ 32 → 0 <= r.(rx) < 2 ^ 32 → _read_write_delta r = delta r.
Proof.
  intros Ht Hr. unfold _read_write_delta, delta, SIZE_MAX.
  case_bool; [done|].
  unfold u64, u32. 
  rewrite (Z.mod_small (2 ^ 64 - 1 - rx r)) by lia.
  rewrite (Z.mod_small (2 ^ 64 - 1 - rx r + tx r)) by lia.
  replace (2 ^ 64 - 1 - rx r + tx r + 1) with (tx r - rx r + 1 * 2 ^ 64) by lia.
  rewrite (Z.mod_small _ (2 ^ 64)) by lia.
  replace (1 * 2 ^ 64) with (2 ^ 32 * 2 ^ 32) by lia. apply Z_mod_plus_full.
Qed.

Lemma delta_range r : 0 <= delta r < 2 ^ 32.
Proof. apply u32_range. Qed.

Lemma pending_range r : ring_wf r → 0 <= pending r <= r.(size).
Proof. intros []. unfold pending. pose proof (delta_range r). lia. Qed.

Lemma delta_advance_tx a t r :
  0 <= a → u32 (t - r) + a < 2 ^ 32 →
  u32 (u32 (t + a) - r) = u32 (t - r) + a.
Proof.
  intros Ha H. rewrite u32_sub_l. pose proof (u32_range (t - r)).
  rewrite <- (u32_small (u32 (t - r) + a)) by lia.
  rewrite u32_add_l. f_equal. lia.
Qed.

Lemma delta_advance_rx a t r :
  0 <= a <= u32 (t - r) →
  u32 (t - u32 (r + a)) = u32 (t - r) - a.
Proof.
  intros H. pose proof (u32_range (t - r)).
  rewrite <- (u32_small (u32 (t - r) - a)) by lia. rewrite u32_sub_l.
  unfold u32. rewrite Zminus_mod_idemp_r. f_equal. lia.
Qed.

(** Both offsets stay congruent to the counters. *)
Lemma gap_advance w p a sz :
  0 < sz → ((w + a) mod sz - p) mod sz = ((w - p) mod sz + a) mod sz.
Proof.
  intros. rewrite Zminus_mod_idemp_l, Z.add_mod_idemp_l by lia. f_equal. lia.
Qed.

Lemma gap_retreat w p a sz :
  0 < sz → (w - (p + a) mod sz) mod sz = ((w - p) mod sz - a) mod sz.
Proof.
  intros. rewrite Zminus_mod_idemp_r, Zminus_mod_idemp_l. f_equal. lia.
Qed.

(** ** Advancing the indexes of a well-formed ring *)

Definition advanced_tx (r : region) (a : Z) : region :=
  Region r.(offset) r.(size) r.(slots) (u32 (r.(tx) + a)) r.(rx)
    ((r.(wp) + a) mod r.(size)) r.(rp).

Definition advanced_rx (r : region) (a : Z) : region :=
  Region r.(offset) r.(size) r.(slots) r.(tx) (u32 (r.(rx) + a))
    r.(wp) ((r.(rp) + a) mod r.(size)).

Lemma advance_tx_ok r a :
  ring_wf r → 0 <= a <= r.(size) →
  _region_advance_tx r a = Some (advanced_tx r a).
Proof.
  intros [] Ha. unfold _region_advance_tx, advanced_tx. case_bool; [lia|].
  by rewrite (u32_small (wp r + a)) by lia.
Qed.

Lemma advance_rx_ok r a :
  ring_wf r → 0 <= a → r.(rp) + a < 2 ^ 32 →
  _region_advance_rx r a = Some (advanced_rx r a).
Proof.
  intros [] Ha Hw. unfold _region_advance_rx, advanced_rx. case_bool; [lia|].
  by rewrite (u32_small (rp r + a)) by lia.
Qed.

Lemma advanced_tx_delta r a :
  0 <= a → delta r + a < 2 ^ 32 → delta (advanced_tx r a) = delta r + a.
Proof. apply delta_advance_tx. Qed.

Lemma advanced_rx_delta r a :
  0 <= a <= delta r → delta (advanced_rx r a) = delta r - a.
Proof. apply delta_advance_rx. Qed.

Lemma advanced_tx_wf r a :
  ring_wf r → 0 <= a → delta r + a < 2 ^ 32 → ring_wf (advanced_tx r a).
Proof.
  intros [] Ha Hd. pose proof (advanced_tx_delta r a Ha Hd) as Hdel.
  split; simpl; auto using u32_range; [apply Z.mod_pos_bound; lia|].
  rewrite Hdel, gap_advance, wf_gap0 by lia.
  by rewrite Z.add_mod_idemp_l by lia.
Qed.

Lemma advanced_rx_wf r a :
  ring_wf r → 0 <= a <= delta r → ring_wf (advanced_rx r a).
Proof.
  intros [] Ha. pose proof (advanced_rx_delta r a Ha) as Hdel.
  split; simpl; auto using u32_range; [apply Z.mod_pos_bound; lia|].
  rewrite Hdel, gap_retreat, wf_gap0 by lia. by rewrite Zminus_mod_idemp_l.
Qed.

(** ** The view *)

Lemma length_ring_view m p r :
  length (ring_view m p r) = Z.to_nat (pending r).
Proof. unfold ring_view. by rewrite length_fmap, length_seqZ. Qed.

Lemma lookup_ring_view m p r (i : nat) :
  Z.of_nat i < pending r →
  ring_view m p r !! i =
    Some (m (p + (r.(wp) - pending r + Z.of_nat i) mod r.(size))).
Proof.
  intros H. unfold ring_view. rewrite list_lookup_fmap, lookup_seqZ_lt by lia.
  simpl. do 4 f_equal; lia.
Qed.

(** What a committed write left at offset [x] of the ring. *)
Lemma ring_store_at m p r src m' x :
  ring_wf r → Z.of_nat (length src) <= r.(size) → 0 <= x < r.(size) →
  _aoc_ring_write_buffer m p r src (Z.of_nat (length src))
    = Some (Z.of_nat (length src), m') →
  m' (p + x) = match src !! Z.to_nat ((x - r.(wp)) mod r.(size)) with
               | Some b => b | None => m (p + x) end.
Proof.
  intros [] Hl Hx. unfold _aoc_ring_write_buffer. cbv zeta.
  rewrite (u32_small (Z.of_nat _)) by lia.
  case_bool; [lia|]. rewrite (u32_small (wp r + _)) by lia. case_bool.
  - rewrite buf_read_all. simpl. intros [= <-].
    destruct (decide (wp r <= x < wp r + Z.of_nat (length src))) as [Hin|Hout].
    + rewrite mem_store_in by lia.
      rewrite (mod_first (x - wp r)) by lia.
      replace (p + x - (p + wp r)) with (x - wp r) by lia.
      by destruct (lookup_lt_is_Some_2 src (Z.to_nat (x - wp r))) as [b ->]; [lia|].
    + rewrite mem_store_out by lia. rewrite lookup_ge_None_2; [done|].
      destruct (decide (x < wp r)).
      * rewrite mod_before by lia. lia.
      * rewrite mod_first by lia. lia.
  - rewrite (u32_small (size r - wp r)) by lia.
    rewrite (u64_small (Z.of_nat (length src) - _)) by lia.
    rewrite !buf_read_ok by lia. simpl. intros [= <-].
    rewrite drop_0. set (part := Z.to_nat (size r - wp r)).
    assert (length (take part src) = part) as Ht by (rewrite length_take; lia).
    assert (length (take (Z.to_nat (Z.of_nat (length src) - (size r - wp r)))
              (drop part src)) = length src - part)%nat as Hd
      by (rewrite length_take, length_drop; lia).
    destruct (decide (x < wp r)) as [Hlt|Hge].
    + rewrite (mod_before (x - wp r)) by lia.
      destruct (decide (x < Z.of_nat (length src) - (size r - wp r))) as [Hin|Hout].
      * rewrite mem_store_in by lia. 
        replace (p + x - p) with x by lia.
        rewrite lookup_take_lt, lookup_drop by lia.
        replace (part + Z.to_nat x)%nat with (Z.to_nat (x - wp r + size r)) by lia.
        by destruct (lookup_lt_is_Some_2 src (Z.to_nat (x - wp r + size r)))
          as [b ->]; [lia|].
      * rewrite !mem_store_out by lia. by rewrite lookup_ge_None_2 by lia.
    + rewrite (mod_first (x - wp r)) by lia.
      rewrite mem_store_out by lia. rewrite mem_store_in by lia.
      replace (p + x - (p + wp r)) with (x - wp r) by lia.
      rewrite lookup_take_lt by lia.
      by destruct (lookup_lt_is_Some_2 src (Z.to_nat (x - wp r))) as [b ->]; [lia|].
Qed.

Lemma ring_write_total m p r src :
  ring_wf r → Z.of_nat (length src) <= r.(size) →
  ∃ m', _aoc_ring_write_buffer m p r src (Z.of_nat (length src))
    = Some (Z.of_nat (length src), m').
Proof.
  intros [] Hl. unfold _aoc_ring_write_buffer. cbv zeta.
  rewrite (u32_small (Z.of_nat _)) by lia.
  case_bool; [lia|]. rewrite (u32_small (wp r + _)) by lia. case_bool.
  - rewrite buf_read_all. eauto.
  - rewrite (u32_small (size r - wp r)), (u64_small (Z.of_nat (length src) - _)) by lia.
    rewrite !buf_read_ok by lia. eauto.
Qed.

(** Writing appends, and the window keeps its last [size] bytes. *)
Lemma ring_write_view m p r src m' :
  ring_wf r → Z.of_nat (length src) <= r.(size) →
  delta r + Z.of_nat (length src) < 2 ^ 32 →
  _aoc_ring_write_buffer m p r src (Z.of_nat (length src))
    = Some (Z.of_nat (length src), m') →
  ring_view m' p (advanced_tx r (Z.of_nat (length src)))
    = lastn (Z.to_nat r.(size)) (ring_view m p r ++ src).
Proof.
  intros Hwf Hl Hd Hw. set (n := Z.of_nat (length src)) in *.
  pose proof (pending_range r Hwf) as Hk. pose proof Hwf as [].
  assert (pending (advanced_tx r n) = Z.min (pending r + n) (size r)) as Hp.
  { unfold pending. rewrite advanced_tx_delta by lia. simpl. lia. }
  set (k := pending r) in *.
  apply list_eq_same_length with (n := Z.to_nat (Z.min (k + n) (size r))).
  - rewrite length_lastn, length_app, length_ring_view. lia.
  - rewrite length_ring_view. by rewrite Hp.
  - intros i a b Hi. rewrite lookup_ring_view by lia. rewrite Hp.
    assert (Z.min (k + n) (size r) <= size r
            ∧ Z.min (k + n) (size r) <= k + n) as [Hk1 Hk2] by lia.
    set (k' := Z.min (k + n) (size r)) in *. simpl. intros [= <-].
    rewrite lookup_lastn, length_app, length_ring_view. fold k.
    set (pos := ((wp r + n) mod size r - k' + Z.of_nat i) mod size r).
    assert (0 <= pos < size r) by (apply Z.mod_pos_bound; lia).
    assert ((pos - wp r) mod size r = (n - k' + Z.of_nat i) mod size r) as Hrel.
    { unfold pos. rewrite Zminus_mod_idemp_l.
      replace ((wp r + n) mod size r - k' + Z.of_nat i - wp r)
        with ((wp r + n) mod size r + (Z.of_nat i - k' - wp r)) by lia.
      rewrite Z.add_mod_idemp_l by lia. f_equal. lia. }
    rewrite (ring_store_at m p r src m' pos) by (try done; lia).
    rewrite Hrel. destruct (decide (0 <= n - k' + Z.of_nat i)) as [Hnew|Hold].
    + rewrite mod_first by lia.
      rewrite lookup_app_r by (rewrite length_ring_view; fold k; lia).
      rewrite length_ring_view. fold k.
      replace (Z.to_nat k + length src - Z.to_nat (size r) + i - Z.to_nat k)%nat
        with (Z.to_nat (n - k' + Z.of_nat i)) by lia.
      by intros ->.
    + rewrite mod_before by lia.
      rewrite (lookup_ge_None_2 src) by lia.
      rewrite lookup_app_l by (rewrite length_ring_view; fold k; lia).
      rewrite lookup_ring_view by (fold k; lia). fold k. intros [= <-].
      do 2 f_equal. unfold pos.
      replace ((wp r + n) mod size r - k' + Z.of_nat i)
        with ((wp r + n) mod size r + (Z.of_nat i - k')) by lia.
      rewrite Z.add_mod_idemp_l by lia. f_equal. lia.
Qed.

(** The bytes of the ring from offset [w] on, wrapping. *)
Definition ring_bytes (m : memory) (p sz w n : Z) : list Z :=
  (λ i, m (p + (w + i) mod sz)) <$> seqZ 0 n.

(** Publishing [a] bytes already in the ring appends them to the view. *)
Lemma ring_advance_view m p r a :
  ring_wf r → 0 <= a <= r.(size) → delta r + a < 2 ^ 32 →
  ring_view m p (advanced_tx r a)
    = lastn (Z.to_nat r.(size)) (ring_view m p r ++ ring_bytes m p r.(size) r.(wp) a).
Proof.
  intros Hwf Ha Hd. pose proof (pending_range r Hwf) as Hk. pose proof Hwf as [].
  assert (pending (advanced_tx r a) = Z.min (pending r + a) (size r)) as Hp.
  { unfold pending. rewrite advanced_tx_delta by lia. simpl. lia. }
  assert (length (ring_bytes m p (size r) (wp r) a) = Z.to_nat a) as Hlb
    by (unfold ring_bytes; by rewrite length_fmap, length_seqZ).
  apply list_eq_same_length with (n := Z.to_nat (Z.min (pending r + a) (size r))).
  - rewrite length_lastn, length_app, length_ring_view. lia.
  - by rewrite length_ring_view, Hp.
  - intros i x y Hi. rewrite lookup_ring_view by lia. rewrite Hp. simpl. intros [= <-].
    rewrite lookup_lastn, length_app, length_ring_view, Hlb.
    set (j := (Z.to_nat (pending r) + Z.to_nat a - Z.to_nat (size r) + i)%nat).
    replace (((wp r + a) mod size r - (pending r + a) `min` size r + Z.of_nat i) mod size r)
      with ((wp r - pending r + Z.of_nat j) mod size r).
    2:{ replace ((wp r + a) mod size r - (pending r + a) `min` size r + Z.of_nat i)
          with ((wp r + a) mod size r + (Z.of_nat i - (pending r + a) `min` size r)) by lia.
        rewrite Z.add_mod_idemp_l by lia. f_equal. unfold j. lia. }
    assert (Z.of_nat j = Z.max 0 (pending r + a - size r) + Z.of_nat i) as Hj
      by (unfold j; lia). clearbody j.
    destruct (decide (Z.of_nat j < pending r)).
    + rewrite lookup_app_l by (rewrite length_ring_view; lia).
      rewrite lookup_ring_view by lia. by intros [= <-].
    + rewrite lookup_app_r by (rewrite length_ring_view; lia). rewrite length_ring_view.
      unfold ring_bytes. rewrite list_lookup_fmap, lookup_seqZ_lt by lia. simpl.
      intros [= <-]. do 3 f_equal. lia.
Qed.

(** A committed write touches nothing outside the ring. *)
Lemma ring_write_outside m p r src m' x :
  ring_wf r → Z.of_nat (length src) <= r.(size) →
  _aoc_ring_write_buffer m p r src (Z.of_nat (length src))
    = Some (Z.of_nat (length src), m') →
  ¬ (p <= x < p + r.(size)) → m' x = m x.
Proof.
  intros [] Hl. unfold _aoc_ring_write_buffer. cbv zeta.
  rewrite (u32_small (Z.of_nat _)) by lia.
  case_bool; [lia|]. rewrite (u32_small (wp r + _)) by lia. case_bool.
  - rewrite buf_read_all. simpl. intros [= <-] Hx. apply mem_store_out. lia.
  - rewrite (u32_small (size r - wp r)), (u64_small (Z.of_nat (length src) - _)) by lia.
    rewrite !buf_read_ok by lia. simpl. intros [= <-] Hx.
    rewrite !mem_store_out; [done| |];
      rewrite ?length_take, ?length_drop; lia.
Qed.

(** ** Reading *)

(** After an overflow the reader is moved to the oldest byte still there. *)
Lemma ring_sync m p r leave :
  ring_wf r → 0 <= leave → r.(rp) + delta r < 2 ^ 32 →
  let k := Z.min (Z.min leave r.(size)) (delta r) in
  _aoc_ring_reader_sync_offset r leave = Some (advanced_rx r (delta r - k)) ∧
  ring_wf (advanced_rx r (delta r - k)) ∧
  delta (advanced_rx r (delta r - k)) = k ∧
  ring_view m p (advanced_rx r (delta r - k)) = lastn (Z.to_nat k) (ring_view m p r).
Proof.
  intros Hwf Hl Hrp k. pose proof Hwf as []. pose proof (delta_range r) as Hdr.
  assert (0 <= k <= delta r ∧ k <= size r ∧ k <= leave) as (Hk & Hks & Hkl) by lia.
  pose proof (advanced_rx_delta r (delta r - k) ltac:(lia)) as Hd.
  assert (_aoc_ring_reader_sync_offset r leave = Some (advanced_rx r (delta r - k)))
    as Hsync.
  { unfold _aoc_ring_reader_sync_offset. rewrite read_write_delta_spec by done.
    cbv zeta.
    replace (if size r <? leave then size r else leave) with (Z.min leave (size r))
      by (case_bool; lia).
    replace (if _ <? _ then _ else _) with k by (unfold k; case_bool; lia).
    rewrite (u64_small (delta r - k)), u32_small by lia.
    apply advance_rx_ok; [done|lia|lia]. }
  split; [done|]. split; [apply advanced_rx_wf; [done|lia]|]. split; [lia|].
  assert (pending (advanced_rx r (delta r - k)) = k) as Hp
    by (unfold pending; rewrite Hd; simpl; lia).
  pose proof (pending_range r Hwf) as Hpr.
  assert (k <= pending r) as Hkp by (unfold pending; lia).
  apply list_eq_same_length with (n := Z.to_nat k).
  - rewrite length_lastn, length_ring_view. lia.
  - by rewrite length_ring_view, Hp.
  - intros i a b Hi. rewrite lookup_lastn, length_ring_view.
    rewrite !lookup_ring_view by lia. rewrite Hp. simpl. intros [= <-] [= <-].
    do 3 f_equal. lia.
Qed.

Lemma ring_available r :
  ring_wf r → delta r <= r.(size) →
  (if r.(rp) <? r.(wp) then u32 (r.(wp) - r.(rp))
   else if r.(wp) <? r.(rp) then u32 (u32 (r.(wp) + r.(size)) - r.(rp))
   else if r.(tx) =? r.(rx) then 0 else r.(size)) = delta r.
Proof.
  intros [] Hd. pose proof (delta_range r) as Hdr.
  assert (∀ x, x mod size r = delta r mod size r → 0 < x < size r → delta r = x) as Hx.
  { intros x Heq Hx. rewrite (mod_first x) in Heq by lia.
    destruct (decide (delta r = size r)) as [He|Hne].
    - rewrite He, Z.mod_same in Heq by lia. lia.
    - rewrite mod_first in Heq by lia. lia. }
  case_bool; [|case_bool].
  - rewrite u32_small by lia. symmetry. apply Hx; [done|lia].
  - rewrite u32_sub_l, u32_small by lia. symmetry. apply Hx; [|lia].
    rewrite <- wf_gap0. replace (wp r + size r - rp r) with (wp r - rp r + 1 * size r) by lia.
    apply Z_mod_plus_full.
  - replace (wp r - rp r) with 0 in wf_gap0 by lia. rewrite Z.mod_0_l in wf_gap0 by lia.
    destruct (Z.eqb_spec (tx r) (rx r)) as [Heq|Hne].
    + unfold delta. by replace (tx r - rx r) with 0 by lia.
    + destruct (decide (delta r = size r)); [done|].
      rewrite mod_first in wf_gap0 by lia. exfalso. apply Hne.
      unfold delta, u32 in wf_gap0. symmetry in wf_gap0.
      apply Z.mod_divide in wf_gap0 as [c Hc]; [|lia]. lia.
Qed.

Lemma ring_bytes_at m p r t :
  ring_wf r → delta r <= r.(size) → 0 <= t <= delta r →
  (if u32 (r.(rp) + t) <=? r.(size) then mem_load m (p + r.(rp)) t
   else mem_load m (p + r.(rp)) (u32 (r.(size) - r.(rp)))
          ++ mem_load m p (u32 (t - u32 (r.(size) - r.(rp)))))
  = take (Z.to_nat t) (ring_view m p r).
Proof.
  intros Hwf Hd Ht. pose proof Hwf as [].
  assert (pending r = delta r) as Hp by (unfold pending; lia).
  assert (∀ i, (wp r - pending r + i) mod size r = (rp r + i) mod size r) as Hpos.
  { intros i. replace (wp r - pending r + i) with ((wp r - rp r) - delta r + (rp r + i)) by lia.
    rewrite <- Z.add_mod_idemp_l, <- Zminus_mod_idemp_l, wf_gap0 by lia.
    rewrite Zminus_mod_idemp_l, Z.sub_diag, Z.mod_0_l by lia. done. }
  assert (∀ i : nat, Z.of_nat i < t →
    take (Z.to_nat t) (ring_view m p r) !! i
      = Some (m (p + (rp r + Z.of_nat i) mod size r))) as Hview.
  { intros i Hi. rewrite lookup_take_lt, lookup_ring_view by lia. by rewrite Hpos. }
  assert (length (take (Z.to_nat t) (ring_view m p r)) = Z.to_nat t) as Hlen
    by (rewrite length_take, length_ring_view; lia).
  rewrite (u32_small (rp r + t)), (u32_small (size r - rp r)) by lia.
  case_bool.
  - apply list_eq_same_length with (n := Z.to_nat t); [done|apply length_mem_load|].
    intros i a b Hi. rewrite lookup_mem_load, Hview by lia. intros [= <-] [= <-].
    rewrite mod_first by lia. f_equal. lia.
  - rewrite (u32_small (t - _)) by lia.
    apply list_eq_same_length with (n := Z.to_nat t); [done| |].
    { rewrite length_app, !length_mem_load. lia. }
    intros i a b Hi. rewrite Hview by lia.
    destruct (decide (Z.of_nat i < size r - rp r)).
    + rewrite lookup_app_l by (rewrite length_mem_load; lia).
      rewrite lookup_mem_load by lia. rewrite mod_first by lia.
      intros [= <-] [= <-]. f_equal. lia.
    + rewrite lookup_app_r by (rewrite length_mem_load; lia).
      rewrite length_mem_load, lookup_mem_load by lia. rewrite mod_second by lia.
      intros [= <-] [= <-]. f_equal. lia.
Qed.

(** Reading takes a prefix of the view, at most [n] bytes. *)
Lemma ring_read_view m p r n :
  ring_wf r → 0 <= n → r.(rp) + delta r < 2 ^ 32 →
  let t := Z.min n (pending r) in
  ∃ r1, _aoc_ring_read_buffer m p r n
          = Some (t, take (Z.to_nat t) (ring_view m p r), r1) ∧
        _region_advance_rx r1 t = Some (advanced_rx r1 t) ∧
        ring_wf (advanced_rx r1 t) ∧
        size r1 = size r ∧ slots r1 = slots r ∧ offset r1 = offset r ∧ tx r1 = tx r ∧
        delta (advanced_rx r1 t) = pending r - t ∧
        ring_view m p (advanced_rx r1 t) = drop (Z.to_nat t) (ring_view m p r).
Proof.
  intros Hwf Hn Hrp t. pose proof Hwf as []. pose proof (delta_range r) as Hdr.
  pose proof (pending_range r Hwf) as Hpr.
  set (r1 := if size r <? delta r then advanced_rx r (delta r - size r) else r).
  assert ((if size r <? delta r then _aoc_ring_reader_sync_offset r (size r) else Some r)
      = Some r1 ∧ ring_wf r1 ∧ delta r1 = pending r ∧ size r1 = size r ∧
      ring_view m p r1 = ring_view m p r ∧ slots r1 = slots r
      ∧ offset r1 = offset r ∧ tx r1 = tx r)
    as (Hs & Hwf1 & Hd1 & Hsz1 & Hv1 & ?).
  { unfold r1. case_bool; [|unfold pending; split_and!; try done; lia].
    pose proof (ring_sync m p r (size r) Hwf ltac:(lia) Hrp) as (A & B & C & D).
    replace (Z.min (Z.min (size r) (size r)) (delta r)) with (size r) in * by lia.
    rewrite A, C, D. unfold pending. split_and!; try done; [lia|].
    apply lastn_all. rewrite length_ring_view. unfold pending. lia. }
  pose proof Hwf1 as [].
  exists r1. split; [|split; [|split; [|split; [|split; [|split; [|split; [|split]]]]]]].
  - unfold _aoc_ring_read_buffer. rewrite read_write_delta_spec by done.
    cbv zeta. rewrite Hs. simpl. rewrite <- Hsz1.
    rewrite ring_available by (done || lia).
    replace (if n <? delta r1 then u32 n else delta r1) with t
      by (unfold t; case_bool; [rewrite u32_small by lia|]; lia).
    rewrite <- Hv1, ring_bytes_at by (done || lia). done.
  - apply advance_rx_ok; [done|lia|].
    assert (rp r1 < size r) by lia. lia.
  - apply advanced_rx_wf; [done|lia].
  - done.
  - tauto.
  - tauto.
  - tauto.
  - rewrite advanced_rx_delta by lia. lia.
  - rewrite <- Hv1. apply list_eq_same_length with (n := Z.to_nat (pending r - t)).
    + rewrite length_drop, length_ring_view. unfold pending at 1. lia.
    + rewrite length_ring_view. unfold pending at 1. rewrite advanced_rx_delta by lia.
      simpl. lia.
    + intros i a b Hi. rewrite lookup_drop.
      assert (pending r1 = pending r) as Hp1 by (unfold pending at 1; lia).
      assert (pending (advanced_rx r1 t) = pending r - t) as Hp2
        by (unfold pending at 1; rewrite advanced_rx_delta by lia; simpl; lia).
      rewrite !lookup_ring_view by lia. rewrite Hp1, Hp2. simpl.
      intros [= <-] [= <-]. do 3 f_equal. lia.
Qed.

(** ** Messages on a ring service *)

Definition ring_base (base : Z) (r : region) : Z := base + r.(offset).

Lemma region_at_valid s dir r : region_at s dir = Some r → VALID_DIRECTION dir = true.
Proof.
  unfold region_at, VALID_DIRECTION, AOC_UP, AOC_DOWN. by repeat case_bool.
Qed.

Lemma region_at_set s dir r r' :
  region_at s dir = Some r → region_at (set_region s dir r') dir = Some r'.
Proof. unfold region_at, set_region. by destruct (dir =? 0), (dir =? 1). Qed.

Lemma region_at_set_ne s dir dir' r' :
  dir <> dir' → region_at (set_region s dir r') dir' = region_at s dir'.
Proof.
  intros Hne. unfold region_at, set_region.
  destruct (Z.eqb_spec dir 0), (Z.eqb_spec dir 1), (Z.eqb_spec dir' 0),
    (Z.eqb_spec dir' 1); simpl; done || lia.
Qed.

Lemma flags_set s dir r : (set_region s dir r).(flags) = s.(flags).
Proof. unfold set_region. by destruct (dir =? 0), (dir =? 1). Qed.

Lemma is_ring_set s dir r :
  aoc_service_is_ring (set_region s dir r) = aoc_service_is_ring s.
Proof. unfold aoc_service_is_ring, aoc_service_type. by rewrite flags_set. Qed.

Lemma ring_service_set s dir r r' :
  ring_service s dir r → ring_wf r' → slots r' = slots r →
  ring_service (set_region s dir r') dir r'.
Proof.
  intros [] Hwf Hs. split; [by rewrite is_ring_set|by eapply region_at_set|lia|done].
Qed.

(** The body of a call on a ring service in use. *)
Lemma on_ring {A} s dir r ok (dflt : A) body :
  ring_service s dir r → ok s = true →
  on_region (Some s) dir ok dflt body = body s r.
Proof.
  intros [] Hok. unfold on_region. rewrite Hok, (region_at_valid s dir r) by done.
  simpl. by rewrite rs_region0.
Qed.

Lemma can_read_ring s dir r :
  ring_service s dir r →
  aoc_service_can_read_message (Some s) dir = Some (negb (delta r =? 0)).
Proof.
  intros Hs. unfold aoc_service_can_read_message, aoc_service_slots_available_to_read.
  rewrite (on_ring s dir r) by done. destruct Hs as [Hr _ Hsl []].
  rewrite (proj2 (Z.eqb_neq _ _) Hsl), Hr.
  unfold aoc_service_is_buffer. unfold aoc_service_is_ring in Hr.
  apply Z.eqb_eq in Hr as ->. simpl. f_equal.
  destruct (Z.eqb_spec (tx r) (rx r)) as [He|Hne]; unfold delta.
  - by rewrite He, Z.sub_diag.
  - destruct (Z.eqb_spec (u32 (tx r - rx r)) 0) as [H0|]; [|done]. exfalso.
    unfold u32 in H0. apply Z.mod_divide in H0 as [c Hc]; [|lia]. lia.
Qed.

Lemma can_write_ring s dir r :
  ring_service s dir r → aoc_service_can_write_message (Some s) dir = Some true.
Proof.
  intros Hs. unfold aoc_service_can_write_message, aoc_service_slots_available_to_write.
  rewrite (on_ring s dir r) by done. destruct Hs as [Hr _ Hsl _].
  by rewrite (proj2 (Z.eqb_neq _ _) Hsl), Hr.
Qed.

Lemma message_size_ring s dir r :
  ring_service s dir r → aoc_service_message_size (Some s) dir = Some r.(size).
Proof.
  intros Hs. unfold aoc_service_message_size. rewrite (on_ring s dir r) by done.
  by rewrite (rs_ring _ _ _ Hs).
Qed.

Lemma ring_base_ring s dir r base :
  ring_service s dir r →
  aoc_service_ring_base (Some s) base dir = Some (ring_base base r).
Proof.
  intros Hs. unfold aoc_service_ring_base.
  rewrite (on_ring s dir r) by (try done; apply Hs).
  destruct Hs as [_ _ _ []]. by case_bool; [|lia].
Qed.

Lemma write_message_ring m s dir r base src :
  ring_service s dir r → base <> 0 → Z.of_nat (length src) <= r.(size) →
  ∃ m', _aoc_ring_write_buffer m (ring_base base r) r src (Z.of_nat (length src))
          = Some (Z.of_nat (length src), m') ∧
        aoc_service_write_message m (Some s) base dir (Some src) (Z.of_nat (length src))
          = Some (true, Some (set_region s dir (advanced_tx r (Z.of_nat (length src)))), m').
Proof.
  intros Hs Hb Hl.
  destruct (ring_write_total m (ring_base base r) r src (rs_wf _ _ _ Hs) Hl) as [m' Hm].
  exists m'. split; [done|]. unfold aoc_service_write_message.
  rewrite (region_at_valid s dir r), (rs_region _ _ _ Hs) by apply Hs.
  rewrite (proj2 (Z.eqb_neq _ _) Hb). simpl.
  rewrite (can_write_ring s dir r), (message_size_ring s dir r) by done. simpl.
  case_bool; [lia|]. rewrite (rs_ring _ _ _ Hs), (ring_base_ring s dir r) by done. simpl.
  rewrite Hm. simpl. rewrite advance_tx_ok by (done || lia || apply Hs). done.
Qed.

Lemma write_message_too_long m s dir r base src n :
  ring_service s dir r → base <> 0 → r.(size) < n →
  aoc_service_write_message m (Some s) base dir (Some src) n = Some (false, Some s, m).
Proof.
  intros Hs Hb Hl. unfold aoc_service_write_message.
  rewrite (region_at_valid s dir r), (rs_region _ _ _ Hs) by apply Hs.
  rewrite (proj2 (Z.eqb_neq _ _) Hb). simpl.
  rewrite (can_write_ring s dir r), (message_size_ring s dir r) by done. simpl.
  by case_bool; [|lia].
Qed.

Lemma read_message_ring m s dir r base n :
  ring_service s dir r → base <> 0 → 0 <= n → r.(rp) + delta r < 2 ^ 32 →
  let view := ring_view m (ring_base base r) r in
  let t := Z.min n (pending r) in
  ∃ r', aoc_service_read_message m (Some s) base dir true (Some n)
          = Some (if delta r =? 0 then ReadResult false (Some s) [] n
                  else ReadResult true (Some (set_region s dir r'))
                         (take (Z.to_nat t) view) t) ∧
        ring_service (set_region s dir r') dir r' ∧
        size r' = size r ∧ offset r' = offset r ∧ delta r' = pending r - t ∧
        ring_view m (ring_base base r) r' = drop (Z.to_nat t) view.
Proof.
  intros Hs Hb Hn Hrp view t. pose proof (rs_wf _ _ _ Hs) as Hwf.
  destruct (ring_read_view m (ring_base base r) r n Hwf Hn Hrp)
    as (r1 & Hread & Hadv & Hwf' & Hsz & Hsl & Hoff & _ & Hd & Hv).
  exists (advanced_rx r1 t). split.
  - unfold aoc_service_read_message.
    rewrite (region_at_valid s dir r) by apply Hs.
    rewrite (proj2 (Z.eqb_neq _ _) Hb). simpl.
    rewrite (can_read_ring s dir r) by done. simpl.
    destruct (delta r =? 0); [done|]. simpl.
    rewrite (rs_region _ _ _ Hs). simpl.
    rewrite (rs_ring _ _ _ Hs), (ring_base_ring s dir r) by done. simpl.
    rewrite Hread. simpl. by rewrite Hadv.
  - split_and!; try done. by eapply ring_service_set.
Qed.

Lemma flush_ring s dir r m p leave :
  ring_service s dir r → 0 <= leave → r.(rp) + delta r < 2 ^ 32 →
  let k := Z.min (Z.min leave r.(size)) (delta r) in
  ∃ r', aoc_ring_flush_read_data (Some s) dir leave
          = Some (true, Some (set_region s dir r')) ∧
        ring_service (set_region s dir r') dir r' ∧
        size r' = size r ∧ offset r' = offset r ∧ delta r' = k ∧
        ring_view m p r' = lastn (Z.to_nat k) (ring_view m p r).
Proof.
  intros Hs Hl Hrp k. pose proof (rs_wf _ _ _ Hs) as Hwf.
  destruct (ring_sync m p r leave Hwf Hl Hrp) as (Hsync & Hwf' & Hd & Hv).
  exists (advanced_rx r (delta r - k)). split.
  - unfold aoc_ring_flush_read_data. rewrite (rs_ring _ _ _ Hs), (rs_region _ _ _ Hs).
    simpl. by rewrite Hsync.
  - split_and!; try done. by eapply ring_service_set.
Qed.

(** ** The abstract FIFO and the simulation *)

(** The operations the two ends perform on one direction. *)
Inductive ring_op :=
| RWrite (l : list Z)
| RRead (n : Z)
| RFlush (leave : Z).

(** One operation of the code; the output is what the reader obtains. *)
Definition ring_step (base dir : Z) (st : option service * memory) (op : ring_op) :
    option (list Z * (option service * memory)) :=
  let '(h, m) := st in
  match op with
  | RWrite l =>
      '(_, h', m') ← aoc_service_write_message m h base dir (Some l) (Z.of_nat (length l));
      Some ([], (h', m'))
  | RRead n =>
      res ← aoc_service_read_message m h base dir true (Some n);
      Some (res.(read_bytes), (res.(read_service), m))
  | RFlush leave =>
      '(_, h') ← aoc_ring_flush_read_data h dir leave;
      Some ([], (h', m))
  end.

Fixpoint ring_run (base dir : Z) (st : option service * memory) (ops : list ring_op) :
    option (list (list Z) * (option service * memory)) :=
  match ops with
  | [] => Some ([], st)
  | op :: ops =>
      '(out, st) ← ring_step base dir st op;
      '(outs, st) ← ring_run base dir st ops;
      Some (out :: outs, st)
  end.

(** The specification: a byte queue of [cap] entries that drops the oldest, and
    the producer's lead over the consumer. *)
Record fifo := Fifo { queue : list Z; lead : Z }.

Definition fifo_step (cap : Z) (q : fifo) (op : ring_op) : list Z * fifo :=
  match op with
  | RWrite l =>
      if Z.of_nat (length l) <=? cap
      then ([], Fifo (lastn (Z.to_nat cap) (q.(queue) ++ l))
                  (q.(lead) + Z.of_nat (length l)))
      else ([], q)
  | RRead n =>
      let t := Z.to_nat (Z.min n (Z.of_nat (length q.(queue)))) in
      (take t q.(queue),
       Fifo (drop t q.(queue)) (Z.of_nat (length q.(queue) - t)))
  | RFlush leave =>
      let k := Z.min leave (Z.of_nat (length q.(queue))) in
      ([], Fifo (lastn (Z.to_nat k) q.(queue)) k)
  end.

Fixpoint fifo_run (cap : Z) (q : fifo) (ops : list ring_op) : list (list Z) * fifo :=
  match ops with
  | [] => ([], q)
  | op :: ops =>
      let '(out, q) := fifo_step cap q op in
      let '(outs, q) := fifo_run cap q ops in (out :: outs, q)
  end.

(** The producer never laps the consumer by the whole counter range, and sizes
    are non-negative ([size_t]). *)
Definition op_in_range (cap : Z) (q : fifo) (op : ring_op) : bool :=
  match op with
  | RWrite l => q.(lead) + Z.of_nat (length l) + cap <=? 2 ^ 32
  | RRead n => 0 <=? n
  | RFlush leave => 0 <=? leave
  end.

Fixpoint ops_in_range (cap : Z) (q : fifo) (ops : list ring_op) : bool :=
  match ops with
  | [] => true
  | op :: ops => op_in_range cap q op && ops_in_range cap (fifo_step cap q op).2 ops
  end.

(** The simulation relation. *)
Record ring_sim (base dir cap : Z) (st : option service * memory) (q : fifo) : Prop := {
  sim_state : ∃ s r, st.1 = Some s ∧ ring_service s dir r ∧ r.(size) = cap ∧
    ring_view st.2 (ring_base base r) r = q.(queue) ∧ delta r = q.(lead);
  sim_lead : q.(lead) + cap <= 2 ^ 32
}.

Lemma ring_sim_length base dir cap st q :
  ring_sim base dir cap st q →
  Z.of_nat (length q.(queue)) = Z.min q.(lead) cap ∧ 0 <= q.(lead) ∧ 0 < cap.
Proof.
  intros [(s & r & _ & Hs & <- & <- & <-) _]; rewrite length_ring_view.
  pose proof (pending_range r (rs_wf _ _ _ Hs)). pose proof (delta_range r).
  destruct (rs_wf _ _ _ Hs). unfold pending in *. lia.
Qed.

Lemma ring_step_sim base dir cap st q op :
  base <> 0 → ring_sim base dir cap st q → op_in_range cap q op = true →
  ∃ st', ring_step base dir st op = Some ((fifo_step cap q op).1, st') ∧
         ring_sim base dir cap st' (fifo_step cap q op).2.
Proof.
  intros Hb Hsim Hop. destruct (ring_sim_length _ _ _ _ _ Hsim) as (Hlen & Hld & Hcap).
  destruct st as [h m], Hsim as [(s & r & Hh & Hs & Hsz & Hv & Hd) Hlead].
  simpl in *. subst h.
  pose proof (rs_wf _ _ _ Hs) as [].
  destruct op as [l|n|leave]; simpl in *.
  - apply Z.leb_le in Hop. case_bool.
    + destruct (write_message_ring m s dir r base l Hs Hb ltac:(lia))
        as (m' & Hw & Hmsg).
      rewrite Hmsg. eexists. split; [done|]. split; simpl; [|lia].
      eexists _, (advanced_tx r (Z.of_nat (length l))). split; [done|]. split; [|split; [done|split]].
      * eapply ring_service_set; [done| |done]. apply advanced_tx_wf; [apply Hs|lia|lia].
      * change (ring_base base (advanced_tx _ _)) with (ring_base base r).
        rewrite (ring_write_view m _ r l m') by (apply Hs || done || lia).
        by rewrite Hv, Hsz.
      * rewrite advanced_tx_delta; lia.
    + rewrite (write_message_too_long m s dir r) by (done || lia).
      eexists. split; [done|]. split; [|done]. by eexists s, r.
  - apply Z.leb_le in Hop.
    destruct (read_message_ring m s dir r base n Hs Hb Hop ltac:(lia))
      as (r' & Hmsg & Hs' & Hsz' & Hoff' & Hd' & Hv').
    assert (pending r = Z.of_nat (length (queue q))) as Hp by (unfold pending; lia).
    rewrite Hmsg. rewrite Hv, Hp in *. clear Hmsg.
    destruct (Z.eqb_spec (delta r) 0) as [H0|Hne]; simpl.
    + assert (queue q = []) as Hnil by (apply length_zero_iff_nil; lia).
      rewrite Hnil, take_nil, drop_nil in *. eexists. split; [done|]. split; simpl; [|lia].
      eexists s, r. split_and!; done || lia.
    + eexists. split; [done|]. split; simpl; [|lia].
      eexists _, r'. split_and!; try done; [lia| |lia].
      unfold ring_base. rewrite Hoff'. exact Hv'.
  - apply Z.leb_le in Hop.
    destruct (flush_ring s dir r m (ring_base base r) leave Hs Hop ltac:(lia))
      as (r' & Hfl & Hs' & Hsz' & Hoff' & Hd' & Hv').
    assert (Z.min (Z.min leave (size r)) (delta r)
            = Z.min leave (Z.of_nat (length (queue q)))) as Hk by lia.
    rewrite Hfl. simpl. eexists. split; [done|]. split; simpl; [|lia].
    eexists _, r'. rewrite Hk, Hv in *. split_and!; try done; [lia|].
    unfold ring_base. rewrite Hoff'. exact Hv'.
Qed.

Lemma ring_run_sim base dir cap st q ops :
  base <> 0 → ring_sim base dir cap st q → ops_in_range cap q ops = true →
  ∃ st', ring_run base dir st ops = Some ((fifo_run cap q ops).1, st') ∧
         ring_sim base dir cap st' (fifo_run cap q ops).2.
Proof.
  intros Hb. revert st q. induction ops as [|op ops IH]; intros st q Hsim Hok; simpl.
  { by exists st. }
  simpl in Hok. apply andb_true_iff in Hok as [Hop Hops].
  destruct (ring_step_sim base dir cap st q op Hb Hsim Hop) as (st1 & H1 & Hsim1).
  rewrite H1. simpl. destruct (fifo_step cap q op) as [out q1]. simpl in *.
  destruct (IH st1 q1 Hsim1 Hops) as (st2 & H2 & Hsim2). rewrite H2. simpl.
  destruct (fifo_run cap q1 ops) as [outs q2]. simpl in *. by exists st2.
Qed.

(** ** Lossless use *)

Fixpoint written (ops : list ring_op) : list Z :=
  match ops with
  | [] => []
  | RWrite l :: ops => l ++ written ops
  | _ :: ops => written ops
  end.

(** Only reads, and writes within the free space. *)
Definition op_fits (cap : Z) (q : fifo) (op : ring_op) : bool :=
  match op with
  | RWrite l => Z.of_nat (length q.(queue)) + Z.of_nat (length l) <=? cap
  | RRead n => 0 <=? n
  | RFlush _ => false
  end.

Fixpoint ops_fit (cap : Z) (q : fifo) (ops : list ring_op) : bool :=
  match ops with
  | [] => true
  | op :: ops => op_fits cap q op && ops_fit cap (fifo_step cap q op).2 ops
  end.

Lemma fifo_step_fits cap q op :
  q.(lead) = Z.of_nat (length q.(queue)) → op_fits cap q op = true →
  let res := fifo_step cap q op in
  res.2.(lead) = Z.of_nat (length res.2.(queue)) ∧
  res.1 ++ res.2.(queue) = q.(queue) ++ written [op].
Proof.
  intros Hlead Hfit. destruct op as [l|n|]; simpl in *; [| |done].
  - apply Z.leb_le in Hfit. case_bool; [|lia]. simpl.
    rewrite lastn_all by (rewrite length_app; lia).
    rewrite length_app, app_nil_r. split; [lia|done].
  - rewrite length_drop, take_drop, app_nil_r. split; [lia|done].
Qed.

Lemma fifo_run_lossless cap q ops :
  q.(lead) = Z.of_nat (length q.(queue)) → ops_fit cap q ops = true →
  concat (fifo_run cap q ops).1 ++ (fifo_run cap q ops).2.(queue)
    = q.(queue) ++ written ops.
Proof.
  revert q. induction ops as [|op ops IH]; intros q Hlead Hfit; simpl.
  { by rewrite app_nil_r. }
  simpl in Hfit. apply andb_true_iff in Hfit as [Hop Hops].
  destruct (fifo_step_fits cap q op Hlead Hop) as [Hl Heq].
  specialize (IH _ Hl Hops). destruct (fifo_step cap q op) as [out q1].
  simpl in *. destruct (fifo_run cap q1 ops) as [outs q2]. simpl in *.
  rewrite <- app_assoc, IH, app_assoc, Heq, <- app_assoc. f_equal.
  destruct op; simpl; by rewrite ?app_nil_r.
Qed.

Lemma ops_fit_in_range cap q ops :
  0 < cap <= 2 ^ 31 → q.(lead) = Z.of_nat (length q.(queue)) →
  ops_fit cap q ops = true → ops_in_range cap q ops = true.
Proof.
  intros Hcap. revert q. induction ops as [|op ops IH]; intros q Hlead Hfit; [done|].
  simpl in *. apply andb_true_iff in Hfit as [Hop Hops].
  destruct (fifo_step_fits cap q op Hlead Hop) as [Hl _].
  rewrite (IH _ Hl Hops), andb_true_r.
  destruct op; simpl in *; [apply Z.leb_le in Hop; apply Z.leb_le; lia|done|done].
Qed.

Lemma ring_sim_intro m s dir r base :
  ring_service s dir r → delta r + r.(size) <= 2 ^ 32 →
  ring_sim base dir r.(size) (Some s, m)
    (Fifo (ring_view m (ring_base base r) r) (delta r)).
Proof. intros Hs Hd. split; [by exists s, r|done]. Qed.

(** ** A concrete ring for the witnesses: eight bytes, counters about to wrap *)

Definition demo_region : region :=
  Region 16 8 1 (2 ^ 32 - 2) (2 ^ 32 - 4) 1 7.

Definition demo_service : service :=
  Service [] 0x00010000 demo_region (Region 64 8 1 0 0 0 0).

Lemma demo_ring_service : ring_service demo_service AOC_UP demo_region.
Proof.
  split; [reflexivity|reflexivity|done|].
  split; simpl; try lia. reflexivity.
Qed.

(** ** Properties *)

(** C1: any interleaving of writes, reads and flushes of a ring, run by the
    code, delivers exactly the bytes a lossy FIFO of [size] entries delivers
    (an overflow drops the oldest bytes, also across the 2^32 wrap of the
    counters), and leaves the ring holding the FIFO's content. *)
Theorem aoc_ring_refines_fifo m s dir r base ops :
  base <> 0 → ring_service s dir r → delta r + r.(size) <= 2 ^ 32 →
  ops_in_range r.(size) (Fifo (ring_view m (ring_base base r) r) (delta r)) ops = true →
  let res := fifo_run r.(size) (Fifo (ring_view m (ring_base base r) r) (delta r)) ops in
  ∃ s' m' r', ring_run base dir (Some s, m) ops = Some (res.1, (Some s', m')) ∧
    ring_service s' dir r' ∧ r'.(size) = r.(size) ∧
    ring_view m' (ring_base base r') r' = res.2.(queue).
Proof.
  intros Hb Hs Hd Hok res.
  destruct (ring_run_sim base dir _ _ _ ops Hb (ring_sim_intro m s dir r base Hs Hd) Hok)
    as ([h m'] & Hrun & [(s' & r' & Hh & Hs' & Hsz & Hv & _) _]).
  simpl in *. subst h. by exists s', m', r'.
Qed.

Lemma aoc_ring_refines_fifo_witness :
  ∃ s' m' r',
    ring_run 0x1000 AOC_UP (Some demo_service, λ x, x mod 256)
      [RWrite [1; 2; 3; 4; 5; 6; 7]; RRead 3; RFlush 2; RRead 9]
      = Some ([[]; [16; 1; 2]; []; [6; 7]], (Some s', m')) ∧
    ring_service s' AOC_UP r' ∧ size r' = 8 ∧
    ring_view m' (ring_base 0x1000 r') r' = [].
Proof.
  apply (aoc_ring_refines_fifo (λ x, x mod 256) demo_service AOC_UP demo_region 0x1000
    [RWrite [1; 2; 3; 4; 5; 6; 7]; RRead 3; RFlush 2; RRead 9]).
  - lia.
  - exact demo_ring_service.
  - vm_compute. discriminate.
  - vm_compute. reflexivity.
Defined.

(** C32: when the producer writes only within the free space, no byte is lost,
    duplicated or reordered: what the reads returned followed by what is still
    in the ring is what was there followed by what was written. *)
Theorem aoc_ring_lossless m s dir r base ops :
  base <> 0 → ring_service s dir r → delta r <= r.(size) →
  ops_fit r.(size) (Fifo (ring_view m (ring_base base r) r) (delta r)) ops = true →
  ∃ outs s' m' r',
    ring_run base dir (Some s, m) ops = Some (outs, (Some s', m')) ∧
    ring_service s' dir r' ∧
    concat outs ++ ring_view m' (ring_base base r') r'
      = ring_view m (ring_base base r) r ++ written ops.
Proof.
  intros Hb Hs Hd Hfit. pose proof (wf_size _ (rs_wf _ _ _ Hs)) as Hsz.
  set (q := Fifo _ _) in *.
  assert (lead q = Z.of_nat (length (queue q))) as Hq.
  { simpl. rewrite length_ring_view. unfold pending. pose proof (delta_range r). lia. }
  destruct (ring_run_sim base dir _ _ _ ops Hb
    (ring_sim_intro m s dir r base Hs ltac:(lia))
    (ops_fit_in_range _ q ops Hsz Hq Hfit))
    as ([h m'] & Hrun & [(s' & r' & Hh & Hs' & _ & Hv & _) _]).
  simpl in *. subst h. eexists _, s', m', r'. split; [exact Hrun|]. split; [done|].
  rewrite Hv. apply (fifo_run_lossless _ q ops Hq Hfit).
Qed.

Lemma aoc_ring_lossless_witness :
  ∃ outs s' m' r',
    ring_run 0x1000 AOC_UP (Some demo_service, λ x, x mod 256)
      [RWrite [1; 2; 3]; RRead 3; RWrite [4; 5]; RRead 1]
      = Some (outs, (Some s', m')) ∧
    ring_service s' AOC_UP r' ∧
    concat outs ++ ring_view m' (ring_base 0x1000 r') r' = [23; 16; 1; 2; 3; 4; 5].
Proof.
  apply (aoc_ring_lossless (λ x, x mod 256) demo_service AOC_UP demo_region 0x1000
    [RWrite [1; 2; 3]; RRead 3; RWrite [4; 5]; RRead 1]).
  - lia.
  - exact demo_ring_service.
  - vm_compute. discriminate.
  - vm_compute. reflexivity.
Defined.

(** A write of [n] bytes to a ring is refused, changing nothing, exactly
    when [n] exceeds the ring; otherwise it succeeds, publishes [n] bytes, and
    changes neither the other direction's region nor any byte of memory outside
    the ring. *)
Theorem aoc_ring_write_frame m s dir r base src :
  base <> 0 → ring_service s dir r →
  ∃ ok s' m', aoc_service_write_message m (Some s) base dir (Some src)
                (Z.of_nat (length src)) = Some (ok, Some s', m') ∧
    ok = (Z.of_nat (length src) <=? r.(size)) ∧
    (ok = false → s' = s ∧ m' = m) ∧
    (∀ dir', dir' <> dir → region_at s' dir' = region_at s dir') ∧
    (ok = true → option_map tx (region_at s' dir)
                 = Some (u32 (r.(tx) + Z.of_nat (length src)))) ∧
    (∀ x, ¬ (ring_base base r <= x < ring_base base r + r.(size)) → m' x = m x).
Proof.
  intros Hb Hs. destruct (Z.leb_spec (Z.of_nat (length src)) (size r)) as [Hl|Hl].
  - destruct (write_message_ring m s dir r base src Hs Hb Hl) as (m' & Hw & Hmsg).
    eexists true, _, m'. rewrite Hmsg. split_and!; try done.
    + intros dir' Hne. apply region_at_set_ne. congruence.
    + intros _. by rewrite (region_at_set s dir r) by apply Hs.
    + intros x Hx. eapply ring_write_outside; eauto using rs_wf.
  - exists false, s, m. rewrite (write_message_too_long m s dir r) by done. done.
Qed.

Lemma aoc_ring_write_frame_witness :
  ∃ ok s' m', aoc_service_write_message (λ _, 0) (Some demo_service) 0x1000 AOC_UP
                (Some [1; 2; 3]) 3 = Some (ok, Some s', m') ∧
    ok = true ∧ (ok = false → s' = demo_service ∧ m' = λ _, 0) ∧
    (∀ dir', dir' <> AOC_UP → region_at s' dir' = region_at demo_service dir') ∧
    (ok = true → option_map tx (region_at s' AOC_UP) = Some 1) ∧
    (∀ x, ¬ (0x1010 <= x < 0x1018) → m' x = 0).
Proof.
  apply (aoc_ring_write_frame (λ _, 0) demo_service AOC_UP demo_region 0x1000 [1; 2; 3]).
  - lia.
  - exact demo_ring_service.
Defined.

(** the unsigned counters measure the lead of the producer modulo 2^32 for
    every pair of 32-bit values, the branch for a wrapped producer included. *)
Theorem aoc_read_write_delta_wraps r n :
  0 <= r.(rx) < 2 ^ 32 → 0 <= n < 2 ^ 32 →
  r.(tx) = u32 (r.(rx) + n) → _read_write_delta r = n.
Proof.
  intros Hr Hn Ht. rewrite read_write_delta_spec; [|rewrite Ht; apply u32_range|done].
  unfold delta. rewrite Ht, u32_sub_l.
  replace (rx r + n - rx r) with n by lia. by apply u32_small.
Qed.

Lemma aoc_read_write_delta_wraps_witness :
  _read_write_delta (Region 0 16 1 3 (2 ^ 32 - 5) 0 0) = 8.
Proof.
  apply (aoc_read_write_delta_wraps (Region 0 16 1 3 (2 ^ 32 - 5) 0 0) 8);
    simpl; [lia|lia|reflexivity].
Defined.

(** on a ring in use the readable and the writable byte counts add up to
    the ring's size, and overflow is reported exactly when more bytes were
    written than the ring holds. *)
Theorem aoc_ring_space_partition s dir r :
  ring_service s dir r →
  ∃ nr nw, aoc_ring_bytes_available_to_read (Some s) dir = Some nr ∧
    aoc_ring_bytes_available_to_write (Some s) dir = Some nw ∧
    nr = pending r ∧ 0 <= nw ∧ nr + nw = r.(size) ∧
    aoc_ring_did_overflow (Some s) dir = Some (r.(size) <? delta r).
Proof.
  intros Hs. pose proof (rs_wf _ _ _ Hs) as Hwf. pose proof (pending_range r Hwf) as Hp.
  pose proof Hwf as [].
  assert (aoc_ring_bytes_available_to_read (Some s) dir = Some (pending r)) as Hr.
  { unfold aoc_ring_bytes_available_to_read.
    rewrite (on_ring s dir r), read_write_delta_spec by (done || apply Hs).
    unfold pending. case_bool; f_equal; lia. }
  exists (pending r), (size r - pending r). split_and!; try done; [|lia|lia|].
  - unfold aoc_ring_bytes_available_to_write.
    rewrite (on_ring s dir r), Hr by (done || apply Hs). simpl.
    by rewrite u64_small by lia.
  - unfold aoc_ring_did_overflow.
    by rewrite (on_ring s dir r), read_write_delta_spec by (done || apply Hs).
Qed.

Lemma aoc_ring_space_partition_witness :
  ∃ nr nw, aoc_ring_bytes_available_to_read (Some demo_service) AOC_UP = Some nr ∧
    aoc_ring_bytes_available_to_write (Some demo_service) AOC_UP = Some nw ∧
    nr = 2 ∧ 0 <= nw ∧ nr + nw = 8 ∧
    aoc_ring_did_overflow (Some demo_service) AOC_UP = Some false.
Proof.
  apply (aoc_ring_space_partition demo_service AOC_UP demo_region).
  exact demo_ring_service.
Defined.

(** Resetting the write pointer brings it to the start of the ring by
    publishing the rest of the ring to the reader: the [size - wp] stale bytes
    become readable.  The code's test for a pointer already at the start never
    fires, so a reset of a ring whose [wp] is 0 publishes a whole ring of stale
    bytes and evicts everything pending. *)
Theorem aoc_ring_reset_publishes_tail m s dir r base :
  ring_service s dir r → r.(size) < 2 ^ 31 → delta r + r.(size) < 2 ^ 32 →
  ∃ s' r', aoc_ring_reset_write_pointer (Some s) dir = Some (true, Some s') ∧
    ring_service s' dir r' ∧ r'.(wp) = 0 ∧
    delta r' = delta r + (r.(size) - r.(wp)) ∧
    ring_view m (ring_base base r) r'
      = lastn (Z.to_nat r.(size))
          (ring_view m (ring_base base r) r
             ++ ring_bytes m (ring_base base r) r.(size) r.(wp) (r.(size) - r.(wp))).
Proof.
  intros Hs H31 Hd. pose proof (rs_wf _ _ _ Hs) as Hwf. pose proof Hwf as [].
  exists (set_region s dir (advanced_tx r (size r - wp r))),
    (advanced_tx r (size r - wp r)).
  split; [|split; [|split; [|split]]].
  - unfold aoc_ring_reset_write_pointer. rewrite (rs_ring _ _ _ Hs), (rs_region _ _ _ Hs).
    simpl.
    rewrite u32_small, s32_small by lia. case_bool; [|lia].
    by rewrite advance_tx_ok by (done || lia).
  - eapply ring_service_set; [done| |done]. apply advanced_tx_wf; [done|lia|lia].
  - simpl. replace (wp r + (size r - wp r)) with (size r) by lia. apply Z.mod_same. lia.
  - apply advanced_tx_delta; lia.
  - apply ring_advance_view; [done|lia|lia].
Qed.

(** An idle ring whose write pointer is at the start: after the reset the
    reader is handed eight bytes nobody wrote. *)
Lemma aoc_ring_reset_publishes_tail_witness :
  let r := Region 16 8 1 24 24 0 0 in
  let s := Service [] 0x00010000 r r in
  ∃ s' r', aoc_ring_reset_write_pointer (Some s) AOC_UP = Some (true, Some s') ∧
    ring_service s' AOC_UP r' ∧ wp r' = 0 ∧ delta r' = 8 ∧
    ring_view (λ x, x mod 256) 0x1010 r' = [16; 17; 18; 19; 20; 21; 22; 23].
Proof.
  intros r s.
  apply (aoc_ring_reset_publishes_tail (λ x, x mod 256) s AOC_UP r 0x1000);
    [|simpl; lia|vm_compute; reflexivity].
  split; [reflexivity|reflexivity|done|]. split; simpl; try lia. reflexivity.
Defined.
