(* ===== verification/AocQueue.v ===== *)
(** * AoC message queues refine a bounded FIFO of messages

    A queue region is an array of [slots] slots of [size] bytes; a message is a
    header with its length and then its bytes.  The producer may only use a free
    slot and the consumer frees the oldest. *)

From S2P Require Import Prelude AocIpc AocRing.

(** ** Abstraction *)

(** The offsets of the slots fit in 32 bits, at most [slots] messages are
    pending, and the slot count divides the range of the counters, so that the
    slot index survives their wrap, or they have not wrapped. *)
Record queue_wf (r : region) : Prop := {
  qw_offset : 0 <= r.(offset);
  qw_size : message_header_size < r.(size);
  qw_len : r.(size) - message_header_size < 2 ^ 16;
  qw_slots : 0 < r.(slots);
  qw_area : r.(size) * r.(slots) < 2 ^ 32;
  qw_tx : 0 <= r.(tx) < 2 ^ 32;
  qw_rx : 0 <= r.(rx) < 2 ^ 32;
  qw_full : delta r <= r.(slots);
  qw_turn : (r.(slots) | 2 ^ 32) ∨ r.(rx) <= r.(tx)
}.

(** [n] more messages can be sent before the counter wraps where it must not. *)
Definition sends_left (n : Z) (r : region) : Prop :=
  (r.(slots) | 2 ^ 32) ∨ r.(tx) + n < 2 ^ 32.

(** A queue service in use, its payload capacity and its base. *)
Record queue_service (s : service) (dir : Z) (r : region) : Prop := {
  qs_queue : aoc_service_is_queue s = true;
  qs_region : region_at s dir = Some r;
  qs_wf : queue_wf r
}.

Definition slot_addr (base : Z) (r : region) (c : Z) : Z :=
  base + r.(offset) + r.(size) * (c mod r.(slots)).

(** The message a slot holds. *)
Definition slot_message (m : memory) (a : Z) : list Z :=
  mem_load m (a + message_header_size) (u16 (m a + 256 * m (a + 1))).

(** Pending messages, oldest first. *)
Definition queue_view (m : memory) (base : Z) (r : region) : list (list Z) :=
  (λ i, slot_message m (slot_addr base r (r.(rx) + i))) <$> seqZ 0 (delta r).

(** ** Slots *)

Lemma mod_u32 c n : 0 < n → (n | 2 ^ 32) → u32 c mod n = c mod n.
Proof.
  intros Hn [k Hk]. unfold u32. rewrite (Z.mod_eq c (2 ^ 32)) by lia.
  rewrite Hk at 1. replace (c - k * n * (c / 2 ^ 32)) with (c + (- k * (c / 2 ^ 32)) * n) by ring.
  apply Z_mod_plus_full.
Qed.

Lemma slot_addr_u32 base r c :
  queue_wf r → (r.(slots) | 2 ^ 32) → slot_addr base r (u32 c) = slot_addr base r c.
Proof. intros [] Hd. unfold slot_addr. by rewrite mod_u32. Qed.

(** The pending messages do not wrap when the counters have not. *)
Lemma delta_unwrapped r : queue_wf r → r.(rx) <= r.(tx) → delta r = r.(tx) - r.(rx).
Proof. intros [] Hle. unfold delta. by rewrite u32_small by lia. Qed.

(** Two counters less than a turn apart use different slots. *)
Lemma slot_distinct n c d : 0 < n → 0 < d < n → (c + d) mod n <> c mod n.
Proof.
  intros Hn Hd Heq.
  assert ((c + d - c) mod n = 0) as H0
    by (rewrite Zminus_mod, Heq, Z.sub_diag; apply Z.mod_0_l; lia).
  replace (c + d - c) with d in H0 by lia. rewrite Z.mod_small in H0; lia.
Qed.

(** Storing a message in one slot leaves the other slots alone. *)
Lemma slot_message_store m base r c c' (l : list Z) a :
  queue_wf r → c mod r.(slots) <> c' mod r.(slots) →
  slot_addr base r c <= a →
  a + Z.of_nat (length l) <= slot_addr base r c + r.(size) →
  (∀ x, slot_addr base r c' <= x < slot_addr base r c' + r.(size) →
     mem_store m a l x = m x).
Proof.
  intros [] Hne Ha Hl x Hx. apply mem_store_out. unfold slot_addr in *.
  assert (c mod slots r < c' mod slots r ∨ c' mod slots r < c mod slots r) as [?|?] by lia;
    unfold message_header_size in *; nia.
Qed.

Lemma slot_message_ext m m' base r c :
  queue_wf r →
  (∀ x, slot_addr base r c <= x < slot_addr base r c + r.(size) → m' x = m x) →
  Z.of_nat (length (slot_message m (slot_addr base r c))) <= r.(size) - message_header_size →
  slot_message m' (slot_addr base r c) = slot_message m (slot_addr base r c).
Proof.
  intros [] Hx Hl. unfold slot_message in *. rewrite length_mem_load in Hl.
  unfold message_header_size in *.
  rewrite !(Hx _) by lia. unfold mem_load. apply list_fmap_ext. intros i y Hi.
  apply lookup_seqZ in Hi as [-> ?]. apply Hx. lia.
Qed.

(** What a stored message reads back as. *)
Lemma slot_message_written m a (l : list Z) :
  Z.of_nat (length l) < 2 ^ 16 →
  let n := Z.of_nat (length l) in
  slot_message
    (mem_store (mem_store m a [u16 n mod 256; u16 n / 256; 0; 0; 0; 0; 0; 0])
       (a + message_header_size) l) a = l.
Proof.
  intros Hl n. unfold slot_message, message_header_size.
  set (m1 := mem_store m a _).
  assert (m1 a = u16 n mod 256) as H0.
  { unfold m1. rewrite mem_store_in by (simpl; lia).
    by replace (a - a) with 0 by lia. }
  assert (m1 (a + 1) = u16 n / 256) as H1.
  { unfold m1. rewrite mem_store_in by (simpl; lia).
    by replace (a + 1 - a) with 1 by lia. }
  rewrite !mem_store_out by lia. rewrite H0, H1.
  replace (u16 n mod 256 + 256 * (u16 n / 256)) with (u16 n)
    by (pose proof (Z.div_mod (u16 n) 256); lia).
  rewrite (u16_small n), u16_small by lia. apply mem_load_store.
Qed.

(** ** The calls on a queue service *)

Lemma is_ring_queue s : aoc_service_is_queue s = true →
  aoc_service_is_ring s = false ∧ aoc_service_is_buffer s = false.
Proof.
  unfold aoc_service_is_queue, aoc_service_is_ring, aoc_service_is_buffer.
  intros H. apply Z.eqb_eq in H as ->. done.
Qed.

Lemma is_queue_set s dir r :
  aoc_service_is_queue (set_region s dir r) = aoc_service_is_queue s.
Proof. unfold aoc_service_is_queue, aoc_service_type. by rewrite flags_set. Qed.

Lemma on_queue {A} s dir r (dflt : A) body :
  queue_service s dir r →
  on_region (Some s) dir any_service dflt body = body s r.
Proof.
  intros []. unfold on_region. rewrite (region_at_valid s dir r) by done.
  simpl. by rewrite qs_region0.
Qed.

Ltac on_queue_simpl Hs :=
  rewrite (on_queue _ _ _ _ _ Hs);
  let H1 := fresh in let H2 := fresh in
  destruct (is_ring_queue _ (qs_queue _ _ _ Hs)) as [H1 H2];
  rewrite ?H1, ?H2; clear H1 H2.

Lemma slots_read_queue s dir r :
  queue_service s dir r →
  aoc_service_slots_available_to_read (Some s) dir = Some (delta r).
Proof.
  intros Hs. unfold aoc_service_slots_available_to_read. on_queue_simpl Hs.
  destruct Hs as [_ _ []]. rewrite read_write_delta_spec by done.
  repeat case_bool; f_equal; lia.
Qed.

Lemma slots_write_queue s dir r :
  queue_service s dir r →
  aoc_service_slots_available_to_write (Some s) dir = Some (r.(slots) - delta r).
Proof.
  intros Hs. unfold aoc_service_slots_available_to_write. on_queue_simpl Hs.
  destruct Hs as [_ _ []]. rewrite read_write_delta_spec by done.
  pose proof (delta_range r). case_bool; [lia|].
  unfold message_header_size in *. rewrite u64_small; [done|]. split; [lia|]. nia.
Qed.

Lemma message_size_queue s dir r :
  queue_service s dir r →
  aoc_service_message_size (Some s) dir = Some (r.(size) - message_header_size).
Proof.
  intros Hs. unfold aoc_service_message_size. on_queue_simpl Hs. simpl.
  destruct Hs as [_ _ []]. by case_bool; [lia|].
Qed.

Lemma slot_offset_queue base r c :
  queue_wf r → ∃ off, slot_offset r c = Some off ∧
    base + r.(offset) + off = slot_addr base r c.
Proof.
  intros []. unfold slot_offset, slot_addr. case_bool; [lia|].
  eexists. split; [done|]. rewrite u32_small; [done|].
  pose proof (Z.mod_pos_bound c (slots r) qw_slots0).
  unfold message_header_size in *. nia.
Qed.

Lemma read_pointer_queue s dir r base :
  queue_service s dir r → base <> 0 →
  aoc_service_current_read_pointer (Some s) base dir = Some (slot_addr base r r.(rx)).
Proof.
  intros Hs Hb. unfold aoc_service_current_read_pointer.
  rewrite (proj2 (Z.eqb_neq _ _) Hb). on_queue_simpl Hs.
  destruct (slot_offset_queue base r (rx r) (qs_wf _ _ _ Hs)) as (off & -> & <-). done.
Qed.

Lemma write_pointer_queue s dir r base :
  queue_service s dir r → base <> 0 →
  aoc_service_current_write_pointer (Some s) base dir = Some (slot_addr base r r.(tx)).
Proof.
  intros Hs Hb. unfold aoc_service_current_write_pointer.
  rewrite (proj2 (Z.eqb_neq _ _) Hb). on_queue_simpl Hs.
  destruct (slot_offset_queue base r (tx r) (qs_wf _ _ _ Hs)) as (off & -> & <-). done.
Qed.

(** The region after one more message, and after one message less. *)
Definition queue_pushed (r : region) : region :=
  Region r.(offset) r.(size) r.(slots) (u32 (r.(tx) + 1)) r.(rx)
    (u32 (r.(wp) + 1) mod r.(size)) r.(rp).

Definition queue_popped (r : region) : region :=
  Region r.(offset) r.(size) r.(slots) r.(tx) (u32 (r.(rx) + 1))
    r.(wp) (u32 (r.(rp) + 1) mod r.(size)).

Lemma delta_pushed r : delta r + 1 < 2 ^ 32 → delta (queue_pushed r) = delta r + 1.
Proof. intros H. apply (delta_advance_tx 1); [lia|done]. Qed.

Lemma delta_popped r : 1 <= delta r → delta (queue_popped r) = delta r - 1.
Proof. intros H. apply (delta_advance_rx 1 (tx r) (rx r)). change (0 <= 1 <= delta r). lia. Qed.

Lemma slots_lt r : queue_wf r → r.(slots) < 2 ^ 32.
Proof. intros []. unfold message_header_size in *. nia. Qed.

Lemma pushed_service s dir r :
  queue_service s dir r → delta r < r.(slots) → sends_left 1 r →
  queue_service (set_region s dir (queue_pushed r)) dir (queue_pushed r).
Proof.
  intros [Hq Hr Hwf] Hd Hleft. pose proof (slots_lt r Hwf). pose proof Hwf as [].
  split; [by rewrite is_queue_set|by eapply region_at_set|].
  split; simpl; auto using u32_range; [rewrite delta_pushed; lia|].
  destruct qw_turn0 as [?|Hle]; [by left|]. destruct Hleft as [?|Hl]; [by left|right].
  rewrite u32_small; lia.
Qed.

Lemma popped_service s dir r :
  queue_service s dir r → 1 <= delta r →
  queue_service (set_region s dir (queue_popped r)) dir (queue_popped r).
Proof.
  intros [Hq Hr Hwf] Hd. pose proof Hwf as [].
  split; [by rewrite is_queue_set|by eapply region_at_set|].
  split; simpl; auto using u32_range; [rewrite delta_popped; lia|].
  destruct qw_turn0 as [?|Hle]; [by left|right].
  rewrite (delta_unwrapped r Hwf Hle) in Hd. rewrite u32_small; lia.
Qed.

Lemma increment_write_queue s dir r :
  queue_service s dir r → delta r < r.(slots) →
  aoc_service_increment_write_index (Some s) dir
    = Some (true, Some (set_region s dir (queue_pushed r))).
Proof.
  intros Hs Hd. unfold aoc_service_increment_write_index, aoc_service_advance_write_index.
  rewrite (slots_write_queue s dir r Hs). simpl.
  destruct (is_ring_queue _ (qs_queue _ _ _ Hs)) as [-> _]. simpl.
  case_bool; [lia|]. rewrite (qs_region _ _ _ Hs). simpl.
  unfold _region_advance_tx. destruct (qs_wf _ _ _ Hs).
  unfold message_header_size in *. by case_bool; [lia|].
Qed.

Lemma increment_read_queue s dir r :
  queue_service s dir r → 1 <= delta r →
  aoc_service_increment_read_index (Some s) dir
    = Some (true, Some (set_region s dir (queue_popped r))).
Proof.
  intros Hs Hd. unfold aoc_service_increment_read_index, aoc_service_advance_read_index.
  rewrite (slots_read_queue s dir r Hs).
  destruct (is_ring_queue _ (qs_queue _ _ _ Hs)) as [-> _]. simpl.
  case_bool; [lia|]. rewrite (qs_region _ _ _ Hs). simpl.
  unfold _region_advance_rx. destruct (qs_wf _ _ _ Hs).
  unfold message_header_size in *. by case_bool; [lia|].
Qed.

(** ** The view under reads and writes *)

Lemma length_queue_view m base r :
  length (queue_view m base r) = Z.to_nat (delta r).
Proof. unfold queue_view. by rewrite length_fmap, length_seqZ. Qed.

Lemma lookup_queue_view m base r (i : nat) :
  Z.of_nat i < delta r →
  queue_view m base r !! i = Some (slot_message m (slot_addr base r (r.(rx) + Z.of_nat i))).
Proof.
  intros H. unfold queue_view. rewrite list_lookup_fmap, lookup_seqZ_lt by lia. done.
Qed.

(** Every pending message lies within its slot. *)
Definition messages_fit (m : memory) (base : Z) (r : region) : Prop :=
  Forall (λ l, Z.of_nat (length l) <= r.(size) - message_header_size)
    (queue_view m base r).

Lemma tx_slot base r : queue_wf r →
  slot_addr base r r.(tx) = slot_addr base r (r.(rx) + delta r).
Proof.
  intros Hwf. pose proof Hwf as []. destruct qw_turn0 as [Hdiv|Hle].
  2: { rewrite (delta_unwrapped r Hwf Hle). f_equal. lia. }
  rewrite <- (slot_addr_u32 _ _ (rx r + _)) by done.
  f_equal. unfold delta. rewrite Z.add_comm, u32_add_l.
  replace (tx r - rx r + rx r) with (tx r) by lia. by rewrite u32_small.
Qed.

Definition slot_store (m : memory) (a : Z) (l : list Z) : memory :=
  let n := Z.of_nat (length l) in
  mem_store (mem_store m a [u16 n mod 256; u16 n / 256; 0; 0; 0; 0; 0; 0])
    (a + message_header_size) l.

Lemma queue_view_pushed m base r l :
  queue_wf r → delta r < r.(slots) → messages_fit m base r →
  Z.of_nat (length l) <= r.(size) - message_header_size →
  queue_view (slot_store m (slot_addr base r r.(tx)) l) base (queue_pushed r)
    = queue_view m base r ++ [l].
Proof.
  intros Hwf Hd Hfit Hl. pose proof (slots_lt r Hwf). pose proof (delta_range r).
  pose proof Hwf as [].
  apply list_eq_same_length with (n := Z.to_nat (delta r + 1)).
  - rewrite length_app, length_queue_view. simpl. lia.
  - rewrite length_queue_view, delta_pushed; lia.
  - intros i x y Hi. rewrite lookup_queue_view by (rewrite delta_pushed; lia).
    intros [= <-].
    change (slot_addr base (queue_pushed r)) with (slot_addr base r).
    change (rx (queue_pushed r)) with (rx r). rewrite (tx_slot base r Hwf).
    destruct (decide (Z.of_nat i = delta r)) as [Hlast|Hold].
    + rewrite lookup_app_r by (rewrite length_queue_view; lia).
      rewrite length_queue_view. replace (i - Z.to_nat (delta r))%nat with 0%nat by lia.
      intros [= <-]. rewrite Hlast. apply slot_message_written. lia.
    + rewrite lookup_app_l by (rewrite length_queue_view; lia).
      rewrite lookup_queue_view by lia. intros [= <-].
      apply slot_message_ext; [done| |].
      * intros z Hz. unfold slot_store.
        assert ((rx r + delta r) mod slots r <> (rx r + Z.of_nat i) mod slots r).
        { replace (rx r + delta r) with (rx r + Z.of_nat i + (delta r - Z.of_nat i)) by lia.
          apply slot_distinct; lia. }
        unfold message_header_size in *.
        rewrite (slot_message_store _ base r (rx r + delta r) (rx r + Z.of_nat i))
          by (done || simpl; lia).
        apply (slot_message_store _ base r (rx r + delta r) (rx r + Z.of_nat i));
          simpl; done || lia.
      * unfold messages_fit in Hfit. rewrite Forall_lookup in Hfit.
        eapply Hfit. by apply lookup_queue_view; lia.
Qed.

Lemma queue_view_popped m base r :
  queue_wf r → 1 <= delta r →
  queue_view m base r
    = slot_message m (slot_addr base r r.(rx)) :: queue_view m base (queue_popped r).
Proof.
  intros Hwf Hd. apply list_eq_same_length with (n := Z.to_nat (delta r)).
  - simpl. rewrite length_queue_view, delta_popped; lia.
  - by rewrite length_queue_view.
  - intros i x y Hi. rewrite lookup_queue_view by lia. intros [= <-].
    destruct i as [|i]; simpl.
    + rewrite Z.add_0_r. by intros [= <-].
    + rewrite lookup_queue_view by (rewrite delta_popped; lia). intros [= <-].
      change (slot_addr base (queue_popped r)) with (slot_addr base r). simpl.
      pose proof Hwf as [].
      destruct qw_turn0 as [Hdiv|Hle].
      2: { rewrite (delta_unwrapped r Hwf Hle) in Hd. rewrite u32_small by lia. do 2 f_equal. lia. }
      rewrite <- (slot_addr_u32 _ _ (u32 _ + _)), u32_add_l, slot_addr_u32 by done.
      do 2 f_equal. lia.
Qed.

(** ** Reading and writing messages *)

Lemma queue_write_message m s dir r base l :
  queue_service s dir r → 0 < base →
  Z.of_nat (length l) <= r.(size) - message_header_size → delta r < r.(slots) →
  aoc_service_write_message m (Some s) base dir (Some l) (Z.of_nat (length l))
    = Some (true, Some (set_region s dir (queue_pushed r)),
            slot_store m (slot_addr base r r.(tx)) l).
Proof.
  intros Hs Hb Hl Hd. unfold aoc_service_write_message, aoc_service_can_write_message.
  rewrite (region_at_valid s dir r), (qs_region _ _ _ Hs) by apply Hs.
  rewrite (proj2 (Z.eqb_neq base 0)) by lia. simpl.
  rewrite (slots_write_queue s dir r), (message_size_queue s dir r) by done. simpl.
  case_bool; [|lia]. simpl. case_bool; [lia|].
  destruct (is_ring_queue _ (qs_queue _ _ _ Hs)) as [-> _].
  rewrite (write_pointer_queue s dir r) by (done || lia). simpl.
  destruct (qs_wf _ _ _ Hs). rewrite (u32_small (Z.of_nat (length l))) by lia.
  unfold _aoc_queue_write_buffer. rewrite buf_read_all. simpl.
  by rewrite (increment_write_queue s dir r).
Qed.

Lemma queue_write_refused m s dir r base l n :
  queue_service s dir r → 0 < base →
  (r.(size) - message_header_size < n ∨ delta r = r.(slots)) →
  aoc_service_write_message m (Some s) base dir (Some l) n = Some (false, Some s, m).
Proof.
  intros Hs Hb Hl. unfold aoc_service_write_message, aoc_service_can_write_message.
  rewrite (region_at_valid s dir r), (qs_region _ _ _ Hs) by apply Hs.
  rewrite (proj2 (Z.eqb_neq base 0)) by lia. simpl.
  rewrite (slots_write_queue s dir r), (message_size_queue s dir r) by done. simpl.
  destruct (qs_wf _ _ _ Hs).
  case_bool; [|done]. simpl. by case_bool; [|lia].
Qed.

Lemma length_slot_message m a : 
  Z.of_nat (length (slot_message m a)) = u16 (m a + 256 * m (a + 1)).
Proof.
  unfold slot_message. rewrite length_mem_load. rewrite Z2Nat.id; [done|].
  apply u16_range.
Qed.

Lemma queue_read_message m s dir r base n :
  queue_service s dir r → 0 < base →
  aoc_service_read_message m (Some s) base dir true (Some n)
    = Some (match queue_view m base r with
            | [] => ReadResult false (Some s) [] n
            | x :: _ =>
                if n <? Z.of_nat (length x) then ReadResult false (Some s) [] n
                else ReadResult true (Some (set_region s dir (queue_popped r)))
                       x (Z.of_nat (length x))
            end).
Proof.
  intros Hs Hb. unfold aoc_service_read_message, aoc_service_can_read_message.
  rewrite (region_at_valid s dir r) by apply Hs.
  rewrite (proj2 (Z.eqb_neq base 0)) by lia. simpl.
  rewrite (slots_read_queue s dir r) by done. simpl. pose proof (delta_range r).
  case_bool; simpl.
  2:{ pose proof (length_queue_view m base r). by destruct (queue_view m base r); [|simpl in *; lia]. }
  rewrite (qs_region _ _ _ Hs). simpl.
  destruct (is_ring_queue _ (qs_queue _ _ _ Hs)) as [-> _].
  rewrite (read_pointer_queue s dir r) by (done || lia). simpl.
  pose proof (qs_wf _ _ _ Hs) as Hwf. rewrite (queue_view_popped m base r) by (done || lia).
  unfold header_length. rewrite length_slot_message.
  pose proof Hwf as []. 
  pose proof (Z.mod_pos_bound (rx r) (slots r) qw_slots0).
  assert (slot_addr base r (rx r) <> 0) as Hnz
    by (unfold slot_addr, message_header_size in *; nia).
  rewrite (proj2 (Z.eqb_neq _ _) Hnz). simpl.
  case_bool; [done|]. by rewrite (increment_read_queue s dir r) by (done || lia).
Qed.

(** ** The abstract queue and the simulation *)

Inductive queue_op :=
| QSend (l : list Z)
| QRecv (n : Z).

(** One operation of the code; the output is the result and the message. *)
Definition queue_step (base dir : Z) (st : option service * memory) (op : queue_op) :
    option (bool * list Z * (option service * memory)) :=
  let '(h, m) := st in
  match op with
  | QSend l =>
      '(ok, h', m') ← aoc_service_write_message m h base dir (Some l) (Z.of_nat (length l));
      Some (ok, [], (h', m'))
  | QRecv n =>
      res ← aoc_service_read_message m h base dir true (Some n);
      Some (res.(read_ok), res.(read_bytes), (res.(read_service), m))
  end.

Fixpoint queue_run (base dir : Z) (st : option service * memory) (ops : list queue_op) :
    option (list (bool * list Z) * (option service * memory)) :=
  match ops with
  | [] => Some ([], st)
  | op :: ops =>
      '(ok, out, st) ← queue_step base dir st op;
      '(outs, st) ← queue_run base dir st ops;
      Some ((ok, out) :: outs, st)
  end.

(** The specification: at most [cap] messages of at most [len] bytes. *)
Definition mailbox_step (cap len : Z) (q : list (list Z)) (op : queue_op) :
    bool * list Z * list (list Z) :=
  match op with
  | QSend l =>
      if (Z.of_nat (length q) <? cap) && (Z.of_nat (length l) <=? len)
      then (true, [], q ++ [l]) else (false, [], q)
  | QRecv n =>
      match q with
      | [] => (false, [], q)
      | x :: q' => if n <? Z.of_nat (length x) then (false, [], q) else (true, x, q')
      end
  end.

Fixpoint mailbox_run (cap len : Z) (q : list (list Z)) (ops : list queue_op) :
    list (bool * list Z) * list (list Z) :=
  match ops with
  | [] => ([], q)
  | op :: ops =>
      let '(out, q) := mailbox_step cap len q op in
      let '(outs, q) := mailbox_run cap len q ops in (out :: outs, q)
  end.

Lemma queue_step_sim base dir m s r op :
  0 < base → queue_service s dir r → messages_fit m base r → sends_left 1 r →
  let spec := mailbox_step r.(slots) (r.(size) - message_header_size)
                (queue_view m base r) op in
  ∃ s' m' r', queue_step base dir (Some s, m) op = Some (spec.1, (Some s', m')) ∧
    queue_service s' dir r' ∧ slots r' = slots r ∧ size r' = size r ∧
    (∀ n, 0 <= n → sends_left (n + 1) r → sends_left n r') ∧
    messages_fit m' base r' ∧ queue_view m' base r' = spec.2.
Proof.
  intros Hb Hs Hfit Hleft.
  assert (∀ n, 0 <= n → sends_left (n + 1) r → sends_left n r) as Hless.
  { intros n ? [?|?]; [by left|right; lia]. } pose proof (qs_wf _ _ _ Hs) as Hwf. pose proof (delta_range r).
  destruct op as [l|n]; simpl.
  - rewrite length_queue_view. destruct (Z.ltb_spec (Z.of_nat (Z.to_nat (delta r))) (slots r));
      [destruct (Z.leb_spec (Z.of_nat (length l)) (size r - message_header_size))|]; simpl.
    + rewrite (queue_write_message m s dir r) by (done || lia). simpl.
      pose proof (queue_view_pushed m base r l Hwf ltac:(lia) Hfit ltac:(lia)) as Hv.
      eexists _, _, (queue_pushed r). split; [done|].
      split_and!; try done; [by apply pushed_service; [|lia|]| |].
      { intros n Hn [?|?]; [by left|right]. destruct Hwf. simpl. rewrite u32_small; lia. }
      unfold messages_fit. rewrite Hv. apply Forall_app. split; [done|].
      by apply Forall_singleton.
    + rewrite (queue_write_refused m s dir r) by (done || lia). by exists s, m, r.
    + destruct Hwf. rewrite (queue_write_refused m s dir r) by (done || lia).
      by exists s, m, r.
  - rewrite (queue_read_message m s dir r) by done. simpl.
    destruct (queue_view m base r) as [|x q'] eqn:Hq; [by exists s, m, r|].
    case_bool; [by exists s, m, r|].
    assert (1 <= delta r) as Hd
      by (pose proof (length_queue_view m base r) as Hl; rewrite Hq in Hl; simpl in Hl; lia).
    pose proof (queue_view_popped m base r Hwf Hd) as Hpop. rewrite Hq in Hpop.
    injection Hpop as -> Hq'.
    eexists _, m, (queue_popped r). split; [done|].
    split_and!; try done; [by apply popped_service|].
    unfold messages_fit in *. rewrite Hq in Hfit. rewrite <- Hq'.
    exact (Forall_inv_tail Hfit).
Qed.

(** ** A concrete queue: two slots of sixteen bytes, counters about to wrap *)

Definition demo_queue_region : region :=
  Region 32 16 2 (2 ^ 32 - 1) (2 ^ 32 - 1) 0 0.

Definition demo_queue : service :=
  Service [] 0 (Region 0 16 2 0 0 0 0) demo_queue_region.

Lemma demo_queue_service : queue_service demo_queue AOC_DOWN demo_queue_region.
Proof.
  split; [reflexivity|reflexivity|].
  split; try (vm_compute; done). left. exists (2 ^ 31). reflexivity.
Qed.

(** ** Properties *)

(** C10: any sequence of message sends and receives on a queue behaves as a bounded
    FIFO of messages, where the slot count divides 2^32 the wrap of the counters
    included, and otherwise as long as the counter of the producer does not wrap
    ([aoc_queue_slot_reuse_at_wrap] has what happens then): a send succeeds exactly when a slot is free and the
    message fits a slot, a receive returns the oldest message whole or, when
    the caller's buffer is too small or the queue empty, refuses and leaves it
    queued. *)
Theorem aoc_queue_refines_mailbox base dir m s r ops :
  0 < base → queue_service s dir r → messages_fit m base r →
  sends_left (Z.of_nat (length ops)) r →
  let spec := mailbox_run r.(slots) (r.(size) - message_header_size)
                (queue_view m base r) ops in
  ∃ s' m' r', queue_run base dir (Some s, m) ops = Some (spec.1, (Some s', m')) ∧
    queue_service s' dir r' ∧ queue_view m' base r' = spec.2.
Proof.
  intros Hb. revert s m r.
  induction ops as [|op ops IH]; intros s m r Hs Hfit Hleft; simpl; [by exists s, m, r|].
  cbn [length] in Hleft. destruct (queue_step_sim base dir m s r op Hb Hs Hfit)
    as (s1 & m1 & r1 & H1 & Hs1 & Hsl & Hsz & Hleft1 & Hfit1 & Hv1).
  { destruct Hleft as [?|?]; [by left|right; lia]. }
  specialize (Hleft1 (Z.of_nat (length ops)) ltac:(lia)).
  rewrite <- Nat2Z.inj_succ in Hleft1 || rewrite Z.add_1_r, <- Nat2Z.inj_succ in Hleft1.
  specialize (Hleft1 Hleft).
  destruct (mailbox_step _ _ _ op) as [[ok out] q1]. simpl in *.
  rewrite H1. simpl.
  destruct (IH s1 m1 r1 Hs1 Hfit1 Hleft1) as (s2 & m2 & r2 & H2 & Hs2 & Hv2).
  rewrite Hsl, Hsz, Hv1 in *. rewrite H2. simpl.
  destruct (mailbox_run _ _ q1 ops) as [outs q2]. by exists s2, m2, r2.
Qed.

Lemma aoc_queue_refines_mailbox_witness :
  ∃ s' m' r', queue_run 0x1000 AOC_DOWN (Some demo_queue, λ _, 0)
      [QSend [1; 2; 3]; QSend [4]; QSend [5]; QRecv 2; QRecv 3; QSend [6; 7]; QRecv 8]
      = Some ([(true, []); (true, []); (false, []); (false, []); (true, [1; 2; 3]);
               (true, []); (true, [4])], (Some s', m')) ∧
    queue_service s' AOC_DOWN r' ∧ queue_view m' 0x1000 r' = [[6; 7]].
Proof.
  apply (aoc_queue_refines_mailbox 0x1000 AOC_DOWN (λ _, 0) demo_queue demo_queue_region
    [QSend [1; 2; 3]; QSend [4]; QSend [5]; QRecv 2; QRecv 3; QSend [6; 7]; QRecv 8]).
  - lia.
  - exact demo_queue_service.
  - constructor.
  - left. exists (2 ^ 31). reflexivity.
Defined.

(** When the slot count does not divide 2^32 the queue breaks at the wrap
    of its counters: with [slots - 1] messages pending and [tx] just wrapped to
    0 the code still reports a free slot, but the slot it would write next is
    the slot of a message that is still pending. *)
Theorem aoc_queue_slot_reuse_at_wrap s dir r :
  aoc_service_is_queue s = true → region_at s dir = Some r →
  0 < r.(slots) < 2 ^ 32 → 2 ^ 32 mod r.(slots) <> 0 →
  r.(tx) = 0 → r.(rx) = 2 ^ 32 - (r.(slots) - 1) →
  aoc_service_can_write_message (Some s) dir = Some true ∧
  ∃ i, 0 <= i < delta r ∧ slot_offset r r.(tx) = slot_offset r (r.(rx) + i).
Proof.
  intros Hq Hr Hsl Hnd Htx Hrx.
  pose proof (Z.mod_pos_bound (2 ^ 32) (slots r) ltac:(lia)) as Hm.
  assert (delta r = slots r - 1) as Hd.
  { unfold delta, u32. rewrite Htx, Hrx.
    replace (0 - (2 ^ 32 - (slots r - 1))) with (slots r - 1 + (-1) * 2 ^ 32) by lia.
    rewrite Z_mod_plus_full. apply Z.mod_small. lia. }
  split.
  - unfold aoc_service_can_write_message, aoc_service_slots_available_to_write, on_region.
    rewrite (region_at_valid s dir r) by done. simpl. rewrite Hr. simpl.
    destruct (is_ring_queue s Hq) as [-> ->].
    case_bool; [lia|]. simpl. rewrite read_write_delta_spec by lia. rewrite Hd.
    replace (slots r - (slots r - 1)) with 1 by lia. done.
  - exists (slots r - 1 - 2 ^ 32 mod slots r). split; [lia|].
    unfold slot_offset. case_bool; [lia|]. do 3 f_equal. rewrite Htx, Hrx.
    replace (2 ^ 32 - (slots r - 1) + (slots r - 1 - 2 ^ 32 mod slots r))
      with (2 ^ 32 - 2 ^ 32 mod slots r) by lia.
    rewrite Zminus_mod, Z.mod_mod, Z.sub_diag by lia. rewrite !Z.mod_0_l by lia. done.
Qed.

Lemma aoc_queue_slot_reuse_at_wrap_witness :
  let r := Region 0 16 3 0 (2 ^ 32 - 2) 0 0 in
  let s := Service [] 0 r r in
  aoc_service_can_write_message (Some s) AOC_UP = Some true ∧
  ∃ i, 0 <= i < 2 ∧ slot_offset r 0 = slot_offset r (2 ^ 32 - 2 + i).
Proof.
  intros r s. apply (aoc_queue_slot_reuse_at_wrap s AOC_UP r);
    [reflexivity|reflexivity|simpl; lia|vm_compute; discriminate|reflexivity|reflexivity].
Defined.
