(* ===== verification/Gvotable.v ===== *)
(** * gvotable: elections among the voters of a shared resource

    Model of [google-modules/bms/misc/gvotable.c].  A vote is a [void *] word;
    elections whose votes do not fit a pointer ([use_alloc]) keep pointers to
    private copies in the heap of the [world].  The two mutexes of an election
    are modelled: taking a held one is [Blocked].  The list of ballots is the
    order of the linked list [el->votes].  The election's callback and the
    kernel's string hash are the environment's.  The field [owner] only feeds a
    warning about callbacks that take the locks again, and is left out. *)

From S2P Require Import Prelude Heap.

(** ** Data *)

Definition VOTES_HISTORY_DEPTH : Z := 1.
Definition MAX_NAME_LEN : nat := 16.
Definition GVOTABLE_MAX_REASON_LEN : nat := 32.

Definition DEBUGFS_CAST_VOTE_REASON : string := "DEBUGFS".
Definition DEBUGFS_FORCE_VOTE_REASON : string := "DEBUGFS_FORCE".
Definition default_reason : string := "Default".

Record ballot := Ballot {
  enabled : bool;
  reason_hash : Z;
  b_reason : string;
  idx : Z;
  vote : list Z;
  b_vote_size : Z;
  b_num_votes : Z
}.

(** The comparison functions an election can be created with. *)
Inductive comparator :=
| comparator_uint_max
| comparator_uint_min
| comparator_int_max
| comparator_int_min
| comparator_most_recent
| comparator_least_recent
| comparator_bool
| comparator_none
| comparator_other (f : gmap Z (list Z) → Z → Z → Z).

Record election := Election {
  hash : Z;
  vote_size : Z;
  use_alloc : bool;
  name : string;
  has_name : bool;
  cb_lock : bool;
  re_lock : bool;
  result : Z;
  reason : string;
  result_is_valid : bool;
  data : Z;
  callback : option Z;
  cmp : comparator;
  auto_callback : bool;
  default_vote : Z;
  has_default_vote : Z;
  force_result : Z;
  force_result_is_enabled : bool;
  votes : list ballot;
  num_voters : Z;
  num_votes : Z;
  vote2str : option Z;
  is_int_type : bool;
  is_bool_type : bool;
  disable_force_int_entry : bool
}.

Definition set_hash (v : Z) (el : election) : election :=
  Election v el.(vote_size) el.(use_alloc) el.(name) el.(has_name)
    el.(cb_lock) el.(re_lock) el.(result) el.(reason) el.(result_is_valid)
    el.(data) el.(callback) el.(cmp) el.(auto_callback) el.(default_vote)
    el.(has_default_vote) el.(force_result) el.(force_result_is_enabled)
    el.(votes) el.(num_voters) el.(num_votes) el.(vote2str) el.(is_int_type)
    el.(is_bool_type) el.(disable_force_int_entry).

Definition set_name (v : string) (el : election) : election :=
  Election el.(hash) el.(vote_size) el.(use_alloc) v el.(has_name)
    el.(cb_lock) el.(re_lock) el.(result) el.(reason) el.(result_is_valid)
    el.(data) el.(callback) el.(cmp) el.(auto_callback) el.(default_vote)
    el.(has_default_vote) el.(force_result) el.(force_result_is_enabled)
    el.(votes) el.(num_voters) el.(num_votes) el.(vote2str) el.(is_int_type)
    el.(is_bool_type) el.(disable_force_int_entry).

Definition set_has_name (v : bool) (el : election) : election :=
  Election el.(hash) el.(vote_size) el.(use_alloc) el.(name) v el.(cb_lock)
    el.(re_lock) el.(result) el.(reason) el.(result_is_valid) el.(data)
    el.(callback) el.(cmp) el.(auto_callback) el.(default_vote)
    el.(has_default_vote) el.(force_result) el.(force_result_is_enabled)
    el.(votes) el.(num_voters) el.(num_votes) el.(vote2str) el.(is_int_type)
    el.(is_bool_type) el.(disable_force_int_entry).

Definition set_cb_lock (v : bool) (el : election) : election :=
  Election el.(hash) el.(vote_size) el.(use_alloc) el.(name) el.(has_name) v
    el.(re_lock) el.(result) el.(reason) el.(result_is_valid) el.(data)
    el.(callback) el.(cmp) el.(auto_callback) el.(default_vote)
    el.(has_default_vote) el.(force_result) el.(force_result_is_enabled)
    el.(votes) el.(num_voters) el.(num_votes) el.(vote2str) el.(is_int_type)
    el.(is_bool_type) el.(disable_force_int_entry).

Definition set_re_lock (v : bool) (el : election) : election :=
  Election el.(hash) el.(vote_size) el.(use_alloc) el.(name) el.(has_name)
    el.(cb_lock) v el.(result) el.(reason) el.(result_is_valid) el.(data)
    el.(callback) el.(cmp) el.(auto_callback) el.(default_vote)
    el.(has_default_vote) el.(force_result) el.(force_result_is_enabled)
    el.(votes) el.(num_voters) el.(num_votes) el.(vote2str) el.(is_int_type)
    el.(is_bool_type) el.(disable_force_int_entry).

Definition set_result (v : Z) (el : election) : election :=
  Election el.(hash) el.(vote_size) el.(use_alloc) el.(name) el.(has_name)
    el.(cb_lock) el.(re_lock) v el.(reason) el.(result_is_valid) el.(data)
    el.(callback) el.(cmp) el.(auto_callback) el.(default_vote)
    el.(has_default_vote) el.(force_result) el.(force_result_is_enabled)
    el.(votes) el.(num_voters) el.(num_votes) el.(vote2str) el.(is_int_type)
    el.(is_bool_type) el.(disable_force_int_entry).

Definition set_reason (v : string) (el : election) : election :=
  Election el.(hash) el.(vote_size) el.(use_alloc) el.(name) el.(has_name)
    el.(cb_lock) el.(re_lock) el.(result) v el.(result_is_valid) el.(data)
    el.(callback) el.(cmp) el.(auto_callback) el.(default_vote)
    el.(has_default_vote) el.(force_result) el.(force_result_is_enabled)
    el.(votes) el.(num_voters) el.(num_votes) el.(vote2str) el.(is_int_type)
    el.(is_bool_type) el.(disable_force_int_entry).

Definition set_result_is_valid (v : bool) (el : election) : election :=
  Election el.(hash) el.(vote_size) el.(use_alloc) el.(name) el.(has_name)
    el.(cb_lock) el.(re_lock) el.(result) el.(reason) v el.(data)
    el.(callback) el.(cmp) el.(auto_callback) el.(default_vote)
    el.(has_default_vote) el.(force_result) el.(force_result_is_enabled)
    el.(votes) el.(num_voters) el.(num_votes) el.(vote2str) el.(is_int_type)
    el.(is_bool_type) el.(disable_force_int_entry).

Definition set_default_vote (v : Z) (el : election) : election :=
  Election el.(hash) el.(vote_size) el.(use_alloc) el.(name) el.(has_name)
    el.(cb_lock) el.(re_lock) el.(result) el.(reason) el.(result_is_valid)
    el.(data) el.(callback) el.(cmp) el.(auto_callback) v
    el.(has_default_vote) el.(force_result) el.(force_result_is_enabled)
    el.(votes) el.(num_voters) el.(num_votes) el.(vote2str) el.(is_int_type)
    el.(is_bool_type) el.(disable_force_int_entry).

Definition set_has_default_vote (v : Z) (el : election) : election :=
  Election el.(hash) el.(vote_size) el.(use_alloc) el.(name) el.(has_name)
    el.(cb_lock) el.(re_lock) el.(result) el.(reason) el.(result_is_valid)
    el.(data) el.(callback) el.(cmp) el.(auto_callback) el.(default_vote) v
    el.(force_result) el.(force_result_is_enabled) el.(votes)
    el.(num_voters) el.(num_votes) el.(vote2str) el.(is_int_type)
    el.(is_bool_type) el.(disable_force_int_entry).

Definition set_force_result (v : Z) (el : election) : election :=
  Election el.(hash) el.(vote_size) el.(use_alloc) el.(name) el.(has_name)
    el.(cb_lock) el.(re_lock) el.(result) el.(reason) el.(result_is_valid)
    el.(data) el.(callback) el.(cmp) el.(auto_callback) el.(default_vote)
    el.(has_default_vote) v el.(force_result_is_enabled) el.(votes)
    el.(num_voters) el.(num_votes) el.(vote2str) el.(is_int_type)
    el.(is_bool_type) el.(disable_force_int_entry).

Definition set_force_result_is_enabled (v : bool) (el : election) : election :=
  Election el.(hash) el.(vote_size) el.(use_alloc) el.(name) el.(has_name)
    el.(cb_lock) el.(re_lock) el.(result) el.(reason) el.(result_is_valid)
    el.(data) el.(callback) el.(cmp) el.(auto_callback) el.(default_vote)
    el.(has_default_vote) el.(force_result) v el.(votes) el.(num_voters)
    el.(num_votes) el.(vote2str) el.(is_int_type) el.(is_bool_type)
    el.(disable_force_int_entry).

Definition set_votes (v : list ballot) (el : election) : election :=
  Election el.(hash) el.(vote_size) el.(use_alloc) el.(name) el.(has_name)
    el.(cb_lock) el.(re_lock) el.(result) el.(reason) el.(result_is_valid)
    el.(data) el.(callback) el.(cmp) el.(auto_callback) el.(default_vote)
    el.(has_default_vote) el.(force_result) el.(force_result_is_enabled) v
    el.(num_voters) el.(num_votes) el.(vote2str) el.(is_int_type)
    el.(is_bool_type) el.(disable_force_int_entry).

Definition set_num_voters (v : Z) (el : election) : election :=
  Election el.(hash) el.(vote_size) el.(use_alloc) el.(name) el.(has_name)
    el.(cb_lock) el.(re_lock) el.(result) el.(reason) el.(result_is_valid)
    el.(data) el.(callback) el.(cmp) el.(auto_callback) el.(default_vote)
    el.(has_default_vote) el.(force_result) el.(force_result_is_enabled)
    el.(votes) v el.(num_votes) el.(vote2str) el.(is_int_type)
    el.(is_bool_type) el.(disable_force_int_entry).

Definition set_num_votes (v : Z) (el : election) : election :=
  Election el.(hash) el.(vote_size) el.(use_alloc) el.(name) el.(has_name)
    el.(cb_lock) el.(re_lock) el.(result) el.(reason) el.(result_is_valid)
    el.(data) el.(callback) el.(cmp) el.(auto_callback) el.(default_vote)
    el.(has_default_vote) el.(force_result) el.(force_result_is_enabled)
    el.(votes) el.(num_voters) v el.(vote2str) el.(is_int_type)
    el.(is_bool_type) el.(disable_force_int_entry).

Definition set_vote2str (v : option Z) (el : election) : election :=
  Election el.(hash) el.(vote_size) el.(use_alloc) el.(name) el.(has_name)
    el.(cb_lock) el.(re_lock) el.(result) el.(reason) el.(result_is_valid)
    el.(data) el.(callback) el.(cmp) el.(auto_callback) el.(default_vote)
    el.(has_default_vote) el.(force_result) el.(force_result_is_enabled)
    el.(votes) el.(num_voters) el.(num_votes) v el.(is_int_type)
    el.(is_bool_type) el.(disable_force_int_entry).

Definition set_is_int_type (v : bool) (el : election) : election :=
  Election el.(hash) el.(vote_size) el.(use_alloc) el.(name) el.(has_name)
    el.(cb_lock) el.(re_lock) el.(result) el.(reason) el.(result_is_valid)
    el.(data) el.(callback) el.(cmp) el.(auto_callback) el.(default_vote)
    el.(has_default_vote) el.(force_result) el.(force_result_is_enabled)
    el.(votes) el.(num_voters) el.(num_votes) el.(vote2str) v
    el.(is_bool_type) el.(disable_force_int_entry).

Definition set_is_bool_type (v : bool) (el : election) : election :=
  Election el.(hash) el.(vote_size) el.(use_alloc) el.(name) el.(has_name)
    el.(cb_lock) el.(re_lock) el.(result) el.(reason) el.(result_is_valid)
    el.(data) el.(callback) el.(cmp) el.(auto_callback) el.(default_vote)
    el.(has_default_vote) el.(force_result) el.(force_result_is_enabled)
    el.(votes) el.(num_voters) el.(num_votes) el.(vote2str) el.(is_int_type)
    v el.(disable_force_int_entry).

Definition set_disable_force_int_entry (v : bool) (el : election) : election :=
  Election el.(hash) el.(vote_size) el.(use_alloc) el.(name) el.(has_name)
    el.(cb_lock) el.(re_lock) el.(result) el.(reason) el.(result_is_valid)
    el.(data) el.(callback) el.(cmp) el.(auto_callback) el.(default_vote)
    el.(has_default_vote) el.(force_result) el.(force_result_is_enabled)
    el.(votes) el.(num_voters) el.(num_votes) el.(vote2str) el.(is_int_type)
    el.(is_bool_type) v.

(** ** Comparators *)

Definition gvotable_comparator_uint_max (l r : Z) : Z :=
  let a := u32 l in
  let b := u32 r in
  if b <? a then 1 else if a <? b then -1 else 0.

Definition gvotable_comparator_int (l r : Z) : Z :=
  let a := s32 l in
  let b := s32 r in
  if b <? a then 1 else if a <? b then -1 else 0.

Definition gvotable_comparator_int_max (a b : Z) : Z := - gvotable_comparator_int a b.
Definition gvotable_comparator_int_min (a b : Z) : Z := gvotable_comparator_int a b.
Definition gvotable_comparator_uint_min (a b : Z) : Z := - gvotable_comparator_uint_max a b.
Definition gvotable_comparator_most_recent (a b : Z) : Z := -1.
Definition gvotable_comparator_least_recent (a b : Z) : Z := 1.
Definition gvotable_comparator_bool (a b : Z) : Z := gvotable_comparator_most_recent a b.
Definition gvotable_comparator_none (a b : Z) : Z := gvotable_comparator_most_recent a b.

(** [el->cmp(a, b)] *)
Definition call_cmp (c : comparator) (h : gmap Z (list Z)) (a b : Z) : Z :=
  match c with
  | comparator_uint_max => gvotable_comparator_uint_max a b
  | comparator_uint_min => gvotable_comparator_uint_min a b
  | comparator_int_max => gvotable_comparator_int_max a b
  | comparator_int_min => gvotable_comparator_int_min a b
  | comparator_most_recent => gvotable_comparator_most_recent a b
  | comparator_least_recent => gvotable_comparator_least_recent a b
  | comparator_bool => gvotable_comparator_bool a b
  | comparator_none => gvotable_comparator_none a b
  | comparator_other f => f h a b
  end.

Definition is_comparator_none (c : comparator) : bool :=
  match c with comparator_none => true | _ => false end.

(** ** The environment: the kernel's string hash and the callbacks of the
    elections, identified by a number.  A callback runs with the election's
    callback lock held and may change the election. *)
Class gvotable_env := {
  full_name_hash : string → Z;
  callback_fn : Z → world → election → option string → Z → world * election * Z
}.

Section Gvotable.
Context `{env : gvotable_env}.

Definition gvotable_internal_hash (str : string) : Z := full_name_hash str.

(** ** Locks *)

Definition gvotable_lock_result (el : election) : outcome election :=
  if el.(re_lock) then Blocked else Ok (set_re_lock true el).

Definition gvotable_unlock_result (el : election) : election := set_re_lock false el.

Definition gvotable_lock_election (el : election) : outcome election :=
  if el.(cb_lock) then Blocked else gvotable_lock_result (set_cb_lock true el).

Definition gvotable_unlock_callback (el : election) : election := set_cb_lock false el.

Definition gvotable_unlock_election (el : election) : election :=
  gvotable_unlock_callback (set_re_lock false el).

(** ** Result and reason *)

Definition gvotable_internal_update_reason (el : election) (new_reason : string) :
    election :=
  set_reason (strlcpy new_reason GVOTABLE_MAX_REASON_LEN) el.

(** Returns [*result] after the copy. *)
Definition gvotable_internal_copy_result (w : world) (el : election)
    (result new_result : Z) : outcome (Z * world) :=
  if el.(use_alloc)
  then w ← heap_memcpy result new_result el.(vote_size) w; Ok (result, w)
  else Ok (new_result, w).

Definition gvotable_internal_update_result (w : world) (el : election)
    (new_result : Z) : outcome (world * election) :=
  '(r, w) ← gvotable_internal_copy_result w el el.(result) new_result;
  Ok (w, set_result_is_valid true (set_result r el)).

Definition GVOTABLE_BOOL_TRUE_VALUE : Z := 1.
Definition GVOTABLE_BOOL_FALSE_VALUE : Z := 0.

(** [ballot->vote[ballot->idx]] *)
Definition current_vote (b : ballot) : Z := default 0 (b.(vote) !! Z.to_nat b.(idx)).

Fixpoint first_enabled (l : list ballot) : option ballot :=
  match l with
  | [] => None
  | b :: l => if b.(enabled) then Some b else first_enabled l
  end.

(** Adopt [new_reason] and [new_result] where they differ from the current
    ones; [v] is what the current result is compared with. *)
Definition adopt (w : world) (el : election) (new_reason : string) (v new_result : Z) :
    outcome (bool * world * election) :=
  let update_reason :=
    negb el.(result_is_valid)
      || negb (strncmp_eq el.(reason) new_reason GVOTABLE_MAX_REASON_LEN) in
  let el := if update_reason then gvotable_internal_update_reason el new_reason else el in
  let callback_required := if update_reason then el.(auto_callback) else false in
  '(callback_required, w, el) ←
    (if callback_required || negb (call_cmp el.(cmp) w.(heap) el.(result) v =? 0)
     then '(w, el) ← gvotable_internal_update_result w el new_result;
          Ok (el.(auto_callback), w, el)
     else Ok (callback_required, w, el));
  Ok (callback_required, w, set_result_is_valid true el).

Definition has_callback (el : election) : bool :=
  match el.(callback) with Some _ => true | None => false end.

(** Whether the callback needs to be called, and the election. *)
Definition gvotable_internal_run_election (w : world) (el : election) :
    outcome (bool * world * election) :=
  if el.(force_result_is_enabled) then Ok (false, w, el)
  else
    '(callback_required, w, el) ←
      match first_enabled el.(votes) with
      | Some b =>
          adopt w el b.(b_reason) (current_vote b)
            (if el.(is_bool_type) then GVOTABLE_BOOL_TRUE_VALUE else current_vote b)
      | None =>
          if el.(has_default_vote) =? 1
          then adopt w el default_reason el.(default_vote) el.(default_vote)
          else Ok (el.(result_is_valid) && el.(auto_callback), w,
                   set_reason "" (set_result_is_valid false el))
      end;
    Ok (callback_required && has_callback el, w, el).

Definition gvotable_run_callback (w : world) (el : election) :
    outcome (Z * world * election) :=
  cb ← must el.(callback);
  let '(w, el, ret) :=
    if el.(result_is_valid) then callback_fn cb w el (Some el.(reason)) el.(result)
    else callback_fn cb w el None 0 in
  Ok (ret, w, el).

(** ** Ballots *)

Definition ballot_matches (r : string) (b : ballot) : bool :=
  (gvotable_internal_hash r =? b.(reason_hash))
    && strncmp_eq b.(b_reason) r GVOTABLE_MAX_REASON_LEN.

(** The position and the ballot. *)
Fixpoint gvotable_ballot_find_internal (l : list ballot) (r : string) :
    option (nat * ballot) :=
  match l with
  | [] => None
  | b :: l =>
      if ballot_matches r b then Some (0%nat, b)
      else '(i, b) ← gvotable_ballot_find_internal l r; Some (S i, b)
  end.

(** The error code, the world and the ballot. *)
Definition gvotable_update_ballot (w : world) (b : ballot) (v : Z) (en : bool) :
    outcome (Z * world * ballot) :=
  let i := u32 (b.(idx) + 1) mod VOTES_HISTORY_DEPTH in
  if b.(b_vote_size) =? 0 then
    Ok (0, w, Ballot en b.(reason_hash) b.(b_reason) i
                (<[Z.to_nat i := v]> b.(vote)) b.(b_vote_size)
                (u32 (b.(b_num_votes) + 1)))
  else
    cell ← must (b.(vote) !! Z.to_nat i);
    let '(cell, w) :=
      if cell =? 0 then kzalloc b.(b_vote_size) w else (Some cell, w) in
    match cell with
    | None =>
        Ok (- ENOMEM, w, Ballot en b.(reason_hash) b.(b_reason) b.(idx)
                           b.(vote) b.(b_vote_size) b.(b_num_votes))
    | Some cell =>
        w ← heap_memcpy cell v b.(b_vote_size) w;
        Ok (0, w, Ballot en b.(reason_hash) b.(b_reason) i
                    (<[Z.to_nat i := cell]> b.(vote)) b.(b_vote_size)
                    (u32 (b.(b_num_votes) + 1)))
    end.

(** Before the first ballot [v] is to be placed before, at the end if none. *)
Fixpoint insert_before (lt : Z → bool) (b : ballot) (l : list ballot) :
    option (list ballot) :=
  match l with
  | [] => None
  | t :: l =>
      if lt (current_vote t) then Some (b :: t :: l)
      else l' ← insert_before lt b l; Some (t :: l')
  end.

Definition gvotable_add_ballot (w : world) (el : election) (b : ballot) (en : bool) :
    election :=
  let v := current_vote b in
  match el.(votes) with
  | [] => set_votes [b] el
  | l =>
      match (if en then insert_before (λ t, call_cmp el.(cmp) w.(heap) v t <? 0) b l
             else None) with
      | Some l' => set_votes l' el
      | None => set_num_votes (u32 (el.(num_votes) + 1)) (set_votes (l ++ [b]) el)
      end
  end.

(** Run the election, then the callback if needed, and release the locks;
    [ret] is returned when no callback runs. *)
Definition run_and_unlock (w : world) (el : election) (ret : Z) :
    outcome (Z * world * election) :=
  '(cb, w, el) ← gvotable_internal_run_election w el;
  let el := gvotable_unlock_result el in
  '(ret, w, el) ← (if (cb : bool) then gvotable_run_callback w el else Ok (ret, w, el));
  Ok (ret, w, gvotable_unlock_callback el).

Definition gvotable_recast_ballot (w : world) (el : election) (r : string) (en : bool) :
    outcome (Z * world * election) :=
  el ← gvotable_lock_election el;
  match gvotable_ballot_find_internal el.(votes) r with
  | None => Ok (- EINVAL, w, gvotable_unlock_election el)
  | Some (i, b) =>
      let el := set_votes (delete i el.(votes)) el in
      '(ret, w, b) ← gvotable_update_ballot w b (current_vote b) en;
      if ret <? 0 then Ok (ret, w, gvotable_unlock_election el)
      else run_and_unlock w (gvotable_add_ballot w el b en) ret
  end.

Definition gvotable_run_election (w : world) (el : election) (force_callback : bool) :
    outcome (Z * world * election) :=
  el ← gvotable_lock_election el;
  '(cb, w, el) ← gvotable_internal_run_election w el;
  let el := gvotable_unlock_result el in
  '(ret, w, el) ←
    match el.(callback) with
    | None => Ok (0, w, el)
    | Some f =>
        if el.(force_result_is_enabled) then
          let '(w, el, ret) :=
            callback_fn f w el (Some DEBUGFS_FORCE_VOTE_REASON) el.(force_result) in
          Ok (ret, w, el)
        else if cb || force_callback then gvotable_run_callback w el
        else Ok (0, w, el)
    end;
  Ok (ret, w, gvotable_unlock_callback el).

(** A handle, a reason or a string that is [None] is a null pointer. *)
Definition bad_reason (r : option string) : bool :=
  match r with Some (String _ _) => false | _ => true end.

Definition gvotable_election_set_result (w : world) (h : option election)
    (r : option string) (res : Z) : outcome (Z * world * option election) :=
  match h, r with
  | Some el, Some r' =>
      if bad_reason r then Ok (- EINVAL, w, h)
      else if el.(use_alloc) && (res =? 0) then Ok (- EINVAL, w, h)
      else if negb (is_comparator_none el.(cmp)) then Ok (- EINVAL, w, h)
      else
        let el := gvotable_internal_update_reason el r' in
        '(w, el) ← gvotable_internal_update_result w el res;
        Ok (0, w, Some el)
  | _, _ => Ok (- EINVAL, w, h)
  end.

(** [kzalloc] of a [struct ballot], then its fields. *)
Definition new_ballot (el : election) (r : string) : ballot :=
  Ballot false (gvotable_internal_hash r) (strlcpy r GVOTABLE_MAX_REASON_LEN) 0
    (replicate (Z.to_nat VOTES_HISTORY_DEPTH) 0)
    (if el.(use_alloc) then el.(vote_size) else 0) 0.

Definition gvotable_cast_vote (w : world) (h : option election) (r : option string)
    (v : Z) (en : bool) : outcome (Z * world * option election) :=
  match h, r with
  | Some el, Some r' =>
      if bad_reason r then Ok (- EINVAL, w, h)
      else if el.(use_alloc) && (v =? 0) then Ok (- EINVAL, w, h)
      else
        el ← gvotable_lock_election el;
        let v := if el.(is_bool_type) then Z.b2z en else v in
        '(ret, w, el) ←
          match gvotable_ballot_find_internal el.(votes) r' with
          | None =>
              let '(p, w) := kzalloc 0 w in
              match p with
              | None => Ok (- ENOMEM, w, gvotable_unlock_election el)
              | Some p =>
                  let b := new_ballot el r' in
                  let el := set_num_voters (u32 (el.(num_voters) + 1)) el in
                  '(ret, w, b) ← gvotable_update_ballot w b v en;
                  if ret <? 0 then Ok (ret, kfree p w, gvotable_unlock_election el)
                  else run_and_unlock w (gvotable_add_ballot w el b en) ret
              end
          | Some (i, b) =>
              let el := if (en : bool) then set_votes (delete i el.(votes)) el else el in
              '(ret, w, b) ← gvotable_update_ballot w b v en;
              (* a ballot left in the list is updated in place *)
              let el := if (en : bool) then el else set_votes (<[i := b]> el.(votes)) el in
              if ret <? 0 then Ok (ret, w, gvotable_unlock_election el)
              else run_and_unlock w
                     (if (en : bool) then gvotable_add_ballot w el b en else el) ret
          end;
        Ok (ret, w, Some el)
  | _, _ => Ok (- EINVAL, w, h)
  end.

(** ** Defaults *)

Definition gvotable_set_default (w : world) (h : option election) (default_val : Z) :
    outcome (Z * world * option election) :=
  match h with
  | None => Ok (- EINVAL, w, h)
  | Some el =>
      if el.(is_bool_type) then Ok (- EINVAL, w, h)
      else
        el ← gvotable_lock_election el;
        let changed := (el.(has_default_vote) =? 1)
                         && negb (el.(default_vote) =? default_val) in
        let el := set_default_vote default_val el in
        '(ret, w, el) ←
          (if changed then
             '(cb, w, el) ← gvotable_internal_run_election w el;
             if (cb : bool) then gvotable_run_callback w (gvotable_unlock_result el)
             else Ok (0, w, el)
           else Ok (0, w, gvotable_unlock_result el));
        Ok (ret, w, Some (gvotable_unlock_callback (set_has_default_vote 1 el)))
  end.

(** [dest] is the value of [*result] before the call; the last component is
    [*result] after it. *)
Definition gvotable_get_default (w : world) (h : option election) (dest : Z) :
    outcome (Z * world * option election * Z) :=
  match h with
  | None => Ok (- EINVAL, w, h, dest)
  | Some el =>
      if el.(has_default_vote) =? 0 then Ok (- EINVAL, w, h, dest)
      else
        el ← gvotable_lock_election el;
        '(r, w) ← gvotable_internal_copy_result w el dest el.(default_vote);
        Ok (0, w, Some (gvotable_unlock_election el), r)
  end.

Definition gvotable_use_default (w : world) (h : option election)
    (default_is_enabled : bool) : outcome (Z * world * option election) :=
  match h with
  | None => Ok (- EINVAL, w, h)
  | Some el =>
      if el.(is_bool_type) then Ok (- EINVAL, w, h)
      else
        el ← gvotable_lock_election el;
        '(ret, w, el) ←
          run_and_unlock w (set_has_default_vote (Z.b2z default_is_enabled) el) 0;
        Ok (ret, w, Some el)
  end.

Definition gvotable_get_data (h : option election) : Z :=
  match h with Some el => el.(data) | None => 0 end.

(** ** Queries: the error code and what is stored through the pointer ([None]
    when it is left alone) *)

Definition gvotable_get_current_result_unlocked (el : election) : Z * option Z :=
  if el.(force_result_is_enabled) then (0, Some el.(force_result))
  else if el.(result_is_valid) then (0, Some el.(result))
  else (- EAGAIN, None).

Definition gvotable_get_current_vote (h : option election) : outcome (Z * option Z) :=
  match h with
  | None => Ok (- EINVAL, None)
  | Some el =>
      el ← gvotable_lock_result el;
      Ok (gvotable_get_current_result_unlocked el)
  end.

Definition gvotable_get_current_int_vote (h : option election) : outcome Z :=
  '(ret, ptr) ← gvotable_get_current_vote h;
  Ok (if negb (ret =? 0) then ret else s32 (default 0 ptr)).

(** Copies into the block at [dst]. *)
Definition gvotable_copy_current_result (w : world) (h : option election)
    (dst vote_size : Z) : outcome (Z * world) :=
  match h with
  | None => Ok (- EINVAL, w)
  | Some el =>
      if dst =? 0 then Ok (- EINVAL, w)
      else if negb (vote_size =? el.(Gvotable.vote_size)) then Ok (- ERANGE, w)
      else
        el ← gvotable_lock_result el;
        match gvotable_get_current_result_unlocked el with
        | (ret, Some src) => w ← heap_memcpy dst src vote_size w; Ok (ret, w)
        | (ret, None) => Ok (ret, w)
        end
  end.

(** The return value and what [strlcpy] leaves in [reason]. *)
Definition gvotable_get_current_reason_unlocked (el : election) (max_len : nat) :
    Z * option string :=
  let r :=
    if el.(force_result_is_enabled) then Some DEBUGFS_FORCE_VOTE_REASON
    else if el.(result_is_valid) then Some el.(reason) else None in
  match r with
  | Some r => (Z.of_nat (String.length r), Some (strlcpy r max_len))
  | None => (- EAGAIN, None)
  end.

Definition gvotable_get_current_reason (h : option election) (max_len : nat) :
    outcome (Z * option string) :=
  match h with
  | None => Ok (- EINVAL, None)
  | Some el =>
      el ← gvotable_lock_result el;
      Ok (gvotable_get_current_reason_unlocked el max_len)
  end.

Definition gvotable_get_vote (h : option election) (r : option string) :
    outcome (Z * option Z) :=
  match h, r with
  | Some el, Some r =>
      el ← gvotable_lock_result el;
      match gvotable_ballot_find_internal el.(votes) r with
      | None => Ok (if el.(is_bool_type) then 0 else - ENODEV, Some 0)
      | Some (_, b) =>
          if negb el.(is_bool_type) && negb b.(enabled) then Ok (- EINVAL, None)
          else Ok (0, Some (current_vote b))
      end
  | _, _ => Ok (- EINVAL, None)
  end.

Definition gvotable_get_int_vote (h : option election) (r : option string) : outcome Z :=
  '(ret, ptr) ← gvotable_get_vote h r;
  Ok (if negb (ret =? 0) then ret else s32 (default 0 ptr)).

Definition gvotable_is_enabled (h : option election) (r : option string) :
    outcome (Z * option bool) :=
  match h, r with
  | Some el, Some r =>
      el ← gvotable_lock_result el;
      match gvotable_ballot_find_internal el.(votes) r with
      | None => Ok (- ENODEV, None)
      | Some (_, b) => Ok (0, Some b.(enabled))
      end
  | _, _ => Ok (- EINVAL, None)
  end.

(** [callback_fn(cb_data, reason, vote)] until it fails: the last code and the
    data. *)
Fixpoint for_each_enabled {D} (f : D → string → Z → D * Z) (l : list ballot) (d : D)
    (ret : Z) : D * Z :=
  match l with
  | [] => (d, ret)
  | b :: l =>
      if negb b.(enabled) then for_each_enabled f l d ret
      else let '(d, ret) := f d b.(b_reason) (current_vote b) in
           if ret <? 0 then (d, ret) else for_each_enabled f l d ret
  end.

Definition gvotable_election_for_each {D} (el : election)
    (f : D → string → Z → D * Z) (d : D) : outcome (D * Z) :=
  if el.(force_result_is_enabled)
  then Ok (f d DEBUGFS_FORCE_VOTE_REASON el.(force_result))
  else el ← gvotable_lock_result el; Ok (for_each_enabled f el.(votes) d 0).

(** ** Debug entries that change an election *)

Definition debugfs_cast_int_vote (w : world) (el : election) (val : Z) :
    outcome (Z * world * option election) :=
  '(ret, en) ← gvotable_is_enabled (Some el) (Some DEBUGFS_CAST_VOTE_REASON);
  gvotable_cast_vote w (Some el) (Some DEBUGFS_CAST_VOTE_REASON) val (default false en).

Definition debugfs_force_int_value (w : world) (el : election) (val : Z) :
    outcome (Z * world * election) :=
  let pre_val := el.(force_result) in
  el ← gvotable_lock_election el;
  let el := gvotable_unlock_result (set_force_result val el) in
  '(ret, w, el) ←
    match el.(callback) with
    | None => Ok (0, w, el)
    | Some f =>
        if el.(force_result_is_enabled) && negb (pre_val =? val) then
          let '(w, el, ret) :=
            callback_fn f w el (Some DEBUGFS_FORCE_VOTE_REASON) el.(force_result) in
          Ok (ret, w, el)
        else Ok (0, w, el)
    end;
  Ok (ret, w, gvotable_unlock_callback el).

Definition debugfs_force_int_active (w : world) (el : election) (val : Z) :
    outcome (Z * world * election) :=
  el ← gvotable_lock_election el;
  let el := gvotable_unlock_result (set_force_result_is_enabled (negb (val =? 0)) el) in
  '(ret, w, el) ←
    match el.(callback) with
    | None => Ok (0, w, el)
    | Some f =>
        if el.(force_result_is_enabled) then
          let '(w, el, ret) :=
            callback_fn f w el (Some DEBUGFS_FORCE_VOTE_REASON) el.(force_result) in
          Ok (ret, w, el)
        else gvotable_run_callback w el
    end;
  Ok (ret, w, gvotable_unlock_callback el).

(** ** The registry of elections

    [slots] is the list [gvotables] (newest first) of pointers to elections. *)
Record registry := Registry {
  slots : list Z;
  elections : gmap Z election;
  reg_world : world
}.

Definition set_reg_world (w : world) (g : registry) : registry :=
  Registry g.(slots) g.(elections) w.

Definition election_named (n : string) (el : election) : bool :=
  (gvotable_internal_hash n =? el.(hash)) && el.(has_name)
    && strncmp_eq el.(name) n MAX_NAME_LEN.

Fixpoint find_named (els : gmap Z election) (l : list Z) (n : string) : option Z :=
  match l with
  | [] => None
  | p :: l =>
      match els !! p with
      | Some el => if election_named n el then Some p else find_named els l n
      | None => find_named els l n
      end
  end.

(** The election of the slot found. *)
Definition gvotable_find_internal (g : registry) (n : option string) : option Z :=
  n ← n; find_named g.(elections) g.(slots) n.

Definition gvotable_find_internal_ptr (g : registry) (p : Z) : option Z :=
  if decide (p ∈ g.(slots)) then Some p else None.

Definition gvotable_election_get_handle (g : registry) (n : option string) : option Z :=
  gvotable_find_internal g n.

Definition gvotable_add_internal (g : registry) (p : Z) (el : election) : registry :=
  Registry (p :: g.(slots)) (<[p := el]> g.(elections)) g.(reg_world).

(** [vote_size] is converted to [size_t] by the comparison. *)
Definition gvotable_needs_alloc (vote_size : Z) : bool := 8 <? u64 vote_size.

Definition gvotable_create_election (g : registry) (n : option string) (vote_size : Z)
    (cmp_fn : option comparator) (cb : option Z) (data : Z) : option Z * registry :=
  match gvotable_find_internal g n with
  | Some _ => (None, g)
  | None =>
      let '(slot, w) := kzalloc 0 g.(reg_world) in
      match slot with
      | None => (None, set_reg_world w g)
      | Some slot =>
          let '(p, w) := kzalloc 0 w in
          match p with
          | None => (None, set_reg_world (kfree slot w) g)
          | Some p =>
              let use_alloc := gvotable_needs_alloc vote_size in
              let '(res, w) :=
                if use_alloc then kzalloc vote_size w else (Some 0, w) in
              match res with
              | None => (None, set_reg_world (kfree slot (kfree p w)) g)
              | Some res =>
                  let el :=
                    Election
                      (match n with Some n => gvotable_internal_hash n | None => 0 end)
                      vote_size use_alloc
                      (match n with Some n => strlcpy n MAX_NAME_LEN | None => EmptyString end)
                      (match n with Some _ => true | None => false end)
                      false false res "" false data cb
                      (default comparator_none cmp_fn) true 0 (-1) 0 false [] 0 0 None
                      false false false in
                  (Some p, gvotable_add_internal (set_reg_world w g) p el)
              end
          end
      end
  end.

Definition update_election (g : registry) (p : Z) (el : election) : registry :=
  Registry g.(slots) (<[p := el]> g.(elections)) g.(reg_world).

Definition gvotable_create_int_election (g : registry) (n : option string)
    (cmp_fn : option comparator) (cb : option Z) (data : Z) :
    outcome (option Z * registry) :=
  match gvotable_create_election g n 4 cmp_fn cb data with
  | (None, g) => Ok (None, g)
  | (Some p, g) =>
      el ← must (g.(elections) !! p);
      Ok (Some p, update_election g p (set_is_int_type true el))
  end.

Definition gvotable_create_bool_election (g : registry) (n : option string)
    (cb : option Z) (data : Z) : outcome (option Z * registry) :=
  match gvotable_create_election g n 4 (Some comparator_bool) cb data with
  | (None, g) => Ok (None, g)
  | (Some p, g) =>
      el ← must (g.(elections) !! p);
      '(_, w, h) ← gvotable_set_default g.(reg_world) (Some el) GVOTABLE_BOOL_FALSE_VALUE;
      el ← must h;
      '(_, w, el) ← gvotable_internal_run_election w el;
      Ok (Some p, update_election (set_reg_world w g) p (set_is_bool_type true el))
  end.

(** Frees the private copies of a ballot's votes. *)
Definition free_ballot (w : world) (b : ballot) : world :=
  if b.(b_vote_size) =? 0 then w else foldl (λ w a, kfree a w) w b.(vote).

Definition gvotable_destroy_election (g : registry) (p : Z) : outcome (Z * registry) :=
  if p =? 0 then Ok (- EINVAL, g)
  else
    el ← must (g.(elections) !! p);
    el ← gvotable_lock_result el;
    let w := foldl free_ballot g.(reg_world) el.(votes) in
    let w := if el.(use_alloc) then kfree el.(result) w else w in
    Ok (0, Registry (filter (λ q, q <> p) g.(slots)) (delete p g.(elections)) (kfree p w)).

Definition gvotable_disable_force_int_entry (h : option election) :
    Z * option election :=
  match h with
  | None => (- EINVAL, h)
  | Some el =>
      if el.(has_name) then (- EINVAL, h)
      else (0, Some (set_disable_force_int_entry true el))
  end.

Definition gvotable_election_set_name (g : registry) (p : Z) (n : option string) :
    outcome (Z * registry) :=
  match n with
  | None => Ok (- EINVAL, g)
  | Some n =>
      if p =? 0 then Ok (- EINVAL, g)
      else
        el ← must (g.(elections) !! p);
        if el.(has_name)
           || (match gvotable_find_internal g (Some n) with Some _ => true | None => false end)
        then Ok (- EEXIST, g)
        else
          let el := set_name (strlcpy n MAX_NAME_LEN)
                      (set_hash (gvotable_internal_hash n) (set_has_name true el)) in
          Ok (0, update_election g p el)
  end.

Definition gvotable_set_vote2str (el : election) (f : option Z) : election :=
  set_vote2str f el.

End Gvotable.
