(* ===== verification/GvotableElection.v ===== *)
(** * Elections: the order of the ballots and the winner

    For the four integer comparators the winner of an election is the enabled
    ballot with the best key, as long as the list of ballots keeps its order;
    this file proves the invariant of the list, of the result and of the locks
    under casting and recasting, and shows the operations that break it. *)

From stdpp Require Import sorting.
From S2P Require Import Prelude Heap Gvotable.

(** ** Keys *)

(** The smaller the key the better the vote. *)
Definition comparator_key (c : comparator) : option (Z → Z) :=
  match c with
  | comparator_int_min => Some s32
  | comparator_int_max => Some (λ v, - s32 v)
  | comparator_uint_max => Some u32
  | comparator_uint_min => Some (λ v, - u32 v)
  | _ => None
  end.

Lemma call_cmp_key c key h a b :
  comparator_key c = Some key →
  (call_cmp c h a b <? 0) = (key a <? key b) ∧
  (call_cmp c h a b =? 0) = (key a =? key b).
Proof.
  intros Hk. destruct c; try done; injection Hk as <-; simpl;
    unfold gvotable_comparator_uint_min, gvotable_comparator_int_max,
      gvotable_comparator_int_min, gvotable_comparator_uint_max,
      gvotable_comparator_int; cbv zeta; split; repeat case_bool; done || lia.
Qed.

(** ** The order of the list *)

Section Order.
Context (key : Z → Z).

Definition bkey (b : ballot) : Z := key (current_vote b).

(** An enabled ballot is no better than any ballot before it. *)
Definition behind (a b : ballot) : Prop := b.(enabled) = true → bkey a <= bkey b.

Abbreviation ordered := (StronglySorted behind).

Lemma ordered_first l b :
  ordered l → first_enabled l = Some b →
  Forall (λ t, t.(enabled) = true → bkey b <= bkey t) l.
Proof.
  induction 1 as [|a l Hl IH Ha]; simpl; [done|].
  destruct (enabled a) eqn:He.
  - intros [= <-]. constructor; [done|]. exact Ha.
  - intros Hf. constructor; [by rewrite He|]. by apply IH.
Qed.

Lemma ordered_delete l i : ordered l → ordered (delete i l).
Proof.
  intros H. revert i.
  induction H as [|a l Hl IH Ha]; intros [|i]; simpl; [constructor..|done|].
  constructor; [apply IH|]. by apply Forall_delete.
Qed.

Lemma ordered_snoc_disabled l b :
  ordered l → b.(enabled) = false → ordered (l ++ [b]).
Proof.
  intros H Hb. induction H as [|a l Hl IH Ha]; simpl.
  - repeat constructor.
  - constructor; [done|]. apply Forall_app. split; [done|].
    constructor; [|done]. intros He. congruence.
Qed.

Lemma insert_before_spec b l :
  ordered l →
  match insert_before (λ t, bkey b <? key t) b l with
  | Some l' => ordered l' ∧ l' ≡ₚ b :: l
  | None => ordered (l ++ [b])
  end.
Proof.
  induction 1 as [|a l Hl IH Ha]; simpl.
  - repeat constructor.
  - fold (bkey a). case_bool.
    + split; [|done]. constructor; [by constructor|]. constructor; [intros _; lia|].
      eapply Forall_impl; [exact Ha|]. intros t Ht He. specialize (Ht He). lia.
    + destruct (insert_before _ b l) as [l'|]; simpl.
      * destruct IH as [Hs Hp]. split.
        -- constructor; [done|]. rewrite Hp. constructor; [intros _; lia|done].
        -- rewrite Hp. constructor.
      * constructor; [done|]. apply Forall_app. split; [done|].
        constructor; [intros _; lia|done].
Qed.

(** Changing a ballot in place to a disabled one keeps the order exactly when
    its new vote is no worse than the enabled ballots behind it. *)
Lemma ordered_disable l i b b' :
  ordered l → l !! i = Some b → b'.(enabled) = false →
  ordered (<[i := b']> l)
    ↔ Forall (λ t, t.(enabled) = true → bkey b' <= bkey t) (drop (S i) l).
Proof.
  intros H. revert i. induction H as [|a l Hl IH Ha]; intros i Hi Hb; [done|].
  destruct i as [|i]; simpl in *.
  - rewrite drop_0. split; [by inversion 1|]. intros HF. by constructor.
  - rewrite <- IH by done. split; [by inversion 1|]. intros HS. constructor; [done|].
    apply Forall_insert; [done|]. intros He. congruence.
Qed.

End Order.

Abbreviation ordered key := (StronglySorted (behind key)).

(** ** The invariant *)

Section Invariant.
Context `{env : gvotable_env} (key : Z → Z).

(** A ballot that holds its vote as a word. *)
Definition plain (b : ballot) : Prop :=
  b.(b_vote_size) = 0 ∧ b.(idx) = 0 ∧ length b.(vote) = 1%nat ∧
  (String.length b.(b_reason) < GVOTABLE_MAX_REASON_LEN)%nat.

(** What the calls below preserve besides the order. *)
Record regular (el : election) : Prop := {
  reg_cmp : comparator_key el.(cmp) = Some key;
  reg_alloc : el.(use_alloc) = false;
  reg_bool : el.(is_bool_type) = false;
  reg_force : el.(force_result_is_enabled) = false;
  reg_auto : el.(auto_callback) = true;
  reg_reason : (String.length el.(reason) < GVOTABLE_MAX_REASON_LEN)%nat;
  reg_plain : Forall plain el.(votes)
}.

(** The published result is the winner's vote (up to the comparator) and
    reason; without a winner the default's; without a default, none. *)
Definition result_ok (el : election) : Prop :=
  match first_enabled el.(votes) with
  | Some b => el.(result_is_valid) = true ∧ key el.(result) = bkey key b
              ∧ el.(reason) = b.(b_reason)
  | None =>
      if el.(has_default_vote) =? 1
      then el.(result_is_valid) = true ∧ key el.(result) = key el.(default_vote)
           ∧ el.(reason) = default_reason
      else el.(result_is_valid) = false ∧ el.(reason) = ""%string
  end.

Record election_inv (el : election) : Prop := {
  inv_regular : regular el;
  inv_order : ordered key el.(votes);
  inv_result : result_ok el;
  inv_cb : el.(cb_lock) = false;
  inv_re : el.(re_lock) = false
}.

(** Same election up to the published result. *)
Definition republished (el el' : election) : Prop :=
  ∃ res rs vd, el' = set_result_is_valid vd (set_reason rs (set_result res el)).

Lemma republished_eq el el' :
  republished el el' →
  votes el' = votes el ∧ cmp el' = cmp el ∧ use_alloc el' = use_alloc el ∧
  is_bool_type el' = is_bool_type el ∧ cb_lock el' = cb_lock el ∧
  re_lock el' = re_lock el ∧ callback el' = callback el ∧
  force_result_is_enabled el' = force_result_is_enabled el ∧
  auto_callback el' = auto_callback el ∧ has_default_vote el' = has_default_vote el ∧
  default_vote el' = default_vote el.
Proof. by intros (? & ? & ? & ->). Qed.

Lemma adopt_spec w el r v :
  regular el → (String.length r < GVOTABLE_MAX_REASON_LEN)%nat →
  ∃ cbr el', adopt w el r v v = Ok (cbr, w, el') ∧ republished el el' ∧
    result_is_valid el' = true ∧ key (result el') = key v ∧ reason el' = r ∧
    (cbr = false → el' = el).
Proof.
  intros [] Hr. unfold adopt. cbv zeta.
  set (upd := negb (result_is_valid el) || _).
  destruct (call_cmp_key (cmp el) key (heap w) (result el) v reg_cmp0) as [_ Hc].
  destruct upd eqn:Hupd; subst upd; simpl; rewrite ?reg_auto0; simpl.
  - unfold gvotable_internal_update_result, gvotable_internal_copy_result. simpl.
    rewrite reg_alloc0. simpl. eexists _, _. split; [done|]. split; [|split_and!; try done].
    + eexists _, _, _. reflexivity.
    + by apply strlcpy_short.
    + by rewrite reg_auto0.
  - apply orb_false_iff in Hupd as [Hv Hs]. apply negb_false_iff in Hv, Hs.
    apply strncmp_eq_short in Hs; [|done|done]. rewrite Hc.
    destruct (Z.eqb_spec (key (result el)) (key v)) as [He|Hne]; simpl.
    + eexists _, _. split; [done|]. split; [|split_and!; try done].
      * exists (result el), (reason el), true. by destruct el.
      * intros _. destruct el; simpl in *. by subst.
    + unfold gvotable_internal_update_result, gvotable_internal_copy_result. simpl.
      rewrite reg_alloc0. simpl. eexists _, _. split; [done|].
      split; [|split_and!; try done].
      * exists v, (reason el), true. by destruct el.
      * simpl. by rewrite reg_auto0.
Qed.

Lemma first_enabled_Forall (P : ballot → Prop) l b :
  Forall P l → first_enabled l = Some b → P b ∧ b.(enabled) = true.
Proof.
  induction 1 as [|a l Ha Hl IH]; simpl; [done|].
  destruct (enabled a) eqn:He; [by intros [= <-]|done].
Qed.

Lemma run_internal_spec w el :
  regular el →
  ∃ cbr el', gvotable_internal_run_election w el = Ok (cbr, w, el') ∧
    republished el el' ∧ regular el' ∧ result_ok el' ∧
    (cbr = true → ∃ f, callback el = Some f).
Proof.
  intros Hreg. pose proof Hreg as []. unfold gvotable_internal_run_election.
  rewrite reg_force0, reg_bool0.
  assert (∀ el', republished el el' →
    (String.length (reason el') < GVOTABLE_MAX_REASON_LEN)%nat → regular el') as Hkeep.
  { intros el' (? & ? & ? & ->) ?. by split. }
  assert (∀ b el', b && has_callback el' = true → callback el' = callback el →
    ∃ f, callback el = Some f) as Hcb.
  { intros b el' Hb <-. apply andb_true_iff in Hb as [_ Hb].
    unfold has_callback in Hb. destruct (callback el'); [eauto|done]. }
  destruct (first_enabled (votes el)) as [b|] eqn:Hfe.
  - destruct (first_enabled_Forall plain _ b reg_plain0 Hfe) as [(_ & _ & _ & Hlen) _].
    destruct (adopt_spec w el (b_reason b) (current_vote b) Hreg Hlen)
      as (cbr & el' & Hadopt & Hrep & Hv & Hk & Hr & _).
    rewrite Hadopt. simpl. eexists _, el'. split; [done|].
    destruct (republished_eq _ _ Hrep) as (Hvotes & _ & _ & _ & _ & _ & Hcallback & _).
    split_and!; try done.
    + apply Hkeep; [done|]. by rewrite Hr.
    + unfold result_ok. by rewrite Hvotes, Hfe.
    + intros H. eapply Hcb; eauto.
  - destruct (has_default_vote el =? 1) eqn:Hd.
    + destruct (adopt_spec w el default_reason (default_vote el) Hreg)
        as (cbr & el' & Hadopt & Hrep & Hv & Hk & Hr & _); [unfold default_reason; simpl; unfold GVOTABLE_MAX_REASON_LEN; lia|].
      rewrite Hadopt. simpl. eexists _, el'. split; [done|].
      destruct (republished_eq _ _ Hrep)
        as (Hvotes & _ & _ & _ & _ & _ & Hcallback & _ & _ & Hhd & Hdv).
      split_and!; try done.
      * apply Hkeep; [done|]. rewrite Hr. unfold default_reason, GVOTABLE_MAX_REASON_LEN. simpl. lia.
      * unfold result_ok. by rewrite Hvotes, Hfe, Hhd, Hd, Hdv.
      * intros H. eapply Hcb; eauto.
    + simpl. eexists _, _. split; [done|].
      assert (republished el (set_reason "" (set_result_is_valid false el))) as Hrep
        by (exists (result el), ""%string, false; by destruct el).
      split_and!; try done.
      * apply Hkeep; [done|]. unfold GVOTABLE_MAX_REASON_LEN. simpl. lia.
      * unfold result_ok. simpl. by rewrite Hfe, Hd.
      * intros H. eapply Hcb; eauto.
Qed.

(** ** Casting and recasting *)

(** Callbacks return the election as they got it: they may not call the
    functions that take its locks, and overriding the result is refused for
    the comparators considered here. *)
Context (callback_quiet :
  ∀ f w el r v, ∃ w' ret, callback_fn f w el r v = (w', el, ret)).

Lemma run_callback_spec w el f :
  callback el = Some f → ∃ w' ret, gvotable_run_callback w el = Ok (ret, w', el).
Proof.
  intros Hf. unfold gvotable_run_callback. rewrite Hf. simpl.
  destruct (result_is_valid el);
    [destruct (callback_quiet f w el (Some (reason el)) (result el)) as (w' & ret & ->)
    |destruct (callback_quiet f w el None 0) as (w' & ret & ->)]; eauto.
Qed.

Lemma run_and_unlock_spec w el ret :
  regular el → ordered key el.(votes) →
  ∃ ret' w' el', run_and_unlock w el ret = Ok (ret', w', el') ∧
    election_inv el' ∧ votes el' = votes el ∧
    has_default_vote el' = has_default_vote el.
Proof.
  intros Hreg Hord. unfold run_and_unlock.
  destruct (run_internal_spec w el Hreg) as (cbr & el1 & Hrun & Hrep & Hreg1 & Hres & Hcb).
  rewrite Hrun. simpl.
  destruct (republished_eq _ _ Hrep) as (Hv & _ & _ & _ & _ & _ & Hc & _ & _ & Hd & _).
  assert (election_inv (gvotable_unlock_callback (gvotable_unlock_result el1))) as Hinv.
  { split; [destruct Hreg1; by split|by rewrite <- Hv in Hord|exact Hres|done|done]. }
  destruct cbr.
  - destruct (Hcb eq_refl) as [f Hf].
    destruct (run_callback_spec w (gvotable_unlock_result el1) f) as (w' & r' & Hr');
      [by rewrite <- Hf, <- Hc|].
    rewrite Hr'. simpl. eexists _, _, _. split; [done|]. split; [done|].
    split; [exact Hv|exact Hd].
  - simpl. eexists _, _, _. split; [done|]. split; [done|]. split; [exact Hv|exact Hd].
Qed.

Lemma find_internal_Some l r i b :
  gvotable_ballot_find_internal l r = Some (i, b) →
  l !! i = Some b ∧ ballot_matches r b = true.
Proof.
  revert i. induction l as [|a l IH]; intros i; simpl; [done|].
  destruct (ballot_matches r a) eqn:Ha; [by intros [= <- <-]|].
  destruct (gvotable_ballot_find_internal l r) as [[j c]|]; simpl; [|done].
  intros [= <- <-]. by apply IH.
Qed.

(** The ballot after [gvotable_update_ballot]. *)
Definition updated (b : ballot) (v : Z) (en : bool) : ballot :=
  Ballot en b.(reason_hash) b.(b_reason) 0 [v] 0 (u32 (b.(b_num_votes) + 1)).

Lemma update_plain w b v en :
  plain b → gvotable_update_ballot w b v en = Ok (0, w, updated b v en).
Proof.
  intros (Hs & Hi & Hl & _). unfold gvotable_update_ballot, updated.
  rewrite Hs, Hi. simpl.
  destruct (vote b) as [|x [|y l]]; try done.
Qed.

Lemma updated_plain b v en : plain b → plain (updated b v en).
Proof. by intros (_ & _ & _ & H). Qed.

Lemma updated_bkey b v en : bkey key (updated b v en) = key v.
Proof. done. Qed.

Lemma add_ballot_spec w el b :
  regular el → ordered key el.(votes) → plain b →
  let el' := gvotable_add_ballot w el b b.(enabled) in
  regular el' ∧ ordered key el'.(votes) ∧ el'.(votes) ≡ₚ b :: el.(votes) ∧
  has_default_vote el' = has_default_vote el.
Proof.
  intros Hreg Hord Hb. pose proof Hreg as [].
  assert (∀ l n, l ≡ₚ b :: votes el → regular (set_num_votes n (set_votes l el)) ∧
                 regular (set_votes l el)) as Hkeep.
  { intros l n Hl. assert (Forall plain l) as HP by (rewrite Hl; by constructor).
    split; by split. }
  unfold gvotable_add_ballot.
  destruct (votes el) as [|a l] eqn:Hv; [|].
  { split_and!; try done; [by apply (Hkeep [b] 0)|]. simpl. repeat constructor. }
  rewrite <- Hv in *. clear Hv.
  assert (∀ l, insert_before (λ t, call_cmp (cmp el) (heap w) (current_vote b) t <? 0) b l
               = insert_before (λ t, bkey key b <? key t) b l) as Heq.
  { intros l'. induction l' as [|t l' IH]; simpl; [done|]. rewrite IH.
    by destruct (call_cmp_key (cmp el) key (heap w) (current_vote b) (current_vote t))
      as [-> _]. }
  pose proof (insert_before_spec key b (votes el) Hord) as Hspec.
  destruct (enabled b) eqn:Hen.
  - rewrite Heq. destruct (insert_before _ b (votes el)) as [l'|].
    + destruct Hspec as [Hs Hp]. split_and!; try done. by apply (Hkeep l' 0).
    + assert (votes el ++ [b] ≡ₚ b :: votes el) as Hp
        by (rewrite Permutation_app_comm; done).
      split_and!; try done. by apply Hkeep.
  - assert (votes el ++ [b] ≡ₚ b :: votes el) as Hp
      by (rewrite Permutation_app_comm; done).
    split_and!; try done; [by apply Hkeep|]. by apply ordered_snoc_disabled.
Qed.

(** What a voter or the owner may do. *)
Inductive vote_op :=
| Cast (r : option string) (v : Z) (en : bool)
| Recast (r : string) (en : bool)
| UseDefault (en : bool)
| SetDefault (d : Z).

Definition vote_step (w : world) (el : election) (op : vote_op) :
    outcome (Z * world * election) :=
  match op with
  | Cast r v en =>
      '(ret, w, h) ← gvotable_cast_vote w (Some el) r v en;
      el ← must h; Ok (ret, w, el)
  | Recast r en => gvotable_recast_ballot w el r en
  | UseDefault en =>
      '(ret, w, h) ← gvotable_use_default w (Some el) en;
      el ← must h; Ok (ret, w, el)
  | SetDefault d =>
      '(ret, w, h) ← gvotable_set_default w (Some el) d;
      el ← must h; Ok (ret, w, el)
  end.

Fixpoint vote_run (w : world) (el : election) (ops : list vote_op) :
    outcome (list Z * world * election) :=
  match ops with
  | [] => Ok ([], w, el)
  | op :: ops =>
      '(ret, w, el) ← vote_step w el op;
      '(rets, w, el) ← vote_run w el ops;
      Ok (ret :: rets, w, el)
  end.

(** The changes of the value of the default that neither keep the lock of the result
    (a default in use, where another value is not published: a vote is enabled, or nobody
    is called back) nor leave a default that is not published. *)
Definition default_keeps (el : election) (d : Z) : bool :=
  match first_enabled el.(votes) with
  | Some _ => negb (el.(has_default_vote) =? 1) || (el.(default_vote) =? d)
  | None =>
      (el.(has_default_vote) =? 1)
        && ((el.(default_vote) =? d) || has_callback el && negb (key el.(default_vote) =? key d))
  end.

(** The operations that can break the order: a vote withdrawn in place with a value
    better than an enabled vote behind it; or the locks: a change of the default. *)
Definition op_keeps_order (el : election) (op : vote_op) : bool :=
  match op with
  | Cast (Some r) v false =>
      match gvotable_ballot_find_internal el.(votes) r with
      | Some (i, _) =>
          forallb (λ t, negb t.(enabled) || (key v <=? bkey key t)) (drop (S i) el.(votes))
      | None => true
      end
  | SetDefault d => default_keeps el d
  | _ => true
  end.

Fixpoint run_keeps_order (w : world) (el : election) (ops : list vote_op) : bool :=
  match ops with
  | [] => true
  | op :: ops =>
      op_keeps_order el op &&
      match vote_step w el op with
      | Ok (_, w, el) => run_keeps_order w el ops
      | _ => true
      end
  end.

Lemma regular_locked el b1 b2 :
  regular el → regular (set_re_lock b1 (set_cb_lock b2 el)).
Proof. intros []. by split. Qed.

Lemma regular_votes el l :
  regular el → Forall plain l → regular (set_votes l el).
Proof. intros [] ?. by split. Qed.

(** An error return with both locks released. *)
Lemma unlocked_inv el el' :
  election_inv el →
  regular el' → votes el' = votes el → result_is_valid el' = result_is_valid el →
  result el' = result el → reason el' = reason el →
  has_default_vote el' = has_default_vote el → default_vote el' = default_vote el →
  election_inv (gvotable_unlock_election el').
Proof.
  intros [Hreg Hord Hres _ _] Hreg' Hv H1 H2 H3 H4 H5.
  split; [destruct Hreg'; by split|simpl; by rewrite Hv| |done|done].
  unfold result_ok in *. simpl. by rewrite Hv, H1, H2, H3, H4, H5.
Qed.

Lemma bad_reason_Some r s : r = Some s → bad_reason r = false → s <> ""%string.
Proof. intros -> H ->. done. Qed.

Lemma cast_spec w el r v en :
  election_inv el → op_keeps_order el (Cast r v en) = true →
  ∃ ret w' el', gvotable_cast_vote w (Some el) r v en = Ok (ret, w', Some el') ∧
    election_inv el'.
Proof.
  intros Hinv Hop. pose proof Hinv as [Hreg Hord Hres Hcb Hre]. pose proof Hreg as [].
  unfold gvotable_cast_vote.
  destruct r as [r'|]; [|by eexists _, w, el].
  destruct (bad_reason _); [by eexists _, w, el|].
  rewrite reg_alloc0. simpl. unfold gvotable_lock_election, gvotable_lock_result.
  rewrite Hcb. simpl. rewrite Hre. simpl. rewrite reg_bool0.
  set (ell := set_re_lock true (set_cb_lock true el)).
  assert (regular ell) as Hregl by by apply regular_locked.
  simpl in Hop.
  destruct (gvotable_ballot_find_internal (votes el) r') as [[i b]|] eqn:Hfind.
  - destruct (find_internal_Some _ _ _ _ Hfind) as [Hi _].
    assert (plain b) as Hb by by eapply Forall_lookup_1.
    rewrite (update_plain w b v en Hb). simpl.
    pose proof (updated_plain b v en Hb) as Hub.
    destruct en; simpl.
    + set (eld := set_votes (delete i (votes el)) ell).
      assert (regular eld) as Hregd
        by (apply regular_votes; [done|by apply Forall_delete]).
      pose proof (add_ballot_spec w eld (updated b v true) Hregd
        (ordered_delete key _ i Hord) Hub) as (Hr & Ho & _ & _).
      destruct (run_and_unlock_spec w _ 0 Hr Ho) as (ret & w' & el' & Hrun & Hinv' & _).
      simpl in Hrun. unfold eld, ell in *. rewrite Hrun. simpl. eauto.
    + set (eli := set_votes (<[i:=updated b v false]> (votes el)) ell).
      assert (regular eli) as Hregi
        by (apply regular_votes; [done|by apply Forall_insert]).
      assert (ordered key (votes eli)) as Hordi.
      { apply (ordered_disable key _ i b); [done|done|done|].
        apply Forall_forall. intros t Ht He. rewrite updated_bkey.
        pose proof (proj1 (forallb_forall _ _) Hop t) as Hall.
        rewrite list_elem_of_In in Ht. specialize (Hall Ht). simpl in Hall. rewrite He in Hall. simpl in Hall.
        by apply Z.leb_le in Hall. }
      destruct (run_and_unlock_spec w _ 0 Hregi Hordi) as (ret & w' & el' & Hrun & Hinv' & _).
      unfold eli, ell in *. rewrite Hrun. simpl. eauto.
  - destruct (kzalloc 0 w) as [[p|] w1].
    2:{ simpl. eexists _, _, _. split; [done|]. by apply (unlocked_inv el ell). }
    set (b := new_ballot _ _). set (elv := set_num_voters _ ell).
    assert (plain b) as Hb.
    { unfold b, new_ballot. simpl. rewrite reg_alloc0. repeat split; try done.
      simpl. unfold strlcpy. rewrite length_substring.
      unfold GVOTABLE_MAX_REASON_LEN. lia. }
    rewrite (update_plain w1 b v en Hb). simpl.
    assert (regular elv) as Hregv by (destruct Hregl; by split).
    pose proof (add_ballot_spec w1 elv (updated b v en) Hregv Hord
      (updated_plain b v en Hb)) as (Hr & Ho & _ & _).
    destruct (run_and_unlock_spec w1 _ 0 Hr Ho) as (ret & w' & el' & Hrun & Hinv' & _).
    simpl in Hrun. rewrite Hrun. simpl. eauto.
Qed.

Lemma recast_spec w el r en :
  election_inv el →
  ∃ ret w' el', gvotable_recast_ballot w el r en = Ok (ret, w', el') ∧ election_inv el'.
Proof.
  intros Hinv. pose proof Hinv as [Hreg Hord Hres Hcb Hre]. pose proof Hreg as [].
  unfold gvotable_recast_ballot, gvotable_lock_election, gvotable_lock_result.
  rewrite Hcb. simpl. rewrite Hre. simpl.
  set (ell := set_re_lock true (set_cb_lock true el)).
  assert (regular ell) as Hregl by by apply regular_locked.
  destruct (gvotable_ballot_find_internal (votes el) r) as [[i b]|] eqn:Hfind.
  2:{ eexists _, _, _. split; [done|]. by apply (unlocked_inv el ell). }
  destruct (find_internal_Some _ _ _ _ Hfind) as [Hi _].
  assert (plain b) as Hb by by eapply Forall_lookup_1.
  rewrite (update_plain w b _ en Hb). simpl.
  pose proof (updated_plain b (current_vote b) en Hb) as Hub.
  set (eld := set_votes (delete i (votes el)) ell).
  assert (regular eld) as Hregd by (apply regular_votes; [done|by apply Forall_delete]).
  pose proof (add_ballot_spec w eld _ Hregd (ordered_delete key _ i Hord) Hub)
    as (Hr & Ho & _ & _).
  destruct (run_and_unlock_spec w _ 0 Hr Ho) as (ret & w' & el' & Hrun & Hinv' & _).
  simpl in Hrun. unfold eld, ell in *. rewrite Hrun. eauto.
Qed.

Lemma use_default_spec w el en :
  election_inv el →
  ∃ ret w' el', gvotable_use_default w (Some el) en = Ok (ret, w', Some el') ∧
    election_inv el'.
Proof.
  intros Hinv. pose proof Hinv as [Hreg Hord Hres Hcb Hre]. pose proof Hreg as [].
  unfold gvotable_use_default, gvotable_lock_election, gvotable_lock_result.
  rewrite reg_bool0, Hcb. simpl. rewrite Hre. simpl.
  set (eld := set_has_default_vote _ _).
  assert (regular eld) as Hregd by by split.
  destruct (run_and_unlock_spec w eld 0 Hregd Hord) as (ret & w' & el' & Hrun & Hinv' & _).
  rewrite Hrun. simpl. eauto.
Qed.

Lemma set_default_spec w el d :
  election_inv el → default_keeps el d = true →
  ∃ ret w' el', gvotable_set_default w (Some el) d = Ok (ret, w', Some el') ∧ election_inv el'.
Proof.
  intros Hinv Hd. pose proof Hinv as [Hreg Hord Hres Hcb Hre]. pose proof Hreg as [].
  unfold gvotable_set_default, gvotable_lock_election, gvotable_lock_result.
  rewrite reg_bool0, Hcb. simpl. rewrite Hre. simpl.
  unfold default_keeps, result_ok in *. destruct (first_enabled (votes el)) as [b|] eqn:Hfe.
  - replace ((has_default_vote el =? 1) && negb (default_vote el =? d)) with false
      by (by destruct (has_default_vote el =? 1), (default_vote el =? d)).
    eexists _, _, _. split; [done|]. split; [by split|done| |done|done].
    unfold result_ok. simpl. by rewrite Hfe.
  - apply andb_true_iff in Hd as [Hh Hd]. rewrite Hh in *. simpl.
    destruct (Z.eqb_spec (default_vote el) d) as [<-|Hne]; simpl in *.
    { eexists _, _, _. split; [done|]. split; [by split|done| |done|done].
      unfold result_ok. simpl. by rewrite Hfe. }
    apply andb_true_iff in Hd as [Hcall Hkey%negb_true_iff%Z.eqb_neq].
    set (ell := set_default_vote d _).
    assert (regular ell) as Hregl by by split.
    destruct (run_internal_spec w ell Hregl) as (cbr & el1 & Hrun & Hrep & Hreg1 & Hres1 & Hcb1).
    assert (cbr = true) as ->.
    { revert Hrun. unfold gvotable_internal_run_election.
      change (force_result_is_enabled ell) with (force_result_is_enabled el). rewrite reg_force0.
      change (votes ell) with (votes el). rewrite Hfe.
      change (has_default_vote ell) with (has_default_vote el). rewrite Hh.
      destruct (adopt_spec w ell default_reason (default_vote ell) Hregl)
        as (cb & el2 & -> & Hrep2 & _ & Hk2 & _ & Hsame);
        [unfold default_reason; simpl; unfold GVOTABLE_MAX_REASON_LEN; lia|].
      simpl. intros [= <- _]. destruct cb.
      - destruct Hrep2 as (? & ? & ? & ->). exact Hcall.
      - exfalso. specialize (Hsame eq_refl). subst el2. destruct Hres as (_ & Hk & _).
        apply Hkey. rewrite <- Hk. exact Hk2. }
    rewrite Hrun. simpl. destruct (Hcb1 eq_refl) as [f Hf].
    destruct (republished_eq _ _ Hrep) as (Hv & _ & _ & _ & _ & _ & Hc & _ & _ & Hhd & _).
    destruct (run_callback_spec w (gvotable_unlock_result el1) f) as (w' & r' & Hr');
      [by rewrite <- Hf, <- Hc|].
    rewrite Hr'. simpl. eexists _, _, _. split; [done|].
    split; [destruct Hreg1; by split| | |done|done].
    { change (votes ell) with (votes el) in Hv. simpl. by rewrite Hv. }
    unfold result_ok in *. simpl in *. change (has_default_vote ell) with (has_default_vote el) in Hhd.
    rewrite Hv in *. change (votes ell) with (votes el) in *. rewrite Hfe in *. by rewrite Hhd, Hh in Hres1.
Qed.

Lemma vote_step_spec w el op :
  election_inv el → op_keeps_order el op = true →
  ∃ ret w' el', vote_step w el op = Ok (ret, w', el') ∧ election_inv el'.
Proof.
  intros Hinv Hop. destruct op as [r v en|r en|en|d]; unfold vote_step.
  - destruct (cast_spec w el r v en Hinv Hop) as (ret & w' & el' & -> & ?). eauto.
  - by apply recast_spec.
  - destruct (use_default_spec w el en Hinv) as (ret & w' & el' & -> & ?). eauto.
  - destruct (set_default_spec w el d Hinv Hop) as (ret & w' & el' & -> & ?). eauto.
Qed.

Lemma vote_run_spec w el ops :
  election_inv el → run_keeps_order w el ops = true →
  ∃ rets w' el', vote_run w el ops = Ok (rets, w', el') ∧ election_inv el'.
Proof.
  revert w el. induction ops as [|op ops IH]; intros w el Hinv Hok; simpl; [eauto|].
  simpl in Hok. apply andb_true_iff in Hok as [Hop Hops].
  destruct (vote_step_spec w el op Hinv Hop) as (ret & w1 & el1 & Hstep & Hinv1).
  rewrite Hstep in *. simpl.
  destruct (IH w1 el1 Hinv1 Hops) as (rets & w2 & el2 & -> & Hinv2). simpl. eauto.
Qed.

(** The winner of an election in the invariant. *)
Lemma inv_optimal el b :
  election_inv el → b ∈ votes el → enabled b = true →
  result_is_valid el = true ∧ key (result el) <= bkey key b ∧
  ∃ t, t ∈ votes el ∧ enabled t = true ∧ key (result el) = bkey key t ∧
       reason el = b_reason t.
Proof.
  intros [Hreg Hord Hres _ _] Hb He. unfold result_ok in Hres.
  destruct (first_enabled (votes el)) as [t|] eqn:Hfe.
  - destruct Hres as (Hv & Hk & Hr). split; [done|].
    pose proof (ordered_first key _ t Hord Hfe) as Hall.
    rewrite Forall_forall in Hall. split; [rewrite Hk; by apply Hall|].
    exists t. split_and!; try done.
    + clear -Hfe. induction (votes el) as [|a l IH]; simpl in *; [done|].
      destruct (enabled a); [injection Hfe as ->; left|right; auto].
    + by apply (first_enabled_Forall plain _ t (reg_plain _ Hreg)).
  - exfalso. clear -Hfe Hb He. induction Hb as [l|a l Hin IH]; simpl in *.
    + by rewrite He in Hfe.
    + destruct (enabled _) eqn:?; [done|auto].
Qed.

(** Running a settled election again changes nothing and calls nobody. *)
Lemma run_internal_settled w el b :
  regular el → first_enabled (votes el) = Some b → result_ok el →
  gvotable_internal_run_election w el = Ok (false, w, el).
Proof.
  intros Hreg Hfe Hres. pose proof Hreg as [].
  unfold gvotable_internal_run_election, result_ok in *. rewrite reg_force0, reg_bool0.
  rewrite Hfe in *. destruct Hres as (Hv & Hk & Hr). unfold adopt. cbv zeta.
  rewrite Hv, Hr. simpl.
  assert (strncmp_eq (b_reason b) (b_reason b) GVOTABLE_MAX_REASON_LEN = true) as ->
    by (unfold strncmp_eq; by apply String.eqb_refl).
  simpl. destruct (call_cmp_key _ _ (heap w) (result el) (current_vote b) reg_cmp0)
    as [_ ->].
  unfold bkey in Hk. rewrite Hk, Z.eqb_refl. simpl. do 2 f_equal.
  destruct el; simpl in *. by subst.
Qed.

End Invariant.
