(* ===== verification/GvotableBook.v ===== *)
(** * Elections as a book of votes by reason

    Whatever the comparator, the list of ballots is a finite map from the
    voters' reasons to their last vote: what casting and recasting do to it,
    and what the queries read from it. *)

From S2P Require Import Prelude Heap Gvotable GvotableElection.

Section Book.
Context `{env : gvotable_env}.
Context (callback_quiet :
  ∀ f w el r v, ∃ w' ret, callback_fn f w el r v = (w', el, ret)).

Definition known_ballot (b : ballot) : Prop :=
  plain b ∧ b.(reason_hash) = full_name_hash b.(b_reason).

Record book (l : list ballot) : Prop := {
  book_known : Forall known_ballot l;
  book_unique : NoDup (b_reason <$> l)
}.

(** An unlocked election that keeps its votes as words. *)
Record open_book (el : election) : Prop := {
  ob_book : book el.(votes);
  ob_alloc : el.(use_alloc) = false;
  ob_cb : el.(cb_lock) = false;
  ob_re : el.(re_lock) = false
}.

Abbreviation short r := (String.length r < GVOTABLE_MAX_REASON_LEN)%nat.

Lemma matches_iff r b :
  known_ballot b → short r → ballot_matches r b = true ↔ b_reason b = r.
Proof.
  intros [(_ & _ & _ & Hl) Hh] Hr. unfold ballot_matches, gvotable_internal_hash.
  rewrite andb_true_iff, strncmp_eq_short by done. split; [by intros []|].
  intros <-. split; [|done]. by rewrite Hh, Z.eqb_refl.
Qed.

Lemma find_None l r :
  book l → short r →
  gvotable_ballot_find_internal l r = None ↔ r ∉ b_reason <$> l.
Proof.
  intros [Hk _] Hr. induction Hk as [|b l Hb Hl IH]; simpl.
  { split; [intros _; apply not_elem_of_nil|done]. }
  pose proof (matches_iff r b Hb Hr) as Hm. rewrite not_elem_of_cons.
  destruct (ballot_matches r b).
  - assert (b_reason b = r) by by apply Hm. split; [done|]. intros [Hne _]. congruence.
  - assert (b_reason b ≠ r) by (intros He; by apply Hm in He).
    rewrite <- IH. destruct (gvotable_ballot_find_internal l r) as [[]|]; simpl;
      [split; [done|by intros [? ?]]|split; [by split|done]].
Qed.

Lemma find_Some l r b :
  book l → short r →
  (∃ i, gvotable_ballot_find_internal l r = Some (i, b)) ↔ b ∈ l ∧ b_reason b = r.
Proof.
  intros Hbook Hr. pose proof Hbook as [Hk Hu]. split.
  - intros [i Hi]. destruct (find_internal_Some _ _ _ _ Hi) as [Hl Hm].
    split; [by eapply list_elem_of_lookup_2|].
    apply matches_iff; [by eapply Forall_lookup_1|done|done].
  - intros [Hin Hb].
    destruct (gvotable_ballot_find_internal l r) as [[i b']|] eqn:Hf.
    + exists i. destruct (find_internal_Some _ _ _ _ Hf) as [Hl Hm].
      assert (b_reason b' = r) as Hb'
        by (apply matches_iff; [by eapply Forall_lookup_1|done|done]).
      apply list_elem_of_lookup in Hin as [j Hj].
      assert (i = j) as <-.
      { apply (NoDup_lookup (b_reason <$> l) i j r Hu); rewrite list_lookup_fmap;
          [rewrite Hl|rewrite Hj]; simpl; congruence. }
      congruence.
    + apply find_None in Hf; [|done|done]. exfalso. apply Hf.
      apply list_elem_of_fmap. by exists b.
Qed.

(** ** Publishing does not touch the ballots *)

Lemma adopt_votes w el r v nv :
  use_alloc el = false →
  ∃ cbr el', adopt w el r v nv = Ok (cbr, w, el') ∧ republished el el'.
Proof.
  intros Ha. unfold adopt, gvotable_internal_update_result, gvotable_internal_copy_result.
  cbv zeta. destruct (negb (result_is_valid el) || _); cbn [orb].
  all: match goal with |- context [(if ?c then _ else Ok _) ≫= _] => destruct c end.
  all: simpl; rewrite ?Ha; simpl; eexists _, _; (split; [reflexivity|]).
  all: first [by exists nv, (strlcpy r GVOTABLE_MAX_REASON_LEN), true
             |by exists (result el), (strlcpy r GVOTABLE_MAX_REASON_LEN), true
             |by exists nv, (reason el), true; destruct el
             |by exists (result el), (reason el), true; destruct el].
Qed.

Lemma run_internal_votes w el :
  use_alloc el = false →
  ∃ cbr el', gvotable_internal_run_election w el = Ok (cbr, w, el') ∧ republished el el' ∧
    (cbr = true → ∃ f, callback el' = Some f).
Proof.
  intros Ha. unfold gvotable_internal_run_election.
  assert (∀ b el', b && has_callback el' = true → ∃ f, callback el' = Some f) as Hcb.
  { intros b el' Hb. apply andb_true_iff in Hb as [_ Hb].
    unfold has_callback in Hb. destruct (callback el'); [eauto|done]. }
  assert (republished el el) as Hrefl.
  { exists (result el), (reason el), (result_is_valid el). by destruct el. }
  destruct (force_result_is_enabled el); [by eexists false, el|].
  destruct (first_enabled (votes el)) as [b|].
  - destruct (adopt_votes w el (b_reason b) (current_vote b)
      (if is_bool_type el then GVOTABLE_BOOL_TRUE_VALUE else current_vote b) Ha)
      as (cbr & el' & -> & Hrep). simpl. eauto 10.
  - destruct (has_default_vote el =? 1).
    + destruct (adopt_votes w el default_reason (default_vote el) (default_vote el) Ha)
        as (cbr & el' & -> & Hrep). simpl. eauto 10.
    + simpl. eexists _, _. split; [done|]. split; [|apply Hcb].
      exists (result el), ""%string, false. by destruct el.
Qed.

Lemma run_and_unlock_votes w el ret :
  use_alloc el = false →
  ∃ ret' w' el1, run_and_unlock w el ret
      = Ok (ret', w', gvotable_unlock_callback (gvotable_unlock_result el1)) ∧
    republished el el1.
Proof.
  intros Ha. unfold run_and_unlock.
  destruct (run_internal_votes w el Ha) as (cbr & el1 & -> & Hrep & Hcb). simpl.
  destruct cbr; [|simpl; eauto].
  destruct (Hcb eq_refl) as [f Hf].
  destruct (run_callback_spec callback_quiet w (gvotable_unlock_result el1) f Hf)
    as (w' & r & ->). simpl. eauto.
Qed.

Lemma insert_before_perm lt b l l' :
  insert_before lt b l = Some l' → l' ≡ₚ b :: l.
Proof.
  revert l'. induction l as [|a l IH]; intros l'; simpl; [done|].
  destruct (lt (current_vote a)); [by intros [= <-]|].
  destruct (insert_before lt b l) as [l1|]; simpl; [|done].
  intros [= <-]. rewrite (IH l1 eq_refl). constructor.
Qed.

Lemma add_ballot_perm w el b en :
  votes (gvotable_add_ballot w el b en) ≡ₚ b :: votes el ∧
  use_alloc (gvotable_add_ballot w el b en) = use_alloc el.
Proof.
  unfold gvotable_add_ballot. destruct (votes el) as [|a l] eqn:Hv; [done|].
  rewrite <- Hv. clear Hv a l.
  destruct (if en then _ else None) as [l'|] eqn:Hins.
  - destruct en; [|done]. split; [|done]. by apply insert_before_perm in Hins.
  - split; [|done]. simpl. by rewrite Permutation_app_comm.
Qed.

(** ** The book after a cast *)

(** [l'] is [l] with the entry of reason [r] set. *)
Definition entered (r : string) (v : Z) (en : bool) (l l' : list ballot) : Prop :=
  book l' ∧
  (∃ b, b ∈ l' ∧ b_reason b = r ∧ enabled b = en ∧ current_vote b = v) ∧
  ∀ t, b_reason t ≠ r → t ∈ l' ↔ t ∈ l.

Lemma book_perm l l' : l ≡ₚ l' → book l → book l'.
Proof. intros Hp [H1 H2]. split; by rewrite <- Hp. Qed.

Lemma entered_cons l b v en :
  book l → b_reason b ∉ b_reason <$> l → known_ballot b →
  entered (b_reason b) v en l (updated b v en :: l).
Proof.
  intros [Hk Hu] Hnew [Hp Hh]. split_and!.
  - split; [constructor; [|done]|by constructor].
    split; [by apply updated_plain|exact Hh].
  - exists (updated b v en). split_and!; [left|done..].
  - intros t Hne. rewrite elem_of_cons. split; [|by right].
    intros [->|H]; [by destruct Hne|done].
Qed.

Lemma entered_perm r v en l l1 l2 :
  l1 ≡ₚ l2 → entered r v en l l1 → entered r v en l l2.
Proof.
  intros Hp (Hb & (b & Hin & Hrest) & Hother). split_and!.
  - by eapply book_perm.
  - exists b. by rewrite <- Hp.
  - intros t Hne. by rewrite <- Hp, Hother.
Qed.

Lemma entered_update l i b v en :
  book l → l !! i = Some b →
  entered (b_reason b) v en l (updated b v en :: delete i l) ∧
  <[i := updated b v en]> l ≡ₚ updated b v en :: delete i l.
Proof.
  intros Hbook Hi. pose proof (delete_Permutation l i b Hi) as Hp.
  assert (book (b :: delete i l)) as [Hk Hu] by by eapply book_perm.
  simpl in Hu. apply NoDup_cons in Hu as [Hnin Hu]. inversion_clear Hk.
  split.
  - destruct (entered_cons (delete i l) b v en) as (H1 & H2 & H3); [by split|done|done|].
    split_and!; [done|done|]. intros t Hne. rewrite H3 by done.
    assert (t ∈ l ↔ t ∈ b :: delete i l) as -> by (split; intros ?; by rewrite Hp in *).
    rewrite elem_of_cons. split; [by right|]. intros [->|?]; [by destruct Hne|done].
  - assert (<[i := updated b v en]> l !! i = Some (updated b v en)) as Hl
      by (apply list_lookup_insert_eq; by eapply lookup_lt_Some).
    rewrite (delete_Permutation _ _ _ Hl). by rewrite delete_insert_list.
Qed.

Lemma strlcpy_plain el r : short r → use_alloc el = false →
  known_ballot (new_ballot el r) ∧ b_reason (new_ballot el r) = r.
Proof.
  intros Hr Ha. unfold new_ballot. rewrite Ha, strlcpy_short by done. by repeat split.
Qed.

(** A vote cast in a boolean election is its enable. *)
Definition cast_value (el : election) (v : Z) (en : bool) : Z :=
  if el.(is_bool_type) then Z.b2z en else v.

(** The fields a cast leaves alone. *)
Definition same_rules (el el' : election) : Prop :=
  el'.(use_alloc) = el.(use_alloc) ∧ el'.(is_bool_type) = el.(is_bool_type) ∧
  el'.(cmp) = el.(cmp) ∧ el'.(force_result_is_enabled) = el.(force_result_is_enabled) ∧
  el'.(has_default_vote) = el.(has_default_vote) ∧
  el'.(default_vote) = el.(default_vote).

#[export] Instance same_rules_trans : Transitive same_rules.
Proof.
  intros a b c (? & ? & ? & ? & ? & ?) (? & ? & ? & ? & ? & ?).
  unfold same_rules. split_and!; congruence.
Qed.

Lemma republished_rules el el' : republished el el' → same_rules el el'.
Proof. by intros (? & ? & ? & ->). Qed.

Lemma add_ballot_rules w el b en : same_rules el (gvotable_add_ballot w el b en).
Proof. unfold gvotable_add_ballot. by repeat case_match. Qed.

(** A cast is an election over the book with the vote entered. *)
Lemma cast_reduces w el c r v en :
  let rs := String c r in
  open_book el → short rs →
  (rs ∉ b_reason <$> votes el → ∃ p rest, allocs w = Some p :: rest) →
  ∃ w1 el1, same_rules el el1 ∧
    entered rs (cast_value el v en) en (votes el) (votes el1) ∧
    gvotable_cast_vote w (Some el) (Some rs) v en
      = ('(ret, w, el) ← run_and_unlock w1 el1 0; Ok (ret, w, Some el)).
Proof.
  intros rs [Hbook Ha Hcb Hre] Hr Halloc. unfold gvotable_cast_vote. simpl. rewrite Ha. simpl.
  unfold gvotable_lock_election, gvotable_lock_result. rewrite Hcb. simpl. rewrite Hre. simpl.
  fold rs. set (ell := set_re_lock true (set_cb_lock true el)).
  fold (cast_value el v en). set (val := cast_value el v en).
  destruct (gvotable_ballot_find_internal (votes el) rs) as [[i b]|] eqn:Hf.
  - destruct (proj1 (find_Some (votes el) rs b Hbook Hr) (ex_intro _ i Hf)) as [Hin Hb].
    destruct (find_internal_Some _ _ _ _ Hf) as [Hi _].
    destruct (proj1 (Forall_forall _ _) (book_known _ Hbook) b Hin) as [Hplain _].
    rewrite (update_plain w b val en Hplain). simpl.
    destruct (entered_update (votes el) i b val en Hbook Hi) as [He Hperm].
    rewrite Hb in He. destruct en; eexists _, _.
    + destruct (add_ballot_perm w (set_votes (delete i (votes el)) ell)
        (updated b val true) true) as [Hp _].
      split_and!; [| |reflexivity]; [|by apply (entered_perm _ _ _ _ _ _ (symmetry Hp))].
      etrans; [|apply add_ballot_rules]. done.
    + split_and!; [| |reflexivity]; [done|].
      by apply (entered_perm _ _ _ _ _ _ (symmetry Hperm)).
  - apply find_None in Hf; [|done|done].
    destruct (Halloc Hf) as (p & rest & Hw). unfold kzalloc. rewrite Hw. simpl.
    destruct (strlcpy_plain ell rs Hr Ha) as [Hk Hb].
    set (w1 := World _ _).
    rewrite (update_plain w1 _ val en (proj1 Hk)). simpl.
    pose proof (entered_cons (votes el) _ val en Hbook ltac:(by rewrite Hb) Hk) as He.
    rewrite Hb in He.
    destruct (add_ballot_perm w1 (set_num_voters (u32 (num_voters el + 1)) ell)
      (updated (new_ballot ell rs) val en) en) as [Hp _].
    eexists _, _.
    split_and!; [| |reflexivity]; [|by apply (entered_perm _ _ _ _ _ _ (symmetry Hp))].
    etrans; [|apply add_ballot_rules]. done.
Qed.

Lemma cast_book w el c r v en :
  let rs := String c r in
  open_book el → short rs →
  (rs ∉ b_reason <$> votes el → ∃ p rest, allocs w = Some p :: rest) →
  ∃ ret w' el', gvotable_cast_vote w (Some el) (Some rs) v en = Ok (ret, w', Some el') ∧
    open_book el' ∧ same_rules el el' ∧
    entered rs (cast_value el v en) en (votes el) (votes el').
Proof.
  intros rs Ho Hr Halloc.
  destruct (cast_reduces w el c r v en Ho Hr Halloc) as (w1 & el1 & Hrules & He & Hcast).
  fold rs in Hcast, He. rewrite Hcast.
  assert (use_alloc el1 = false) as Ha by (rewrite (proj1 Hrules); apply Ho).
  destruct (run_and_unlock_votes w1 el1 0 Ha) as (ret' & w' & el2 & -> & Hrep).
  destruct (republished_eq _ _ Hrep) as (Hv & _ & Hu & _).
  eexists _, _, _. split; [reflexivity|]. split_and!.
  - split; simpl; [rewrite Hv; apply He|congruence|done|done].
  - etrans; [exact Hrules|]. etrans; [by apply republished_rules|]. done.
  - simpl. by rewrite Hv.
Qed.

(** ** Boolean elections *)

Record bool_election (el : election) : Prop := {
  be_type : el.(is_bool_type) = true;
  be_cmp : el.(cmp) = comparator_bool;
  be_force : el.(force_result_is_enabled) = false;
  be_default : el.(has_default_vote) = 1;
  be_false : el.(default_vote) = GVOTABLE_BOOL_FALSE_VALUE
}.

Lemma bool_election_rules el el' : same_rules el el' → bool_election el → bool_election el'.
Proof. intros (_ & H1 & H2 & H3 & H4 & H5) []. split; congruence. Qed.

Lemma first_enabled_existsb l :
  existsb enabled l = match first_enabled l with Some _ => true | None => false end.
Proof. induction l as [|b l IH]; simpl; [done|]. by destruct (enabled b). Qed.

Lemma adopt_bool w el r v nv cbr w' el' :
  use_alloc el = false → cmp el = comparator_bool →
  adopt w el r v nv = Ok (cbr, w', el') → result el' = nv ∧ result_is_valid el' = true.
Proof.
  intros Ha Hc. unfold adopt, gvotable_internal_update_result, gvotable_internal_copy_result.
  cbv zeta. destruct (negb (result_is_valid el) || _); simpl; rewrite Hc; simpl;
    rewrite ?orb_true_r; simpl; rewrite Ha; simpl; by intros [= <- <- <-].
Qed.

Lemma run_internal_bool w el cbr w' el' :
  use_alloc el = false → bool_election el →
  gvotable_internal_run_election w el = Ok (cbr, w', el') →
  result el' = Z.b2z (existsb enabled (votes el')) ∧ result_is_valid el' = true.
Proof.
  intros Ha [] Hrun.
  destruct (run_internal_votes w el Ha) as (cbr1 & el1 & Hrun1 & Hrep & _).
  rewrite Hrun in Hrun1. injection Hrun1 as -> -> <-.
  destruct (republished_eq _ _ Hrep) as (-> & _). rewrite first_enabled_existsb.
  revert Hrun. unfold gvotable_internal_run_election. rewrite be_force0, be_type0, be_default0.
  destruct (first_enabled (votes el)) as [b|]; simpl;
    intros ([[? ?] ?] & Had & [= _ _ <-])%outcome_bind_Ok;
    destruct (adopt_bool _ _ _ _ _ _ _ _ Ha be_cmp0 Had) as [-> ->]; [done|].
  by rewrite be_false0.
Qed.

Lemma run_and_unlock_bool w el ret ret' w' el' :
  use_alloc el = false → bool_election el →
  run_and_unlock w el ret = Ok (ret', w', el') →
  gvotable_get_current_int_vote (Some el') = Ok (Z.b2z (existsb enabled (votes el'))).
Proof.
  intros Ha Hb. unfold run_and_unlock.
  destruct (run_internal_votes w el Ha) as (cbr & el1 & Hrun & Hrep & Hcb).
  destruct (run_internal_bool _ _ _ _ _ Ha Hb Hrun) as [Hres Hv].
  rewrite Hrun. simpl.
  assert (force_result_is_enabled el1 = false) as Hf.
  { rewrite (proj1 (proj2 (proj2 (proj2 (republished_rules _ _ Hrep))))). apply Hb. }
  assert (gvotable_get_current_int_vote
            (Some (gvotable_unlock_callback (gvotable_unlock_result el1)))
          = Ok (Z.b2z (existsb enabled (votes el1)))) as Hget.
  { unfold gvotable_get_current_int_vote, gvotable_get_current_vote,
      gvotable_get_current_result_unlocked. simpl. rewrite Hf, Hv, Hres. simpl.
    by destruct (existsb _ _). }
  destruct cbr; [|by intros [= _ _ <-]].
  destruct (Hcb eq_refl) as [f Hfn].
  destruct (run_callback_spec callback_quiet w (gvotable_unlock_result el1) f Hfn)
    as (w2 & r & ->). simpl. by intros [= _ _ <-].
Qed.

(** ** Reading the book *)

Lemma get_vote_book el r b :
  open_book el → short r → b ∈ votes el → b_reason b = r →
  gvotable_get_vote (Some el) (Some r)
    = Ok (if negb (is_bool_type el) && negb (enabled b) then (- EINVAL, None)
          else (0, Some (current_vote b))) ∧
  gvotable_is_enabled (Some el) (Some r) = Ok (0, Some (enabled b)).
Proof.
  intros [Hbook _ _ Hre] Hr Hin Hb.
  destruct (proj2 (find_Some (votes el) r b Hbook Hr) (conj Hin Hb)) as [i Hf].
  unfold gvotable_get_vote, gvotable_is_enabled, gvotable_lock_result. rewrite Hre. simpl.
  rewrite Hf. split; [|done]. by destruct (_ && _).
Qed.

Lemma queries_ext el el' r :
  open_book el → open_book el' → short r → is_bool_type el' = is_bool_type el →
  (∀ b, b_reason b = r → b ∈ votes el' ↔ b ∈ votes el) →
  gvotable_get_vote (Some el') (Some r) = gvotable_get_vote (Some el) (Some r) ∧
  gvotable_is_enabled (Some el') (Some r) = gvotable_is_enabled (Some el) (Some r).
Proof.
  intros Ho Ho' Hr Hbt Heq.
  destruct (decide (r ∈ b_reason <$> votes el)) as [Hin|Hnin].
  - apply list_elem_of_fmap in Hin as (b & Hb & Hin).
    destruct (get_vote_book el r b Ho Hr Hin (eq_sym Hb)) as [-> ->].
    destruct (get_vote_book el' r b Ho' Hr) as [-> ->]; [by apply Heq|done|].
    by rewrite Hbt.
  - assert (r ∉ b_reason <$> votes el') as Hnin'.
    { intros (b & Hb & Hin)%list_elem_of_fmap. apply Hnin, list_elem_of_fmap.
      exists b. split; [done|]. by apply Heq. }
    destruct Ho as [Hbook _ _ Hre], Ho' as [Hbook' _ _ Hre'].
    apply (find_None _ _ Hbook Hr) in Hnin. apply (find_None _ _ Hbook' Hr) in Hnin'.
    unfold gvotable_get_vote, gvotable_is_enabled, gvotable_lock_result.
    rewrite Hre, Hre'. simpl. by rewrite Hnin, Hnin', Hbt.
Qed.

(** ** Reasons that do not fit *)

Record open_plain (el : election) : Prop := {
  op_plain : Forall plain el.(votes);
  op_alloc : el.(use_alloc) = false;
  op_cb : el.(cb_lock) = false;
  op_re : el.(re_lock) = false
}.

Lemma matches_long r b :
  plain b → (GVOTABLE_MAX_REASON_LEN ≤ String.length r)%nat → ballot_matches r b = false.
Proof.
  intros (_ & _ & _ & Hl) Hr. unfold ballot_matches. apply andb_false_iff. right.
  by apply strncmp_eq_long.
Qed.

Lemma find_long l r :
  Forall plain l → (GVOTABLE_MAX_REASON_LEN ≤ String.length r)%nat →
  gvotable_ballot_find_internal l r = None.
Proof.
  intros Hl Hr. induction Hl as [|b l Hb Hl IH]; simpl; [done|].
  by rewrite matches_long, IH.
Qed.

Lemma new_ballot_plain el r : use_alloc el = false → plain (new_ballot el r).
Proof.
  intros Ha. unfold new_ballot, plain. rewrite Ha. simpl. split_and!; try done.
  unfold strlcpy. rewrite length_substring. unfold GVOTABLE_MAX_REASON_LEN. lia.
Qed.

Lemma cast_long w el r v en p rest :
  open_plain el → (GVOTABLE_MAX_REASON_LEN ≤ String.length r)%nat →
  allocs w = Some p :: rest →
  ∃ ret w' el', gvotable_cast_vote w (Some el) (Some r) v en = Ok (ret, w', Some el') ∧
    open_plain el' ∧
    votes el' ≡ₚ updated (new_ballot el r) (cast_value el v en) en :: votes el.
Proof.
  intros [Hpl Ha Hcb Hre] Hr Hw. unfold gvotable_cast_vote.
  destruct r as [|c r']; [unfold GVOTABLE_MAX_REASON_LEN in Hr; simpl in Hr; lia|].
  simpl. rewrite Ha. simpl.
  unfold gvotable_lock_election, gvotable_lock_result. rewrite Hcb. simpl. rewrite Hre. simpl.
  rewrite (find_long _ _ Hpl Hr). unfold kzalloc. rewrite Hw. simpl.
  set (ell := set_re_lock true (set_cb_lock true el)). set (w1 := World _ _).
  fold (cast_value el v en).
  rewrite (update_plain w1 _ _ en (new_ballot_plain ell (String c r') Ha)). simpl.
  destruct (add_ballot_perm w1 (set_num_voters (u32 (num_voters el + 1)) ell)
    (updated (new_ballot ell (String c r')) (cast_value el v en) en) en) as [Hp Hu].
  destruct (run_and_unlock_votes w1 _ 0 (eq_trans Hu Ha)) as (ret' & w' & el2 & -> & Hrep).
  destruct (republished_eq _ _ Hrep) as (Hv & _ & Hu' & _).
  eexists _, _, _. split; [reflexivity|]. split.
  - split; simpl; [|by rewrite Hu', Hu|done|done]. rewrite Hv, Hp.
    constructor; [|done]. by apply updated_plain, new_ballot_plain.
  - simpl. by rewrite Hv, Hp.
Qed.

End Book.
