(* ===== verification/GvotableProps.v ===== *)
(** * Elections: what voters and clients can rely on

    The winner of an election, the locks, the round trip between casting and
    reading a vote, boolean elections and the registry of names. *)

From S2P Require Import Prelude Heap Gvotable GvotableElection GvotableBook.

(** ** A concrete environment and elections, for the witnesses *)

Module Demo.

Definition env : gvotable_env :=
  {| full_name_hash := λ s, Z.of_nat (String.length s);
     callback_fn := λ _ w el _ _, (w, el, 0) |}.

Definition fresh_world : world := World ∅ [Some 64; Some 128; Some 192; Some 256].

(** What [gvotable_create_int_election] makes of a comparator. *)
Definition fresh_election (c : comparator) (cb : option Z) : election :=
  Election 0 4 false "MSC_FCC" true false false 0 "" false 7 cb c true 0 (-1) 0
    false [] 0 0 None true false false.

(** A minimum election where two voters voted and the default is in use. *)
Definition settled_election : election :=
  Election 0 4 false "MSC_FCC" true false false 10 "A" true 7 None comparator_int_min
    true 50 1 0 false
    [Ballot true 1 "A" 0 [10] 0 1; Ballot true 2 "BB" 0 [20] 0 1]
    2 1 None true false false.

End Demo.

Lemma election_inv_fresh (c : comparator) cb key :
  comparator_key c = Some key → election_inv key (Demo.fresh_election c cb).
Proof.
  intros H. split; try done; [|constructor].
  split; try done; simpl; unfold GVOTABLE_MAX_REASON_LEN; simpl; lia.
Qed.

Lemma election_inv_settled : election_inv s32 Demo.settled_election.
Proof.
  split; try done.
  - split; try done; simpl; unfold GVOTABLE_MAX_REASON_LEN; simpl; [lia|].
    repeat constructor; simpl; unfold GVOTABLE_MAX_REASON_LEN; lia.
  - repeat constructor. intros _. by vm_compute.
Qed.

Lemma open_book_settled : @open_book Demo.env Demo.settled_election.
Proof.
  split; try done. split.
  - repeat constructor; simpl; unfold GVOTABLE_MAX_REASON_LEN; lia.
  - by apply (bool_decide_unpack _); vm_compute.
Qed.

(** ** The winner *)

(** C2: any sequence of casts, recasts, switches of the use of the default and changes of
    its value, starting from a settled election with an integer comparator, whose callback
    does not call back, returns with both locks released, as long as no vote is withdrawn
    in place with a value better than an enabled vote behind it, and no change of the
    default is one that keeps the lock of the result or publishes nothing
    ([default_keeps]; [gvotable_set_default_leaks_lock] has what it does otherwise); after
    it, if some vote is enabled, the published result is valid, no enabled vote is better,
    and result and reason are those of one enabled ballot. *)
Theorem gvotable_election_optimal (env : gvotable_env) (key : Z → Z) w el ops :
  (∀ f w el r v, ∃ w' ret, callback_fn f w el r v = (w', el, ret)) →
  election_inv key el → run_keeps_order key w el ops = true →
  ∃ rets w' el', vote_run w el ops = Ok (rets, w', el') ∧
    cb_lock el' = false ∧ re_lock el' = false ∧
    ∀ b, b ∈ votes el' → enabled b = true →
      result_is_valid el' = true ∧ key (result el') <= bkey key b ∧
      ∃ t, t ∈ votes el' ∧ enabled t = true ∧ key (result el') = bkey key t ∧
           reason el' = b_reason t.
Proof.
  intros Hq Hinv Hops.
  destruct (vote_run_spec key Hq w el ops Hinv Hops) as (rets & w' & el' & Hrun & Hinv').
  exists rets, w', el'. split; [done|].
  split; [apply (inv_cb key _ Hinv')|]. split; [apply (inv_re key _ Hinv')|].
  intros b. by apply inv_optimal.
Qed.

Lemma gvotable_election_optimal_witness :
  let ops := [Cast (Some "THERM") 10 true; Cast (Some "AACR") 5 true;
              Cast (Some "AACR") 8 false; Cast (Some "DC") 7 true; Recast "AACR" true;
              SetDefault 50; UseDefault true; SetDefault 50] in
  ∃ rets w' el',
    @vote_run Demo.env Demo.fresh_world (Demo.fresh_election comparator_int_min (Some 1)) ops
      = Ok (rets, w', el') ∧
    cb_lock el' = false ∧ re_lock el' = false ∧
    ∀ b, b ∈ votes el' → enabled b = true →
      result_is_valid el' = true ∧ s32 (result el') <= bkey s32 b ∧
      ∃ t, t ∈ votes el' ∧ enabled t = true ∧ s32 (result el') = bkey s32 t ∧
           reason el' = b_reason t.
Proof.
  apply (gvotable_election_optimal Demo.env s32).
  - intros f w el r v. by exists w, 0.
  - by apply election_inv_fresh.
  - vm_compute. reflexivity.
Defined.

(** the withdrawal that the theorem above excludes does go wrong: in a
    fresh maximum election where A casts 10, B casts 5, A withdraws with the
    value 0 and C casts 3, the published result is 3 from C although B's vote
    of 5 is enabled. *)
Theorem gvotable_withdraw_in_place_misorders :
  let el := Demo.fresh_election comparator_int_max None in
  ∃ rets w' el',
    @vote_run Demo.env Demo.fresh_world el
      [Cast (Some "A") 10 true; Cast (Some "B") 5 true;
       Cast (Some "A") 0 false; Cast (Some "C") 3 true] = Ok (rets, w', el') ∧
    gvotable_get_current_int_vote (Some el') = Ok 3 ∧
    gvotable_get_current_reason (Some el') 32 = Ok (1, Some "C"%string) ∧
    @gvotable_get_int_vote Demo.env (Some el') (Some "B"%string) = Ok 5.
Proof. eexists _, _, _. split; [by vm_compute|]. by vm_compute. Qed.

(** ** Locks *)

Lemma bkey_eq_result key el b :
  election_inv key el → first_enabled (votes el) = Some b → result_is_valid el = true.
Proof.
  intros [_ _ H _ _] Hf. unfold result_ok in H. rewrite Hf in H. by destruct H.
Qed.

(** C33: changing the default of a settled election that has a winner returns 0
    without releasing the result lock: every later cast, and every later read
    of the result, blocks for ever. *)
Theorem gvotable_set_default_leaks_lock (env : gvotable_env) (key : Z → Z) w el b d :
  election_inv key el → first_enabled (votes el) = Some b →
  has_default_vote el = 1 → default_vote el <> d →
  ∃ el', gvotable_set_default w (Some el) d = Ok (0, w, Some el') ∧
    re_lock el' = true ∧
    gvotable_get_current_vote (Some el') = Blocked ∧
    ∀ w' c r v en, gvotable_cast_vote w' (Some el') (Some (String c r)) v en = Blocked.
Proof.
  intros Hinv Hf Hd Hne. pose proof Hinv as [Hreg Hord Hres Hcb Hre].
  set (ell := set_default_vote d (set_re_lock true (set_cb_lock true el))).
  assert (gvotable_internal_run_election w ell = Ok (false, w, ell)) as Hrun.
  { assert (regular key ell) as Hregl by (destruct Hreg; by split).
    pose proof (run_internal_settled key w ell b Hregl) as H. apply H; [done|].
    unfold result_ok in *. simpl. by rewrite Hf in *. }
  exists (gvotable_unlock_callback (set_has_default_vote 1 ell)). split_and!.
  - unfold gvotable_set_default, gvotable_lock_election, gvotable_lock_result.
    rewrite (reg_bool _ _ Hreg), Hcb. simpl. rewrite Hre. simpl. rewrite Hd.
    apply Z.eqb_neq in Hne. rewrite Hne. simpl. fold ell. by rewrite Hrun.
  - done.
  - done.
  - intros w' c r v en. unfold gvotable_cast_vote. simpl. by rewrite (reg_alloc _ _ Hreg).
Qed.

Lemma gvotable_set_default_leaks_lock_witness :
  ∃ el', @gvotable_set_default Demo.env Demo.fresh_world (Some Demo.settled_election) 60
           = Ok (0, Demo.fresh_world, Some el') ∧
    re_lock el' = true ∧
    gvotable_get_current_vote (Some el') = Blocked ∧
    ∀ w' c r v en,
      @gvotable_cast_vote Demo.env w' (Some el') (Some (String c r)) v en = Blocked.
Proof.
  apply (gvotable_set_default_leaks_lock Demo.env s32 _ _ (Ballot true 1 "A" 0 [10] 0 1)).
  - exact election_inv_settled.
  - reflexivity.
  - reflexivity.
  - by vm_compute.
Defined.

(** ** Votes as a map from reasons *)

Section Quiet.
Context {env : gvotable_env}.
Context (callback_quiet :
  ∀ f w el r v, ∃ w' ret, callback_fn f w el r v = (w', el, ret)).

(** C28: a vote that is cast is the vote read back under the same reason,
    together with its enable; a withdrawn vote reads as -EINVAL; the votes of
    all other reasons are unchanged, and the election stays usable.  Reasons
    fit the 32 bytes of a ballot, and the ballot of a new voter can be
    allocated. *)
Theorem gvotable_cast_get_roundtrip w el c r v en :
  let rs := String c r in
  open_book el → is_bool_type el = false →
  (String.length rs < GVOTABLE_MAX_REASON_LEN)%nat →
  (rs ∉ b_reason <$> votes el → ∃ p rest, allocs w = Some p :: rest) →
  ∃ ret w' el', gvotable_cast_vote w (Some el) (Some rs) v en = Ok (ret, w', Some el') ∧
    open_book el' ∧
    gvotable_get_vote (Some el') (Some rs)
      = Ok (if (en : bool) then (0, Some v) else (- EINVAL, None)) ∧
    gvotable_is_enabled (Some el') (Some rs) = Ok (0, Some en) ∧
    ∀ r', r' ≠ rs → (String.length r' < GVOTABLE_MAX_REASON_LEN)%nat →
      gvotable_get_vote (Some el') (Some r') = gvotable_get_vote (Some el) (Some r') ∧
      gvotable_is_enabled (Some el') (Some r') = gvotable_is_enabled (Some el) (Some r').
Proof.
  intros rs Ho Hb Hr Halloc.
  destruct (cast_book callback_quiet w el c r v en Ho Hr Halloc)
    as (ret & w' & el' & Hcast & Ho' & Hrules & _ & (b & Hin & Hbr & Hen & Hv) & Hother).
  assert (is_bool_type el' = false) as Hb' by (by rewrite (proj1 (proj2 Hrules))).
  destruct (get_vote_book el' rs b Ho' Hr Hin Hbr) as [Hget His].
  exists ret, w', el'. split_and!; try done.
  - rewrite Hget, Hb', Hen, Hv. unfold cast_value. rewrite Hb. by destruct en.
  - by rewrite His, Hen.
  - intros r' Hne Hr'. apply queries_ext; try done; [by rewrite Hb, Hb'|].
    intros t Ht. apply Hother. by rewrite Ht.
Qed.

(** The result of a boolean election after any cast is 1 when some voter
    is enabled and 0 when none is. *)
Theorem gvotable_bool_election_is_or w el c r v en :
  let rs := String c r in
  open_book el → bool_election el →
  (String.length rs < GVOTABLE_MAX_REASON_LEN)%nat →
  (rs ∉ b_reason <$> votes el → ∃ p rest, allocs w = Some p :: rest) →
  ∃ ret w' el', gvotable_cast_vote w (Some el) (Some rs) v en = Ok (ret, w', Some el') ∧
    open_book el' ∧ bool_election el' ∧
    gvotable_is_enabled (Some el') (Some rs) = Ok (0, Some en) ∧
    gvotable_get_current_int_vote (Some el') = Ok (Z.b2z (existsb enabled (votes el'))).
Proof.
  intros rs Ho Hb Hr Halloc.
  destruct (cast_book callback_quiet w el c r v en Ho Hr Halloc)
    as (ret & w' & el' & Hcast & Ho' & Hrules & _ & (b & Hin & Hbr & Hen & Hv) & _).
  destruct (get_vote_book el' rs b Ho' Hr Hin Hbr) as [_ His].
  destruct (cast_reduces w el c r v en Ho Hr Halloc) as (w1 & el1 & Hrules1 & _ & Hcast1).
  exists ret, w', el'. split_and!; try done.
  - by apply (bool_election_rules el).
  - by rewrite His, Hen.
  - subst rs. rewrite Hcast1 in Hcast.
    apply outcome_bind_Ok in Hcast as ([[ret1 w2] el2] & Hrun & [= <- <- <-]).
    apply (run_and_unlock_bool callback_quiet w1 el1 0 ret1 w2 el2);
      [rewrite (proj1 Hrules1); apply Ho|by apply (bool_election_rules el)|done].
Qed.

(** A reason of 32 bytes or more is stored cut and never found again: each
    cast under it succeeds in adding one more ballot, and both queries answer
    as if the voter had not voted, so that the vote cannot be withdrawn. *)
Theorem gvotable_long_reason_lost w el r v en p rest :
  open_plain el → is_bool_type el = false →
  (GVOTABLE_MAX_REASON_LEN ≤ String.length r)%nat →
  allocs w = Some p :: rest →
  ∃ ret w' el', gvotable_cast_vote w (Some el) (Some r) v en = Ok (ret, w', Some el') ∧
    open_plain el' ∧
    (∃ b, votes el' ≡ₚ b :: votes el ∧ enabled b = en ∧ current_vote b = v) ∧
    gvotable_is_enabled (Some el') (Some r) = Ok (- ENODEV, None) ∧
    gvotable_recast_ballot w' (gvotable_unlock_election el') r false
      = Ok (- EINVAL, w', gvotable_unlock_election el').
Proof.
  intros Ho Hb Hr Hw.
  destruct (cast_long callback_quiet w el r v en p rest Ho Hr Hw)
    as (ret & w' & el' & Hcast & [Hpl Ha Hcb Hre] & Hp).
  exists ret, w', el'. split_and!; try done.
  - eexists. split; [exact Hp|]. unfold cast_value. by rewrite Hb.
  - unfold gvotable_is_enabled, gvotable_lock_result. rewrite Hre. simpl.
    by rewrite (find_long _ _ Hpl Hr).
  - unfold gvotable_recast_ballot, gvotable_lock_election, gvotable_lock_result. simpl.
    by rewrite (find_long _ _ Hpl Hr).
Qed.

End Quiet.

Lemma gvotable_cast_get_roundtrip_witness :
  ∃ ret w' el',
    @gvotable_cast_vote Demo.env Demo.fresh_world (Some Demo.settled_election)
      (Some "USER"%string) 42 true = Ok (ret, w', Some el') ∧
    @open_book Demo.env el' ∧
    @gvotable_get_vote Demo.env (Some el') (Some "USER"%string) = Ok (0, Some 42) ∧
    @gvotable_is_enabled Demo.env (Some el') (Some "USER"%string) = Ok (0, Some true) ∧
    ∀ r', r' ≠ "USER"%string → (String.length r' < GVOTABLE_MAX_REASON_LEN)%nat →
      @gvotable_get_vote Demo.env (Some el') (Some r')
        = @gvotable_get_vote Demo.env (Some Demo.settled_election) (Some r') ∧
      @gvotable_is_enabled Demo.env (Some el') (Some r')
        = @gvotable_is_enabled Demo.env (Some Demo.settled_election) (Some r').
Proof.
  apply (@gvotable_cast_get_roundtrip Demo.env).
  - intros f w el r v. by exists w, 0.
  - exact open_book_settled.
  - reflexivity.
  - unfold GVOTABLE_MAX_REASON_LEN. simpl. lia.
  - intros _. by exists 64, [Some 128; Some 192; Some 256].
Defined.

Lemma gvotable_bool_election_is_or_witness :
  let el := Election 0 4 false "CHG_DISABLE" true false false 0 "Default" true 7 None
    comparator_bool true 0 1 0 false [] 0 0 None false true false in
  ∃ ret w' el',
    @gvotable_cast_vote Demo.env Demo.fresh_world (Some el) (Some "USER"%string) 9 true
      = Ok (ret, w', Some el') ∧
    @open_book Demo.env el' ∧ bool_election el' ∧
    @gvotable_is_enabled Demo.env (Some el') (Some "USER"%string) = Ok (0, Some true) ∧
    gvotable_get_current_int_vote (Some el') = Ok (Z.b2z (existsb enabled (votes el'))).
Proof.
  apply (@gvotable_bool_election_is_or Demo.env).
  - intros f w el r v. by exists w, 0.
  - split; try done. split; constructor.
  - by split.
  - unfold GVOTABLE_MAX_REASON_LEN. simpl. lia.
  - intros _. by exists 64, [Some 128; Some 192; Some 256].
Defined.

Lemma gvotable_long_reason_lost_witness :
  let r := "THERMAL_MITIGATION_WIRELESS_CHARGER"%string in
  ∃ ret w' el',
    @gvotable_cast_vote Demo.env Demo.fresh_world (Some Demo.settled_election)
      (Some r) 5 true = Ok (ret, w', Some el') ∧
    open_plain el' ∧
    (∃ b, votes el' ≡ₚ b :: votes Demo.settled_election ∧ enabled b = true ∧
          current_vote b = 5) ∧
    @gvotable_is_enabled Demo.env (Some el') (Some r) = Ok (- ENODEV, None) ∧
    @gvotable_recast_ballot Demo.env w' (gvotable_unlock_election el') r false
      = Ok (- EINVAL, w', gvotable_unlock_election el').
Proof.
  apply (@gvotable_long_reason_lost Demo.env) with (p := 64)
    (rest := [Some 128; Some 192; Some 256]); try done.
  - intros f w el r v. by exists w, 0.
  - split; try done. apply (inv_regular s32). exact election_inv_settled.
  - unfold GVOTABLE_MAX_REASON_LEN. simpl. lia.
Defined.

(** ** Names *)

(** Names are cut to the 16 bytes of their field. *)
Definition names_cut (g : registry) : Prop :=
  map_Forall (λ _ el, (String.length (name el) < MAX_NAME_LEN)%nat) (elections g).

Lemma find_named_long {env : gvotable_env} els l n :
  map_Forall (λ _ el, (String.length (name el) < MAX_NAME_LEN)%nat) els →
  (MAX_NAME_LEN ≤ String.length n)%nat → find_named els l n = None.
Proof.
  intros Hcut Hn. induction l as [|q l IH]; simpl; [done|].
  destruct (els !! q) as [el|] eqn:Hq; [|done]. unfold election_named.
  rewrite strncmp_eq_long by (split; [by eapply Hcut|done]). by rewrite andb_false_r.
Qed.

Lemma election_named_self {env : gvotable_env} el n :
  hash el = full_name_hash n → has_name el = true → name el = n →
  election_named n el = true.
Proof.
  intros Hh Hn <-. unfold election_named, gvotable_internal_hash.
  rewrite Hh, Hn, Z.eqb_refl. apply String.eqb_refl.
Qed.

Lemma create_election_adds {env : gvotable_env} g n sz cmp cb data p g' :
  gvotable_create_election g (Some n) sz cmp cb data = (Some p, g') →
  ∃ el, slots g' = p :: slots g ∧ elections g' = <[p := el]> (elections g) ∧
    hash el = full_name_hash n ∧ has_name el = true ∧ name el = strlcpy n MAX_NAME_LEN.
Proof.
  unfold gvotable_create_election.
  destruct (gvotable_find_internal g (Some n)); [done|].
  destruct (kzalloc 0 (reg_world g)) as [[s|] w]; [|done].
  destruct (kzalloc 0 w) as [[q|] w2]; [|done].
  destruct (if gvotable_needs_alloc sz then _ else _) as [[res|] w3]; [|done].
  intros [= -> <-]. by eexists.
Qed.

(** An election created under a name of at most 15 bytes is found under
    that name, and nobody else can take it; one created under a longer name is
    never found, and the name can be taken again. *)
Theorem gvotable_registry_names (env : gvotable_env) g n sz cmp cb data p g' :
  names_cut g →
  gvotable_create_election g (Some n) sz cmp cb data = (Some p, g') →
  names_cut g' ∧
  if bool_decide (String.length n < MAX_NAME_LEN)%nat
  then gvotable_election_get_handle g' (Some n) = Some p ∧
       ∀ sz' cmp' cb' data',
         gvotable_create_election g' (Some n) sz' cmp' cb' data' = (None, g')
  else gvotable_election_get_handle g' (Some n) = None.
Proof.
  intros Hcut Hcreate.
  destruct (create_election_adds _ _ _ _ _ _ _ _ Hcreate)
    as (el & Hs & He & Hh & Hn & Hname).
  assert (names_cut g') as Hcut'.
  { unfold names_cut. rewrite He. apply map_Forall_insert_2; [|done].
    rewrite Hname. unfold strlcpy. rewrite length_substring. unfold MAX_NAME_LEN. lia. }
  split; [done|].
  unfold gvotable_election_get_handle, gvotable_create_election, gvotable_find_internal.
  simpl. rewrite Hs, He. case_bool_decide as Hlen.
  - assert (find_named (<[p := el]> (elections g)) (p :: slots g) n = Some p) as ->.
    { simpl. rewrite lookup_insert_eq, election_named_self; try done.
      by rewrite Hname, strlcpy_short. }
    done.
  - rewrite <- He. apply find_named_long; [exact Hcut'|lia].
Qed.

Lemma gvotable_registry_names_witness :
  let g := Registry [] ∅ Demo.fresh_world in
  let r := @gvotable_create_election Demo.env g (Some "MSC_FCC"%string) 4
             (Some comparator_int_min) None 0 in
  names_cut r.2 ∧
  if bool_decide (String.length "MSC_FCC" < MAX_NAME_LEN)%nat
  then @gvotable_election_get_handle Demo.env r.2 (Some "MSC_FCC"%string) = Some 128 ∧
       ∀ sz' cmp' cb' data',
         @gvotable_create_election Demo.env r.2 (Some "MSC_FCC"%string) sz' cmp' cb' data'
           = (None, r.2)
  else @gvotable_election_get_handle Demo.env r.2 (Some "MSC_FCC"%string) = None.
Proof.
  apply (gvotable_registry_names Demo.env (Registry [] ∅ Demo.fresh_world) _ 4
    (Some comparator_int_min) None 0).
  - apply map_Forall_empty.
  - reflexivity.
Defined.

(** the comparators of unsigned elections have each other's names: the
    published result of a settled [uint_max] election is a minimum of the
    enabled votes, and that of a [uint_min] election a maximum. *)
Theorem gvotable_uint_comparators_swapped (env : gvotable_env) key el b :
  election_inv key el → b ∈ votes el → enabled b = true →
  (cmp el = comparator_uint_max → u32 (result el) <= u32 (current_vote b)) ∧
  (cmp el = comparator_uint_min → u32 (current_vote b) <= u32 (result el)).
Proof.
  intros Hinv Hb He. destruct (inv_optimal key el b Hinv Hb He) as (_ & Hle & _).
  pose proof (reg_cmp _ _ (inv_regular _ _ Hinv)) as Hk.
  split; intros Hc; rewrite Hc in Hk; injection Hk as <-; unfold bkey in Hle; simpl in Hle; lia.
Qed.

Lemma gvotable_uint_comparators_swapped_witness :
  let el := set_result 10 (Election 0 4 false "X" true false false 10 "A" true 7 None
    comparator_uint_max true 50 (-1) 0 false
    [Ballot true 1 "A" 0 [10] 0 1; Ballot true 2 "BB" 0 [20] 0 1]
    2 1 None true false false) in
  (cmp el = comparator_uint_max → u32 (result el) <= u32 20) ∧
  (cmp el = comparator_uint_min → u32 20 <= u32 (result el)).
Proof.
  apply (gvotable_uint_comparators_swapped Demo.env u32 _ (Ballot true 2 "BB" 0 [20] 0 1)).
  - split; try done.
    + split; try done; simpl; unfold GVOTABLE_MAX_REASON_LEN; simpl; [lia|].
      repeat constructor; simpl; unfold GVOTABLE_MAX_REASON_LEN; lia.
    + repeat constructor. intros _. by vm_compute.
  - simpl. right. left.
  - reflexivity.
Defined.
