(* ===== verification/LwisAllocator.v ===== *)
(** * LWIS: the recycling memory allocator

    Model of [google-modules/lwis/lwis_allocator.c].  The blocks are structures
    in a heap by address, linked into the [free] and [in_use] lists of a pool
    through their [next] and [prev] pointers (0 is NULL); the buffers they own
    are known by address and size.  The hash table of allocated blocks is the
    list of its entries, newest first, which is the order of each bucket.  The
    sections under a lock are taken one after the other.  Which allocations
    succeed, and where, is the kernel's: a parameter, which may depend on what
    is allocated and on how many allocations there have been. *)

From stdpp Require Import functions.
From S2P Require Import Prelude.

Record block := Block {
  type : Z;
  ptr : Z;
  next : Z;
  prev : Z
}.

Definition set_next (n : Z) (b : block) : block := Block b.(type) b.(ptr) n b.(prev).
Definition set_prev (p : Z) (b : block) : block := Block b.(type) b.(ptr) b.(next) p.

Record block_pool := BlockPool {
  free : Z;
  free_count : Z;
  in_use : Z;
  in_use_count : Z
}.

(** The recycled pools of [struct lwis_allocator_block_mgr]. *)
Inductive pool_id :=
| pool_4k
| pool_8k
| pool_16k
| pool_32k
| pool_64k
| pool_128k
| pool_256k
| pool_512k.

#[export] Instance pool_id_eq_dec : EqDecision pool_id.
Proof. solve_decision. Defined.

Record block_mgr := BlockMgr {
  pools : pool_id → block_pool;
  pool_large_in_use_count : Z;
  allocated_blocks : list Z;
  ref_count : Z
}.

(** The memory the allocator works on: blocks and buffers by address, and the
    number of allocations so far. *)
Record mem := Mem {
  blocks : gmap Z block;
  buffers : gmap Z Z;
  ticks : nat
}.

(** The kernel's memory: the address an allocation returns, if it succeeds. *)
Class kernel_memory := {
  malloc : gmap Z block → gmap Z Z → nat → option Z
}.

(** What is allocated is not NULL, and was not allocated. *)
Class kernel_memory_ok (k : kernel_memory) : Prop := {
  malloc_fresh bs bufs n a : malloc bs bufs n = Some a →
    a ≠ 0 ∧ bs !! a = None ∧ bufs !! a = None
}.

(** The device: its allocator, once initialised. *)
Record device := Device {
  mgr : option block_mgr;
  dmem : mem
}.

Definition set_blocks (bs : gmap Z block) (m : mem) : mem :=
  Mem bs m.(buffers) m.(ticks).

Definition set_pool (id : pool_id) (p : block_pool) (g : block_mgr) : block_mgr :=
  BlockMgr (<[id := p]> g.(pools)) g.(pool_large_in_use_count) g.(allocated_blocks)
    g.(ref_count).

Definition set_large_count (n : Z) (g : block_mgr) : block_mgr :=
  BlockMgr g.(pools) n g.(allocated_blocks) g.(ref_count).

Definition set_allocated (l : list Z) (g : block_mgr) : block_mgr :=
  BlockMgr g.(pools) g.(pool_large_in_use_count) l g.(ref_count).

Definition set_ref_count (n : Z) (g : block_mgr) : block_mgr :=
  BlockMgr g.(pools) g.(pool_large_in_use_count) g.(allocated_blocks) n.

(** ** Allocation of the blocks and of their buffers *)

Section Memory.
Context `{kernel_memory}.

Definition next_address (m : mem) : option Z * mem :=
  (malloc m.(blocks) m.(buffers) m.(ticks), Mem m.(blocks) m.(buffers) (S m.(ticks))).

(** [kmalloc] of a block; its fields are set by the caller. *)
Definition kmalloc_block (b : block) (m : mem) : option Z * mem :=
  let '(a, m) := next_address m in
  (a, match a with Some a => set_blocks (<[a := b]> m.(blocks)) m | None => m end).

Definition kvmalloc (size : Z) (m : mem) : option Z * mem :=
  let '(a, m) := next_address m in
  (a, match a with
      | Some a => Mem m.(blocks) (<[a := size]> m.(buffers)) m.(ticks)
      | None => m
      end).

End Memory.

Definition kfree_block (a : Z) (m : mem) : mem := set_blocks (delete a m.(blocks)) m.

Definition kvfree (p : Z) (m : mem) : mem :=
  Mem m.(blocks) (delete p m.(buffers)) m.(ticks).

(** [p->field = v] through a pointer that must be valid. *)
Definition store (f : block → block) (a : Z) (bs : gmap Z block) : outcome (gmap Z block) :=
  b ← must (bs !! a); Ok (<[a := f b]> bs).

(** [if (p != NULL) p->field = v] *)
Definition store_nonnull (f : block → block) (a : Z) (bs : gmap Z block) :
    outcome (gmap Z block) :=
  if a =? 0 then Ok bs else store f a bs.

(** ** The lists of a pool *)

(** The block taken (0 if none), the pool and the blocks. *)
Definition allocator_free_block_get_locked (p : block_pool) (bs : gmap Z block) :
    outcome (Z * block_pool * gmap Z block) :=
  if p.(free) =? 0 then Ok (0, p, bs)
  else
    let head := p.(free) in
    h ← must (bs !! head);
    let new_free := h.(next) in
    bs ← store_nonnull (set_prev 0) new_free bs;
    bs ← store (set_next p.(in_use)) head bs;
    bs ← store_nonnull (set_prev head) p.(in_use) bs;
    Ok (head, BlockPool new_free (u32 (p.(free_count) - 1)) head
                (u32 (p.(in_use_count) + 1)), bs).

Definition allocator_free_block_put_locked (p : block_pool) (a : Z) (bs : gmap Z block) :
    outcome (block_pool * gmap Z block) :=
  if a =? 0 then Ok (p, bs)
  else
    b ← must (bs !! a);
    bs ← store_nonnull (set_prev b.(prev)) b.(next) bs;
    b ← must (bs !! a);
    '(new_in_use, bs) ←
      (if b.(prev) =? 0 then Ok (b.(next), bs)
       else bs ← store (set_next b.(next)) b.(prev) bs; Ok (p.(in_use), bs));
    bs ← store_nonnull (set_prev a) p.(free) bs;
    bs ← store (λ b, set_prev 0 (set_next p.(free) b)) a bs;
    Ok (BlockPool a (u32 (p.(free_count) + 1)) new_in_use (u32 (p.(in_use_count) - 1)), bs).

Definition allocator_get_block_pool (idx : Z) : option pool_id :=
  if idx =? 12 then Some pool_4k
  else if idx =? 13 then Some pool_8k
  else if idx =? 14 then Some pool_16k
  else if idx =? 15 then Some pool_32k
  else if idx =? 16 then Some pool_64k
  else if idx =? 17 then Some pool_128k
  else if idx =? 18 then Some pool_256k
  else if idx =? 19 then Some pool_512k
  else None.

(** [hash_del] *)
Definition hash_del (a : Z) (l : list Z) : list Z := filter (λ x, x <> a) l.

(** Frees the blocks of the free list of a pool; [fuel] turns of the loop. *)
Fixpoint allocator_block_pool_free_locked (fuel : nat) (id : pool_id) (g : block_mgr)
    (m : mem) : outcome (block_mgr * mem) :=
  let p := g.(pools) id in
  if p.(free) =? 0 then Ok (g, m)
  else
    match fuel with
    | O => Blocked
    | S fuel =>
        let a := p.(free) in
        b ← must (m.(blocks) !! a);
        bs ← store_nonnull (set_prev 0) b.(next) m.(blocks);
        let p := BlockPool b.(next) (u32 (p.(free_count) - 1)) p.(in_use) p.(in_use_count) in
        let g := set_allocated (hash_del a g.(allocated_blocks)) (set_pool id p g) in
        let m := kfree_block a (kvfree b.(ptr) (set_blocks bs m)) in
        allocator_block_pool_free_locked fuel id g m
    end.

(** ** The interface *)

Definition empty_pool : block_pool := BlockPool 0 0 0 0.

Definition lwis_allocator_init `{kernel_memory} (dev : option device) : Z * option device :=
  match dev with
  | None => (- EINVAL, None)
  | Some d =>
      match d.(mgr) with
      | Some g => (0, Some (Device (Some (set_ref_count (s32 (g.(ref_count) + 1)) g)) d.(dmem)))
      | None =>
          let '(a, m) := next_address d.(dmem) in
          match a with
          | None => (- ENOMEM, Some (Device None m))
          | Some _ => (0, Some (Device (Some (BlockMgr (λ _, empty_pool) 0 [] 1)) m))
          end
      end
  end.

Definition pool_ids : list pool_id :=
  [pool_4k; pool_8k; pool_16k; pool_32k; pool_64k; pool_128k; pool_256k; pool_512k].

(** The pools in turn. *)
Fixpoint release_pools (fuel : nat) (ids : list pool_id) (g : block_mgr) (m : mem) :
    outcome (block_mgr * mem) :=
  match ids with
  | [] => Ok (g, m)
  | id :: ids =>
      '(g, m) ← allocator_block_pool_free_locked fuel id g m;
      release_pools fuel ids g m
  end.

(** Each turn of a loop frees a block, so that as many turns as there are
    blocks are enough. *)
Definition lwis_allocator_release (dev : option device) : outcome (option device) :=
  match dev with
  | None => Ok None
  | Some d =>
      match d.(mgr) with
      | None => Ok dev
      | Some g =>
          let g := set_ref_count (s32 (g.(ref_count) - 1)) g in
          if 0 <? g.(ref_count) then Ok (Some (Device (Some g) d.(dmem)))
          else
            '(_, m) ← release_pools (size d.(dmem).(blocks)) pool_ids g d.(dmem);
            Ok (Some (Device None m))
      end
  end.

(** [fls] of an [unsigned int]: the position of its highest bit, from 1. *)
Definition fls (x : Z) : Z := if x =? 0 then 0 else Z.log2 x + 1.

(** The class of a size: the argument of [fls] is cut to 32 bits. *)
Definition size_class (size : Z) : Z :=
  let idx := fls (u32 (size - 1)) in
  if idx <? 12 then 12 else idx.

(** The buffer (0 for NULL) and the device. *)
Definition lwis_allocator_allocate `{kernel_memory} (dev : option device) (size : Z) :
    outcome (Z * option device) :=
  match dev with
  | None => Ok (0, None)
  | Some d =>
      match d.(mgr) with
      | None => Ok (0, dev)
      | Some g =>
          let idx := size_class size in
          if 19 <? idx then
            let '(a, m) := kmalloc_block (Block idx 0 0 0) d.(dmem) in
            match a with
            | None => Ok (0, Some (Device (Some g) m))
            | Some a =>
                let '(p, m) := kvmalloc size m in
                match p with
                | None => Ok (0, Some (Device (Some g) (kfree_block a m)))
                | Some p =>
                    let m := set_blocks (<[a := Block idx p 0 0]> m.(blocks)) m in
                    let g := set_large_count (u32 (g.(pool_large_in_use_count) + 1)) g in
                    Ok (p, Some (Device (Some (set_allocated (a :: g.(allocated_blocks)) g)) m))
                end
            end
          else
            match allocator_get_block_pool idx with
            | None => Ok (0, dev)
            | Some id =>
                '(a, p, bs) ←
                  allocator_free_block_get_locked (g.(pools) id) d.(dmem).(blocks);
                let g := set_pool id p g in
                let m := set_blocks bs d.(dmem) in
                if negb (a =? 0) then
                  b ← must (bs !! a);
                  Ok (b.(ptr), Some (Device (Some g) m))
                else
                  let '(a, m) := kmalloc_block (Block idx 0 0 0) m in
                  match a with
                  | None => Ok (0, Some (Device (Some g) m))
                  | Some a =>
                      let '(p, m) := kvmalloc (Z.shiftl 1 idx) m in
                      match p with
                      | None => Ok (0, Some (Device (Some g) (kfree_block a m)))
                      | Some p =>
                          let pool := g.(pools) id in
                          let bs := <[a := Block idx p pool.(in_use) 0]> m.(blocks) in
                          bs ← store_nonnull (set_prev a) pool.(in_use) bs;
                          let pool := BlockPool pool.(free) pool.(free_count) a
                                        (u32 (pool.(in_use_count) + 1)) in
                          let g := set_allocated (a :: g.(allocated_blocks))
                                     (set_pool id pool g) in
                          Ok (p, Some (Device (Some g) (set_blocks bs m)))
                      end
                  end
            end
      end
  end.

(** The first entry of the table whose block owns [p]. *)
Fixpoint find_block (bs : gmap Z block) (l : list Z) (p : Z) : outcome (option Z) :=
  match l with
  | [] => Ok None
  | a :: l =>
      b ← must (bs !! a);
      if b.(ptr) =? p then Ok (Some a) else find_block bs l p
  end.

Definition lwis_allocator_free (dev : option device) (p : Z) : outcome (option device) :=
  match dev with
  | None => Ok None
  | Some d =>
      if p =? 0 then Ok dev
      else
        match d.(mgr) with
        | None => Ok dev
        | Some g =>
            let m := d.(dmem) in
            found ← find_block m.(blocks) g.(allocated_blocks) p;
            match found with
            | None => Ok dev
            | Some a =>
                b ← must (m.(blocks) !! a);
                if 19 <? b.(type) then
                  let g := set_large_count (u32 (g.(pool_large_in_use_count) - 1))
                             (set_allocated (hash_del a g.(allocated_blocks)) g) in
                  Ok (Some (Device (Some g) (kfree_block a (kvfree b.(ptr) m))))
                else
                  match allocator_get_block_pool b.(type) with
                  | None => Ok dev
                  | Some id =>
                      '(pool, bs) ←
                        allocator_free_block_put_locked (g.(pools) id) a m.(blocks);
                      Ok (Some (Device (Some (set_pool id pool g)) (set_blocks bs m)))
                  end
            end
        end
  end.
