(* ===== verification/LwisLists.v ===== *)
(** * LWIS: the doubly linked lists of the allocator

    A segment of blocks linked both ways, and what the pointer updates of the
    allocator do to it. *)

From stdpp Require Import functions.
From S2P Require Import Prelude LwisAllocator.

(** The blocks [l] from [h], each pointing back to its predecessor ([pv] for
    the first); [pe] is the last block ([pv] if none) and [hn] its next. *)
Fixpoint seg (bs : gmap Z block) (pv : Z) (l : list Z) (h pe hn : Z) : Prop :=
  match l with
  | [] => h = hn ∧ pv = pe
  | a :: l => h = a ∧ a ≠ 0 ∧ ∃ b, bs !! a = Some b ∧ prev b = pv ∧ seg bs a l (next b) pe hn
  end.

Definition dll (bs : gmap Z block) (l : list Z) (h : Z) : Prop := ∃ pe, seg bs 0 l h pe 0.

(** What links do not change. *)
Definition payload (bs : gmap Z block) : gmap Z (Z * Z) := (λ b, (type b, ptr b)) <$> bs.

Lemma payload_store f a b bs :
  bs !! a = Some b → type (f b) = type b → ptr (f b) = ptr b →
  payload (<[a := f b]> bs) = payload bs.
Proof.
  intros Ha Ht Hp. unfold payload. rewrite fmap_insert, Ht, Hp.
  apply insert_id. by rewrite lookup_fmap, Ha.
Qed.

Lemma payload_lookup bs a t p :
  payload bs !! a = Some (t, p) ↔ ∃ b, bs !! a = Some b ∧ type b = t ∧ ptr b = p.
Proof.
  unfold payload. rewrite lookup_fmap, fmap_Some. split.
  - intros (b & Hb & [= -> ->]). eauto.
  - intros (b & Hb & <- & <-). eauto.
Qed.

(** Two heaps that differ only in the links of the blocks in [X]. *)
Definition relinked (X : Z → Prop) (bs bs' : gmap Z block) : Prop :=
  payload bs' = payload bs ∧ ∀ x, ¬ X x → bs' !! x = bs !! x.

Lemma relinked_mono (X Y : Z → Prop) bs bs' :
  relinked X bs bs' → (∀ x, X x → Y x) → relinked Y bs bs'.
Proof. intros [Hp H] HX. split; [done|]. intros x Hx. apply H. auto. Qed.

#[export] Instance relinked_refl X : Reflexive (relinked X).
Proof. by split. Qed.

#[export] Instance relinked_trans X : Transitive (relinked X).
Proof.
  intros bs1 bs2 bs3 [Hp1 H1] [Hp2 H2]. split; [congruence|].
  intros x Hx. by rewrite H2, H1.
Qed.

Lemma relinked_store f a b bs :
  bs !! a = Some b → type (f b) = type b → ptr (f b) = ptr b →
  relinked (λ x, x = a) bs (<[a := f b]> bs).
Proof.
  intros Ha Ht Hp. split; [by apply payload_store|].
  intros x Hx. by rewrite lookup_insert_ne by congruence.
Qed.

Lemma seg_frame bs bs' pv l h pe hn :
  (∀ a, a ∈ l → bs' !! a = bs !! a) → seg bs pv l h pe hn → seg bs' pv l h pe hn.
Proof.
  revert pv h. induction l as [|a l IH]; intros pv h Heq; simpl; [done|].
  intros (-> & Ha & b & Hb & Hpv & Hs). split_and!; [done|done|].
  exists b. rewrite Heq by left. split_and!; [done|done|].
  apply IH; [|done]. intros x Hx. apply Heq. by right.
Qed.

Lemma seg_relinked X bs bs' pv l h pe hn :
  relinked X bs bs' → (∀ a, a ∈ l → ¬ X a) → seg bs pv l h pe hn → seg bs' pv l h pe hn.
Proof. intros [_ Hr] Hl. apply seg_frame. intros a Ha. by apply Hr, Hl. Qed.

Lemma seg_nonzero bs pv l h pe hn a : seg bs pv l h pe hn → a ∈ l → a ≠ 0.
Proof.
  revert pv h. induction l as [|c l IH]; intros pv h; simpl; [by intros _ ?%elem_of_nil|].
  intros (-> & Hc & b & _ & _ & Hs) [->|Hin]%elem_of_cons; [done|by eapply IH].
Qed.

Lemma seg_lookup bs pv l h pe hn a : seg bs pv l h pe hn → a ∈ l → is_Some (bs !! a).
Proof.
  revert pv h. induction l as [|c l IH]; intros pv h; simpl; [by intros _ ?%elem_of_nil|].
  intros (-> & Hc & b & Hb & _ & Hs) [->|Hin]%elem_of_cons; [by eauto|by eapply IH].
Qed.

Lemma seg_app bs pv l1 l2 h pe hn :
  seg bs pv (l1 ++ l2) h pe hn ↔ ∃ pm hm, seg bs pv l1 h pm hm ∧ seg bs pm l2 hm pe hn.
Proof.
  revert pv h. induction l1 as [|a l1 IH]; intros pv h; simpl.
  - split; [intros H; by exists pv, h|by intros (? & ? & [-> ->] & ?)].
  - split.
    + intros (-> & Ha & b & Hb & Hpv & (pm & hm & H1 & H2)%IH).
      exists pm, hm. split; [|done]. split_and!; [done|done|]. by exists b.
    + intros (pm & hm & (-> & Ha & b & Hb & Hpv & H1) & H2). split_and!; [done|done|].
      exists b. split_and!; [done|done|]. apply IH. by exists pm, hm.
Qed.

(** The head of a segment: 0, or its first block. *)
Lemma seg_head bs pv l h pe : seg bs pv l h pe 0 → (h = 0 ∧ l = []) ∨ (h ≠ 0 ∧ h ∈ l).
Proof. destruct l; simpl; [by intros [-> _]; left|intros (-> & ? & _); right; split; [done|left]]. Qed.

(** Pointing the first block of a segment back to another one. *)
Lemma relink_first bs pv l h pe q :
  seg bs pv l h pe 0 → NoDup l →
  ∃ bs' pe', store_nonnull (set_prev q) h bs = Ok bs' ∧ seg bs' q l h pe' 0 ∧
    relinked (λ x, x = h ∧ x ∈ l) bs bs' ∧ (pe' = pe ∨ (l = [] ∧ pe' = q)).
Proof.
  intros Hs Hnd. unfold store_nonnull. destruct l as [|a l]; simpl in *.
  - destruct Hs as [-> ->]. exists bs, q. split_and!; try done. by right.
  - destruct Hs as (-> & Ha & b & Hb & Hpv & Hs). apply NoDup_cons in Hnd as [Hnin Hnd].
    replace (a =? 0) with false by lia. unfold store. rewrite Hb. simpl.
    eexists _, pe. split; [done|]. split_and!; [done|done| | |by left].
    + exists (set_prev q b). rewrite lookup_insert_eq. split_and!; [done|done|].
      eapply seg_frame; [|exact Hs]. intros x Hx. rewrite lookup_insert_ne; [done|].
      intros ->. done.
    + split; [by apply (payload_store (set_prev q))|]. intros x Hx.
      rewrite lookup_insert_ne; [done|]. intros <-. apply Hx. split; [done|left].
Qed.

(** Pointing the last block of a segment to another one. *)
Lemma relink_last bs pv l h pe hn n :
  seg bs pv l h pe hn → NoDup l → l ≠ [] →
  pe ∈ l ∧ ∃ bs', store (set_next n) pe bs = Ok bs' ∧ seg bs' pv l h pe n ∧
    relinked (λ x, x = pe) bs bs'.
Proof.
  intros Hs Hnd Hne. destruct (exists_last Hne) as (l1 & c & ->).
  apply seg_app in Hs as (pm & hm & H1 & Hhm & Hc & b & Hb & Hpv & Hn & Hpe).
  subst hm pe. split; [apply elem_of_app; right; left|]. unfold store. rewrite Hb. simpl.
  eexists. split; [done|]. split; [|by apply (relinked_store (set_next n))].
  apply seg_app. exists pm, c. apply NoDup_app in Hnd as (_ & Hdis & _). split.
  - eapply seg_frame; [|exact H1]. intros x Hx. rewrite lookup_insert_ne; [done|].
    intros ->. apply (Hdis x); [done|left].
  - simpl. split_and!; [done|done|]. exists (set_next n b). by rewrite lookup_insert_eq.
Qed.

Lemma dll_nil bs : dll bs [] 0.
Proof. by exists 0. Qed.

Lemma dll_cons bs a l h :
  dll bs (a :: l) h ↔ h = a ∧ a ≠ 0 ∧ ∃ b pe, bs !! a = Some b ∧ prev b = 0 ∧
    seg bs a l (next b) pe 0.
Proof.
  unfold dll. simpl. split.
  - intros (pe & -> & Ha & b & Hb & Hp & Hs). eauto 10.
  - intros (-> & Ha & b & pe & Hb & Hp & Hs). eauto 10.
Qed.

Lemma dll_head bs l h : dll bs l h → (h = 0 ∧ l = []) ∨ (h ≠ 0 ∧ ∃ l', l = h :: l').
Proof.
  intros [pe Hs]. destruct l as [|a l]; simpl in Hs; [destruct Hs; by left|].
  destruct Hs as (-> & Ha & _). right. eauto.
Qed.

Lemma dll_relinked X bs bs' l h :
  relinked X bs bs' → (∀ a, a ∈ l → ¬ X a) → dll bs l h → dll bs' l h.
Proof. intros Hr Hl [pe Hs]. exists pe. by eapply seg_relinked. Qed.

(** Removing the first block of a list. *)
Lemma dll_pop bs a l h :
  dll bs (a :: l) h → NoDup (a :: l) →
  ∃ b bs', bs !! a = Some b ∧ store_nonnull (set_prev 0) (next b) bs = Ok bs' ∧
    dll bs' l (next b) ∧ bs' !! a = Some b ∧ relinked (λ x, x ∈ l) bs bs'.
Proof.
  intros (-> & Ha & b & pe & Hb & Hp & Hs)%dll_cons [Hnin Hnd]%NoDup_cons.
  destruct (relink_first bs a l (next b) pe 0 Hs Hnd) as (bs' & pe' & Hst & Hs' & [Hpl Hf] & _).
  exists b, bs'. split_and!; [done|done|by exists pe'| |].
  - rewrite Hf; [done|]. by intros [_ ?].
  - split; [done|]. intros x Hx. apply Hf. by intros [_ ?].
Qed.

(** Linking a block, unlinked so far, in front of a list: first its own links
    and then the old head, or the other way round. *)
Lemma dll_push bs a b l h :
  dll bs l h → NoDup l → a ∉ l → a ≠ 0 → bs !! a = Some b → prev b = 0 → next b = h →
  ∃ bs', store_nonnull (set_prev a) h bs = Ok bs' ∧ dll bs' (a :: l) a ∧
    bs' !! a = Some b ∧ relinked (λ x, x ∈ l) bs bs'.
Proof.
  intros [pe Hs] Hnd Hnin Ha Hb Hp Hn.
  destruct (relink_first bs 0 l h pe a Hs Hnd) as (bs' & pe' & Hst & Hs' & [Hpl Hf] & _).
  exists bs'. assert (bs' !! a = Some b) as Hb' by (rewrite Hf; [done|by intros [_ ?]]).
  split_and!; [done| |done|].
  - apply dll_cons. split_and!; [done|done|]. exists b, pe'. by rewrite Hn.
  - split; [done|]. intros x Hx. apply Hf. by intros [_ ?].
Qed.

(** Taking a block out of the middle of a list: the list that remains, and its
    head as the code computes it. *)
Lemma dll_remove bs l1 a l2 h :
  dll bs (l1 ++ a :: l2) h → NoDup (l1 ++ a :: l2) →
  ∃ b bs1 bs2, bs !! a = Some b ∧ store_nonnull (set_prev (prev b)) (next b) bs = Ok bs1 ∧
    bs1 !! a = Some b ∧
    (if prev b =? 0 then bs2 = bs1 else store (set_next (next b)) (prev b) bs1 = Ok bs2) ∧
    dll bs2 (l1 ++ l2) (if prev b =? 0 then next b else h) ∧
    bs2 !! a = Some b ∧ relinked (λ x, x ∈ l1 ++ l2) bs bs2.
Proof.
  intros [pe Hs] Hnd.
  apply seg_app in Hs as (pm & hm & H1 & Hhm & Ha & b & Hb & Hpv & H2). subst hm.
  apply NoDup_app in Hnd as (Hnd1 & Hdis & [Hnin Hnd2]%NoDup_cons).
  assert (a ∉ l1) as Hn1 by (intros Hx; apply (Hdis a Hx); left).
  assert (∀ x, x ∈ l1 → x ∉ l2) as Hd12 by (intros x Hx Hx2; apply (Hdis x Hx); by right).
  destruct (relink_first bs a l2 (next b) pe pm H2 Hnd2)
    as (bs1 & pe1 & Hst & Hs1 & [Hp1 Hf1] & _).
  assert (bs1 !! a = Some b) as Hb1 by (rewrite Hf1; [done|by intros [_ ?]]).
  assert (seg bs1 0 l1 h pm a) as H1'.
  { eapply seg_frame; [|exact H1]. intros x Hx. apply Hf1. intros [_ ?]. by apply (Hd12 x). }
  assert (∀ x, x ∉ l1 ++ l2 → bs1 !! x = bs !! x) as Hout.
  { intros x Hx. apply Hf1. intros [_ ?]. apply Hx, elem_of_app. by right. }
  destruct (Z.eqb_spec pm 0) as [Hz|Hz].
  - rewrite Hz in Hs1, Hst, H1', Hpv. destruct (decide (l1 = [])) as [->|Hne].
    + simpl in *. exists b, bs1, bs1. rewrite Hpv. split_and!; try done. by exists pe1.
    + exfalso. destruct (relink_last bs1 0 l1 h 0 a 0 H1' Hnd1 Hne) as [Hin _].
      exact (seg_nonzero _ _ _ _ _ _ _ H1' Hin eq_refl).
  - assert (l1 ≠ []) as Hne by (intros ->; simpl in H1; lia).
    destruct (relink_last bs1 0 l1 h pm a (next b) H1' Hnd1 Hne)
      as (Hin & bs2 & Hst2 & Hs2 & [Hp2 Hf2]).
    assert (pm ≠ a) as Hpa by (by intros ->). subst pm.
    exists b, bs1, bs2. replace (prev b =? 0) with false by lia. split_and!; try done.
    + exists pe1. apply seg_app. exists (prev b), (next b). split; [done|].
      eapply seg_frame; [|exact Hs1]. intros x Hx. apply Hf2. intros ->.
      by apply (Hd12 (prev b)).
    + by rewrite Hf2.
    + split; [congruence|]. intros x Hx. rewrite Hf2, Hout; [done|done|]. intros ->.
      apply Hx, elem_of_app. by left.
Qed.

(** ** The two moves of a pool *)

(** A pool whose lists are [F] and [U]. *)
Record pool_lists (bs : gmap Z block) (p : block_pool) (F U : list Z) : Prop := {
  pl_free : dll bs F p.(free);
  pl_in_use : dll bs U p.(in_use);
  pl_free_count : p.(free_count) = u32 (Z.of_nat (length F));
  pl_in_use_count : p.(in_use_count) = u32 (Z.of_nat (length U))
}.

Lemma dll_frame bs bs' l h :
  (∀ a, a ∈ l → bs' !! a = bs !! a) → dll bs l h → dll bs' l h.
Proof. intros Heq [pe Hs]. exists pe. by eapply seg_frame. Qed.

Lemma pool_lists_frame bs bs' p F U :
  (∀ a, a ∈ F ++ U → bs' !! a = bs !! a) → pool_lists bs p F U → pool_lists bs' p F U.
Proof. intros Heq []. split; try done; (eapply dll_frame; [|done]); set_solver. Qed.

Lemma pool_lists_relinked X bs bs' p F U :
  relinked X bs bs' → (∀ a, a ∈ F ++ U → ¬ X a) →
  pool_lists bs p F U → pool_lists bs' p F U.
Proof. intros [_ Hr] Hout. apply pool_lists_frame. auto. Qed.

Lemma u32_succ (n : nat) : u32 (u32 (Z.of_nat n) + 1) = u32 (Z.of_nat (S n)).
Proof. rewrite u32_add_l. f_equal. lia. Qed.

Lemma u32_pred (n : nat) : u32 (u32 (Z.of_nat (S n)) - 1) = u32 (Z.of_nat n).
Proof. rewrite u32_sub_l. f_equal. lia. Qed.

(** Taking a free block moves the head of the free list to that of the other. *)
Lemma get_locked_spec bs p a F U :
  pool_lists bs p (a :: F) U → NoDup ((a :: F) ++ U) →
  ∃ p' bs', allocator_free_block_get_locked p bs = Ok (a, p', bs') ∧
    pool_lists bs' p' F (a :: U) ∧ relinked (λ x, x ∈ (a :: F) ++ U) bs bs'.
Proof.
  intros [Hf Hu Hfc Huc] Hnd.
  pose proof Hnd as (HndF & Hdis & HndU)%NoDup_app.
  pose proof HndF as [HaF HndF']%NoDup_cons.
  assert (a ∉ U) as HaU by (apply Hdis; left).
  destruct (dll_pop bs a F (free p) Hf HndF) as (b & bs1 & Hb & Hst & HF1 & Hb1 & Hr1).
  apply dll_cons in Hf as (Hfree & Ha & b' & _ & Hb' & Hpv & _).
  assert (b' = b) as -> by congruence. clear Hb'.
  unfold allocator_free_block_get_locked. rewrite Hfree. case_bool; [done|].
  rewrite Hb. simpl. rewrite Hst. simpl. unfold store at 1. rewrite Hb1. simpl.
  assert (dll bs1 U (in_use p)) as HU1.
  { eapply dll_relinked; [exact Hr1| |exact Hu]. intros x Hx HxF. apply (Hdis x); [by right|done]. }
  set (h := set_next (in_use p) b).
  assert (relinked (λ x, x = a) bs1 (<[a := h]> bs1)) as Hr2
    by (by apply (relinked_store (set_next (in_use p)))).
  assert (dll (<[a := h]> bs1) U (in_use p)) as HU2
    by (eapply dll_relinked; [exact Hr2| |exact HU1]; by intros x Hx ->).
  destruct (dll_push (<[a := h]> bs1) a h U (in_use p) HU2 HndU HaU Ha
    (lookup_insert_eq _ _ _) Hpv eq_refl) as (bs3 & Hst3 & HU3 & Hb3 & Hr3).
  rewrite Hst3. simpl. eexists _, bs3. split; [reflexivity|]. split.
  - split; cbn [free in_use free_count in_use_count];
      [|done|rewrite Hfc; apply u32_pred|rewrite Huc; apply u32_succ].
    eapply dll_relinked; [exact Hr3|intros x Hx HxU; apply (Hdis x); [by right|done]|].
    eapply dll_relinked; [exact Hr2|by intros x Hx ->|done].
  - etrans; [eapply relinked_mono; [exact Hr1|]|etrans; [eapply relinked_mono; [exact Hr2|]|
      eapply relinked_mono; [exact Hr3|]]]; simpl; set_solver.
Qed.

(** Putting a block back moves it, from anywhere in its list, to the head of
    the free list. *)
Lemma put_locked_spec bs p a F U1 U2 :
  pool_lists bs p F (U1 ++ a :: U2) → NoDup (F ++ U1 ++ a :: U2) →
  ∃ p' bs', allocator_free_block_put_locked p a bs = Ok (p', bs') ∧
    pool_lists bs' p' (a :: F) (U1 ++ U2) ∧ relinked (λ x, x ∈ F ++ U1 ++ a :: U2) bs bs'.
Proof.
  intros [Hf Hu Hfc Huc] Hnd.
  pose proof Hnd as (HndF & Hdis & HndU)%NoDup_app.
  destruct (dll_remove bs U1 a U2 (in_use p) Hu HndU)
    as (b & bs1 & bs2 & Hb & Hst & Hb1 & Hst2 & HU2 & Hb2 & Hr2).
  assert (a ≠ 0) as Ha.
  { destruct Hu as [pe Hs]. eapply (seg_nonzero _ _ _ _ _ _ _ Hs).
    apply elem_of_app. right. left. }
  assert ((a ∉ U1 ++ U2) ∧ NoDup (U1 ++ U2)) as [HaU HndU12].
  { assert (NoDup (a :: U1 ++ U2)) as Hnd' by (by rewrite Permutation_middle).
    by apply NoDup_cons. }
  assert (a ∉ F) as HaF by (intros Hx; apply (Hdis a Hx), elem_of_app; right; left).
  assert (∀ x, x ∈ F → x ∉ U1 ++ U2) as HFU.
  { intros x Hx HxU. apply (Hdis x Hx). set_solver. }
  unfold allocator_free_block_put_locked. replace (a =? 0) with false by lia.
  rewrite Hb. simpl. rewrite Hst. simpl. rewrite Hb1. simpl.
  set (new := if prev b =? 0 then next b else in_use p) in *.
  match goal with |- context [?m ≫= (λ '(new_in_use, bs0), _)] =>
    assert (m = Ok (new, bs2)) as -> end.
  { unfold new. destruct (prev b =? 0); [by rewrite Hst2|by rewrite Hst2]. }
  simpl.
  assert (dll bs2 F (free p)) as HF2 by (eapply dll_relinked; [exact Hr2|exact HFU|done]).
  destruct HF2 as [pe HF2].
  destruct (relink_first bs2 0 F (free p) pe a HF2 HndF)
    as (bs3 & pe3 & Hst3 & HF3 & [Hp3 Hf3] & _).
  rewrite Hst3. simpl.
  assert (bs3 !! a = Some b) as Hb3 by (rewrite Hf3; [done|by intros [_ ?]]).
  assert (dll bs3 (U1 ++ U2) new) as HU3.
  { destruct HU2 as [pu HU2]. exists pu. eapply seg_frame; [|exact HU2].
    intros x Hx. apply Hf3. intros [_ HxF]. by apply (HFU x). }
  unfold store. rewrite Hb3. simpl.
  set (b' := set_prev 0 (set_next (free p) b)).
  assert (relinked (λ x, x = a) bs3 (<[a := b']> bs3)) as Hr4
    by (by apply (relinked_store (λ b, set_prev 0 (set_next (free p) b)))).
  eexists _, _. split; [reflexivity|]. split.
  - split; cbn [free in_use free_count in_use_count].
    + apply dll_cons. split_and!; [done|done|]. exists b', pe3.
      rewrite lookup_insert_eq. split_and!; [done|done|].
      eapply seg_frame; [|exact HF3]. intros x Hx.
      rewrite lookup_insert_ne; [done|]. by intros ->.
    + eapply dll_relinked; [exact Hr4| |exact HU3]. by intros x Hx ->.
    + rewrite Hfc. apply u32_succ.
    + rewrite Huc, length_app. simpl. rewrite Nat.add_succ_r, length_app. apply u32_pred.
  - etrans; [eapply relinked_mono; [exact Hr2|]|etrans; [|eapply relinked_mono; [exact Hr4|]]];
      [simpl; set_solver| |simpl; set_solver].
    split; [done|]. intros x Hx. apply Hf3. set_solver.
Qed.

(** An empty free list gives nothing. *)
Lemma get_locked_empty bs p U :
  pool_lists bs p [] U → allocator_free_block_get_locked p bs = Ok (0, p, bs).
Proof.
  intros [Hf _ _ _]. destruct (dll_head _ _ _ Hf) as [[H _]|[_ [l' H]]]; [|done].
  unfold allocator_free_block_get_locked. by rewrite H.
Qed.

(** A new block is linked in front of the blocks in use. *)
Lemma pool_new_spec bs p a b F U :
  pool_lists bs p F U → NoDup (F ++ U) → a ∉ F ++ U → a ≠ 0 →
  next b = p.(in_use) → prev b = 0 →
  ∃ bs', store_nonnull (set_prev a) p.(in_use) (<[a := b]> bs) = Ok bs' ∧
    pool_lists bs' (BlockPool p.(free) p.(free_count) a (u32 (p.(in_use_count) + 1))) F (a :: U) ∧
    payload bs' = <[a := (type b, ptr b)]> (payload bs) ∧
    ∀ x, x ∉ a :: U → bs' !! x = bs !! x.
Proof.
  intros Hp Hnd Hnin Ha Hn Hpv. pose proof Hnd as (_ & Hd & HndU)%NoDup_app.
  assert (pool_lists (<[a := b]> bs) p F U) as [Hf Hu Hfc Huc].
  { eapply pool_lists_frame; [|done]. intros x Hx. by rewrite lookup_insert_ne by set_solver. }
  destruct (dll_push (<[a := b]> bs) a b U p.(in_use)) as (bs' & Hst & HU & Hb & [Hpay Hr]);
    [done|done|set_solver|done|by rewrite lookup_insert_eq|done|done|].
  exists bs'. split; [done|]. split_and!.
  - split; cbn; [|done|done|rewrite Huc; apply u32_succ].
    eapply dll_frame; [|done]. intros x Hx. apply Hr. by apply Hd.
  - rewrite Hpay. unfold payload. by rewrite fmap_insert.
  - intros x Hx. rewrite Hr by set_solver. by rewrite lookup_insert_ne by set_solver.
Qed.
