(* ===== verification/LwisAllocatorProps.v ===== *)
(** * LWIS: what the recycling allocator promises

    The invariant of the pools, that every operation keeps it, and the
    properties of the interface over every sequence of calls of a client that
    frees what it has been given. *)

From stdpp Require Import functions.
From S2P Require Import Prelude LwisAllocator LwisLists.

(** ** Size classes *)

Definition class (id : pool_id) : Z :=
  match id with
  | pool_4k => 12 | pool_8k => 13 | pool_16k => 14 | pool_32k => 15
  | pool_64k => 16 | pool_128k => 17 | pool_256k => 18 | pool_512k => 19
  end.

Lemma class_range id : 12 <= class id <= 19.
Proof. destruct id; simpl; lia. Qed.

#[export] Instance class_inj : Inj (=) (=) class.
Proof. intros [] []; done. Qed.

Lemma get_block_pool_class id : allocator_get_block_pool (class id) = Some id.
Proof. by destruct id. Qed.

Lemma get_block_pool_total t :
  12 <= t <= 19 → ∃ id, allocator_get_block_pool t = Some id ∧ class id = t.
Proof.
  intros H. unfold allocator_get_block_pool.
  repeat (case_bool; [eexists; split; [done|simpl; lia]|]). lia.
Qed.

(** A buffer of [c] bytes is large enough; above 4 GB sizes are cut to 32 bits. *)
Definition holds (size c : Z) : Prop := size <= 2 ^ 32 → size <= c.

(** The class of a size is the least power of two, from 4 kB, that holds it. *)
Lemma size_class_spec size :
  0 < size → 12 <= size_class size <= 32 ∧ holds size (2 ^ size_class size).
Proof.
  intros H0. split.
  { unfold size_class, fls. pose proof (u32_range (size - 1)) as Hr.
    destruct (Z.eqb_spec (u32 (size - 1)) 0) as [Hz|Hz]; [by cbn|].
    pose proof (Z.log2_nonneg (u32 (size - 1))).
    assert (Z.log2 (u32 (size - 1)) < 32) by (apply Z.log2_lt_pow2; lia). case_bool; lia. }
  intros H. unfold size_class, fls. rewrite u32_small by lia.
  destruct (Z.eqb_spec (size - 1) 0) as [Hz|Hz].
  - cbn. lia.
  - assert (0 <= Z.log2 (size - 1) < 32) as Hl.
    { split; [apply Z.log2_nonneg|]. apply Z.log2_lt_pow2; lia. }
    pose proof (Z.log2_spec (size - 1) ltac:(lia)) as [_ Hs].
    rewrite <- Z.add_1_r in Hs. case_bool; [|lia].
    pose proof (Z.pow_le_mono_r 2 (Z.log2 (size - 1) + 1) 12). lia.
Qed.

Lemma size_class_pow id : size_class (2 ^ class id) = class id.
Proof. by destruct id. Qed.

(** ** The invariant *)

(** The table, the blocks (their types and buffers) and the buffers agree. *)
Record table_inv (tbl : list Z) (P : gmap Z (Z * Z)) (B : gmap Z Z) : Prop := {
  ti_nodup : NoDup tbl;
  ti_table a : a ∈ tbl ↔ is_Some (P !! a);
  ti_nonzero a t p : P !! a = Some (t, p) → a ≠ 0 ∧ p ≠ 0;
  ti_owns a t p : P !! a = Some (t, p) → is_Some (B !! p);
  ti_inj a a' t t' p : P !! a = Some (t, p) → P !! a' = Some (t', p) → a = a';
  ti_owned p : is_Some (B !! p) → ∃ a t, P !! a = Some (t, p)
}.

Lemma table_inv_add tbl P B a t p c :
  table_inv tbl P B → a ≠ 0 → p ≠ 0 → P !! a = None → B !! p = None →
  table_inv (a :: tbl) (<[a := (t, p)]> P) (<[p := c]> B).
Proof.
  intros [Hnd Ht Hz Ho Hi Hb] Ha Hp HPa HBp.
  assert (∀ a' t', P !! a' ≠ Some (t', p)) as Hnew.
  { intros a' t' H%Ho. rewrite HBp in H. by destruct H. }
  split.
  - apply NoDup_cons. split; [|done]. rewrite Ht, HPa. by intros [].
  - intros x. rewrite elem_of_cons, lookup_insert_is_Some', Ht. naive_solver.
  - intros x t' q. rewrite lookup_insert_Some. naive_solver.
  - intros x t' q. rewrite lookup_insert_Some, lookup_insert_is_Some'. naive_solver.
  - intros x x' t1 t2 q. rewrite !lookup_insert_Some. naive_solver.
  - intros q. rewrite lookup_insert_is_Some'. intros [<-|(a' & t' & Ha')%Hb].
    + exists a, t. apply lookup_insert_eq.
    + exists a', t'. rewrite lookup_insert_ne; [done|]. intros <-. congruence.
Qed.

Lemma elem_of_hash_del a x l : x ∈ hash_del a l ↔ x ≠ a ∧ x ∈ l.
Proof. unfold hash_del. by rewrite list_elem_of_filter. Qed.

Lemma table_inv_remove tbl P B a t p :
  table_inv tbl P B → P !! a = Some (t, p) →
  table_inv (hash_del a tbl) (delete a P) (delete p B).
Proof.
  intros [Hnd Ht Hz Ho Hi Hb] Ha.
  split.
  - by apply NoDup_filter.
  - intros x. rewrite elem_of_hash_del, lookup_delete_is_Some, Ht. naive_solver.
  - intros x t' q. rewrite lookup_delete_Some. naive_solver.
  - intros x t' q. rewrite lookup_delete_Some, lookup_delete_is_Some. naive_solver.
  - intros x x' t1 t2 q. rewrite !lookup_delete_Some. naive_solver.
  - intros q. rewrite lookup_delete_is_Some. intros [Hne (a' & t' & Ha')%Hb].
    exists a', t'. rewrite lookup_delete_ne; [done|]. naive_solver.
Qed.

(**    [Fr] and [Us] are the free and the used blocks of each pool, [Lg] the large
    blocks; [live] is what the client holds, with the sizes it asked for. *)
Record alloc_inv (g : block_mgr) (m : mem) (Fr Us : pool_id → list Z) (Lg : list Z)
    : Prop := {
  ai_pool id : pool_lists m.(blocks) (g.(pools) id) (Fr id) (Us id);
  ai_nodup id : NoDup (Fr id ++ Us id);
  ai_block id a : a ∈ Fr id ++ Us id →
    ∃ p, payload m.(blocks) !! a = Some (class id, p) ∧ m.(buffers) !! p = Some (2 ^ class id);
  ai_large a : a ∈ Lg →
    ∃ t p, payload m.(blocks) !! a = Some (t, p) ∧ 19 < t ∧ is_Some (m.(buffers) !! p);
  ai_large_nodup : NoDup Lg;
  ai_large_count : g.(pool_large_in_use_count) = u32 (Z.of_nat (length Lg));
  ai_cover a t p : payload m.(blocks) !! a = Some (t, p) →
    (∃ id, a ∈ Fr id ++ Us id) ∨ a ∈ Lg;
  ai_table : table_inv g.(allocated_blocks) (payload m.(blocks)) m.(buffers)
}.

Definition used (Us : pool_id → list Z) (Lg : list Z) (a : Z) : Prop :=
  (∃ id, a ∈ Us id) ∨ a ∈ Lg.

Record live_inv (m : mem) (Us : pool_id → list Z) (Lg : list Z) (live : gmap Z Z) : Prop := {
  li_used p size : live !! p = Some size →
    ∃ a c, payload m.(blocks) !! a = Some (size_class size, p) ∧ used Us Lg a ∧
      m.(buffers) !! p = Some c ∧ holds size c;
  li_live a t p : payload m.(blocks) !! a = Some (t, p) → used Us Lg a → is_Some (live !! p)
}.

Definition allocator_inv (d : device) (live : gmap Z Z) : Prop :=
  ∃ g Fr Us Lg, d.(mgr) = Some g ∧ alloc_inv g d.(dmem) Fr Us Lg ∧
    live_inv d.(dmem) Us Lg live.

(** ** What the client holds *)

Lemma used_cons Us Lg id a x :
  used (<[id := a :: Us id]> Us) Lg x ↔ x = a ∨ used Us Lg x.
Proof.
  unfold used. split.
  - intros [[id' Hx]|Hx]; [|auto]. destruct (decide (id' = id)) as [->|Hne].
    + rewrite fn_lookup_insert in Hx. apply elem_of_cons in Hx as [->|Hx]; eauto.
    + rewrite fn_lookup_insert_ne in Hx by done. eauto.
  - intros [->|[[id' Hx]|Hx]]; [left; exists id; rewrite fn_lookup_insert; left| |auto].
    left. exists id'. destruct (decide (id' = id)) as [->|Hne].
    + rewrite fn_lookup_insert. by right.
    + by rewrite fn_lookup_insert_ne by done.
Qed.

(** A block [a] comes into use for a request of [size] bytes. *)
Lemma live_inv_take m m' Us Us' Lg Lg' live a q size c :
  live_inv m Us Lg live → (∀ x, used Us' Lg' x ↔ x = a ∨ used Us Lg x) →
  payload m'.(blocks) !! a = Some (size_class size, q) → m'.(buffers) !! q = Some c → holds size c →
  (∀ x, x ≠ a → payload m'.(blocks) !! x = payload m.(blocks) !! x) →
  payload m.(blocks) ⊆ payload m'.(blocks) → m.(buffers) ⊆ m'.(buffers) →
  live_inv m' Us' Lg' (<[q := size]> live).
Proof.
  intros [Hu Hl] Hused Ha Hq Hc Hx HP HB. split.
  - intros q' size'. rewrite lookup_insert_Some. intros [[<- <-]|[Hne Hlq]].
    + exists a, c. rewrite Hused. auto.
    + destruct (Hu _ _ Hlq) as (a' & c' & ? & ? & ? & ?). exists a', c'. rewrite Hused.
      split_and!; [by eapply lookup_weaken|auto|by eapply lookup_weaken|done].
  - intros a' t' q' Ha'. rewrite Hused, lookup_insert_is_Some'.
    destruct (decide (a' = a)) as [->|Hne]; [left; congruence|].
    intros [?|?]; [done|]. right. rewrite Hx in Ha' by done. by eapply Hl.
Qed.

(** The block [a] goes out of use. *)
Lemma live_inv_drop m m' Us Us' Lg Lg' live a t q :
  live_inv m Us Lg live → (∀ x, used Us' Lg' x ↔ x ≠ a ∧ used Us Lg x) →
  payload m.(blocks) !! a = Some (t, q) →
  (∀ x t', payload m.(blocks) !! x = Some (t', q) → x = a) →
  (∀ x, x ≠ a → payload m'.(blocks) !! x = payload m.(blocks) !! x) →
  (∀ p, p ≠ q → m'.(buffers) !! p = m.(buffers) !! p) →
  live_inv m' Us' Lg' (delete q live).
Proof.
  intros [Hu Hl] Hused Ha Hinj HP HB. split.
  - intros q' size. rewrite lookup_delete_Some. intros [Hne Hlq].
    destruct (Hu _ _ Hlq) as (a' & c & Ha' & Hua & Hb & Hc).
    assert (a' ≠ a) as Hne' by congruence. exists a', c. rewrite Hused, HP, HB by done. auto.
  - intros a' t' q'. rewrite Hused. intros Ha' [Hne Hua].
    rewrite HP in Ha' by done. rewrite lookup_delete_is_Some. split; [|by eapply Hl].
    intros <-. by eapply Hne, Hinj.
Qed.

Section Inv.
Context {g : block_mgr} {m : mem} {Fr Us : pool_id → list Z} {Lg : list Z}.
Context (Hinv : alloc_inv g m Fr Us Lg).

Lemma pool_owner id id' a : a ∈ Fr id ++ Us id → a ∈ Fr id' ++ Us id' → id = id'.
Proof.
  intros (p & Hp & _)%(ai_block _ _ _ _ _ Hinv) (p' & Hp' & _)%(ai_block _ _ _ _ _ Hinv).
  apply class_inj. congruence.
Qed.

Lemma pool_not_large id a : a ∈ Fr id ++ Us id → a ∉ Lg.
Proof.
  intros (p & Hp & _)%(ai_block _ _ _ _ _ Hinv) (t & p' & Hp' & Ht & _)%(ai_large _ _ _ _ _ Hinv).
  pose proof (class_range id). simplify_eq. lia.
Qed.

Lemma free_not_used id a : a ∈ Fr id → ¬ used Us Lg a.
Proof.
  intros Ha [[id' Hu]|HL].
  - assert (id = id') as <- by (apply (pool_owner _ _ a); apply elem_of_app; auto).
    pose proof (ai_nodup _ _ _ _ _ Hinv id) as (_ & Hd & _)%NoDup_app. by apply (Hd a).
  - eapply (pool_not_large id); [|done]. apply elem_of_app. auto.
Qed.

(** Moving blocks between the lists of one pool. *)
Lemma alloc_inv_move id p' bs' F' U' :
  pool_lists bs' p' F' U' → relinked (λ x, x ∈ Fr id ++ Us id) m.(blocks) bs' →
  F' ++ U' ≡ₚ Fr id ++ Us id →
  alloc_inv (set_pool id p' g) (set_blocks bs' m) (<[id := F']> Fr) (<[id := U']> Us) Lg.
Proof.
  intros Hp Hr HP. pose proof Hr as [Hpay _]. destruct Hinv.
  assert (∀ id' a, a ∈ <[id:=F']> Fr id' ++ <[id:=U']> Us id' ↔ a ∈ Fr id' ++ Us id') as Hin.
  { intros id' a. destruct (decide (id' = id)) as [->|Hne].
    - by rewrite !fn_lookup_insert, HP.
    - by rewrite !fn_lookup_insert_ne by done. }
  split; cbn [pools set_pool blocks buffers set_blocks pool_large_in_use_count
    allocated_blocks]; rewrite ?Hpay; try done.
  - intros id'. destruct (decide (id' = id)) as [->|Hne].
    + by rewrite !fn_lookup_insert.
    + rewrite !fn_lookup_insert_ne by done. eapply pool_lists_relinked; [exact Hr| |done].
      intros a Ha Ha'. apply Hne. by eapply pool_owner.
  - intros id'. destruct (decide (id' = id)) as [->|Hne].
    + by rewrite !fn_lookup_insert, HP.
    + by rewrite !fn_lookup_insert_ne by done.
  - intros id' a Ha%Hin. auto.
  - intros a t p Ha. destruct (ai_cover0 a t p Ha) as [[id' ?]|?]; [|by auto].
    left. exists id'. by apply Hin.
Qed.

End Inv.

(** Taking a free block: the client holds its buffer. *)
Lemma inv_get g m Fr Us Lg live id a F :
  alloc_inv g m Fr Us Lg → live_inv m Us Lg live → Fr id = a :: F →
  ∃ p' bs' q, allocator_free_block_get_locked (g.(pools) id) m.(blocks) = Ok (a, p', bs') ∧
    payload bs' = payload m.(blocks) ∧ payload bs' !! a = Some (class id, q) ∧
    live !! q = None ∧ m.(buffers) !! q = Some (2 ^ class id) ∧ q ≠ 0 ∧ a ≠ 0 ∧
    alloc_inv (set_pool id p' g) (set_blocks bs' m) (<[id := F]> Fr)
      (<[id := a :: Us id]> Us) Lg ∧
    ∀ size, size_class size = class id → holds size (2 ^ class id) →
      live_inv (set_blocks bs' m) (<[id := a :: Us id]> Us) Lg (<[q := size]> live).
Proof.
  intros Hinv Hlive HF.
  pose proof (ai_pool _ _ _ _ _ Hinv id) as Hpl. pose proof (ai_nodup _ _ _ _ _ Hinv id) as Hnd.
  rewrite HF in Hpl, Hnd. destruct (get_locked_spec _ _ _ _ _ Hpl Hnd) as (p' & bs' & Hg & Hpl' & Hr).
  assert (a ∈ Fr id) as HaF by (rewrite HF; left).
  destruct (ai_block _ _ _ _ _ Hinv id a) as (q & Hq & Hb); [apply elem_of_app; auto|].
  destruct (ti_nonzero _ _ _ (ai_table _ _ _ _ _ Hinv) _ _ _ Hq) as [Ha0 Hq0].
  pose proof Hr as [Hpay _].
  exists p', bs', q. rewrite Hpay. split_and!; [done|done|done| |done|done|done| |].
  - destruct (live !! q) eqn:Hl; [|done]. exfalso.
    destruct (li_used _ _ _ _ Hlive _ _ Hl) as (a' & c & Ha' & Hu & _).
    assert (a' = a) as -> by (by eapply (ti_inj _ _ _ (ai_table _ _ _ _ _ Hinv))).
    by eapply (free_not_used Hinv).
  - eapply alloc_inv_move; [done|done|by rewrite HF|].
    rewrite HF. symmetry. apply Permutation_middle.
  - intros size Hc Hs. eapply live_inv_take; [done|apply used_cons|..];
      cbn [blocks set_blocks buffers]; rewrite ?Hpay, ?Hc; done.
Qed.

(** Putting a used block back: the client gives up its buffer, which heads the
    free list from then on. *)
Lemma inv_put g m Fr Us Lg live id a q :
  alloc_inv g m Fr Us Lg → live_inv m Us Lg live → a ∈ Us id →
  payload m.(blocks) !! a = Some (class id, q) →
  ∃ p' bs' U', allocator_free_block_put_locked (g.(pools) id) a m.(blocks) = Ok (p', bs') ∧
    payload bs' = payload m.(blocks) ∧
    alloc_inv (set_pool id p' g) (set_blocks bs' m) (<[id := a :: Fr id]> Fr)
      (<[id := U']> Us) Lg ∧
    live_inv (set_blocks bs' m) (<[id := U']> Us) Lg (delete q live).
Proof.
  intros Hinv Hlive HaU Hq.
  pose proof (ai_pool _ _ _ _ _ Hinv id) as Hpl. pose proof (ai_nodup _ _ _ _ _ Hinv id) as Hnd.
  destruct (list_elem_of_split _ _ HaU) as (U1 & U2 & HU).
  rewrite HU in Hpl, Hnd. destruct (put_locked_spec _ _ _ _ _ _ Hpl Hnd) as (p' & bs' & Hp & Hpl' & Hr).
  pose proof Hr as [Hpay _].
  assert (alloc_inv (set_pool id p' g) (set_blocks bs' m) (<[id := a :: Fr id]> Fr)
    (<[id := U1 ++ U2]> Us) Lg) as Hinv'.
  { eapply alloc_inv_move; [done|done|by rewrite HU|]. rewrite HU. simpl.
    rewrite app_assoc, Permutation_middle, <- app_assoc. done. }
  assert (∀ x, used (<[id := U1 ++ U2]> Us) Lg x ↔ x ≠ a ∧ used Us Lg x) as Hused.
  { intros x. split.
    - intros Hx. split.
      + intros ->. eapply (free_not_used Hinv' id); [|done]. rewrite fn_lookup_insert. left.
      + destruct Hx as [[id' Hx]|Hx]; [|by right]. left.
        destruct (decide (id' = id)) as [->|Hne].
        * rewrite fn_lookup_insert in Hx. exists id. rewrite HU. set_solver.
        * rewrite fn_lookup_insert_ne in Hx by done. by exists id'.
    - intros [Hne [[id' Hx]|Hx]]; [|by right]. left. exists id'.
      destruct (decide (id' = id)) as [->|Hne'].
      + rewrite fn_lookup_insert. rewrite HU in Hx. set_solver.
      + by rewrite fn_lookup_insert_ne by done. }
  exists p', bs', (U1 ++ U2). split_and!; [done|done|done|].
  eapply live_inv_drop; [done|exact Hused|exact Hq|..]; cbn [blocks set_blocks buffers];
    rewrite ?Hpay; [|done|done].
  intros x t' Hx. by eapply (ti_inj _ _ _ (ai_table _ _ _ _ _ Hinv)).
Qed.

(** The table finds the block that owns a buffer. *)
Lemma find_block_spec g m Fr Us Lg q :
  alloc_inv g m Fr Us Lg →
  match find_block m.(blocks) g.(allocated_blocks) q with
  | Ok (Some a) => ∃ t, payload m.(blocks) !! a = Some (t, q)
  | Ok None => ∀ a t, payload m.(blocks) !! a ≠ Some (t, q)
  | _ => False
  end.
Proof.
  intros Hinv.
  assert (∀ l, (∀ a, a ∈ l → is_Some (payload m.(blocks) !! a)) →
    match find_block m.(blocks) l q with
    | Ok (Some a) => ∃ t, payload m.(blocks) !! a = Some (t, q)
    | Ok None => ∀ a t, a ∈ l → payload m.(blocks) !! a ≠ Some (t, q)
    | _ => False
    end) as Hl.
  { induction l as [|a l IH]; intros Hin; simpl; [intros a t; by rewrite elem_of_nil|].
    destruct (Hin a ltac:(left)) as [[t q'] Ha]. pose proof Ha as (b & Hb & Ht & Hq)%payload_lookup.
    rewrite Hb. simpl. rewrite Hq. case_bool; [subst; eauto|].
    specialize (IH ltac:(intros x Hx; apply Hin; by right)).
    destruct (find_block _ l q) as [[x|]| |]; [done| |done|done].
    intros x t' [->|Hx]%elem_of_cons; [congruence|by apply IH]. }
  specialize (Hl _ (λ a, proj1 (ti_table _ _ _ (ai_table _ _ _ _ _ Hinv) a))).
  destruct (find_block _ _ q) as [[x|]| |]; [done| |done|done].
  intros a t Ha. eapply Hl; [|exact Ha]. apply (ti_table _ _ _ (ai_table _ _ _ _ _ Hinv)). eauto.
Qed.

(** The blocks of the pools when one joins those in use. *)
Lemma pool_blocks_cons (Fr Us : pool_id → list Z) id id' a x :
  x ∈ Fr id' ++ <[id := a :: Us id]> Us id' ↔ (x = a ∧ id' = id) ∨ x ∈ Fr id' ++ Us id'.
Proof.
  destruct (decide (id' = id)) as [->|Hne].
  - rewrite fn_lookup_insert. set_solver.
  - rewrite fn_lookup_insert_ne by done. set_solver.
Qed.

(** A new block of a pool, linked in front of the used ones. *)
Lemma inv_new g m Fr Us Lg live id a q n :
  alloc_inv g m Fr Us Lg → live_inv m Us Lg live →
  a ≠ 0 → q ≠ 0 → m.(blocks) !! a = None → m.(buffers) !! q = None →
  ∃ bs', store_nonnull (set_prev a) (g.(pools) id).(in_use)
           (<[a := Block (class id) q (g.(pools) id).(in_use) 0]> m.(blocks)) = Ok bs' ∧
    let p := g.(pools) id in
    let p' := BlockPool p.(free) p.(free_count) a (u32 (p.(in_use_count) + 1)) in
    let g' := set_allocated (a :: g.(allocated_blocks)) (set_pool id p' g) in
    let m' := Mem bs' (<[q := 2 ^ class id]> m.(buffers)) n in
    alloc_inv g' m' Fr (<[id := a :: Us id]> Us) Lg ∧
    ∀ size, size_class size = class id → holds size (2 ^ class id) →
      live_inv m' (<[id := a :: Us id]> Us) Lg (<[q := size]> live).
Proof.
  intros Hinv Hlive Ha Hq HaN HqN.
  assert (payload m.(blocks) !! a = None) as HaP by (by unfold payload; rewrite lookup_fmap, HaN).
  assert (∀ id', a ∉ Fr id' ++ Us id') as Hnew.
  { intros id' (p & Hp & _)%(ai_block _ _ _ _ _ Hinv). congruence. }
  destruct (pool_new_spec m.(blocks) (g.(pools) id) a
    (Block (class id) q (in_use (g.(pools) id)) 0) (Fr id) (Us id))
    as (bs' & Hst & Hpl & Hpay & Hout); [apply Hinv|apply Hinv|apply Hnew|done|done|done|].
  exists bs'. split; [done|]. cbn zeta. cbn [type ptr] in Hpay. split; [split|];
    cbn [pools set_pool blocks buffers pool_large_in_use_count set_allocated
      allocated_blocks]; rewrite ?Hpay.
  - intros id'. destruct (decide (id' = id)) as [->|Hne]; [by rewrite !fn_lookup_insert|].
    rewrite !fn_lookup_insert_ne by done. eapply pool_lists_frame; [|apply Hinv].
    intros x Hx. apply Hout. intros [->|Hx']%elem_of_cons; [by apply (Hnew id')|].
    apply Hne, (pool_owner Hinv _ _ x); [done|]. apply elem_of_app. by right.
  - intros id'. destruct (decide (id' = id)) as [->|Hne].
    + rewrite fn_lookup_insert, <- Permutation_middle. apply NoDup_cons.
      split; [apply Hnew|apply Hinv].
    + rewrite fn_lookup_insert_ne by done. apply Hinv.
  - intros id' x [[-> ->]|Hx]%pool_blocks_cons; [exists q; by rewrite !lookup_insert_eq|].
    destruct (ai_block _ _ _ _ _ Hinv _ _ Hx) as (p & Hp & Hc). exists p.
    rewrite !lookup_insert_ne; [done|congruence|congruence].
  - intros x Hx. destruct (ai_large _ _ _ _ _ Hinv _ Hx) as (t & p & Hp & Ht & Hc).
    exists t, p. rewrite lookup_insert_ne by congruence. split_and!; [done|done|].
    rewrite lookup_insert_is_Some'. by right.
  - apply Hinv.
  - apply Hinv.
  - intros x t p. rewrite lookup_insert_Some. intros [[<- _]|[_ Hx]].
    + left. exists id. apply pool_blocks_cons. auto.
    + destruct (ai_cover _ _ _ _ _ Hinv _ _ _ Hx) as [[id' Hx']|?]; [|by right].
      left. exists id'. apply pool_blocks_cons. auto.
  - apply table_inv_add; [apply Hinv|done..].
  - intros size Hc Hs. eapply live_inv_take; [done|apply used_cons|..];
      cbn [blocks buffers]; rewrite ?Hpay, ?Hc; try apply lookup_insert_eq.
    + done.
    + intros x Hx. by apply lookup_insert_ne.
    + by apply insert_subseteq.
    + by apply insert_subseteq.
Qed.

(** A large block. *)
Lemma inv_large_new g m Fr Us Lg live a q n size :
  alloc_inv g m Fr Us Lg → live_inv m Us Lg live →
  a ≠ 0 → q ≠ 0 → m.(blocks) !! a = None → m.(buffers) !! q = None →
  19 < size_class size →
  let g' := set_allocated (a :: g.(allocated_blocks))
              (set_large_count (u32 (g.(pool_large_in_use_count) + 1)) g) in
  let m' := Mem (<[a := Block (size_class size) q 0 0]> m.(blocks)) (<[q := size]> m.(buffers)) n in
  alloc_inv g' m' Fr Us (a :: Lg) ∧ live_inv m' Us (a :: Lg) (<[q := size]> live).
Proof.
  intros Hinv Hlive Ha Hq HaN HqN Ht g' m'.
  assert (payload m.(blocks) !! a = None) as HaP by (by unfold payload; rewrite lookup_fmap, HaN).
  assert (payload m'.(blocks) = <[a := (size_class size, q)]> (payload m.(blocks))) as Hpay
    by (cbn [m' blocks]; unfold payload; by rewrite fmap_insert).
  split; [split|]; cbn [g' m' pools set_large_count buffers pool_large_in_use_count
    set_allocated allocated_blocks] in *; rewrite ?Hpay.
  - intros id. eapply pool_lists_frame; [|apply Hinv]. intros x Hx. cbn.
    rewrite lookup_insert_ne; [done|]. intros <-.
    destruct (ai_block _ _ _ _ _ Hinv _ _ Hx) as (p & Hp & _). congruence.
  - apply Hinv.
  - intros id x Hx. destruct (ai_block _ _ _ _ _ Hinv _ _ Hx) as (p & Hp & Hc). exists p.
    rewrite !lookup_insert_ne; [done|congruence|congruence].
  - intros x [->|Hx]%elem_of_cons.
    + exists (size_class size), q. rewrite !lookup_insert_eq. eauto.
    + destruct (ai_large _ _ _ _ _ Hinv _ Hx) as (t & p & Hp & ? & Hc).
      exists t, p. rewrite lookup_insert_ne by congruence. split_and!; [done|done|].
      rewrite lookup_insert_is_Some'. by right.
  - apply NoDup_cons. split; [|apply Hinv].
    intros (t & p & Hp & _)%(ai_large _ _ _ _ _ Hinv). congruence.
  - rewrite (ai_large_count _ _ _ _ _ Hinv). apply u32_succ.
  - intros x t p. rewrite lookup_insert_Some. intros [[<- _]|[_ Hx]]; [right; left|].
    destruct (ai_cover _ _ _ _ _ Hinv _ _ _ Hx); [by left|by right; right].
  - apply table_inv_add; [apply Hinv|done..].
  - eapply (live_inv_take _ _ Us Us Lg (a :: Lg)); [done| |..]; cbn [buffers];
      rewrite ?Hpay; try apply lookup_insert_eq.
    + intros x. unfold used. set_solver.
    + by unfold holds.
    + intros x Hx. by apply lookup_insert_ne.
    + by apply insert_subseteq.
    + by apply insert_subseteq.
Qed.

Lemma inv_large_free g m Fr Us Lg live a t q :
  alloc_inv g m Fr Us Lg → live_inv m Us Lg live →
  payload m.(blocks) !! a = Some (t, q) → 19 < t →
  let g' := set_large_count (u32 (g.(pool_large_in_use_count) - 1))
              (set_allocated (hash_del a g.(allocated_blocks)) g) in
  let m' := kfree_block a (kvfree q m) in
  ∃ Lg', alloc_inv g' m' Fr Us Lg' ∧ live_inv m' Us Lg' (delete q live).
Proof.
  intros Hinv Hlive Ha Ht g' m'. pose proof (ai_table _ _ _ _ _ Hinv) as Hti.
  assert (∀ id, a ∉ Fr id ++ Us id) as Hnp.
  { intros id (p & Hp & _)%(ai_block _ _ _ _ _ Hinv). pose proof (class_range id).
    simplify_eq. lia. }
  assert (a ∈ Lg) as HaL.
  { destruct (ai_cover _ _ _ _ _ Hinv _ _ _ Ha) as [[id Hid]|?]; [by edestruct Hnp|done]. }
  destruct (list_elem_of_split _ _ HaL) as (L1 & L2 & HL).
  pose proof (ai_large_nodup _ _ _ _ _ Hinv) as Hnd.
  rewrite HL, <- Permutation_middle in Hnd. apply NoDup_cons in Hnd as [Hnin Hnd].
  assert (payload m'.(blocks) = delete a (payload m.(blocks))) as Hpay
    by (cbn; unfold payload; by rewrite fmap_delete).
  exists (L1 ++ L2). split; [split|]; cbn [g' m' pools set_large_count buffers
    pool_large_in_use_count set_allocated allocated_blocks kfree_block set_blocks kvfree] in *;
    rewrite ?Hpay.
  - intros id. eapply pool_lists_frame; [|apply Hinv]. intros x Hx. cbn.
    rewrite lookup_delete_ne; [done|]. intros <-. by eapply Hnp.
  - apply Hinv.
  - intros id x Hx. destruct (ai_block _ _ _ _ _ Hinv _ _ Hx) as (p & Hp & Hc). exists p.
    assert (x ≠ a) by (by intros ->; eapply Hnp).
    rewrite !lookup_delete_ne; [done| |done].
    intros <-. by eauto using ti_inj.
  - intros x Hx. assert (x ≠ a ∧ x ∈ Lg) as [Hne HxL] by (rewrite HL; set_solver).
    destruct (ai_large _ _ _ _ _ Hinv _ HxL) as (t' & p & Hp & ? & Hc).
    exists t', p. rewrite !lookup_delete_ne; [done| |done]. intros <-. by eauto using ti_inj.
  - done.
  - rewrite (ai_large_count _ _ _ _ _ Hinv), HL, length_app. simpl.
    rewrite Nat.add_succ_r, length_app. apply u32_pred.
  - intros x t' p. rewrite lookup_delete_Some. intros [Hne Hx].
    destruct (ai_cover _ _ _ _ _ Hinv _ _ _ Hx) as [?|HxL]; [by left|right].
    rewrite HL in HxL. set_solver.
  - by eapply table_inv_remove.
  - eapply live_inv_drop; [done| |exact Ha|..]; cbn [buffers]; rewrite ?Hpay.
    + intros x. unfold used. rewrite HL. split; [|set_solver]. intros [[id Hx]|Hx].
      * split; [|eauto]. intros ->. apply (Hnp id), elem_of_app. auto.
      * split; [set_solver|right; set_solver].
    + intros x t' Hx. by eapply (ti_inj _ _ _ Hti).
    + intros x Hx. by apply lookup_delete_ne.
    + intros p Hp. by apply lookup_delete_ne.
Qed.

Lemma alloc_inv_ext g g' m m' Fr Us Lg :
  alloc_inv g m Fr Us Lg →
  (∀ id, g'.(pools) id = g.(pools) id) →
  g'.(pool_large_in_use_count) = g.(pool_large_in_use_count) →
  g'.(allocated_blocks) = g.(allocated_blocks) →
  m'.(blocks) = m.(blocks) → m'.(buffers) = m.(buffers) →
  alloc_inv g' m' Fr Us Lg.
Proof.
  intros [] Hp Hl Ht Hb Hbu. split; rewrite ?Hl, ?Ht, ?Hb, ?Hbu; try done.
  intros id. by rewrite Hp.
Qed.

Lemma live_inv_ext m m' Us Lg live :
  live_inv m Us Lg live → m'.(blocks) = m.(blocks) → m'.(buffers) = m.(buffers) →
  live_inv m' Us Lg live.
Proof. intros [] Hb Hbu. split; rewrite ?Hb, ?Hbu; done. Qed.

Lemma set_pool_same g id id' : (set_pool id (g.(pools) id) g).(pools) id' = g.(pools) id'.
Proof.
  cbn. destruct (decide (id' = id)) as [->|Hne]; [by rewrite fn_lookup_insert|].
  by rewrite fn_lookup_insert_ne.
Qed.

(** ** The operations keep the invariant *)

(** What a request of [size] bytes may give. *)
Definition allocated (live : gmap Z Z) (size q : Z) (d : device) : Prop :=
  (q = 0 ∧ allocator_inv d live) ∨
  (q ≠ 0 ∧ live !! q = None ∧ allocator_inv d (<[q := size]> live)).

Section Operations.
Context `{kernel_memory_ok}.

Lemma fresh_pair bs bufs n1 n2 a q b :
  malloc bs bufs n1 = Some a → malloc (<[a := b]> bs) bufs n2 = Some q →
  a ≠ 0 ∧ q ≠ 0 ∧ bs !! a = None ∧ bufs !! q = None.
Proof. intros (? & ? & ?)%malloc_fresh (? & ? & ?)%malloc_fresh. auto. Qed.

Lemma not_live m Us Lg live q : live_inv m Us Lg live → m.(buffers) !! q = None → live !! q = None.
Proof.
  intros Hl Hq. destruct (live !! q) eqn:E; [|done].
  destruct (li_used _ _ _ _ Hl _ _ E) as (? & ? & _ & _ & ? & _). congruence.
Qed.

(** Every failure leaves the blocks and the buffers as they were. *)
Lemma allocator_inv_same g g' m m' Fr Us Lg live :
  alloc_inv g m Fr Us Lg → live_inv m Us Lg live →
  (∀ id, g'.(pools) id = g.(pools) id) →
  g'.(pool_large_in_use_count) = g.(pool_large_in_use_count) →
  g'.(allocated_blocks) = g.(allocated_blocks) →
  m'.(blocks) = m.(blocks) → m'.(buffers) = m.(buffers) →
  allocator_inv (Device (Some g') m') live.
Proof.
  intros. exists g', Fr, Us, Lg.
  split_and!; [done|by eapply alloc_inv_ext|by eapply live_inv_ext].
Qed.

Lemma allocate_large g m Fr Us Lg live size :
  alloc_inv g m Fr Us Lg → live_inv m Us Lg live → 19 < size_class size →
  ∃ q d', lwis_allocator_allocate (Some (Device (Some g) m)) size = Ok (q, Some d') ∧
    allocated live size q d'.
Proof.
  intros Hinv Hlive Hl. unfold lwis_allocator_allocate. cbn [mgr dmem].
  destruct (Z.ltb_spec 19 (size_class size)); [|lia].
  unfold kmalloc_block, kvmalloc, next_address.
  destruct (malloc _ _ _) as [a|] eqn:Ha; cbn -[payload].
  2:{ eexists _, _. split; [done|]. left. split; [done|]. by eapply allocator_inv_same. }
  destruct (malloc (<[a:=_]> _) _ _) as [q|] eqn:Hq; cbn -[payload].
  - destruct (fresh_pair _ _ _ _ _ _ _ Ha Hq) as (Ha0 & Hq0 & HaN & HqN).
    eexists _, _. split; [done|]. right. split_and!; [done|by eapply not_live|].
    destruct (inv_large_new g m Fr Us Lg live a q (S (S (ticks m))) size) as [Hi Hv]; try done.
    eexists _, Fr, Us, (a :: Lg).
    cbn [dmem mgr set_blocks blocks buffers ticks]. rewrite insert_insert_eq.
    split_and!; [done|exact Hi|exact Hv].
  - apply malloc_fresh in Ha as (_ & HaN & _). eexists _, _. split; [done|]. left.
    split; [done|]. eapply allocator_inv_same; [done|done|done|done|done|cbn|done].
    by rewrite delete_insert_id.
Qed.

Lemma allocate_new g m Fr Us Lg live size id :
  alloc_inv g m Fr Us Lg → live_inv m Us Lg live →
  size_class size = class id → holds size (2 ^ class id) → Fr id = [] →
  ∃ q d', lwis_allocator_allocate (Some (Device (Some g) m)) size = Ok (q, Some d') ∧
    allocated live size q d' ∧ (q ≠ 0 → d'.(dmem).(buffers) !! q = Some (2 ^ class id)).
Proof.
  intros Hinv Hlive Hc Hs HF. unfold lwis_allocator_allocate. cbn [mgr dmem].
  pose proof (class_range id). destruct (Z.ltb_spec 19 (size_class size)); [lia|].
  rewrite Hc, get_block_pool_class.
  pose proof (ai_pool _ _ _ _ _ Hinv id) as Hpl. rewrite HF in Hpl.
  rewrite (get_locked_empty _ _ _ Hpl). cbn [mbind outcome_bind].
  rewrite (Z.eqb_refl 0 : (0 =? 0) = true). cbn [negb].
  unfold kmalloc_block, kvmalloc, next_address.
  cbn [set_blocks blocks buffers ticks].
  destruct (malloc _ _ _) as [a|] eqn:Ha; cbn [blocks buffers ticks set_blocks].
  2:{ eexists _, _. split; [done|]. split; [left; split; [done|]|done].
      by eapply allocator_inv_same; [..|apply set_pool_same| | | |]. }
  destruct (malloc (<[a:=_]> _) _ _) as [q|] eqn:Hq; cbn [blocks buffers ticks set_blocks].
  - destruct (fresh_pair _ _ _ _ _ _ _ Ha Hq) as (Ha0 & Hq0 & HaN & HqN).
    destruct (inv_new g m Fr Us Lg live id a q (S (S (ticks m))))
      as (bs' & Hst & Hi & Hv); try done.
    rewrite insert_insert_eq, !set_pool_same, Hst. cbn [mbind outcome_bind].
    rewrite Z.shiftl_1_l. eexists _, _. split; [done|].
    split; [right; split_and!; [done|by eapply not_live|]|intros _; apply lookup_insert_eq].
    eexists _, Fr, _, Lg. split_and!; [done| |by apply Hv].
    eapply alloc_inv_ext; [exact Hi|..]; try done. intros id'. cbn.
    destruct (decide (id' = id)) as [->|Hne]; [by rewrite !fn_lookup_insert|].
    by rewrite !fn_lookup_insert_ne.
  - apply malloc_fresh in Ha as (_ & HaN & _). eexists _, _. split; [done|].
    split; [left; split; [done|]|done].
    eapply allocator_inv_same; [done|done|apply set_pool_same|done|done|cbn|done].
    by rewrite delete_insert_id.
Qed.

Lemma allocate_recycled g m Fr Us Lg live size id a F q :
  alloc_inv g m Fr Us Lg → live_inv m Us Lg live →
  size_class size = class id → holds size (2 ^ class id) → Fr id = a :: F →
  payload m.(blocks) !! a = Some (class id, q) →
  ∃ d', lwis_allocator_allocate (Some (Device (Some g) m)) size = Ok (q, Some d') ∧
    allocated live size q d' ∧ d'.(dmem).(buffers) !! q = Some (2 ^ class id).
Proof.
  intros Hinv Hlive Hc Hs HF Hqa. unfold lwis_allocator_allocate. cbn [mgr dmem].
  pose proof (class_range id). destruct (Z.ltb_spec 19 (size_class size)); [lia|].
  destruct (inv_get _ _ _ _ _ _ id a F Hinv Hlive HF)
    as (p' & bs' & q' & Hget & Hpay & Hq & Hlq & Hb & Hq0 & Ha0 & Hi & Hv).
  assert (q' = q) as -> by congruence.
  rewrite Hc, get_block_pool_class, Hget. cbn [mbind outcome_bind].
  case_bool; [done|]. cbn [negb].
  apply payload_lookup in Hq as (b & Hba & Ht & Hp). rewrite Hba. cbn [must mbind outcome_bind].
  rewrite Hp. eexists. split; [done|]. split; [right; split_and!; [done|done|]|done].
  eexists _, _, _, _. split_and!; [done|exact Hi|by apply Hv].
Qed.

Lemma allocate_inv d live size :
  allocator_inv d live → 0 < size →
  ∃ q d', lwis_allocator_allocate (Some d) size = Ok (q, Some d') ∧ allocated live size q d'.
Proof.
  intros (g & Fr & Us & Lg & Hg & Hinv & Hlive) [Hrange Hcap]%size_class_spec.
  destruct d as [mg m]. cbn [mgr dmem] in *. subst mg.
  destruct (Z.ltb_spec 19 (size_class size)); [by eapply allocate_large|].
  destruct (get_block_pool_total (size_class size)) as (id & _ & Hc); [lia|].
  rewrite <- Hc in Hcap. destruct (Fr id) as [|a F] eqn:HF.
  - destruct (allocate_new g m Fr Us Lg live size id) as (q & d' & ? & ? & _); eauto.
  - destruct (ai_block _ _ _ _ _ Hinv id a) as (q & Hq & _); [rewrite HF; left|].
    destruct (allocate_recycled g m Fr Us Lg live size id a F q) as (d' & ? & ? & _); eauto.
Qed.
End Operations.

(** Freeing a live buffer; one of a recycled class then heads its free list. *)
Lemma free_inv d live p size :
  allocator_inv d live → live !! p = Some size →
  ∃ g m Fr Us Lg, lwis_allocator_free (Some d) p = Ok (Some (Device (Some g) m)) ∧
    alloc_inv g m Fr Us Lg ∧ live_inv m Us Lg (delete p live) ∧
    ∀ id, class id = size_class size →
      ∃ a F, Fr id = a :: F ∧ payload m.(blocks) !! a = Some (class id, p).
Proof.
  intros (g & Fr & Us & Lg & Hg & Hinv & Hlive) Hp.
  destruct d as [mg m]. cbn [mgr dmem] in *. subst mg.
  pose proof (ai_table _ _ _ _ _ Hinv) as Hti.
  destruct (li_used _ _ _ _ Hlive _ _ Hp) as (a & c & Ha & Hua & _).
  unfold lwis_allocator_free. cbn [mgr dmem].
  destruct (ti_nonzero _ _ _ Hti _ _ _ Ha) as [_ Hp0]. case_bool; [done|].
  pose proof (find_block_spec _ _ _ _ _ p Hinv) as Hfind.
  destruct (find_block _ _ p) as [[x|]| |]; [|by edestruct Hfind|done|done].
  destruct Hfind as [t Hx]. assert (x = a) as -> by (by eapply (ti_inj _ _ _ Hti)).
  pose proof Ha as (b & Hb & Ht & Hq)%payload_lookup.
  cbn [mbind outcome_bind]. rewrite Hb. cbn [must mbind outcome_bind]. rewrite Ht, Hq.
  destruct (Z.ltb_spec 19 (size_class size)) as [Hl|Hl].
  - destruct (inv_large_free _ _ _ _ _ _ _ _ _ Hinv Hlive Ha Hl) as (Lg' & Hi & Hv).
    eexists _, _, Fr, Us, Lg'. split_and!; [done|exact Hi|exact Hv|].
    intros id Hid. pose proof (class_range id). lia.
  - assert (∃ id, a ∈ Us id) as [id Hid].
    { destruct Hua as [?|HL]; [done|]. exfalso.
      destruct (ai_large _ _ _ _ _ Hinv _ HL) as (t' & q' & Ha' & Ht' & _).
      rewrite Ha' in Ha. simplify_eq. lia. }
    assert (size_class size = class id) as Hc.
    { destruct (ai_block _ _ _ _ _ Hinv id a) as (q' & Ha' & _); [apply elem_of_app; auto|].
      congruence. }
    rewrite Hc in Ha |- *. rewrite get_block_pool_class.
    destruct (inv_put _ _ _ _ _ _ _ _ _ Hinv Hlive Hid Ha) as (p' & bs' & U' & Hput & Hpay & Hi & Hv).
    rewrite Hput. eexists _, _, _, _, _. split_and!; [done|exact Hi|exact Hv|].
    intros id' ->%class_inj. exists a, (Fr id). rewrite fn_lookup_insert.
    cbn [blocks set_blocks]. by rewrite Hpay.
Qed.

(** ** Releasing the pools *)

(** One turn of the loop frees the head of the free list. *)
Lemma inv_free_head g m Fr Us Lg live id a F b :
  alloc_inv g m Fr Us Lg → live_inv m Us Lg live → Fr id = a :: F →
  m.(blocks) !! a = Some b →
  ∃ bs', store_nonnull (set_prev 0) b.(next) m.(blocks) = Ok bs' ∧
    let p := g.(pools) id in
    let p' := BlockPool b.(next) (u32 (p.(free_count) - 1)) p.(in_use) p.(in_use_count) in
    let g' := set_allocated (hash_del a g.(allocated_blocks)) (set_pool id p' g) in
    let m' := kfree_block a (kvfree b.(ptr) (set_blocks bs' m)) in
    p.(free) = a ∧ alloc_inv g' m' (<[id := F]> Fr) Us Lg ∧ live_inv m' Us Lg live.
Proof.
  intros Hinv Hlive HF Hb. pose proof (ai_table _ _ _ _ _ Hinv) as Hti.
  pose proof (ai_pool _ _ _ _ _ Hinv id) as [Hf Hu Hfc Huc].
  pose proof (ai_nodup _ _ _ _ _ Hinv id) as Hnd. rewrite HF in Hf, Hnd, Hfc.
  pose proof Hnd as (HndF & Hd & HndU)%NoDup_app.
  pose proof HndF as [HaF HndF']%NoDup_cons.
  destruct (dll_pop _ _ _ _ Hf HndF) as (b' & bs' & Hb' & Hst & HF' & Hba & [Hpay Hr]).
  assert (b' = b) as -> by congruence.
  apply dll_cons in Hf as (Hfree & Ha0 & _).
  assert (a ∈ Fr id) as HaFr by (rewrite HF; left).
  assert (a ∈ Fr id ++ Us id) as HaP by (apply elem_of_app; auto).
  assert (payload m.(blocks) !! a = Some (type b, ptr b)) as Hpa
    by (apply payload_lookup; eauto).
  exists bs'. split; [done|]. cbn zeta. split; [done|].
  set (m' := kfree_block _ _).
  assert (payload m'.(blocks) = delete a (payload m.(blocks))) as Hpay'
    by (rewrite <- Hpay; cbn; unfold payload; by rewrite fmap_delete).
  assert (∀ id' x, x ∈ <[id:=F]> Fr id' ++ Us id' ↔ x ≠ a ∧ x ∈ Fr id' ++ Us id') as Hin.
  { intros id' x. destruct (decide (id' = id)) as [->|Hne].
    - rewrite fn_lookup_insert, HF. assert (a ∉ Us id) by (apply Hd; left). set_solver.
    - rewrite fn_lookup_insert_ne by done. split; [|by intros []]. intros Hx. split; [|done].
      intros ->. by apply Hne, (pool_owner Hinv _ _ a). }
  split; [split|]; cbn [m' pools set_pool buffers kfree_block set_blocks kvfree
    pool_large_in_use_count set_allocated allocated_blocks]; rewrite ?Hpay'.
  - intros id'. destruct (decide (id' = id)) as [->|Hne].
    + rewrite !fn_lookup_insert. split; cbn; [| |rewrite Hfc; apply u32_pred|done].
      * eapply dll_frame; [|exact HF']. intros x Hx. apply lookup_delete_ne. by intros <-.
      * eapply dll_frame; [|exact Hu]. intros x Hx. rewrite lookup_delete_ne.
        -- apply Hr. intros HxF. apply (Hd x); [by right|done].
        -- intros <-. by apply (Hd a); [left|].
    + rewrite !fn_lookup_insert_ne by done. eapply pool_lists_frame; [|apply Hinv].
      intros x Hx. cbn. rewrite lookup_delete_ne.
      * apply Hr. intros HxF. apply Hne, (pool_owner Hinv _ _ x); [done|].
        rewrite HF. apply elem_of_app. left. by right.
      * intros <-. by apply Hne, (pool_owner Hinv _ _ a).
  - intros id'. destruct (decide (id' = id)) as [->|Hne].
    + rewrite fn_lookup_insert. by apply NoDup_cons in Hnd as [_ ?].
    + rewrite fn_lookup_insert_ne by done. apply Hinv.
  - intros id' x [Hne Hx]%Hin. destruct (ai_block _ _ _ _ _ Hinv _ _ Hx) as (p & Hp & Hc).
    exists p. rewrite !lookup_delete_ne; [done| |done]. intros <-. by eauto using ti_inj.
  - intros x Hx. destruct (ai_large _ _ _ _ _ Hinv _ Hx) as (t' & p & Hp & ? & Hc).
    assert (x ≠ a) by (intros ->; by apply (pool_not_large Hinv id a)).
    exists t', p. rewrite !lookup_delete_ne; [done| |done]. intros <-. by eauto using ti_inj.
  - apply Hinv.
  - apply Hinv.
  - intros x t' p. rewrite lookup_delete_Some. intros [Hne Hx].
    destruct (ai_cover _ _ _ _ _ Hinv _ _ _ Hx) as [[id' Hx']|?]; [left|by right].
    exists id'. by apply Hin.
  - by eapply table_inv_remove.
  - assert (live = delete (ptr b) live) as ->.
    { rewrite delete_id; [done|]. destruct (live !! ptr b) eqn:E; [|done]. exfalso.
      destruct (li_used _ _ _ _ Hlive _ _ E) as (x & c & Hx & Hux & _).
      assert (x = a) as -> by (by eapply (ti_inj _ _ _ Hti)).
      by eapply (free_not_used Hinv). }
    eapply live_inv_drop; [done| |exact Hpa|..]; cbn [buffers]; rewrite ?Hpay'.
    + intros x. split; [|by intros []]. intros Hx. split; [|done]. intros ->.
      by eapply (free_not_used Hinv).
    + intros x t' Hx. by eapply (ti_inj _ _ _ Hti).
    + intros x Hx. by apply lookup_delete_ne.
    + intros p Hp. by apply lookup_delete_ne.
Qed.

Lemma pool_free_inv fuel id g m Fr Us Lg live :
  alloc_inv g m Fr Us Lg → live_inv m Us Lg live → (length (Fr id) ≤ fuel)%nat →
  ∃ g' m' Fr', allocator_block_pool_free_locked fuel id g m = Ok (g', m') ∧
    alloc_inv g' m' Fr' Us Lg ∧ live_inv m' Us Lg live ∧ Fr' id = [] ∧
    ∀ id', (length (Fr' id') ≤ length (Fr id'))%nat.
Proof.
  revert g m Fr. induction fuel as [|fuel IH]; intros g m Fr Hinv Hlive Hlen.
  - destruct (Fr id) as [|a F] eqn:HF; [|simpl in Hlen; lia].
    pose proof (ai_pool _ _ _ _ _ Hinv id) as [Hf _ _ _]. rewrite HF in Hf.
    destruct (dll_head _ _ _ Hf) as [[H0 _]|[_ [l' H0]]]; [|done]. cbn.
    rewrite H0. exists g, m, Fr. done.
  - pose proof (ai_pool _ _ _ _ _ Hinv id) as [Hf _ _ _]. cbn.
    destruct (Fr id) as [|a F] eqn:HF.
    { destruct (dll_head _ _ _ Hf) as [[H0 _]|[_ [l' H0]]]; [|done].
      rewrite H0. exists g, m, Fr. done. }
    apply dll_cons in Hf as (Hh & Ha & b & _ & Hb & _).
    destruct (inv_free_head _ _ _ _ _ _ _ _ _ _ Hinv Hlive HF Hb) as (bs' & Hst & _ & Hi & Hv).
    rewrite Hh. case_bool; [done|]. rewrite Hb. cbn [must mbind outcome_bind].
    rewrite Hst. cbn [mbind outcome_bind].
    destruct (IH _ _ _ Hi Hv) as (g' & m' & Fr' & Hrun & Hi' & Hv' & H0 & Hle).
    { rewrite fn_lookup_insert. simpl in Hlen. lia. }
    exists g', m', Fr'. split_and!; [exact Hrun|done..|].
    intros id'. etrans; [apply Hle|]. destruct (decide (id' = id)) as [->|Hne].
    + rewrite fn_lookup_insert, HF. simpl. lia.
    + by rewrite fn_lookup_insert_ne.
Qed.

Lemma free_blocks_bound g m Fr Us Lg id :
  alloc_inv g m Fr Us Lg → (length (Fr id) ≤ size m.(blocks))%nat.
Proof.
  intros Hinv. rewrite <- size_dom.
  pose proof (ai_nodup _ _ _ _ _ Hinv id) as (Hnd & _ & _)%NoDup_app.
  rewrite <- (size_list_to_set (C := gset Z) (Fr id)) by done.
  apply subseteq_size. intros a Ha%elem_of_list_to_set.
  destruct (ai_block _ _ _ _ _ Hinv id a) as (p & (b & Hb & _)%payload_lookup & _);
    [apply elem_of_app; auto|]. apply elem_of_dom. eauto.
Qed.

Lemma release_pools_inv fuel ids g m Fr Us Lg live :
  alloc_inv g m Fr Us Lg → live_inv m Us Lg live → (∀ id, (length (Fr id) ≤ fuel)%nat) →
  ∃ g' m' Fr', release_pools fuel ids g m = Ok (g', m') ∧
    alloc_inv g' m' Fr' Us Lg ∧ live_inv m' Us Lg live ∧
    (∀ id, id ∈ ids → Fr' id = []) ∧ ∀ id, (length (Fr' id) ≤ length (Fr id))%nat.
Proof.
  revert g m Fr. induction ids as [|id ids IH]; intros g m Fr Hinv Hlive Hlen; cbn.
  - exists g, m, Fr. split_and!; try done. by intros id ?%elem_of_nil.
  - destruct (pool_free_inv fuel id g m Fr Us Lg live Hinv Hlive (Hlen id))
      as (g1 & m1 & Fr1 & Hrun & Hi & Hv & H0 & Hle). rewrite Hrun. cbn [mbind outcome_bind].
    destruct (IH g1 m1 Fr1 Hi Hv) as (g2 & m2 & Fr2 & Hrun2 & Hi2 & Hv2 & H02 & Hle2).
    { intros id'. etrans; [apply Hle|apply Hlen]. }
    exists g2, m2, Fr2. split_and!; [exact Hrun2|done|done| |].
    + intros id' [->|Hid]%elem_of_cons; [|by apply H02].
      apply nil_length_inv. pose proof (Hle2 id) as Hl. rewrite H0 in Hl. simpl in Hl. lia.
    + intros id'. etrans; [apply Hle2|apply Hle].
Qed.

Lemma elem_of_pool_ids id : id ∈ pool_ids.
Proof. unfold pool_ids. destruct id; set_solver. Qed.

(** A request depends on its size by its class only, if that is recycled. *)
Lemma allocate_class `{kernel_memory} d size size' :
  size_class size = size_class size' → size_class size <= 19 →
  lwis_allocator_allocate (Some d) size = lwis_allocator_allocate (Some d) size'.
Proof.
  intros He Hl. unfold lwis_allocator_allocate. destruct (mgr d) as [g|]; [|done].
  rewrite <- He. by replace (19 <? size_class size) with false by lia.
Qed.

(** ** The clients

    The devices a client reaches by calls of the interface, with the buffers it
    holds and the sizes it asked for. *)
Inductive client `{kernel_memory} : device → gmap Z Z → Prop :=
| client_init d d' :
    d.(mgr) = None → d.(dmem).(blocks) = ∅ → d.(dmem).(buffers) = ∅ →
    lwis_allocator_init (Some d) = (0, Some d') → client d' ∅
| client_open d live d' :
    client d live → lwis_allocator_init (Some d) = (0, Some d') → client d' live
| client_close d live d' g :
    client d live → lwis_allocator_release (Some d) = Ok (Some d') → d'.(mgr) = Some g →
    client d' live
| client_allocate d live size q d' :
    client d live → 0 < size →
    lwis_allocator_allocate (Some d) size = Ok (q, Some d') →
    client d' (if q =? 0 then live else <[q := size]> live)
| client_free d live p d' :
    client d live → is_Some (live !! p) → lwis_allocator_free (Some d) p = Ok (Some d') →
    client d' (delete p live).

Lemma pool_lists_empty bs : pool_lists bs empty_pool [] [].
Proof. split; try done; apply dll_nil. Qed.

Lemma alloc_inv_empty n : alloc_inv (BlockMgr (λ _, empty_pool) 0 [] 1) (Mem ∅ ∅ n)
  (λ _, []) (λ _, []) [].
Proof.
  assert (table_inv [] (payload ∅) ∅) as Hti.
  { unfold payload. rewrite fmap_empty. split; [by apply NoDup_nil|..];
      intros *; rewrite ?lookup_empty, ?elem_of_nil; try done; by split; [|intros []]. }
  split; cbn [blocks buffers pools allocated_blocks pool_large_in_use_count].
  - intros _. apply pool_lists_empty.
  - intros _. by apply NoDup_nil.
  - by intros id a ?%elem_of_nil.
  - by intros a ?%elem_of_nil.
  - by apply NoDup_nil.
  - done.
  - intros a t p. unfold payload. by rewrite fmap_empty, lookup_empty.
  - exact Hti.
Qed.

Lemma init_inv `{kernel_memory} d live d' :
  allocator_inv d live → lwis_allocator_init (Some d) = (0, Some d') → allocator_inv d' live.
Proof.
  intros (g & Fr & Us & Lg & Hg & Hinv & Hlive). unfold lwis_allocator_init. rewrite Hg.
  intros [= <-]. by eapply allocator_inv_same.
Qed.

Lemma close_inv d live d' g :
  allocator_inv d live → lwis_allocator_release (Some d) = Ok (Some d') → d'.(mgr) = Some g →
  allocator_inv d' live.
Proof.
  intros (g' & Fr & Us & Lg & Hg & Hinv & Hlive). unfold lwis_allocator_release. rewrite Hg.
  cbn zeta. case_bool.
  - intros [= <-] _. by eapply allocator_inv_same.
  - rewrite outcome_bind_Ok. intros ([g1 m1] & _ & [= <-]). done.
Qed.

Lemma client_inv `{kernel_memory_ok} d live : client d live → allocator_inv d live.
Proof.
  induction 1 as [[mg [bs bu n]] d' Hm Hb Hbu Hi|d live d' _ IH Hi|d live d' g _ IH Hr Hg
    |d live size q d' _ IH Hs Ha|d live p d' _ IH [size Hp] Hf].
  - cbn in *. subst. cbn in Hi. unfold next_address in Hi. cbn in Hi.
    destruct (malloc ∅ ∅ n); [|done]. injection Hi as <-.
    eexists _, (λ _, []), (λ _, []), []. split_and!; [done|apply alloc_inv_empty|].
    split; cbn; [done|]. intros a t p. unfold payload. by rewrite fmap_empty, lookup_empty.
  - by eapply init_inv.
  - by eapply close_inv.
  - destruct (allocate_inv _ _ _ IH Hs) as (q' & d'' & Ha' & Hal).
    rewrite Ha' in Ha. injection Ha as -> ->.
    destruct Hal as [[-> ?]|(Hq & _ & ?)]; [done|]. case_bool; done.
  - destruct (free_inv _ _ _ _ IH Hp) as (g & m & Fr & Us & Lg & Hf' & Hi & Hv & _).
    rewrite Hf' in Hf. injection Hf as <-. by exists g, Fr, Us, Lg.
Qed.

(** ** The properties *)

(** C11: Over any sequence of opens, closes, allocations of any size but zero and frees
    of live buffers, the allocator implements allocation of fresh buffers: no
    call touches memory it must not; what an allocation returns is NULL or a
    buffer nobody else holds; every live buffer is at least as large as what was
    asked for, if that was 4 GB at most (above, see [lwis_allocator_truncates]); a live buffer can be freed, and freeing a pointer that is not a
    buffer changes nothing. *)
Theorem lwis_allocator_safe `{kernel_memory_ok} d live :
  client d live →
  (∀ p size, live !! p = Some size →
     ∃ c, d.(dmem).(buffers) !! p = Some c ∧ (size <= 2 ^ 32 → size <= c)) ∧
  (∀ size, 0 < size →
     ∃ q d', lwis_allocator_allocate (Some d) size = Ok (q, Some d') ∧
       (q ≠ 0 → live !! q = None)) ∧
  (∀ p, is_Some (live !! p) → ∃ d', lwis_allocator_free (Some d) p = Ok (Some d')) ∧
  (∀ p, d.(dmem).(buffers) !! p = None → lwis_allocator_free (Some d) p = Ok (Some d)).
Proof.
  intros Hinv%client_inv. split_and!.
  - destruct Hinv as (g & Fr & Us & Lg & _ & _ & Hlive). intros p size Hp.
    destruct (li_used _ _ _ _ Hlive _ _ Hp) as (a & c & _ & _ & ? & ?). eauto.
  - intros size Hs. destruct (allocate_inv _ _ _ Hinv Hs) as (q & d' & Ha & Hal).
    exists q, d'. split; [done|]. by destruct Hal as [[-> _]|(_ & ? & _)].
  - intros p [size Hp]. destruct (free_inv _ _ _ _ Hinv Hp) as (g & m & _ & _ & _ & Hf & _). eauto.
  - destruct Hinv as (g & Fr & Us & Lg & Hg & Hinv & _). intros p Hp.
    destruct d as [mg m]. cbn in *. subst mg. case_bool; [done|].
    pose proof (find_block_spec _ _ _ _ _ p Hinv) as Hfind.
    destruct (find_block _ _ p) as [[x|]| |]; [|done|done|done].
    destruct Hfind as [t Hx]. apply (ti_owns _ _ _ (ai_table _ _ _ _ _ Hinv)) in Hx as [c Hc].
    congruence.
Qed.

(** C39: Recycling: once a buffer of at most 512 kB is freed, the next request of
    its class succeeds and returns that very buffer, whatever memory the kernel
    has left. *)
Theorem lwis_allocator_recycles `{kernel_memory_ok} d live p size d' :
  client d live → live !! p = Some size → size_class size <= 19 →
  lwis_allocator_free (Some d) p = Ok (Some d') →
  ∀ (k' : kernel_memory) size', size_class size' = size_class size →
    ∃ d'', @lwis_allocator_allocate k' (Some d') size' = Ok (p, Some d'').
Proof.
  intros Hinv%client_inv Hp Hc Hf k' size' Hc'.
  destruct (free_inv _ _ _ _ Hinv Hp) as (g & m & Fr & Us & Lg & Hf' & Hi & Hv & Hhead).
  rewrite Hf' in Hf. injection Hf as <-.
  destruct (get_block_pool_total (size_class size)) as (id & _ & Hid).
  { unfold size_class in *. revert Hc. case_bool; lia. }
  destruct (Hhead id Hid) as (a & F & HF & Ha).
  rewrite (allocate_class _ size' (2 ^ class id)) by (rewrite ?size_class_pow; lia).
  destruct (allocate_recycled g m Fr Us Lg (delete p live) (2 ^ class id) id a F p)
    as (d'' & Hal & _); try done; [by destruct id|by unfold holds|]. eauto.
Qed.

(** Releasing the last reference: the loops over the free lists end, the
    manager is gone, and the buffers that remain allocated are exactly those
    still held (which nothing can free any more). *)
Theorem lwis_allocator_release_frees `{kernel_memory_ok} d live g :
  client d live → d.(mgr) = Some g → g.(ref_count) = 1 →
  ∃ m, lwis_allocator_release (Some d) = Ok (Some (Device None m)) ∧
    (∀ p, is_Some (m.(buffers) !! p) ↔ is_Some (live !! p)) ∧
    ∀ p, lwis_allocator_free (Some (Device None m)) p = Ok (Some (Device None m)).
Proof.
  intros (g' & Fr & Us & Lg & Hg' & Hinv & Hlive)%client_inv Hg Hr.
  assert (g' = g) as -> by congruence.
  destruct (release_pools_inv (base.size d.(dmem).(blocks)) pool_ids
    (set_ref_count (s32 (ref_count g - 1)) g) d.(dmem) Fr Us Lg live)
    as (g1 & m & Fr' & Hrun & Hi & Hv & H0 & _); [by eapply alloc_inv_ext|done| |].
  { intros id. by eapply free_blocks_bound. }
  exists m. unfold lwis_allocator_release. rewrite Hg. cbn zeta. cbn [ref_count set_ref_count].
  rewrite Hr in *. rewrite Hrun. split_and!; [done| |intros p; cbn; by case_bool].
  intros p. split.
  - intros (a & t & Ha)%(ti_owned _ _ _ (ai_table _ _ _ _ _ Hi)).
    eapply (li_live _ _ _ _ Hv); [exact Ha|].
    destruct (ai_cover _ _ _ _ _ Hi _ _ _ Ha) as [[id Hid]|?]; [|by right].
    left. exists id. by rewrite H0 in Hid by apply elem_of_pool_ids.
  - intros [s Hs]. destruct (li_used _ _ _ _ Hv _ _ Hs) as (a & c & _ & _ & ? & _). eauto.
Qed.

(** A request just above 4 GB is served, if at all, with a buffer of 4 kB:
    the size is cut to 32 bits before its class is computed. *)
Theorem lwis_allocator_truncates `{kernel_memory_ok} d live size q d' :
  client d live → 2 ^ 32 < size <= 2 ^ 32 + 4096 →
  lwis_allocator_allocate (Some d) size = Ok (q, Some d') → q ≠ 0 →
  d'.(dmem).(buffers) !! q = Some 4096.
Proof.
  intros (g & Fr & Us & Lg & Hg & Hinv & Hlive)%client_inv Hs.
  assert (size_class size = 12) as Hc.
  { unfold size_class, u32. rewrite <- (Z.mod_unique (size - 1) (2 ^ 32) 1 (size - 1 - 2 ^ 32)) by lia.
    unfold fls. case_bool; [done|]. pose proof (Z.log2_lt_pow2 (size - 1 - 2 ^ 32) 12).
    case_bool; lia. }
  rewrite (allocate_class _ size 4096) by (rewrite Hc; done). intros Ha Hq.
  destruct d as [mg m]. cbn [mgr dmem] in *. subst mg.
  destruct (Fr pool_4k) as [|a F] eqn:HF.
  - destruct (allocate_new g m Fr Us Lg live 4096 pool_4k) as (q' & d'' & Ha' & _ & Hb); try done.
    rewrite Ha in Ha'. injection Ha' as <- <-. by apply Hb.
  - destruct (ai_block _ _ _ _ _ Hinv pool_4k a) as (p & Hp & _); [rewrite HF; left|].
    destruct (allocate_recycled g m Fr Us Lg live 4096 pool_4k a F p) as (d'' & Ha' & _ & Hb); try done.
    rewrite Ha in Ha'. injection Ha' as <- <-. done.
Qed.

(** ** Witnesses *)

(** A kernel that hands out addresses in turn. *)
#[local] Instance bump_memory : kernel_memory := {|
  malloc bs bufs n :=
    let a := 65536 * (Z.of_nat n + 1) in
    if decide (bs !! a = None ∧ bufs !! a = None) then Some a else None
|}.

#[local] Instance bump_memory_ok : kernel_memory_ok bump_memory.
Proof. split. cbn. intros bs bufs n a. destruct (decide _) as [[]|]; [|done]. intros [= <-]. split; [lia|done]. Qed.

(** The device after its first open, and after a request of [size] bytes. *)
Definition opened : device :=
  Device (Some (BlockMgr (λ _, empty_pool) 0 [] 1)) (Mem ∅ ∅ 1).

Definition after_request (size : Z) : Z * device :=
  match lwis_allocator_allocate (Some opened) size with
  | Ok (q, Some d) => (q, d)
  | _ => (0, opened)
  end.

Lemma client_opened : client opened ∅.
Proof. by apply (client_init (Device None (Mem ∅ ∅ 0))). Defined.

Lemma client_after_request : client (after_request 100).2 {[196608 := 100]}.
Proof. apply (client_allocate opened ∅ 100 196608); [apply client_opened|lia|reflexivity]. Defined.

Lemma lwis_allocator_safe_witness :
  ∃ d', lwis_allocator_free (Some (after_request 100).2) 196608 = Ok (Some d').
Proof.
  apply (lwis_allocator_safe _ _ client_after_request). by eexists.
Defined.

Lemma lwis_allocator_recycles_witness :
  ∃ d d', lwis_allocator_free (Some (after_request 100).2) 196608 = Ok (Some d) ∧
    @lwis_allocator_allocate {| malloc _ _ _ := None |} (Some d) 4000 = Ok (196608, Some d').
Proof.
  eexists. 
  destruct (lwis_allocator_recycles (after_request 100).2 {[196608 := 100]} 196608 100 _
    client_after_request eq_refl ltac:(by vm_compute) eq_refl {| malloc _ _ _ := None |} 4000
    eq_refl) as [d' H].
  exists d'. split; [reflexivity|exact H].
Defined.

Lemma lwis_allocator_release_frees_witness :
  ∃ m, lwis_allocator_release (Some (after_request 100).2) = Ok (Some (Device None m)) ∧
    is_Some (m.(buffers) !! 196608).
Proof.
  destruct (lwis_allocator_release_frees (after_request 100).2 {[196608 := 100]} _
    client_after_request eq_refl eq_refl) as (m & Hr & Hb & _).
  exists m. split; [exact Hr|]. apply Hb. by eexists.
Defined.

Lemma lwis_allocator_truncates_witness :
  (after_request (2 ^ 32 + 1)).2.(dmem).(buffers) !! 196608 = Some 4096.
Proof.
  apply (lwis_allocator_truncates opened ∅ (2 ^ 32 + 1)); [apply client_opened|lia|reflexivity|done].
Defined.
