(* ===== verification/LwisIoEntry.v ===== *)
(** * LWIS: I/O entries

    Model of [google-modules/lwis/lwis_io_entry.c], of the entries of
    [lwis_commands.h] and of [lwis_device_single_register_read]
    ([lwis_util.c]).  A device is its state [D] with the operations of its
    [vops] table, the interface every kind of device (registers, I2C, SPI)
    fills in; the clock and the sleeps are operations on the same state. *)

From S2P Require Import Prelude.

(** [struct lwis_io_entry]: the tag and the fields of its union. *)
Inductive io_entry :=
| LWIS_IO_ENTRY_READ (bid offset : Z)
| LWIS_IO_ENTRY_READ_BATCH (bid offset size_in_bytes : Z)
| LWIS_IO_ENTRY_WRITE (bid offset val : Z)
| LWIS_IO_ENTRY_WRITE_BATCH (bid offset size_in_bytes buf : Z)
| LWIS_IO_ENTRY_MODIFY (bid offset val val_mask : Z)
| LWIS_IO_ENTRY_POLL (bid offset val mask timeout_ms : Z)
| LWIS_IO_ENTRY_READ_ASSERT (bid offset val mask timeout_ms : Z)
| LWIS_IO_ENTRY_POLL_SHORT (bid offset val mask timeout_ms : Z)
| LWIS_IO_ENTRY_WAIT (wait_us : Z)
| LWIS_IO_ENTRY_WRITE_TO_BUFFER (buffer offset size_in_bytes : Z) (bytes : list Z)
| LWIS_IO_ENTRY_READ_V2 (bid offset speed_hz : Z)
| LWIS_IO_ENTRY_READ_BATCH_V2 (bid offset size_in_bytes speed_hz : Z)
| LWIS_IO_ENTRY_WRITE_V2 (bid offset val speed_hz : Z)
| LWIS_IO_ENTRY_WRITE_BATCH_V2 (bid offset size_in_bytes buf speed_hz : Z)
| LWIS_IO_ENTRY_IGNORE
| LWIS_IO_ENTRY_OTHER (type : Z).

(** What a device answers: 0 or an error, and the bytes it read (the value of a
    register, least significant byte first, or those of a batch). *)
Record io_reply := IoReply { io_ret : Z; io_bytes : list Z }.

(** The operations of a device, each with the size of a register in bits. *)
Class lwis_vops (D : Type) := {
  register_io : io_entry → Z → D → io_reply * D;
  register_io_locked : io_entry → Z → D → io_reply * D;
  buffer_memcpy : Z → Z → list Z → D → outcome D;
  ktime_ns : D → Z;
  usleep : Z → D → D;
  in_hardirq : D → bool
}.

(** The clock never goes back, a sleep lasts as long as asked for, and neither
    an access nor a sleep takes 2^40 ns (18 minutes) more than it should. *)
Class lwis_clock {D} (v : lwis_vops D) : Prop := {
  clock_nonneg d : 0 <= ktime_ns d;
  clock_io e w d :
    ktime_ns d <= ktime_ns (register_io_locked e w d).2 <= ktime_ns d + 2 ^ 40;
  clock_sleep us d : 0 <= us →
    ktime_ns d + 1000 * us <= ktime_ns (usleep us d) <= ktime_ns d + 1000 * us + 2 ^ 40
}.

Definition le_value (l : list Z) : Z := foldr (λ b v, b + 256 * v) 0 l.

Definition MAX_WAIT_TIME : Z := 1000000.

Definition ktime_to_ms (ns : Z) : Z := Z.quot ns 1000000.

Section IoEntry.
Context {D : Type} `{lwis_vops D}.

(** The error, the value read (on success) and the device. *)
Definition lwis_device_single_register_read (bid offset access_size : Z) (d : D) :
    Z * Z * D :=
  let '(r, d) := register_io_locked (LWIS_IO_ENTRY_READ bid offset) access_size d in
  (r.(io_ret), le_value r.(io_bytes), d).

Definition lwis_io_entry_read_assert (bitwidth bid offset val mask : Z) (d : D) : Z * D :=
  let '(ret, v, d) := lwis_device_single_register_read bid offset bitwidth d in
  if negb (ret =? 0) then (ret, d)
  else if Z.land v mask =? Z.land val mask then (0, d)
  else (- EINVAL, d).

(** The loop of a poll; its condition compares a local that never changes with
    the value, from which it differs. *)
Fixpoint poll_loop (fuel : nat) (is_short : bool) (bitwidth bid offset val mask : Z)
    (start timeout_ms : Z) (d : D) : outcome (Z * D) :=
  match fuel with
  | O => Blocked
  | S fuel =>
      let '(ret, d) := lwis_io_entry_read_assert bitwidth bid offset val mask d in
      if ret =? 0 then Ok (0, d)
      else if timeout_ms <? u64 (ktime_to_ms (ktime_ns d) - start) then
        let '(ret, d) := lwis_io_entry_read_assert bitwidth bid offset val mask d in
        if ret =? 0 then Ok (0, d) else Ok (- ETIMEDOUT, d)
      else
        let d := if is_short then usleep 10 d else usleep 1000 d in
        poll_loop fuel is_short bitwidth bid offset val mask start timeout_ms d
  end.

(** A turn sleeps 10 microseconds at least: 100 turns per millisecond suffice. *)
Definition poll_fuel (timeout_ms : Z) : nat := S (Z.to_nat (100 * (timeout_ms + 2))).

Definition lwis_io_entry_poll (is_short : bool) (bitwidth bid offset val mask timeout_ms : Z)
    (d : D) : outcome (Z * D) :=
  let timeout_ms := if in_hardirq d then 0 else timeout_ms in
  let start := ktime_to_ms (ktime_ns d) in
  poll_loop (poll_fuel timeout_ms) is_short bitwidth bid offset val mask start timeout_ms d.

Definition lwis_io_entry_wait (wait_us : Z) (d : D) : Z * D :=
  if wait_us =? 0 then (0, d)
  else if wait_us <=? MAX_WAIT_TIME then (0, usleep wait_us d)
  else (- EINVAL, d).

(** The copy goes where the entry says, in the buffer it was mapped from. *)
Definition lwis_io_buffer_write (buffer offset size_in_bytes : Z) (bytes : list Z) (d : D) :
    outcome (Z * D) :=
  src ← must (buf_read bytes 0 size_in_bytes);
  d ← buffer_memcpy buffer offset src d;
  Ok (0, d).

End IoEntry.
