(* ===== verification/LwisProcess.v ===== *)
(** * LWIS: processing the I/O entries of a transaction

    Model of the part of [process_transaction]
    ([google-modules/lwis/lwis_transaction.c]) that runs I/O entries, at most
    [transaction_process_limit] of them in a turn, and of
    [prepare_response_locked], which sizes the response they are read into.

    The results are bytes at their offset in the response's buffer: a write past
    its end is undefined.  The bus lock and the register barriers, which order
    accesses without being any, are left out. *)

From S2P Require Import Prelude LwisIoEntry.

(** [struct lwis_io_result] is a header of 24 bytes, with the block at offset 0,
    the register's offset at 8 and the number of bytes at 16, and the bytes. *)
Definition sizeof_io_result : Z := 24.

(** [n] bytes of an integer, least significant first. *)
Fixpoint le_bytes (n : nat) (x : Z) : list Z :=
  match n with
  | O => []
  | S n => x mod 256 :: le_bytes n (x / 256)
  end.

Definition sizeof_response_header : Z := 32.

(** [struct lwis_transaction_response_header] and the results behind it, in an
    allocation of [resp_size] bytes. *)
Record response := Response {
  resp_id : Z;
  error_code : Z;
  completion_index : Z;
  num_entries : Z;
  results_size_bytes : Z;
  resp_size : Z;
  results : memory
}.

(** The bytes allocated behind the header. *)
Abbreviation results_room r := (resp_size r - sizeof_response_header).

Definition set_error (e : Z) (r : response) : response :=
  Response r.(resp_id) e r.(completion_index) r.(num_entries) r.(results_size_bytes)
    r.(resp_size) r.(results).

Definition set_completion (i : Z) (r : response) : response :=
  Response r.(resp_id) r.(error_code) i r.(num_entries) r.(results_size_bytes) r.(resp_size)
    r.(results).

Definition set_results (m : memory) (r : response) : response :=
  Response r.(resp_id) r.(error_code) r.(completion_index) r.(num_entries)
    r.(results_size_bytes) r.(resp_size) m.

(** A write of the processor in the results; outside of the allocation the behaviour is
    undefined. *)
Definition result_store (pos : Z) (l : list Z) (r : response) : outcome response :=
  if decide (0 <= pos ∧ pos + Z.of_nat (length l) <= results_room r)
  then Ok (set_results (mem_store r.(results) pos l) r) else Undef.

(** The state of the loop over the entries: [ret], the device, the offset of the
    next result and the response. *)
Record run (D : Type) := Run {
  run_ret : Z;
  run_dev : D;
  run_read_buf : Z;
  run_resp : response
}.

Arguments Run {D}.
Arguments run_ret {D}.
Arguments run_dev {D}.
Arguments run_read_buf {D}.
Arguments run_resp {D}.

Section Process.
Context {D : Type} `{lwis_vops D} (native_value_bitwidth : Z).

Definition reg_value_bytewidth : Z := Z.quot native_value_bitwidth 8.

(** How many results a list of entries has, an [int], and their bytes without their
    headers, a [size_t]. *)
Fixpoint read_sizes (es : list io_entry) : Z * Z :=
  match es with
  | [] => (0, 0)
  | e :: es =>
      let '(n, size) := read_sizes es in
      match e with
      | LWIS_IO_ENTRY_READ _ _ | LWIS_IO_ENTRY_READ_V2 _ _ _ =>
          (s32 (n + 1), u64 (size + reg_value_bytewidth))
      | LWIS_IO_ENTRY_READ_BATCH _ _ k | LWIS_IO_ENTRY_READ_BATCH_V2 _ _ k _ =>
          (s32 (n + 1), u64 (size + k))
      | _ => (n, size)
      end
  end.

(** The response of a transaction, unless it cannot be allocated.  Its size is computed
    once for the allocation and once for the header, which is written there. *)
Definition prepare_response_locked (allocated : bool) (id : Z) (es : list io_entry)
    (garbage : memory) : outcome (Z * option response) :=
  let '(read_entries, read_buf_size) := read_sizes es in
  let resp_size := u64 (sizeof_response_header + read_entries * sizeof_io_result + read_buf_size) in
  if negb allocated then Ok (- ENOMEM, None)
  else if resp_size <? sizeof_response_header then Undef
  else Ok (0, Some (Response id 0 0 (u64 read_entries)
                      (u64 (read_entries * sizeof_io_result + read_buf_size)) resp_size garbage)).

(** A command that reads nothing into the response. *)
Definition simple_command (r : run D) (rd : Z * D) : bool * run D :=
  let '(ret, d) := rd in
  if negb (ret =? 0) then (true, Run ret d r.(run_read_buf) (set_error ret r.(run_resp)))
  else (false, Run ret d r.(run_read_buf) r.(run_resp)).

(** The header of a result: the block, the offset and the number of bytes. *)
Definition store_result_header (pos bid offset size : Z) (resp : response) : outcome response :=
  resp ← result_store pos (le_bytes 4 bid) resp;
  resp ← result_store (pos + 8) (le_bytes 8 offset) resp;
  result_store (pos + 16) (le_bytes 8 size) resp.

(** The read of a register, whose value is copied once read. *)
Definition read_command (e : io_entry) (bid offset : Z) (r : run D) : outcome (bool * run D) :=
  let pos := r.(run_read_buf) in
  resp ← store_result_header pos bid offset reg_value_bytewidth r.(run_resp);
  let '(reply, d) := register_io e native_value_bitwidth r.(run_dev) in
  if negb (reply.(io_ret) =? 0) then
    Ok (true, Run reply.(io_ret) d pos (set_error reply.(io_ret) resp))
  else
    bytes ← must (buf_read reply.(io_bytes) 0 reg_value_bytewidth);
    resp ← result_store (pos + sizeof_io_result) bytes resp;
    Ok (false, Run 0 d (pos + sizeof_io_result + reg_value_bytewidth) resp).

(** The read of a batch, which the device does into the result. *)
Definition batch_command (e : io_entry) (bid offset size : Z) (r : run D) :
    outcome (bool * run D) :=
  let pos := r.(run_read_buf) in
  resp ← store_result_header pos bid offset size r.(run_resp);
  let '(reply, d) := register_io e native_value_bitwidth r.(run_dev) in
  resp ← result_store (pos + sizeof_io_result) reply.(io_bytes) resp;
  if negb (reply.(io_ret) =? 0) then
    Ok (true, Run reply.(io_ret) d pos (set_error reply.(io_ret) resp))
  else Ok (false, Run 0 d (pos + sizeof_io_result + size) resp).

(** One entry: whether it failed, and the state after it. *)
Definition process_entry (e : io_entry) (r : run D) : outcome (bool * run D) :=
  match e with
  | LWIS_IO_ENTRY_WRITE _ _ _ | LWIS_IO_ENTRY_WRITE_V2 _ _ _ _
  | LWIS_IO_ENTRY_WRITE_BATCH _ _ _ _ | LWIS_IO_ENTRY_WRITE_BATCH_V2 _ _ _ _ _
  | LWIS_IO_ENTRY_MODIFY _ _ _ _ =>
      let '(reply, d) := register_io e native_value_bitwidth r.(run_dev) in
      Ok (simple_command r (reply.(io_ret), d))
  | LWIS_IO_ENTRY_READ bid offset | LWIS_IO_ENTRY_READ_V2 bid offset _ =>
      read_command e bid offset r
  | LWIS_IO_ENTRY_READ_BATCH bid offset size
  | LWIS_IO_ENTRY_READ_BATCH_V2 bid offset size _ => batch_command e bid offset size r
  | LWIS_IO_ENTRY_POLL bid offset val mask timeout_ms =>
      simple_command r <$> lwis_io_entry_poll false native_value_bitwidth bid offset val mask
                             timeout_ms r.(run_dev)
  | LWIS_IO_ENTRY_POLL_SHORT bid offset val mask timeout_ms =>
      simple_command r <$> lwis_io_entry_poll true native_value_bitwidth bid offset val mask
                             timeout_ms r.(run_dev)
  | LWIS_IO_ENTRY_WAIT wait_us => Ok (simple_command r (lwis_io_entry_wait wait_us r.(run_dev)))
  | LWIS_IO_ENTRY_READ_ASSERT bid offset val mask _ =>
      Ok (simple_command r
            (lwis_io_entry_read_assert native_value_bitwidth bid offset val mask r.(run_dev)))
  | LWIS_IO_ENTRY_WRITE_TO_BUFFER buffer offset size bytes =>
      simple_command r <$> lwis_io_buffer_write buffer offset size bytes r.(run_dev)
  | LWIS_IO_ENTRY_IGNORE => Ok (false, Run 0 r.(run_dev) r.(run_read_buf) r.(run_resp))
  | LWIS_IO_ENTRY_OTHER _ =>
      Ok (true, Run r.(run_ret) r.(run_dev) r.(run_read_buf) (set_error (- EINVAL) r.(run_resp)))
  end.

(** The loop over the entries from index [i]. *)
Fixpoint process_entries (skip_err : bool) (i : Z) (es : list io_entry) (r : run D) :
    outcome (run D) :=
  match es with
  | [] => Ok r
  | e :: es =>
      '(failed, r) ← process_entry e r;
      if (failed : bool) then if skip_err then process_entries skip_err (i + 1) es r else Ok r
      else process_entries skip_err (i + 1) es
             (Run r.(run_ret) r.(run_dev) r.(run_read_buf) (set_completion i r.(run_resp)))
  end.

(** Where a transaction stands: [remaining_entries_to_process],
    [starting_read_buf] (an offset, if not NULL) and its response. *)
Record progress := Progress {
  remaining : Z;
  starting_read_buf : option Z;
  presp : response
}.

(** The limit that applies to a turn. *)
Definition turn_limit (transaction_process_limit : Z) (total : Z)
    (run_in_event_context skip_err check_transaction_limit : bool) : Z :=
  if (transaction_process_limit <=? 0) || run_in_event_context || skip_err
     || negb check_transaction_limit
  then total else transaction_process_limit.

(** A turn over [max_limit] entries at most: whether entries remain for another
    turn, what it returns, the device and the progress. *)
Definition process_turn (max_limit : Z) (skip_err : bool) (es : list io_entry) (p : progress)
    (d : D) : outcome (bool * Z * D * progress) :=
  let total_entries := Z.of_nat (length es) in
  let current_run_entries := if max_limit <? p.(remaining) then max_limit else p.(remaining) in
  let start_idx := total_entries - p.(remaining) in
  let remaining_entries := p.(remaining) - current_run_entries in
  let now := take (Z.to_nat current_run_entries) (drop (Z.to_nat start_idx) es) in
  r ← process_entries skip_err start_idx now
        (Run 0 d (default 0 p.(starting_read_buf)) (set_completion (-1) p.(presp)));
  if (0 <? remaining_entries) && (r.(run_ret) =? 0)
  then Ok (true, r.(run_ret), r.(run_dev),
           Progress remaining_entries (Some r.(run_read_buf)) r.(run_resp))
  else Ok (false, r.(run_ret), r.(run_dev),
           Progress remaining_entries p.(starting_read_buf) r.(run_resp)).

End Process.
