(* ===== verification/LwisProcessProps.v ===== *)
(** * LWIS: what processing a transaction guarantees

    Turns under a limit do what a single run does; a response sized for the
    entries is never overrun. *)

From S2P Require Import Prelude LwisIoEntry LwisProcess.

Definition recognized (e : io_entry) : Prop :=
  match e with LWIS_IO_ENTRY_OTHER _ => False | _ => True end.

(** ** The completion index is only ever set *)

Definition with_completion {D} (c : Z) (r : run D) : run D :=
  Run r.(run_ret) r.(run_dev) r.(run_read_buf) (set_completion c r.(run_resp)).

Lemma with_completion_twice {D} c c' (r : run D) :
  with_completion c (with_completion c' r) = with_completion c r.
Proof. done. Qed.

Lemma result_store_completion pos l c r :
  result_store pos l (set_completion c r) = set_completion c <$> result_store pos l r.
Proof. unfold result_store. cbn. by case_decide. Qed.

Lemma store_header_completion pos bid offset size c r :
  store_result_header pos bid offset size (set_completion c r) =
    set_completion c <$> store_result_header pos bid offset size r.
Proof.
  unfold store_result_header. rewrite result_store_completion.
  destruct (result_store pos _ r) as [r1| |]; [cbn|done|done].
  rewrite result_store_completion. destruct (result_store (pos + 8) _ r1) as [r2| |]; [cbn|done|done].
  by rewrite result_store_completion.
Qed.

Section Props.
Context {D : Type} `{lwis_vops D} (w : Z).

Lemma simple_command_completion c (r : run D) rd :
  simple_command (with_completion c r) rd =
    let '(f, r') := simple_command r rd in (f, with_completion c r').
Proof. destruct rd as [ret d]. unfold simple_command. by destruct (negb _). Qed.

Lemma read_command_completion c e bid offset (r : run D) :
  read_command w e bid offset (with_completion c r) =
    (λ '(f, r'), (f, with_completion c r')) <$> read_command w e bid offset r.
Proof.
  unfold read_command. cbn [with_completion run_dev run_read_buf run_resp].
  rewrite store_header_completion. destruct (store_result_header _ _ _ _ _) as [r1| |]; [cbn|done|done].
  destruct (register_io e w _) as [reply d]. destruct (negb _); [done|].
  destruct (must _) as [l| |]; [cbn|done|done].
  rewrite result_store_completion. by destruct (result_store _ l r1).
Qed.

Lemma batch_command_completion c e bid offset size (r : run D) :
  batch_command w e bid offset size (with_completion c r) =
    (λ '(f, r'), (f, with_completion c r')) <$> batch_command w e bid offset size r.
Proof.
  unfold batch_command. cbn [with_completion run_dev run_read_buf run_resp].
  rewrite store_header_completion. destruct (store_result_header _ _ _ _ _) as [r1| |]; [cbn|done|done].
  destruct (register_io e w _) as [reply d]. rewrite result_store_completion.
  destruct (result_store _ _ r1) as [r2| |]; [cbn|done|done]. by destruct (negb _).
Qed.

Lemma simple_completion_map c (r : run D) (o : outcome (Z * D)) :
  (simple_command (with_completion c r) <$> o) =
    (λ '(f, r'), (f, with_completion c r')) <$> (simple_command r <$> o).
Proof. destruct o as [rd| |]; [cbn|done|done]. by rewrite simple_command_completion. Qed.

Lemma process_entry_completion c e (r : run D) :
  process_entry w e (with_completion c r) =
    (λ '(f, r'), (f, with_completion c r')) <$> process_entry w e r.
Proof.
  destruct e; cbn [process_entry]; try apply read_command_completion;
    try apply batch_command_completion; try apply simple_completion_map; try done;
    cbn [with_completion run_dev];
    try (destruct (register_io _ w _) as [reply d]); cbn [mbind fmap outcome_fmap];
    by rewrite simple_command_completion.
Qed.

(** A command fails when it returns an error. *)
Lemma simple_failed (r : run D) o f r' :
  simple_command r <$> o = Ok (f, r') → f = negb (run_ret r' =? 0).
Proof.
  destruct o as [[ret d]| |]; [cbn|done|done]. unfold simple_command.
  destruct (negb (ret =? 0)) eqn:E; intros [= <- <-]; cbn; by rewrite E.
Qed.

Lemma read_failed e bid offset (r : run D) f r' :
  read_command w e bid offset r = Ok (f, r') → f = negb (run_ret r' =? 0).
Proof.
  unfold read_command. rewrite outcome_bind_Ok. intros (resp & _ & Hr). revert Hr.
  destruct (register_io e w _) as [reply d].
  destruct (negb (io_ret reply =? 0)) eqn:E; [intros [= <- <-]; cbn; by rewrite E|].
  rewrite outcome_bind_Ok. intros (l & _ & Hr). revert Hr.
  rewrite outcome_bind_Ok. by intros (resp' & _ & [= <- <-]).
Qed.

Lemma batch_failed e bid offset size (r : run D) f r' :
  batch_command w e bid offset size r = Ok (f, r') → f = negb (run_ret r' =? 0).
Proof.
  unfold batch_command. rewrite outcome_bind_Ok. intros (resp & _ & Hr). revert Hr.
  destruct (register_io e w _) as [reply d].
  rewrite outcome_bind_Ok. intros (resp' & _ & Hr). revert Hr.
  destruct (negb (io_ret reply =? 0)) eqn:E; intros [= <- <-]; cbn; [by rewrite E|done].
Qed.

Lemma process_entry_failed e (r : run D) f r' :
  recognized e → process_entry w e r = Ok (f, r') → f = negb (run_ret r' =? 0).
Proof.
  intros Hrec. destruct e; cbn [process_entry recognized] in *; try done;
    try apply read_failed; try apply batch_failed; try apply simple_failed;
    try (by intros [= <- <-]); try (destruct (register_io _ w _) as [reply d]);
    intros Hr; by eapply (simple_failed r (Ok _)).
Qed.

(** ** One run after another *)

(** A run over recognized entries: [k] of them complete, all of them exactly
    when it returns 0, and the completion index it starts with shows only when
    none does. *)
Lemma process_entries_completion i es (r R : run D) :
  Forall recognized es → run_ret r = 0 → process_entries w false i es r = Ok R →
  ∃ k : nat, (k ≤ length es)%nat ∧ (run_ret R = 0 ↔ k = length es) ∧
    ∀ c, process_entries w false i es (with_completion c r) =
      Ok (with_completion (if decide (k = 0%nat) then c else i + Z.of_nat k - 1) R).
Proof.
  revert i r. induction es as [|e es IH]; intros i r Hrec Hret Hrun; simpl in *.
  - injection Hrun as <-. exists 0%nat. by split_and!.
  - apply Forall_cons in Hrec as [He Hes].
    apply outcome_bind_Ok in Hrun as ([f r1] & He1 & Hrun).
    pose proof (process_entry_failed _ _ _ _ He He1) as Hf.
    destruct f.
    + injection Hrun as <-. exists 0%nat. split_and!; [lia| |].
      * destruct (Z.eqb_spec (run_ret r1) 0); [done|]. split; [done|lia].
      * intros c. rewrite process_entry_completion, He1. done.
    + edestruct IH as (k & Hk & Hz & Hc); [exact Hes| |exact Hrun|].
      { cbn. destruct (Z.eqb_spec (run_ret r1) 0); done. }
      exists (S k). split_and!; [lia|rewrite Hz; lia|]. intros c.
      rewrite process_entry_completion, He1. cbn. specialize (Hc i).
      unfold with_completion in Hc. cbn in Hc. unfold set_completion in *. cbn in *.
      rewrite Hc. unfold with_completion, set_completion. do 3 f_equal.
      rewrite (decide_False (P := S k = 0%nat)) by lia. case_decide; lia.
Qed.

Lemma process_entries_app i es1 es2 (r R1 : run D) :
  Forall recognized es1 → run_ret r = 0 → process_entries w false i es1 r = Ok R1 →
  process_entries w false i (es1 ++ es2) r =
    if run_ret R1 =? 0 then process_entries w false (i + Z.of_nat (length es1)) es2 R1 else Ok R1.
Proof.
  revert i r. induction es1 as [|e es IH]; intros i r Hrec Hret Hrun; simpl in *.
  - injection Hrun as <-. rewrite Hret. simpl. f_equal. lia.
  - apply Forall_cons in Hrec as [He Hes].
    apply outcome_bind_Ok in Hrun as ([f r1] & He1 & Hrun). rewrite He1. cbn.
    pose proof (process_entry_failed _ _ _ _ He He1) as Hf.
    destruct f.
    + injection Hrun as <-. by destruct (run_ret r1 =? 0).
    + erewrite IH; [|exact Hes| |exact Hrun]; [|cbn; by destruct (Z.eqb_spec (run_ret r1) 0)].
      destruct (run_ret R1 =? 0); [|done]. f_equal. lia.
Qed.

Lemma process_entries_prefix i es1 es2 (r R : run D) :
  process_entries w false i (es1 ++ es2) r = Ok R → ∃ R1, process_entries w false i es1 r = Ok R1.
Proof.
  revert i r. induction es1 as [|e es IH]; intros i r; simpl; [eauto|].
  rewrite outcome_bind_Ok. intros ([[] r1] & He & Hrun); rewrite He; cbn; [eauto|by eapply IH].
Qed.

(** The turns a transaction is given until it is finished: what it returns, the
    device and where it stands. *)
Fixpoint process_turns (fuel : nat) (limit : Z) (es : list io_entry) (p : progress) (d : D) :
    outcome (Z * D * progress) :=
  match fuel with
  | O => Blocked
  | S fuel =>
      '(more, ret, d, p) ← process_turn w limit false es p d;
      if (more : bool) then process_turns fuel limit es p d else Ok (ret, d, p)
  end.

Lemma turns_spec fuel limit es (s : nat) sb d resp (R : run D) :
  Forall recognized es → 0 < limit → (s < length es ∨ s = 0)%nat → (length es - s < fuel)%nat →
  process_entries w false (Z.of_nat s) (drop s es) (Run 0 d (default 0 sb) resp) = Ok R →
  ∃ k : nat,
    (∀ c, process_entries w false (Z.of_nat s) (drop s es)
            (with_completion c (Run 0 d (default 0 sb) resp)) =
       Ok (with_completion (if decide (k = 0%nat) then c else Z.of_nat s + Z.of_nat k - 1) R)) ∧
    ∃ P, process_turns fuel limit es (Progress (Z.of_nat (length es) - Z.of_nat s) sb resp) d =
           Ok (run_ret R, run_dev R, P) ∧
      presp P = set_completion
        (if decide (run_ret R ≠ 0 ∧ Z.of_nat k mod limit = 0) then -1
         else Z.of_nat s + Z.of_nat k - 1) (run_resp R).
Proof.
  intros Hrec Hlim. revert s sb d resp R. induction fuel as [|fuel IH]; [lia|].
  intros s sb d resp R Hs Hf Hrun. cbn [process_turns]. unfold process_turn.
  cbn [remaining starting_read_buf presp].
  set (n := Z.of_nat (length es) - Z.of_nat s).
  replace (Z.of_nat (length es) - n) with (Z.of_nat s) by lia. rewrite Nat2Z.id.
  assert (Forall recognized (drop s es)) as Hrecs by (by apply Forall_drop).
  set (r0 := Run 0 d (default 0 sb) resp) in *.
  change (Run 0 d (default 0 sb) (set_completion (-1) resp)) with (with_completion (-1) r0).
  destruct (Z.ltb_spec limit n) as [Hl|Hl].
  - assert (length (take (Z.to_nat limit) (drop s es)) = Z.to_nat limit) as Hlen.
    { rewrite length_take, length_drop. lia. }
    pose proof Hrun as Hrun'. rewrite <- (take_drop (Z.to_nat limit) (drop s es)) in Hrun'.
    destruct (process_entries_prefix _ _ _ _ _ Hrun') as [R1 HR1].
    assert (Forall recognized (take (Z.to_nat limit) (drop s es))) as Hrec1 by (by apply Forall_take).
    rewrite (process_entries_app _ _ _ r0 _ Hrec1 eq_refl HR1), Hlen in Hrun'.
    destruct (process_entries_completion _ _ r0 _ Hrec1 eq_refl HR1)
      as (k1 & Hk1 & Hz1 & Hc1). rewrite Hlen in Hk1, Hz1.
    rewrite Hc1. cbn [mbind outcome_bind with_completion run_ret run_dev run_read_buf run_resp].
    destruct (Z.ltb_spec 0 (n - limit)); [|lia].
    assert (∀ c, process_entries w false (Z.of_nat s) (drop s es) (with_completion c r0) =
      if run_ret R1 =? 0 then process_entries w false (Z.of_nat s + Z.of_nat (Z.to_nat limit))
        (drop (Z.to_nat limit) (drop s es))
        (with_completion (if decide (k1 = 0%nat) then c else Z.of_nat s + Z.of_nat k1 - 1) R1)
      else Ok (with_completion (if decide (k1 = 0%nat) then c else Z.of_nat s + Z.of_nat k1 - 1) R1))
      as Happ.
    { intros c. rewrite <- (take_drop (Z.to_nat limit) (drop s es)) at 1.
      by rewrite (process_entries_app _ _ _ (with_completion c r0) _ Hrec1 eq_refl (Hc1 c)), Hlen. }
    destruct (Z.eqb_spec (run_ret R1) 0) as [Hr1|Hr1]; cbn [andb].
    + assert (k1 = Z.to_nat limit) as Hk by (by apply Hz1).
      destruct R1 as [ret1 dev1 buf1 resp1]. cbn in Hr1, Hrun'. subst ret1.
      cbn [run_dev run_read_buf run_resp run_ret] in *.
      set (c1 := if decide (k1 = 0%nat) then _ else _).
      destruct (process_entries_completion (Z.of_nat s + Z.of_nat (Z.to_nat limit))
        (drop (Z.to_nat limit) (drop s es)) (Run 0 dev1 buf1 resp1) R
        ltac:(by apply Forall_drop) eq_refl Hrun') as (k2 & _ & _ & Hc2).
      specialize (Hc2 c1). set (R2 := with_completion _ R) in Hc2.
      rewrite drop_drop in *. specialize (IH (s + Z.to_nat limit)%nat (Some buf1) dev1
        (set_completion c1 resp1) R2).
      replace (Z.of_nat (s + Z.to_nat limit)) with (Z.of_nat s + Z.of_nat (Z.to_nat limit)) in IH by lia.
      destruct IH as (k & Hck & P & HP & HPr); [lia|lia|exact Hc2|].
      exists (Z.to_nat limit + k)%nat. split.
      * intros c. rewrite Happ.
        specialize (Hck (if decide (k1 = 0%nat) then c else Z.of_nat s + Z.of_nat k1 - 1)).
        etrans; [exact Hck|]. unfold R2. rewrite with_completion_twice. do 2 f_equal.
        repeat case_decide; lia.
      * exists P. replace (n - limit) with
          (Z.of_nat (length es) - (Z.of_nat s + Z.of_nat (Z.to_nat limit))) by lia.
        cbn [mbind outcome_bind]. rewrite HP. split; [done|]. rewrite HPr. unfold R2. cbn. unfold set_completion. cbn. f_equal.
        replace (Z.of_nat (Z.to_nat limit + k)) with (Z.of_nat k + 1 * limit) by lia.
        rewrite Z.mod_add by lia. repeat case_decide; first [tauto|lia].
    + cbn [run_ret with_completion mbind outcome_bind] in *. injection Hrun' as <-.
      assert (k1 ≠ Z.to_nat limit) as Hk by (by intros ?%Hz1).
      exists k1. split; [by intros c; rewrite Happ; destruct (Z.eqb_spec (run_ret R1) 0)|].
      eexists. split; [done|]. cbn. f_equal. rewrite Z.mod_small by lia.
      repeat case_decide; lia.
  - rewrite firstn_all2 by (rewrite length_drop; lia).
    destruct (process_entries_completion _ _ r0 _ Hrecs eq_refl Hrun) as (k & Hk & Hz & Hc).
    rewrite length_drop in Hk, Hz.
    rewrite Hc. cbn [mbind outcome_bind with_completion run_ret run_dev run_read_buf run_resp].
    destruct (Z.ltb_spec 0 (n - n)); [lia|]. cbn [andb].
    exists k. split; [done|]. eexists. split; [done|]. cbn. f_equal.
    destruct (decide (k = 0%nat)) as [->|Hk0].
    + rewrite Z.mod_0_l by lia. case_decide; [done|]. lia.
    + case_decide as Hd; [|lia]. destruct Hd as [Hr Hm].
      destruct (decide (k = Z.to_nat limit)); [|rewrite Z.mod_small in Hm; lia].
      exfalso. apply Hr, Hz. lia.
Qed.

(** ** Polls return *)

Lemma read_assert_clock `{!lwis_clock H} bid offset val mask d :
  ktime_ns d <= ktime_ns (lwis_io_entry_read_assert w bid offset val mask d).2
    <= ktime_ns d + 2 ^ 40.
Proof.
  unfold lwis_io_entry_read_assert, lwis_device_single_register_read.
  pose proof (clock_io (LWIS_IO_ENTRY_READ bid offset) w d) as Hc.
  destruct (register_io_locked _ w d) as [r d']. cbn in Hc.
  destruct (negb _); [done|]. by destruct (Z.land _ _ =? _).
Qed.

(** After a turn that does not time out, less than the timeout has passed. *)
Lemma poll_loop_returns `{!lwis_clock H} fuel is_short bid offset val mask start timeout d :
  0 <= start → start <= ktime_to_ms (ktime_ns d) → 0 <= timeout < 2 ^ 63 →
  1000000 * (start + timeout + 1) <= ktime_ns d + 10000 * Z.of_nat fuel →
  ktime_ns d <= 1000000 * (start + timeout + 2) + 2 ^ 41 →
  ∃ ret d', poll_loop (S fuel) is_short w bid offset val mask start timeout d = Ok (ret, d').
Proof.
  unfold ktime_to_ms.
  revert d. induction fuel as [|fuel IH]; intros d Hs0 Hst Ht Hn Hup.
  all: cbn [poll_loop]; pose proof (read_assert_clock bid offset val mask d) as Hc;
    destruct (lwis_io_entry_read_assert w bid offset val mask d) as [ret d1]; cbn [snd] in Hc;
    destruct (ret =? 0); [by eauto|].
  all: pose proof (clock_nonneg d) as Hr0; unfold ktime_to_ms;
    rewrite Z.quot_div_nonneg in * by lia;
    rewrite u64_small by (Z.to_euclidean_division_equations; lia);
    destruct (Z.ltb_spec timeout (ktime_ns d1 `div` 1000000 - start)) as [|Hle];
    [destruct (lwis_io_entry_read_assert w bid offset val mask d1) as [r2 d2];
     destruct (r2 =? 0); by eauto|].
  - exfalso. Z.to_euclidean_division_equations; lia.
  - assert (ktime_ns d1 + 10000 <= ktime_ns (if is_short then usleep 10 d1 else usleep 1000 d1)
      <= ktime_ns d1 + 1000000 + 2 ^ 40) as Hs.
    { destruct is_short; [pose proof (clock_sleep 10 d1 ltac:(lia))
        |pose proof (clock_sleep 1000 d1 ltac:(lia))]; lia. }
    apply IH; [done| |done|lia|].
    + rewrite Z.quot_div_nonneg by lia. Z.to_euclidean_division_equations; lia.
    + Z.to_euclidean_division_equations; lia.
Qed.

Lemma poll_returns `{!lwis_clock H} is_short bid offset val mask timeout d :
  0 <= timeout < 2 ^ 63 →
  ∃ ret d', lwis_io_entry_poll is_short w bid offset val mask timeout d = Ok (ret, d').
Proof.
  intros Ht. unfold lwis_io_entry_poll, poll_fuel.
  set (t := if in_hardirq d then 0 else timeout).
  assert (0 <= t < 2 ^ 63) as Ht' by (unfold t; destruct (in_hardirq d); lia).
  pose proof (clock_nonneg d). apply poll_loop_returns; [|done|done|..];
    unfold ktime_to_ms; rewrite Z.quot_div_nonneg by lia;
    Z.to_euclidean_division_equations; lia.
Qed.

(** ** The results stay in the response *)

(** What a device reads: the bytes asked for, of a batch at most. *)
Class lwis_reads : Prop := {
  reads_register e d :
    io_ret (register_io e w d).1 = 0 →
    match e with
    | LWIS_IO_ENTRY_READ _ _ | LWIS_IO_ENTRY_READ_V2 _ _ _ =>
        reg_value_bytewidth w <= Z.of_nat (length (io_bytes (register_io e w d).1))
    | _ => True
    end;
  reads_batch e d :
    match e with
    | LWIS_IO_ENTRY_READ_BATCH _ _ size | LWIS_IO_ENTRY_READ_BATCH_V2 _ _ size _ =>
        0 <= size → Z.of_nat (length (io_bytes (register_io e w d).1)) <= size
    | _ => True
    end
}.

(** What an entry adds to the results. *)
Definition result_space (e : io_entry) : Z :=
  match e with
  | LWIS_IO_ENTRY_READ _ _ | LWIS_IO_ENTRY_READ_V2 _ _ _ => sizeof_io_result + reg_value_bytewidth w
  | LWIS_IO_ENTRY_READ_BATCH _ _ size | LWIS_IO_ENTRY_READ_BATCH_V2 _ _ size _ =>
      sizeof_io_result + size
  | _ => 0
  end.

Fixpoint results_space (es : list io_entry) : Z :=
  match es with [] => 0 | e :: es => result_space e + results_space es end.

(** Sizes and timeouts are not negative, and a write to a buffer stays in it. *)
Definition entry_ok (e : io_entry) : Prop :=
  match e with
  | LWIS_IO_ENTRY_READ_BATCH _ _ size | LWIS_IO_ENTRY_READ_BATCH_V2 _ _ size _ => 0 <= size
  | LWIS_IO_ENTRY_POLL _ _ _ _ timeout | LWIS_IO_ENTRY_POLL_SHORT _ _ _ _ timeout =>
      0 <= timeout < 2 ^ 63
  | LWIS_IO_ENTRY_WRITE_TO_BUFFER buffer offset size bytes =>
      ∀ d, ∃ r, lwis_io_buffer_write buffer offset size bytes d = Ok r
  | _ => True
  end.

Lemma result_space_nonneg e : 0 <= w → entry_ok e → 0 <= result_space e.
Proof.
  intros Hw. assert (0 <= reg_value_bytewidth w) by (apply Z.quot_pos; lia).
  destruct e; cbn [result_space entry_ok]; unfold sizeof_io_result; intros; lia.
Qed.

Lemma results_space_nonneg es : 0 <= w → Forall entry_ok es → 0 <= results_space es.
Proof.
  intros Hw. induction 1 as [|e es He Hes IH]; cbn [results_space]; [lia|].
  pose proof (result_space_nonneg e Hw He). lia.
Qed.

Lemma length_le_bytes n x : length (le_bytes n x) = n.
Proof. revert x. induction n as [|n IH]; intros x; cbn; [done|]. by rewrite IH. Qed.

Lemma result_store_ok pos l r :
  0 <= pos → pos + Z.of_nat (length l) <= results_room r →
  ∃ m, result_store pos l r = Ok (set_results m r).
Proof. intros. unfold result_store. rewrite decide_True by lia. eauto. Qed.

Lemma store_header_ok pos bid offset size r :
  0 <= pos → pos + sizeof_io_result <= results_room r →
  ∃ m, store_result_header pos bid offset size r = Ok (set_results m r).
Proof.
  unfold sizeof_io_result, store_result_header. intros H0 Hs.
  destruct (result_store_ok pos (le_bytes 4 bid) r) as [m1 ->]; [done|rewrite length_le_bytes; lia|].
  cbn [mbind outcome_bind].
  destruct (result_store_ok (pos + 8) (le_bytes 8 offset) (set_results m1 r)) as [m2 ->];
    [lia|rewrite length_le_bytes; cbn; lia|]. cbn [mbind outcome_bind].
  destruct (result_store_ok (pos + 16) (le_bytes 8 size) (set_results m2 (set_results m1 r)))
    as [m3 ->]; [lia|rewrite length_le_bytes; cbn; lia|]. by exists m3.
Qed.

(** The room an entry needs is there, and it takes no more. *)
Definition within (r r' : run D) (e : io_entry) : Prop :=
  run_read_buf r <= run_read_buf r' <= run_read_buf r + result_space e ∧
  results_room (run_resp r') = results_room (run_resp r).

Lemma read_within `{!lwis_reads} e bid offset (r : run D) :
  (e = LWIS_IO_ENTRY_READ bid offset ∨ ∃ hz, e = LWIS_IO_ENTRY_READ_V2 bid offset hz) →
  0 <= w → 0 <= run_read_buf r →
  run_read_buf r + result_space e <= results_room (run_resp r) →
  ∃ f r', read_command w e bid offset r = Ok (f, r') ∧ within r r' e.
Proof.
  intros He Hw Hp Hs. unfold within.
  assert (result_space e = sizeof_io_result + reg_value_bytewidth w) as Hsp
    by (by destruct He as [->|[? ->]]).
  assert (0 <= reg_value_bytewidth w) as Hb by (apply Z.quot_pos; lia).
  unfold read_command, sizeof_io_result in *. rewrite Hsp in Hs |- *.
  destruct (store_header_ok (run_read_buf r) bid offset (reg_value_bytewidth w) (run_resp r))
    as [m ->]; [done|unfold sizeof_io_result; lia|]. cbn [mbind outcome_bind].
  pose proof (reads_register e (run_dev r)) as Hreg.
  destruct (register_io e w (run_dev r)) as [reply d]. cbn [fst] in Hreg.
  destruct (Z.eqb_spec (io_ret reply) 0) as [Hr|Hr]; cbn [negb].
  - rewrite buf_read_ok; [|lia|lia|by destruct He as [->|[? ->]]; specialize (Hreg Hr)].
    cbn [must mbind outcome_bind]. rewrite drop_0.
    edestruct result_store_ok as [m' ->]; [| |]; [lia| |].
    { rewrite length_take. cbn. lia. }
    eexists _, _. split; [done|]. cbn. lia.
  - eexists _, _. split; [done|]. cbn. lia.
Qed.

Lemma batch_within `{!lwis_reads} e bid offset size (r : run D) :
  (e = LWIS_IO_ENTRY_READ_BATCH bid offset size ∨
   ∃ hz, e = LWIS_IO_ENTRY_READ_BATCH_V2 bid offset size hz) →
  0 <= size → 0 <= run_read_buf r →
  run_read_buf r + result_space e <= results_room (run_resp r) →
  ∃ f r', batch_command w e bid offset size r = Ok (f, r') ∧ within r r' e.
Proof.
  intros He Hw Hp Hs. unfold within.
  assert (result_space e = sizeof_io_result + size) as Hsp by (by destruct He as [->|[? ->]]).
  unfold batch_command, sizeof_io_result in *. rewrite Hsp in Hs |- *.
  destruct (store_header_ok (run_read_buf r) bid offset size (run_resp r))
    as [m ->]; [done|unfold sizeof_io_result; lia|]. cbn [mbind outcome_bind].
  pose proof (reads_batch e (run_dev r)) as Hreg.
  destruct (register_io e w (run_dev r)) as [reply d]. cbn [fst] in Hreg.
  assert (Z.of_nat (length (io_bytes reply)) <= size) as Hl
    by (by destruct He as [->|[? ->]]; apply Hreg).
  edestruct result_store_ok as [m' ->]; [| |]; [lia|cbn; lia|]. cbn [mbind outcome_bind].
  destruct (negb _); eexists _, _; (split; [done|]); cbn; lia.
Qed.

Lemma process_entry_within `{!lwis_reads, !lwis_clock H} e (r : run D) :
  entry_ok e → 0 <= w → 0 <= run_read_buf r →
  run_read_buf r + result_space e <= results_room (run_resp r) →
  ∃ f r', process_entry w e r = Ok (f, r') ∧ within r r' e.
Proof.
  intros He Hw Hp Hs.
  assert (∀ rd, result_space e = 0 → ∃ f r', simple_command r rd = (f, r') ∧ within r r' e) as Hsimple.
  { intros [ret d] Hsp. unfold simple_command, within. rewrite Hsp.
    destruct (negb _); eexists _, _; (split; [done|]); cbn; lia. }
  assert (∀ o : outcome (Z * D), result_space e = 0 → (∃ ret d, o = Ok (ret, d)) →
    ∃ f r', simple_command r <$> o = Ok (f, r') ∧ within r r' e) as Hmap.
  { intros o Hsp (ret & d & ->). destruct (Hsimple (ret, d) Hsp) as (f & r' & Hr & Hwi).
    exists f, r'. cbn [fmap outcome_fmap]. by rewrite Hr. }
  destruct e; cbn [process_entry entry_ok] in *;
    try (apply read_within; eauto; fail); try (apply batch_within; eauto; fail);
    try (apply Hmap; [done|by apply poll_returns]);
    try (destruct (register_io _ w _) as [reply d]).
  all: try (edestruct Hsimple as (f & r' & Hr & Hwi); [done|]; rewrite Hr; eauto; fail).
  - apply Hmap; [done|]. destruct (He (run_dev r)) as [[ret d] ->]. eauto.
  - eexists _, _. split; [done|]. unfold within. cbn. lia.
  - eexists _, _. split; [done|]. unfold within. cbn. lia.
Qed.

Lemma process_entries_within `{!lwis_reads, !lwis_clock H} skip_err i es (r : run D) :
  Forall entry_ok es → 0 <= w → 0 <= run_read_buf r →
  run_read_buf r + results_space es <= results_room (run_resp r) →
  ∃ r', process_entries w skip_err i es r = Ok r' ∧
    run_read_buf r <= run_read_buf r' <= run_read_buf r + results_space es ∧
    results_room (run_resp r') = results_room (run_resp r).
Proof.
  intros Hes Hw. revert i r. induction Hes as [|e es He Hes IH]; intros i r Hp Hs;
    cbn [results_space process_entries] in *.
  - exists r. split_and!; [done|lia|lia|done].
  - pose proof (results_space_nonneg es Hw Hes).
    destruct (process_entry_within e r He Hw Hp) as (f & r1 & -> & [Hb1 Hb2] & Hb3); [lia|].
    cbn [mbind outcome_bind]. destruct f; [destruct skip_err|].
    + destruct (IH (i + 1) r1) as (r' & -> & ? & ?); [lia|rewrite Hb3; lia|].
      exists r'. split_and!; [done|lia|lia|congruence].
    + exists r1. split_and!; [done|lia|lia|done].
    + edestruct (IH (i + 1)) as (r' & -> & Hb & Hz); cbn; [|rewrite Hb3|]; cbn; [lia|lia|].
      cbn in Hb, Hz. exists r'. split_and!; [done|lia|lia|congruence].
Qed.

Lemma results_space_app es1 es2 :
  results_space (es1 ++ es2) = results_space es1 + results_space es2.
Proof. induction es1 as [|e es1 IH]; cbn [results_space app]; lia. Qed.

Lemma turns_within `{!lwis_reads, !lwis_clock H} fuel limit es (s : nat) sb resp d :
  Forall entry_ok es → 0 <= w → 0 < limit → (length es - s < fuel)%nat → 0 <= default 0 sb →
  default 0 sb + results_space (drop s es) <= results_room resp →
  ∃ ret d' p', process_turns fuel limit es (Progress (Z.of_nat (length es - s)) sb resp) d =
    Ok (ret, d', p').
Proof.
  intros Hes Hw Hlim. revert s sb resp d. induction fuel as [|fuel IH]; [lia|].
  intros s sb resp d Hf Hp0 Hs. cbn [process_turns]. unfold process_turn.
  cbn [remaining starting_read_buf presp].
  set (cur := if limit <? Z.of_nat (length es - s) then limit else Z.of_nat (length es - s)).
  set (start := Z.of_nat (length es) - Z.of_nat (length es - s)).
  assert (drop (Z.to_nat start) es = drop s es) as ->.
  { destruct (decide (s <= length es)%nat); [f_equal; lia|]. rewrite !drop_ge by lia. done. }
  assert (drop s es = take (Z.to_nat cur) (drop s es) ++ drop (s + Z.to_nat cur) es) as Hsplit.
  { by rewrite <- drop_drop, take_drop. }
  assert (Forall entry_ok (take (Z.to_nat cur) (drop s es)) ∧
    Forall entry_ok (drop (s + Z.to_nat cur) es)) as [Hes1 Hes2].
  { split; [apply Forall_take|]; by apply Forall_drop. }
  pose proof (results_space_nonneg _ Hw Hes2) as Hnn.
  rewrite Hsplit, results_space_app in Hs.
  edestruct (process_entries_within false start (take (Z.to_nat cur) (drop s es)))
    as (r' & -> & Hb & Hz); [done|done| | |]; cbn [run_read_buf run_resp]; [done|cbn; lia|].
  cbn [run_read_buf run_resp set_completion resp_size mbind outcome_bind] in *.
  destruct (Z.ltb_spec 0 (Z.of_nat (length es - s) - cur)) as [Hl|Hl]; cbn [andb]; [|eauto].
  destruct (run_ret r' =? 0); cbn [andb]; [|eauto].
  assert (cur = limit) as Hcur by (unfold cur in *; destruct (Z.ltb_spec limit (Z.of_nat (length es - s))); lia).
  specialize (IH (s + Z.to_nat limit)%nat (Some (run_read_buf r')) (run_resp r') (run_dev r')).
  rewrite Hcur in *. replace (Z.of_nat (length es - s) - limit) with
    (Z.of_nat (length es - (s + Z.to_nat limit))) by lia.
  apply IH; cbn; [lia|lia|]. rewrite Hz. lia.
Qed.

(** The response is as large as the results, unless their size overflows. *)
Lemma read_sizes_space es :
  0 <= w → Forall entry_ok es → results_space es < 2 ^ 64 → Z.of_nat (length es) < 2 ^ 31 →
  let '(n, size) := read_sizes w es in
  0 <= size ∧ 0 <= n <= Z.of_nat (length es) ∧ results_space es = n * sizeof_io_result + size.
Proof.
  intros Hw. assert (0 <= reg_value_bytewidth w) by (apply Z.quot_pos; lia).
  unfold sizeof_io_result. induction 1 as [|e es He Hes IH]; cbn [results_space read_sizes length]; [lia|].
  intros Hs Hl. pose proof (result_space_nonneg e Hw He).
  pose proof (results_space_nonneg es Hw Hes).
  destruct (read_sizes w es) as [n size].
  destruct IH as (? & ? & Heq); [lia|lia|]. rewrite Heq in *.
  destruct e; cbn [result_space entry_ok] in *; unfold sizeof_io_result in *; try lia.
  all: rewrite u64_small, s32_small by lia; lia.
Qed.

(** No size wraps: the results and their header fit in 2^64 bytes, and they can be
    counted. *)
Definition response_fits (es : list io_entry) : Prop :=
  results_space es < 2 ^ 64 - sizeof_response_header ∧ Z.of_nat (length es) < 2 ^ 31.

Lemma prepared es id g :
  0 <= w → Forall entry_ok es → response_fits es →
  ∃ r, prepare_response_locked w true id es g = Ok (0, Some r) ∧ resp_id r = id ∧
    results_size_bytes r = results_space es ∧ results_room r = results_space es.
Proof.
  intros Hw Hes [Hs Hl]. unfold prepare_response_locked.
  unfold sizeof_response_header in *.
  pose proof (read_sizes_space es Hw Hes ltac:(lia) Hl) as Hsz. destruct (read_sizes w es) as [n size].
  destruct Hsz as (? & ? & Heq). rewrite Heq in *. unfold sizeof_io_result in *. cbn [negb].
  rewrite (u64_small (32 + _ + _)) by lia. rewrite (proj2 (Z.ltb_ge _ _)) by lia.
  eexists. split; [done|]. cbn. rewrite u64_small by lia. split_and!; lia.
Qed.
End Props.

(** ** The properties *)

(** C26: For entries of known types, turns under a limit are equivalent to a single
    run: however few entries a device processes per turn, the transaction does the same
    accesses in the same order, and returns the same error and the same results.  Only the
    completion index may differ: it is reset in every turn, so that it is -1
    when the entry that fails is the first of a turn. *)
Theorem lwis_turns_equal_single_run {D} `{lwis_vops D} w limit es resp (d : D) more ret d' p' :
  Forall recognized es → 0 < limit →
  process_turn w (Z.of_nat (length es)) false es
    (Progress (Z.of_nat (length es)) None resp) d = Ok (more, ret, d', p') →
  ∃ p'', process_turns w (S (length es)) limit es
           (Progress (Z.of_nat (length es)) None resp) d = Ok (ret, d', p'') ∧
    results (presp p'') = results (presp p') ∧
    error_code (presp p'') = error_code (presp p') ∧
    completion_index (presp p'') =
      (if decide (ret ≠ 0 ∧ (completion_index (presp p') + 1) mod limit = 0) then -1
       else completion_index (presp p')).
Proof.
  intros Hrec Hlim Hrun.
  unfold process_turn in Hrun. cbn [remaining starting_read_buf presp] in Hrun.
  rewrite Z.ltb_irrefl, Z.sub_diag, Nat2Z.id, firstn_all2, drop_0 in Hrun
    by (rewrite length_drop; lia).
  apply outcome_bind_Ok in Hrun as (R & HR & Hout). cbn in Hout. injection Hout as <- <- <- <-.
  set (resp1 := set_completion (-1) resp) in HR. cbn [default] in HR.
  destruct (turns_spec w (S (length es)) limit es 0 None d resp1 R)
    as (k & Hk & P & HP & HPr); [done|done|lia|lia|by rewrite drop_0|].
  specialize (Hk (-1)). rewrite drop_0 in Hk.
  change (process_entries w false 0 es (Run 0 d 0 resp1) =
    Ok (with_completion (if decide (k = 0%nat) then -1 else Z.of_nat 0 + Z.of_nat k - 1) R)) in Hk.
  rewrite HR in Hk. injection Hk as Hk.
  assert (completion_index (run_resp R) = Z.of_nat k - 1) as Hc.
  { apply (f_equal (λ r, completion_index (run_resp r))) in Hk. cbn in Hk. rewrite Hk.
    clear -k. destruct (decide (k = 0%nat)); lia. }
  exists P. rewrite Z.sub_0_r in HP. split; [exact HP|]. rewrite HPr. cbn. split_and!; [done|done|].
  rewrite Hc. replace (Z.of_nat k - 1 + 1) with (Z.of_nat k) by lia.
  repeat case_decide; first [tauto|lia].
Qed.

(** An entry of an unknown type ends a single run; in turns, whose end it does not
    show, the entries behind it are executed. *)
Lemma lwis_turns_pass_unrecognized {D} `{lwis_vops D} w type bid offset val resp (d : D) :
  let es := [LWIS_IO_ENTRY_OTHER type; LWIS_IO_ENTRY_WRITE bid offset val] in
  (∃ p, process_turn w 2 false es (Progress 2 None resp) d = Ok (false, 0, d, p) ∧
     error_code (presp p) = - EINVAL) ∧
  ∃ ret p, process_turns w 3 1 es (Progress 2 None resp) d =
    Ok (ret, (register_io (LWIS_IO_ENTRY_WRITE bid offset val) w d).2, p).
Proof.
  split; [by eexists|]. cbn [process_turns].
  set (es := [_; _]). set (r := set_error (- EINVAL) (set_completion (-1) resp)).
  change (process_turn w 1 false es (Progress 2 None resp) d)
    with (@Ok (bool * Z * D * progress) (true, 0, d, Progress 1 (Some 0) r)).
  cbn [mbind outcome_bind]. unfold process_turn. cbv zeta. cbn [remaining starting_read_buf presp].
  change (take (Z.to_nat (if 1 <? 1 then 1 else 1)) (drop (Z.to_nat (Z.of_nat (length es) - 1)) es))
    with [LWIS_IO_ENTRY_WRITE bid offset val].
  cbn [process_entries process_entry run_dev]. destruct (register_io _ w d) as [reply d1].
  cbn. destruct (negb (io_ret reply =? 0)); cbn; by eexists _, _.
Qed.

(** C27: A transaction of at most 2^31 entries whose results fit with their header in 2^64
    bytes gets a response that is allocated as large as its header says, and is
    processed to its end (polls time out, turns make progress) without a write outside
    of the allocation, whatever the limit, the errors of the device and, in a single run,
    their being skipped. *)
Theorem lwis_response_never_overrun {D} `{lwis_vops D} w limit es id g (d : D) :
  0 <= w → lwis_reads w → lwis_clock _ → Forall (entry_ok) es → response_fits w es →
  ∃ resp, prepare_response_locked w true id es g = Ok (0, Some resp) ∧
    resp_size resp = sizeof_response_header + results_size_bytes resp ∧
    (0 < limit → ∃ r, process_turns w (S (length es)) limit es
       (Progress (Z.of_nat (length es)) None resp) d = Ok r) ∧
    ∃ r, process_turn w (Z.of_nat (length es)) true es
       (Progress (Z.of_nat (length es)) None resp) d = Ok r.
Proof.
  intros Hw Hreads Hclock Hes Hs.
  destruct (prepared w es id g Hw Hes Hs) as (resp & Hprep & _ & Hbytes & Hsize).
  exists resp. split; [done|]. split; [lia|]. split.
  - intros Hlim. destruct (turns_within w (S (length es)) limit es 0 None resp d)
      as (ret & d' & p' & Hrun); try done; [lia|rewrite drop_0, Hsize; cbn; lia|].
    rewrite Nat.sub_0_r in Hrun. eauto.
  - unfold process_turn. cbn [remaining starting_read_buf presp].
    rewrite Z.ltb_irrefl, Z.sub_diag, Nat2Z.id, firstn_all2, drop_0 by (rewrite length_drop; lia).
    edestruct (process_entries_within w true 0 es) as (r' & -> & _); [done|done| | |];
      cbn [run_read_buf run_resp default]; [lia|cbn in *; lia|].
    cbn [mbind outcome_bind]. destruct (_ && _); eauto.
Qed.

(** ** Witnesses *)

(** A device whose state is its clock and whose registers hold their offset; a
    read at 13 fails. *)
#[local] Instance demo_vops : lwis_vops Z := {|
  register_io e w d :=
    (match e with
     | LWIS_IO_ENTRY_READ _ offset | LWIS_IO_ENTRY_READ_V2 _ offset _ =>
         IoReply (if offset =? 13 then - EIO else 0) (le_bytes (Z.to_nat (Z.quot w 8)) offset)
     | LWIS_IO_ENTRY_READ_BATCH _ _ size | LWIS_IO_ENTRY_READ_BATCH_V2 _ _ size _ =>
         IoReply 0 (replicate (Z.to_nat size) 0)
     | _ => IoReply 0 []
     end, d);
  register_io_locked e w d := (IoReply 0 [], d);
  buffer_memcpy _ _ _ d := Ok d;
  ktime_ns d := Z.max 0 d;
  usleep us d := Z.max 0 d + 1000 * us;
  in_hardirq _ := false
|}.

Definition demo_entries : list io_entry :=
  [LWIS_IO_ENTRY_READ 0 4; LWIS_IO_ENTRY_WRITE 0 8 1; LWIS_IO_ENTRY_READ 0 13;
   LWIS_IO_ENTRY_READ 0 16].

Definition demo_response : response := Response 1 0 0 3 96 128 (λ _, 0).

(** The third entry fails, the first of the second turn. *)
Lemma lwis_turns_equal_single_run_witness :
  ∃ p', process_turns 32 5 2 demo_entries (Progress 4 None demo_response) 0 = Ok (- EIO, 0, p') ∧
    error_code (presp p') = - EIO ∧ completion_index (presp p') = -1.
Proof.
  destruct (lwis_turns_equal_single_run 32 2 demo_entries demo_response 0 false (- EIO) 0
    (Progress 0 None (set_completion 1 (set_error (- EIO)
       (set_results (mem_store (mem_store (mem_store (mem_store (mem_store (mem_store (mem_store
         (λ _, 0) 0 (le_bytes 4 0)) 8 (le_bytes 8 4)) 16 (le_bytes 8 4)) 24 (le_bytes 4 4))
         28 (le_bytes 4 0)) 36 (le_bytes 8 13)) 44 (le_bytes 8 4)) demo_response)))))
    as (p' & Hrun & _ & He & Hc); [by repeat constructor|lia|reflexivity|].
  exists p'. split; [exact Hrun|]. split; [exact He|exact Hc].
Defined.

Lemma lwis_response_never_overrun_witness :
  ∃ resp, prepare_response_locked 32 true 1 demo_entries (λ _, 0) = Ok (0, Some resp) ∧
    resp_size resp = 32 + results_size_bytes resp ∧
    (0 < 2 → ∃ r, process_turns 32 5 2 demo_entries (Progress 4 None resp) 0 = Ok r) ∧
    ∃ r, process_turn 32 4 true demo_entries (Progress 4 None resp) 0 = Ok r.
Proof.
  apply (lwis_response_never_overrun 32 2 demo_entries 1 (λ _, 0) 0);
    [lia| | |by repeat constructor|by split].
  - split.
    + intros e d _. destruct e; try done; cbn; rewrite length_le_bytes; done.
    + intros e d. destruct e; try done; cbn; rewrite length_replicate; lia.
  - split; cbn; intros; lia.
Defined.
