(* ===== verification/LwisTransaction.v ===== *)
(** * LWIS: transactions

    Model of [google-modules/lwis/lwis_transaction.c] and of the trigger
    conditions and completion fences of [lwis_fence.c].

    Transactions are structures in a heap by address, on the lists of their
    client: by the event that triggers them, pending on a trigger condition, or
    in the queue of the worker.  Arrays of I/O entries are in a heap of their own,
    for several transactions may share one.  Every operation returns the events
    and the fence signals it emits, in order; what these trigger in turn are
    operations that follow.  Sections under a lock are taken one after the other.
    The fences are the kernel's, an interface; so is the content of memory that
    [kmalloc] does not clear.  Small allocations succeed. *)

From S2P Require Import Prelude LwisIoEntry LwisProcess.

Definition LWIS_EVENT_ID_NONE : Z := 0.
Definition LWIS_EVENT_ID_CLIENT_CLEANUP : Z := 2.
Definition LWIS_EVENT_ID_EVENT_CODE_LEN : Z := 32.
Definition LWIS_OVERFLOW_IRQ_EVENT_FLAG : Z := 2 ^ 59.
Definition LWIS_EVENT_COUNTER_ON_NEXT_OCCURRENCE : Z := -1.
Definition LWIS_EVENT_COUNTER_EVERY_TIME : Z := -2.
Definition LWIS_NO_COMPLETION_FENCE : Z := -1.
Definition LWIS_CREATE_COMPLETION_FENCE : Z := -2.
Definition LWIS_FENCE_STATUS_NOT_SIGNALED : Z := 0.
Definition LWIS_FENCE_STATUS_SUCCESSFULLY_SIGNALED : Z := 1.
Definition LWIS_TRIGGER_NODES_MAX_NUM : Z := 16.


(** [struct lwis_transaction_trigger_node] *)
Inductive trigger_node :=
| LWIS_TRIGGER_EVENT (id counter precondition_fence_fd : Z)
| LWIS_TRIGGER_FENCE (fence_fd : Z).

(** [enum lwis_transaction_trigger_node_operator] *)
Inductive node_operator :=
| LWIS_TRIGGER_NODE_OPERATOR_INVALID
| LWIS_TRIGGER_NODE_OPERATOR_NONE
| LWIS_TRIGGER_NODE_OPERATOR_AND
| LWIS_TRIGGER_NODE_OPERATOR_OR.

(** [struct lwis_transaction_info]: [num_io_entries] is the length of the array
    at [io_entries]; the arrays of fixed size come with the number of elements
    in use that user space gave. *)
Record info := Info {
  info_id : Z;
  trigger_event_id : Z;
  trigger_event_counter : Z;
  current_trigger_event_counter : Z;
  operator_type : node_operator;
  trigger_nodes : list trigger_node;
  create_completion_fence_fd : Z;
  num_completion_fences : Z;
  completion_fence_fds : list Z;
  io_entries : Z;
  run_in_event_context : bool;
  emit_success_event_id : Z;
  emit_error_event_id : Z;
  is_level_triggered : bool;
  is_high_priority_transaction : bool;
  num_nested_transactions : Z;
  nested_transaction_ids : list Z;
  minimum_trigger_delay_ns : Z
}.

(** [struct lwis_transaction]; [where_] is what is left to process, with the
    response once there is one. *)
Record transaction := Transaction {
  tx_info : info;
  resp : option response;
  remaining_entries_to_process : Z;
  tx_read_buf : option Z;
  signaled_count : Z;
  queue_immediately : bool;
  trigger_fences : list Z;
  completion_fence_list : list Z;
  delayed_execution_timestamp : Z
}.

(** A transaction, or the weak one that stands for it on an event's list. *)
Inductive object :=
| Strong (t : transaction)
| Weak (id : Z) (precondition_fence : option Z).

Definition set_tx_resp (r : response) (t : transaction) : transaction :=
  Transaction t.(tx_info) (Some r) t.(remaining_entries_to_process) t.(tx_read_buf)
    t.(signaled_count) t.(queue_immediately) t.(trigger_fences) t.(completion_fence_list)
    t.(delayed_execution_timestamp).

Definition set_tx_progress (p : progress) (t : transaction) : transaction :=
  Transaction t.(tx_info) (Some p.(presp)) p.(remaining) p.(starting_read_buf)
    t.(signaled_count) t.(queue_immediately) t.(trigger_fences) t.(completion_fence_list)
    t.(delayed_execution_timestamp).

Definition set_signaled (n : Z) (t : transaction) : transaction :=
  Transaction t.(tx_info) t.(resp) t.(remaining_entries_to_process) t.(tx_read_buf)
    n t.(queue_immediately) t.(trigger_fences) t.(completion_fence_list)
    t.(delayed_execution_timestamp).

Definition set_queue_immediately (b : bool) (t : transaction) : transaction :=
  Transaction t.(tx_info) t.(resp) t.(remaining_entries_to_process) t.(tx_read_buf)
    t.(signaled_count) b t.(trigger_fences) t.(completion_fence_list)
    t.(delayed_execution_timestamp).

Definition set_trigger_fences (l : list Z) (t : transaction) : transaction :=
  Transaction t.(tx_info) t.(resp) t.(remaining_entries_to_process) t.(tx_read_buf)
    t.(signaled_count) t.(queue_immediately) l t.(completion_fence_list)
    t.(delayed_execution_timestamp).

Definition set_completion_fences (l : list Z) (t : transaction) : transaction :=
  Transaction t.(tx_info) t.(resp) t.(remaining_entries_to_process) t.(tx_read_buf)
    t.(signaled_count) t.(queue_immediately) t.(trigger_fences) l
    t.(delayed_execution_timestamp).

Definition set_delay (ns : Z) (t : transaction) : transaction :=
  Transaction t.(tx_info) t.(resp) t.(remaining_entries_to_process) t.(tx_read_buf)
    t.(signaled_count) t.(queue_immediately) t.(trigger_fences) t.(completion_fence_list) ns.

Definition set_ids (id cur : Z) (i : info) : info :=
  Info id i.(trigger_event_id) i.(trigger_event_counter) cur i.(operator_type) i.(trigger_nodes)
    i.(create_completion_fence_fd) i.(num_completion_fences) i.(completion_fence_fds)
    i.(io_entries) i.(run_in_event_context) i.(emit_success_event_id) i.(emit_error_event_id)
    i.(is_level_triggered) i.(is_high_priority_transaction) i.(num_nested_transactions)
    i.(nested_transaction_ids) i.(minimum_trigger_delay_ns).

Definition set_tx_info (i : info) (t : transaction) : transaction :=
  Transaction i t.(resp) t.(remaining_entries_to_process) t.(tx_read_buf)
    t.(signaled_count) t.(queue_immediately) t.(trigger_fences) t.(completion_fence_list)
    t.(delayed_execution_timestamp).

(** The client and its device: the objects, the arrays of entries, the lists by
    event (in the order they were created), those pending on a condition, the
    queue, whether a work is queued for the worker, the events seen by the
    device with their counters, the fences and the device. *)
Record client (F D : Type) := Client {
  objects : gmap Z object;
  io_arrays : gmap Z (list io_entry);
  transaction_list : list (Z * list Z);
  pending_transactions : list Z;
  transaction_process_queue : list Z;
  worker_queued : bool;
  flushing : bool;
  is_enabled : bool;
  transaction_counter : Z;
  event_counters : gmap Z Z;
  fences : F;
  cdev : D
}.

Arguments Client {F D}.
Arguments objects {F D}.
Arguments io_arrays {F D}.
Arguments transaction_list {F D}.
Arguments pending_transactions {F D}.
Arguments transaction_process_queue {F D}.
Arguments worker_queued {F D}.
Arguments flushing {F D}.
Arguments is_enabled {F D}.
Arguments transaction_counter {F D}.
Arguments event_counters {F D}.
Arguments fences {F D}.
Arguments cdev {F D}.

(** What an operation emits: events with their payload, and fences with the
    status they are signaled with. *)
Record emitted := Emitted {
  events : list (Z * response);
  signals : list (Z * Z)
}.

Definition nothing : emitted := Emitted [] [].

Definition then_emit (a b : emitted) : emitted :=
  Emitted (a.(events) ++ b.(events)) (a.(signals) ++ b.(signals)).

(** The fences of the kernel and of [lwis_fence.c], by their address: the fence
    of a descriptor, its status, and the registration of a transaction to be
    triggered, which fails on a fence that is signaled. *)
Class lwis_fences (F : Type) := {
  lwis_dma_fence_get : F → Z → option Z;
  dma_fence_get_status : F → Z → Z;
  dma_fence_add_callback : Z → Z → F → bool * F
}.

(** A device as the transactions see it, and what [kmalloc] returns: an address,
    by what is allocated, of memory with some content. *)
Record config := Config {
  native_value_bitwidth : Z;
  transaction_process_limit : Z;
  is_top_device : bool;
  is_i2c_device : bool;
  device_id : Z;
  new_address : gmap Z object → Z;
  garbage : Z;
  garbage_bytes : memory
}.

(** ** The client's fields *)

Section Fields.
Context {F D : Type}.
Implicit Types c : client F D.

Definition set_objects (o : gmap Z object) c : client F D :=
  Client o c.(io_arrays) c.(transaction_list) c.(pending_transactions)
    c.(transaction_process_queue) c.(worker_queued) c.(flushing) c.(is_enabled)
    c.(transaction_counter) c.(event_counters) c.(fences) c.(cdev).

Definition set_arrays (a : gmap Z (list io_entry)) c : client F D :=
  Client c.(objects) a c.(transaction_list) c.(pending_transactions)
    c.(transaction_process_queue) c.(worker_queued) c.(flushing) c.(is_enabled)
    c.(transaction_counter) c.(event_counters) c.(fences) c.(cdev).

Definition set_lists (l : list (Z * list Z)) c : client F D :=
  Client c.(objects) c.(io_arrays) l c.(pending_transactions)
    c.(transaction_process_queue) c.(worker_queued) c.(flushing) c.(is_enabled)
    c.(transaction_counter) c.(event_counters) c.(fences) c.(cdev).

Definition set_pending (l : list Z) c : client F D :=
  Client c.(objects) c.(io_arrays) c.(transaction_list) l
    c.(transaction_process_queue) c.(worker_queued) c.(flushing) c.(is_enabled)
    c.(transaction_counter) c.(event_counters) c.(fences) c.(cdev).

Definition set_queue (l : list Z) c : client F D :=
  Client c.(objects) c.(io_arrays) c.(transaction_list) c.(pending_transactions)
    l c.(worker_queued) c.(flushing) c.(is_enabled)
    c.(transaction_counter) c.(event_counters) c.(fences) c.(cdev).

Definition set_worker (b : bool) c : client F D :=
  Client c.(objects) c.(io_arrays) c.(transaction_list) c.(pending_transactions)
    c.(transaction_process_queue) b c.(flushing) c.(is_enabled)
    c.(transaction_counter) c.(event_counters) c.(fences) c.(cdev).

Definition set_flushing (b : bool) c : client F D :=
  Client c.(objects) c.(io_arrays) c.(transaction_list) c.(pending_transactions)
    c.(transaction_process_queue) c.(worker_queued) b c.(is_enabled)
    c.(transaction_counter) c.(event_counters) c.(fences) c.(cdev).

Definition set_counters (n : Z) (e : gmap Z Z) c : client F D :=
  Client c.(objects) c.(io_arrays) c.(transaction_list) c.(pending_transactions)
    c.(transaction_process_queue) c.(worker_queued) c.(flushing) c.(is_enabled)
    n e c.(fences) c.(cdev).

Definition set_fences (f : F) c : client F D :=
  Client c.(objects) c.(io_arrays) c.(transaction_list) c.(pending_transactions)
    c.(transaction_process_queue) c.(worker_queued) c.(flushing) c.(is_enabled)
    c.(transaction_counter) c.(event_counters) f c.(cdev).

Definition set_dev (d : D) c : client F D :=
  Client c.(objects) c.(io_arrays) c.(transaction_list) c.(pending_transactions)
    c.(transaction_process_queue) c.(worker_queued) c.(flushing) c.(is_enabled)
    c.(transaction_counter) c.(event_counters) c.(fences) d.

(** The transaction at an address that must hold one. *)
Definition tx_at (a : Z) c : outcome transaction :=
  match c.(objects) !! a with Some (Strong t) => Ok t | _ => Undef end.

Definition store_tx (a : Z) (t : transaction) c : client F D :=
  set_objects (<[a := Strong t]> c.(objects)) c.

Definition kfree (a : Z) c : client F D := set_objects (delete a c.(objects)) c.

(** [list_del] of a node that is on no list is harmless once. *)
Definition list_del (a : Z) (l : list Z) : list Z := filter (λ x, x <> a) l.

Definition lwis_queue_device_worker c : client F D := set_worker true c.

(** ** Lists by event *)

Fixpoint find_list (event_id : Z) (ls : list (Z * list Z)) : option (list Z) :=
  match ls with
  | [] => None
  | (id, l) :: ls => if id =? event_id then Some l else find_list event_id ls
  end.

(** The list of an event changes in place. *)
Fixpoint update_list (event_id : Z) (f : list Z → list Z) (ls : list (Z * list Z)) :
    list (Z * list Z) :=
  match ls with
  | [] => []
  | (id, l) :: ls =>
      if id =? event_id then (id, f l) :: ls else (id, l) :: update_list event_id f ls
  end.

Definition event_list_find c (event_id : Z) : option (list Z) :=
  find_list event_id c.(transaction_list).

Definition event_list_create c (event_id : Z) : client F D :=
  set_lists (c.(transaction_list) ++ [(event_id, [])]) c.

Definition event_list_find_or_create c (event_id : Z) : client F D :=
  match event_list_find c event_id with
  | Some _ => c
  | None => event_list_create c event_id
  end.

(** [list_add_tail] on the list of an event. *)
Definition event_list_add (event_id a : Z) c : client F D :=
  set_lists (update_list event_id (λ l, l ++ [a]) c.(transaction_list)) c.

Definition event_list_del (event_id a : Z) c : client F D :=
  set_lists (update_list event_id (list_del a) c.(transaction_list)) c.

(** ** Pending transactions and the queue *)

Definition add_pending_transaction (a : Z) c : client F D :=
  set_pending (a :: c.(pending_transactions)) c.

Definition pending_del (a : Z) c : client F D :=
  set_pending (list_del a c.(pending_transactions)) c.

Fixpoint find_pending (l : list Z) (transaction_id : Z) c : outcome (option Z) :=
  match l with
  | [] => Ok None
  | a :: l =>
      t ← tx_at a c;
      if t.(tx_info).(info_id) =? transaction_id then Ok (Some a)
      else find_pending l transaction_id c
  end.

Definition pending_transaction_peek c (transaction_id : Z) : outcome (option Z) :=
  find_pending c.(pending_transactions) transaction_id c.

(** A high priority transaction goes first; the bus is told of the client too. *)
Definition add_transaction_to_queue_locked (a : Z) c : outcome (client F D) :=
  t ← tx_at a c;
  if t.(tx_info).(is_high_priority_transaction)
  then Ok (set_queue (a :: c.(transaction_process_queue)) c)
  else Ok (set_queue (c.(transaction_process_queue) ++ [a]) c).

Definition queue_del (a : Z) c : client F D :=
  set_queue (list_del a c.(transaction_process_queue)) c.

(** The response of a transaction that has been submitted. *)
Definition resp_of (t : transaction) : outcome response := must t.(resp).

(** ** The end of a transaction *)

(** The entries are read as they are freed with their array. *)
Definition lwis_transaction_free (a : Z) c : outcome (client F D) :=
  o ← must (c.(objects) !! a);
  match o with
  | Weak _ _ => Ok (kfree a c)
  | Strong t =>
      let arr := t.(tx_info).(io_entries) in
      _ ← must (c.(io_arrays) !! arr);
      Ok (kfree a (set_arrays (delete arr c.(io_arrays)) c))
  end.

(** [lwis_pending_fences_move_all] *)
Definition fences_to_signal (t : transaction) (error_code : Z) : list (Z * Z) :=
  (λ f, (f, error_code)) <$> t.(completion_fence_list).

Definition cancel_transaction (a error_code : Z) (pending_events pending_fences : bool)
    (delete_pending_map_node : bool) c : outcome (client F D * emitted) :=
  o ← must (c.(objects) !! a);
  match o with
  | Weak _ _ => c ← lwis_transaction_free a c; Ok (c, nothing)
  | Strong t =>
      let i := t.(tx_info) in
      let r := Response i.(info_id) error_code (-1) 0 0 sizeof_response_header (λ _, 0) in
      let ev := if pending_events && negb (i.(emit_error_event_id) =? LWIS_EVENT_ID_NONE)
                then [(i.(emit_error_event_id), r)] else [] in
      let sg := if pending_fences then fences_to_signal t error_code else [] in
      let c := if delete_pending_map_node then pending_del a c else c in
      c ← lwis_transaction_free a c;
      Ok (c, Emitted ev sg)
  end.

End Fields.

(** ** Processing *)

Section Transactions.
Context {F D : Type} `{lwis_vops D} `{lwis_fences F} (cfg : config).
Implicit Types c : client F D.

(** The wait of a delayed transaction. *)
Definition delayed_execution (t : transaction) (d : D) : D :=
  let remaining_us := Z.quot (t.(delayed_execution_timestamp) - ktime_ns d) 1000 in
  if 0 <? remaining_us then usleep remaining_us d else d.

(** What [process_transaction] returns, whether the transaction is gone, the
    client, and what it emits. *)
Definition process_transaction (a : Z) (pending_events pending_fences : bool)
    (skip_err check_transaction_limit : bool) c : outcome (Z * bool * client F D * emitted) :=
  t ← tx_at a c;
  let i := t.(tx_info) in
  r ← resp_of t;
  es ← must (c.(io_arrays) !! i.(io_entries));
  let max_limit := turn_limit cfg.(transaction_process_limit) (Z.of_nat (length es))
                     i.(run_in_event_context) skip_err check_transaction_limit in
  '(more, ret, d, p) ← process_turn cfg.(native_value_bitwidth) max_limit skip_err es
    (Progress t.(remaining_entries_to_process) t.(tx_read_buf) r)
    (delayed_execution t c.(cdev));
  let c := store_tx a (set_tx_progress p t) (set_dev d c) in
  if (more : bool) then Ok (ret, false, c, nothing)
  else
    let r := p.(presp) in
    let output_event := if negb (r.(error_code) =? 0) then i.(emit_error_event_id)
                        else i.(emit_success_event_id) in
    let ev := if pending_events && negb (output_event =? LWIS_EVENT_ID_NONE)
              then [(output_event, r)] else [] in
    let sg := if pending_fences then fences_to_signal t r.(error_code) else [] in
    let c := if check_transaction_limit then queue_del a c else c in
    c ← (if i.(trigger_event_counter) =? LWIS_EVENT_COUNTER_EVERY_TIME then Ok (kfree a c)
         else lwis_transaction_free a c);
    Ok (ret, true, c, Emitted ev sg).

(** After a turn: whether the worker stops there, because entries remain. *)
Definition process_broken_transaction (a : Z) (gone : bool) c :
    outcome (bool * client F D * emitted) :=
  if gone then Ok (false, c, nothing)
  else
    t ← tx_at a c;
    if 0 <? t.(remaining_entries_to_process) then
      if c.(flushing) then
        r ← resp_of t;
        '(c, em) ← cancel_transaction a r.(error_code) true true false (queue_del a c);
        Ok (true, c, em)
      else Ok (true, lwis_queue_device_worker c, nothing)
    else Ok (false, c, nothing).

(** The walk of the worker over the queue as it is when the walk begins. *)
Fixpoint process_queue (high_priority : bool) (l : list Z) c (em : emitted) :
    outcome (client F D * emitted) :=
  match l with
  | [] => Ok (c, em)
  | a :: l =>
      if negb c.(is_enabled) && negb cfg.(is_top_device) then Ok (c, nothing)
      else
        t ← tx_at a c;
        if high_priority && negb t.(tx_info).(is_high_priority_transaction)
        then process_queue high_priority l c em
        else
          r ← resp_of t;
          if negb (r.(error_code) =? 0) then
            '(c, em') ← cancel_transaction a r.(error_code) true true false (queue_del a c);
            process_queue high_priority l c (then_emit em em')
          else
            '(_, gone, c, em') ← process_transaction a true true false (negb high_priority) c;
            (* the node of a transaction that is gone is reached through NULL *)
            c ← (if high_priority then if (gone : bool) then Undef else Ok (queue_del a c)
                 else Ok c);
            '(stop, c, em'') ← process_broken_transaction a gone c;
            let em := then_emit (then_emit em em') em'' in
            if (stop : bool) then Ok (c, em) else process_queue high_priority l c em
  end.

Definition lwis_process_transactions_in_queue (process_high_priority_transaction : bool) c :
    outcome (client F D * emitted) :=
  process_queue process_high_priority_transaction c.(transaction_process_queue) c nothing.

(** The worker of the device takes the work queued for it. *)
Definition run_worker c : outcome (client F D * emitted) :=
  if c.(worker_queued)
  then lwis_process_transactions_in_queue false (set_worker false c)
  else Ok (c, nothing).

(** ** Flush and clean-up *)

Fixpoint cancel_all (l : list Z) (del_pending : bool) c : outcome (client F D) :=
  match l with
  | [] => Ok c
  | a :: l =>
      '(c, _) ← cancel_transaction a (- ECANCELED) false false del_pending c;
      cancel_all l del_pending c
  end.

Definition is_cleanup_list (event_id : Z) : bool :=
  Z.land event_id 0xFFFF0000FFFFFFFF =? LWIS_EVENT_ID_CLIENT_CLEANUP.

(** The lists by event, but those of the clean-up. *)
Fixpoint flush_lists (ls : list (Z * list Z)) c : outcome (list (Z * list Z) * client F D) :=
  match ls with
  | [] => Ok ([], c)
  | (id, l) :: ls =>
      if is_cleanup_list id then
        '(rest, c) ← flush_lists ls c; Ok ((id, l) :: rest, c)
      else
        c ← cancel_all l false c;
        flush_lists ls c
  end.

Definition lwis_transaction_client_flush c : outcome (client F D * emitted) :=
  '(ls, c) ← flush_lists c.(transaction_list) c;
  let c := set_lists ls c in
  c ← cancel_all c.(pending_transactions) true c;
  '(c, em) ← run_worker (set_flushing true c);
  let c := set_flushing false c in
  let queue := c.(transaction_process_queue) in
  c ← cancel_all queue false (set_queue [] c);
  Ok (c, em).

(** The transactions of the clean-up list in turn; [enabled] is the device's. *)
Fixpoint cleanup_list (enabled : bool) (l : list Z) c : outcome (client F D) :=
  match l with
  | [] => Ok c
  | a :: l =>
      t ← tx_at a c;
      r ← resp_of t;
      c ← (if negb (r.(error_code) =? 0) || negb enabled then
             '(c, _) ← cancel_transaction a (- ECANCELED) false false false c; Ok c
           else
             '(_, _, c, _) ← process_transaction a false false true false c; Ok c);
      cleanup_list enabled l c
  end.

Definition cleanup_event_id : Z :=
  Z.lor LWIS_EVENT_ID_CLIENT_CLEANUP
    (Z.shiftl cfg.(device_id) LWIS_EVENT_ID_EVENT_CODE_LEN).

Fixpoint remove_list (event_id : Z) (ls : list (Z * list Z)) : list (Z * list Z) :=
  match ls with
  | [] => []
  | (id, l) :: ls => if id =? event_id then ls else (id, l) :: remove_list event_id ls
  end.

Definition lwis_transaction_client_cleanup (enabled : bool) c : outcome (client F D) :=
  match event_list_find c cleanup_event_id with
  | None => Ok c
  | Some l =>
      c ← cleanup_list enabled l c;
      Ok (set_lists (remove_list cleanup_event_id c.(transaction_list)) c)
  end.

(** ** Triggers *)

Definition lwis_triggered_by_condition (i : info) : bool :=
  match i.(trigger_nodes) with [] => false | _ => true end.

Definition num_nodes (i : info) : Z := Z.of_nat (length i.(trigger_nodes)).

(** Whether a fence signaled with [fence_status] completes the condition, and the
    transaction with one more node signaled. *)
Definition lwis_fence_triggered_condition_ready (t : transaction) (fence_status : Z) :
    bool * transaction :=
  let i := t.(tx_info) in
  let n := s32 (t.(signaled_count) + 1) in
  let t := set_signaled n t in
  let and := match i.(operator_type) with LWIS_TRIGGER_NODE_OPERATOR_AND => true | _ => false end in
  let or := match i.(operator_type) with LWIS_TRIGGER_NODE_OPERATOR_OR => true | _ => false end in
  let none := match i.(operator_type) with LWIS_TRIGGER_NODE_OPERATOR_NONE => true | _ => false end in
  if (and || or) && (n =? num_nodes i) then (true, t)
  else if and && negb (fence_status =? LWIS_FENCE_STATUS_SUCCESSFULLY_SIGNALED) then (true, t)
  else if or && (fence_status =? LWIS_FENCE_STATUS_SUCCESSFULLY_SIGNALED) then (true, t)
  else if none then (true, t)
  else (false, t).

(** The node of the condition that an event signals: none, or the first with its
    id whose counter, or else whose precondition, agrees. *)
Fixpoint node_signaled (nodes : list trigger_node) (event_id event_counter : Z)
    (precondition : option Z) (f : F) : bool :=
  match nodes with
  | [] => false
  | LWIS_TRIGGER_EVENT id counter _ :: nodes =>
      if id =? event_id then
        if (counter =? event_counter)
           || ((counter =? LWIS_EVENT_COUNTER_ON_NEXT_OCCURRENCE)
               && match precondition with
                  | None => true
                  | Some p => dma_fence_get_status f p =? LWIS_FENCE_STATUS_SUCCESSFULLY_SIGNALED
                  end)
        then true
        else node_signaled nodes event_id event_counter precondition f
      else node_signaled nodes event_id event_counter precondition f
  | _ :: nodes => node_signaled nodes event_id event_counter precondition f
  end.

(** Whether the event completes the condition of the transaction at [a], for the
    weak one at [weak], freed if it signals a node. *)
Definition lwis_event_triggered_condition_ready (a weak : Z) (precondition : option Z)
    (event_id event_counter : Z) c : outcome (bool * client F D) :=
  t ← tx_at a c;
  let i := t.(tx_info) in
  if node_signaled i.(trigger_nodes) event_id event_counter precondition c.(fences) then
    let t := set_signaled (s32 (t.(signaled_count) + 1)) t in
    let c := kfree weak (event_list_del event_id weak (store_tx a t c)) in
    match i.(operator_type) with
    | LWIS_TRIGGER_NODE_OPERATOR_AND => Ok (t.(signaled_count) =? num_nodes i, c)
    | LWIS_TRIGGER_NODE_OPERATOR_OR | LWIS_TRIGGER_NODE_OPERATOR_NONE => Ok (true, c)
    | LWIS_TRIGGER_NODE_OPERATOR_INVALID => Ok (false, c)
    end
  else Ok (false, c).

(** A transaction is run at once or queued; [hardirq] is the context. *)
Definition defer_transaction_locked (hardirq : bool) (a : Z) c : outcome (client F D * emitted) :=
  t ← tx_at a c;
  if hardirq && cfg.(is_i2c_device) then
    c ← add_transaction_to_queue_locked a c; Ok (c, nothing)
  else if t.(tx_info).(run_in_event_context) then
    '(_, _, c, em) ← process_transaction a true true false false c;
    Ok (c, em)
  else c ← add_transaction_to_queue_locked a c; Ok (c, nothing).

(** A copy for one iteration; what is not set has the content of its memory. *)
Definition new_repeating_transaction_iteration (num_io_entries : Z) (t : transaction) :
    outcome transaction :=
  r ← resp_of t;
  Ok (Transaction t.(tx_info) (Some (set_results cfg.(garbage_bytes) r)) num_io_entries None
        cfg.(garbage) (negb (cfg.(garbage) =? 0)) [] [] cfg.(garbage)).

Definition allocate_object (o : object) c : Z * client F D :=
  let a := cfg.(new_address) c.(objects) in
  (a, set_objects (<[a := o]> c.(objects)) c).

(** One node of an event's list. *)
Definition trigger_one (hardirq : bool) (event_id event_counter : Z) (a : Z) c :
    outcome (client F D * emitted) :=
  o ← must (c.(objects) !! a);
  match o with
  | Weak id precondition =>
      found ← pending_transaction_peek c id;
      match found with
      | None => Ok (kfree a (event_list_del event_id a c), nothing)
      | Some b =>
          t ← tx_at b c;
          r ← resp_of t;
          if negb (r.(error_code) =? 0) then
            c ← add_transaction_to_queue_locked b c; Ok (pending_del b c, nothing)
          else
            '(ready, c) ← lwis_event_triggered_condition_ready b a precondition event_id
                            event_counter c;
            if (ready : bool) then defer_transaction_locked hardirq b (pending_del b c)
            else Ok (c, nothing)
      end
  | Strong t =>
      r ← resp_of t;
      if negb (r.(error_code) =? 0) then
        c ← add_transaction_to_queue_locked a c; Ok (event_list_del event_id a c, nothing)
      else
        let trigger_counter := t.(tx_info).(trigger_event_counter) in
        if (trigger_counter =? LWIS_EVENT_COUNTER_ON_NEXT_OCCURRENCE)
           || (trigger_counter =? event_counter)
        then defer_transaction_locked hardirq a (event_list_del event_id a c)
        else if trigger_counter =? LWIS_EVENT_COUNTER_EVERY_TIME then
          es ← must (c.(io_arrays) !! t.(tx_info).(io_entries));
          n ← new_repeating_transaction_iteration (Z.of_nat (length es)) t;
          let '(b, c) := allocate_object (Strong n) c in
          defer_transaction_locked hardirq b c
        else Ok (c, nothing)
  end.

Fixpoint trigger_all (hardirq : bool) (event_id event_counter : Z) (l : list Z) c
    (em : emitted) : outcome (client F D * emitted) :=
  match l with
  | [] => Ok (c, em)
  | a :: l =>
      '(c, em') ← trigger_one hardirq event_id event_counter a c;
      trigger_all hardirq event_id event_counter l c (then_emit em em')
  end.

(** The worker is told of a queue that is not empty. *)
Definition queue_if_any c : client F D :=
  match c.(transaction_process_queue) with [] => c | _ => lwis_queue_device_worker c end.

Definition lwis_transaction_event_trigger (hardirq : bool) (event_id event_counter : Z) c :
    outcome (client F D * emitted) :=
  let event_id :=
    if negb (Z.land event_id LWIS_OVERFLOW_IRQ_EVENT_FLAG =? 0)
    then Z.lxor event_id LWIS_OVERFLOW_IRQ_EVENT_FLAG else event_id in
  match event_list_find c event_id with
  | None | Some [] => Ok (c, nothing)
  | Some l =>
      '(c, em) ← trigger_all hardirq event_id event_counter l c nothing;
      Ok (queue_if_any c, em)
  end.

Definition lwis_transaction_fence_trigger (fence transaction_id : Z) c :
    outcome (client F D * emitted) :=
  found ← pending_transaction_peek c transaction_id;
  '(c, em) ←
    match found with
    | None => Ok (c, nothing)
    | Some a =>
        t ← tx_at a c;
        let fence_status := dma_fence_get_status c.(fences) fence in
        let '(ready, t) := lwis_fence_triggered_condition_ready t fence_status in
        let c := store_tx a t c in
        if (ready : bool) then
          let c := pending_del a c in
          if fence_status =? LWIS_FENCE_STATUS_SUCCESSFULLY_SIGNALED then
            c ← add_transaction_to_queue_locked a c; Ok (c, nothing)
          else cancel_transaction a (- ECANCELED) true true false c
        else Ok (c, nothing)
    end;
  Ok (queue_if_any c, em).

(** ** Cancellation *)

(** Where a transaction waits on the lists by event: comparing ids reads the
    memory of a weak one, which has none; taking it for the transaction writes
    through its response, which it has not either. *)
Fixpoint find_waiting (l : list Z) (id : Z) c : outcome (option Z) :=
  match l with
  | [] => Ok None
  | a :: l =>
      o ← must (c.(objects) !! a);
      match o with
      | Weak _ _ => if cfg.(garbage) =? id then Undef else find_waiting l id c
      | Strong t => if t.(tx_info).(info_id) =? id then Ok (Some a) else find_waiting l id c
      end
  end.

Definition fail_transaction (a : Z) c : outcome (client F D) :=
  t ← tx_at a c;
  r ← resp_of t;
  Ok (store_tx a (set_tx_resp (set_error (- ECANCELED) r) t) c).

(** Nested transactions are cancelled first; [fuel] bounds their depth, and the
    ids are read from an array of eight. *)
Fixpoint cancel_waiting_transaction_locked (fuel : nat) (id : Z) c : outcome (Z * client F D) :=
  match fuel with
  | O => Blocked
  | S fuel =>
      found ← find_waiting (c.(transaction_list) ≫= snd) id c;
      match found with
      | Some a => c ← fail_transaction a c; Ok (0, c)
      | None =>
          found ← pending_transaction_peek c id;
          match found with
          | None => Ok (- ENOENT, c)
          | Some a =>
              t ← tx_at a c;
              let i := t.(tx_info) in
              c ← (fix nested (k : nat) (c : client F D) : outcome (client F D) :=
                     match k with
                     | O => Ok c
                     | S k =>
                         c ← nested k c;
                         n ← must (i.(nested_transaction_ids) !! k);
                         '(_, c) ← cancel_waiting_transaction_locked fuel n c;
                         Ok c
                     end) (Z.to_nat i.(num_nested_transactions)) c;
              c ← fail_transaction a c;
              Ok (0, c)
          end
      end
  end.

Definition lwis_transaction_cancel (fuel : nat) (id : Z) c : outcome (Z * client F D) :=
  cancel_waiting_transaction_locked fuel id c.

(** ** Submission *)

Definition explicit_event_counter (x : Z) : bool :=
  negb (x =? LWIS_EVENT_COUNTER_ON_NEXT_OCCURRENCE) && negb (x =? LWIS_EVENT_COUNTER_EVERY_TIME).

(** [lwis_device_event_state_find_or_create]: an event not seen yet counts 0. *)
Definition event_state_find_or_create (event_id : Z) (e : gmap Z Z) : gmap Z Z :=
  match e !! event_id with Some _ => e | None => <[event_id := 0]> e end.

(** The return value, the transaction and the client. *)
Definition check_transaction_param_locked (t : transaction) c : Z * transaction * client F D :=
  let i := t.(tx_info) in
  let id := c.(transaction_counter) in
  let e := c.(event_counters) in
  let c := set_counters (s64 (id + 1)) e c in
  let cur := if negb (i.(trigger_event_id) =? LWIS_EVENT_ID_NONE)
             then default 0 (e !! i.(trigger_event_id)) else -1 in
  let t := set_tx_info (set_ids id cur i) t in
  let t := if (i.(trigger_event_id) =? LWIS_EVENT_ID_NONE) && negb (lwis_triggered_by_condition i)
           then set_queue_immediately true t else t in
  let counted := negb (i.(trigger_event_id) =? LWIS_EVENT_ID_NONE)
                 && explicit_event_counter i.(trigger_event_counter) in
  if counted && ((i.(trigger_event_counter) <? cur)
                 || ((i.(trigger_event_counter) =? cur) && negb i.(is_level_triggered)))
  then (- ENOENT, t, c)
  else
    let t := if counted && (i.(trigger_event_counter) =? cur)
             then set_queue_immediately true t else t in
    if ((i.(emit_success_event_id) =? LWIS_EVENT_ID_NONE)
        || (i.(emit_error_event_id) =? LWIS_EVENT_ID_NONE))
       && (i.(create_completion_fence_fd) =? LWIS_NO_COMPLETION_FENCE)
       && (i.(num_completion_fences) =? 0)
    then (- EINVAL, t, c)
    else
      let e := if i.(emit_success_event_id) =? LWIS_EVENT_ID_NONE then e
               else event_state_find_or_create i.(emit_success_event_id) e in
      let e := if i.(emit_error_event_id) =? LWIS_EVENT_ID_NONE then e
               else event_state_find_or_create i.(emit_error_event_id) e in
      (0, t, set_counters (s64 (id + 1)) e c).

Definition lwis_trigger_event_add_weak_transaction (transaction_id event_id : Z)
    (precondition_fence_fd : Z) c : Z * client F D :=
  let precondition := if 0 <=? precondition_fence_fd
                      then lwis_dma_fence_get c.(fences) precondition_fence_fd else None in
  if (0 <=? precondition_fence_fd) && bool_decide (precondition = None) then (- EBADF, c)
  else
    let '(a, c) := allocate_object (Weak transaction_id precondition) c in
    (0, event_list_add event_id a (event_list_find_or_create c event_id)).

(** One node of a condition, for the transaction at [a]: an event... *)
Definition trigger_event_add_transaction (a id counter precondition_fence_fd : Z) c :
    outcome (Z * client F D) :=
  t ← tx_at a c;
  let i := t.(tx_info) in
  let weak := lwis_trigger_event_add_weak_transaction i.(info_id) id precondition_fence_fd c in
  match c.(event_counters) !! id with
  | Some n =>
      if i.(is_level_triggered) && explicit_event_counter counter && (counter =? n) then
        let fence := lwis_dma_fence_get c.(fences) precondition_fence_fd in
        match (if 0 <=? precondition_fence_fd then fence else Some 0) with
        | None => Ok (- EBADF, c)
        | Some f =>
            if (precondition_fence_fd <? 0)
               || (dma_fence_get_status c.(fences) f =? LWIS_FENCE_STATUS_SUCCESSFULLY_SIGNALED)
            then
              let n := s32 (t.(signaled_count) + 1) in
              let ready := match i.(operator_type) with
                           | LWIS_TRIGGER_NODE_OPERATOR_AND => n =? num_nodes i
                           | _ => true
                           end in
              Ok (0, store_tx a (set_queue_immediately ready (set_signaled n t)) c)
            else Ok weak
        end
      else Ok weak
  | None => Ok weak
  end.

(** ... or a fence. *)
Definition trigger_fence_add_transaction (a fence_fd : Z) c : outcome (Z * client F D) :=
  t ← tx_at a c;
  let i := t.(tx_info) in
  match lwis_dma_fence_get c.(fences) fence_fd with
  | None => Ok (- EBADF, c)
  | Some fence =>
      let '(added, f) := dma_fence_add_callback fence i.(info_id) c.(fences) in
      let c := set_fences f c in
      if (added : bool) then
        Ok (0, store_tx a (set_trigger_fences (fence :: t.(trigger_fences)) t) c)
      else
        let status := dma_fence_get_status c.(fences) fence in
        if negb i.(is_level_triggered) then Ok (- EINVAL, c)
        else
          let t := set_trigger_fences (fence :: t.(trigger_fences)) t in
          let '(ready, t) := lwis_fence_triggered_condition_ready t status in
          if (ready : bool) then
            r ← resp_of t;
            let t := if negb (status =? LWIS_FENCE_STATUS_SUCCESSFULLY_SIGNALED)
                     then set_tx_resp (set_error (- ECANCELED) r) t else t in
            Ok (0, store_tx a (set_queue_immediately true t) c)
          else Ok (0, store_tx a t c)
  end.

Fixpoint parse_nodes (a : Z) (nodes : list trigger_node) c : outcome (Z * client F D) :=
  match nodes with
  | [] => Ok (0, c)
  | node :: nodes =>
      '(ret, c) ←
        match node with
        | LWIS_TRIGGER_EVENT id counter fd => trigger_event_add_transaction a id counter fd c
        | LWIS_TRIGGER_FENCE fd => trigger_fence_add_transaction a fd c
        end;
      if negb (ret =? 0) then Ok (ret, c) else parse_nodes a nodes c
  end.

Definition lwis_parse_trigger_condition (a : Z) c : outcome (Z * client F D) :=
  t ← tx_at a c;
  if LWIS_TRIGGER_NODES_MAX_NUM <? num_nodes t.(tx_info) then Ok (- EINVAL, c)
  else parse_nodes a t.(tx_info).(trigger_nodes) c.

Definition add_completion_fence (a fence_fd : Z) c : outcome (Z * client F D) :=
  t ← tx_at a c;
  match lwis_dma_fence_get c.(fences) fence_fd with
  | None => Ok (- EBADF, c)
  | Some f => Ok (0, store_tx a (set_completion_fences (f :: t.(completion_fence_list)) t) c)
  end.

(** The external fences from index [k] on; the descriptors are in an array of
    eight, their number is what user space gave. *)
Fixpoint add_external_fences (a : Z) (i : info) (n : nat) (k : nat) c : outcome (Z * client F D) :=
  match n with
  | O => Ok (0, c)
  | S n =>
      fd ← must (i.(completion_fence_fds) !! k);
      if fd <? 0 then Ok (- EINVAL, c)
      else
        '(ret, c) ← add_completion_fence a fd c;
        if negb (ret =? 0) then Ok (ret, c) else add_external_fences a i n (S k) c
  end.

Definition lwis_add_completion_fences_to_transaction (a : Z) c : outcome (Z * client F D) :=
  t ← tx_at a c;
  let i := t.(tx_info) in
  if i.(create_completion_fence_fd) =? LWIS_CREATE_COMPLETION_FENCE then Ok (- EPERM, c)
  else
    '(ret, c) ← (if 0 <=? i.(create_completion_fence_fd)
                 then add_completion_fence a i.(create_completion_fence_fd) c else Ok (0, c));
    if negb (ret =? 0) then Ok (ret, c)
    else add_external_fences a i (Z.to_nat i.(num_completion_fences)) 0 c.

Definition prepare_transaction_fences_locked (a : Z) c : outcome (Z * client F D) :=
  t ← tx_at a c;
  '(ret, c) ← (if lwis_triggered_by_condition t.(tx_info)
               then lwis_parse_trigger_condition a c else Ok (0, c));
  if negb (ret =? 0) then Ok (ret, c) else lwis_add_completion_fences_to_transaction a c.

Definition queue_transaction_locked (a : Z) c : outcome (Z * client F D) :=
  t ← tx_at a c;
  let i := t.(tx_info) in
  c ← (if t.(queue_immediately) then
         c ← add_transaction_to_queue_locked a c; Ok (lwis_queue_device_worker c)
       else if lwis_triggered_by_condition i then Ok (add_pending_transaction a c)
       else Ok (event_list_add i.(trigger_event_id) a
                  (event_list_find_or_create c i.(trigger_event_id))));
  t ← tx_at a c;
  Ok (0, if 0 <? i.(minimum_trigger_delay_ns)
         then store_tx a (set_delay (ktime_ns c.(cdev) + i.(minimum_trigger_delay_ns)) t) c
         else c).

Definition lwis_transaction_submit_locked (a : Z) c : outcome (Z * client F D) :=
  t ← tx_at a c;
  es ← must (c.(io_arrays) !! t.(tx_info).(io_entries));
  let '(ret, t, c) := check_transaction_param_locked t c in
  let c := store_tx a t c in
  if negb (ret =? 0) then Ok (ret, c)
  else
    '(ret, r) ← prepare_response_locked cfg.(native_value_bitwidth) true t.(tx_info).(info_id)
                  es cfg.(garbage_bytes);
    r ← must r;
    let c := store_tx a (set_tx_resp r t) c in
    '(ret, c) ← prepare_transaction_fences_locked a c;
    if negb (ret =? 0) then Ok (ret, c) else queue_transaction_locked a c.

(** The part of [cmd_transaction_submit] that has the transaction: the object is
    cleared but for what the caller gave, and freed if it is refused. *)
Definition cmd_transaction_submit (i : info) (num_io_entries : Z) c : outcome (Z * client F D) :=
  let '(a, c) := allocate_object
    (Strong (Transaction i None num_io_entries None 0 false [] [] 0)) c in
  '(ret, c) ← lwis_transaction_submit_locked a c;
  if negb (ret =? 0) then c ← lwis_transaction_free a c; Ok (ret, c) else Ok (ret, c).

End Transactions.
