(* ===== verification/LwisTriggerProps.v ===== *)
(** * LWIS: trigger conditions, and two paths of the worker that fail

    What a condition on fences decides, whatever the order the fences are
    signaled in; the high priority path and the flush of a repeating transaction,
    which use memory that is gone. *)

From S2P Require Import Prelude LwisIoEntry LwisProcess LwisProcessProps LwisTransaction.

(** ** Conditions on fences *)

Definition success (status : Z) : bool := status =? LWIS_FENCE_STATUS_SUCCESSFULLY_SIGNALED.

(** The nodes of a condition are signaled in turn, until it is ready: whether the
    transaction is to run ([Some true]), is cancelled ([Some false]), or waits. *)
Fixpoint signal_nodes (t : transaction) (statuses : list Z) : option bool :=
  match statuses with
  | [] => None
  | s :: statuses =>
      let '(ready, t) := lwis_fence_triggered_condition_ready t s in
      if ready then Some (success s) else signal_nodes t statuses
  end.

(** What the condition means: all the fences succeed, or one of them does. *)
Definition condition_holds (op : node_operator) (statuses : list Z) : bool :=
  match op with
  | LWIS_TRIGGER_NODE_OPERATOR_AND => forallb success statuses
  | LWIS_TRIGGER_NODE_OPERATOR_OR => existsb success statuses
  | _ => false
  end.

Lemma signal_nodes_and t statuses :
  operator_type (tx_info t) = LWIS_TRIGGER_NODE_OPERATOR_AND → statuses ≠ [] →
  num_nodes (tx_info t) <= 16 → 0 <= signaled_count t →
  signaled_count t + Z.of_nat (length statuses) = num_nodes (tx_info t) →
  signal_nodes t statuses = Some (forallb success statuses).
Proof.
  intros Hop Hne Hn. revert t Hop Hn. induction statuses as [|s l IH]; [done|].
  intros t Hop Hn H0 Hlen. cbn [signal_nodes]. cbn [length] in Hlen.
  unfold lwis_fence_triggered_condition_ready. rewrite Hop. cbn [andb orb].
  rewrite s32_small by lia. change (s =? LWIS_FENCE_STATUS_SUCCESSFULLY_SIGNALED) with (success s).
  destruct l as [|s' l].
  - destruct (Z.eqb_spec (signaled_count t + 1) (num_nodes (tx_info t))); [|cbn in Hlen; lia].
    cbn. by rewrite andb_true_r.
  - destruct (Z.eqb_spec (signaled_count t + 1) (num_nodes (tx_info t))); [cbn in Hlen; lia|].
    destruct (success s) eqn:Es; cbn [negb].
    + cbn [forallb]. rewrite Es. cbn [andb].
      apply (IH ltac:(done)); cbn [tx_info set_signaled signaled_count]; [done|done|lia|].
      cbn [length] in *. lia.
    + cbn [forallb]. by rewrite Es.
Qed.

Lemma signal_nodes_or t statuses :
  operator_type (tx_info t) = LWIS_TRIGGER_NODE_OPERATOR_OR → statuses ≠ [] →
  num_nodes (tx_info t) <= 16 → 0 <= signaled_count t →
  signaled_count t + Z.of_nat (length statuses) = num_nodes (tx_info t) →
  signal_nodes t statuses = Some (existsb success statuses).
Proof.
  intros Hop Hne Hn. revert t Hop Hn. induction statuses as [|s l IH]; [done|].
  intros t Hop Hn H0 Hlen. cbn [signal_nodes]. cbn [length] in Hlen.
  unfold lwis_fence_triggered_condition_ready. rewrite Hop. cbn [andb orb].
  rewrite s32_small by lia. change (s =? LWIS_FENCE_STATUS_SUCCESSFULLY_SIGNALED) with (success s).
  destruct l as [|s' l].
  - destruct (Z.eqb_spec (signaled_count t + 1) (num_nodes (tx_info t))); [|cbn in Hlen; lia].
    cbn. by rewrite orb_false_r.
  - destruct (Z.eqb_spec (signaled_count t + 1) (num_nodes (tx_info t))); [cbn in Hlen; lia|].
    destruct (success s) eqn:Es; cbn [negb].
    + cbn [existsb]. by rewrite Es.
    + cbn [existsb]. rewrite Es. cbn [orb].
      apply (IH ltac:(done)); cbn [tx_info set_signaled signaled_count]; [done|done|lia|].
      cbn [length] in *. lia.
Qed.

(** A condition on fences decides as its operator says, as soon as it can and
    at the last fence at the latest: with AND the transaction runs exactly when
    every fence succeeds, with OR exactly when one does; otherwise it is
    cancelled. *)
Theorem lwis_fence_condition_decides t statuses :
  let op := operator_type (tx_info t) in
  op = LWIS_TRIGGER_NODE_OPERATOR_AND ∨ op = LWIS_TRIGGER_NODE_OPERATOR_OR →
  0 < num_nodes (tx_info t) <= 16 → signaled_count t = 0 →
  Z.of_nat (length statuses) = num_nodes (tx_info t) →
  signal_nodes t statuses = Some (condition_holds op statuses).
Proof.
  intros op Hop Hn H0 Hlen. assert (statuses ≠ []) as Hne by (intros ->; cbn in Hlen; lia).
  destruct Hop as [Hop|Hop]; rewrite Hop.
  - apply signal_nodes_and; [done|done|lia|lia|lia].
  - apply signal_nodes_or; [done|done|lia|lia|lia].
Qed.

Section Failures.
Context {F D : Type} `{lwis_vops D} `{lwis_fences F} (cfg : config).
Implicit Types c : client F D.

(** ** The high priority path *)

(** Without a limit, a transaction is processed in one turn. *)
Lemma unlimited_gone a c t es ev sg skip_err ret gone c' em :
  tx_at a c = Ok t → io_arrays c !! io_entries (tx_info t) = Some es →
  remaining_entries_to_process t <= Z.of_nat (length es) →
  process_transaction cfg a ev sg skip_err false c = Ok (ret, gone, c', em) → gone = true.
Proof.
  intros Ht Hes Hrem. unfold process_transaction. rewrite Ht. cbn [mbind outcome_bind].
  rewrite outcome_bind_Ok. intros (r & _ & Hrun). revert Hrun. rewrite Hes.
  cbn [must mbind outcome_bind]. rewrite outcome_bind_Ok.
  intros ([[[more ret'] d] p] & Hturn & Hrun). revert Hrun.
  assert (more = false) as ->.
  { revert Hturn. unfold turn_limit, process_turn. rewrite orb_true_r. cbn [remaining].
    rewrite outcome_bind_Ok. intros (R & _ & Hout). revert Hout.
    destruct (Z.ltb_spec (Z.of_nat (length es)) (remaining_entries_to_process t)); [lia|].
    rewrite Z.sub_diag. cbn. congruence. }
  cbn. rewrite outcome_bind_Ok. intros (c1 & _ & [= _ <- _ _]). done.
Qed.

(** The high priority path never survives a high priority transaction: once
    processed, the transaction is gone, and the worker then unlinks it from the
    queue through the pointer that was cleared.  Whatever the device and the
    transaction, no run of the worker over a queue that holds one returns. *)
Theorem lwis_high_priority_path_fails c l1 a l2 t r es x :
  is_enabled c = true → transaction_process_queue c = l1 ++ a :: l2 →
  (∀ b, b ∈ l1 → ∃ u, tx_at b c = Ok u ∧ is_high_priority_transaction (tx_info u) = false) →
  tx_at a c = Ok t → is_high_priority_transaction (tx_info t) = true →
  resp t = Some r → error_code r = 0 → io_arrays c !! io_entries (tx_info t) = Some es →
  remaining_entries_to_process t <= Z.of_nat (length es) →
  lwis_process_transactions_in_queue cfg true c ≠ Ok x.
Proof.
  intros Hen Hq Hl1 Ht Hhp Hr He Hes Hrem. unfold lwis_process_transactions_in_queue.
  rewrite Hq. clear Hq. generalize nothing as em. induction l1 as [|b l1 IH]; intros em;
    cbn [app process_queue]; rewrite Hen; cbn [negb andb].
  - rewrite Ht. cbn [mbind outcome_bind]. rewrite Hhp. cbn [negb andb].
    unfold resp_of. rewrite Hr. cbn [must mbind outcome_bind].
    destruct (Z.eqb_spec (error_code r) 0); [|done]. cbn [negb].
    rewrite outcome_bind_Ok. intros ([[[ret gone] c'] em'] & Hrun & Hrest). revert Hrest.
    rewrite (unlimited_gone _ _ _ _ _ _ _ _ _ _ _ Ht Hes Hrem Hrun). done.
  - destruct (Hl1 b) as (u & Hu & Hup); [left|]. rewrite Hu. cbn [mbind outcome_bind].
    rewrite Hup. cbn [negb andb]. apply IH. intros b' Hb'. apply Hl1. by right.
Qed.

(** ** The flush of a repeating transaction *)

(** The array is gone, and the transaction at [b] still points to it. *)
Definition dangling (arr b : Z) c : Prop :=
  io_arrays c !! arr = None ∧ ∃ t, objects c !! b = Some (Strong t) ∧ io_entries (tx_info t) = arr.

Lemma free_dangling arr b a c c' :
  dangling arr b c → lwis_transaction_free a c = Ok c' →
  a ≠ b ∧ dangling arr b c' ∧ transaction_process_queue c' = transaction_process_queue c.
Proof.
  intros (Ha & t & Ht & Hi). unfold lwis_transaction_free. rewrite outcome_bind_Ok.
  intros (o & Ho & Hf). destruct (objects c !! a) as [o'|] eqn:E; [|done].
  injection Ho as ->.
  assert (a ≠ b) as Hne.
  { intros ->. rewrite Ht in E. injection E as <-. by rewrite Hi, Ha in Hf. }
  destruct o as [u|w p].
  - revert Hf. rewrite outcome_bind_Ok. intros (es & _ & [= <-]). split_and!; [done| |done].
    split; cbn; [by rewrite lookup_delete_None; right|].
    exists t. by rewrite lookup_delete_ne.
  - injection Hf as <-. split_and!; [done| |done]. split; [done|].
    exists t. cbn. by rewrite lookup_delete_ne.
Qed.

Lemma cancel_dangling arr b a e ev sg del c c' em :
  dangling arr b c → cancel_transaction a e ev sg del c = Ok (c', em) →
  a ≠ b ∧ dangling arr b c' ∧ transaction_process_queue c' = transaction_process_queue c.
Proof.
  intros Hd. unfold cancel_transaction. rewrite outcome_bind_Ok. intros (o & _ & Hrun).
  destruct o as [t|w p]; revert Hrun; rewrite outcome_bind_Ok; intros (c1 & Hf & [= <- <-]).
  - eapply free_dangling in Hf; [|by destruct del]. by destruct del.
  - by eapply free_dangling.
Qed.

Lemma cancel_all_dangling arr b l del c c' :
  dangling arr b c → cancel_all l del c = Ok c' →
  (b ∉ l) ∧ dangling arr b c' ∧ transaction_process_queue c' = transaction_process_queue c.
Proof.
  revert c. induction l as [|a l IH]; intros c Hd; cbn [cancel_all].
  - intros [= <-]. split_and!; [by apply not_elem_of_nil|done|done].
  - rewrite outcome_bind_Ok. intros ([c1 em] & Hc & Hrest).
    destruct (cancel_dangling _ _ _ _ _ _ _ _ _ _ Hd Hc) as (Hne & Hd1 & Hq1).
    destruct (IH _ Hd1 Hrest) as (Hb & Hd' & Hq'). split_and!; [|done|congruence].
    by apply not_elem_of_cons.
Qed.

(** What is at [b] cannot be processed; other transactions leave it there. *)
Lemma process_dangling arr b a ev sg skip limit c ret gone c' em :
  dangling arr b c → process_transaction cfg a ev sg skip limit c = Ok (ret, gone, c', em) →
  a ≠ b ∧ dangling arr b c' ∧
  (b ∈ transaction_process_queue c → b ∈ transaction_process_queue c').
Proof.
  intros Hd. pose proof Hd as (Ha & t & Ht & Hi). unfold process_transaction.
  rewrite outcome_bind_Ok. intros (u & Hu & Hrun). revert Hrun.
  rewrite outcome_bind_Ok. intros (r & _ & Hrun). revert Hrun.
  rewrite outcome_bind_Ok. intros (es & Hes & Hrun). revert Hrun.
  assert (a ≠ b) as Hne.
  { intros ->. unfold tx_at in Hu. rewrite Ht in Hu. injection Hu as <-. by rewrite Hi, Ha in Hes. }
  rewrite outcome_bind_Ok. intros ([[[more ret'] d] p] & _ & Hrun). revert Hrun.
  assert (dangling arr b (store_tx a (set_tx_progress p u) (set_dev d c))) as Hd1.
  { split; [done|]. exists t. cbn. by rewrite lookup_insert_ne. }
  destruct more; [intros [= _ _ <- _]; split_and!; try done|].
  rewrite outcome_bind_Ok. intros (c2 & Hc2 & [= _ _ <- _]). split; [done|].
  set (c1 := if limit then _ else _) in Hc2.
  assert (dangling arr b c1 ∧ (b ∈ transaction_process_queue c → b ∈ transaction_process_queue c1))
    as [Hd2 Hq].
  { unfold c1. destruct limit; [|done]. split; [done|]. cbn. unfold list_del.
    rewrite list_elem_of_filter. intros ?; split; [by intros ->|done]. }
  destruct (_ =? _).
  - injection Hc2 as <-. split; [|done]. destruct Hd2 as (? & v & Hv & ?). split; [done|].
    exists v. cbn. by rewrite lookup_delete_ne.
  - destruct (free_dangling _ _ _ _ _ Hd2 Hc2) as (_ & ? & Hq2). split; [done|]. by rewrite Hq2.
Qed.

Lemma broken_dangling arr b a gone c stop c' em :
  dangling arr b c → a ≠ b → process_broken_transaction a gone c = Ok (stop, c', em) →
  dangling arr b c' ∧ (b ∈ transaction_process_queue c → b ∈ transaction_process_queue c').
Proof.
  intros Hd Hne. unfold process_broken_transaction. destruct gone; [by intros [= _ <- _]|].
  rewrite outcome_bind_Ok. intros (t & _ & Hrun). revert Hrun.
  destruct (0 <? _); [|by intros [= _ <- _]]. destruct (flushing c); [|by intros [= _ <- _]].
  rewrite outcome_bind_Ok. intros (r & _ & Hrun). revert Hrun.
  rewrite outcome_bind_Ok. intros ([c1 em1] & Hc & [= _ <- _]).
  destruct (cancel_dangling arr b a _ _ _ _ (queue_del a c) _ _ Hd Hc) as (_ & Hd1 & Hq). split; [done|].
  rewrite Hq. cbn. unfold list_del. rewrite list_elem_of_filter. intros ?; split; [by intros ->|done].
Qed.

Lemma queue_dangling arr b l c em c' em' :
  dangling arr b c → b ∈ transaction_process_queue c →
  process_queue cfg false l c em = Ok (c', em') →
  dangling arr b c' ∧ b ∈ transaction_process_queue c'.
Proof.
  revert c em. induction l as [|a l IH]; intros c em Hd Hb; cbn [process_queue];
    [by intros [= <- _]|].
  destruct (_ && _); [by intros [= <- _]|].
  rewrite outcome_bind_Ok. intros (t & _ & Hrun). revert Hrun. cbn [andb].
  rewrite outcome_bind_Ok. intros (r & _ & Hrun). revert Hrun.
  assert (a ≠ b → b ∈ list_del a (transaction_process_queue c)) as Hdel.
  { intros Hne. unfold list_del. rewrite list_elem_of_filter. split; [by intros ->|done]. }
  destruct (negb _).
  - rewrite outcome_bind_Ok. intros ([c1 em1] & Hc & Hrest).
    destruct (cancel_dangling arr b a _ _ _ _ (queue_del a c) _ _ Hd Hc) as (Hne & Hd1 & Hq).
    apply (IH c1 (then_emit em em1) Hd1); [|exact Hrest]. rewrite Hq. by apply Hdel.
  - rewrite outcome_bind_Ok. intros ([[[ret gone] c1] em1] & Hp & Hrun). revert Hrun.
    destruct (process_dangling _ _ _ _ _ _ _ _ _ _ _ _ Hd Hp) as (Hne & Hd1 & Hq1).
    cbn [mbind outcome_bind]. rewrite outcome_bind_Ok. intros ([[stop c2] em2] & Hbr & Hrun).
    destruct (broken_dangling _ _ _ _ _ _ _ _ Hd1 Hne Hbr) as [Hd2 Hq2].
    revert Hrun. destruct stop; [intros [= <- _]; split; [done|]; by apply Hq2, Hq1|].
    apply IH; [done|]. by apply Hq2, Hq1.
Qed.

(** What a cancellation leaves: the other objects, the queue, and no array that
    was not there; that of the transaction is freed. *)
Lemma cancel_frame a e ev sg del c c' em :
  cancel_transaction a e ev sg del c = Ok (c', em) →
  (∀ x, x ≠ a → objects c' !! x = objects c !! x) ∧
  (∀ x, io_arrays c !! x = None → io_arrays c' !! x = None) ∧
  transaction_process_queue c' = transaction_process_queue c ∧
  (∀ t, objects c !! a = Some (Strong t) → io_arrays c' !! io_entries (tx_info t) = None).
Proof.
  unfold cancel_transaction, lwis_transaction_free. destruct (objects c !! a) as [[t|w p]|] eqn:Ea;
    cbn [must mbind outcome_bind]; [| |done].
  - destruct del; cbn [pending_del objects set_pending]; rewrite Ea; cbn [must mbind outcome_bind];
      rewrite outcome_bind_Ok; intros (c1 & Hc1 & [= <- <-]); revert Hc1;
      rewrite outcome_bind_Ok; intros (es & _ & [= <-]); cbn;
      (split_and!; [intros x Hx; by apply lookup_delete_ne
        |intros x Hx; rewrite lookup_delete_None; auto|done
        |intros u [= <-]; by rewrite lookup_delete_eq]).
  - intros [= <- <-]. cbn. split_and!; [|done|done|done].
    intros x Hx. by apply lookup_delete_ne.
Qed.

Lemma cancel_all_frame l del c c' :
  cancel_all l del c = Ok c' →
  (∀ x, x ∉ l → objects c' !! x = objects c !! x) ∧
  (∀ x, io_arrays c !! x = None → io_arrays c' !! x = None) ∧
  transaction_process_queue c' = transaction_process_queue c.
Proof.
  revert c. induction l as [|a l IH]; intros c; cbn [cancel_all]; [by intros [= <-]|].
  rewrite outcome_bind_Ok. intros ([c1 em] & Hc & Hrest).
  destruct (cancel_frame _ _ _ _ _ _ _ _ Hc) as (Ho & Ha & Hq & _).
  destruct (IH _ Hrest) as (Ho' & Ha' & Hq'). split_and!; [|auto|congruence].
  intros x [Hx1 Hx2]%not_elem_of_cons. by rewrite Ho', Ho.
Qed.

(** The flush of a list frees the arrays of its transactions. *)
Lemma cancel_all_frees a l del c c' t :
  objects c !! a = Some (Strong t) → a ∈ l → NoDup l → cancel_all l del c = Ok c' →
  io_arrays c' !! io_entries (tx_info t) = None.
Proof.
  intros Ha. revert c Ha. induction l as [|a0 l IH]; intros c Ha; [by intros ?%elem_of_nil|].
  intros Hin [Hnin Hnd]%NoDup_cons. cbn [cancel_all]. rewrite outcome_bind_Ok.
  intros ([c1 em] & Hc & Hrest). destruct (cancel_frame _ _ _ _ _ _ _ _ Hc) as (Ho & _ & _ & Hf).
  apply elem_of_cons in Hin as [<-|Hin].
  - destruct (cancel_all_frame _ _ _ _ Hrest) as (_ & Hn & _). by apply Hn, Hf.
  - apply (IH c1); [|done|done|done]. rewrite Ho; [done|]. by intros ->.
Qed.

Lemma flush_lists_dangling arr b ls c ls' c' :
  dangling arr b c → flush_lists ls c = Ok (ls', c') →
  dangling arr b c' ∧ transaction_process_queue c' = transaction_process_queue c.
Proof.
  revert c ls'. induction ls as [|[id l] ls IH]; intros c ls' Hd; cbn [flush_lists];
    [by intros [= <- <-]|].
  destruct (is_cleanup_list id).
  - rewrite outcome_bind_Ok. intros ([rest c1] & Hf & [= <- <-]). by eapply IH.
  - rewrite outcome_bind_Ok. intros (c1 & Hc & Hrest).
    destruct (cancel_all_dangling _ _ _ _ _ _ Hd Hc) as (_ & Hd1 & <-). by eapply IH.
Qed.

(** Each transaction is on one list by event at most. *)
Lemma flush_frees_array id l a t b u ls c ls' c' :
  (id, l) ∈ ls → is_cleanup_list id = false → a ∈ l → NoDup (ls ≫= snd) → (b ∉ ls ≫= snd) →
  objects c !! a = Some (Strong t) → objects c !! b = Some (Strong u) →
  io_entries (tx_info u) = io_entries (tx_info t) →
  flush_lists ls c = Ok (ls', c') →
  dangling (io_entries (tx_info t)) b c' ∧ transaction_process_queue c' = transaction_process_queue c.
Proof.
  intros Hin Hid Ha. revert c ls' Hin. induction ls as [|[id0 l0] ls IH]; intros c ls' Hin;
    [by apply elem_of_nil in Hin|].
  cbn [mbind list_bind snd]. intros (Hnd0 & Hdis & Hnd)%NoDup_app [Hb0 Hb]%not_elem_of_app Hoa Hob Hi.
  cbn [flush_lists]. apply elem_of_cons in Hin as [[= <- <-]|Hin].
  - rewrite Hid. rewrite outcome_bind_Ok. intros (c1 & Hc & Hrest).
    destruct (cancel_all_frame _ _ _ _ Hc) as (Ho & _ & <-).
    eapply flush_lists_dangling; [|exact Hrest]. split; [by eapply cancel_all_frees|].
    exists u. by rewrite Ho.
  - destruct (is_cleanup_list id0).
    + rewrite outcome_bind_Ok. intros ([rest c1] & Hf & [= <- <-]). by eapply IH.
    + rewrite outcome_bind_Ok. intros (c1 & Hc & Hrest).
      destruct (cancel_all_frame _ _ _ _ Hc) as (Ho & _ & <-).
      assert (a ∉ l0) as Ha0.
      { intros Hx. apply (Hdis a Hx), list_elem_of_bind. by exists (id, l). }
      eapply IH; [done|done|done| | |done|exact Hrest]; by rewrite Ho.
Qed.

(** A repeating transaction shares its array of entries with the iterations it
    queues.  The flush of the client cancels and frees the transaction, array
    included, before it runs and then cancels what is in the queue: while an
    iteration is queued, no flush returns without using the freed array. *)
Theorem lwis_flush_repeating_fails c id l a t b u x :
  (id, l) ∈ transaction_list c → is_cleanup_list id = false → a ∈ l →
  NoDup (transaction_list c ≫= snd) → (b ∉ transaction_list c ≫= snd) →
  objects c !! a = Some (Strong t) → objects c !! b = Some (Strong u) →
  io_entries (tx_info u) = io_entries (tx_info t) → b ∈ transaction_process_queue c →
  lwis_transaction_client_flush cfg c ≠ Ok x.
Proof.
  intros Hin Hid Ha Hnd Hb Hoa Hob Hi Hq. unfold lwis_transaction_client_flush.
  rewrite outcome_bind_Ok. intros ([ls c1] & Hf & Hrun). revert Hrun.
  destruct (flush_frees_array _ _ _ _ _ _ _ _ _ _ Hin Hid Ha Hnd Hb Hoa Hob Hi Hf) as [Hd1 Hq1].
  rewrite outcome_bind_Ok. intros (c2 & Hc2 & Hrun). revert Hrun.
  destruct (cancel_all_dangling _ b _ _ (set_lists ls c1) _ Hd1 Hc2) as (_ & Hd2 & Hq2).
  cbn in Hq2. rewrite outcome_bind_Ok. intros ([c3 em] & Hw & Hrun). revert Hrun.
  assert (dangling (io_entries (tx_info t)) b c3 ∧ b ∈ transaction_process_queue c3) as [Hd3 Hq3].
  { revert Hw. unfold run_worker. cbn [worker_queued set_flushing].
    destruct (worker_queued c2); [|intros [= <- _]; split; [done|cbn; congruence]].
    unfold lwis_process_transactions_in_queue. apply queue_dangling; [done|]. cbn. congruence. }
  cbn zeta. rewrite outcome_bind_Ok. intros (c4 & Hc4 & _).
  destruct (cancel_all_dangling (io_entries (tx_info t)) b _ _
    (set_queue [] (set_flushing false c3)) _ Hd3 Hc4) as [Hnin _]. by apply Hnin.
Qed.

End Failures.

(** ** Witnesses *)

#[local] Existing Instance demo_vops.

#[local] Instance no_fences : lwis_fences unit := {|
  lwis_dma_fence_get _ _ := None;
  dma_fence_get_status _ _ := 0;
  dma_fence_add_callback _ _ f := (false, f)
|}.

Definition demo_config : config := Config 32 0 false false 1 (λ _, 9) 0 (λ _, 0).

Definition demo_info (op : node_operator) (nodes : list trigger_node) (counter : Z)
    (high_priority : bool) : info :=
  Info 5 4097 counter 0 op nodes (-1) 0 [] 10 false 100 101 false high_priority 0 [] 0.

Definition demo_transaction (i : info) : transaction :=
  Transaction i (Some (Response 5 0 0 0 0 32 (λ _, 0))) 1 None 0 false [] [] 0.

Lemma lwis_fence_condition_decides_witness :
  signal_nodes (demo_transaction (demo_info LWIS_TRIGGER_NODE_OPERATOR_AND
    [LWIS_TRIGGER_FENCE 3; LWIS_TRIGGER_FENCE 4] 0 false)) [1; - ECANCELED] = Some false.
Proof.
  apply (lwis_fence_condition_decides (demo_transaction (demo_info LWIS_TRIGGER_NODE_OPERATOR_AND
    [LWIS_TRIGGER_FENCE 3; LWIS_TRIGGER_FENCE 4] 0 false)) [1; - ECANCELED]);
    [by left|done|done|done].
Defined.

(** A client with a transaction at 1, on the lists of [ls], and [q] queued. *)
Definition demo_client (ls : list (Z * list Z)) (q : list Z) (t u : transaction) :
    client unit Z :=
  Client {[1 := Strong t; 2 := Strong u]} {[10 := [LWIS_IO_ENTRY_WRITE 0 8 1]]} ls [] q true
    false true 6 ∅ () 0.

Definition demo_high : transaction :=
  demo_transaction (demo_info LWIS_TRIGGER_NODE_OPERATOR_NONE [] (-1) true).

Definition demo_normal : transaction :=
  demo_transaction (demo_info LWIS_TRIGGER_NODE_OPERATOR_NONE [] (-1) false).

Definition demo_repeating : transaction :=
  demo_transaction (demo_info LWIS_TRIGGER_NODE_OPERATOR_NONE []
    LWIS_EVENT_COUNTER_EVERY_TIME false).

Lemma lwis_high_priority_path_fails_witness :
  returns (lwis_process_transactions_in_queue demo_config true
    (demo_client [] [2; 1] demo_high demo_normal)) = false.
Proof.
  apply returns_false. intros x.
  apply (lwis_high_priority_path_fails demo_config _ [2] 1 [] demo_high
    (Response 5 0 0 0 0 32 (λ _, 0)) [LWIS_IO_ENTRY_WRITE 0 8 1]); try reflexivity.
  intros b ->%list_elem_of_singleton. by exists demo_normal.
Defined.

Lemma lwis_flush_repeating_fails_witness :
  returns (lwis_transaction_client_flush demo_config
    (demo_client [(4097, [1])] [2] demo_repeating demo_repeating)) = false.
Proof.
  apply returns_false. intros x.
  apply (lwis_flush_repeating_fails demo_config _ 4097 [1] 1 demo_repeating 2 demo_repeating);
    try reflexivity; cbn; [by left|by left|apply NoDup_singleton| |by left].
  intros H%list_elem_of_singleton. done.
Defined.
