(* ===== verification/LwisClientInv.v ===== *)
(** * LWIS: the invariant of a client's transactions

    Every object of a client is on exactly one of its lists, or in flight between
    two of them; every transaction owns its array of entries and, once submitted,
    has a response with room for what is left to read.  The moves of the code
    keep it. *)

From S2P Require Import Prelude LwisIoEntry LwisProcess LwisProcessProps LwisTransaction.

Section Inv.
Context {F D : Type} `{lwis_vops D} `{lwis_fences F} (cfg : config).
Implicit Types c : client F D.

Definition by_event c : list Z := transaction_list c ≫= snd.

(** The objects on a list. *)
Definition waiting c : list Z := by_event c ++ pending_transactions c ++ transaction_process_queue c.

(** A transaction with its array, and no part of what the properties leave out. *)
Record tx_owns c (t : transaction) (es : list io_entry) : Prop := {
  to_array : io_arrays c !! io_entries (tx_info t) = Some es;
  to_entries : Forall entry_ok es;
  to_space : response_fits cfg.(native_value_bitwidth) es;
  to_once : trigger_event_counter (tx_info t) ≠ LWIS_EVENT_COUNTER_EVERY_TIME;
  to_nested : num_nested_transactions (tx_info t) = 0;
  to_success : emit_success_event_id (tx_info t) ≠ LWIS_EVENT_ID_NONE;
  to_error : emit_error_event_id (tx_info t) ≠ LWIS_EVENT_ID_NONE;
  to_fences : num_completion_fences (tx_info t) <= Z.of_nat (length (completion_fence_fds (tx_info t)))
}.

(** A transaction that can be processed: [n] of its entries are. *)
Record tx_ready (t : transaction) (es : list io_entry) (r : response) (n : nat) : Prop := {
  tr_resp : resp t = Some r;
  tr_id : resp_id r = info_id (tx_info t);
  tr_done : (n ≤ length es)%nat;
  tr_remaining : remaining_entries_to_process t = Z.of_nat (length es - n);
  tr_buf : 0 <= default 0 (tx_read_buf t);
  tr_room : default 0 (tx_read_buf t) + results_space cfg.(native_value_bitwidth) (drop n es)
    <= results_room r
}.

(** [X] are the objects in flight. *)
Record client_inv (X : list Z) c : Prop := {
  ci_nodup : NoDup (waiting c ++ X);
  ci_objects a : is_Some (objects c !! a) ↔ a ∈ waiting c ++ X;
  ci_strong a : a ∈ pending_transactions c ++ transaction_process_queue c →
    ∃ t, objects c !! a = Some (Strong t);
  ci_owns a t : objects c !! a = Some (Strong t) → ∃ es, tx_owns c t es;
  ci_ready a t es : a ∈ waiting c → objects c !! a = Some (Strong t) → tx_owns c t es →
    ∃ r n, tx_ready t es r n;
  ci_arrays a b t u : objects c !! a = Some (Strong t) → objects c !! b = Some (Strong u) →
    io_entries (tx_info t) = io_entries (tx_info u) → a = b;
  ci_keys : NoDup (transaction_list c).*1
}.

(** The transactions by address, with their ids. *)
Definition strong_id (o : object) : option Z :=
  match o with Strong t => Some (info_id (tx_info t)) | Weak _ _ => None end.

Definition tx_ids c : gmap Z Z := omap strong_id (objects c).

Definition ids c : list Z := (map_to_list (tx_ids c)).*2.

(** What only the client's owner changes. *)
Definition mode c : bool * bool := (flushing c, is_enabled c).

(** The ids of the events emitted. *)
Definition finished (em : emitted) : list Z := (λ e, resp_id e.2) <$> events em.

Lemma tx_at_Ok a c t : tx_at a c = Ok t ↔ objects c !! a = Some (Strong t).
Proof. unfold tx_at. destruct (objects c !! a) as [[u|w p]|]; naive_solver. Qed.

Lemma owns_ext c c' t es : io_arrays c' = io_arrays c → tx_owns c t es → tx_owns c' t es.
Proof. intros Ha []. split; try done. by rewrite Ha. Qed.

Lemma ids_delete c c' a t :
  objects c !! a = Some (Strong t) → objects c' = delete a (objects c) →
  ids c ≡ₚ info_id (tx_info t) :: ids c'.
Proof.
  intros Ha Ho. unfold ids, tx_ids. rewrite Ho, omap_delete.
  rewrite <- (map_to_list_delete (omap strong_id (objects c)) a (info_id (tx_info t))); [done|].
  by rewrite lookup_omap, Ha.
Qed.

Lemma ids_insert c c' a t :
  objects c !! a = None → objects c' = <[a := Strong t]> (objects c) →
  ids c' ≡ₚ info_id (tx_info t) :: ids c.
Proof.
  intros Ha Ho. unfold ids, tx_ids. rewrite Ho.
  erewrite omap_insert_Some by done. rewrite map_to_list_insert; [done|].
  by rewrite lookup_omap, Ha.
Qed.

Lemma ids_weak c c' a :
  (∀ t, objects c !! a ≠ Some (Strong t)) →
  (objects c' = delete a (objects c) ∨ ∃ i p, objects c' = <[a := Weak i p]> (objects c)) →
  tx_ids c' = tx_ids c.
Proof.
  intros Ha Ho. unfold tx_ids.
  assert (omap strong_id (objects c) !! a = None) as Hn.
  { rewrite lookup_omap. destruct (objects c !! a) as [[t|w p]|] eqn:E; [by edestruct Ha|done|done]. }
  destruct Ho as [->|(i & p & ->)].
  - rewrite omap_delete. by apply delete_id.
  - rewrite omap_insert_None by done. by apply delete_id.
Qed.

(** A change of a transaction that keeps its description. *)
Lemma ids_store c a t t' :
  objects c !! a = Some (Strong t) → info_id (tx_info t') = info_id (tx_info t) →
  tx_ids (store_tx a t' c) = tx_ids c.
Proof.
  intros Ha Hi. unfold tx_ids. cbn. erewrite omap_insert_Some by done. cbn.
  apply insert_id. rewrite lookup_omap, Ha. cbn. by rewrite Hi.
Qed.

(** ** Moves *)

(** Two clients with the same objects and arrays, whose lists hold the same. *)
Lemma inv_relist X X' c c' :
  client_inv X c → objects c' = objects c → io_arrays c' = io_arrays c →
  NoDup (transaction_list c').*1 → waiting c' ++ X' ≡ₚ waiting c ++ X →
  (∀ a, a ∈ pending_transactions c' ++ transaction_process_queue c' →
     ∃ t, objects c !! a = Some (Strong t)) →
  (∀ a t es, a ∈ waiting c' → (a ∉ waiting c) → objects c !! a = Some (Strong t) →
     tx_owns c t es → ∃ r n, tx_ready t es r n) →
  client_inv X' c'.
Proof.
  intros [Hnd Hobj Hst Hown Hrd Harr Hk] Ho Ha Hk' HP Hst' Hrd'.
  split; rewrite ?Ho; try done.
  - by rewrite HP.
  - intros a. by rewrite HP.
  - intros a t Hat. destruct (Hown a t Hat) as [es Hes]. exists es. by eapply owns_ext.
  - intros a t es Hw Hat Hes. apply (owns_ext _ c) in Hes; [|done].
    destruct (decide (a ∈ waiting c)); [by eapply Hrd|by eapply Hrd'].
Qed.

Lemma list_del_perm a l : NoDup l → a ∈ l → a :: list_del a l ≡ₚ l.
Proof.
  induction l as [|x l IH]; intros Hnd Hin; [by apply elem_of_nil in Hin|].
  apply NoDup_cons in Hnd as [Hx Hnd]. unfold list_del. cbn [filter list_filter].
  apply elem_of_cons in Hin as [->|Hin].
  - rewrite decide_False by naive_solver. f_equiv. induction l as [|y l IHl]; [done|].
    cbn [filter list_filter]. apply not_elem_of_cons in Hx as [Hxy Hxl].
    rewrite decide_True by done. f_equiv. apply NoDup_cons in Hnd as [_ Hnd].
    apply IHl; [|done|done]. intros _ Hin. done.
  - destruct (decide (x ≠ a)) as [Hne|Hne].
    + rewrite Permutation_swap. f_equiv. by apply IH.
    + exfalso. apply Hne. by intros ->.
Qed.

Lemma list_del_not a l : a ∉ l → list_del a l = l.
Proof.
  induction l as [|x l IH]; intros Hin; [done|].
  apply not_elem_of_cons in Hin as [Hx Hin]. unfold list_del in *. cbn [filter list_filter].
  rewrite decide_True by done. f_equal. by apply IH.
Qed.

Lemma elem_of_list_del a x l : x ∈ list_del a l ↔ x ≠ a ∧ x ∈ l.
Proof. unfold list_del. by rewrite list_elem_of_filter. Qed.

(** ** The lists by event *)

Lemma update_keys id f ls : (update_list id f ls).*1 = ls.*1.
Proof.
  induction ls as [|[k l] ls IH]; [done|]. cbn [update_list].
  destruct (k =? id); cbn; [done|by rewrite IH].
Qed.

Lemma find_list_split id ls l :
  find_list id ls = Some l →
  ∃ rest, ls ≫= snd ≡ₚ l ++ rest ∧ ∀ f, update_list id f ls ≫= snd ≡ₚ f l ++ rest.
Proof.
  induction ls as [|[k l0] ls IH]; [done|]. cbn [find_list update_list].
  destruct (k =? id).
  - intros [= ->]. by exists (ls ≫= snd).
  - intros (rest & HP & Hf)%IH. exists (l0 ++ rest). cbn [mbind list_bind snd] in *. split.
    + rewrite HP. by rewrite Permutation_app_swap_app.
    + intros f. rewrite (Hf f). by rewrite Permutation_app_swap_app.
Qed.

Lemma find_update id f ls : find_list id (update_list id f ls) = f <$> find_list id ls.
Proof.
  induction ls as [|[k l] ls IH]; [done|]. cbn [update_list find_list].
  destruct (k =? id) eqn:E; cbn [find_list]; by rewrite E.
Qed.

Lemma find_or_create_spec c id :
  NoDup (transaction_list c).*1 →
  let c' := event_list_find_or_create c id in
  (∃ l, event_list_find c' id = Some l) ∧ by_event c' = by_event c ∧
  NoDup (transaction_list c').*1.
Proof.
  intros Hk. unfold event_list_find_or_create. destruct (event_list_find c id) as [l|] eqn:E.
  - split_and!; [by exists l|done|done].
  - unfold event_list_create, event_list_find, by_event in *. cbn [transaction_list set_lists].
    split_and!.
    + exists []. induction (transaction_list c) as [|[k l] ls IH]; cbn in *; [by rewrite Z.eqb_refl|].
      destruct (k =? id); [done|]. apply NoDup_cons in Hk as [_ Hk]. auto.
    + rewrite bind_app. cbn. by rewrite app_nil_r.
    + rewrite fmap_app. cbn. apply NoDup_app. split_and!; [done| |apply NoDup_singleton].
      intros k Hin ->%list_elem_of_singleton. apply list_elem_of_fmap in Hin as ([k' l] & -> & Hin).
      clear Hk. induction (transaction_list c) as [|[k l0] ls IH]; [by apply elem_of_nil in Hin|].
      cbn in E. apply elem_of_cons in Hin as [[= -> _]|Hin]; [by rewrite Z.eqb_refl in E|].
      destruct (k =? k'); [done|by apply IH].
Qed.

Lemma event_del_perm c id a l :
  NoDup (by_event c) → event_list_find c id = Some l → a ∈ l →
  by_event c ≡ₚ a :: by_event (event_list_del id a c).
Proof.
  unfold by_event, event_list_find. cbn. intros Hnd Hf Ha.
  destruct (find_list_split _ _ _ Hf) as (rest & HP & Hu). rewrite (Hu (list_del a)), HP.
  rewrite HP in Hnd. apply NoDup_app in Hnd as (Hnd & _ & _).
  by rewrite <- (list_del_perm a l) at 1.
Qed.

Lemma event_add_perm c id a l :
  event_list_find c id = Some l → by_event (event_list_add id a c) ≡ₚ a :: by_event c.
Proof.
  unfold by_event, event_list_find. cbn. intros Hf.
  destruct (find_list_split _ _ _ Hf) as (rest & HP & Hu). rewrite (Hu (λ l, l ++ [a])), HP.
  rewrite <- app_assoc. cbn. by rewrite Permutation_middle.
Qed.

(** ** Taking an object off a list, and putting one on *)

Lemma unlink_event X c id a l :
  client_inv X c → event_list_find c id = Some l → a ∈ l →
  client_inv (a :: X) (event_list_del id a c).
Proof.
  intros Hinv Hf Ha. pose proof (ci_nodup _ _ Hinv) as Hnd. unfold waiting in Hnd.
  apply NoDup_app in Hnd as (Hnd & _ & _). apply NoDup_app in Hnd as (Hnd & _ & _).
  pose proof (event_del_perm c id a l Hnd Hf Ha) as HP.
  eapply inv_relist; [exact Hinv|done|done| | |apply Hinv|].
  - cbn. rewrite update_keys. apply Hinv.
  - unfold waiting. cbn [pending_transactions transaction_process_queue event_list_del set_lists].
    rewrite HP. cbn. rewrite <- Permutation_middle. done.
  - intros x t es Hx Hnx. exfalso. apply Hnx. unfold waiting in *. rewrite HP.
    cbn [pending_transactions transaction_process_queue event_list_del set_lists] in Hx. set_solver.
Qed.

Lemma unlink_pending X c a :
  client_inv X c → a ∈ pending_transactions c → client_inv (a :: X) (pending_del a c).
Proof.
  intros Hinv Ha. pose proof (ci_nodup _ _ Hinv) as Hnd. unfold waiting in Hnd.
  apply NoDup_app in Hnd as (Hnd & _ & _). apply NoDup_app in Hnd as (_ & _ & Hnd).
  apply NoDup_app in Hnd as (Hnd & _ & _).
  pose proof (list_del_perm a _ Hnd Ha) as HP.
  eapply inv_relist; [exact Hinv|done|done|apply Hinv| | |].
  - unfold waiting, by_event. cbn. rewrite <- HP at 2. cbn.
    solve_Permutation.
  - intros x Hx. apply (ci_strong _ _ Hinv). cbn in Hx. rewrite elem_of_app, elem_of_list_del in Hx.
    set_solver.
  - intros x t es Hx Hnx. exfalso. apply Hnx. unfold waiting, by_event in *. cbn in Hx.
    rewrite !elem_of_app, elem_of_list_del in Hx. set_solver.
Qed.

Lemma unlink_queue X c a :
  client_inv X c → a ∈ transaction_process_queue c → client_inv (a :: X) (queue_del a c).
Proof.
  intros Hinv Ha. pose proof (ci_nodup _ _ Hinv) as Hnd. unfold waiting in Hnd.
  apply NoDup_app in Hnd as (Hnd & _ & _). apply NoDup_app in Hnd as (_ & _ & Hnd).
  apply NoDup_app in Hnd as (_ & _ & Hnd).
  pose proof (list_del_perm a _ Hnd Ha) as HP.
  eapply inv_relist; [exact Hinv|done|done|apply Hinv| | |].
  - unfold waiting, by_event. cbn. rewrite <- HP at 2. cbn.
    solve_Permutation.
  - intros x Hx. apply (ci_strong _ _ Hinv). cbn in Hx. rewrite elem_of_app, elem_of_list_del in Hx.
    set_solver.
  - intros x t es Hx Hnx. exfalso. apply Hnx. unfold waiting, by_event in *. cbn in Hx.
    rewrite !elem_of_app, elem_of_list_del in Hx. set_solver.
Qed.

(** The transaction at [a] can be processed. *)
Definition ready_at a c : Prop :=
  ∃ t, objects c !! a = Some (Strong t) ∧ ∀ es, tx_owns c t es → ∃ r n, tx_ready t es r n.

Lemma waiting_ready X c a t :
  client_inv X c → a ∈ waiting c → objects c !! a = Some (Strong t) → ready_at a c.
Proof. intros Hinv Hw Ha. exists t. split; [done|]. intros es Hes. by eapply (ci_ready _ _ Hinv). Qed.

Lemma link_queue X c a :
  client_inv (a :: X) c → ready_at a c →
  ∃ c', add_transaction_to_queue_locked a c = Ok c' ∧ client_inv X c' ∧ tx_ids c' = tx_ids c ∧
    transaction_list c' = transaction_list c ∧
    ∀ x, x ∈ transaction_process_queue c → x ∈ transaction_process_queue c'.
Proof.
  intros Hinv (t & Ha & Hr). unfold add_transaction_to_queue_locked.
  rewrite (proj2 (tx_at_Ok a c t) Ha). cbn [mbind outcome_bind].
  set (q := if is_high_priority_transaction (tx_info t)
            then a :: transaction_process_queue c else transaction_process_queue c ++ [a]).
  assert (q ≡ₚ a :: transaction_process_queue c) as Hq.
  { unfold q. destruct (is_high_priority_transaction _); [done|]. by rewrite Permutation_app_comm. }
  exists (set_queue q c). split; [unfold q; by destruct (is_high_priority_transaction _)|].
  split_and!; [|done|done|intros x Hx; cbn; rewrite Hq; by right].
  eapply inv_relist; [exact Hinv|done|done|apply Hinv| | |].
  - unfold waiting, by_event. cbn. rewrite Hq, <- !app_assoc. cbn. rewrite <- !Permutation_middle. done.
  - intros x Hx. cbn in Hx. rewrite Hq in Hx.
    apply elem_of_app in Hx as [Hx|[->|Hx]%elem_of_cons]; [|by eauto|];
      apply (ci_strong _ _ Hinv); set_solver.
  - intros x u es Hx Hnx Hu Hes. assert (x = a) as ->.
    { unfold waiting, by_event in *. cbn in Hx. rewrite Hq in Hx. set_solver. }
    rewrite Ha in Hu. injection Hu as <-. by apply Hr.
Qed.

Lemma link_pending X c a :
  client_inv (a :: X) c → ready_at a c → client_inv X (add_pending_transaction a c).
Proof.
  intros Hinv (t & Ha & Hr). eapply inv_relist; [exact Hinv|done|done|apply Hinv| | |].
  - unfold waiting, by_event. cbn. rewrite <- !Permutation_middle. done.
  - intros x Hx. cbn in Hx. apply elem_of_cons in Hx as [->|Hx]; [by eauto|].
    by apply (ci_strong _ _ Hinv).
  - intros x u es Hx Hnx Hu Hes. assert (x = a) as ->.
    { unfold waiting, by_event in *. cbn in Hx. set_solver. }
    rewrite Ha in Hu. injection Hu as <-. by apply Hr.
Qed.

Lemma link_event X c id a l :
  client_inv (a :: X) c → event_list_find c id = Some l →
  (∀ t, objects c !! a = Some (Strong t) → ready_at a c) →
  client_inv X (event_list_add id a c).
Proof.
  intros Hinv Hf Hr. pose proof (event_add_perm c id a l Hf) as HP.
  eapply inv_relist; [exact Hinv|done|done| | |apply Hinv|].
  - cbn. rewrite update_keys. apply Hinv.
  - unfold waiting. cbn [pending_transactions transaction_process_queue event_list_add set_lists].
    rewrite HP. cbn. rewrite <- !Permutation_middle. done.
  - intros x u es Hx Hnx Hu Hes. assert (x = a) as ->.
    { unfold waiting in *. rewrite HP in Hx.
      cbn [pending_transactions transaction_process_queue event_list_add set_lists] in Hx. set_solver. }
    destruct (Hr u Hu) as (t & Ha & Hr'). rewrite Ha in Hu. injection Hu as <-. by apply Hr'.
Qed.

(** ** The end of an object, and its changes *)

Lemma freed_inv X c a o :
  client_inv (a :: X) c → objects c !! a = Some o →
  ∃ c', lwis_transaction_free a c = Ok c' ∧ client_inv X c' ∧
    objects c' = delete a (objects c) ∧ transaction_list c' = transaction_list c ∧
    pending_transactions c' = pending_transactions c ∧
    transaction_process_queue c' = transaction_process_queue c.
Proof.
  intros Hinv Ha. unfold lwis_transaction_free. rewrite Ha. cbn [must mbind outcome_bind].
  assert (a ∉ waiting c ++ X) as Hnin.
  { pose proof (ci_nodup _ _ Hinv) as Hnd. rewrite <- Permutation_middle in Hnd.
    by apply NoDup_cons in Hnd as [? _]. }
  assert (∀ c', objects c' = delete a (objects c) → transaction_list c' = transaction_list c →
    pending_transactions c' = pending_transactions c →
    transaction_process_queue c' = transaction_process_queue c →
    (∀ b u es, b ≠ a → objects c !! b = Some (Strong u) → tx_owns c u es → tx_owns c' u es) →
    client_inv X c') as Hkeep.
  { intros c' Ho Hl Hp Hq Harr.
    assert (waiting c' = waiting c) as Hw by (unfold waiting, by_event; congruence).
    destruct Hinv as [Hnd Hobj Hst Hown Hrd Hinj Hk]. split; rewrite ?Hw, ?Hl, ?Hp, ?Hq; try done.
    - rewrite <- Permutation_middle in Hnd. by apply NoDup_cons in Hnd as [_ ?].
    - intros x. rewrite Ho, lookup_delete_is_Some, Hobj. set_solver.
    - intros x Hx. destruct (Hst x Hx) as [t Ht]. exists t. rewrite Ho, lookup_delete_ne; [done|].
      intros <-. apply Hnin. unfold waiting. set_solver.
    - intros x t. rewrite Ho, lookup_delete_Some. intros [Hne Hx].
      destruct (Hown x t Hx) as [es Hes]. exists es. by eapply Harr.
    - intros x t es Hx. rewrite Ho, lookup_delete_Some. intros [Hne Hxt] Hes.
      destruct (Hown x t Hxt) as [es' Hes']. pose proof (Harr x t es' ltac:(done) Hxt Hes') as Hes2.
      assert (es' = es) as -> by (pose proof (to_array _ _ _ Hes); pose proof (to_array _ _ _ Hes2); congruence).
      by eapply Hrd.
    - intros x y t u. rewrite Ho, !lookup_delete_Some. intros [_ ?] [_ ?]. by apply Hinj. }
  destruct o as [t|w p].
  - destruct (ci_owns _ _ Hinv a t Ha) as [es Hes]. rewrite (to_array _ _ _ Hes).
    cbn [must mbind outcome_bind]. eexists. split; [done|].
    split; [|done]. apply Hkeep; try done. intros b u es' Hne Hb [].
    split; try done. cbn. rewrite lookup_delete_ne; [done|].
    intros He. apply Hne. symmetry. by eapply (ci_arrays _ _ Hinv).
  - eexists. split; [done|]. split; [|done]. apply Hkeep; try done. by intros b u es' _ _ [].
Qed.

Lemma store_inv X c a t t' :
  client_inv X c → objects c !! a = Some (Strong t) →
  io_entries (tx_info t') = io_entries (tx_info t) →
  (∀ es, tx_owns c t es → tx_owns c t' es) →
  (a ∈ waiting c → ∀ es, tx_owns c t es → ∃ r n, tx_ready t' es r n) →
  client_inv X (store_tx a t' c).
Proof.
  intros [Hnd Hobj Hst Hown Hrd Hinj Hk] Ha Hio Ho Hr.
  assert (∀ u es, tx_owns c u es ↔ tx_owns (store_tx a t' c) u es) as Hext.
  { intros u es. split; by apply owns_ext. }
  split; try done.
  - intros x. cbn. rewrite lookup_insert_is_Some', <- Hobj. split; [|by right].
    intros [<-|?]; [by rewrite Ha|done].
  - intros x Hx. cbn. destruct (decide (x = a)) as [->|Hne].
    + exists t'. by rewrite lookup_insert_eq.
    + destruct (Hst x Hx) as [u Hu]. exists u. by rewrite lookup_insert_ne.
  - intros x u. cbn. rewrite lookup_insert_Some. intros [[<- [= <-]]|[Hne Hx]].
    + destruct (Hown a t Ha) as [es Hes]. exists es. apply Hext. auto.
    + destruct (Hown x u Hx) as [es Hes]. exists es. by apply Hext.
  - intros x u es Hx. cbn. rewrite lookup_insert_Some. intros [[<- [= <-]]|[Hne Hxu]] Hes.
    + destruct (Hown a t Ha) as [es' Hes']. apply Hext in Hes.
      assert (es' = es) as ->.
      { pose proof (to_array _ _ _ Hes) as H1. pose proof (to_array _ _ _ Hes') as H2.
        rewrite Hio in H1. congruence. }
      by apply Hr.
    + apply Hext in Hes. by eapply Hrd.
  - intros x y u v. cbn. rewrite !lookup_insert_Some.
    intros [[<- [= <-]]|[Hne Hx]] [[<- [= <-]]|[Hne' Hy]]; [done| | |by apply Hinj].
    + rewrite Hio. by apply Hinj.
    + rewrite Hio. by apply Hinj.
Qed.

(** The fields that no move looks at. *)
Lemma inv_same_lists X c c' :
  client_inv X c → objects c' = objects c → io_arrays c' = io_arrays c →
  transaction_list c' = transaction_list c → pending_transactions c' = pending_transactions c →
  transaction_process_queue c' = transaction_process_queue c → client_inv X c'.
Proof.
  intros Hinv Ho Ha Hl Hp Hq.
  assert (waiting c' = waiting c) as Hw by (unfold waiting, by_event; congruence).
  eapply inv_relist; [exact Hinv|done|done|rewrite Hl; apply Hinv|by rewrite Hw| |].
  - rewrite Hp, Hq. apply Hinv.
  - rewrite Hw. intros a t es ? []. done.
Qed.

(** ** Processing *)

Lemma process_entry_id w e (r : run D) f r' :
  process_entry w e r = Ok (f, r') → resp_id (run_resp r') = resp_id (run_resp r).
Proof.
  assert (∀ pos l x y, result_store pos l x = Ok y → resp_id y = resp_id x) as Hst.
  { intros pos l x y. unfold result_store. case_decide; [by intros [= <-]|done]. }
  assert (∀ pos b o s x y, store_result_header pos b o s x = Ok y → resp_id y = resp_id x) as Hhd.
  { intros pos b o s x y. unfold store_result_header. rewrite outcome_bind_Ok. intros (y1 & H1 & H2).
    revert H2. rewrite outcome_bind_Ok. intros (y2 & H2 & H3).
    rewrite (Hst _ _ _ _ H3), (Hst _ _ _ _ H2). by apply (Hst _ _ _ _ H1). }
  assert (∀ o, simple_command r <$> o = Ok (f, r') → resp_id (run_resp r') = resp_id (run_resp r)) as Hs.
  { intros [[ret d]| |]; [cbn|done|done]. unfold simple_command.
    destruct (negb _); by intros [= <- <-]. }
  assert (∀ b o, read_command w e b o r = Ok (f, r') → resp_id (run_resp r') = resp_id (run_resp r)) as Hrd.
  { intros b o. unfold read_command. rewrite outcome_bind_Ok. intros (x & Hx%Hhd & Hr). revert Hr.
    destruct (register_io e w _) as [reply d]. destruct (negb _); [by intros [= _ <-]|].
    rewrite outcome_bind_Ok. intros (l & _ & Hr). revert Hr. rewrite outcome_bind_Ok.
    intros (y & Hy%Hst & [= _ <-]). cbn. congruence. }
  assert (∀ b o s, batch_command w e b o s r = Ok (f, r') → resp_id (run_resp r') = resp_id (run_resp r)) as Hba.
  { intros b o s. unfold batch_command. rewrite outcome_bind_Ok. intros (x & Hx%Hhd & Hr). revert Hr.
    destruct (register_io e w _) as [reply d]. rewrite outcome_bind_Ok. intros (y & Hy%Hst & Hr). revert Hr.
    destruct (negb _); intros [= _ <-]; cbn; congruence. }
  destruct e; cbn [process_entry]; try apply Hrd; try apply Hba; try apply Hs; try (by intros [= _ <-]);
    try (destruct (register_io _ w _) as [reply d]); intros Hr; exact (Hs (Ok _) Hr).
Qed.

Lemma process_entries_id w skip i es (r r' : run D) :
  process_entries w skip i es r = Ok r' → resp_id (run_resp r') = resp_id (run_resp r).
Proof.
  revert i r. induction es as [|e es IH]; intros i r; cbn [process_entries]; [by intros [= <-]|].
  rewrite outcome_bind_Ok. intros ([f r1] & He%process_entry_id & Hr). revert Hr.
  destruct f; [destruct skip|].
  - intros ->%IH. done.
  - intros [= <-]. done.
  - intros ->%IH. done.
Qed.

Context (Hw : 0 <= native_value_bitwidth cfg).
Context (Hreads : lwis_reads (native_value_bitwidth cfg)) (Hclock : lwis_clock _).

(** A turn of a transaction that can be processed ends, with the response of the
    same transaction; if entries remain, they can be processed in turn. *)
Lemma turn_ready t es r n max_limit skip d c :
  tx_owns c t es → tx_ready t es r n → 0 <= max_limit →
  ∃ more ret d' p,
    process_turn (native_value_bitwidth cfg) max_limit skip es
      (Progress (remaining_entries_to_process t) (tx_read_buf t) r) d = Ok (more, ret, d', p) ∧
    resp_id (presp p) = info_id (tx_info t) ∧
    (more = true → max_limit < remaining_entries_to_process t ∧ 0 < remaining p ∧
       ∃ n', tx_ready (set_tx_progress p t) es (presp p) n').
Proof.
  intros Hown [Hresp Hid Hn Hrem Hbuf Hroom] Hmax. unfold process_turn.
  cbn [remaining starting_read_buf presp]. rewrite Hrem.
  set (m := Z.of_nat (length es - n)).
  set (cur := if max_limit <? m then max_limit else m).
  assert (0 <= cur <= m) as Hcur by (unfold cur; destruct (Z.ltb_spec max_limit m); lia).
  replace (Z.of_nat (length es) - m) with (Z.of_nat n) by lia. rewrite Nat2Z.id.
  assert (drop n es = take (Z.to_nat cur) (drop n es) ++ drop (n + Z.to_nat cur) es) as Hsplit.
  { by rewrite <- drop_drop, take_drop. }
  pose proof (to_entries _ _ _ Hown) as Hes.
  assert (Forall entry_ok (take (Z.to_nat cur) (drop n es)) ∧
    Forall entry_ok (drop (n + Z.to_nat cur) es)) as [Hes1 Hes2].
  { split; [apply Forall_take|]; by apply Forall_drop. }
  pose proof (results_space_nonneg _ _ Hw Hes2) as Hnn.
  rewrite Hsplit, results_space_app in Hroom.
  destruct (process_entries_within (native_value_bitwidth cfg) skip (Z.of_nat n)
    (take (Z.to_nat cur) (drop n es)) (Run 0 d (default 0 (tx_read_buf t)) (set_completion (-1) r)))
    as (r' & Hrun & Hb & Hz); [done|done|done|cbn; lia|].
  rewrite Hrun. apply process_entries_id in Hrun. cbn in Hrun, Hb, Hz.
  cbn [mbind outcome_bind].
  destruct (Z.ltb_spec 0 (m - cur)) as [Hl|Hl]; cbn [andb]; [|eexists _, _, _, _; split; [done|]; cbn; split; [congruence|done]].
  destruct (run_ret r' =? 0); cbn [andb]; [|eexists _, _, _, _; split; [done|]; cbn; split; [congruence|done]].
  eexists _, _, _, _. split; [done|]. cbn [presp remaining]. split; [congruence|]. intros _.
  assert (cur = max_limit ∧ max_limit < m) as [Hcm Hlm]
    by (unfold cur in *; destruct (Z.ltb_spec max_limit m); lia).
  split_and!; [done|lia|]. exists (n + Z.to_nat cur)%nat.
  split; cbn; [done|congruence|lia|lia|lia|]. rewrite Hz. lia.
Qed.

Lemma ready_unique c t es es' : tx_owns c t es → tx_owns c t es' → es = es'.
Proof. intros [H1] [H2]. congruence. Qed.

(** The transaction that is processed, on the queue or in flight, ends with the
    event of its own, or stays where it is with entries left. *)
Lemma process_ready X c a limit :
  (limit = true → client_inv X c ∧ a ∈ transaction_process_queue c) →
  (limit = false → client_inv (a :: X) c ∧ ready_at a c) →
  ∃ ret gone c' em, process_transaction cfg a true true false limit c = Ok (ret, gone, c', em) ∧
    client_inv X c' ∧ ids c ≡ₚ ids c' ++ finished em ∧
    transaction_list c' = transaction_list c ∧
    (∀ x, x ≠ a → x ∈ transaction_process_queue c → x ∈ transaction_process_queue c') ∧
    (gone = false → limit = true ∧ a ∈ transaction_process_queue c' ∧
       ∃ t, objects c' !! a = Some (Strong t)) ∧
    mode c' = mode c.
Proof.
  intros Htrue Hfalse.
  assert (∃ Y, client_inv Y c ∧ ready_at a c ∧ Y = if limit then X else a :: X) as (Y & Hinv & (t & Ha & Hr) & HY).
  { destruct limit.
    - destruct Htrue as [Hinv Hq]; [done|]. exists X. split_and!; [done| |done].
      destruct (ci_strong _ _ Hinv a) as [t Ht]; [apply elem_of_app; by right|].
      eapply waiting_ready; [done| |done]. unfold waiting. set_solver.
    - destruct Hfalse as [Hinv Hr]; [done|]. by exists (a :: X). }
  destruct (ci_owns _ _ Hinv a t Ha) as [es Hes]. destruct (Hr es Hes) as (r & n & Hrd).
  unfold process_transaction. rewrite (proj2 (tx_at_Ok a c t) Ha). cbn [mbind outcome_bind].
  unfold resp_of. rewrite (tr_resp _ _ _ _ Hrd). cbn [must mbind outcome_bind].
  rewrite (to_array _ _ _ Hes). cbn [must mbind outcome_bind].
  set (lim := turn_limit _ _ _ _ _).
  assert (0 <= lim ∧ (limit = false → Z.of_nat (length es) <= lim)) as [Hlim Hnolim].
  { unfold lim, turn_limit. destruct limit; cbn [negb]; rewrite ?orb_false_r, ?orb_true_r; [|lia].
    split; [|done]. destruct (Z.leb_spec (transaction_process_limit cfg) 0); cbn; [lia|].
    destruct (run_in_event_context _); cbn; lia. }
  destruct (turn_ready t es r n lim false (delayed_execution t (cdev c)) c Hes Hrd Hlim)
    as (more & ret & d & p & Hturn & Hpid & Hmore). rewrite Hturn. cbn [mbind outcome_bind].
  set (c1 := store_tx a (set_tx_progress p t) (set_dev d c)).
  assert (objects c1 !! a = Some (Strong (set_tx_progress p t))) as Ha1 by apply lookup_insert_eq.
  assert (tx_ids c1 = tx_ids c) as Hids1.
  { change (tx_ids c1) with (tx_ids (store_tx a (set_tx_progress p t) c)).
    by eapply ids_store. }
  destruct more.
  - destruct Hmore as (Hlt & Hpos & n' & Hrd'); [done|].
    assert (limit = true) as ->.
    { destruct limit; [done|]. specialize (Hnolim eq_refl). rewrite (tr_remaining _ _ _ _ Hrd) in Hlt. lia. }
    destruct Htrue as [_ Hq]; [done|]. subst Y.
    eexists _, _, _, _. split; [done|]. split_and!; try done.
    + eapply store_inv; [by eapply inv_same_lists|done|done| |].
      * by intros es' [].
      * intros _ es' Hes'. assert (es' = es) as ->.
        { eapply ready_unique; [|exact Hes]. by destruct Hes'. }
        by exists (presp p), n'.
    + unfold ids. rewrite Hids1. cbn. by rewrite app_nil_r.
    + intros _. split_and!; [done|done|eauto].
  - set (c2 := if limit then queue_del a c1 else c1).
    assert (client_inv (a :: X) c2 ∧ objects c2 = objects c1) as [Hinv2 Ho2].
    { assert (∀ c0, client_inv (a :: X) c0 → objects c0 !! a = Some (Strong t) →
        client_inv (a :: X) (store_tx a (set_tx_progress p t) (set_dev d c0))) as Hst.
      { intros c0 Hc0 Ha0. eapply store_inv; [by eapply inv_same_lists|done|done|by intros es' []|].
        intros Hin. exfalso. pose proof (ci_nodup _ _ Hc0) as Hnd.
        rewrite <- Permutation_middle in Hnd. apply NoDup_cons in Hnd as [Hnd _].
        apply Hnd, elem_of_app. by left. }
      unfold c2, c1. destruct limit; [|by split; [apply Hst; [apply Hfalse|]|]].
      split; [|done]. destruct Htrue as [HinvX Hq]; [done|].
      apply (Hst (queue_del a c)); [by apply unlink_queue|done]. }
    rewrite <- Ho2 in Ha1.
    destruct (Z.eqb_spec (trigger_event_counter (tx_info t)) LWIS_EVENT_COUNTER_EVERY_TIME) as [He|_];
      [by destruct (to_once _ _ _ Hes)|].
    destruct (freed_inv _ _ _ _ Hinv2 Ha1) as (c' & Hf & Hinv' & Ho' & Hl' & Hp' & Hq').
    rewrite Hf. cbn [mbind outcome_bind]. eexists _, _, _, _. split; [done|].
    assert (ids c ≡ₚ info_id (tx_info t) :: ids c') as Hids.
    { unfold ids at 1. rewrite <- Hids1.
      apply (ids_delete c1 c' a (set_tx_progress p t)); [by rewrite <- Ho2|by rewrite Ho', Ho2]. }
    split_and!; [done| | | |done|].
    + rewrite Hids. cbn [andb].
      assert (∀ b : bool, ((if b then emit_error_event_id (tx_info t)
        else emit_success_event_id (tx_info t)) =? LWIS_EVENT_ID_NONE) = false) as Hev.
      { intros b. apply Z.eqb_neq. destruct b; apply Hes. }
      rewrite Hev. cbn. by rewrite Hpid, <- Permutation_cons_append.
    + rewrite Hl'. unfold c2. by destruct limit.
    + intros x Hx Hin. rewrite Hq'. unfold c2. destruct limit; [|done]. cbn. by apply elem_of_list_del.
    + assert (mode c' = mode c2) as ->; [|unfold c2; by destruct limit].
      revert Hf. unfold lwis_transaction_free. rewrite Ha1. cbn [must mbind outcome_bind].
      rewrite outcome_bind_Ok. by intros (? & _ & [= <-]).
Qed.

End Inv.
