(* ===== verification/LwisClientProps.v ===== *)
(** * LWIS: a transaction that is submitted ends exactly once

    Whatever the order of submissions, events, fences, cancellations and turns of
    the worker, each of these operations is defined, and the transactions
    submitted are those that wait and those whose event was emitted. *)

From S2P Require Import Prelude LwisIoEntry LwisProcess LwisProcessProps LwisTransaction.
From S2P Require Import LwisClientInv.

Section ClientProps.
Context {F D : Type} `{lwis_vops D} `{lwis_fences F} (cfg : config).
Implicit Types c : client F D.


Context (Hw : 0 <= native_value_bitwidth cfg).
Context (Hreads : lwis_reads (native_value_bitwidth cfg)) (Hclock : lwis_clock _).

(** What an operation leaves: the objects in flight [X], and each transaction
    there was, waiting or ended. *)
Record keeps (X : list Z) c c' (em : emitted) : Prop := {
  k_inv : client_inv cfg X c';
  k_ids : ids c ≡ₚ ids c' ++ finished em;
  k_mode : mode c' = mode c
}.

Lemma keeps_nothing X c c' : client_inv cfg X c' → tx_ids c' = tx_ids c → mode c' = mode c → keeps X c c' nothing.
Proof. intros Hi Hids Hm. split; [done| |done]. unfold ids. rewrite Hids. cbn. by rewrite app_nil_r. Qed.

Lemma mode_eq c c' : mode c' = mode c → flushing c' = flushing c ∧ is_enabled c' = is_enabled c.
Proof. by intros [= -> ->]. Qed.

Lemma finished_then a b : finished (then_emit a b) = finished a ++ finished b.
Proof. unfold finished, then_emit. cbn. by rewrite fmap_app. Qed.

Lemma keeps_trans X Y c1 c2 c3 em1 em2 :
  keeps X c1 c2 em1 → keeps Y c2 c3 em2 → keeps Y c1 c3 (then_emit em1 em2).
Proof.
  intros [_ H1 Hm1] [Hi H2 Hm2]. split; [done| |congruence].
  rewrite H1, H2, finished_then. solve_Permutation.
Qed.

(** The moves between lists leave no transaction behind. *)
Lemma keeps_after X c c1 c2 em :
  tx_ids c1 = tx_ids c → mode c1 = mode c → keeps X c1 c2 em → keeps X c c2 em.
Proof.
  intros Hids Hm [Hi Hk Hm']. split; [done| |congruence].
  rewrite <- Hk. unfold ids. by rewrite Hids.
Qed.

(** ** One transaction *)

Lemma cancel_ready X c a t e :
  client_inv cfg (a :: X) c → objects c !! a = Some (Strong t) →
  ∃ c' em, cancel_transaction a e true true false c = Ok (c', em) ∧ keeps X c c' em ∧
    transaction_list c' = transaction_list c ∧
    transaction_process_queue c' = transaction_process_queue c.
Proof.
  intros Hinv Ha. unfold cancel_transaction. rewrite Ha. cbn [must mbind outcome_bind].
  destruct (ci_owns _ _ _ Hinv a t Ha) as [es Hes].
  destruct (freed_inv cfg _ _ _ _ Hinv Ha) as (c' & Hf & Hinv' & Ho & Hl & _ & Hq).
  rewrite Hf. cbn [mbind outcome_bind].
  rewrite (proj2 (Z.eqb_neq _ _) (to_error _ _ _ _ Hes)). cbn [negb andb].
  eexists _, _. split; [done|]. split; [|done]. split; [done| |].
  - rewrite (ids_delete c c' a t Ha Ho). cbn. by rewrite <- Permutation_cons_append.
  - revert Hf. unfold lwis_transaction_free. rewrite Ha. cbn [must mbind outcome_bind].
    rewrite outcome_bind_Ok. by intros (? & _ & [= <-]).
Qed.

Lemma queued_keeps X c a :
  client_inv cfg (a :: X) c → ready_at cfg a c →
  ∃ c', add_transaction_to_queue_locked a c = Ok c' ∧ keeps X c c' nothing ∧
    transaction_list c' = transaction_list c ∧
    ∀ x, x ∈ transaction_process_queue c → x ∈ transaction_process_queue c'.
Proof.
  intros Hinv Hr. destruct (link_queue cfg _ _ _ Hinv Hr) as (c' & Hq & Hinv' & Hids & Hl & Hx).
  exists c'. split; [done|]. split; [|done]. apply keeps_nothing; [done|done|].
  revert Hq. unfold add_transaction_to_queue_locked. rewrite outcome_bind_Ok.
  intros (t & _ & Hq). by destruct (is_high_priority_transaction _); injection Hq as <-.
Qed.

Lemma defer_ready X c a hardirq :
  client_inv cfg (a :: X) c → ready_at cfg a c →
  ∃ c' em, defer_transaction_locked cfg hardirq a c = Ok (c', em) ∧ keeps X c c' em ∧
    transaction_list c' = transaction_list c.
Proof.
  intros Hinv Hr. pose proof Hr as (t & Ha & _). unfold defer_transaction_locked.
  rewrite (proj2 (tx_at_Ok a c t) Ha). cbn [mbind outcome_bind].
  destruct (queued_keeps _ _ _ Hinv Hr) as (c1 & Hq & Hk & Hl & _). rewrite Hq.
  destruct (hardirq && is_i2c_device cfg); [by exists c1, nothing|].
  destruct (run_in_event_context (tx_info t)); [|by exists c1, nothing].
  destruct (process_ready cfg Hw Hreads Hclock X c a false)
    as (ret & gone & c' & em & Hp & Hinv' & Hids & Hl' & _ & _ & Hm); [done|done|].
  rewrite Hp. exists c', em. split; [done|]. done.
Qed.

(** ** The worker *)

Lemma queue_keeps l c em :
  client_inv cfg [] c → flushing c = false → is_enabled c = true ∨ is_top_device cfg = true ∨ em = nothing →
  NoDup l → (∀ a, a ∈ l → a ∈ transaction_process_queue c) →
  ∃ c' em', process_queue cfg false l c em = Ok (c', em') ∧ client_inv cfg [] c' ∧ mode c' = mode c ∧
    ids c ++ finished em ≡ₚ ids c' ++ finished em'.
Proof.
  revert c em. induction l as [|a l IH]; intros c em Hinv Hfl Hen Hnd Hin; cbn [process_queue];
    [by exists c, em|].
  destruct (negb (is_enabled c) && negb (is_top_device cfg)) eqn:Ede.
  { exists c, nothing. split_and!; [done|done|done|].
    destruct Hen as [He|[He| ->]]; [by rewrite He in Ede|by rewrite He, andb_false_r in Ede|done]. }
  assert (∀ em1, is_enabled c = true ∨ is_top_device cfg = true ∨ em1 = nothing) as Hen'.
  { intros em1. destruct (is_enabled c); [by left|]. destruct (is_top_device cfg); [by right; left|done]. }
  apply NoDup_cons in Hnd as [Hal Hnd].
  assert (a ∈ transaction_process_queue c) as Haq by (apply Hin; left).
  destruct (ci_strong _ _ _ Hinv a) as [t Ha]; [apply elem_of_app; by right|].
  assert (a ∈ waiting c) as Haw by (unfold waiting; set_solver).
  destruct (ci_owns _ _ _ Hinv a t Ha) as [es Hes].
  destruct (ci_ready _ _ _ Hinv a t es Haw Ha Hes) as (r & n & Hrd).
  rewrite (proj2 (tx_at_Ok a c t) Ha). cbn [mbind outcome_bind andb].
  unfold resp_of at 1. rewrite (tr_resp _ _ _ _ _ Hrd). cbn [must mbind outcome_bind].
  destruct (negb (error_code r =? 0)).
  - destruct (cancel_ready [] (queue_del a c) a t (error_code r)) as (c1 & em1 & Hc & [Hi1 Hk1 Hm1] & _ & Hq1);
      [by apply unlink_queue|done|].
    rewrite Hc. cbn [mbind outcome_bind].
    destruct (mode_eq _ _ Hm1) as [Hf1 He1]. cbn in Hf1, He1.
    destruct (IH c1 (then_emit em em1)) as (c' & em' & Hr & Hi' & Hm' & HP).
    + done.
    + by rewrite Hf1.
    + rewrite He1. apply Hen'.
    + done.
    + intros x Hx. rewrite Hq1. cbn. apply elem_of_list_del. split; [by intros ->|apply Hin; by right].
    + exists c', em'. split_and!; [done|done|by rewrite Hm', Hm1|]. rewrite <- HP, finished_then.
      change (ids c) with (ids (queue_del a c)). rewrite Hk1. solve_Permutation.
  - destruct (process_ready cfg Hw Hreads Hclock [] c a true)
      as (ret & gone & c1 & em1 & Hp & Hi1 & Hids & _ & Hq1 & Hgone & Hm1); [done|done|].
    cbn [negb]. rewrite Hp. cbn [mbind outcome_bind].
    destruct (mode_eq _ _ Hm1) as [Hf1 He1]. rewrite Hfl in Hf1.
    assert (∀ c2, transaction_process_queue c2 = transaction_process_queue c1 → 
      ∀ x, x ∈ l → x ∈ transaction_process_queue c2) as Hrest.
    { intros c2 -> x Hx. apply Hq1; [by intros ->|apply Hin; by right]. }
    assert (∃ c' em', process_queue cfg false l c1 (then_emit (then_emit em em1) nothing) = Ok (c', em') ∧
      client_inv cfg [] c' ∧ mode c' = mode c ∧ ids c ++ finished em ≡ₚ ids c' ++ finished em') as Hgo.
    { destruct (IH c1 (then_emit (then_emit em em1) nothing)) as (c' & em' & Hr & Hi' & Hm' & HP);
        [done|done|rewrite He1; apply Hen'|done|by apply Hrest|].
      exists c', em'. split_and!; [done|done|by rewrite Hm', Hm1|]. rewrite <- HP, !finished_then, Hids.
      cbn. solve_Permutation. }
    unfold process_broken_transaction. destruct gone; [done|].
    destruct (Hgone eq_refl) as (_ & Haq1 & u & Hu). rewrite (proj2 (tx_at_Ok a c1 u) Hu).
    cbn [mbind outcome_bind]. destruct (0 <? _); [|done]. rewrite Hf1. cbn [mbind outcome_bind].
    eexists _, _. split; [done|]. split_and!; [by eapply inv_same_lists|done|].
    rewrite !finished_then. change (ids (lwis_queue_device_worker c1)) with (ids c1).
    rewrite Hids. cbn. solve_Permutation.
Qed.

Lemma worker_keeps c :
  client_inv cfg [] c → flushing c = false →
  ∃ c' em, run_worker cfg c = Ok (c', em) ∧ keeps [] c c' em.
Proof.
  intros Hinv Hfl. unfold run_worker. destruct (worker_queued c);
    [|exists c, nothing; split; [done|by apply keeps_nothing]].
  unfold lwis_process_transactions_in_queue.
  destruct (queue_keeps (transaction_process_queue (set_worker false c)) (set_worker false c) nothing)
    as (c' & em & Hr & Hi & Hm & HP).
  - by eapply inv_same_lists.
  - done.
  - by right; right.
  - pose proof (ci_nodup _ _ _ Hinv) as Hnd. rewrite app_nil_r in Hnd. unfold waiting in Hnd.
    by apply NoDup_app in Hnd as (_ & _ & (_ & _ & ?)%NoDup_app).
  - done.
  - exists c', em. split; [done|]. split; [done| |done]. rewrite <- HP. cbn. by rewrite app_nil_r.
Qed.

(** ** Changes in place *)

(** A transaction whose description and progress are the same. *)
Record tx_same (t t' : transaction) : Prop := {
  same_info : tx_info t' = tx_info t;
  same_remaining : remaining_entries_to_process t' = remaining_entries_to_process t;
  same_buf : tx_read_buf t' = tx_read_buf t;
  same_resp r : resp t = Some r → ∃ r', resp t' = Some r' ∧ resp_id r' = resp_id r ∧
    results_room r' = results_room r
}.

Lemma tx_same_trans t u v : tx_same t u → tx_same u v → tx_same t v.
Proof.
  intros [H1 H2 H3 H4] [G1 G2 G3 G4]. split; [congruence..|].
  intros r (r1 & Hr1 & ? & ?)%H4. destruct (G4 r1 Hr1) as (r2 & ? & ? & ?).
  exists r2. split_and!; congruence.
Qed.

(** The fields no turn reads. *)
Lemma tx_same_resp t t' :
  tx_info t' = tx_info t → remaining_entries_to_process t' = remaining_entries_to_process t →
  tx_read_buf t' = tx_read_buf t → resp t' = resp t → tx_same t t'.
Proof. intros H1 H2 H3 H4. split; [done..|]. intros r. rewrite H4. eauto. Qed.

Lemma tx_same_error t r e : resp t = Some r → tx_same t (set_tx_resp (set_error e r) t).
Proof. intros Hr. split; [done..|]. intros r'. rewrite Hr. intros [= ->]. cbn. eauto. Qed.

Lemma same_ready t t' es r n :
  tx_same t t' → tx_ready cfg t es r n → ∃ r', tx_ready cfg t' es r' n.
Proof.
  intros [H1 H2 H3 H4] []. destruct (H4 r) as (r' & ? & ? & ?); [done|].
  exists r'. split; congruence.
Qed.

Lemma same_store X c a t t' :
  client_inv cfg X c → objects c !! a = Some (Strong t) → tx_same t t' →
  client_inv cfg X (store_tx a t' c) ∧ tx_ids (store_tx a t' c) = tx_ids c ∧
  (ready_at cfg a c → ready_at cfg a (store_tx a t' c)).
Proof.
  intros Hinv Ha Hs. pose proof (same_info _ _ Hs) as Hi.
  assert (∀ es, tx_owns cfg c t es ↔ tx_owns cfg c t' es) as Ho.
  { intros es. split; intros []; split; congruence. }
  split_and!.
  - eapply store_inv; [done|done|by rewrite Hi|by intros es ?%Ho|].
    intros Hin es Hes. destruct (ci_ready _ _ _ Hinv a t es Hin Ha Hes) as (r & n & Hr).
    destruct (same_ready _ _ _ _ _ Hs Hr) as [r' ?]. by exists r', n.
  - eapply ids_store; [done|by rewrite Hi].
  - intros (u & Hu & Hr). rewrite Ha in Hu. injection Hu as <-. exists t'.
    split; [apply lookup_insert_eq|]. intros es Hes. destruct (Hr es) as (r & n & Hrd).
    { apply Ho. by eapply (owns_ext cfg (store_tx a t' c)). }
    destruct (same_ready _ _ _ _ _ Hs Hrd) as [r' ?]. by exists r', n.
Qed.

(** A signal counts. *)
Lemma condition_same t s ready t' :
  lwis_fence_triggered_condition_ready t s = (ready, t') →
  t' = set_signaled (s32 (signaled_count t + 1)) t.
Proof.
  unfold lwis_fence_triggered_condition_ready.
  repeat (match goal with |- context [if ?b then _ else _] => destruct b end); by intros [= _ <-].
Qed.

(** Lists do not matter to a transaction that can be processed. *)
Lemma ready_ext a c c' :
  objects c' !! a = objects c !! a → io_arrays c' = io_arrays c → ready_at cfg a c →
  ready_at cfg a c'.
Proof.
  intros Ho Ha (t & Ht & Hr). exists t. rewrite Ho. split; [done|]. intros es Hes. apply Hr.
  by eapply owns_ext.
Qed.

(** ** Triggers *)

Lemma find_pending_ready X c l id :
  client_inv cfg X c → (∀ x, x ∈ l → x ∈ pending_transactions c) →
  ∃ o, find_pending l id c = Ok o ∧
    ∀ b, o = Some b → b ∈ pending_transactions c ∧ ∃ t, objects c !! b = Some (Strong t) ∧
      info_id (tx_info t) = id.
Proof.
  intros Hinv. induction l as [|a l IH]; intros Hl; cbn [find_pending]; [by exists None|].
  destruct (ci_strong _ _ _ Hinv a) as [t Ha]; [apply elem_of_app; left; apply Hl; left|].
  rewrite (proj2 (tx_at_Ok a c t) Ha). cbn [mbind outcome_bind].
  destruct (Z.eqb_spec (info_id (tx_info t)) id).
  - exists (Some a). split; [done|]. intros b [= <-]. split; [apply Hl; left|by exists t].
  - apply IH. intros x Hx. apply Hl. by right.
Qed.

Lemma pending_ready X c b t :
  client_inv cfg X c → b ∈ pending_transactions c → objects c !! b = Some (Strong t) →
  ready_at cfg b c ∧ ∃ r, resp_of t = Ok r ∧ resp t = Some r.
Proof.
  intros Hinv Hb Ht. assert (b ∈ waiting c) as Hbw by (unfold waiting; set_solver).
  split; [by eapply waiting_ready|]. destruct (ci_owns _ _ _ Hinv b t Ht) as [es Hes].
  destruct (ci_ready _ _ _ Hinv b t es Hbw Ht Hes) as (r & n & Hr).
  exists r. unfold resp_of. by rewrite (tr_resp _ _ _ _ _ Hr).
Qed.

(** The list of an event, with one node less at most. *)
Definition shrunk (id a : Z) c c' : Prop :=
  transaction_list c' = transaction_list c ∨
  transaction_list c' = update_list id (list_del a) (transaction_list c).

Lemma shrunk_find id a c c' l :
  shrunk id a c c' → event_list_find c id = Some l →
  ∃ l', event_list_find c' id = Some l' ∧ ∀ x, x ∈ l → x ≠ a → x ∈ l'.
Proof.
  unfold event_list_find. intros [->| ->] Hf; [by exists l|].
  exists (list_del a l). rewrite find_update, Hf. split; [done|]. intros x Hx Hne. by apply elem_of_list_del.
Qed.

Lemma weak_gone X c id a l w p :
  client_inv cfg X c → event_list_find c id = Some l → a ∈ l → objects c !! a = Some (Weak w p) →
  client_inv cfg X (kfree a (event_list_del id a c)) ∧
  tx_ids (kfree a (event_list_del id a c)) = tx_ids c.
Proof.
  intros Hinv Hf Ha Ho. pose proof (unlink_event cfg _ _ _ _ _ Hinv Hf Ha) as Hinv1.
  destruct (freed_inv cfg _ (event_list_del id a c) a (Weak w p) Hinv1 Ho) as (c' & Hfr & Hinv' & Hoo & _).
  revert Hfr. unfold lwis_transaction_free. cbn [objects event_list_del set_lists]. rewrite Ho.
  cbn. intros [= <-]. split; [done|]. apply (ids_weak c (kfree a (event_list_del id a c)) a); [by rewrite Ho|by left].
Qed.

Lemma in_waiting c id l a : event_list_find c id = Some l → a ∈ l → a ∈ waiting c.
Proof.
  intros (rest & HP & _)%find_list_split Ha. unfold waiting, by_event. rewrite HP. set_solver.
Qed.

(** An event for a condition, at the weak transaction that stands for it. *)
Lemma condition_keeps c id n a l w p b t :
  client_inv cfg [] c → event_list_find c id = Some l → a ∈ l → objects c !! a = Some (Weak w p) →
  b ∈ pending_transactions c → objects c !! b = Some (Strong t) →
  ∃ ready c1, lwis_event_triggered_condition_ready b a p id n c = Ok (ready, c1) ∧
    client_inv cfg [] c1 ∧ tx_ids c1 = tx_ids c ∧ mode c1 = mode c ∧
    pending_transactions c1 = pending_transactions c ∧ shrunk id a c c1.
Proof.
  intros Hinv Hf Ha Hoa Hb Hob. unfold lwis_event_triggered_condition_ready.
  rewrite (proj2 (tx_at_Ok b c t) Hob). cbn [mbind outcome_bind].
  destruct (node_signaled _ _ _ _ _).
  - set (t' := set_signaled _ t).
    destruct (same_store [] c b t t' Hinv Hob) as (Hinv1 & Hids1 & _); [by apply tx_same_resp|].
    assert (objects (store_tx b t' c) !! a = Some (Weak w p)) as Hoa1.
    { cbn. rewrite lookup_insert_ne; [done|]. intros ->. by rewrite Hoa in Hob. }
    destruct (weak_gone _ _ _ _ _ _ _ Hinv1 Hf Ha Hoa1) as [Hinv2 Hids2].
    rewrite <- Hids1, <- Hids2. cbn zeta.
    destruct (operator_type (tx_info t)); eexists _, _; (split; [done|]); split_and!; try done; by right.
  - exists false, c. split_and!; try done. by left.
Qed.

(** A transaction on the list of an event goes to the queue. *)
Lemma unlink_queued (a id : Z) (em : emitted) c :
  (c' ← add_transaction_to_queue_locked a c; Ok (event_list_del id a c', em)) =
  (c' ← add_transaction_to_queue_locked a (event_list_del id a c); Ok (c', em)).
Proof.
  unfold add_transaction_to_queue_locked. change (tx_at a (event_list_del id a c)) with (tx_at a c).
  destruct (tx_at a c) as [t| |]; [cbn|done|done]. by destruct (is_high_priority_transaction _).
Qed.

(** The same, pending. *)
Lemma unlink_pending_queued (b : Z) (em : emitted) c :
  (c' ← add_transaction_to_queue_locked b c; Ok (pending_del b c', em)) =
  (c' ← add_transaction_to_queue_locked b (pending_del b c); Ok (c', em)).
Proof.
  unfold add_transaction_to_queue_locked. change (tx_at b (pending_del b c)) with (tx_at b c).
  destruct (tx_at b c) as [t| |]; [cbn|done|done]. by destruct (is_high_priority_transaction _).
Qed.

Lemma trigger_weak_keeps hardirq id n a l c w p :
  client_inv cfg [] c → event_list_find c id = Some l → a ∈ l → objects c !! a = Some (Weak w p) →
  ∃ c' em, trigger_one cfg hardirq id n a c = Ok (c', em) ∧ keeps [] c c' em ∧ shrunk id a c c'.
Proof.
  intros Hinv Hf Ha Ho. unfold trigger_one. rewrite Ho. cbn [must mbind outcome_bind].
  unfold pending_transaction_peek.
  destruct (find_pending_ready [] c (pending_transactions c) w Hinv) as (o & -> & Hb); [done|].
  cbn [mbind outcome_bind]. destruct o as [b|].
  - destruct (Hb b) as (Hbp & t & Hob & _); [done|]. rewrite (proj2 (tx_at_Ok b c t) Hob).
    cbn [mbind outcome_bind]. destruct (pending_ready _ _ _ _ Hinv Hbp Hob) as (Hrb & r & -> & _). cbn [mbind outcome_bind].
    destruct (negb _).
    + setoid_rewrite unlink_pending_queued.
      destruct (queued_keeps [] (pending_del b c) b) as (c1 & -> & Hk & Hl & _);
        [by apply unlink_pending|by apply (ready_ext _ c)|].
      exists c1, nothing. split; [done|]. split; [by apply (keeps_after _ _ (pending_del b c))|by left].
    + destruct (condition_keeps c id n a l w p b t Hinv Hf Ha Ho Hbp Hob)
        as (ready & c1 & -> & Hinv1 & Hids & Hm & Hp & Hs). cbn [mbind outcome_bind].
      destruct ready; [|exists c1, nothing; split; [done|]; split; [by apply keeps_nothing|done]].
      rewrite <- Hp in Hbp.
      destruct (ci_strong _ _ _ Hinv1 b) as [t1 Hob1]; [apply elem_of_app; by left|].
      destruct (defer_ready [] (pending_del b c1) b hardirq) as (c2 & em & Hd & Hk & Hl);
        [by apply unlink_pending
        |by apply (ready_ext _ c1), (pending_ready [] c1 b t1)|].
      exists c2, em. split; [done|]. split; [by apply (keeps_after _ _ (pending_del b c1))|].
      unfold shrunk in *. by rewrite Hl.
  - destruct (weak_gone _ _ _ _ _ _ _ Hinv Hf Ha Ho) as [Hinv1 Hids].
    eexists _, _. split; [done|]. split; [by apply keeps_nothing|by right].
Qed.

Lemma trigger_strong_keeps hardirq id n a l c t :
  client_inv cfg [] c → event_list_find c id = Some l → a ∈ l → objects c !! a = Some (Strong t) →
  ∃ c' em, trigger_one cfg hardirq id n a c = Ok (c', em) ∧ keeps [] c c' em ∧ shrunk id a c c'.
Proof.
  intros Hinv Hf Ha Ho. unfold trigger_one. rewrite Ho. cbn [must mbind outcome_bind].
  pose proof (in_waiting _ _ _ _ Hf Ha) as Haw.
  destruct (ci_owns _ _ _ Hinv a t Ho) as [es Hes].
  destruct (ci_ready _ _ _ Hinv a t es Haw Ho Hes) as (r & m & Hr).
  pose proof (waiting_ready _ _ _ _ _ Hinv Haw Ho) as Hrd.
  pose proof (unlink_event cfg _ _ _ _ _ Hinv Hf Ha) as Hinv1.
  unfold resp_of. rewrite (tr_resp _ _ _ _ _ Hr). cbn [must mbind outcome_bind].
  destruct (negb _).
  - setoid_rewrite unlink_queued.
    destruct (queued_keeps [] (event_list_del id a c) a) as (c1 & -> & Hk & Hl & _);
      [done|by apply (ready_ext _ c)|].
    exists c1, nothing. split; [done|].
    split; [by apply (keeps_after _ _ (event_list_del id a c))|by right].
  - destruct (_ || _).
    + destruct (defer_ready [] (event_list_del id a c) a hardirq) as (c1 & em & Hd & Hk & Hl);
        [done|by apply (ready_ext _ c)|].
      exists c1, em. split; [done|].
      split; [by apply (keeps_after _ _ (event_list_del id a c))|by right].
    + rewrite (proj2 (Z.eqb_neq _ _) (to_once _ _ _ _ Hes)).
      exists c, nothing. split; [done|]. split; [by apply keeps_nothing|by left].
Qed.

Lemma trigger_all_keeps hardirq id n l l' c em :
  client_inv cfg [] c → event_list_find c id = Some l' → NoDup l → (∀ a, a ∈ l → a ∈ l') →
  ∃ c' em', trigger_all cfg hardirq id n l c em = Ok (c', em') ∧ client_inv cfg [] c' ∧
    mode c' = mode c ∧ ids c ++ finished em ≡ₚ ids c' ++ finished em'.
Proof.
  revert l' c em. induction l as [|a l IH]; intros l' c em Hinv Hf Hnd Hin; cbn [trigger_all];
    [by exists c, em|].
  apply NoDup_cons in Hnd as [Hal Hnd]. assert (a ∈ l') as Ha by (apply Hin; left).
  assert (∃ c1 em1, trigger_one cfg hardirq id n a c = Ok (c1, em1) ∧ keeps [] c c1 em1 ∧ shrunk id a c c1)
    as (c1 & em1 & -> & [Hinv1 Hk Hm] & Hs).
  { destruct (proj2 (ci_objects _ _ _ Hinv a)) as [[t|w p] Ho].
    - rewrite app_nil_r. by eapply in_waiting.
    - by eapply trigger_strong_keeps.
    - by eapply trigger_weak_keeps. }
  destruct (shrunk_find _ _ _ _ _ Hs Hf) as (l1 & Hf1 & Hl1). cbn [mbind outcome_bind].
  destruct (IH l1 c1 (then_emit em em1)) as (c' & em' & Hr & Hinv' & Hm' & HP); [done|done|done| |].
  - intros x Hx. apply Hl1; [apply Hin; by right|by intros ->].
  - exists c', em'. split_and!; [done|done|by rewrite Hm'|]. rewrite <- HP, finished_then, Hk.
    solve_Permutation.
Qed.

Lemma queue_if_any_keeps X c c' em : keeps X c c' em → keeps X c (queue_if_any c') em.
Proof.
  intros [Hi Hk Hm]. unfold queue_if_any. destruct (transaction_process_queue c'); [done|].
  split; [by eapply inv_same_lists|done|done].
Qed.

Lemma event_keeps hardirq id n c :
  client_inv cfg [] c →
  ∃ c' em, lwis_transaction_event_trigger cfg hardirq id n c = Ok (c', em) ∧ keeps [] c c' em.
Proof.
  intros Hinv. unfold lwis_transaction_event_trigger. set (id' := if negb _ then _ else _).
  destruct (event_list_find c id') as [[|a l]|] eqn:Hf;
    [exists c, nothing; split; [done|by apply keeps_nothing]| |
     exists c, nothing; split; [done|by apply keeps_nothing]].
  destruct (trigger_all_keeps hardirq id' n (a :: l) (a :: l) c nothing Hinv Hf)
    as (c' & em & -> & Hinv' & Hm & HP); [|done|].
  - pose proof (ci_nodup _ _ _ Hinv) as Hnd. rewrite app_nil_r in Hnd.
    apply NoDup_app in Hnd as (Hnd & _). destruct (find_list_split _ _ _ Hf) as (rest & HP & _).
    unfold by_event in Hnd. rewrite HP in Hnd. by apply NoDup_app in Hnd as (? & _).
  - eexists _, _. split; [done|]. apply queue_if_any_keeps. split; [done| |done].
    by rewrite app_nil_r in HP.
Qed.

Lemma fence_keeps fence id c :
  client_inv cfg [] c →
  ∃ c' em, lwis_transaction_fence_trigger fence id c = Ok (c', em) ∧ keeps [] c c' em.
Proof.
  intros Hinv. unfold lwis_transaction_fence_trigger, pending_transaction_peek.
  destruct (find_pending_ready [] c (pending_transactions c) id Hinv) as (o & -> & Hb); [done|].
  cbn [mbind outcome_bind].
  assert (∀ em, keeps [] c c em → keeps [] c (queue_if_any c) em) by (intros; by apply queue_if_any_keeps).
  destruct o as [a|]; [|eexists _, _; split; [done|]; by apply queue_if_any_keeps, keeps_nothing].
  destruct (Hb a) as (Hp & t & Ha & _); [done|]. rewrite (proj2 (tx_at_Ok a c t) Ha).
  cbn [mbind outcome_bind].
  destruct (lwis_fence_triggered_condition_ready t _) as [ready t'] eqn:Ec.
  apply condition_same in Ec as ->.
  set (t' := set_signaled _ t). destruct (same_store [] c a t t' Hinv Ha) as (Hinv1 & Hids1 & Hrd);
    [by apply tx_same_resp|].
  destruct (pending_ready _ _ _ _ Hinv Hp Ha) as (Hra & _).
  assert (keeps [] c (store_tx a t' c) nothing) as Hk0 by (by apply keeps_nothing).
  destruct ready; [|eexists _, _; split; [done|]; by apply queue_if_any_keeps].
  pose proof (unlink_pending cfg [] (store_tx a t' c) a Hinv1 Hp) as Hinv2.
  destruct (_ =? _).
  - destruct (queued_keeps [] (pending_del a (store_tx a t' c)) a Hinv2) as (c1 & -> & Hk & _);
      [by apply (ready_ext _ (store_tx a t' c)), Hrd|].
    eexists _, _. split; [done|]. apply queue_if_any_keeps.
    by apply (keeps_after _ _ (pending_del a (store_tx a t' c))).
  - destruct (cancel_ready [] (pending_del a (store_tx a t' c)) a t' (- ECANCELED) Hinv2)
      as (c1 & em & -> & Hk & _); [apply lookup_insert_eq|].
    eexists _, _. split; [done|]. apply queue_if_any_keeps.
    by apply (keeps_after _ _ (pending_del a (store_tx a t' c))).
Qed.

(** ** Cancellation *)

(** The memory of a weak transaction is not that of an id that is looked for. *)
Lemma find_waiting_keeps X c l id :
  client_inv cfg X c → garbage cfg ≠ id → (∀ x, x ∈ l → x ∈ waiting c) →
  ∃ o, find_waiting cfg l id c = Ok o ∧
    ∀ a, o = Some a → a ∈ l ∧ ∃ t, objects c !! a = Some (Strong t).
Proof.
  intros Hinv Hid. induction l as [|a l IH]; intros Hl; cbn [find_waiting]; [by exists None|].
  destruct IH as (o & Ho & Hf); [intros x Hx; apply Hl; by right|].
  assert (∃ o, find_waiting cfg l id c = Ok o ∧
    ∀ b, o = Some b → b ∈ a :: l ∧ ∃ t, objects c !! b = Some (Strong t)) as Hrest.
  { exists o. split; [done|]. intros b [? ?]%Hf. split; [by right|done]. }
  destruct (proj2 (ci_objects _ _ _ Hinv a)) as [[t|w p] Ha]; [apply elem_of_app; left; apply Hl; left| |];
    rewrite Ha; cbn [must mbind outcome_bind].
  - destruct (_ =? _); [|done]. exists (Some a). split; [done|]. intros b [= <-].
    split; [left|by exists t].
  - by rewrite (proj2 (Z.eqb_neq _ _) Hid).
Qed.

Lemma fail_keeps c a t :
  client_inv cfg [] c → a ∈ waiting c → objects c !! a = Some (Strong t) →
  ∃ c', fail_transaction a c = Ok c' ∧ keeps [] c c' nothing.
Proof.
  intros Hinv Hin Ha. unfold fail_transaction. rewrite (proj2 (tx_at_Ok a c t) Ha).
  cbn [mbind outcome_bind]. destruct (ci_owns _ _ _ Hinv a t Ha) as [es Hes].
  destruct (ci_ready _ _ _ Hinv a t es Hin Ha Hes) as (r & n & Hr).
  unfold resp_of. rewrite (tr_resp _ _ _ _ _ Hr). cbn [must mbind outcome_bind].
  eexists. split; [done|].
  destruct (same_store [] c a t (set_tx_resp (set_error (- ECANCELED) r) t) Hinv Ha) as (Hinv1 & Hids & _).
  { apply tx_same_error, Hr. }
  by apply keeps_nothing.
Qed.

Lemma cancel_keeps fuel id c :
  client_inv cfg [] c → garbage cfg ≠ id →
  ∃ ret c', lwis_transaction_cancel cfg (S fuel) id c = Ok (ret, c') ∧ keeps [] c c' nothing.
Proof.
  intros Hinv Hid. unfold lwis_transaction_cancel. cbn [cancel_waiting_transaction_locked].
  destruct (find_waiting_keeps [] c (transaction_list c ≫= snd) id Hinv Hid) as (o & -> & Hf).
  { intros x Hx. unfold waiting, by_event. set_solver. }
  cbn [mbind outcome_bind]. destruct o as [a|].
  - destruct (Hf a) as (Ha & t & Ht); [done|].
    destruct (fail_keeps c a t Hinv) as (c1 & -> & Hk); [unfold waiting, by_event; set_solver|done|].
    by exists 0, c1.
  - unfold pending_transaction_peek.
    destruct (find_pending_ready [] c (pending_transactions c) id Hinv) as (o & -> & Hp); [done|].
    cbn [mbind outcome_bind]. destruct o as [a|].
    + destruct (Hp a) as (Ha & t & Ht & _); [done|]. rewrite (proj2 (tx_at_Ok a c t) Ht).
      cbn [mbind outcome_bind]. destruct (ci_owns _ _ _ Hinv a t Ht) as [es Hes].
      rewrite (to_nested _ _ _ _ Hes). change (Z.to_nat 0) with O. cbn [mbind outcome_bind].
      destruct (fail_keeps c a t Hinv) as (c1 & -> & Hk); [unfold waiting; set_solver|done|].
      by exists 0, c1.
    + eexists _, c. split; [done|]. by apply keeps_nothing.
Qed.

(** ** Submission *)

Context (Hnew : ∀ o, o !! new_address cfg o = None).

Lemma alloc_inv X c o :
  client_inv cfg X c →
  (∀ t, o = Strong t → (∃ es, tx_owns cfg c t es) ∧
     ∀ b u, objects c !! b = Some (Strong u) → io_entries (tx_info u) ≠ io_entries (tx_info t)) →
  client_inv cfg ((allocate_object cfg o c).1 :: X) (allocate_object cfg o c).2.
Proof.
  intros [Hnd Hobj Hst Hown Hrd Harr Hk] Ho. unfold allocate_object. cbn [fst snd].
  set (a := new_address cfg (objects c)). pose proof (Hnew (objects c)) as Hfresh. fold a in Hfresh.
  assert (a ∉ waiting c ++ X) as Hnin.
  { rewrite <- Hobj, Hfresh. apply is_Some_None. }
  assert (∀ t es, tx_owns cfg c t es ↔ tx_owns cfg (set_objects (<[a := o]> (objects c)) c) t es) as Hext.
  { intros t es. split; by apply owns_ext. }
  split; cbn; rewrite <- ?Permutation_middle.
  - apply NoDup_cons. done.
  - intros x. rewrite lookup_insert_is_Some', Hobj. set_solver.
  - intros x Hx. destruct (Hst x Hx) as [t Ht]. exists t. rewrite lookup_insert_ne; [done|].
    intros <-. by rewrite Ht in Hfresh.
  - intros x t. rewrite lookup_insert_Some. intros [[<- ->]|[Hne Hx]].
    + destruct (Ho t eq_refl) as [[es Hes] _]. exists es. by apply Hext.
    + destruct (Hown x t Hx) as [es Hes]. exists es. by apply Hext.
  - intros x t es Hx. rewrite lookup_insert_Some. intros [[<- _]|[Hne Hxt]] Hes%Hext.
    + exfalso. apply Hnin, elem_of_app. by left.
    + by eapply Hrd.
  - intros x y t u. rewrite !lookup_insert_Some.
    intros [[<- ->]|[Hne Hx]] [[<- Hu]|[Hne' Hy]] He; [done| | |by eapply Harr].
    + destruct (Ho t eq_refl) as [_ Hd]. by destruct (Hd y u Hy).
    + subst o. destruct (Ho u eq_refl) as [_ Hd]. by destruct (Hd x t Hx).
  - done.
Qed.

Lemma create_inv X c id :
  client_inv cfg X c →
  let c' := event_list_find_or_create c id in
  client_inv cfg X c' ∧ (∃ l, event_list_find c' id = Some l) ∧ objects c' = objects c ∧
  io_arrays c' = io_arrays c ∧ mode c' = mode c.
Proof.
  intros Hinv c'. destruct (find_or_create_spec c id (ci_keys _ _ _ Hinv)) as (Hl & Hb & Hk). fold c' in Hl, Hb, Hk.
  assert (objects c' = objects c ∧ io_arrays c' = io_arrays c ∧ mode c' = mode c ∧
    pending_transactions c' = pending_transactions c ∧
    transaction_process_queue c' = transaction_process_queue c) as (Ho & Ha & Hm & Hp & Hq).
  { unfold c', event_list_find_or_create. by destruct (event_list_find c id). }
  assert (waiting c' = waiting c) as Hwt by (unfold waiting; congruence).
  split; [|done]. eapply inv_relist; [exact Hinv|done|done|done|by rewrite Hwt| |].
  - rewrite Hp, Hq. apply Hinv.
  - rewrite Hwt. by intros a t es ? [].
Qed.

(** The transaction at [a] is being submitted to the client [c0], now [c]. *)
Record flying (a : Z) c0 c : Prop := {
  fl_inv : client_inv cfg [a] c;
  fl_ready : ready_at cfg a c;
  fl_ids : tx_ids c = tx_ids c0;
  fl_mode : mode c = mode c0
}.

Lemma flying_tx a c0 c :
  flying a c0 c →
  ∃ t r, tx_at a c = Ok t ∧ objects c !! a = Some (Strong t) ∧ resp_of t = Ok r ∧ resp t = Some r.
Proof.
  intros [Hinv (t & Ha & Hr) _ _]. destruct (ci_owns _ _ _ Hinv a t Ha) as [es Hes].
  destruct (Hr es Hes) as (r & n & Hrd). exists t, r. unfold resp_of.
  rewrite (tr_resp _ _ _ _ _ Hrd). split_and!; try done. by apply tx_at_Ok.
Qed.

Lemma flying_store a c0 c t t' :
  flying a c0 c → objects c !! a = Some (Strong t) → tx_same t t' → flying a c0 (store_tx a t' c).
Proof.
  intros [Hinv Hr Hids Hm] Ha Hs. destruct (same_store _ _ _ _ _ Hinv Ha Hs) as (? & Hi & Hrd).
  split; [done|by apply Hrd|congruence|done].
Qed.

Lemma flying_fences a c0 c f : flying a c0 c → flying a c0 (set_fences f c).
Proof.
  intros [Hinv Hr Hids Hm]. split; [by eapply inv_same_lists|by apply (ready_ext _ c)|done|done].
Qed.

Lemma weak_flying a c0 c id ev fd :
  flying a c0 c →
  ∃ ret c', lwis_trigger_event_add_weak_transaction cfg id ev fd c = (ret, c') ∧ flying a c0 c'.
Proof.
  intros Hfl. unfold lwis_trigger_event_add_weak_transaction. cbn zeta.
  set (p := if 0 <=? fd then _ else _). destruct (_ && _); [by eexists _, _|].
  destruct Hfl as [Hinv Hr Hids Hm].
  pose proof (alloc_inv [a] c (Weak id p) Hinv ltac:(done)) as Hinv1.
  unfold allocate_object in *. cbn [fst snd] in Hinv1.
  set (b := new_address cfg (objects c)) in *. pose proof (Hnew (objects c)) as Hb. fold b in Hb.
  set (c1 := set_objects _ c) in *.
  destruct (create_inv _ _ ev Hinv1) as (Hinv2 & (l & Hl) & Ho2 & Ha2 & Hm2).
  set (c2 := event_list_find_or_create c1 ev) in *.
  assert (objects c2 !! b = Some (Weak id p)) as Hob by (rewrite Ho2; apply lookup_insert_eq).
  eexists _, _. split; [done|]. split.
  - eapply link_event; [done|exact Hl|]. intros t. by rewrite Hob.
  - apply (ready_ext _ c); [|done|done]. cbn. rewrite Ho2. apply lookup_insert_ne.
    intros ->. destruct Hr as (t & Ht & _). by rewrite Ht in Hb.
  - rewrite <- Hids. apply (ids_weak c (event_list_add ev b c2) b); [by rewrite Hb|].
    right. by exists id, p.
  - change (mode (event_list_add ev b c2)) with (mode c2). rewrite Hm2. exact Hm.
Qed.

Lemma event_node_flying a c0 c id counter fd :
  flying a c0 c →
  ∃ ret c', trigger_event_add_transaction cfg a id counter fd c = Ok (ret, c') ∧ flying a c0 c'.
Proof.
  intros Hfl. unfold trigger_event_add_transaction.
  destruct (flying_tx _ _ _ Hfl) as (t & r & -> & Ha & _). cbn [mbind outcome_bind].
  destruct (weak_flying a c0 c (info_id (tx_info t)) id fd Hfl) as (ret & c' & -> & Hw').
  destruct (event_counters c !! id); [|by exists ret, c']. destruct (_ && _); [|by exists ret, c'].
  destruct (if 0 <=? fd then _ else _); [|by eexists _, c]. destruct (_ || _); [|by exists ret, c'].
  eexists _, _. split; [done|]. eapply flying_store; [done|done|]. by apply tx_same_resp.
Qed.

Lemma fence_node_flying a c0 c fd :
  flying a c0 c →
  ∃ ret c', trigger_fence_add_transaction a fd c = Ok (ret, c') ∧ flying a c0 c'.
Proof.
  intros Hfl. unfold trigger_fence_add_transaction.
  destruct (flying_tx _ _ _ Hfl) as (t & r & -> & Ha & _ & Hr). cbn [mbind outcome_bind].
  destruct (lwis_dma_fence_get (fences c) fd) as [fence|]; [|by eexists _, c].
  destruct (dma_fence_add_callback fence _ _) as [added f].
  pose proof (flying_fences a c0 c f Hfl) as Hff. set (cf := set_fences f c) in *.
  set (t1 := set_trigger_fences _ t). assert (tx_same t t1) as Hs1 by (by apply tx_same_resp).
  destruct added; [eexists _, _; split; [done|]; by eapply flying_store|].
  destruct (negb _); [by eexists _, cf|].
  destruct (lwis_fence_triggered_condition_ready t1 _) as [ready t2] eqn:Ec. apply condition_same in Ec.
  assert (tx_same t t2) as Hs2 by (subst t2; eapply tx_same_trans; [done|by apply tx_same_resp]).
  destruct ready; [|eexists _, _; split; [done|]; by eapply flying_store].
  assert (resp t2 = Some r) as Hr2 by (subst t2; done).
  unfold resp_of. rewrite Hr2. cbn [must mbind outcome_bind]. eexists _, _. split; [done|].
  eapply flying_store; [done|done|]. eapply tx_same_trans; [exact Hs2|].
  destruct (negb _); [|by apply tx_same_resp].
  eapply tx_same_trans; [by apply tx_same_error|by apply tx_same_resp].
Qed.

Lemma nodes_flying a c0 nodes c :
  flying a c0 c → ∃ ret c', parse_nodes cfg a nodes c = Ok (ret, c') ∧ flying a c0 c'.
Proof.
  revert c. induction nodes as [|node nodes IH]; intros c Hfl; cbn [parse_nodes]; [by exists 0, c|].
  assert (∃ ret c', match node with
    | LWIS_TRIGGER_EVENT id counter fd => trigger_event_add_transaction cfg a id counter fd c
    | LWIS_TRIGGER_FENCE fd => trigger_fence_add_transaction a fd c end = Ok (ret, c') ∧ flying a c0 c')
    as (ret & c1 & -> & Hfl1).
  { destruct node; [by apply event_node_flying|by apply fence_node_flying]. }
  cbn [mbind outcome_bind]. destruct (negb _); [by exists ret, c1|]. by apply IH.
Qed.

Lemma fence_flying a c0 c fd :
  flying a c0 c → ∃ ret c', add_completion_fence a fd c = Ok (ret, c') ∧ flying a c0 c'.
Proof.
  intros Hfl. unfold add_completion_fence.
  destruct (flying_tx _ _ _ Hfl) as (t & r & -> & Ha & _). cbn [mbind outcome_bind].
  destruct (lwis_dma_fence_get _ _); [|by eexists _, c]. eexists _, _. split; [done|].
  eapply flying_store; [done|done|]. by apply tx_same_resp.
Qed.

Lemma external_flying a c0 i n k c :
  (k + n <= length (completion_fence_fds i))%nat → flying a c0 c →
  ∃ ret c', add_external_fences a i n k c = Ok (ret, c') ∧ flying a c0 c'.
Proof.
  revert k c. induction n as [|n IH]; intros k c Hk Hfl; cbn [add_external_fences]; [by exists 0, c|].
  destruct (lookup_lt_is_Some_2 (completion_fence_fds i) k) as [fd Hfd]; [lia|].
  rewrite Hfd. cbn [must mbind outcome_bind]. destruct (fd <? 0); [by eexists _, c|].
  destruct (fence_flying a c0 c fd Hfl) as (ret & c1 & -> & Hfl1). cbn [mbind outcome_bind].
  destruct (negb _); [by exists ret, c1|]. apply IH; [lia|done].
Qed.

Lemma completion_flying a c0 c :
  flying a c0 c →
  ∃ ret c', lwis_add_completion_fences_to_transaction a c = Ok (ret, c') ∧ flying a c0 c'.
Proof.
  intros Hfl. unfold lwis_add_completion_fences_to_transaction.
  destruct (flying_tx _ _ _ Hfl) as (t & r & -> & Ha & _). cbn [mbind outcome_bind].
  destruct (ci_owns _ _ _ (fl_inv _ _ _ Hfl) a t Ha) as [es Hes].
  destruct (_ =? _); [by eexists _, c|].
  assert (∃ ret c', (if 0 <=? create_completion_fence_fd (tx_info t)
    then add_completion_fence a (create_completion_fence_fd (tx_info t)) c else Ok (0, c)) = Ok (ret, c') ∧
    flying a c0 c') as (ret & c1 & -> & Hfl1).
  { destruct (_ <=? _); [by apply fence_flying|by exists 0, c]. }
  cbn [mbind outcome_bind]. destruct (negb _); [by exists ret, c1|].
  apply external_flying; [|done]. pose proof (to_fences _ _ _ _ Hes). lia.
Qed.

Lemma fences_flying a c0 c :
  flying a c0 c → ∃ ret c', prepare_transaction_fences_locked cfg a c = Ok (ret, c') ∧ flying a c0 c'.
Proof.
  intros Hfl. unfold prepare_transaction_fences_locked.
  destruct (flying_tx _ _ _ Hfl) as (t & r & Ht & _). rewrite Ht. cbn [mbind outcome_bind].
  assert (∃ ret c', (if lwis_triggered_by_condition (tx_info t) then lwis_parse_trigger_condition cfg a c
    else Ok (0, c)) = Ok (ret, c') ∧ flying a c0 c') as (ret & c1 & -> & Hfl1).
  { destruct (lwis_triggered_by_condition _); [|by exists 0, c].
    unfold lwis_parse_trigger_condition. rewrite Ht. cbn [mbind outcome_bind].
    destruct (_ <? _); [by eexists _, c|]. by apply nodes_flying. }
  cbn [mbind outcome_bind]. destruct (negb _); [by exists ret, c1|]. by apply completion_flying.
Qed.

Lemma queue_flying a c0 c :
  flying a c0 c →
  ∃ c', queue_transaction_locked a c = Ok (0, c') ∧ client_inv cfg [] c' ∧
    tx_ids c' = tx_ids c0 ∧ mode c' = mode c0.
Proof.
  intros Hfl. unfold queue_transaction_locked.
  destruct (flying_tx _ _ _ Hfl) as (t & r & -> & Ha & _). cbn [mbind outcome_bind].
  destruct Hfl as [Hinv Hr Hids Hm].
  assert (∃ c1, (if queue_immediately t then
      c' ← add_transaction_to_queue_locked a c; Ok (lwis_queue_device_worker c')
    else if lwis_triggered_by_condition (tx_info t) then Ok (add_pending_transaction a c)
    else Ok (event_list_add (trigger_event_id (tx_info t)) a
               (event_list_find_or_create c (trigger_event_id (tx_info t))))) = Ok c1 ∧
    client_inv cfg [] c1 ∧ tx_ids c1 = tx_ids c ∧ mode c1 = mode c) as (c1 & -> & Hinv1 & Hids1 & Hm1).
  { destruct (queue_immediately t); [|destruct (lwis_triggered_by_condition _)].
    - destruct (link_queue cfg _ _ _ Hinv Hr) as (c1 & Hq & Hinv1 & Hi & _). rewrite Hq.
      eexists. split; [done|]. split; [by eapply inv_same_lists|]. split; [done|].
      revert Hq. unfold add_transaction_to_queue_locked. rewrite outcome_bind_Ok.
      intros (u & _ & Hq). by destruct (is_high_priority_transaction _); injection Hq as <-.
    - eexists. split; [done|]. split; [by apply link_pending|done].
    - destruct (create_inv _ _ (trigger_event_id (tx_info t)) Hinv) as (Hinv2 & (l & Hl) & Ho2 & Ha2 & Hm2).
      set (c2 := event_list_find_or_create _ _) in *.
      assert (ready_at cfg a c2) as Hr2 by (apply (ready_ext _ c); [by rewrite Ho2|done|done]).
      eexists. split; [done|]. split; [by eapply link_event|]. split; [|exact Hm2].
      unfold tx_ids. cbn [objects event_list_add set_lists]. by rewrite Ho2. }
  cbn [mbind outcome_bind].
  assert (∃ u, objects c1 !! a = Some (Strong u)) as [u Hu].
  { assert (tx_ids c1 !! a = Some (info_id (tx_info t))) as Hi.
    { rewrite Hids1. unfold tx_ids. by rewrite lookup_omap, Ha. }
    unfold tx_ids in Hi. rewrite lookup_omap in Hi.
    destruct (objects c1 !! a) as [[u|]|]; [by exists u|done|done]. }
  rewrite (proj2 (tx_at_Ok a c1 u) Hu). cbn [mbind outcome_bind].
  eexists. split; [done|]. destruct (_ <? _); [|by split_and!; [|congruence|congruence]].
  destruct (same_store _ c1 a u (set_delay (ktime_ns (cdev c1) + minimum_trigger_delay_ns (tx_info t)) u)
    Hinv1 Hu) as (? & Hi & _); [by apply tx_same_resp|].
  split_and!; [done|congruence|exact (eq_trans Hm1 Hm)].
Qed.

(** What a caller must submit for the properties to hold: an array of its own,
    with results whose size and number do not overflow, events for both ends, one run,
    no nested transactions, and as many fences as it says. *)
Record submission_ok (i : info) (es : list io_entry) c : Prop := {
  so_array : io_arrays c !! io_entries i = None;
  so_entries : Forall entry_ok es;
  so_space : response_fits (native_value_bitwidth cfg) es;
  so_once : trigger_event_counter i ≠ LWIS_EVENT_COUNTER_EVERY_TIME;
  so_nested : num_nested_transactions i = 0;
  so_success : emit_success_event_id i ≠ LWIS_EVENT_ID_NONE;
  so_error : emit_error_event_id i ≠ LWIS_EVENT_ID_NONE;
  so_fences : num_completion_fences i <= Z.of_nat (length (completion_fence_fds i))
}.

(** The submission of a transaction with its array of entries. *)
Definition submit (i : info) (es : list io_entry) c : outcome (Z * client F D) :=
  cmd_transaction_submit cfg i (Z.of_nat (length es))
    (set_arrays (<[io_entries i := es]> (io_arrays c)) c).

Lemma check_spec t c ret t' c' :
  check_transaction_param_locked t c = (ret, t', c') →
  ∃ cur b n e, c' = set_counters n e c ∧
    t' = set_queue_immediately b (set_tx_info (set_ids (transaction_counter c) cur (tx_info t)) t).
Proof.
  unfold check_transaction_param_locked. cbn zeta. set (cur := if negb _ then _ else -1).
  assert (∀ i : info, set_tx_info i t = set_queue_immediately (queue_immediately t) (set_tx_info i t)) as Hq.
  { intros i. by destruct t. }
  set (t1 := if _ && negb (lwis_triggered_by_condition _) then _ else _).
  assert (∃ b, t1 = set_queue_immediately b (set_tx_info (set_ids (transaction_counter c) cur (tx_info t)) t))
    as [b1 Ht1] by (unfold t1; destruct (_ && _); eauto).
  destruct (_ && (_ || _)); [intros [= <- <- <-]; by eexists cur, b1, _, _|].
  set (t2 := if _ && (_ =? cur) then _ else _).
  assert (∃ b, t2 = set_queue_immediately b (set_tx_info (set_ids (transaction_counter c) cur (tx_info t)) t))
    as [b2 Ht2] by (unfold t2; case_match; [exists true; by rewrite Ht1|by exists b1]).
  destruct (_ && (_ =? 0)); intros [= <- <- <-]; exists cur, b2; eexists _, _;
    (split; [|exact Ht2]); reflexivity.
Qed.

(** A transaction in flight is refused, and gone. *)
Lemma refused a id c :
  client_inv cfg [a] c → tx_ids c !! a = Some id →
  ∃ c', lwis_transaction_free a c = Ok c' ∧ client_inv cfg [] c' ∧ mode c' = mode c ∧
    ids c ≡ₚ id :: ids c'.
Proof.
  intros Hinv Hi. unfold tx_ids in Hi. rewrite lookup_omap in Hi.
  destruct (objects c !! a) as [[t|]|] eqn:Ha; cbn in Hi; [|done|done]. injection Hi as <-.
  destruct (freed_inv cfg _ _ _ _ Hinv Ha) as (c' & Hf & Hinv' & Ho & _). exists c'.
  split; [done|]. split; [done|]. split; [|by apply (ids_delete c c' a t)].
  revert Hf. unfold lwis_transaction_free. rewrite Ha. cbn [must mbind outcome_bind].
  rewrite outcome_bind_Ok. by intros (? & _ & [= <-]).
Qed.

(** A new array is that of no transaction. *)
Lemma array_inv X c i es :
  client_inv cfg X c → io_arrays c !! i = None →
  client_inv cfg X (set_arrays (<[i := es]> (io_arrays c)) c).
Proof.
  intros [Hnd Hobj Hst Hown Hrd Harr Hk] Hi.
  assert (∀ t l, tx_owns cfg c t l → tx_owns cfg (set_arrays (<[i := es]> (io_arrays c)) c) t l) as Hext.
  { intros t l []. split; try done. cbn. rewrite lookup_insert_ne; [done|]. congruence. }
  split; try done.
  - intros a t Ha. destruct (Hown a t Ha) as [l Hl]. exists l. by apply Hext.
  - intros a t l Hin Ha Hl. destruct (Hown a t Ha) as [l' Hl'].
    assert (l = l') as -> by (eapply ready_unique; [exact Hl|by apply Hext]). by eapply Hrd.
Qed.

(** The transaction just allocated, before it has a response. *)
Definition fresh_tx (i : info) (es : list io_entry) : transaction :=
  Transaction i None (Z.of_nat (length es)) None 0 false [] [] 0.

Lemma fresh_owns i es c :
  submission_ok i es c → tx_owns cfg (set_arrays (<[io_entries i := es]> (io_arrays c)) c) (fresh_tx i es) es.
Proof. intros []. split; try done. apply lookup_insert_eq. Qed.

(** It gets its id, and stays in flight. *)
Lemma identified X c a i es cur b n e id :
  client_inv cfg (a :: X) c → objects c !! a = Some (Strong (fresh_tx i es)) → tx_owns cfg c (fresh_tx i es) es →
  let t := set_queue_immediately b (set_tx_info (set_ids id cur i) (fresh_tx i es)) in
  let c' := store_tx a t (set_counters n e c) in
  client_inv cfg (a :: X) c' ∧ objects c' !! a = Some (Strong t) ∧ tx_owns cfg c' t es.
Proof.
  intros Hinv Ha Hes t c'. split; [|split; [apply lookup_insert_eq|by destruct Hes]].
  eapply store_inv; [by eapply inv_same_lists|done|done| |].
  - intros l []. by split.
  - intros Hin. exfalso. pose proof (ci_nodup _ _ _ Hinv) as Hnd. rewrite <- Permutation_middle in Hnd.
    apply NoDup_cons in Hnd as [Hnin _]. apply Hnin, elem_of_app. by left.
Qed.

(** It gets its response: it is ready. *)
Lemma answered c a i es cur b id :
  let t := set_queue_immediately b (set_tx_info (set_ids id cur i) (fresh_tx i es)) in
  client_inv cfg [a] c → objects c !! a = Some (Strong t) → tx_owns cfg c t es →
  ∃ r, prepare_response_locked (native_value_bitwidth cfg) true id es (garbage_bytes cfg) =
         Ok (0, Some r) ∧
    let c' := store_tx a (set_tx_resp r t) c in flying a c' c' ∧ tx_ids c' !! a = Some id.
Proof.
  intros t Hinv Ha Hes.
  destruct (prepared (native_value_bitwidth cfg) es id (garbage_bytes cfg)) as (r & Hr & Hid & _ & Hsz);
    [done|apply Hes..|].
  exists r. split; [done|]. intros c'.
  assert (∀ l, tx_owns cfg c t l → tx_owns cfg c' (set_tx_resp r t) l) as Ho by (intros l []; by split).
  assert (objects c' !! a = Some (Strong (set_tx_resp r t))) as Ha' by apply lookup_insert_eq.
  split; [|unfold tx_ids; by rewrite lookup_omap, Ha'].
  split; [| |done|done].
  - eapply store_inv; [done|done|done|intros l []; by split|].
    intros Hin. exfalso. pose proof (ci_nodup _ _ _ Hinv) as Hnd. rewrite <- Permutation_middle in Hnd.
    apply NoDup_cons in Hnd as [Hnin _]. apply Hnin, elem_of_app. by left.
  - exists (set_tx_resp r t). split; [done|]. intros l Hl.
    assert (l = es) as -> by (eapply ready_unique; [exact Hl|by apply Ho]).
    exists r, O. split; cbn; [done|done|lia|lia|lia|]. rewrite drop_0. lia.
Qed.

(** A submission ends with one more transaction, or as if it had not been. *)
Lemma submit_keeps i es c :
  client_inv cfg [] c → submission_ok i es c →
  ∃ ret c', submit i es c = Ok (ret, c') ∧ client_inv cfg [] c' ∧ mode c' = mode c ∧
    ids c' ≡ₚ (if ret =? 0 then [transaction_counter c] else []) ++ ids c.
Proof.
  intros Hinv Hok. unfold submit, cmd_transaction_submit.
  pose proof (fresh_owns _ _ _ Hok) as Hes. pose proof (so_array _ _ _ Hok) as Harr.
  set (c1 := set_arrays _ c) in *. fold (fresh_tx i es).
  assert (client_inv cfg [] c1) as Hinv1 by (by apply array_inv).
  pose proof (alloc_inv [] c1 (Strong (fresh_tx i es)) Hinv1) as Hinv2.
  unfold allocate_object in *. cbn [fst snd] in Hinv2.
  set (a := new_address cfg (objects c1)) in *. pose proof (Hnew (objects c1)) as Hfresh. fold a in Hfresh.
  set (c2 := set_objects _ c1) in *.
  assert (client_inv cfg [a] c2) as Hinv2'.
  { apply Hinv2. intros t [= <-]. split; [by exists es|]. intros b u Hb Hi.
    destruct (ci_owns _ _ _ Hinv b u Hb) as [l [Hl]]. cbn in Hi. by rewrite Hi, Harr in Hl. }
  assert (objects c2 !! a = Some (Strong (fresh_tx i es))) as Ha2 by apply lookup_insert_eq.
  assert (tx_owns cfg c2 (fresh_tx i es) es) as Hes2 by (by apply (owns_ext cfg c1)).
  assert (∀ c' t, objects c' = <[a := Strong t]> (objects c2) → ids c' ≡ₚ info_id (tx_info t) :: ids c) as Hids.
  { intros c' t Ho. apply (ids_insert c c' a t); [done|]. rewrite Ho.
    change (objects c2) with (<[a := Strong (fresh_tx i es)]> (objects c)). by rewrite insert_insert_eq. }
  unfold lwis_transaction_submit_locked. rewrite (proj2 (tx_at_Ok a c2 _) Ha2). cbn [mbind outcome_bind].
  rewrite (to_array _ _ _ _ Hes2). cbn [must mbind outcome_bind].
  destruct (check_transaction_param_locked (fresh_tx i es) c2) as [[ret t] c2'] eqn:Ec.
  destruct (check_spec _ _ _ _ _ Ec) as (cur & b & n & e & -> & ->).
  change (transaction_counter c2) with (transaction_counter c) in *.
  change (tx_info (fresh_tx i es)) with i in *. set (id := transaction_counter c) in *.
  destruct (identified [] c2 a i es cur b n e id Hinv2' Ha2 Hes2) as (Hinv3 & Ha3 & Hes3).
  set (c3 := store_tx a _ _) in *.
  destruct (Z.eqb_spec ret 0) as [->|Hret]; cbn [negb].
  - destruct (answered c3 a i es cur b id Hinv3 Ha3 Hes3) as (r & Hr & Hfl & Hi).
    change (info_id (tx_info (set_queue_immediately b (set_tx_info (set_ids id cur i) (fresh_tx i es)))))
      with id. rewrite Hr. cbn [must mbind outcome_bind].
    set (c4 := store_tx a (set_tx_resp r _) c3) in *.
    assert (ids c4 ≡ₚ id :: ids c) as Hids4.
    { apply (Hids c4 (set_tx_resp r (set_queue_immediately b
        (set_tx_info (set_ids id cur i) (fresh_tx i es))))). unfold c4, c3.
      cbn [objects store_tx set_objects set_counters]. by rewrite insert_insert_eq. }
    destruct (fences_flying a c4 c4 Hfl) as (ret & c5 & -> & Hfl5). cbn [mbind outcome_bind].
    destruct (Z.eqb_spec ret 0) as [->|Hret]; cbn [negb].
    + destruct (queue_flying a c4 c5 Hfl5) as (c' & -> & Hinv' & Hi' & Hm'). cbn [mbind outcome_bind].
      exists 0, c'. split_and!; [done|done|by rewrite Hm'|]. unfold ids at 1. by rewrite Hi'.
    + destruct (refused a id c5) as (c' & Hf & Hinv' & Hm' & Hp);
        [apply Hfl5|by rewrite (fl_ids _ _ _ Hfl5)|].
      cbn [mbind outcome_bind]. rewrite (proj2 (Z.eqb_neq _ _) Hret), Hf. cbn [negb mbind outcome_bind].
      exists ret, c'. rewrite (proj2 (Z.eqb_neq _ _) Hret).
      split_and!; [done|done|by rewrite Hm', (fl_mode _ _ _ Hfl5)|].
      cbn. apply (Permutation_cons_inv (a := id)). rewrite <- Hp, <- Hids4.
      unfold ids. by rewrite (fl_ids _ _ _ Hfl5).
  - destruct (refused a id c3) as (c' & Hf & Hinv' & Hm' & Hp);
      [done|unfold tx_ids; by rewrite lookup_omap, Ha3|].
    cbn [mbind outcome_bind]. rewrite (proj2 (Z.eqb_neq _ _) Hret), Hf. cbn [negb mbind outcome_bind].
    exists ret, c'. rewrite (proj2 (Z.eqb_neq _ _) Hret). split_and!; [done|done|by rewrite Hm'|].
    cbn. apply (Permutation_cons_inv (a := id)). rewrite <- Hp.
    by apply (Hids c3 (set_queue_immediately b (set_tx_info (set_ids id cur i) (fresh_tx i es)))).
Qed.

(** ** Operations *)

(** What happens to a client: its owner's requests, the triggers, the worker's
    runs, and what the rest of the kernel does to the fences, to the events' counters
    and to the device. *)
Inductive operation :=
| op_submit (i : info) (es : list io_entry)
| op_event (hardirq : bool) (event_id event_counter : Z)
| op_fence (fence transaction_id : Z)
| op_cancel (transaction_id : Z)
| op_worker
| op_world (enabled : bool) (e : gmap Z Z) (f : F) (d : D).

Definition set_enabled (b : bool) c : client F D :=
  Client c.(objects) c.(io_arrays) c.(transaction_list) c.(pending_transactions)
    c.(transaction_process_queue) c.(worker_queued) c.(flushing) b
    c.(transaction_counter) c.(event_counters) c.(fences) c.(cdev).

(** The ids that are accepted, the client and what is emitted. *)
Definition perform (op : operation) c : outcome (list Z * client F D * emitted) :=
  match op with
  | op_submit i es =>
      '(ret, c') ← submit i es c;
      Ok (if ret =? 0 then [transaction_counter c] else [], c', nothing)
  | op_event hardirq id n => '(c, em) ← lwis_transaction_event_trigger cfg hardirq id n c; Ok ([], c, em)
  | op_fence fence id => '(c, em) ← lwis_transaction_fence_trigger fence id c; Ok ([], c, em)
  | op_cancel id => '(_, c) ← lwis_transaction_cancel cfg 1 id c; Ok ([], c, nothing)
  | op_worker => '(c, em) ← run_worker cfg c; Ok ([], c, em)
  | op_world b e f d =>
      Ok ([], set_enabled b (set_counters c.(transaction_counter) e (set_fences f (set_dev d c))), nothing)
  end.

Definition allowed (op : operation) c : Prop :=
  match op with
  | op_submit i es => submission_ok i es c
  | op_cancel id => garbage cfg ≠ id
  | _ => True
  end.

(** A client since it was opened, with the ids it accepted and those whose event
    was emitted. *)
Inductive history : client F D → list Z → list Z → Prop :=
| history_open arrays worker enabled n e f d :
    history (Client ∅ arrays [] [] [] worker false enabled n e f d) [] []
| history_step c submitted ended op new c' em :
    history c submitted ended → allowed op c → perform op c = Ok (new, c', em) →
    history c' (new ++ submitted) (ended ++ finished em).

Lemma perform_keeps op c :
  client_inv cfg [] c → flushing c = false → allowed op c →
  ∃ new c' em, perform op c = Ok (new, c', em) ∧ client_inv cfg [] c' ∧ flushing c' = false ∧
    new ++ ids c ≡ₚ ids c' ++ finished em.
Proof.
  intros Hinv Hfl Hok.
  assert (∀ c' em, keeps [] c c' em → ∃ new' c'' em', Ok ([], c', em) = Ok (new', c'', em') ∧
    client_inv cfg [] c'' ∧ flushing c'' = false ∧ new' ++ ids c ≡ₚ ids c'' ++ finished em') as Hk.
  { intros c' em [Hi Hp Hm]. exists [], c', em. split_and!; [done|done| |done].
    by rewrite (proj1 (mode_eq _ _ Hm)). }
  destruct op as [i es|hardirq id n|fence id|id| |b e f d]; cbn [perform allowed] in *.
  - destruct (submit_keeps i es c Hinv Hok) as (ret & c' & -> & Hi & Hm & Hp). cbn [mbind outcome_bind].
    eexists _, c', nothing. split_and!; [done|done|by rewrite (proj1 (mode_eq _ _ Hm))|].
    cbn. by rewrite app_nil_r, Hp.
  - destruct (event_keeps hardirq id n c Hinv) as (c' & em & -> & ?). by apply Hk.
  - destruct (fence_keeps fence id c Hinv) as (c' & em & -> & ?). by apply Hk.
  - destruct (cancel_keeps 0 id c Hinv Hok) as (ret & c' & -> & ?). by apply Hk.
  - destruct (worker_keeps c Hinv Hfl) as (c' & em & -> & ?). by apply Hk.
  - eexists _, _, _. split; [done|]. split; [by eapply inv_same_lists|]. split; [done|].
    cbn. by rewrite app_nil_r.
Qed.

Lemma history_keeps c submitted ended :
  history c submitted ended →
  client_inv cfg [] c ∧ flushing c = false ∧ submitted ≡ₚ ids c ++ ended.
Proof.
  induction 1 as [|c submitted ended op new c' em _ (Hinv & Hfl & HP) Hok Hrun].
  - split_and!; [|done|done]. split; cbn; try done.
    + apply NoDup_nil_2.
    + intros a. rewrite lookup_empty. split; [by intros [? [=]]|by intros ?%elem_of_nil].
    + by intros a ?%elem_of_nil.
    + apply NoDup_nil_2.
  - destruct (perform_keeps op c Hinv Hfl Hok) as (new' & c1 & em' & Hr & Hi & Hf & Hp).
    rewrite Hr in Hrun. injection Hrun as <- <- <-. split_and!; [done|done|].
    rewrite HP, (assoc (++)), Hp. solve_Permutation.
Qed.

End ClientProps.

(** C12: Exactly once: since a client was opened, whatever the order of the
    submissions of transactions that run once, have no nested ones and ask for an event
    both of success and of error ([submission_ok]), of events, fence signals,
    cancellations and runs of the normal-priority worker, the transactions accepted are
    those that still wait, with those whose success or error event was emitted, each
    once; and the next such operation, whichever it is, returns: it uses no memory that
    was freed and runs past no buffer.  A cancellation has an id that freed memory does
    not happen to hold.  The high-priority path, the flush and repeating transactions are
    not among them: they use freed memory ([lwis_high_priority_path_fails],
    [lwis_flush_repeating_fails]). *)
Theorem lwis_transactions_exactly_once {F D} `{lwis_vops D} `{lwis_fences F} (cfg : config)
    (c : client F D) submitted ended op :
  0 <= native_value_bitwidth cfg → lwis_reads (native_value_bitwidth cfg) → lwis_clock _ →
  (∀ o, o !! new_address cfg o = None) →
  history cfg c submitted ended → allowed cfg op c →
  submitted ≡ₚ ids c ++ ended ∧ ∃ x, perform cfg op c = Ok x.
Proof.
  intros Hw Hreads Hclock Hnew Hh Hok.
  destruct (history_keeps cfg Hw Hreads Hclock Hnew _ _ _ Hh) as (Hinv & Hfl & HP). split; [done|].
  destruct (perform_keeps cfg Hw Hreads Hclock Hnew op c Hinv Hfl Hok) as (new & c' & em & -> & _).
  by eexists.
Qed.

(** ** Witness *)

#[local] Existing Instance demo_vops.

#[local] Instance no_fences : lwis_fences unit := {|
  lwis_dma_fence_get _ _ := None;
  dma_fence_get_status _ _ := 0;
  dma_fence_add_callback _ _ f := (false, f)
|}.

(** A device that processes one entry per turn, and memory where the next address
    is past all the others. *)
Definition next_address (o : gmap Z object) : Z := 1 + foldr Z.max 0 (elements (dom o)).

Lemma next_address_fresh o : o !! next_address o = None.
Proof.
  assert (∀ l x, x ∈ l → x <= foldr Z.max 0 l) as Hmax.
  { induction l as [|y l IH]; intros x; [by intros ?%elem_of_nil|].
    intros [->|Hx%IH]%elem_of_cons; cbn; lia. }
  apply not_elem_of_dom. intros Hin. apply elem_of_elements, Hmax in Hin. unfold next_address in Hin. lia.
Qed.

Definition demo_config : config := Config 32 1 false false 1 next_address 0 (λ _, 0).

Definition demo_info : info :=
  Info 0 0 (-1) 0 LWIS_TRIGGER_NODE_OPERATOR_NONE [] (-1) 0 [] 10 false 100 101 false false 0 [] 0.

Definition demo_open : client unit Z := Client ∅ ∅ [] [] [] false false true 6 ∅ () 0.

Definition demo_submit : operation (F := unit) (D := Z) :=
  op_submit demo_info [LWIS_IO_ENTRY_WRITE 0 8 1; LWIS_IO_ENTRY_WRITE 0 12 1].

Lemma demo_allowed : allowed demo_config demo_submit demo_open.
Proof. by split; try (by repeat constructor). Qed.

Lemma demo_vops_reads : lwis_reads (D := Z) 32.
Proof.
  split.
  - intros e d _. destruct e; try done; cbn; rewrite length_le_bytes; done.
  - intros e d. destruct e; try done; cbn; rewrite length_replicate; lia.
Qed.

Lemma demo_vops_clock : lwis_clock demo_vops.
Proof. split; cbn; intros; lia. Qed.

Definition after (op : operation) (c : client unit Z) : client unit Z :=
  match perform demo_config op c with Ok (_, c, _) => c | _ => c end.

Definition demo_submitted : client unit Z := after demo_submit demo_open.

Lemma demo_waits : history demo_config demo_submitted [6] [].
Proof.
  apply (history_step demo_config demo_open [] [] demo_submit [6] _ nothing);
    [apply history_open|exact demo_allowed|vm_compute; reflexivity].
Qed.

(** Two runs of the worker. *)
Lemma demo_history : history demo_config (after op_worker (after op_worker demo_submitted)) [6] [6].
Proof.
  apply (history_step demo_config (after op_worker demo_submitted) [6] [] op_worker [] _
    (Emitted [(100, Response 6 0 1 0 0 32 (λ _, 0))] [])); [|done|vm_compute; reflexivity].
  apply (history_step demo_config demo_submitted [6] [] op_worker [] _ nothing);
    [exact demo_waits|done|vm_compute; reflexivity].
Qed.

Lemma lwis_transactions_exactly_once_witness :
  ∃ c : client unit Z, [6] ≡ₚ ids c ++ [6] ∧ ∃ x, perform demo_config op_worker c = Ok x.
Proof.
  set (c := after op_worker (after op_worker demo_submitted)). exists c.
  by apply (lwis_transactions_exactly_once demo_config c [6] [6] op_worker);
    [|exact demo_vops_reads|exact demo_vops_clock|exact next_address_fresh|exact demo_history|].
Defined.
