(* ===== verification/LwisWorkerProps.v ===== *)
(** * LWIS: the worker drains the queue

    Each run of the worker shortens the queue or the transaction it stops at, and
    asks for another run: enough runs leave nothing on the queue. *)

From S2P Require Import Prelude LwisIoEntry LwisProcess LwisProcessProps LwisTransaction.
From S2P Require Import LwisClientInv LwisClientProps.

Section WorkerProps.
Context {F D : Type} `{lwis_vops D} `{lwis_fences F} (cfg : config).
Implicit Types c : client F D.

(** What is left to do for an object of the queue: its entries and its end. *)
Definition work_of (o : option object) : nat :=
  match o with Some (Strong t) => S (Z.to_nat (remaining_entries_to_process t)) | _ => O end.

Definition work_in (l : list Z) c : nat := sum_list_with (λ a, work_of (objects c !! a)) l.

Definition work c : nat := work_in (transaction_process_queue c) c.

Lemma work_in_ext l c c' :
  (∀ x, x ∈ l → objects c' !! x = objects c !! x) → work_in l c' = work_in l c.
Proof.
  unfold work_in. induction l as [|a l IH]; intros Hx; [done|]. cbn.
  rewrite Hx by left. rewrite IH; [done|]. intros x ?. apply Hx. by right.
Qed.

(** What the queue loses, or what is done for one of its transactions. *)
Lemma work_del a c c' :
  a ∈ transaction_process_queue c → NoDup (transaction_process_queue c) →
  transaction_process_queue c' = list_del a (transaction_process_queue c) →
  (∀ x, x ≠ a → objects c' !! x = objects c !! x) → (work c' <= work c)%nat.
Proof.
  intros Ha Hnd Hq Ho. unfold work. rewrite Hq.
  rewrite (work_in_ext _ c c'); [|intros x [Hx _]%elem_of_list_del; by apply Ho].
  unfold work_in. rewrite <- (list_del_perm a (transaction_process_queue c) Hnd Ha) at 2. cbn. lia.
Qed.

Lemma work_done a c c' :
  a ∈ transaction_process_queue c → NoDup (transaction_process_queue c) →
  transaction_process_queue c' = transaction_process_queue c →
  (∀ x, x ≠ a → objects c' !! x = objects c !! x) →
  (work_of (objects c' !! a) < work_of (objects c !! a))%nat → (work c' < work c)%nat.
Proof.
  intros Ha Hnd Hq Ho Hlt. unfold work. rewrite Hq. unfold work_in.
  rewrite <- (list_del_perm a (transaction_process_queue c) Hnd Ha). cbn.
  pose proof (work_in_ext (list_del a (transaction_process_queue c)) c c') as He. unfold work_in in He.
  rewrite He; [lia|]. intros x [Hx _]%elem_of_list_del. by apply Ho.
Qed.

(** What a transaction that is processed or cancelled leaves as it was. *)
Record others_same (a : Z) c c' : Prop := {
  os_objects x : x ≠ a → objects c' !! x = objects c !! x;
  os_list : transaction_list c' = transaction_list c;
  os_pending : pending_transactions c' = pending_transactions c;
  os_worker : worker_queued c' = worker_queued c
}.

Lemma free_frame a c c' :
  lwis_transaction_free a c = Ok c' →
  others_same a c c' ∧ transaction_process_queue c' = transaction_process_queue c.
Proof.
  unfold lwis_transaction_free. rewrite outcome_bind_Ok. intros (o & _ & Hf).
  destruct o as [t|w p]; revert Hf; [rewrite outcome_bind_Ok; intros (es & _ & [= <-])|intros [= <-]];
    (split; [|done]); split; try done; intros x Hx; by apply lookup_delete_ne.
Qed.

Lemma cancel_same a e ev sg c c' em :
  cancel_transaction a e ev sg false c = Ok (c', em) →
  others_same a c c' ∧ transaction_process_queue c' = transaction_process_queue c.
Proof.
  unfold cancel_transaction. rewrite outcome_bind_Ok. intros (o & _ & Hf).
  destruct o as [t|w p]; revert Hf; rewrite outcome_bind_Ok;
    intros (c1 & Hf & [= <- <-]); by eapply free_frame.
Qed.

(** A turn that leaves entries has processed some. *)
Lemma turn_shrinks t es r n lim d ret d' p :
  tx_ready cfg t es r n →
  lim = turn_limit (transaction_process_limit cfg) (Z.of_nat (length es))
          (run_in_event_context (tx_info t)) false true →
  process_turn (native_value_bitwidth cfg) lim false es
    (Progress (remaining_entries_to_process t) (tx_read_buf t) r) d = Ok (true, ret, d', p) →
  0 < remaining p < remaining_entries_to_process t.
Proof.
  intros Hr Hlim. pose proof (tr_remaining _ _ _ _ _ Hr) as Hrem. unfold process_turn.
  cbn [remaining starting_read_buf presp]. rewrite outcome_bind_Ok. intros (r' & _ & Hrun). revert Hrun.
  set (cur := if lim <? _ then _ else _).
  destruct (Z.ltb_spec 0 (remaining_entries_to_process t - cur)) as [Hlt|]; [|done].
  destruct (run_ret r' =? 0); [cbn [andb]|done]. intros [= _ _ <-]. cbn [remaining].
  split; [done|]. unfold cur in *.
  destruct (Z.ltb_spec lim (remaining_entries_to_process t)) as [Hl|]; [|lia].
  revert Hl. rewrite Hlim. unfold turn_limit. cbn [negb]. rewrite !orb_false_r.
  destruct (Z.leb_spec (transaction_process_limit cfg) 0); cbn; [lia|].
  destruct (run_in_event_context _); cbn; lia.
Qed.

Lemma process_frame a c t es r n ret gone c' em :
  tx_at a c = Ok t → io_arrays c !! io_entries (tx_info t) = Some es → tx_ready cfg t es r n →
  process_transaction cfg a true true false true c = Ok (ret, gone, c', em) →
  others_same a c c' ∧
  if gone then transaction_process_queue c' = list_del a (transaction_process_queue c)
  else transaction_process_queue c' = transaction_process_queue c ∧
    ∃ t', objects c' !! a = Some (Strong t') ∧
      0 < remaining_entries_to_process t' < remaining_entries_to_process t.
Proof.
  intros Ht Hes Hr. unfold process_transaction. rewrite Ht. cbn [mbind outcome_bind].
  unfold resp_of. rewrite (tr_resp _ _ _ _ _ Hr), Hes. cbn [must mbind outcome_bind].
  set (lim := turn_limit _ _ _ _ _). rewrite outcome_bind_Ok.
  intros ([[[more ret'] d] p] & Hturn & Hrun). revert Hrun.
  assert (∀ c0, others_same a c c0 → others_same a c (store_tx a (set_tx_progress p t) (set_dev d c0))) as Hst.
  { intros c0 [Ho ? ? ?]. split; try done. intros x Hx. cbn. rewrite lookup_insert_ne; [by apply Ho|done]. }
  destruct more.
  - intros [= _ <- <- _]. split; [by apply Hst|]. split; [done|]. eexists.
    split; [apply lookup_insert_eq|]. exact (turn_shrinks _ _ _ _ lim _ _ _ _ Hr eq_refl Hturn).
  - rewrite outcome_bind_Ok. intros (c2 & Hf & [= _ <- <- _]).
    set (c1 := queue_del a _) in Hf. assert (others_same a c c1) as [Ho1 Hl1 Hp1 Hw1].
    { apply (Hst (queue_del a c)). by split. }
    destruct (_ =? _).
    + injection Hf as <-. split; [|done]. split; try done. intros x Hx. cbn.
      rewrite lookup_delete_ne; [by apply Ho1|done].
    + apply free_frame in Hf as [[Ho2 Hl2 Hp2 Hw2] Hq2]. split; [|by rewrite Hq2].
      split; [|congruence..]. intros x Hx. by rewrite Ho2, Ho1.
Qed.

Context (Hw : 0 <= native_value_bitwidth cfg).
Context (Hreads : lwis_reads (native_value_bitwidth cfg)) (Hclock : lwis_clock _).

(** What waits for a trigger is as it was. *)
Definition triggers_same c c' : Prop :=
  transaction_list c' = transaction_list c ∧ pending_transactions c' = pending_transactions c.

Lemma queue_nodup c : client_inv cfg [] c → NoDup (transaction_process_queue c).
Proof.
  intros Hinv. pose proof (ci_nodup _ _ _ Hinv) as Hnd. rewrite app_nil_r in Hnd. unfold waiting in Hnd.
  by apply NoDup_app in Hnd as (_ & _ & (_ & _ & ?)%NoDup_app).
Qed.

(** The walk over [l] takes it all off the queue, or stops with work done. *)
Lemma walk_drains l c em c' em' :
  client_inv cfg [] c → flushing c = false → is_enabled c = true ∨ is_top_device cfg = true →
  NoDup l → (∀ a, a ∈ l → a ∈ transaction_process_queue c) →
  process_queue cfg false l c em = Ok (c', em') →
  triggers_same c c' ∧
  ((∀ x, x ∈ transaction_process_queue c' → x ∈ transaction_process_queue c ∧ x ∉ l) ∨
   worker_queued c' = true ∧ (work c' < work c)%nat).
Proof.
  revert c em. induction l as [|a l IH]; intros c em Hinv Hfl Hen Hnd Hin; cbn [process_queue].
  { intros [= <- _]. split; [done|]. left. intros x Hx. split; [done|apply not_elem_of_nil]. }
  replace (negb (is_enabled c) && negb (is_top_device cfg)) with false
    by (destruct Hen as [-> | ->]; by rewrite ?andb_false_r).
  apply NoDup_cons in Hnd as [Hal Hnd]. assert (a ∈ transaction_process_queue c) as Haq by (apply Hin; left).
  pose proof (queue_nodup c Hinv) as Hqnd.
  destruct (ci_strong _ _ _ Hinv a) as [t Ha]; [apply elem_of_app; by right|].
  destruct (ci_owns _ _ _ Hinv a t Ha) as [es Hes].
  destruct (ci_ready _ _ _ Hinv a t es) as (r & n & Hr); [unfold waiting; set_solver|done|done|].
  rewrite (proj2 (tx_at_Ok a c t) Ha). cbn [mbind outcome_bind andb].
  unfold resp_of at 1. rewrite (tr_resp _ _ _ _ _ Hr). cbn [must mbind outcome_bind].
  (* what follows a transaction that is gone *)
  assert (∀ c1 em1, client_inv cfg [] c1 → mode c1 = mode c → others_same a c c1 →
    transaction_process_queue c1 = list_del a (transaction_process_queue c) →
    process_queue cfg false l c1 em1 = Ok (c', em') →
    triggers_same c c' ∧
    ((∀ x, x ∈ transaction_process_queue c' → x ∈ transaction_process_queue c ∧ x ∉ a :: l) ∨
     worker_queued c' = true ∧ (work c' < work c)%nat)) as Hgo.
  { intros c1 em1 Hinv1 [Hf1 He1]%mode_eq Hsame Hq Hrun.
    pose proof (work_del a c c1 Haq Hqnd Hq (os_objects _ _ _ Hsame)) as Hwk.
    destruct (IH c1 em1) as [[Hl Hp] Hd]; [done|congruence|by rewrite He1|done| |done|].
    { intros x Hx. rewrite Hq. apply elem_of_list_del. split; [by intros ->|apply Hin; by right]. }
    split; [split; [rewrite Hl|rewrite Hp]; apply Hsame|]. destruct Hd as [Hd|[Hd Hlt]].
    - left. intros x Hx. destruct (Hd x Hx) as [Hx1 Hx2]. rewrite Hq in Hx1.
      apply elem_of_list_del in Hx1 as [? ?]. split; [done|]. by apply not_elem_of_cons.
    - right. split; [done|lia]. }
  destruct (negb (error_code r =? 0)).
  - destruct (cancel_ready cfg [] (queue_del a c) a t (error_code r)) as (c1 & em1 & Hc & [Hi1 _ Hm1] & _);
      [by apply unlink_queue|done|].
    rewrite Hc. cbn [mbind outcome_bind]. apply cancel_same in Hc as [[Ho Hl Hp Hwq] Hq].
    by apply Hgo.
  - destruct (process_ready cfg Hw Hreads Hclock [] c a true)
      as (ret & gone & c1 & em1 & Hrun & Hi1 & _ & _ & _ & Hgone & Hm1); [done|done|].
    cbn [negb]. rewrite Hrun. cbn [mbind outcome_bind].
    destruct (process_frame a c t es r n ret gone c1 em1) as [Hsame Hq];
      [by apply tx_at_Ok|apply Hes|done|done|].
    destruct (mode_eq _ _ Hm1) as [Hf1 He1]. unfold process_broken_transaction.
    destruct gone; [cbn [mbind outcome_bind]; by apply Hgo|].
    destruct Hq as (Hq & u & Hu & Hlt). rewrite (proj2 (tx_at_Ok a c1 u) Hu). cbn [mbind outcome_bind].
    rewrite (proj2 (Z.ltb_lt _ _) (proj1 Hlt)), Hf1, Hfl. cbn [mbind outcome_bind].
    intros [= <- _]. split; [split; apply Hsame|]. right. split; [done|].
    change (work (lwis_queue_device_worker c1)) with (work c1).
    apply (work_done a c c1); try done; [apply Hsame|]. rewrite Hu, Ha. cbn. lia.
Qed.

(** The runs of the worker. *)
Fixpoint run_workers (n : nat) c (em : emitted) : outcome (client F D * emitted) :=
  match n with
  | O => Ok (c, em)
  | S n => '(c, em') ← run_worker cfg c; run_workers n c (then_emit em em')
  end.

Lemma workers_drain k c em :
  (work c < k)%nat → client_inv cfg [] c → flushing c = false →
  is_enabled c = true ∨ is_top_device cfg = true → worker_queued c = true →
  ∃ n c' em', (n <= k)%nat ∧ run_workers n c em = Ok (c', em') ∧ transaction_process_queue c' = [] ∧
    triggers_same c c' ∧ ids c ++ finished em ≡ₚ ids c' ++ finished em'.
Proof.
  revert c em. induction k as [|k IH]; intros c em Hk Hinv Hfl Hen Hwq; [lia|].
  destruct (worker_keeps cfg Hw Hreads Hclock c Hinv Hfl) as (c1 & em1 & Hrun & [Hi1 Hp1 Hm1]).
  destruct (mode_eq _ _ Hm1) as [Hf1 He1]. pose proof Hrun as Hwalk. unfold run_worker in Hwalk.
  rewrite Hwq in Hwalk. unfold lwis_process_transactions_in_queue in Hwalk.
  destruct (walk_drains (transaction_process_queue c) (set_worker false c) nothing c1 em1)
    as [Ht Hd]; [by apply (inv_same_lists cfg [] c)|done|done|by apply queue_nodup|done|done|].
  assert (ids c ++ finished em ≡ₚ ids c1 ++ finished (then_emit em em1)) as HP.
  { rewrite Hp1, finished_then. solve_Permutation. }
  destruct Hd as [Hd|[Hw1 Hlt]].
  - exists 1%nat, c1, (then_emit em em1). split; [lia|]. cbn [run_workers]. rewrite Hrun. split; [done|].
    split; [|by split]. apply elem_of_nil_inv. intros x Hx. destruct (Hd x Hx) as [Hx1 Hx2]. by apply Hx2.
  - change (work (set_worker false c)) with (work c) in Hlt.
    destruct (IH c1 (then_emit em em1)) as (n & c' & em' & Hn & Hr & Hq & [Hl Hp] & HP');
      [lia|done|congruence|by rewrite He1|done|].
    exists (S n), c', em'. split; [lia|]. cbn [run_workers]. rewrite Hrun. split; [done|]. split; [done|].
    destruct Ht as [Hl1 Hp1']. split; [split; [by rewrite Hl|by rewrite Hp]|]. by rewrite HP.
Qed.

End WorkerProps.

(** C40: The worker drains the queue: from any state that a client reaches with
    transactions that run once and ask for an event both of success and of error, enabled
    and with the normal-priority worker asked for, as many runs as there are entries and transactions
    left, and one more, end with an empty queue; every transaction of the queue
    has had its event, and those that wait for a trigger still do. *)
Theorem lwis_worker_drains {F D} `{lwis_vops D} `{lwis_fences F} (cfg : config)
    (c : client F D) submitted ended :
  0 <= native_value_bitwidth cfg → lwis_reads (native_value_bitwidth cfg) → lwis_clock _ →
  (∀ o, o !! new_address cfg o = None) → history cfg c submitted ended →
  is_enabled c = true ∨ is_top_device cfg = true → worker_queued c = true →
  ∃ n c' em, (n <= S (work c))%nat ∧ run_workers cfg n c nothing = Ok (c', em) ∧
    transaction_process_queue c' = [] ∧ triggers_same c c' ∧ ids c ≡ₚ ids c' ++ finished em.
Proof.
  intros Hw Hreads Hclock Hnew Hh Hen Hwq.
  destruct (history_keeps cfg Hw Hreads Hclock Hnew _ _ _ Hh) as (Hinv & Hfl & _).
  destruct (workers_drain cfg Hw Hreads Hclock (S (work c)) c nothing)
    as (n & c' & em & Hn & Hr & Hq & Ht & HP); [lia|done|done|done|done|].
  exists n, c', em. rewrite app_nil_r in HP. done.
Qed.

#[local] Existing Instance demo_vops.
#[local] Existing Instance LwisClientProps.no_fences.

Lemma lwis_worker_drains_witness :
  worker_queued demo_submitted = true ∧ transaction_process_queue demo_submitted ≠ [] ∧
  ∃ n c' em, (n <= S (work demo_submitted))%nat ∧
    run_workers LwisClientProps.demo_config n demo_submitted nothing = Ok (c', em) ∧
    transaction_process_queue c' = [] ∧ triggers_same demo_submitted c' ∧
    ids demo_submitted ≡ₚ ids c' ++ finished em.
Proof.
  split; [by vm_compute|]. split; [by vm_compute|].
  by apply (lwis_worker_drains LwisClientProps.demo_config demo_submitted [6] []);
    [|exact demo_vops_reads|exact demo_vops_clock|exact next_address_fresh|exact demo_waits
     |left; vm_compute|vm_compute].
Defined.
