(* ===== verification/LwisEvent.v ===== *)
(** * LWIS: events

    Model of [google-modules/lwis/lwis_event.c] and of the event commands of
    [lwis_ioctl.c].  A device counts its events, tells its clients of those they
    asked for through two queues of bounded length, and triggers the transactions
    of every client, whose own events follow.

    The states of events are the entries of a hash table, newest first, as they
    are found.  The operations of a kind of device, the interrupts and the other
    devices, which are reached through the top device, are an interface.  Small
    allocations succeed; the history kept for debugging is left out. *)

From S2P Require Import Prelude LwisIoEntry LwisProcess LwisTransaction.

Definition MAX_NUM_PENDING_EVENTS : Z := 2048.
Definition LWIS_EVENT_ID_HEARTBEAT : Z := 1.
Definition LWIS_EVENT_ID_START_OF_ERROR_RANGE : Z := 2048.
Definition LWIS_ERROR_EVENT_ID_EVENT_QUEUE_OVERFLOW : Z := 2050.
Definition LWIS_EVENT_ID_START_OF_SPECIALIZED_RANGE : Z := 4096.
Definition LWIS_TRANSACTION_EVENT_FLAG : Z := 2 ^ 63.
Definition LWIS_TRANSACTION_FAILURE_EVENT_FLAG : Z := 2 ^ 62.
Definition LWIS_HW_IRQ_EVENT_FLAG : Z := 2 ^ 61.
Definition LWIS_EVENT_CONTROL_FLAG_IRQ_ENABLE : Z := 1.
Definition LWIS_EVENT_CONTROL_FLAG_QUEUE_ENABLE : Z := 2.
Definition LWIS_EVENT_CONTROL_FLAG_IRQ_ENABLE_ONCE : Z := 4.


Definition has_flag (flags flag : Z) : bool := negb (Z.land flags flag =? 0).

Definition EVENT_OWNER_DEVICE_ID (x : Z) : Z :=
  s32 (Z.land (Z.shiftr x LWIS_EVENT_ID_EVENT_CODE_LEN) 0xFFFF).

(** An id without the flag of an overflow. *)
Definition plain_event_id (event_id : Z) : Z :=
  if has_flag event_id LWIS_OVERFLOW_IRQ_EVENT_FLAG
  then Z.lxor event_id LWIS_OVERFLOW_IRQ_EVENT_FLAG else event_id.

(** [struct lwis_device_event_state] *)
Record event_state := EventState {
  state_event_id : Z;
  enable_counter : Z;
  event_counter : Z;
  has_subscriber : bool
}.

Definition set_event_counter (n : Z) (s : event_state) : event_state :=
  EventState s.(state_event_id) s.(enable_counter) n s.(has_subscriber).

Definition set_enable_counter (n : Z) (s : event_state) : event_state :=
  EventState s.(state_event_id) n s.(event_counter) s.(has_subscriber).

Definition set_has_subscriber (b : bool) (s : event_state) : event_state :=
  EventState s.(state_event_id) s.(enable_counter) s.(event_counter) b.

(** [struct lwis_event_info]: the payload, if any, is a response. *)
Record event_entry := EventEntry {
  ev_id : Z;
  ev_counter : Z;
  ev_timestamp : Z;
  ev_payload : option response
}.

Definition payload_size (p : option response) : Z :=
  match p with None => 0 | Some r => sizeof_response_header + r.(results_size_bytes) end.

(** The part of [struct lwis_client] that has its events, with its transactions;
    the flags of the events it controls are in [event_states]. *)
Record event_client (F D : Type) := EventClient {
  tx_client : client F D;
  event_states : list (Z * Z);
  event_queue : list event_entry;
  event_queue_size : Z;
  error_event_queue : list event_entry;
  error_event_queue_size : Z
}.

Arguments EventClient {F D}.
Arguments tx_client {F D}.
Arguments event_states {F D}.
Arguments event_queue {F D}.
Arguments event_queue_size {F D}.
Arguments error_event_queue {F D}.
Arguments error_event_queue_size {F D}.

(** [struct lwis_device]; its clients share its hardware and its fences. *)
Record device (F D : Type) := Device {
  dev_id : Z;
  is_top : bool;
  dev_event_states : list event_state;
  clients : list (event_client F D);
  dev_fences : F;
  hardware : D
}.

Arguments Device {F D}.
Arguments dev_id {F D}.
Arguments is_top {F D}.
Arguments dev_event_states {F D}.
Arguments clients {F D}.
Arguments dev_fences {F D}.
Arguments hardware {F D}.

(** What a kind of device does at an event, if anything; its interrupts; and the
    other devices, through the top device, if there is one. *)
Class lwis_event_ops (D : Type) := {
  irq_event_enable : option (Z → bool → D → Z * D);
  gpio_irq_event_enable : option (Z → bool → D → Z * D);
  irq_write_combined_mask_value : option (D → Z * D);
  heartbeat_timer : bool → D → D;
  event_enable : option (Z → bool → D → Z * D);
  event_flags_updated : option (Z → Z → Z → D → Z * D);
  event_emitted : option (Z → option response → D → option response * D);
  has_top_device : bool;
  lwis_find_dev_by_id : Z → bool;
  add_event_state : Z → Z → D → bool * D;
  subscribe_event : Z → Z → Z → D → Z * D;
  unsubscribe_event : Z → Z → D → Z * D;
  notify_event_subscriber : Z → Z → Z → D → D
}.

Section Event.
Context {F D : Type} `{lwis_vops D} `{lwis_fences F} `{lwis_event_ops D} (cfg : config).
Implicit Types (c : event_client F D) (dev : device F D).

(** ** Fields *)

Definition set_tx_client (t : client F D) c : event_client F D :=
  EventClient t c.(event_states) c.(event_queue) c.(event_queue_size)
    c.(error_event_queue) c.(error_event_queue_size).

Definition set_states (l : list (Z * Z)) c : event_client F D :=
  EventClient c.(tx_client) l c.(event_queue) c.(event_queue_size)
    c.(error_event_queue) c.(error_event_queue_size).

Definition set_event_queue (l : list event_entry) (size : Z) c : event_client F D :=
  EventClient c.(tx_client) c.(event_states) l size
    c.(error_event_queue) c.(error_event_queue_size).

Definition set_error_event_queue (l : list event_entry) (size : Z) c : event_client F D :=
  EventClient c.(tx_client) c.(event_states) c.(event_queue) c.(event_queue_size) l size.

Definition set_dev_states (l : list event_state) dev : device F D :=
  Device dev.(dev_id) dev.(is_top) l dev.(clients) dev.(dev_fences) dev.(hardware).

Definition set_clients (l : list (event_client F D)) dev : device F D :=
  Device dev.(dev_id) dev.(is_top) dev.(dev_event_states) l dev.(dev_fences) dev.(hardware).

Definition set_hardware (d : D) dev : device F D :=
  Device dev.(dev_id) dev.(is_top) dev.(dev_event_states) dev.(clients) dev.(dev_fences) d.

Definition set_client (k : nat) c dev : device F D := set_clients (<[k := c]> dev.(clients)) dev.

(** An operation of the hardware, which returns an error or 0. *)
Definition on_hardware (f : D → Z * D) dev : Z * device F D :=
  let '(ret, d) := f dev.(hardware) in (ret, set_hardware d dev).

(** ** The states of events *)

Fixpoint find_flags (id : Z) (l : list (Z * Z)) : option Z :=
  match l with
  | [] => None
  | (i, flags) :: l => if i =? id then Some flags else find_flags id l
  end.

Fixpoint update_flags (id flags : Z) (l : list (Z * Z)) : list (Z * Z) :=
  match l with
  | [] => []
  | (i, x) :: l => if i =? id then (i, flags) :: l else (i, x) :: update_flags id flags l
  end.

Definition client_event_state_find_locked c (event_id : Z) : option Z :=
  find_flags (plain_event_id event_id) c.(event_states).

(** The flags of the state, 0 in a new one; the state a client then changes is the
    one found, or the one just added. *)
Definition lwis_client_event_state_find_or_create c (event_id : Z) : Z * event_client F D :=
  match client_event_state_find_locked c event_id with
  | Some flags => (flags, c)
  | None => (0, set_states ((event_id, 0) :: c.(event_states)) c)
  end.

Definition client_state_key c (event_id : Z) : Z :=
  match client_event_state_find_locked c event_id with
  | Some _ => plain_event_id event_id
  | None => event_id
  end.

Fixpoint find_state (id : Z) (l : list event_state) : option event_state :=
  match l with
  | [] => None
  | s :: l => if s.(state_event_id) =? id then Some s else find_state id l
  end.

Fixpoint update_state (id : Z) (f : event_state → event_state) (l : list event_state) :
    list event_state :=
  match l with
  | [] => []
  | s :: l => if s.(state_event_id) =? id then f s :: l else s :: update_state id f l
  end.

Definition lwis_device_event_state_find dev (event_id : Z) : option event_state :=
  find_state (plain_event_id event_id) dev.(dev_event_states).

(** A change of the state found. *)
Definition with_state (event_id : Z) (f : event_state → event_state) dev : device F D :=
  set_dev_states (update_state (plain_event_id event_id) f dev.(dev_event_states)) dev.

(** The state, with the id it is stored under, and the device; none is refused. *)
Definition lwis_device_event_state_find_or_create dev (event_id : Z) :
    option (event_state * Z * device F D) :=
  if event_id =? LWIS_EVENT_ID_NONE then None
  else match lwis_device_event_state_find dev event_id with
       | Some s => Some (s, plain_event_id event_id, dev)
       | None =>
           let s := EventState event_id 0 0 false in
           Some (s, event_id, set_dev_states (s :: dev.(dev_event_states)) dev)
       end.

(** ** Enabling an event *)

(** [int64_t] bits of an id, but those of the device. *)
Definition generic_event_id (event_id : Z) : Z := s64 (Z.land (u64 event_id) 0xFFFF0000FFFFFFFF).

(** One of the ways to enable an event: a refusal with [-EINVAL] is no error. *)
Definition enable_through (op : option (Z → bool → D → Z * D)) (event_id : Z) (enabled : bool)
    (ret err : Z) dev : Z * Z * device F D :=
  match op with
  | None => (ret, err, dev)
  | Some f =>
      let '(ret, dev) := on_hardware (f event_id enabled) dev in
      (ret, if negb (ret =? 0) && negb (ret =? - EINVAL) then ret else err, dev)
  end.

Definition lwis_device_event_enable (event_id : Z) (enabled : bool) dev : Z * device F D :=
  let generic := generic_event_id event_id in
  let '(ret, err, dev) :=
    if generic <? LWIS_EVENT_ID_START_OF_SPECIALIZED_RANGE then
      if generic =? LWIS_EVENT_ID_HEARTBEAT
      then (0, 0, set_hardware (heartbeat_timer enabled dev.(hardware)) dev)
      else (- ENOENT, - ENOENT, dev)
    else if negb (has_flag event_id LWIS_TRANSACTION_EVENT_FLAG) then
      let '(ret, err, dev) := enable_through irq_event_enable event_id enabled (- EINVAL) 0 dev in
      enable_through gpio_irq_event_enable event_id enabled ret err dev
    else (- EINVAL, 0, dev) in
  let '(ret, err, dev) :=
    if err =? 0 then enable_through event_enable event_id enabled ret err dev
    else (ret, err, dev) in
  (if negb (err =? 0) then err else ret, dev).

Definition irq_enable (flags : Z) : bool := has_flag flags LWIS_EVENT_CONTROL_FLAG_IRQ_ENABLE.
Definition irq_enable_once (flags : Z) : bool :=
  has_flag flags LWIS_EVENT_CONTROL_FLAG_IRQ_ENABLE_ONCE.

(** Whether the event is turned on, turned off, or neither. *)
Definition turned (old_flags new_flags : Z) : option bool :=
  if (negb (irq_enable old_flags) || negb (irq_enable_once old_flags))
     && (irq_enable new_flags || irq_enable_once new_flags) then Some true
  else if (irq_enable old_flags || irq_enable_once old_flags)
          && (negb (irq_enable new_flags) || negb (irq_enable_once new_flags)) then Some false
  else None.

(** The state found or created keeps its place while the hardware is called. *)
Definition lwis_device_event_flags_updated (event_id old_flags new_flags : Z) dev :
    Z * device F D :=
  match lwis_device_event_state_find_or_create dev event_id with
  | None => (- EINVAL, dev)
  | Some (s, key, dev) =>
      let update f dev := set_dev_states (update_state key f dev.(dev_event_states)) dev in
      let turn := turned old_flags new_flags in
      let count := match turn with
                   | Some true => s64 (s.(enable_counter) + 1)
                   | Some false => s64 (s.(enable_counter) - 1)
                   | None => s.(enable_counter)
                   end in
      let dev := update (set_enable_counter count) dev in
      let call := match turn with
                  | Some true => if count =? 1 then Some true else None
                  | Some false => if count =? 0 then Some false else None
                  | None => None
                  end in
      let '(ret, dev) := match call with
                         | Some enabled => lwis_device_event_enable event_id enabled dev
                         | None => (0, dev)
                         end in
      if negb (ret =? 0) then (ret, dev)
      else
        let dev := match call with
                   | Some false => update (set_event_counter 0) dev
                   | _ => dev
                   end in
        let dev := if (has_flag event_id LWIS_TRANSACTION_EVENT_FLAG
                       || has_flag event_id LWIS_TRANSACTION_FAILURE_EVENT_FLAG)
                      && (new_flags =? 0)
                   then update (set_event_counter 0) dev else dev in
        match event_flags_updated with
        | Some f => on_hardware (f event_id old_flags new_flags) dev
        | None => (0, dev)
        end
  end.

(** ** Subscription to the events of other devices *)

Definition client_event_subscribe (k : nat) (trigger_event_id : Z) dev : outcome (Z * device F D) :=
  let trigger := EVENT_OWNER_DEVICE_ID trigger_event_id in
  if negb has_top_device then Ok (- EINVAL, dev)
  else if negb (lwis_find_dev_by_id trigger) then Ok (- EINVAL, dev)
  else match lwis_device_event_state_find_or_create dev trigger_event_id with
       | None => Ok (- EINVAL, dev)
       | Some (_, _, dev) =>
           c ← must (dev.(clients) !! k);
           let '(_, c) := lwis_client_event_state_find_or_create c trigger_event_id in
           let dev := set_client k c dev in
           let '(added, d) := add_event_state trigger trigger_event_id dev.(hardware) in
           let dev := set_hardware d dev in
           if negb added then Ok (- EINVAL, dev)
           else Ok (on_hardware (subscribe_event trigger_event_id trigger dev.(dev_id)) dev)
       end.

(** The size goes down by one for each entry removed. *)
Definition client_event_queue_clear_by_id (event_id : Z) c : event_client F D :=
  let rest := filter (λ e, e.(ev_id) <> event_id) c.(event_queue) in
  set_event_queue rest
    (u64 (c.(event_queue_size) - Z.of_nat (length c.(event_queue) - length rest))) c.

Definition client_event_unsubscribe (k : nat) (event_id : Z) dev : outcome (Z * device F D) :=
  if negb has_top_device then Ok (- EINVAL, dev)
  else
    let '(ret, dev) := on_hardware (unsubscribe_event event_id dev.(dev_id)) dev in
    c ← must (dev.(clients) !! k);
    let dev := set_client k (client_event_queue_clear_by_id event_id c) dev in
    Ok (ret, with_state event_id (set_event_counter 0) dev).

(** ** Control by a client, the one at index [k] *)

Definition check_event_control_flags dev (event_id new_flags : Z) : Z :=
  if EVENT_OWNER_DEVICE_ID event_id =? dev.(dev_id) then
    if has_flag event_id LWIS_HW_IRQ_EVENT_FLAG
       && has_flag new_flags LWIS_EVENT_CONTROL_FLAG_QUEUE_ENABLE
       && negb (irq_enable new_flags) && negb (irq_enable_once new_flags)
    then - EINVAL else 0
  else if dev.(is_top) then - EPERM else 0.

Definition lwis_client_event_control_set (k : nat) (event_id new_flags : Z) dev :
    outcome (Z * device F D) :=
  c ← must (dev.(clients) !! k);
  let key := client_state_key c event_id in
  let '(old_flags, c) := lwis_client_event_state_find_or_create c event_id in
  let dev := set_client k (set_states (update_flags key new_flags c.(event_states)) c) dev in
  if old_flags =? new_flags then Ok (0, dev)
  else
    let ret := check_event_control_flags dev event_id new_flags in
    if negb (ret =? 0) then Ok (ret, dev)
    else
      let '(ret, dev) := lwis_device_event_flags_updated event_id old_flags new_flags dev in
      if negb (ret =? 0) then Ok (ret, dev)
      else if EVENT_OWNER_DEVICE_ID event_id =? dev.(dev_id) then Ok (0, dev)
      else if negb (new_flags =? 0) then client_event_subscribe k event_id dev
      else client_event_unsubscribe k event_id dev.

Definition lwis_client_event_control_get (k : nat) (event_id : Z) dev :
    outcome (Z * device F D) :=
  c ← must (dev.(clients) !! k);
  let '(flags, c) := lwis_client_event_state_find_or_create c event_id in
  Ok (flags, set_client k c dev).

(** The loop of [cmd_event_control_set]. *)
Fixpoint set_controls (k : nat) (controls : list (Z * Z)) dev : outcome (Z * device F D) :=
  match controls with
  | [] => Ok (0, dev)
  | (event_id, flags) :: controls =>
      '(ret, dev) ← lwis_client_event_control_set k event_id flags dev;
      if negb (ret =? 0) then Ok (ret, dev) else set_controls k controls dev
  end.

Definition cmd_event_control_set (k : nat) (controls : list (Z * Z)) dev :
    outcome (Z * device F D) :=
  '(ret, dev) ← set_controls k controls dev;
  if negb (ret =? 0) then Ok (ret, dev)
  else match irq_write_combined_mask_value with
       | Some f => Ok (on_hardware f dev)
       | None => Ok (0, dev)
       end.

(** The states a client leaves behind, in the order they are cleared. *)
Fixpoint clear_states (k : nat) (l : list (Z * Z)) dev : outcome (device F D) :=
  match l with
  | [] => Ok dev
  | (event_id, flags) :: l =>
      '(_, dev) ← (if negb (EVENT_OWNER_DEVICE_ID event_id =? dev.(dev_id)) && negb (flags =? 0)
                   then client_event_unsubscribe k event_id dev else Ok (0, dev));
      let '(_, dev) := lwis_device_event_flags_updated event_id flags 0 dev in
      clear_states k l dev
  end.

Definition lwis_client_event_states_clear (k : nat) dev : outcome (Z * device F D) :=
  c ← must (dev.(clients) !! k);
  let states := c.(event_states) in
  dev ← clear_states k states (set_client k (set_states [] c) dev);
  match irq_write_combined_mask_value with
  | Some f => Ok (on_hardware f dev)
  | None => Ok (0, dev)
  end.

Definition lwis_device_event_states_clear_locked dev : device F D := set_dev_states [] dev.

Definition lwis_device_event_update_subscriber (event_id : Z) (subscriber : bool) dev :
    Z * device F D :=
  match lwis_device_event_state_find dev event_id with
  | None => (- EINVAL, dev)
  | Some _ => (0, with_state event_id (set_has_subscriber subscriber) dev)
  end.

(** ** The queues of a client *)

(** The error, the first entry, and the queue with its size. *)
Definition event_queue_get_front (should_remove_entry : bool) (l : list event_entry) (size : Z) :
    Z * option event_entry * (list event_entry * Z) :=
  match l with
  | [] => (- ENOENT, None, (l, size))
  | e :: rest => (0, Some e, if should_remove_entry then (rest, u64 (size - 1)) else (l, size))
  end.

Definition lwis_client_event_peek_front c : Z * option event_entry :=
  fst (event_queue_get_front false c.(event_queue) c.(event_queue_size)).

Definition lwis_client_error_event_peek_front c : Z * option event_entry :=
  fst (event_queue_get_front false c.(error_event_queue) c.(error_event_queue_size)).

Definition lwis_client_event_pop_front c : Z * event_client F D :=
  let '(ret, _, (l, size)) := event_queue_get_front true c.(event_queue) c.(event_queue_size) in
  (ret, set_event_queue l size c).

Definition lwis_client_error_event_pop_front c : Z * event_client F D :=
  let '(ret, _, (l, size)) :=
    event_queue_get_front true c.(error_event_queue) c.(error_event_queue_size) in
  (ret, set_error_event_queue l size c).

Definition lwis_client_event_queue_clear c : event_client F D := set_event_queue [] 0 c.

Definition lwis_client_error_event_queue_clear c : event_client F D := set_error_event_queue [] 0 c.

(** What user space gets: an error with nothing, the size a payload needs
    ([-EAGAIN]), or an event.  [copied] is whether its buffer can be written. *)
Inductive dequeued :=
| Empty (ret : Z)
| Needs (size : Z)
| Faulted
| Event (e : event_entry).

Definition cmd_event_dequeue (payload_buffer_size : Z) (has_buffer copied : bool) c :
    dequeued * event_client F D :=
  let '(error_ret, error_event) := lwis_client_error_event_peek_front c in
  let is_error_event := error_ret =? 0 in
  let '(ret, event) := if is_error_event then (error_ret, error_event)
                       else lwis_client_event_peek_front c in
  match event with
  | None => (Empty ret, c)
  | Some e =>
      if payload_buffer_size <? payload_size e.(ev_payload)
      then (Needs (payload_size e.(ev_payload)), c)
      else if (0 <? payload_size e.(ev_payload)) && has_buffer && negb copied then (Faulted, c)
      else
        let '(_, c) := if is_error_event then lwis_client_error_event_pop_front c
                       else lwis_client_event_pop_front c in
        (Event e, c)
  end.

Definition client_error_event_push_back (e : event_entry) c : Z * event_client F D :=
  if MAX_NUM_PENDING_EVENTS <=? c.(error_event_queue_size) then (- EOVERFLOW, c)
  else (0, set_error_event_queue (c.(error_event_queue) ++ [e])
             (u64 (c.(error_event_queue_size) + 1)) c).

(** Each client is told of an error, up to one whose queue is full. *)
Fixpoint push_errors (e : event_entry) (l : list (event_client F D)) : list (event_client F D) :=
  match l with
  | [] => []
  | c :: l =>
      let '(ret, c) := client_error_event_push_back e c in
      if negb (ret =? 0) then c :: l else c :: push_errors e l
  end.

Definition lwis_device_error_event_emit (event_id : Z) (payload : option response) dev : device F D :=
  if (event_id <? LWIS_EVENT_ID_START_OF_ERROR_RANGE)
     || (LWIS_EVENT_ID_START_OF_SPECIALIZED_RANGE <=? event_id) then dev
  else
    let e := EventEntry event_id 0 (ktime_ns dev.(hardware)) payload in
    set_clients (push_errors e dev.(clients)) dev.

(** A full queue has a first entry, which is read to report its age. *)
Definition client_event_push_back (k : nat) (e : event_entry) dev : outcome (Z * device F D) :=
  c ← must (dev.(clients) !! k);
  if MAX_NUM_PENDING_EVENTS <=? c.(event_queue_size) then
    _ ← must (head c.(event_queue));
    Ok (- EOVERFLOW,
        lwis_device_error_event_emit LWIS_ERROR_EVENT_ID_EVENT_QUEUE_OVERFLOW None dev)
  else
    Ok (0, set_client k (set_event_queue (c.(event_queue) ++ [e])
                           (u64 (c.(event_queue_size) + 1)) c) dev).

(** ** Emission *)

(** The transactions of a client, on the hardware and with the fences of its
    device. *)
Definition trigger_client (hardirq : bool) (k : nat) (event_id event_counter : Z) dev :
    outcome (device F D * emitted) :=
  c ← must (dev.(clients) !! k);
  '(t, em) ← lwis_transaction_event_trigger cfg hardirq event_id event_counter
               (set_fences dev.(dev_fences) (set_dev dev.(hardware) c.(tx_client)));
  Ok (set_client k (set_tx_client t c) (set_hardware t.(cdev) dev), em).

(** The clients are notified, and their transactions triggered, from index [k] on:
    the error of a queue that is full ends the loop. *)
Fixpoint notify_clients (hardirq : bool) (n k : nat) (e : event_entry) dev (em : emitted) :
    outcome (Z * device F D * emitted) :=
  match n with
  | O => Ok (0, dev, em)
  | S n =>
      c ← must (dev.(clients) !! k);
      let wanted := match client_event_state_find_locked c e.(ev_id) with
                    | Some flags => has_flag flags LWIS_EVENT_CONTROL_FLAG_QUEUE_ENABLE
                    | None => false
                    end in
      '(ret, dev) ← (if wanted then client_event_push_back k e dev else Ok (0, dev));
      if negb (ret =? 0) then Ok (ret, dev, em)
      else
        '(dev, em') ← trigger_client hardirq k e.(ev_id) e.(ev_counter) dev;
        notify_clients hardirq n (S k) e dev (then_emit em em')
  end.

(** The return value, the device, and what is emitted in turn. *)
Definition device_event_emit_impl (hardirq : bool) (event_id : Z) (payload : option response) dev :
    outcome (Z * device F D * emitted) :=
  match lwis_device_event_state_find dev event_id with
  | None => Ok (- EINVAL, dev, nothing)
  | Some s =>
      let counter := s64 (s.(event_counter) + 1) in
      let dev := with_state event_id (set_event_counter counter) dev in
      let timestamp := ktime_ns dev.(hardware) in
      let dev := if s.(has_subscriber)
                 then set_hardware (notify_event_subscriber event_id counter timestamp
                                      dev.(hardware)) dev
                 else dev in
      let '(payload, dev) :=
        match event_emitted with
        | Some f => let '(payload, d) := f event_id payload dev.(hardware) in
                    (payload, set_hardware d dev)
        | None => (payload, dev)
        end in
      notify_clients hardirq (length dev.(clients)) 0 (EventEntry event_id counter timestamp payload)
        dev nothing
  end.

(** The pending events are emitted first to last, those they cause behind them;
    [fuel] bounds their number. *)
Fixpoint lwis_pending_events_emit (hardirq : bool) (fuel : nat) (ret : Z)
    (pending : list (Z * response)) dev (sg : list (Z * Z)) :
    outcome (Z * device F D * list (Z * Z)) :=
  match pending with
  | [] => Ok (ret, dev, sg)
  | (event_id, payload) :: pending =>
      match fuel with
      | O => Blocked
      | S fuel =>
          '(r, dev, em) ← device_event_emit_impl hardirq event_id (Some payload) dev;
          lwis_pending_events_emit hardirq fuel (if negb (r =? 0) then r else ret)
            (pending ++ em.(events)) dev (sg ++ em.(signals))
      end
  end.

(** The events of the transactions that ran before an error are not emitted. *)
Definition lwis_device_event_emit (hardirq : bool) (fuel : nat) (event_id : Z)
    (payload : option response) dev : outcome (Z * device F D * list (Z * Z)) :=
  '(ret, dev, em) ← device_event_emit_impl hardirq event_id payload dev;
  if negb (ret =? 0) then Ok (ret, dev, em.(signals))
  else lwis_pending_events_emit hardirq fuel 0 em.(events) dev em.(signals).

(** An event of another device, with its counter. *)
Definition lwis_device_external_event_emit (hardirq : bool) (fuel : nat)
    (event_id event_counter timestamp : Z) dev : outcome (device F D * list (Z * Z)) :=
  match lwis_device_event_state_find dev event_id with
  | None => Ok (dev, [])
  | Some _ =>
      let dev := with_state event_id (set_event_counter event_counter) dev in
      '(ret, dev, em) ← notify_clients hardirq (length dev.(clients)) 0
                          (EventEntry event_id event_counter timestamp None) dev nothing;
      if negb (ret =? 0) then Ok (dev, em.(signals))
      else
        '(_, dev, sg) ← lwis_pending_events_emit hardirq fuel 0 em.(events) dev em.(signals);
        Ok (dev, sg)
  end.

End Event.
