(* ===== verification/LwisEventProps.v ===== *)
(** * LWIS: what emitting an event guarantees

    The events of transactions are emitted in turn, and trigger transactions: the
    emission ends, and keeps the queues within their bounds, because a transaction
    ends once; with one that repeats it need not end. *)

From S2P Require Import Prelude LwisIoEntry LwisProcess LwisProcessProps LwisTransaction.
From S2P Require Import LwisClientInv LwisClientProps LwisEvent.

Section EventProps.
Context {F D : Type} `{lwis_vops D} `{lwis_fences F} `{lwis_event_ops D} (cfg : config).
Implicit Types (c : event_client F D) (dev : device F D).

(** ** The queues of a client *)

Record queues_ok c : Prop := {
  qo_size : event_queue_size c = Z.of_nat (length (event_queue c));
  qo_bound : event_queue_size c <= MAX_NUM_PENDING_EVENTS;
  qo_error_size : error_event_queue_size c = Z.of_nat (length (error_event_queue c));
  qo_error_bound : error_event_queue_size c <= MAX_NUM_PENDING_EVENTS
}.

Lemma queues_push_error c e :
  queues_ok c → queues_ok (client_error_event_push_back e c).2.
Proof.
  intros Hc. pose proof Hc as [? ? Hs ?]. unfold client_error_event_push_back.
  destruct (Z.leb_spec MAX_NUM_PENDING_EVENTS (error_event_queue_size c)) as [|Hl]; [done|].
  unfold MAX_NUM_PENDING_EVENTS in *.
  split; cbn; unfold MAX_NUM_PENDING_EVENTS; rewrite ?length_app; cbn; try done;
    rewrite u64_small by lia; lia.
Qed.

Lemma queues_push c e :
  queues_ok c → event_queue_size c < MAX_NUM_PENDING_EVENTS →
  queues_ok (set_event_queue (event_queue c ++ [e]) (u64 (event_queue_size c + 1)) c).
Proof.
  intros [Hs ? ? ?] Hl. unfold MAX_NUM_PENDING_EVENTS in *.
  split; cbn; unfold MAX_NUM_PENDING_EVENTS; rewrite ?length_app; cbn; try done;
    rewrite u64_small by lia; lia.
Qed.

(** ** The transactions of the clients *)

(** A client with queues within bounds and transactions that end once. *)
Record client_ok c : Prop := {
  co_queues : queues_ok c;
  co_inv : client_inv cfg [] (tx_client c);
  co_flushing : flushing (tx_client c) = false
}.

Definition device_ok dev : Prop := Forall client_ok (clients dev).

Definition waiting_of (l : list (event_client F D)) : nat :=
  sum_list_with (λ c, length (ids (tx_client c))) l.

(** The transactions that wait, over all the clients. *)
Definition waiting_transactions dev : nat := waiting_of (clients dev).

Lemma sum_list_insert {A} (f : A → nat) l k x y :
  l !! k = Some x → (sum_list_with f (<[k := y]> l) + f x = sum_list_with f l + f y)%nat.
Proof.
  revert k. induction l as [|z l IH]; intros [|k] Hk; [done|done| |].
  - injection Hk as ->. cbn. lia.
  - specialize (IH k Hk). change (<[S k := y]> (z :: l)) with (z :: <[k := y]> l).
    cbn [sum_list_with]. lia.
Qed.

Lemma waiting_insert l k c c' :
  l !! k = Some c →
  (waiting_of (<[k := c']> l) + length (ids (tx_client c)) =
   waiting_of l + length (ids (tx_client c')))%nat.
Proof. apply (sum_list_insert (λ c, length (ids (tx_client c)))). Qed.

Lemma push_errors_ok e l :
  Forall client_ok l →
  Forall client_ok (push_errors e l) ∧ length (push_errors e l) = length l ∧
  waiting_of (push_errors e l) = waiting_of l.
Proof.
  induction 1 as [|c l Hc Hl (IH1 & IH2 & IH3)]; cbn [push_errors]; [done|].
  destruct (client_error_event_push_back e c) as [ret c'] eqn:E.
  assert (client_ok c' ∧ tx_client c' = tx_client c) as [Hc' Ht].
  { destruct Hc as [Hq Hi Hfl]. pose proof (queues_push_error c e Hq) as Hq'. rewrite E in Hq'. cbn in Hq'.
    assert (tx_client c' = tx_client c) as Ht.
    { revert E. unfold client_error_event_push_back. destruct (_ <=? _); by intros [= <- <-]. }
    split; [|done]. by split; rewrite ?Ht. }
  destruct (negb (ret =? 0)); (split; [by constructor|]); unfold waiting_of in *; cbn; rewrite Ht; auto.
Qed.

(** What the emission of an event leaves, with [m] events to emit in turn. *)
Record emission dev dev' (m : nat) : Prop := {
  em_ok : device_ok dev';
  em_length : length (clients dev') = length (clients dev);
  em_count : (waiting_transactions dev' + m = waiting_transactions dev)%nat
}.

Lemma emission_refl dev : device_ok dev → emission dev dev 0.
Proof. intros Hd. split; [done|done|lia]. Qed.

Lemma emission_trans d1 d2 d3 m n : emission d1 d2 m → emission d2 d3 n → emission d1 d3 (m + n).
Proof. intros [? ? ?] [? ? ?]. split; [done|congruence|lia]. Qed.

(** The clients matter, and nothing else. *)
Lemma emission_same d1 d2 d3 m : clients d2 = clients d1 → emission d2 d3 m → emission d1 d3 m.
Proof. unfold waiting_transactions. intros Hc [? Hl Hn]. split; [done|congruence|].
  unfold waiting_transactions in *. by rewrite <- Hc. Qed.

Lemma set_client_emission dev k c c' m :
  device_ok dev → clients dev !! k = Some c → client_ok c' →
  (length (ids (tx_client c')) + m = length (ids (tx_client c)))%nat →
  emission dev (set_client k c' dev) m.
Proof.
  intros Hd Hk Hc Hm. split; cbn [clients set_client set_clients].
  - by apply Forall_insert.
  - by apply length_insert.
  - unfold waiting_transactions. cbn [clients set_client set_clients].
    pose proof (waiting_insert _ _ _ c' Hk). lia.
Qed.

Lemma push_back_ok k e dev :
  device_ok dev → (k < length (clients dev))%nat →
  ∃ ret dev', client_event_push_back k e dev = Ok (ret, dev') ∧ emission dev dev' 0.
Proof.
  intros Hd Hk. unfold client_event_push_back.
  destruct (lookup_lt_is_Some_2 (clients dev) k Hk) as [c Hc]. rewrite Hc. cbn [must mbind outcome_bind].
  destruct (Forall_lookup_1 _ _ _ _ Hd Hc) as [Hq Hi Hfl].
  destruct (Z.leb_spec MAX_NUM_PENDING_EVENTS (event_queue_size c)) as [Hl|Hl].
  - destruct (event_queue c) as [|x l] eqn:El.
    { pose proof (qo_size _ Hq) as Hs. rewrite El in Hs. cbn in Hs. unfold MAX_NUM_PENDING_EVENTS in Hl. lia. }
    cbn [head must mbind outcome_bind]. eexists _, _. split; [done|].
    unfold lwis_device_error_event_emit. cbn [orb Z.ltb Z.leb]. cbn.
    destruct (push_errors_ok (EventEntry LWIS_ERROR_EVENT_ID_EVENT_QUEUE_OVERFLOW 0
      (ktime_ns (hardware dev)) None) (clients dev) Hd) as (? & ? & ?).
    split; [done|done|]. unfold waiting_transactions. cbn [clients set_clients]. lia.
  - eexists _, _. split; [done|]. eapply set_client_emission; [done|done| |cbn; lia].
    split; [by apply queues_push|done|done].
Qed.

Context (Hw : 0 <= native_value_bitwidth cfg).
Context (Hreads : lwis_reads (native_value_bitwidth cfg)) (Hclock : lwis_clock _).

Lemma trigger_ok hardirq k id n dev :
  device_ok dev → (k < length (clients dev))%nat →
  ∃ dev' em, trigger_client cfg hardirq k id n dev = Ok (dev', em) ∧
    emission dev dev' (length (events em)).
Proof.
  intros Hd Hk. unfold trigger_client.
  destruct (lookup_lt_is_Some_2 (clients dev) k Hk) as [c Hc]. rewrite Hc. cbn [must mbind outcome_bind].
  destruct (Forall_lookup_1 _ _ _ _ Hd Hc) as [Hq Hi Hfl].
  set (t := set_fences _ _).
  destruct (event_keeps cfg Hw Hreads Hclock hardirq id n t) as (t' & em & -> & [Hi' Hp Hm]);
    [by apply (inv_same_lists cfg [] (tx_client c))|].
  cbn [mbind outcome_bind]. eexists _, em. split; [done|].
  apply (emission_same _ (set_hardware (cdev t') dev)); [done|].
  eapply set_client_emission; [done|done| |].
  { split; [by destruct Hq; split|done|]. exact (eq_trans (proj1 (mode_eq _ _ Hm)) Hfl). }
  cbn [tx_client set_tx_client].
  apply Permutation_length in Hp. rewrite length_app in Hp. unfold finished in Hp. rewrite length_fmap in Hp.
  change (ids (tx_client c)) with (ids t). lia.
Qed.

Lemma notify_ok hardirq n k e dev em :
  device_ok dev → (k + n <= length (clients dev))%nat →
  ∃ ret dev' em', notify_clients cfg hardirq n k e dev em = Ok (ret, dev', em') ∧
    ∃ m, emission dev dev' m ∧ length (events em') = (length (events em) + m)%nat.
Proof.
  revert k dev em. induction n as [|n IH]; intros k dev em Hd Hk; cbn [notify_clients].
  { exists 0, dev, em. split; [done|]. exists O. split; [by apply emission_refl|lia]. }
  destruct (lookup_lt_is_Some_2 (clients dev) k) as [c Hc]; [lia|]. rewrite Hc. cbn [must mbind outcome_bind].
  set (wanted := match _ with Some _ => _ | None => _ end).
  assert (∃ ret dev', (if wanted then client_event_push_back k e dev else Ok (0, dev)) = Ok (ret, dev') ∧
    emission dev dev' 0) as (ret & d1 & -> & He1).
  { destruct wanted; [apply push_back_ok; [done|lia]|]. exists 0, dev. split; [done|by apply emission_refl]. }
  cbn [mbind outcome_bind]. destruct (negb (ret =? 0)).
  { exists ret, d1, em. split; [done|]. exists O. split; [done|lia]. }
  destruct (trigger_ok hardirq k (ev_id e) (ev_counter e) d1) as (d2 & em2 & -> & He2);
    [apply He1|rewrite (em_length _ _ _ He1); lia|].
  cbn [mbind outcome_bind].
  destruct (IH (S k) d2 (then_emit em em2)) as (r & d3 & em3 & -> & m & He3 & Hm);
    [apply He2|rewrite (em_length _ _ _ He2), (em_length _ _ _ He1); lia|].
  exists r, d3, em3. split; [done|]. exists (0 + length (events em2) + m)%nat. split.
  - by eapply emission_trans; [eapply emission_trans|].
  - rewrite Hm. cbn. rewrite length_app. lia.
Qed.

Lemma impl_ok hardirq id payload dev :
  device_ok dev →
  ∃ ret dev' em, device_event_emit_impl cfg hardirq id payload dev = Ok (ret, dev', em) ∧
    emission dev dev' (length (events em)).
Proof.
  intros Hd. unfold device_event_emit_impl. destruct (lwis_device_event_state_find dev id) as [s|];
    [|eexists _, dev, nothing; split; [done|by apply emission_refl]].
  set (d1 := with_state _ _ _). set (d2 := if has_subscriber s then _ else _).
  assert (clients d2 = clients dev) as H2 by (unfold d2; by destruct (has_subscriber s)).
  set (hook := match event_emitted with Some _ => _ | None => _ end).
  assert (∃ p d3, hook = (p, d3) ∧ clients d3 = clients dev) as (p & d3 & -> & H3).
  { unfold hook. destruct event_emitted as [f|]; [|by exists payload, d2].
    destruct (f id payload (hardware d2)) as [p d]. by exists p, (set_hardware d d2). }
  destruct (notify_ok hardirq (length (clients d3)) 0 (EventEntry id (s64 (event_counter s + 1))
    (ktime_ns (hardware d1)) p) d3 nothing) as (ret & d4 & em & -> & m & Hm & Hl).
  - unfold device_ok. by rewrite H3.
  - lia.
  - exists ret, d4, em. split; [done|]. rewrite Hl. cbn. by apply (emission_same _ d3).
Qed.

Lemma pending_ok hardirq fuel ret pending dev sg :
  device_ok dev → (waiting_transactions dev + length pending <= fuel)%nat →
  ∃ ret' dev' sg', lwis_pending_events_emit cfg hardirq fuel ret pending dev sg = Ok (ret', dev', sg') ∧
    device_ok dev'.
Proof.
  revert ret pending dev sg. induction fuel as [|fuel IH]; intros ret pending dev sg Hd Hf;
    cbn [lwis_pending_events_emit].
  - destruct pending as [|[id p] l]; [by eexists _, _, _|cbn in Hf; lia].
  - destruct pending as [|[id p] l]; [by eexists _, _, _|].
    destruct (impl_ok hardirq id (Some p) dev Hd) as (r & d1 & em & -> & [Hd1 _ Hn]).
    cbn [mbind outcome_bind]. apply IH; [done|]. rewrite length_app. cbn in Hf. lia.
Qed.

Lemma emit_ok hardirq fuel id payload dev :
  device_ok dev → (waiting_transactions dev <= fuel)%nat →
  ∃ ret dev' sg, lwis_device_event_emit cfg hardirq fuel id payload dev = Ok (ret, dev', sg) ∧
    device_ok dev'.
Proof.
  intros Hd Hf. unfold lwis_device_event_emit.
  destruct (impl_ok hardirq id payload dev Hd) as (r & d1 & em & -> & [Hd1 _ Hn]).
  cbn [mbind outcome_bind]. destruct (negb (r =? 0)); [by eexists _, _, _|].
  apply pending_ok; [done|lia].
Qed.

(** ** A transaction that triggers itself *)

(** Entries that are all written, each with success. *)
Definition succeeds (es : list io_entry) : Prop :=
  ∀ e, e ∈ es → (∃ bid offset val, e = LWIS_IO_ENTRY_WRITE bid offset val) ∧
    ∀ w (d : D), io_ret (register_io e w d).1 = 0.

Lemma succeeds_run es i (r : run D) :
  succeeds es → run_ret r = 0 → error_code (run_resp r) = 0 →
  ∃ r', process_entries (native_value_bitwidth cfg) false i es r = Ok r' ∧ run_ret r' = 0 ∧
    error_code (run_resp r') = 0.
Proof.
  intros Hs. revert i r. induction es as [|e es IH]; intros i r Hr He; cbn [process_entries]; [by exists r|].
  destruct (Hs e) as [(bid & offset & val & ->) Hio]; [by left|]. cbn [process_entry].
  specialize (Hio (native_value_bitwidth cfg) (run_dev r)). destruct (register_io _ _ _) as [reply d].
  cbn in Hio. unfold simple_command. rewrite Hio. cbn. apply IH; [|done|done].
  intros e' Hin. apply Hs. by right.
Qed.

(** A client whose transaction at [a] repeats at every event [id], in the context of
    the event, and succeeds with the same event. *)
Record self_triggered (id a : Z) (t : client F D) : Prop := {
  st_list : event_list_find t id = Some [a];
  st_tx : ∃ x r es, objects t !! a = Some (Strong x) ∧ resp x = Some r ∧ error_code r = 0 ∧
    io_arrays t !! io_entries (tx_info x) = Some es ∧ succeeds es ∧
    trigger_event_counter (tx_info x) = LWIS_EVENT_COUNTER_EVERY_TIME ∧
    run_in_event_context (tx_info x) = true ∧ emit_success_event_id (tx_info x) = id
}.

Context (Hnew : ∀ o, o !! new_address cfg o = None).

(** The event runs an iteration, which leaves the client as it was, and is emitted
    again. *)
Lemma self_triggers id a t n hardirq :
  self_triggered id a t → plain_event_id id = id → id ≠ LWIS_EVENT_ID_NONE → 0 <= n →
  hardirq && is_i2c_device cfg = false →
  ∃ t' p, lwis_transaction_event_trigger cfg hardirq id n t = Ok (t', Emitted [(id, p)] []) ∧
    self_triggered id a t'.
Proof.
  intros [Hl (x & r & es & Ha & Hr & He & Hes & Hsu & Hev & Hctx & Hid)] Hplain Hne Hn Hirq.
  unfold lwis_transaction_event_trigger. unfold plain_event_id, has_flag in Hplain. rewrite Hplain, Hl.
  cbn [trigger_all]. unfold trigger_one. rewrite Ha. cbn [must mbind outcome_bind].
  unfold resp_of. rewrite Hr. cbn [must mbind outcome_bind]. rewrite He. cbn [negb Z.eqb].
  rewrite Hev. replace (LWIS_EVENT_COUNTER_EVERY_TIME =? LWIS_EVENT_COUNTER_ON_NEXT_OCCURRENCE) with false by done.
  destruct (Z.eqb_spec LWIS_EVENT_COUNTER_EVERY_TIME n) as [<-|_]; [unfold LWIS_EVENT_COUNTER_EVERY_TIME in Hn; lia|].
  rewrite Z.eqb_refl. cbn [orb]. rewrite Hes. cbn [must mbind outcome_bind].
  unfold new_repeating_transaction_iteration, resp_of. rewrite Hr. cbn [must mbind outcome_bind].
  set (y := Transaction _ _ _ _ _ _ _ _ _). unfold allocate_object.
  set (b := new_address cfg (objects t)). pose proof (Hnew (objects t)) as Hb. fold b in Hb.
  unfold defer_transaction_locked. rewrite (proj2 (tx_at_Ok b _ y)) by apply lookup_insert_eq.
  cbn [mbind outcome_bind]. rewrite Hirq. change (tx_info y) with (tx_info x). rewrite Hctx.
  unfold process_transaction. rewrite (proj2 (tx_at_Ok b _ y)) by apply lookup_insert_eq.
  cbn [mbind outcome_bind]. unfold resp_of. cbn [resp y must mbind outcome_bind].
  cbn [io_arrays set_objects]. change (tx_info y) with (tx_info x). rewrite Hes. cbn [must mbind outcome_bind].
  unfold turn_limit. rewrite Hctx, orb_true_r. cbn [orb].
  unfold process_turn. cbn [remaining starting_read_buf presp remaining_entries_to_process tx_read_buf y].
  rewrite Z.ltb_irrefl, Z.sub_diag. cbn [Z.ltb Z.compare andb].
  change (Z.to_nat 0) with O. rewrite Nat2Z.id, drop_0, take_ge by done.
  set (r0 := Run 0 _ _ _).
  destruct (succeeds_run es 0 r0 Hsu) as (r' & Hrun & Hret & Herr); [done|done|].
  rewrite Hrun. cbn [mbind outcome_bind presp]. rewrite Herr. cbn [negb Z.eqb andb].
  rewrite Hid, Hev, Z.eqb_refl. rewrite (proj2 (Z.eqb_neq _ _) Hne). cbn [negb mbind outcome_bind trigger_all].
  eexists _, _. split; [reflexivity|].
  match goal with |- self_triggered _ _ (queue_if_any ?c) => set (t' := c) end.
  assert (objects t' = objects t ∧ io_arrays t' = io_arrays t ∧ transaction_list t' = transaction_list t)
    as (Ho & Hio & Htl).
  { split; [|done]. unfold t'. cbn. rewrite !insert_insert_eq. by apply delete_insert_id. }
  assert (self_triggered id a t') as [Hl' Ht'].
  { split; [unfold event_list_find; by rewrite Htl|]. exists x, r, es. by rewrite Ho, Hio. }
  unfold queue_if_any. by destruct (transaction_process_queue t').
Qed.

Lemma find_update_state id f l s :
  find_state id l = Some s → state_event_id (f s) = state_event_id s →
  find_state id (update_state id f l) = Some (f s).
Proof.
  intros Hl Hf. induction l as [|x l IH]; cbn in *; [done|].
  destruct (Z.eqb_spec (state_event_id x) id) as [Hx|Hx].
  - injection Hl as ->. cbn. by rewrite Hf, Hx, Z.eqb_refl.
  - cbn. rewrite (proj2 (Z.eqb_neq _ _) Hx). by apply IH.
Qed.

(** A device with one such client, which does not ask for the event itself, and
    has seen the event [n] times. *)
Record looping (id a n : Z) dev : Prop := {
  lo_client : ∃ c, clients dev = [c] ∧ self_triggered id a (tx_client c) ∧
    ∀ flags, client_event_state_find_locked c id = Some flags →
      has_flag flags LWIS_EVENT_CONTROL_FLAG_QUEUE_ENABLE = false;
  lo_state : ∃ s, lwis_device_event_state_find dev id = Some s ∧ event_counter s = n
}.

Lemma impl_loops hardirq id a n payload dev :
  looping id a n dev → plain_event_id id = id → id ≠ LWIS_EVENT_ID_NONE → 0 <= n < 2 ^ 63 - 1 →
  hardirq && is_i2c_device cfg = false →
  ∃ dev' p, device_event_emit_impl cfg hardirq id payload dev = Ok (0, dev', Emitted [(id, p)] []) ∧
    looping id a (n + 1) dev'.
Proof.
  intros [(c & Hc & Hst & Hfl) (s & Hs & Hn)] Hplain Hne Hrange Hirq.
  unfold device_event_emit_impl. rewrite Hs, Hn, s64_small by lia.
  set (d1 := with_state _ _ _). set (d2 := if has_subscriber s then _ else _).
  assert (clients d2 = clients dev ∧ dev_event_states d2 = dev_event_states d1) as [Hc2 Hs2]
    by (unfold d2; by destruct (has_subscriber s)).
  set (hook := match event_emitted with Some _ => _ | None => _ end).
  assert (∃ p d3, hook = (p, d3) ∧ clients d3 = clients dev ∧ dev_event_states d3 = dev_event_states d1)
    as (p & d3 & -> & Hc3 & Hs3).
  { unfold hook. destruct event_emitted as [f|]; [|by exists payload, d2].
    destruct (f id payload (hardware d2)) as [p d]. by exists p, (set_hardware d d2). }
  rewrite Hc3, Hc. cbn [length notify_clients]. rewrite Hc3, Hc. cbn [lookup list_lookup must mbind outcome_bind].
  cbn [ev_id ev_counter].
  replace (match client_event_state_find_locked c id with Some _ => _ | None => _ end) with false
    by (destruct (client_event_state_find_locked c id) as [flags|]; [symmetry; by apply Hfl|done]).
  cbn [mbind outcome_bind negb Z.eqb]. unfold trigger_client. rewrite Hc3, Hc.
  cbn [lookup list_lookup must mbind outcome_bind].
  set (t0 := set_fences _ _).
  destruct (self_triggers id a t0 (n + 1) hardirq) as (t' & p' & -> & Hst'); [by destruct Hst|done|done|lia|done|].
  cbn [mbind outcome_bind]. eexists _, p'. split; [done|]. split.
  - exists (set_tx_client t' c). split; [|done]. cbn. by rewrite Hc3, Hc.
  - exists (set_event_counter (n + 1) s). split; [|done].
    unfold lwis_device_event_state_find in *. cbn [dev_event_states set_client set_clients set_hardware].
    rewrite Hs3. unfold d1, with_state. cbn [dev_event_states set_dev_states].
    by apply (find_update_state _ (set_event_counter (n + 1))).
Qed.

Lemma pending_loops hardirq fuel id a n ret p dev sg :
  looping id a n dev → plain_event_id id = id → id ≠ LWIS_EVENT_ID_NONE →
  0 <= n → n + Z.of_nat fuel < 2 ^ 63 - 1 → hardirq && is_i2c_device cfg = false →
  lwis_pending_events_emit cfg hardirq fuel ret [(id, p)] dev sg = Blocked.
Proof.
  revert n ret p dev sg. induction fuel as [|fuel IH]; intros n ret p dev sg Hlo Hplain Hne Hn Hrange Hirq;
    cbn [lwis_pending_events_emit]; [done|].
  destruct (impl_loops hardirq id a n (Some p) dev) as (dev' & p' & -> & Hlo'); [done|done|done|lia|done|].
  cbn [mbind outcome_bind]. apply (IH (n + 1)); [done|done|done|lia|lia|done].
Qed.

(** ** How often an event is enabled *)

Lemma enable_through_hw op id b ret err dev :
  ∃ r e d, enable_through op id b ret err dev = (r, e, set_hardware d dev).
Proof.
  destruct op as [f|]; [|exists ret, err, (hardware dev); by destruct dev].
  cbn. unfold on_hardware. destruct (f id b (hardware dev)) as [r d]. by eexists r, _, d.
Qed.

(** Only the hardware changes. *)
Lemma enable_hw id b dev :
  ∃ r d, lwis_device_event_enable id b dev = (r, set_hardware d dev).
Proof.
  unfold lwis_device_event_enable.
  set (first := if _ <? _ then _ else _).
  assert (∃ r e d, first = (r, e, set_hardware d dev)) as (r & e & d & ->).
  { unfold first. destruct (_ <? _).
    - destruct (_ =? _); [by eexists _, _, _|]. eexists _, _, (hardware dev). by destruct dev.
    - destruct (negb _); [|eexists _, _, (hardware dev); by destruct dev].
      destruct (enable_through_hw irq_event_enable id b (- EINVAL) 0 dev) as (r & e & d & ->).
      destruct (enable_through_hw gpio_irq_event_enable id b r e (set_hardware d dev)) as (r' & e' & d' & ->).
      by eexists r', e', d'. }
  destruct (e =? 0); [|by eexists _, d].
  destruct (enable_through_hw event_enable id b r e (set_hardware d dev)) as (r' & e' & d' & ->).
  by eexists _, d'.
Qed.

Definition enabled_count (flags : Z) : Z := if irq_enable flags then 1 else 0.

(** The changes of the flags that keep the interrupt enabled. *)
Fixpoint stays (flags : Z) (fs : list Z) : Z :=
  match fs with
  | [] => 0
  | f :: fs => (if irq_enable flags && irq_enable f && negb (flags =? f) then 1 else 0) + stays f fs
  end.

Lemma turned_plain old new :
  irq_enable_once old = false → irq_enable_once new = false →
  turned old new = if irq_enable new then Some true else if irq_enable old then Some false else None.
Proof.
  intros Ho Hn. unfold turned. rewrite Ho, Hn.
  by destruct (irq_enable old), (irq_enable new).
Qed.

Lemma flags_updated_count id old new dev s :
  event_flags_updated = None → (∀ b dev', (lwis_device_event_enable id b dev').1 = 0) →
  plain_event_id id = id → id ≠ LWIS_EVENT_ID_NONE →
  irq_enable_once old = false → irq_enable_once new = false →
  lwis_device_event_state_find dev id = Some s → - 2 ^ 62 < enable_counter s < 2 ^ 62 →
  ∃ dev' s', lwis_device_event_flags_updated id old new dev = (0, dev') ∧
    clients dev' = clients dev ∧ dev_id dev' = dev_id dev ∧ is_top dev' = is_top dev ∧
    lwis_device_event_state_find dev' id = Some s' ∧
    enable_counter s' = enable_counter s +
      (if irq_enable new then 1 else if irq_enable old then -1 else 0).
Proof.
  intros Hnone Hen Hplain Hne Ho Hn Hs Hr. unfold lwis_device_event_flags_updated.
  unfold lwis_device_event_state_find_or_create. rewrite (proj2 (Z.eqb_neq _ _) Hne), Hs, Hplain.
  rewrite turned_plain by done. set (turn := if irq_enable new then _ else _).
  set (count := match turn with Some true => s64 _ | Some false => s64 _
    | None => enable_counter s end).
  assert (count = enable_counter s + (if irq_enable new then 1 else if irq_enable old then -1 else 0))
    as Hcount.
  { unfold count, turn. destruct (irq_enable new), (irq_enable old); rewrite ?s64_small by lia; lia. }
  set (d1 := set_dev_states (update_state id (set_enable_counter count) _) dev).
  set (call := match turn with Some true => _ | Some false => _ | None => _ end).
  assert (∃ d, match call with Some enabled => lwis_device_event_enable id enabled d1 | None => (0, d1) end
    = (0, set_hardware d d1)) as [d ->].
  { destruct call as [b|]; [|exists (hardware d1); by destruct d1].
    destruct (enable_hw id b d1) as (r & d & He). exists d. specialize (Hen b d1). rewrite He in Hen.
    cbn in Hen. by rewrite He, Hen. }
  cbn [negb Z.eqb]. set (d2 := match call with Some false => _ | _ => _ end).
  set (d3 := if _ && _ then _ else d2). rewrite Hnone. exists d3.
  assert (∀ (dv : device F D) t, find_state id (dev_event_states dv) = Some t →
    find_state id (dev_event_states (set_dev_states (update_state id (set_event_counter 0)
      (dev_event_states dv)) dv)) = Some (set_event_counter 0 t)) as Hreset.
  { intros dv t Ht. cbn. by apply (find_update_state id (set_event_counter 0)). }
  assert (find_state id (dev_event_states d1) = Some (set_enable_counter count s)) as H1s.
  { cbn. apply (find_update_state id (set_enable_counter count)); [|done].
    unfold lwis_device_event_state_find in Hs. by rewrite Hplain in Hs. }
  assert (∃ t, find_state id (dev_event_states d2) = Some t ∧ enable_counter t = count ∧
    clients d2 = clients dev ∧ dev_id d2 = dev_id dev ∧ is_top d2 = is_top dev) as (t2 & Ht2 & Hc2 & Hd2).
  { unfold d2. destruct call as [[]|]; try (by exists (set_enable_counter count s)).
    exists (set_event_counter 0 (set_enable_counter count s)).
    split; [|done]. by apply (Hreset (set_hardware d d1)). }
  assert (∃ t, find_state id (dev_event_states d3) = Some t ∧ enable_counter t = count ∧
    clients d3 = clients dev ∧ dev_id d3 = dev_id dev ∧ is_top d3 = is_top dev) as (t3 & Ht3 & Hc3 & ? & ? & ?).
  { unfold d3. destruct (_ && _); [|by exists t2]. exists (set_event_counter 0 t2).
    split; [by apply Hreset|done]. }
  exists t3. unfold lwis_device_event_state_find. rewrite Hplain, Hc3, Hcount. done.
Qed.

Lemma find_update_flags id f l :
  find_flags id l ≠ None → find_flags id (update_flags id f l) = Some f.
Proof.
  induction l as [|[i x] l IH]; cbn; [done|]. destruct (Z.eqb_spec i id) as [->|Hi]; cbn.
  - by rewrite Z.eqb_refl.
  - rewrite (proj2 (Z.eqb_neq _ _) Hi). apply IH.
Qed.

(** The flags a client has set for an event. *)
Definition flags_of c (id : Z) : Z := default 0 (client_event_state_find_locked c id).

Lemma control_set_count k id new dev c s :
  event_flags_updated = None → (∀ b dev', (lwis_device_event_enable id b dev').1 = 0) →
  plain_event_id id = id → id ≠ LWIS_EVENT_ID_NONE → EVENT_OWNER_DEVICE_ID id = dev_id dev →
  clients dev !! k = Some c → irq_enable_once (flags_of c id) = false → irq_enable_once new = false →
  check_event_control_flags dev id new = 0 →
  lwis_device_event_state_find dev id = Some s → - 2 ^ 62 < enable_counter s < 2 ^ 62 →
  ∃ dev' c' s', lwis_client_event_control_set k id new dev = Ok (0, dev') ∧
    dev_id dev' = dev_id dev ∧ is_top dev' = is_top dev ∧
    clients dev' !! k = Some c' ∧ flags_of c' id = new ∧
    lwis_device_event_state_find dev' id = Some s' ∧
    enable_counter s' = enable_counter s + enabled_count new - enabled_count (flags_of c id)
      + stays (flags_of c id) [new].
Proof.
  intros Hnone Hen Hplain Hne Hown Hc Ho Hn Hck Hs Hr. unfold lwis_client_event_control_set.
  rewrite Hc. cbn [must mbind outcome_bind].
  assert (client_state_key c id = id) as -> by (unfold client_state_key; by destruct (client_event_state_find_locked c id)).
  destruct (lwis_client_event_state_find_or_create c id) as [old c1] eqn:E.
  assert (old = flags_of c id ∧ find_flags id (event_states c1) ≠ None) as [-> Hf].
  { revert E. unfold lwis_client_event_state_find_or_create, flags_of, client_event_state_find_locked.
    rewrite Hplain. destruct (find_flags id (event_states c)) as [f|] eqn:Ef; intros [= <- <-].
    - split; [done|]. by rewrite Ef.
    - split; [done|]. cbn. by rewrite Z.eqb_refl. }
  set (c2 := set_states _ c1).
  assert (flags_of c2 id = new) as Hc2.
  { unfold flags_of, client_event_state_find_locked. rewrite Hplain. cbn. by rewrite find_update_flags. }
  assert (clients (set_client k c2 dev) !! k = Some c2) as Hk.
  { cbn. apply list_lookup_insert_eq. by eapply lookup_lt_Some. }
  cbn [stays]. destruct (Z.eqb_spec (flags_of c id) new) as [He|He].
  - eexists _, c2, s. split; [done|]. split_and!; try done. rewrite He, andb_false_r. lia.
  - change (check_event_control_flags (set_client k c2 dev) id new) with (check_event_control_flags dev id new).
    rewrite Hck. cbn [negb Z.eqb].
    destruct (flags_updated_count id (flags_of c id) new (set_client k c2 dev) s)
      as (d & s' & -> & Hcl & Hid & Htop & Hs' & Hcount); try done.
    cbn [negb Z.eqb]. rewrite Hid. cbn [dev_id set_client set_clients]. rewrite Hown, Z.eqb_refl.
    exists d, c2, s'. split; [done|]. split_and!; try done; [by rewrite Hcl|].
    rewrite Hcount, andb_true_r. unfold enabled_count.
    destruct (irq_enable (flags_of c id)), (irq_enable new); cbn; lia.
Qed.

Lemma set_controls_count k id fs dev c s :
  event_flags_updated = None → (∀ b dev', (lwis_device_event_enable id b dev').1 = 0) →
  plain_event_id id = id → id ≠ LWIS_EVENT_ID_NONE → EVENT_OWNER_DEVICE_ID id = dev_id dev →
  clients dev !! k = Some c → irq_enable_once (flags_of c id) = false →
  (∀ f, f ∈ fs → irq_enable_once f = false ∧ check_event_control_flags dev id f = 0) →
  lwis_device_event_state_find dev id = Some s →
  Z.abs (enable_counter s) + 2 * Z.of_nat (length fs) < 2 ^ 62 →
  ∃ dev' s', set_controls k ((λ f, (id, f)) <$> fs) dev = Ok (0, dev') ∧
    lwis_device_event_state_find dev' id = Some s' ∧
    enable_counter s' = enable_counter s + enabled_count (List.last fs (flags_of c id))
      - enabled_count (flags_of c id) + stays (flags_of c id) fs.
Proof.
  intros Hnone Hen Hplain Hne. revert dev c s.
  induction fs as [|f fs IH]; intros dev c s Hown Hc Ho Hfs Hs Hr; cbn [fmap list_fmap set_controls].
  - exists dev, s. split; [done|]. split; [done|]. cbn. lia.
  - destruct (Hfs f) as [Hfo Hck]; [by left|]. cbn [length] in Hr.
    destruct (control_set_count k id f dev c s) as (d & c' & s' & -> & Hid & Htop & Hc' & Hf & Hs' & Hcount);
      try done; [lia|].
    cbn [mbind outcome_bind negb Z.eqb].
    destruct (IH d c' s') as (d2 & s2 & -> & Hs2 & Hcount2); try done.
    + by rewrite Hid.
    + by rewrite Hf.
    + intros g Hg. destruct (Hfs g) as [? Hg2]; [by right|]. split; [done|].
      unfold check_event_control_flags in *. by rewrite Hid, Htop.
    + revert Hcount. cbn [stays]. unfold enabled_count.
      destruct (irq_enable f), (irq_enable (flags_of c id)), (flags_of c id =? f); cbn; lia.
    + exists d2, s2. split; [done|]. split; [done|]. rewrite Hcount2, Hcount, Hf.
      replace (List.last (f :: fs) (flags_of c id)) with (List.last fs f).
      { cbn [stays]. lia. }
      destruct fs as [|g fs]; [done|]. cbn [List.last]. clear. revert g.
      induction fs as [|h fs IH]; intros g; [done|]. apply IH.
Qed.

End EventProps.

(** C17: The emission of an event ends: with clients whose transactions run once
    each (one that repeats need not, [lwis_self_trigger_never_ends]), whatever these do and emit in turn, it returns after emitting at most as
    many events as there are transactions waiting, and the event queues keep their
    count and their bound. *)
Theorem lwis_event_emission_ends {F D} `{lwis_vops D} `{lwis_fences F} `{lwis_event_ops D}
    (cfg : config) (dev : device F D) hardirq fuel id payload :
  0 <= native_value_bitwidth cfg → lwis_reads (native_value_bitwidth cfg) → lwis_clock _ →
  (∀ o, o !! new_address cfg o = None) →
  (∀ c, c ∈ clients dev → queues_ok c ∧ ∃ submitted ended, history cfg (tx_client c) submitted ended) →
  (waiting_transactions dev <= fuel)%nat →
  ∃ ret dev' sg, lwis_device_event_emit cfg hardirq fuel id payload dev = Ok (ret, dev', sg) ∧
    ∀ c, c ∈ clients dev' → queues_ok c.
Proof.
  intros Hw Hreads Hclock Hnew Hcl Hf.
  destruct (emit_ok cfg Hw Hreads Hclock hardirq fuel id payload dev) as (ret & dev' & sg & Hr & Hd); [|done|].
  - apply Forall_forall. intros c Hc. destruct (Hcl c Hc) as (Hq & s & e & Hh).
    destruct (history_keeps cfg Hw Hreads Hclock Hnew _ _ _ Hh) as (? & ? & _). by split.
  - exists ret, dev', sg. split; [done|]. intros c Hc.
    by apply (co_queues cfg), (proj1 (Forall_forall _ _) Hd).
Qed.

(** With a repeating transaction that runs in the context of its event, and
    whose success event is that event, no emission of the event ends: the loop over
    the pending events runs for as long as the event can be counted. *)
Theorem lwis_self_trigger_never_ends {F D} `{lwis_vops D} `{lwis_fences F} `{lwis_event_ops D}
    (cfg : config) (dev : device F D) hardirq fuel id a n payload :
  (∀ o, o !! new_address cfg o = None) → looping id a n dev → plain_event_id id = id →
  id ≠ LWIS_EVENT_ID_NONE → 0 <= n → n + Z.of_nat fuel < 2 ^ 63 - 2 →
  hardirq && is_i2c_device cfg = false →
  lwis_device_event_emit cfg hardirq fuel id payload dev = Blocked.
Proof.
  intros Hnew Hlo Hplain Hne Hn Hf Hirq. unfold lwis_device_event_emit.
  destruct (impl_loops cfg Hnew hardirq id a n payload dev) as (dev' & p' & -> & Hlo'); [done|done|done|lia|done|].
  cbn [mbind outcome_bind negb Z.eqb events signals].
  apply (pending_loops cfg Hnew _ _ _ a (n + 1)); [done|done|done|lia|lia|done].
Qed.

(** The enable counter of an event is one too high for every change of a
    client's flags that keeps the interrupt enabled (to queue its events, say): after
    any sequence of flags, it has gone up by one if the last ones enable the
    interrupt, down by one if the first ones did, and up by the number of such
    changes, which no later change takes back; the interrupt is then not disabled
    when the last client turns it off. *)
Theorem lwis_enable_count_leaks {F D} `{lwis_vops D} `{lwis_fences F} `{lwis_event_ops D}
    (dev : device F D) k id fs c s :
  event_flags_updated = None → (∀ b (dev' : device F D), (lwis_device_event_enable id b dev').1 = 0) →
  plain_event_id id = id → id ≠ LWIS_EVENT_ID_NONE → EVENT_OWNER_DEVICE_ID id = dev_id dev →
  clients dev !! k = Some c → irq_enable_once (flags_of c id) = false →
  (∀ f, f ∈ fs → irq_enable_once f = false ∧ check_event_control_flags dev id f = 0) →
  lwis_device_event_state_find dev id = Some s →
  Z.abs (enable_counter s) + 2 * Z.of_nat (length fs) < 2 ^ 62 →
  ∃ dev' s', set_controls k ((λ f, (id, f)) <$> fs) dev = Ok (0, dev') ∧
    lwis_device_event_state_find dev' id = Some s' ∧
    enable_counter s' = enable_counter s + enabled_count (List.last fs (flags_of c id))
      - enabled_count (flags_of c id) + stays (flags_of c id) fs.
Proof.
  intros. by eapply set_controls_count.
Qed.

(** ** Witnesses *)

#[local] Existing Instance demo_vops.
#[local] Existing Instance LwisClientProps.no_fences.

(** A device with interrupts that can always be enabled. *)
#[local] Instance quiet_ops : lwis_event_ops Z := {|
  irq_event_enable := Some (λ _ _ d, (0, d));
  gpio_irq_event_enable := None;
  irq_write_combined_mask_value := None;
  heartbeat_timer _ d := d;
  event_enable := None;
  event_flags_updated := None;
  event_emitted := None;
  has_top_device := false;
  lwis_find_dev_by_id _ := false;
  add_event_state _ _ d := (false, d);
  subscribe_event _ _ _ d := (0, d);
  unsubscribe_event _ _ d := (0, d);
  notify_event_subscriber _ _ _ d := d
|}.

(** Event 4097 of device 1. *)
Definition demo_event : Z := 2 ^ 32 + 4097.

Definition demo_event_client (t : client unit Z) : event_client unit Z :=
  EventClient t [] [] 0 [] 0.

Definition demo_device (t : client unit Z) : device unit Z :=
  Device 1 false [EventState demo_event 0 0 false] [demo_event_client t] () 0.

Lemma lwis_event_emission_ends_witness :
  ∃ ret dev' sg, lwis_device_event_emit LwisClientProps.demo_config false 1 demo_event None
      (demo_device demo_submitted) = Ok (ret, dev', sg) ∧
    ∀ c, c ∈ clients dev' → queues_ok c.
Proof.
  apply (lwis_event_emission_ends LwisClientProps.demo_config (demo_device demo_submitted) false 1);
    [done|exact demo_vops_reads|exact demo_vops_clock|exact next_address_fresh| |by vm_compute].
  intros c ->%list_elem_of_singleton. split; [by split|]. exists [6], []. exact demo_waits.
Defined.

(** A transaction that repeats, and emits the event it waits for. *)
Definition demo_self : client unit Z :=
  Client {[1 := Strong (Transaction
      (Info 5 demo_event LWIS_EVENT_COUNTER_EVERY_TIME 0 LWIS_TRIGGER_NODE_OPERATOR_NONE [] (-1) 0 [] 10
         true demo_event 101 false false 0 [] 0)
      (Some (Response 5 0 0 0 0 32 (λ _, 0))) 1 None 0 false [] [] 0)]}
    {[10 := [LWIS_IO_ENTRY_WRITE 0 8 1]]} [(demo_event, [1])] [] [] false false true 6 ∅ () 0.

Lemma lwis_self_trigger_never_ends_witness :
  lwis_device_event_emit LwisClientProps.demo_config false 1000 demo_event None
    (demo_device demo_self) = Blocked.
Proof.
  apply (lwis_self_trigger_never_ends LwisClientProps.demo_config (demo_device demo_self) false 1000
    demo_event 1 0); [exact next_address_fresh| |reflexivity|done|done|lia|done].
  split; [|by exists (EventState demo_event 0 0 false)].
  exists (demo_event_client demo_self). split; [done|]. split; [|done]. split; [done|].
  do 3 eexists. split; [reflexivity|]. do 3 (split; [reflexivity|]). split; [|done].
  intros e ->%list_elem_of_singleton. split; [by eexists _, _, _|done].
Defined.

(** Enabled, then queued too, then turned off: the interrupt is still counted. *)
Lemma lwis_enable_count_leaks_witness :
  ∃ dev' s', set_controls 0 [(demo_event, 1); (demo_event, 3); (demo_event, 0)]
      (demo_device demo_self) = Ok (0, dev') ∧
    lwis_device_event_state_find dev' demo_event = Some s' ∧ enable_counter s' = 1.
Proof.
  apply (lwis_enable_count_leaks (demo_device demo_self) 0 demo_event [1; 3; 0]
    (demo_event_client demo_self) (EventState demo_event 0 0 false)); try reflexivity; [done|].
  intros f Hf. by repeat (apply elem_of_cons in Hf as [->|Hf]; [done|]); apply elem_of_nil in Hf.
Defined.
