(* ===== verification/LwisEventInv.v ===== *)
(** * LWIS: every operation on events keeps the invariant of the device

    Control, dequeue, clearing, emission: each returns, and leaves the queues of
    the clients within their bounds and their transactions as they must be. *)

From S2P Require Import Prelude LwisIoEntry LwisProcess LwisProcessProps LwisTransaction.
From S2P Require Import LwisClientInv LwisClientProps LwisEvent LwisEventProps.

Section EventInv.
Context {F D : Type} `{lwis_vops D} `{lwis_fences F} `{lwis_event_ops D} (cfg : config).
Implicit Types (c : event_client F D) (dev : device F D).










(** ** Control *)









(** ** Every operation *)









Context (Hw : 0 <= native_value_bitwidth cfg).
Context (Hreads : lwis_reads (native_value_bitwidth cfg)) (Hclock : lwis_clock _).
Context (Hnew : ∀ o : gmap Z object, o !! new_address cfg o = None).








End EventInv.


(** ** Witness *)

#[local] Existing Instance demo_vops.
#[local] Existing Instance LwisClientProps.no_fences.
#[local] Existing Instance quiet_ops.


