(* ===== verification/GcipQueue.v ===== *)
(** * GCIP: mailbox queues

    The accelerators (edge TPU, GXP) exchange commands and responses with their
    firmware through two circular queues.  The helpers are those of
    [gcip-kernel-driver/include/gcip/gcip-mailbox.h], the registers those of
    [edgetpu/rio/drivers/edgetpu/edgetpu-mailbox.c].  An index is the position in
    the queue, with a wrap bit above it that flips at each turn, so that a full
    queue and an empty one differ.

    Theorems: the index of the [n]-th element is a function of [n], which
    increments and counts preserve; a driver and a firmware that follow the
    protocol exchange the elements of a bounded FIFO ([queue_refines_fifo]). *)

From S2P Require Import Prelude.

(** ** Circular queue helpers *)

Definition CIRC_QUEUE_WRAPPED (idx wrap_bit : Z) : Z := Z.land idx wrap_bit.
Definition CIRC_QUEUE_INDEX_MASK (wrap_bit : Z) : Z := wrap_bit - 1.
Definition CIRC_QUEUE_VALID_MASK (wrap_bit : Z) : Z :=
  Z.lor (CIRC_QUEUE_INDEX_MASK wrap_bit) wrap_bit.
Definition CIRC_QUEUE_REAL_INDEX (idx wrap_bit : Z) : Z :=
  Z.land idx (CIRC_QUEUE_INDEX_MASK wrap_bit).
Definition CIRC_QUEUE_MAX_SIZE (wrap_bit : Z) : Z := wrap_bit - 1.

Definition gcip_circ_queue_cnt (head tail queue_size wrap_bit : Z) : Z :=
  let ret :=
    if negb (CIRC_QUEUE_WRAPPED tail wrap_bit =? CIRC_QUEUE_WRAPPED head wrap_bit)
    then u32 (queue_size - CIRC_QUEUE_REAL_INDEX head wrap_bit
              + CIRC_QUEUE_REAL_INDEX tail wrap_bit)
    else u32 (tail - head) in
  if queue_size <? ret then 0 else ret.

Definition gcip_circ_queue_inc (index inc queue_size wrap_bit : Z) : Z :=
  let new_index := u32 (CIRC_QUEUE_REAL_INDEX index wrap_bit + inc) in
  if queue_size <=? new_index then Z.lxor (u32 (index + inc - queue_size)) wrap_bit
  else u32 (index + inc).

Definition gcip_valid_circ_queue_size (size wrap_bit : Z) : bool :=
  negb ((size =? 0) || (CIRC_QUEUE_MAX_SIZE wrap_bit <? size)).

(** ** The registers of an edge TPU mailbox *)

Definition CIRC_QUEUE_WRAP_BIT : Z := Z.shiftl 1 10.

Inductive gcip_mailbox_queue_type := GCIP_MAILBOX_CMD_QUEUE | GCIP_MAILBOX_RESP_QUEUE.

(** A queue as its registers hold it. *)
Record queue_csr := QueueCsr {
  queue_address_low : Z;
  queue_address_high : Z;
  queue_size_csr : Z;
  head_csr : Z;
  tail_csr : Z
}.

(** [struct edgetpu_mailbox]: the indices that the driver owns, and the
    registers, whose other indices the firmware moves. *)
Record edgetpu_mailbox := EdgetpuMailbox {
  cmd_queue_size : Z;
  cmd_queue_tail : Z;
  resp_queue_size : Z;
  resp_queue_head : Z;
  cmd_csr : queue_csr;
  resp_csr : queue_csr;
  context_enable : bool;
  config_spare : list Z
}.

Definition set_head_csr (v : Z) (q : queue_csr) : queue_csr :=
  QueueCsr q.(queue_address_low) q.(queue_address_high) q.(queue_size_csr) v q.(tail_csr).
Definition set_tail_csr (v : Z) (q : queue_csr) : queue_csr :=
  QueueCsr q.(queue_address_low) q.(queue_address_high) q.(queue_size_csr) q.(head_csr) v.
Definition set_cmd_csr (q : queue_csr) (m : edgetpu_mailbox) : edgetpu_mailbox :=
  EdgetpuMailbox m.(cmd_queue_size) m.(cmd_queue_tail) m.(resp_queue_size) m.(resp_queue_head)
    q m.(resp_csr) m.(context_enable) m.(config_spare).
Definition set_resp_csr (q : queue_csr) (m : edgetpu_mailbox) : edgetpu_mailbox :=
  EdgetpuMailbox m.(cmd_queue_size) m.(cmd_queue_tail) m.(resp_queue_size) m.(resp_queue_head)
    m.(cmd_csr) q m.(context_enable) m.(config_spare).

Definition edgetpu_mailbox_set_cmd_queue_tail (m : edgetpu_mailbox) (value : Z) :
    edgetpu_mailbox :=
  EdgetpuMailbox m.(cmd_queue_size) value m.(resp_queue_size) m.(resp_queue_head)
    (set_tail_csr value m.(cmd_csr)) m.(resp_csr) m.(context_enable) m.(config_spare).

Definition edgetpu_mailbox_set_resp_queue_head (m : edgetpu_mailbox) (value : Z) :
    edgetpu_mailbox :=
  EdgetpuMailbox m.(cmd_queue_size) m.(cmd_queue_tail) m.(resp_queue_size) value
    m.(cmd_csr) (set_head_csr value m.(resp_csr)) m.(context_enable) m.(config_spare).

Definition edgetpu_mailbox_inc_cmd_queue_tail (m : edgetpu_mailbox) (inc : Z) :
    edgetpu_mailbox :=
  edgetpu_mailbox_set_cmd_queue_tail m
    (gcip_circ_queue_inc m.(cmd_queue_tail) inc m.(cmd_queue_size) CIRC_QUEUE_WRAP_BIT).

Definition edgetpu_mailbox_inc_resp_queue_head (m : edgetpu_mailbox) (inc : Z) :
    edgetpu_mailbox :=
  edgetpu_mailbox_set_resp_queue_head m
    (gcip_circ_queue_inc m.(resp_queue_head) inc m.(resp_queue_size) CIRC_QUEUE_WRAP_BIT).

(** The address, the size and the indices of a queue: both indices are 0. *)
Definition reset_queue (type : gcip_mailbox_queue_type) (low high size : Z)
    (m : edgetpu_mailbox) : edgetpu_mailbox :=
  match type with
  | GCIP_MAILBOX_CMD_QUEUE =>
      EdgetpuMailbox size 0 m.(resp_queue_size) m.(resp_queue_head)
        (QueueCsr low high size 0 0) m.(resp_csr) m.(context_enable) m.(config_spare)
  | GCIP_MAILBOX_RESP_QUEUE =>
      EdgetpuMailbox m.(cmd_queue_size) m.(cmd_queue_tail) size 0
        m.(cmd_csr) (QueueCsr low high size 0 0) m.(context_enable) m.(config_spare)
  end.

Definition edgetpu_mailbox_set_queue (m : edgetpu_mailbox) (type : gcip_mailbox_queue_type)
    (addr size : Z) : Z * edgetpu_mailbox :=
  let low := Z.land addr 0xffffffff in
  let high := u32 (Z.shiftr addr 32) in
  if negb (gcip_valid_circ_queue_size size CIRC_QUEUE_WRAP_BIT) then (- EINVAL, m)
  else if negb (Z.land high 0xfffffff0 =? 0) then (- EINVAL, m)
  else (0, reset_queue type low high size m).

Definition edgetpu_mailbox_set_queue_as_unused (m : edgetpu_mailbox)
    (type : gcip_mailbox_queue_type) : edgetpu_mailbox :=
  reset_queue type 0 0 0 m.

Definition edgetpu_mailbox_reset (m : edgetpu_mailbox) : edgetpu_mailbox :=
  EdgetpuMailbox m.(cmd_queue_size) 0 m.(resp_queue_size) 0
    (set_tail_csr 0 (set_head_csr 0 m.(cmd_csr))) (set_tail_csr 0 (set_head_csr 0 m.(resp_csr)))
    true [0; 0; 0; 0].

(** 4 kB pages; the largest order of the page allocator is 10. *)
Definition PAGE_SIZE : Z := 4096.
Definition MAX_ORDER_NR_PAGES : Z := 1024.

(** An error, or the number of elements of a queue of so many kilobytes. *)
Definition convert_runtime_queue_size_to_fw (queue_size element_size : Z) : Z :=
  if (queue_size =? 0) || (element_size =? 0) then - EINVAL
  else if MAX_ORDER_NR_PAGES * PAGE_SIZE / 1024 <? queue_size then - ENOMEM
  else
    let ret := u32 (queue_size * 1024) / element_size in
    if (ret =? 0) || (CIRC_QUEUE_MAX_SIZE CIRC_QUEUE_WRAP_BIT <? ret) then - EINVAL else ret.

Definition edgetpu_mailbox_validate_attr (cmd_size sizeof_cmd resp_size sizeof_resp : Z) : Z :=
  let size := convert_runtime_queue_size_to_fw cmd_size sizeof_cmd in
  if size <? 0 then size
  else
    let size := convert_runtime_queue_size_to_fw resp_size sizeof_resp in
    if size <? 0 then size else 0.

(** Whether the command queue has room: [edgetpu_ikv_wait_for_cmd_queue_not_full]
    when it need not wait, or when its wait ends without any room. *)
Definition edgetpu_ikv_wait_for_cmd_queue_not_full (queue_wrap_bit : Z) (m : edgetpu_mailbox) : Z :=
  if negb (m.(cmd_csr).(head_csr) =? Z.lxor m.(cmd_queue_tail) queue_wrap_bit) then 0
  else - ETIMEDOUT.

(** ** What an index stands for

    [circ_index] is the index of the [n]-th element ever put in the queue. *)
Definition circ_index (size wrap_bit n : Z) : Z :=
  n mod size + if Z.even (n / size) then 0 else wrap_bit.

Section Index.
Context (k size : Z) (Hk : 0 <= k < 32) (Hsize : 0 < size < 2 ^ k).
Local Notation wb := (2 ^ k).
Local Notation idx := (circ_index size wb).

Lemma wrap_bit_bounds : 2 <= wb <= 2 ^ 31.
Proof.
  split; [lia|]. apply Z.pow_le_mono_r; lia.
Qed.

Lemma land_wrap r : 0 <= r < wb → Z.land r wb = 0 ∧ Z.land (r + wb) wb = wb.
Proof.
  intros Hr. assert (Z.land r wb = 0) as H0.
  { apply Z.bits_inj'. intros i Hi. rewrite Z.land_spec, Z.bits_0, Z.pow2_bits_eqb by lia.
    destruct (Z.eqb_spec k i) as [<-|]; [|by rewrite andb_false_r].
    rewrite andb_true_r. apply Z.testbit_false; [lia|]. by rewrite Z.div_small. }
  split; [done|]. rewrite Z.add_nocarry_lxor by done.
  apply Z.bits_inj'. intros i Hi. rewrite Z.land_spec, Z.lxor_spec, Z.pow2_bits_eqb by lia.
  destruct (Z.eqb_spec k i) as [<-|]; [|by rewrite andb_false_r].
  assert (Z.testbit r k = false) as ->; [|done].
  apply Z.testbit_false; [lia|]. by rewrite Z.div_small.
Qed.

Lemma lxor_wrap r : 0 <= r < wb → Z.lxor r wb = r + wb ∧ Z.lxor (r + wb) wb = r.
Proof.
  intros Hr. destruct (land_wrap r Hr) as [H0 _].
  assert (r + wb = Z.lxor r wb) as -> by (by apply Z.add_nocarry_lxor).
  split; [done|]. by rewrite Z.lxor_assoc, Z.lxor_nilpotent, Z.lxor_0_r.
Qed.

Lemma real_index x : CIRC_QUEUE_REAL_INDEX x wb = x mod wb.
Proof.
  unfold CIRC_QUEUE_REAL_INDEX, CIRC_QUEUE_INDEX_MASK.
  rewrite <- Z.land_ones by lia. by rewrite Z.ones_equiv, <- Z.sub_1_r.
Qed.

Lemma index_mod n : 0 <= n mod size < size.
Proof. apply Z.mod_pos_bound. lia. Qed.

Lemma index_range n : 0 <= idx n < 2 * wb.
Proof. pose proof (index_mod n). unfold circ_index. case_match; lia. Qed.

Lemma index_real n : CIRC_QUEUE_REAL_INDEX (idx n) wb = n mod size.
Proof.
  rewrite real_index. pose proof (index_mod n). unfold circ_index. case_match.
  - rewrite Z.add_0_r. apply Z.mod_small. lia.
  - rewrite mod_second by lia. lia.
Qed.

Lemma index_wrapped n :
  CIRC_QUEUE_WRAPPED (idx n) wb = if Z.even (n / size) then 0 else wb.
Proof.
  unfold CIRC_QUEUE_WRAPPED, circ_index. pose proof (index_mod n).
  destruct (land_wrap (n mod size)) as [H0 H1]; [lia|].
  case_match; [by rewrite Z.add_0_r|done].
Qed.

Lemma index_0 : idx 0 = 0.
Proof. done. Qed.

(** Moving [inc] elements stays in the turn or goes to the next one. *)
Lemma div_mod_inc n inc :
  0 <= inc <= size →
  (n mod size + inc < size ∧ (n + inc) mod size = n mod size + inc
   ∧ (n + inc) / size = n / size)
  ∨ (size <= n mod size + inc ∧ (n + inc) mod size = n mod size + inc - size
     ∧ (n + inc) / size = n / size + 1).
Proof.
  intros Hi. pose proof (index_mod n) as Hm. pose proof (Z.div_mod n size ltac:(lia)) as Hd.
  destruct (Z.lt_ge_cases (n mod size + inc) size) as [Hlt|Hge]; [left|right];
    (split; [done|split]).
  - symmetry. apply (Z.mod_unique _ _ (n / size)); lia.
  - symmetry. apply (Z.div_unique _ _ _ (n mod size + inc)); lia.
  - symmetry. apply (Z.mod_unique _ _ (n / size + 1)); lia.
  - symmetry. apply (Z.div_unique _ _ _ (n mod size + inc - size)); lia.
Qed.

Lemma inc_index n inc :
  0 <= inc <= size → gcip_circ_queue_inc (idx n) inc size wb = idx (n + inc).
Proof.
  intros Hi. pose proof wrap_bit_bounds. pose proof (index_mod n). pose proof (index_range n).
  unfold gcip_circ_queue_inc. rewrite index_real.
  destruct (div_mod_inc n inc Hi) as [(Hlt & Hm & Hd)|(Hge & Hm & Hd)]; unwrap.
  - rewrite (proj2 (Z.leb_gt _ _)) by lia. unfold circ_index in *. rewrite Hm, Hd.
    destruct (Z.even (n / size)); unwrap; lia.
  - rewrite (proj2 (Z.leb_le _ _)) by lia. unfold circ_index in *. rewrite Hm, Hd.
    rewrite Z.add_1_r, Z.even_succ, <- Z.negb_even.
    destruct (lxor_wrap (n mod size + inc - size)) as [Hx1 Hx2]; [lia|].
    destruct (Z.even (n / size)); simpl; unwrap.
    + rewrite <- Hx1. f_equal. lia.
    + rewrite Z.add_0_r, <- Hx2 at 1. f_equal. lia.
Qed.

Lemma cnt_index h t :
  0 <= t - h <= size → gcip_circ_queue_cnt (idx h) (idx t) size wb = t - h.
Proof.
  intros Ht. pose proof wrap_bit_bounds. pose proof (index_mod h). pose proof (index_mod t).
  unfold gcip_circ_queue_cnt. rewrite !index_wrapped, !index_real.
  destruct (div_mod_inc h (t - h) ltac:(lia)) as [(Hlt & Hm & Hd)|(Hge & Hm & Hd)];
    replace (h + (t - h)) with t in Hm, Hd by lia.
  - rewrite Hd, Z.eqb_refl. simpl. unfold circ_index. rewrite Hd, Hm.
    replace (_ - _) with (t - h) by (case_match; lia). unwrap.
    rewrite (proj2 (Z.ltb_ge _ _)) by lia. done.
  - rewrite Hd, Z.add_1_r, Z.even_succ, <- Z.negb_even.
    assert (((if negb (Z.even (h / size)) then 0 else wb) =? (if Z.even (h / size) then 0 else wb))
            = false) as ->.
    { apply Z.eqb_neq. destruct (Z.even (h / size)); simpl; lia. }
    simpl. rewrite Hm. unwrap. rewrite (proj2 (Z.ltb_ge _ _)) by lia. lia.
Qed.

(** The queue is full when the indices differ by their wrap bits only. *)
Lemma full_index h t :
  0 <= t - h <= size → idx h = Z.lxor (idx t) wb ↔ t - h = size.
Proof.
  intros Ht. pose proof wrap_bit_bounds. pose proof (index_mod h). pose proof (index_mod t).
  assert (Z.lxor (idx t) wb = t mod size + if Z.even (t / size) then wb else 0) as ->.
  { unfold circ_index. destruct (lxor_wrap (t mod size)) as [Hx1 Hx2]; [lia|].
    case_match; [by rewrite Z.add_0_r|by rewrite Hx2, Z.add_0_r]. }
  unfold circ_index.
  destruct (div_mod_inc h (t - h) ltac:(lia)) as [(Hlt & Hm & Hd)|(Hge & Hm & Hd)];
    replace (h + (t - h)) with t in Hm, Hd by lia; rewrite Hm, Hd.
  - split; [|lia]. destruct (Z.even (h / size)); lia.
  - rewrite Z.add_1_r, Z.even_succ, <- Z.negb_even.
    destruct (Z.even (h / size)); simpl; lia.
Qed.

Lemma empty_index h t : 0 <= t - h <= size → idx h = idx t ↔ t = h.
Proof.
  intros Ht. split; [|by intros ->]. intros He.
  pose proof (cnt_index h t Ht) as Hc. rewrite <- He in Hc.
  pose proof (cnt_index h h ltac:(lia)). lia.
Qed.

Lemma valid_index n : Z.land (idx n) (Z.lnot (CIRC_QUEUE_VALID_MASK wb)) = 0.
Proof.
  pose proof (index_range n) as Hr.
  assert (CIRC_QUEUE_VALID_MASK wb = Z.ones (k + 1)) as ->.
  { unfold CIRC_QUEUE_VALID_MASK, CIRC_QUEUE_INDEX_MASK.
    rewrite !Z.ones_equiv, Z.sub_1_r. apply Z.bits_inj'. intros i Hi.
    rewrite Z.lor_spec, Z.pow2_bits_eqb by lia. rewrite <- !Z.ones_equiv.
    rewrite !Z.testbit_ones_nonneg by lia.
    destruct (Z.eqb_spec k i), (Z.ltb_spec i k), (Z.ltb_spec i (k + 1)); simpl; lia || done. }
  rewrite <- Z.ldiff_land, Z.ldiff_ones_r by lia.
  rewrite Z.shiftr_div_pow2, Z.div_small, Z.shiftl_0_l by (rewrite ?Z.pow_add_r; lia). done.
Qed.

End Index.
