(* ===== verification/GcipMailbox.v ===== *)
(** * GCIP: mailboxes

    Model of [gcip-kernel-driver/drivers/gcip/gcip-mailbox.c]: commands are put
    in the transmit queue with, if a response is wanted, an entry in the list of
    waiters; responses fetched from the receive queue are handed to the waiter
    they match.  A synchronous command waits on its own stack; an asynchronous one
    has a reference-counted awaiter, which a response, a timeout, a cancellation
    and the release of the mailbox race for.

    A function that other threads can run in the middle of is a list of [op]s,
    each of them what the code does under one lock or in one atomic access; a
    thread is the list it has left, and [step] runs one [op] of any thread, so
    that a sequence of [move]s is an interleaving.  The response buffer of a
    waiter lives as long as its stack frame or awaiter, which owns it. *)

From S2P Require Import Prelude.
From S2P Require Import GcipQueue.

Definition GCIP_MAILBOX_MODE_TX_CMD : Z := 1.
Definition GCIP_MAILBOX_MODE_RX_RSP : Z := 2.
Definition GCIP_MAILBOX_MODE_RX_CMD : Z := 4.
Definition GCIP_MAILBOX_MODE_TX_RSP : Z := 8.
Definition GCIP_MAILBOX_MODE_SEQ_EXTERNAL : Z := 16.

(** [mode & flag] *)
Definition mode_has (mode flag : Z) : bool := negb (Z.land mode flag =? 0).

Definition should_maintain_seq_num (mode : Z) : bool :=
  if mode_has mode GCIP_MAILBOX_MODE_SEQ_EXTERNAL then false
  else mode_has mode GCIP_MAILBOX_MODE_TX_CMD && mode_has mode GCIP_MAILBOX_MODE_RX_RSP.

(** [struct gcip_mailbox_ops], for commands [C] and responses [R] and the state
    [H] of its user (registers, fences, queues of responses).  The locks of the
    queues are not operations but part of the model; [has_memory] is whether
    [kzalloc] of an entry succeeds, which is up to the rest of the system. *)
Class gcip_mailbox_ops (C R H : Type) := {
  get_tx_queue_tail : H → Z;
  inc_tx_queue_tail : Z → H → H;
  wait_for_tx_queue_not_full : H → Z;
  get_cmd_elem_seq : C → Z;
  set_cmd_elem_seq : Z → C → C;
  get_rx_queue_size : H → Z;
  get_rx_queue_head : H → Z;
  inc_rx_queue_head : Z → H → H;
  get_resp_elem_seq : R → Z;
  set_resp_elem_seq : Z → R → R;
  is_rx_elem_reversed : option (R → bool);
  handle_reversed_command : R → H → H;
  has_memory : H → bool;
  before_enqueue_wait_list : option (R → option nat → H → Z * H);
  after_enqueue_cmd : option (C → H → Z * H);
  after_fetch_resps : option (Z → H → H);
  handle_awaiter_arrived : option (nat → option R → H → H);
  handle_awaiter_timedout : option (nat → option R → H → H);
  handle_awaiter_flushed : option (nat → option R → H → H);
  release_awaiter_data : option (nat → H → H);
  is_block_off : option (H → bool);
  on_error : option (Z → H → H);
  op_does_response_match_waiter : option (R → R → bool)
}.

(** [struct gcip_mailbox_async_resp]; no buffer is [None]. *)
Record async_resp (R : Type) := AsyncResp { waiting : bool; resp : option R }.
Arguments AsyncResp {R}.
Arguments waiting {R}.
Arguments resp {R}.

(** A delayed work: not queued, its timer armed, its function running. *)
Inductive delayed_work := WorkIdle | WorkPending | WorkRunning.
#[global] Instance delayed_work_eq_dec : EqDecision delayed_work.
Proof. solve_decision. Defined.

(** [struct gcip_mailbox_resp_awaiter] *)
Record resp_awaiter (R : Type) := RespAwaiter {
  aw_async_resp : async_resp R;
  timeout_work : delayed_work;
  kref : Z;
  handled : bool
}.
Arguments RespAwaiter {R}.
Arguments aw_async_resp {R}.
Arguments timeout_work {R}.
Arguments kref {R}.
Arguments handled {R}.

(** A pointer to a [struct gcip_mailbox_async_resp]: on the stack of a thread or
    in an awaiter. *)
Inductive async_ref := OnStack (t : nat) | InAwaiter (a : nat).
#[global] Instance async_ref_eq_dec : EqDecision async_ref.
Proof. solve_decision. Defined.

(** [struct gcip_mailbox_wait_list_elem] *)
Record wait_list_elem := WaitListElem { we_async_resp : async_ref; we_awaiter : option nat }.
#[global] Instance wait_list_elem_eq_dec : EqDecision wait_list_elem.
Proof. solve_decision. Defined.

(** What a thread still has to do, each in one go. *)
Inductive op (C R : Type) :=
| Enqueue (cmd : C) (dst : async_ref)
| Enqueue_copy (cmd : C) (dst : async_ref)
| Send_wait (t : nat)
| Send_del (t : nat)
| Send_return (t : nat) (ret : Z)
| Put_cmd_return (a : nat)
| Free_awaiter (a : nat)
| Rx_elem (r : R)
| Cancel_timeout_work (a : nat)
| Cancel_timeout_work_sync (a : nat)
| Awaiter_arrived (a : nat)
| Awaiter_timedout (a : nat)
| Complete_all (a : nat)
| Awaiter_put (a : nat)
| Timeout_del (a : nat)
| Timeout_put (a : nat)
| Cancel_del (a : nat)
| Cancel_wait (a : nat)
| Cancel_return (a : nat) (removed : bool)
| Awaiter_flushed (a : nat).
Arguments Enqueue {C R}.
Arguments Enqueue_copy {C R}.
Arguments Send_wait {C R}.
Arguments Send_del {C R}.
Arguments Send_return {C R}.
Arguments Put_cmd_return {C R}.
Arguments Free_awaiter {C R}.
Arguments Rx_elem {C R}.
Arguments Cancel_timeout_work {C R}.
Arguments Cancel_timeout_work_sync {C R}.
Arguments Awaiter_arrived {C R}.
Arguments Awaiter_timedout {C R}.
Arguments Complete_all {C R}.
Arguments Awaiter_put {C R}.
Arguments Timeout_del {C R}.
Arguments Timeout_put {C R}.
Arguments Cancel_del {C R}.
Arguments Cancel_wait {C R}.
Arguments Cancel_return {C R}.
Arguments Awaiter_flushed {C R}.

(** What the firmware and the users of the mailbox see. *)
Inductive outcome_event (C R : Type) :=
| Queued (cmd : C) (d : async_ref)
| Submitted (a : nat)
| Rejected (a : nat)
| Arrived (a : nat)
| Timedout (a : nat)
| Cancelled (a : nat) (removed : bool)
| Flushed (a : nat)
| Sent (t : nat) (ret : Z) (r : option R).
Arguments Queued {C R}.
Arguments Submitted {C R}.
Arguments Rejected {C R}.
Arguments Arrived {C R}.
Arguments Timedout {C R}.
Arguments Cancelled {C R}.
Arguments Flushed {C R}.
Arguments Sent {C R}.

(** [struct gcip_mailbox] with the memory it points to: the transmit queue, the
    awaiters allocated, the frames of the threads in [gcip_mailbox_send_cmd].
    [owned] are the awaiters of which the user holds its reference. *)
Record gcip_mailbox (C R H : Type) := GcipMailbox {
  mode : Z;
  queue_wrap_bit : Z;
  cur_seq : Z;
  tx_queue : list C;
  tx_queue_lock : option nat;
  wait_list : list wait_list_elem;
  awaiters : gmap nat (resp_awaiter R);
  frames : gmap nat (async_resp R);
  user : H;
  owned : gset nat;
  trace : list (outcome_event C R)
}.
Arguments GcipMailbox {C R H}.
Arguments mode {C R H}.
Arguments queue_wrap_bit {C R H}.
Arguments cur_seq {C R H}.
Arguments tx_queue {C R H}.
Arguments tx_queue_lock {C R H}.
Arguments wait_list {C R H}.
Arguments awaiters {C R H}.
Arguments frames {C R H}.
Arguments user {C R H}.
Arguments owned {C R H}.
Arguments trace {C R H}.

Section Setters.
Context {C R H : Type}.
Implicit Types m : gcip_mailbox C R H.

Definition set_cur_seq v m : gcip_mailbox C R H :=
  GcipMailbox m.(mode) m.(queue_wrap_bit) v m.(tx_queue) m.(tx_queue_lock) m.(wait_list)
    m.(awaiters) m.(frames) m.(user) m.(owned) m.(trace).
Definition set_tx_queue v m : gcip_mailbox C R H :=
  GcipMailbox m.(mode) m.(queue_wrap_bit) m.(cur_seq) v m.(tx_queue_lock) m.(wait_list)
    m.(awaiters) m.(frames) m.(user) m.(owned) m.(trace).
Definition set_tx_queue_lock v m : gcip_mailbox C R H :=
  GcipMailbox m.(mode) m.(queue_wrap_bit) m.(cur_seq) m.(tx_queue) v m.(wait_list)
    m.(awaiters) m.(frames) m.(user) m.(owned) m.(trace).
Definition set_wait_list v m : gcip_mailbox C R H :=
  GcipMailbox m.(mode) m.(queue_wrap_bit) m.(cur_seq) m.(tx_queue) m.(tx_queue_lock) v
    m.(awaiters) m.(frames) m.(user) m.(owned) m.(trace).
Definition set_awaiters v m : gcip_mailbox C R H :=
  GcipMailbox m.(mode) m.(queue_wrap_bit) m.(cur_seq) m.(tx_queue) m.(tx_queue_lock)
    m.(wait_list) v m.(frames) m.(user) m.(owned) m.(trace).
Definition set_frames v m : gcip_mailbox C R H :=
  GcipMailbox m.(mode) m.(queue_wrap_bit) m.(cur_seq) m.(tx_queue) m.(tx_queue_lock)
    m.(wait_list) m.(awaiters) v m.(user) m.(owned) m.(trace).
Definition set_user v m : gcip_mailbox C R H :=
  GcipMailbox m.(mode) m.(queue_wrap_bit) m.(cur_seq) m.(tx_queue) m.(tx_queue_lock)
    m.(wait_list) m.(awaiters) m.(frames) v m.(owned) m.(trace).
Definition set_owned v m : gcip_mailbox C R H :=
  GcipMailbox m.(mode) m.(queue_wrap_bit) m.(cur_seq) m.(tx_queue) m.(tx_queue_lock)
    m.(wait_list) m.(awaiters) m.(frames) m.(user) v m.(trace).
Definition log e m : gcip_mailbox C R H :=
  GcipMailbox m.(mode) m.(queue_wrap_bit) m.(cur_seq) m.(tx_queue) m.(tx_queue_lock)
    m.(wait_list) m.(awaiters) m.(frames) m.(user) m.(owned) (m.(trace) ++ [e]).

End Setters.

Definition set_aw_async_resp {R} (r : async_resp R) (w : resp_awaiter R) : resp_awaiter R :=
  RespAwaiter r w.(timeout_work) w.(kref) w.(handled).
Definition set_timeout_work {R} (k : delayed_work) (w : resp_awaiter R) : resp_awaiter R :=
  RespAwaiter w.(aw_async_resp) k w.(kref) w.(handled).
Definition set_kref {R} (k : Z) (w : resp_awaiter R) : resp_awaiter R :=
  RespAwaiter w.(aw_async_resp) w.(timeout_work) k w.(handled).
Definition set_handled {R} (w : resp_awaiter R) : resp_awaiter R :=
  RespAwaiter w.(aw_async_resp) w.(timeout_work) w.(kref) true.

Section Mailbox.
Context {C R H : Type} {ops : gcip_mailbox_ops C R H}.
Local Notation mailbox := (gcip_mailbox C R H).
Local Notation op := (op C R).
Implicit Types m : mailbox.

(** An optional callback on the user's state. *)
Definition call (cb : option (H → H)) m : mailbox :=
  match cb with Some f => set_user (f m.(user)) m | None => m end.

(** An optional callback that may fail. *)
Definition try_call (cb : option (H → Z * H)) m : Z * mailbox :=
  match cb with
  | Some f => let '(ret, h) := f m.(user) in (ret, set_user h m)
  | None => (0, m)
  end.

(** ** Memory *)

Definition deref (d : async_ref) m : option (async_resp R) :=
  match d with
  | OnStack t => m.(frames) !! t
  | InAwaiter a => aw_async_resp <$> m.(awaiters) !! a
  end.

Definition store (d : async_ref) (r : async_resp R) m : mailbox :=
  match d with
  | OnStack t => set_frames (<[t := r]> m.(frames)) m
  | InAwaiter a => set_awaiters (alter (set_aw_async_resp r) a m.(awaiters)) m
  end.

(** [kfree]: a timer must not be armed in memory that is freed. *)
Definition kfree_awaiter (a : nat) m : outcome mailbox :=
  w ← must (m.(awaiters) !! a);
  if decide (w.(timeout_work) = WorkPending) then Undef
  else Ok (set_awaiters (delete a m.(awaiters)) m).

Definition gcip_mailbox_awaiter_destroy (a : nat) m : outcome mailbox :=
  kfree_awaiter a (call (release_awaiter_data ≫= λ f, Some (f a)) m).

Definition gcip_mailbox_awaiter_get (a : nat) m : outcome mailbox :=
  w ← must (m.(awaiters) !! a);
  Ok (set_awaiters (<[a := set_kref (w.(kref) + 1) w]> m.(awaiters)) m).

Definition gcip_mailbox_awaiter_put (a : nat) m : outcome mailbox :=
  w ← must (m.(awaiters) !! a);
  let m := set_awaiters (<[a := set_kref (w.(kref) - 1) w]> m.(awaiters)) m in
  if w.(kref) - 1 =? 0 then gcip_mailbox_awaiter_destroy a m else Ok m.

(** The awaiter as [gcip_mailbox_awaiter_create] returns it. *)
Definition gcip_mailbox_awaiter_create (r : option R) : resp_awaiter R :=
  RespAwaiter (AsyncResp false r) WorkIdle 1 false.

(** ** The list of waiters *)

(** The comparison of two packets reads both: there must be two. *)
Definition does_response_match_waiter (incoming_resp waiting_resp : option R) : outcome bool :=
  i ← must incoming_resp;
  w ← must waiting_resp;
  Ok (match op_does_response_match_waiter with
      | Some f => f i w
      | None => get_resp_elem_seq i =? get_resp_elem_seq w
      end).

(** The first entry that matches a response, and the list without it. *)
Fixpoint find_waiter m (r : option R) (l : list wait_list_elem) :
    outcome (option (wait_list_elem * list wait_list_elem)) :=
  match l with
  | [] => Ok None
  | cur :: l =>
      w ← must (deref cur.(we_async_resp) m);
      b ← does_response_match_waiter r w.(resp);
      if (b : bool) then Ok (Some (cur, l))
      else
        o ← find_waiter m r l;
        Ok (match o with Some (e, l') => Some (e, cur :: l') | None => None end)
  end.

Definition gcip_mailbox_del_wait_resp (d : async_ref) m : outcome (bool * mailbox) :=
  w ← must (deref d m);
  o ← find_waiter m w.(resp) m.(wait_list);
  match o with
  | None => Ok (false, m)
  | Some (cur, l) =>
      let m := set_wait_list l m in
      m ← match cur.(we_awaiter) with Some a => gcip_mailbox_awaiter_put a m | None => Ok m end;
      Ok (true, m)
  end.

Definition gcip_mailbox_push_wait_resp (d : async_ref) (awaiter : option nat) m :
    outcome (Z * mailbox) :=
  w ← must (deref d m);
  r ← must w.(resp);
  if negb (has_memory m.(user)) then Ok (- ENOMEM, m)
  else
    let '(ret, m) := try_call (before_enqueue_wait_list ≫= λ f, Some (f r awaiter)) m in
    if negb (ret =? 0) then Ok (ret, m)
    else
      m ← match awaiter with Some a => gcip_mailbox_awaiter_get a m | None => Ok m end;
      Ok (0, set_wait_list (m.(wait_list) ++ [WaitListElem d awaiter]) m).

(** ** Sending commands *)

Definition awaiter_of (d : async_ref) : option nat :=
  match d with OnStack _ => None | InAwaiter a => Some a end.

(** What the callers of [gcip_mailbox_enqueue_cmd] do when it fails: return from
    [gcip_mailbox_send_cmd], or free the awaiter in [gcip_mailbox_put_cmd_flags]. *)
Definition enqueue_failed (d : async_ref) (ret : Z) : list op :=
  match d with
  | OnStack t => [Send_return t ret]
  | InAwaiter a => [Cancel_timeout_work_sync a; Free_awaiter a]
  end.

(** What they do when it succeeds. *)
Definition enqueued (d : async_ref) (r : option R) : list op :=
  match d, r with
  | OnStack t, None => [Send_return t 0]
  | OnStack t, Some _ => [Send_wait t]
  | InAwaiter a, _ => [Put_cmd_return a]
  end.

(** [gcip_mailbox_enqueue_cmd] up to the copy of the command: the entry in the
    list of waiters can be found from then on.  The lock stays taken, unless the
    function fails. *)
Definition gcip_mailbox_enqueue_cmd (i : nat) (cmd : C) (d : async_ref) m :
    outcome (list op * mailbox) :=
  match m.(tx_queue_lock) with
  | Some _ => Blocked
  | None =>
      let cmd := if should_maintain_seq_num m.(mode)
                 then set_cmd_elem_seq m.(cur_seq) cmd else cmd in
      let ret := wait_for_tx_queue_not_full m.(user) in
      if negb (ret =? 0) then Ok (enqueue_failed d ret, m)
      else
        w ← must (deref d m);
        match w.(resp) with
        | None => Ok ([Enqueue_copy cmd d], set_tx_queue_lock (Some i) m)
        | Some r =>
            let r := set_resp_elem_seq (get_cmd_elem_seq cmd) r in
            '(ret, m) ← gcip_mailbox_push_wait_resp d (awaiter_of d)
                          (store d (AsyncResp true (Some r)) m);
            Ok (if negb (ret =? 0) then (enqueue_failed d ret, m)
                else ([Enqueue_copy cmd d], set_tx_queue_lock (Some i) m))
        end
  end.

(** The rest of [gcip_mailbox_enqueue_cmd]: a write past the queue is undefined. *)
Definition enqueue_copy (cmd : C) (d : async_ref) m : outcome (list op * mailbox) :=
  let idx := CIRC_QUEUE_REAL_INDEX (get_tx_queue_tail m.(user)) m.(queue_wrap_bit) in
  if decide (0 <= idx < Z.of_nat (length m.(tx_queue))) then
    let m := log (Queued cmd d) (set_tx_queue (<[Z.to_nat idx := cmd]> m.(tx_queue)) m) in
    let m := set_user (inc_tx_queue_tail 1 m.(user)) m in
    let '(ret, m) := try_call (after_enqueue_cmd ≫= λ f, Some (f cmd)) m in
    if negb (ret =? 0) then Ok (enqueue_failed d ret, set_tx_queue_lock None m)
    else
      let m := if should_maintain_seq_num m.(mode)
               then set_cur_seq (u64 (m.(cur_seq) + 1)) m else m in
      w ← must (deref d m);
      Ok (enqueued d w.(resp), set_tx_queue_lock None m)
  else Undef.

(** The end of [gcip_mailbox_send_cmd], whose frame is popped. *)
Definition send_return (t : nat) (ret : Z) m : outcome (list op * mailbox) :=
  w ← must (m.(frames) !! t);
  let m := if negb (ret =? 0) then call (on_error ≫= λ f, Some (f ret)) m else m in
  Ok ([], log (Sent t ret w.(resp)) (set_frames (delete t m.(frames)) m)).

(** ** Receiving *)

(** [gcip_mailbox_handle_response], and what it does once the lock is released. *)
Definition gcip_mailbox_handle_response (r : R) m : outcome (list op * mailbox) :=
  o ← find_waiter m (Some r) m.(wait_list);
  match o with
  | None => Ok ([], m)
  | Some (cur, l) =>
      let m := store cur.(we_async_resp) (AsyncResp false (Some r)) m in
      let m := set_wait_list l m in
      Ok (match cur.(we_awaiter) with
          | None => []
          | Some a => [Cancel_timeout_work a; Awaiter_arrived a; Complete_all a; Awaiter_put a]
          end, m)
  end.

Definition gcip_mailbox_handle_rx_elem (r : R) m : outcome (list op * mailbox) :=
  let is_reversed_cmd :=
    match is_rx_elem_reversed with
    | Some f => f r
    | None => mode_has m.(mode) GCIP_MAILBOX_MODE_RX_CMD
    end in
  if is_reversed_cmd then Ok ([], set_user (handle_reversed_command r m.(user)) m)
  else gcip_mailbox_handle_response r m.

(** [cancel_delayed_work] and the reference of the work. *)
Definition gcip_mailbox_cancel_timeout_work (a : nat) m : outcome (list op * mailbox) :=
  w ← must (m.(awaiters) !! a);
  Ok (match w.(timeout_work) with
      | WorkPending =>
          ([Awaiter_put a], set_awaiters (<[a := set_timeout_work WorkIdle w]> m.(awaiters)) m)
      | _ => ([], m)
      end).

(** As above, waiting for the function of the work to end. *)
Definition gcip_mailbox_cancel_timeout_work_sync (a : nat) m : outcome (list op * mailbox) :=
  w ← must (m.(awaiters) !! a);
  match w.(timeout_work) with
  | WorkRunning => Blocked
  | _ => gcip_mailbox_cancel_timeout_work a m
  end.

Definition handler (cb : option (nat → option R → H → H)) (a : nat)
    (e : outcome_event C R) m : outcome (list op * mailbox) :=
  w ← must (m.(awaiters) !! a);
  Ok ([], log e (call (cb ≫= λ f, Some (f a w.(aw_async_resp).(resp))) m)).

Definition complete_all (a : nat) m : outcome (list op * mailbox) :=
  w ← must (m.(awaiters) !! a);
  Ok ([], set_awaiters (<[a := set_handled w]> m.(awaiters)) m).

(** ** Timeouts, cancellation, release *)

(** What [gcip_mailbox_async_cmd_timeout_work] does until it drops its reference. *)
Definition gcip_mailbox_async_cmd_timeout_work (a : nat) m : outcome (list op * mailbox) :=
  '(removed, m) ← gcip_mailbox_del_wait_resp (InAwaiter a) m;
  Ok (if (removed : bool) then [Awaiter_timedout a; Complete_all a] else [], m).

(** The last reference of the work; the work is then idle, if its awaiter lives. *)
Definition timeout_put (a : nat) m : outcome (list op * mailbox) :=
  m ← gcip_mailbox_awaiter_put a m;
  Ok ([], set_awaiters (alter (set_timeout_work WorkIdle) a m.(awaiters)) m).

(** [gcip_mailbox_cancel_awaiter] once the timeout work is cancelled. *)
Definition gcip_mailbox_cancel_awaiter (a : nat) m : outcome (list op * mailbox) :=
  '(removed, m) ← gcip_mailbox_del_wait_resp (InAwaiter a) m;
  Ok ([if (removed : bool) then Cancel_return a true else Cancel_wait a], m).

Definition wait_for_completion (a : nat) m : outcome (list op * mailbox) :=
  w ← must (m.(awaiters) !! a);
  if w.(handled) then Ok ([Cancel_return a false], m) else Blocked.

(** An entry of the list that [gcip_mailbox_cancel_awaiter_all] took over. *)
Definition flush_elem (cur : wait_list_elem) : list op :=
  match cur.(we_awaiter) with
  | None => []
  | Some a => [Awaiter_put a; Cancel_timeout_work_sync a; Awaiter_flushed a]
  end.

(** Without a handler the reference of the user is dropped for it. *)
Definition awaiter_flushed (a : nat) m : outcome (list op * mailbox) :=
  w ← must (m.(awaiters) !! a);
  Ok (match handle_awaiter_flushed with
      | Some f =>
          ([], log (Flushed a) (set_owned ({[a]} ∪ m.(owned))
                 (set_user (f a w.(aw_async_resp).(resp) m.(user)) m)))
      | None => ([Awaiter_put a], log (Flushed a) m)
      end).

(** ** Threads *)

(** One op of the thread [i]: what takes its place, and the mailbox. *)
Definition exec (i : nat) (o : op) m : outcome (list op * mailbox) :=
  match o with
  | Enqueue cmd d => gcip_mailbox_enqueue_cmd i cmd d m
  | Enqueue_copy cmd d => enqueue_copy cmd d m
  | Send_wait t =>
      w ← must (m.(frames) !! t);
      if w.(waiting) then Blocked else Ok ([Send_return t 0], m)
  | Send_del t =>
      '(_, m) ← gcip_mailbox_del_wait_resp (OnStack t) m;
      Ok ([Send_return t (- ETIMEDOUT)], m)
  | Send_return t ret => send_return t ret m
  | Put_cmd_return a => Ok ([], set_owned ({[a]} ∪ m.(owned)) m)
  | Free_awaiter a =>
      m ← kfree_awaiter a m; Ok ([], log (Rejected a) m)
  | Rx_elem r => gcip_mailbox_handle_rx_elem r m
  | Cancel_timeout_work a => gcip_mailbox_cancel_timeout_work a m
  | Cancel_timeout_work_sync a => gcip_mailbox_cancel_timeout_work_sync a m
  | Awaiter_arrived a => handler handle_awaiter_arrived a (Arrived a) m
  | Awaiter_timedout a => handler handle_awaiter_timedout a (Timedout a) m
  | Complete_all a => complete_all a m
  | Awaiter_put a => m ← gcip_mailbox_awaiter_put a m; Ok ([], m)
  | Timeout_del a => gcip_mailbox_async_cmd_timeout_work a m
  | Timeout_put a => timeout_put a m
  | Cancel_del a => gcip_mailbox_cancel_awaiter a m
  | Cancel_wait a => wait_for_completion a m
  | Cancel_return a b =>
      Ok ([], log (Cancelled a b) (set_owned ({[a]} ∪ m.(owned)) m))
  | Awaiter_flushed a => awaiter_flushed a m
  end.

(** ** Fetching responses *)

(** The copy of [count] responses from the position [j] of the queue. *)
Fixpoint copy_responses (rx_queue : list R) (size : Z) (count : nat) (j : Z) :
    outcome (list R) :=
  match count with
  | O => Ok []
  | S count =>
      r ← must (rx_queue !! Z.to_nat j);
      rs ← copy_responses rx_queue size count ((j + 1) mod size);
      Ok (r :: rs)
  end.

(** The loop, whose [i]-th turn finds the register and the queue in the state
    [csr i] and whose reallocation succeeds if [alloc i].  Writes past the block,
    whose size is computed on 32 bits, are undefined. *)
Fixpoint fetch_loop (fuel : nat) (csr : nat → Z * list R) (alloc : nat → bool)
    (wrap_bit size elem_size : Z) (i : nat) (head : Z) (got : list R) : outcome (list R) :=
  match fuel with
  | O => Blocked
  | S fuel =>
      let '(tail, rx_queue) := csr i in
      let total := Z.of_nat (length got) in
      if negb (Z.land tail (Z.lnot (CIRC_QUEUE_VALID_MASK wrap_bit)) =? 0)
         || (size <=? CIRC_QUEUE_REAL_INDEX tail wrap_bit) then Ok got
      else
        let count := gcip_circ_queue_cnt head tail size wrap_bit in
        if count =? 0 then Ok got
        else if negb (alloc i) then Ok got
        else if u32 ((total + count) * elem_size) <? (total + count) * elem_size then Undef
        else
          rs ← copy_responses rx_queue size (Z.to_nat count)
                 (CIRC_QUEUE_REAL_INDEX head wrap_bit);
          fetch_loop fuel csr alloc wrap_bit size elem_size (S i)
            (gcip_circ_queue_inc head count size wrap_bit) (got ++ rs)
  end.

(** The responses fetched; none when the block is off, or another thread fetches
    and [locked] is [false]. *)
Definition gcip_mailbox_fetch_responses (fuel : nat) (csr : nat → Z * list R)
    (alloc : nat → bool) (rx_elem_size : Z) (locked : bool) m : outcome (list R * mailbox) :=
  let off := match is_block_off with Some f => f m.(user) | None => false end in
  if off || negb locked then Ok ([], m)
  else
    got ← fetch_loop fuel csr alloc m.(queue_wrap_bit) (get_rx_queue_size m.(user))
            rx_elem_size 0 (get_rx_queue_head m.(user)) [];
    let total := Z.of_nat (length got) in
    let m := set_user (inc_rx_queue_head total m.(user)) m in
    Ok (got, call (after_fetch_resps ≫= λ f, Some (f total)) m).

Definition gcip_mailbox_fetch_one_response (csr : Z * list R) (locked : bool) m :
    outcome (list R * mailbox) :=
  let off := match is_block_off with Some f => f m.(user) | None => false end in
  if off || negb locked then Ok ([], m)
  else
    let head := get_rx_queue_head m.(user) in
    if head =? csr.1 then Ok ([], m)
    else
      r ← must (csr.2 !! Z.to_nat (CIRC_QUEUE_REAL_INDEX head m.(queue_wrap_bit)));
      let m := set_user (inc_rx_queue_head 1 m.(user)) m in
      Ok ([r], call (after_fetch_resps ≫= λ f, Some (f 1)) m).

(** ** The system *)

Record system := System {
  mbx : mailbox;
  threads : list (list op);
  next_awaiter : nat
}.

(** [Other] is any change of the user's state by other code and by the firmware. *)
Inductive move :=
| Send_cmd (cmd : C) (r : option R)
| Put_cmd (cmd : C) (r : option R) (no_timeout : bool)
| Cancel (a : nat)
| User_put (a : nat)
| Timer (a : nat)
| Expire (t : nat)
| Responses (rs : list R)
| Release
| Other (h : H)
| Run (i : nat).

Definition spawn (p : list op) (s : system) : system :=
  System s.(mbx) (s.(threads) ++ [p]) s.(next_awaiter).

Definition set_mbx (m : mailbox) (s : system) : system :=
  System m s.(threads) s.(next_awaiter).

(** The waiter [d] is not in the list of waiters yet, or will not be any more
    because its command was refused or its thread returns. *)
Definition op_unlists (d : async_ref) (o : op) : bool :=
  match o with
  | Enqueue _ d' => bool_decide (d = d')
  | Send_return t _ => bool_decide (d = OnStack t)
  | Free_awaiter a => bool_decide (d = InAwaiter a)
  | _ => false
  end.

Definition unlisted (d : async_ref) (s : system) : bool :=
  existsb (existsb (op_unlists d)) s.(threads).

(** [gcip_mailbox_put_cmd_flags] up to [gcip_mailbox_enqueue_cmd]. *)
Definition put_cmd (cmd : C) (r : option R) (no_timeout : bool) (s : system) : system :=
  let a := s.(next_awaiter) in
  let w := gcip_mailbox_awaiter_create r in
  let w := if no_timeout then w else set_timeout_work WorkPending (set_kref 2 w) in
  let m := set_awaiters (<[a := w]> s.(mbx).(awaiters)) s.(mbx) in
  let m := match r with Some _ => log (Submitted a) m | None => m end in
  System m (s.(threads) ++ [[Enqueue cmd (InAwaiter a)]]) (S a).

(** A step that would wait is not taken. *)
Definition run_thread (i : nat) (s : system) : outcome system :=
  match s.(threads) !! i with
  | Some (o :: rest) =>
      match exec i o s.(mbx) with
      | Ok (p, m) => Ok (System m (<[i := p ++ rest]> s.(threads)) s.(next_awaiter))
      | Blocked => Ok s
      | Undef => Undef
      end
  | _ => Ok s
  end.

Definition step (mv : move) (s : system) : outcome system :=
  let m := s.(mbx) in
  match mv with
  | Send_cmd cmd r =>
      let t := length s.(threads) in
      Ok (spawn [Enqueue cmd (OnStack t)]
            (set_mbx (set_frames (<[t := AsyncResp false r]> m.(frames)) m) s))
  | Put_cmd cmd r no_timeout => Ok (put_cmd cmd r no_timeout s)
  | Cancel a =>
      Ok (spawn [Cancel_timeout_work a; Cancel_del a]
            (set_mbx (set_owned (m.(owned) ∖ {[a]}) m) s))
  | User_put a => Ok (spawn [Awaiter_put a] (set_mbx (set_owned (m.(owned) ∖ {[a]}) m) s))
  | Timer a =>
      w ← must (m.(awaiters) !! a);
      Ok (spawn [Timeout_del a; Timeout_put a]
            (set_mbx (set_awaiters (<[a := set_timeout_work WorkRunning w]> m.(awaiters)) m) s))
  | Expire t => Ok (System m (<[t := [Send_del t]]> s.(threads)) s.(next_awaiter))
  | Responses rs => Ok (spawn (Rx_elem <$> rs) s)
  | Release =>
      let users := omap we_awaiter m.(wait_list) in
      Ok (spawn (m.(wait_list) ≫= flush_elem)
            (set_mbx (set_owned (m.(owned) ∖ list_to_set users) (set_wait_list [] m)) s))
  | Other h => Ok (set_mbx (set_user h m) s)
  | Run i => run_thread i s
  end.

Fixpoint play (mvs : list move) (s : system) : outcome system :=
  match mvs with
  | [] => Ok s
  | mv :: mvs => s ← step mv s; play mvs s
  end.

(** ** The life of a mailbox *)

(** The other operations that [gcip_mailbox_ops_verify] asks for are not optional. *)
Definition gcip_mailbox_ops_verify (md : Z) : Z :=
  if mode_has md GCIP_MAILBOX_MODE_RX_RSP && mode_has md GCIP_MAILBOX_MODE_RX_CMD
     && match is_rx_elem_reversed with Some _ => false | None => true end
  then - EINVAL else 0.

Definition gcip_mailbox_init (md wrap_bit : Z) (tx_queue : list C) (data : H) :
    Z * option mailbox :=
  if md =? 0 then (- EINVAL, None)
  else
    let ret := gcip_mailbox_ops_verify md in
    if negb (ret =? 0) then (ret, None)
    else (0, Some (GcipMailbox md wrap_bit 0 tx_queue None [] ∅ ∅ data ∅ [])).

(** A mailbox that no thread uses yet. *)
Definition boot (m : mailbox) : system := System m [] 0.

(** [gcip_mailbox_do_consume_responses] up to the handling of what it has fetched. *)
Definition gcip_mailbox_do_consume_responses (fuel : nat) (csr : nat → Z * list R)
    (alloc : nat → bool) (rx_elem_size : Z) (locked : bool) (s : system) : outcome system :=
  '(rs, m) ← gcip_mailbox_fetch_responses fuel csr alloc rx_elem_size locked s.(mbx);
  step (Responses rs) (set_mbx m s).

Definition gcip_mailbox_consume_one_response (csr : Z * list R) (locked : bool) (s : system) :
    outcome system :=
  '(rs, m) ← gcip_mailbox_fetch_one_response csr locked s.(mbx);
  step (Responses rs) (set_mbx m s).

(** ** What the users of a mailbox respect *)

Definition matches (r1 r2 : R) : bool :=
  match op_does_response_match_waiter with
  | Some f => f r1 r2
  | None => get_resp_elem_seq r1 =? get_resp_elem_seq r2
  end.

(** The response that a command will wait with. *)
Definition key_of (cmd : C) (d : async_ref) m : option R :=
  let cmd := if should_maintain_seq_num m.(mode)
             then set_cmd_elem_seq m.(cur_seq) cmd else cmd in
  set_resp_elem_seq (get_cmd_elem_seq cmd) <$> (deref d m ≫= resp).

Definition unlike (r : R) (d d' : async_ref) (w : async_resp R) (s : system) : bool :=
  bool_decide (d = d') || unlisted d' s
  || match w.(resp) with Some r' => negb (matches r r') | None => true end.

(** Its sequence number is not that of another command in flight. *)
Definition fresh_key (cmd : C) (d : async_ref) (s : system) : bool :=
  match key_of cmd d s.(mbx) with
  | None => true
  | Some r =>
      forallb (λ '(t, w), unlike r d (OnStack t) w s) (map_to_list s.(mbx).(frames))
      && forallb (λ '(a, w), unlike r d (InAwaiter a) w.(aw_async_resp) s)
           (map_to_list s.(mbx).(awaiters))
  end.

(** Whether a move is one that the properties are about: a user cancels and drops
    awaiters that it holds, commands in flight have different keys, the mailbox is
    released when its user holds all awaiters.  Two more moves that the interface has are
    left out, as the mailbox does not bear them: a command with a timeout and no
    response, whose entry is compared through a null pointer, and a timer that fires
    before its command is in the queue ([gcip_early_timeout]). *)
Definition allowed (mv : move) (s : system) : bool :=
  let m := s.(mbx) in
  match mv with
  | Send_cmd _ _ | Responses _ | Other _ => true
  | Put_cmd _ r no_timeout => no_timeout || bool_decide (is_Some r)
  | Cancel a =>
      bool_decide (a ∈ m.(owned)) && bool_decide (is_Some (deref (InAwaiter a) m ≫= resp))
  | User_put a => bool_decide (a ∈ m.(owned))
  | Expire t =>
      match s.(threads) !! t, m.(frames) !! t with
      | Some [Send_wait _], Some w => w.(waiting)
      | _, _ => false
      end
  | Timer a =>
      match m.(awaiters) !! a with
      | Some w => bool_decide (w.(timeout_work) = WorkPending)
                  && negb (unlisted (InAwaiter a) s)
      | None => false
      end
  | Run i =>
      match s.(threads) !! i with
      | Some (Enqueue cmd d :: _) => fresh_key cmd d s
      | _ => true
      end
  | Release =>
      forallb (λ a, bool_decide (a ∈ m.(owned))) (omap we_awaiter m.(wait_list))
  end.

Fixpoint disciplined (mvs : list move) (s : system) : bool :=
  match mvs with
  | [] => true
  | mv :: mvs =>
      allowed mv s && match step mv s with Ok s => disciplined mvs s | _ => true end
  end.

End Mailbox.
Arguments system : clear implicits.
Arguments move : clear implicits.
