(* ===== verification/GcipMailboxInv.v ===== *)
(** * GCIP: the invariant of a mailbox

    Every reference of an awaiter is counted: by the list of waiters, by the user,
    by the armed timer and by the threads that still have it to drop.  An entry of
    the list points to memory that lives, and its key is that of no other waiter. *)

From S2P Require Import Prelude.
From S2P Require Import Interleaving.
From S2P Require Import GcipQueue.
From S2P Require Import GcipMailbox.

Ltac not_building := intros (_ & [[? ?]|[?|[_ [?|?]]]]); simplify_eq.

Section Inv.
Context {C R H : Type} {ops : gcip_mailbox_ops C R H}.
Local Notation mailbox := (gcip_mailbox C R H).
Local Notation op := (op C R).
Local Notation system := (system C R H).
Implicit Types (m : mailbox) (s : system).

(** Two packets match when they have the same key. *)
Class match_laws : Prop := {
  matches_refl r : matches (ops := ops) r r = true;
  matches_sym r1 r2 : matches (ops := ops) r1 r2 = matches (ops := ops) r2 r1;
  matches_trans r1 r2 r3 : matches (ops := ops) r1 r2 = true →
    matches (ops := ops) r1 r3 = matches (ops := ops) r2 r3
}.

(** A user of the mailbox: [user_ok] is what its state satisfies, which every
    operation keeps, and which puts the tail of the transmit queue in a queue of
    [n] elements. *)
Class user_laws (wrap_bit : Z) (n : nat) (user_ok : H → Prop) : Prop := {
  user_tail h : user_ok h →
    0 <= CIRC_QUEUE_REAL_INDEX (get_tx_queue_tail h) wrap_bit < Z.of_nat n;
  user_inc h : user_ok h → user_ok (inc_tx_queue_tail 1 h);
  user_reversed h r : user_ok h → user_ok (handle_reversed_command r h);
  user_before h f r a : user_ok h → before_enqueue_wait_list = Some f → user_ok (f r a h).2;
  user_after h f c : user_ok h → after_enqueue_cmd = Some f →
    (f c h).1 = 0 ∧ user_ok (f c h).2;
  user_arrived h f a r : user_ok h → handle_awaiter_arrived = Some f → user_ok (f a r h);
  user_timedout h f a r : user_ok h → handle_awaiter_timedout = Some f → user_ok (f a r h);
  user_flushed h f a r : user_ok h → handle_awaiter_flushed = Some f → user_ok (f a r h);
  user_release h f a : user_ok h → release_awaiter_data = Some f → user_ok (f a h);
  user_error h f e : user_ok h → on_error = Some f → user_ok (f e h)
}.

(** The references of [a] that an operation drops or hands over. *)
Definition weight (a : nat) (o : op) : nat :=
  match o with
  | Enqueue _ d | Enqueue_copy _ d => one (d = InAwaiter a)
  | Put_cmd_return b | Free_awaiter b | Awaiter_put b | Timeout_put b | Cancel_del b
  | Cancel_wait b | Cancel_return b _ | Awaiter_flushed b => one (b = a)
  | _ => 0%nat
  end.

(** The awaiter an operation uses without a reference of its own. *)
Definition borrows (o : op) : option nat :=
  match o with
  | Cancel_timeout_work a | Cancel_timeout_work_sync a | Awaiter_arrived a
  | Awaiter_timedout a | Complete_all a | Timeout_del a => Some a
  | _ => None
  end.

Fixpoint protected (p : list op) : Prop :=
  match p with
  | [] => True
  | o :: p => (∀ a, borrows o = Some a → (0 < cnt (weight a) p)%nat) ∧ protected p
  end.

Definition held (a : nat) s : nat := cnt (cnt (weight a)) s.(threads).
Definition listed_refs (a : nat) m : nat := cnt (λ e, one (we_awaiter e = Some a)) m.(wait_list).
Definition timer_ref (a : nat) m : nat :=
  match m.(awaiters) !! a with Some w => one (w.(timeout_work) = WorkPending) | None => 0%nat end.
Definition refs (a : nat) s : nat :=
  (held a s + listed_refs a s.(mbx) + one (a ∈ s.(mbx).(owned)) + timer_ref a s.(mbx))%nat.

(** Operations that compare the response of an awaiter. *)
Definition compares (a : nat) (o : op) : nat :=
  match o with Timeout_del b | Cancel_del b => one (b = a) | _ => 0%nat end.

Definition runs_timeout (a : nat) (o : op) : nat :=
  match o with Timeout_put b => one (b = a) | _ => 0%nat end.

(** The reference of the user, while an operation of the user has it. *)
Definition user_ref (a : nat) (o : op) : nat :=
  match o with
  | Enqueue _ d | Enqueue_copy _ d => one (d = InAwaiter a)
  | Put_cmd_return b | Free_awaiter b | Cancel_del b | Cancel_wait b | Cancel_return b _
  | Awaiter_flushed b => one (b = a)
  | _ => 0%nat
  end.

(** The thread whose stack an operation uses. *)
Definition frame_of (o : op) : option nat :=
  match o with
  | Enqueue _ (OnStack t) | Enqueue_copy _ (OnStack t) | Send_wait t | Send_del t
  | Send_return t _ => Some t
  | _ => None
  end.

(** Operations that are all that their thread has left. *)
Definition alone (o : op) : bool :=
  match o with
  | Enqueue _ _ | Enqueue_copy _ _ | Send_wait _ | Send_del _ | Send_return _ _ => true
  | _ => false
  end.

Lemma frame_alone o t : frame_of o = Some t → alone o = true.
Proof. destruct o; simpl; try done; by case_match. Qed.

(** The thread that waits for a response on its stack. *)
Definition waits_for (o : op) : option nat :=
  match o with Send_wait t | Send_del t => Some t | _ => None end.

Lemma waits_alone o t : waits_for o = Some t → alone o = true ∧ frame_of o = Some t.
Proof. by destruct o; intros [= ->]. Qed.

Definition elem_ok m (e : wait_list_elem) : Prop :=
  e.(we_awaiter) = awaiter_of e.(we_async_resp)
  ∧ ∃ w r, deref e.(we_async_resp) m = Some w ∧ w.(resp) = Some r ∧ w.(waiting) = true.

(** What a thread that builds the awaiter [a] may look like. *)
Definition build_shape (a : nat) (w : resp_awaiter R) (p : list op) : Prop :=
  w.(timeout_work) ≠ WorkRunning
  ∧ ((∃ cmd, p = [Enqueue cmd (InAwaiter a)])
     ∨ p = [Cancel_timeout_work_sync a; Free_awaiter a]
     ∨ w.(timeout_work) = WorkIdle
       ∧ (p = [Awaiter_put a; Free_awaiter a] ∨ p = [Free_awaiter a])).

Context {wrap_bit : Z} {n : nat} {user_ok : H → Prop}.

Record inv s : Prop := Inv {
  inv_refs a :
    match s.(mbx).(awaiters) !! a with
    | Some w => w.(kref) = Z.of_nat (refs a s) ∧ (0 < refs a s)%nat
    | None => refs a s = 0%nat
    end;
  inv_once a : (cnt (cnt (user_ref a)) s.(threads) + one (a ∈ s.(mbx).(owned)) ≤ 1)%nat;
  inv_user : user_ok s.(mbx).(user);
  inv_queue : s.(mbx).(queue_wrap_bit) = wrap_bit ∧ length s.(mbx).(tx_queue) = n;
  inv_fresh a : is_Some (s.(mbx).(awaiters) !! a) → (a < s.(next_awaiter))%nat;
  inv_protected p : p ∈ s.(threads) → protected p;
  inv_elem e : e ∈ s.(mbx).(wait_list) → elem_ok s.(mbx) e;
  inv_listed e : e ∈ s.(mbx).(wait_list) → unlisted e.(we_async_resp) s = false;
  inv_nodup : NoDup (we_async_resp <$> s.(mbx).(wait_list));
  inv_match d w r e w' r' :
    deref d s.(mbx) = Some w → w.(resp) = Some r → unlisted d s = false →
    e ∈ s.(mbx).(wait_list) → deref e.(we_async_resp) s.(mbx) = Some w' →
    w'.(resp) = Some r' → matches r r' = true → e.(we_async_resp) = d;
  inv_alone i p o : s.(threads) !! i = Some p → o ∈ p → alone o = true → p = [o];
  inv_frame i p o t : s.(threads) !! i = Some p → o ∈ p → frame_of o = Some t →
    t = i ∧ is_Some (s.(mbx).(frames) !! i);
  inv_stack e t : e ∈ s.(mbx).(wait_list) → e.(we_async_resp) = OnStack t →
    ∃ o, s.(threads) !! t = Some [o] ∧ frame_of o = Some t;
  inv_waits i p o t : s.(threads) !! i = Some p → o ∈ p → waits_for o = Some t →
    is_Some (deref (OnStack t) s.(mbx) ≫= resp);
  inv_lock i : s.(mbx).(tx_queue_lock) = Some i ↔
    ∃ cmd d, s.(threads) !! i = Some [Enqueue_copy cmd d];
  inv_copy i cmd d : s.(threads) !! i = Some [Enqueue_copy cmd d] →
    ∃ w, deref d s.(mbx) = Some w;
  inv_running a : cnt (cnt (runs_timeout a)) s.(threads) =
    match s.(mbx).(awaiters) !! a with
    | Some w => one (w.(timeout_work) = WorkRunning) | None => 0%nat end;
  inv_resp a w : s.(mbx).(awaiters) !! a = Some w → w.(aw_async_resp).(resp) = None →
    w.(timeout_work) = WorkIdle ∧ cnt (cnt (compares a)) s.(threads) = 0%nat;
  inv_build i p a : s.(threads) !! i = Some p →
    existsb (op_unlists (InAwaiter a)) p = true →
    held a s = cnt (weight a) p ∧ listed_refs a s.(mbx) = 0%nat ∧ a ∉ s.(mbx).(owned)
    ∧ ∃ w, s.(mbx).(awaiters) !! a = Some w ∧ build_shape a w p
}.

(** ** Steps of a thread *)

Section Step.
Context {laws : user_laws wrap_bit n user_ok} {key : match_laws}.

Lemma unlisted_spec d s :
  unlisted d s = true ↔ ∃ i p, s.(threads) !! i = Some p ∧ existsb (op_unlists d) p = true.
Proof.
  unfold unlisted. rewrite existsb_exists. split.
  - intros (p & Hp & Hx). apply list_elem_of_In in Hp as [i Hi]%list_elem_of_lookup. eauto.
  - intros (i & p & Hi & Hx). exists p. split; [|done].
    apply list_elem_of_In. by eapply list_elem_of_lookup_2.
Qed.

(** The thread [i], about to run [o], has [p] to do instead. *)
Definition after s (i : nat) (p rest : list op) m : system :=
  System m (<[i := p ++ rest]> s.(threads)) s.(next_awaiter).

Lemma cnt_after (f : op → nat) s i o rest p m :
  s.(threads) !! i = Some (o :: rest) →
  (cnt (cnt f) (after s i p rest m).(threads) + f o
   = cnt (cnt f) s.(threads) + cnt f p)%nat.
Proof.
  intros Hi. simpl. pose proof (cnt_insert (cnt f) _ _ _ (p ++ rest) Hi) as Hc.
  rewrite cnt_app, cnt_cons in Hc. lia.
Qed.

Lemma held_after s i o rest p m a :
  s.(threads) !! i = Some (o :: rest) →
  (held a (after s i p rest m) + weight a o = held a s + cnt (weight a) p)%nat.
Proof. apply cnt_after. Qed.

Lemma held_thread s i p a : s.(threads) !! i = Some p → (cnt (weight a) p ≤ held a s)%nat.
Proof. apply cnt_lookup. Qed.

Lemma after_lookup s i o rest p m j q :
  s.(threads) !! i = Some (o :: rest) →
  (after s i p rest m).(threads) !! j = Some q →
  (j = i ∧ q = p ++ rest) ∨ (j ≠ i ∧ s.(threads) !! j = Some q).
Proof.
  intros _. simpl. intros [(<- & <- & _)|[Hne Hj]]%list_lookup_insert_Some; auto.
Qed.

Lemma unlisted_after s i o rest p m d :
  s.(threads) !! i = Some (o :: rest) →
  op_unlists d o = false → existsb (op_unlists d) p = false →
  unlisted d (after s i p rest m) = unlisted d s.
Proof.
  intros Hi Ho Hp. apply eq_true_iff_eq. rewrite !unlisted_spec. split.
  - intros (j & q & Hj & Hq).
    destruct (after_lookup _ _ _ _ _ _ _ _ Hi Hj) as [[-> ->]|[Hne Hj']]; [|eauto].
    exists i, (o :: rest). split; [done|]. rewrite existsb_app, Hp in Hq. simpl in *.
    by rewrite Hq, orb_true_r.
  - intros (j & q & Hj & Hq). destruct (decide (j = i)) as [->|Hne].
    + simplify_eq. simpl in Hq. rewrite Ho in Hq. simpl in Hq.
      exists i, (p ++ rest). split; [|by rewrite existsb_app, Hq, orb_true_r].
      simpl. apply list_lookup_insert_eq. by eapply lookup_lt_Some.
    + exists j, q. split; [|done]. simpl. by rewrite list_lookup_insert_ne.
Qed.

(** Operations that concern no stack, no entry of the list and no building. *)
Definition plain (o : op) : Prop :=
  alone o = false ∧ ∀ d, op_unlists d o = false.

Lemma plain_waits o : plain o → waits_for o = None.
Proof.
  intros [Ha _]. destruct (waits_for o) eqn:Hw; [|done].
  apply waits_alone in Hw as [? _]. congruence.
Qed.

Lemma plain_unlists p d : (∀ o, o ∈ p → plain o) → existsb (op_unlists d) p = false.
Proof.
  intros Hp. apply not_true_iff_false. rewrite existsb_exists. intros (o & Ho & Hx).
  apply list_elem_of_In in Ho. destruct (Hp o Ho) as (_ & Hu). by rewrite Hu in Hx.
Qed.

Lemma listed_refs_pos e a m : e ∈ m.(wait_list) → e.(we_awaiter) = Some a → (0 < listed_refs a m)%nat.
Proof.
  intros He Ha. unfold listed_refs. apply list_elem_of_lookup in He as [k Hk].
  pose proof (cnt_lookup (λ e, one (we_awaiter e = Some a)) _ _ _ Hk) as Hc.
  simpl in Hc. rewrite one_yes in Hc by done. lia.
Qed.

Lemma inv_awaiter_live s a : inv s → (0 < refs a s)%nat → ∃ w, s.(mbx).(awaiters) !! a = Some w.
Proof. intros Hinv Hr. pose proof (inv_refs _ Hinv a) as Ha. case_match; [eauto|lia]. Qed.

(** A plain operation that leaves the lists and the frames alone, and changes
    awaiters that its thread mentions in their counts only. *)
Lemma inv_plain s i o rest p m :
  inv s → s.(threads) !! i = Some (o :: rest) → plain o → (∀ o', o' ∈ p → plain o') →
  m.(wait_list) = s.(mbx).(wait_list) → m.(frames) = s.(mbx).(frames) →
  m.(tx_queue_lock) = s.(mbx).(tx_queue_lock) → m.(tx_queue) = s.(mbx).(tx_queue) →
  m.(queue_wrap_bit) = s.(mbx).(queue_wrap_bit) → user_ok m.(user) →
  (∀ a w', m.(awaiters) !! a = Some w' →
     ∃ w, s.(mbx).(awaiters) !! a = Some w ∧ aw_async_resp w' = aw_async_resp w) →
  (∀ a, cnt (weight a) (o :: rest) = 0%nat →
     m.(awaiters) !! a = s.(mbx).(awaiters) !! a ∧ cnt (weight a) p = 0%nat
     ∧ (a ∈ m.(owned) ↔ a ∈ s.(mbx).(owned))) →
  (∀ a, match m.(awaiters) !! a with
        | Some w => w.(kref) = Z.of_nat (refs a (after s i p rest m))
                    ∧ (0 < refs a (after s i p rest m))%nat
        | None => refs a (after s i p rest m) = 0%nat end) →
  (∀ a, cnt (cnt (runs_timeout a)) (after s i p rest m).(threads) =
        match m.(awaiters) !! a with
        | Some w => one (w.(timeout_work) = WorkRunning) | None => 0%nat end) →
  (∀ a, (cnt (cnt (user_ref a)) (after s i p rest m).(threads) + one (a ∈ m.(owned)) ≤ 1)%nat) →
  (∀ a w, m.(awaiters) !! a = Some w → w.(aw_async_resp).(resp) = None →
     w.(timeout_work) = WorkIdle
     ∧ cnt (cnt (compares a)) (after s i p rest m).(threads) = 0%nat) →
  (∀ a w, s.(mbx).(awaiters) !! a = Some w → build_shape a w (o :: rest) →
     existsb (op_unlists (InAwaiter a)) rest = true → a ∉ s.(mbx).(owned) →
     a ∉ m.(owned) ∧ ∃ w', m.(awaiters) !! a = Some w' ∧ build_shape a w' (p ++ rest)) →
  protected (p ++ rest) →
  inv (after s i p rest m).
Proof.
  intros Hinv Hi (Hal & Hou) Hp Hwl Hfr Hlk Hq Hwb Hu HA HG HB HC HO HD HE HF.
  assert (∀ d, unlisted d (after s i p rest m) = unlisted d s) as Hun.
  { intros d. eapply unlisted_after; eauto using plain_unlists. }
  assert (∀ d w, deref d m = Some w → deref d s.(mbx) = Some w) as Hde.
  { intros [t|a] w; simpl; [by rewrite Hfr|]. intros Hw.
    apply fmap_Some in Hw as (w' & Hw' & ->). destruct (HA a w' Hw') as (w0 & -> & ->). done. }
  assert (∀ a w, (0 < refs a (after s i p rest m))%nat →
            s.(mbx).(awaiters) !! a = Some w →
            deref (InAwaiter a) m = Some (aw_async_resp w)) as Hlive.
  { intros a w Hr Hw. pose proof (HB a) as Hb. simpl.
    destruct (m.(awaiters) !! a) as [w'|] eqn:Hw'; [|lia].
    destruct (HA a w' Hw') as (w0 & Hw0 & Heq). simplify_eq. simpl. by rewrite Heq. }
  assert (∀ j q o', (after s i p rest m).(threads) !! j = Some q → o' ∈ q → alone o' = true →
            j ≠ i ∧ s.(threads) !! j = Some q) as Haj.
  { intros j q o' Hj Ho' Ha'.
    destruct (after_lookup _ _ _ _ _ _ _ _ Hi Hj) as [[-> ->]|[Hne Hj']]; [|done].
    apply elem_of_app in Ho' as [Ho'|Ho']; [destruct (Hp o' Ho'); congruence|].
    pose proof (inv_alone _ Hinv i _ o' Hi ltac:(set_solver) Ha'). simplify_eq. set_solver. }
  constructor; try done.
  - split; simpl; [rewrite Hwb|rewrite Hq]; apply Hinv.
  - intros a [w' Hw']. destruct (HA a w' Hw') as (w & Hw & _). apply (inv_fresh _ Hinv). eauto.
  - intros q Hq'. apply list_elem_of_lookup in Hq' as [j Hj].
    destruct (after_lookup _ _ _ _ _ _ _ _ Hi Hj) as [[-> ->]|[_ Hj']]; [done|].
    eapply (inv_protected _ Hinv), list_elem_of_lookup_2, Hj'.
  - simpl. rewrite Hwl. intros e He. destruct (inv_elem _ Hinv e He) as (Hea & w & r & Hw & Hr & Hwt).
    split; [done|]. destruct e as [[t|a] b]; simpl in *.
    + rewrite Hfr. eauto.
    + apply fmap_Some in Hw as (w0 & Hw0 & ->). exists (aw_async_resp w0), r. split; [|done].
      apply Hlive; [|done]. unfold refs. simpl.
      assert (listed_refs a m = listed_refs a s.(mbx)) as -> by (by unfold listed_refs; rewrite Hwl).
      pose proof (listed_refs_pos _ a _ He Hea). lia.
  - simpl. rewrite Hwl. intros e He. rewrite Hun. by apply (inv_listed _ Hinv).
  - simpl. rewrite Hwl. apply Hinv.
  - simpl. rewrite Hwl. intros d w r e w' r' Hd Hr. rewrite Hun. intros Hud He He' Hr' Hm.
    eapply (inv_match _ Hinv); eauto.
  - intros j q o' Hj Ho' Ha'. destruct (Haj _ _ _ Hj Ho' Ha') as [_ Hj'].
    by eapply (inv_alone _ Hinv).
  - intros j q o' t Hj Ho' Hf. destruct (Haj _ _ _ Hj Ho' ltac:(by eapply frame_alone)) as [_ Hj'].
    simpl. rewrite Hfr. by eapply (inv_frame _ Hinv).
  - simpl. rewrite Hwl. intros e t He Ht. destruct (inv_stack _ Hinv e t He Ht) as (o' & Ho' & Hf).
    exists o'. split; [|done]. rewrite list_lookup_insert_ne; [done|]. intros ->. simplify_eq.
    apply frame_alone in Hf. congruence.
  - intros j q o' t Hj Ho' Hf. destruct (waits_alone _ _ Hf) as [Ha' _].
    destruct (Haj _ _ _ Hj Ho' Ha') as [_ Hj']. simpl. rewrite Hfr.
    by eapply (inv_waits _ Hinv).
  - intros j. simpl. rewrite Hlk, (inv_lock _ Hinv j). split; intros (cmd & d & Hj).
    + exists cmd, d. rewrite list_lookup_insert_ne; [done|]. intros ->. by simplify_eq.
    + exists cmd, d. eapply Haj; [done|by apply list_elem_of_singleton|done].
  - intros j cmd d Hj.
    destruct (Haj j _ (Enqueue_copy cmd d) Hj ltac:(set_solver) eq_refl) as [Hne Hj'].
    destruct (inv_copy _ Hinv _ _ _ Hj') as [w Hw]. exists w.
    destruct d as [t|a]; simpl in *; [by rewrite Hfr|].
    apply fmap_Some in Hw as (w0 & Hw0 & ->). apply Hlive; [|done]. unfold refs.
    assert (0 < held a (after s i p rest m))%nat; [|lia].
    pose proof (held_thread (after s i p rest m) j _ a Hj) as Hh. rewrite cnt_cons in Hh. simpl in Hh.
    rewrite one_yes in Hh by done. lia.
  - intros j q a Hj Hx. 
    assert (m.(wait_list) = s.(mbx).(wait_list)) as Hwl' by done.
    destruct (after_lookup _ _ _ _ _ _ _ _ Hi Hj) as [[-> ->]|[Hne Hj']].
    + rewrite existsb_app, plain_unlists in Hx by done. simpl in Hx.
      destruct (inv_build _ Hinv i (o :: rest) a Hi) as (Hh & Hl & Ho & w & Hw & Hs).
      { simpl. by rewrite Hou. }
      destruct (HE a w Hw Hs Hx Ho) as (Ho' & w' & Hw' & Hs').
      split; [|split; [|split; [done|eauto]]].
      * pose proof (held_after _ _ _ _ p m a Hi) as Hh'. rewrite cnt_cons in Hh.
        rewrite cnt_app. simpl in *. lia.
      * unfold listed_refs in *. simpl. by rewrite Hwl.
    + destruct (inv_build _ Hinv j q a Hj' Hx) as (Hh & Hl & Ho & w & Hw & Hs).
      assert (cnt (weight a) (o :: rest) = 0%nat) as H0.
      { pose proof (cnt_two (cnt (weight a)) _ _ _ _ _ Hne Hj' Hi). unfold held in Hh. lia. }
      destruct (HG a H0) as (Ha & Hpa & Hoa). split; [|split; [|split]].
      * pose proof (held_after _ _ _ _ p m a Hi) as Hh'. rewrite cnt_cons in H0. lia.
      * unfold listed_refs in *. simpl. by rewrite Hwl.
      * simpl. by rewrite Hoa.
      * simpl. rewrite Ha. eauto.
Qed.

Lemma refs_after s i o rest p m a :
  s.(threads) !! i = Some (o :: rest) → m.(wait_list) = s.(mbx).(wait_list) →
  (refs a (after s i p rest m) + weight a o + one (a ∈ s.(mbx).(owned))
     + timer_ref a s.(mbx)
   = refs a s + cnt (weight a) p + one (a ∈ m.(owned)) + timer_ref a m)%nat.
Proof.
  intros Hi Hwl. pose proof (held_after _ _ _ _ p m a Hi). unfold refs, listed_refs. simpl.
  rewrite Hwl. lia.
Qed.

Lemma one_iff P Q `{Decision P} `{Decision Q} : (P ↔ Q) → one P = one Q.
Proof. intros HPQ. unfold one. repeat case_decide; tauto. Qed.

(** What an operation changes besides awaiters. *)
Record plain_step s (i : nat) (o : op) (rest p : list op) m (a : nat) : Prop := PlainStep {
  ps_thread : s.(threads) !! i = Some (o :: rest);
  ps_plain : plain o;
  ps_plain' o' : o' ∈ p → plain o';
  ps_wait : m.(wait_list) = s.(mbx).(wait_list);
  ps_frames : m.(frames) = s.(mbx).(frames);
  ps_lock : m.(tx_queue_lock) = s.(mbx).(tx_queue_lock);
  ps_queue : m.(tx_queue) = s.(mbx).(tx_queue);
  ps_wrap : m.(queue_wrap_bit) = s.(mbx).(queue_wrap_bit);
  ps_user : user_ok m.(user);
  ps_owned b : b ≠ a → b ∈ m.(owned) ↔ b ∈ s.(mbx).(owned);
  ps_weight b : b ≠ a → weight b o = 0%nat ∧ cnt (weight b) p = 0%nat;
  ps_runs b : b ≠ a → runs_timeout b o = 0%nat ∧ cnt (runs_timeout b) p = 0%nat;
  ps_compares b : cnt (compares b) p = 0%nat;
  ps_mentions : (0 < cnt (weight a) (o :: rest))%nat;
  ps_protected : protected (p ++ rest)
}.

Lemma user_ref_weight a o : (user_ref a o ≤ weight a o)%nat.
Proof. destruct o; simpl; lia. Qed.

Lemma cnt_le {A} (f g : A → nat) l : (∀ x, f x ≤ g x)%nat → (cnt f l ≤ cnt g l)%nat.
Proof. intros Hfg. induction l as [|x l IH]; [done|]. rewrite !cnt_cons. specialize (Hfg x). lia. Qed.

(** The user has one reference at most. *)
Lemma once_after s i o rest p m a b :
  inv s → plain_step s i o rest p m a →
  (cnt (user_ref a) p + one (a ∈ m.(owned)) ≤ user_ref a o + one (a ∈ s.(mbx).(owned)))%nat →
  (cnt (cnt (user_ref b)) (after s i p rest m).(threads) + one (b ∈ m.(owned)) ≤ 1)%nat.
Proof.
  intros Hinv Hps Ha. pose proof (ps_thread _ _ _ _ _ _ _ Hps) as Hi.
  pose proof (cnt_after (user_ref b) _ _ _ _ p m Hi) as Hc. pose proof (inv_once _ Hinv b) as Ho.
  destruct (decide (b = a)) as [->|Hba]; [lia|].
  destruct (ps_weight _ _ _ _ _ _ _ Hps b Hba) as [H1 H2].
  pose proof (user_ref_weight b o). pose proof (cnt_le (user_ref b) (weight b) p (user_ref_weight b)).
  rewrite (one_iff _ _ (ps_owned _ _ _ _ _ _ _ Hps b Hba)). lia.
Qed.

(** An operation that changes the counts of the awaiter [a]. *)
Lemma inv_update s i o rest p m a w w' :
  inv s → plain_step s i o rest p m a →
  s.(mbx).(awaiters) !! a = Some w → m.(awaiters) = <[a := w']> s.(mbx).(awaiters) →
  aw_async_resp w' = aw_async_resp w →
  w'.(kref) + Z.of_nat (weight a o + one (a ∈ s.(mbx).(owned))
                        + one (w.(timeout_work) = WorkPending))
  = w.(kref) + Z.of_nat (cnt (weight a) p + one (a ∈ m.(owned))
                         + one (w'.(timeout_work) = WorkPending)) →
  0 < w'.(kref) →
  (one (w'.(timeout_work) = WorkRunning) + runs_timeout a o
   = one (w.(timeout_work) = WorkRunning) + cnt (runs_timeout a) p)%nat →
  (cnt (user_ref a) p + one (a ∈ m.(owned)) ≤ user_ref a o + one (a ∈ s.(mbx).(owned)))%nat →
  (w.(timeout_work) = WorkIdle → w'.(timeout_work) = WorkIdle) →
  (build_shape a w (o :: rest) → existsb (op_unlists (InAwaiter a)) rest = true →
   a ∉ s.(mbx).(owned) → a ∉ m.(owned) ∧ build_shape a w' (p ++ rest)) →
  inv (after s i p rest m).
Proof.
  intros Hinv Hps Hw Hm Has Hk Hpos Hrun Huser Hidle Hb. pose proof (ps_thread _ _ _ _ _ _ _ Hps) as Hi.
  assert (∀ b, refs b (after s i p rest m) + weight b o + one (b ∈ s.(mbx).(owned))
     + timer_ref b s.(mbx) = refs b s + cnt (weight b) p + one (b ∈ m.(owned)) + timer_ref b m)%nat
    as Hrefs by (intros b; apply refs_after; [done|apply Hps]).
  assert (timer_ref a m = one (w'.(timeout_work) = WorkPending)) as Ht'.
  { unfold timer_ref. by rewrite Hm, lookup_insert_eq. }
  assert (timer_ref a s.(mbx) = one (w.(timeout_work) = WorkPending)) as Ht.
  { unfold timer_ref. by rewrite Hw. }
  assert (∀ b, b ≠ a → m.(awaiters) !! b = s.(mbx).(awaiters) !! b) as Hne.
  { intros b ?. by rewrite Hm, lookup_insert_ne. }
  eapply inv_plain; try apply Hps; try done.
  - intros b wb. destruct (decide (b = a)) as [->|]; [|rewrite Hne by done; eauto].
    rewrite Hm, lookup_insert_eq. intros [= <-]. eauto.
  - intros b Hb0. assert (b ≠ a) as Hba.
    { intros ->. pose proof (ps_mentions _ _ _ _ _ _ _ Hps). lia. }
    split; [by apply Hne|]. split; [by apply Hps|]. by apply (ps_owned _ _ _ _ _ _ _ Hps).
  - intros b. pose proof (inv_refs _ Hinv b) as Hr. specialize (Hrefs b).
    destruct (decide (b = a)) as [->|Hba].
    + rewrite Hm, lookup_insert_eq. rewrite Hw in Hr. lia.
    + rewrite Hne by done. destruct (ps_weight _ _ _ _ _ _ _ Hps b Hba) as [H1 H2].
      rewrite (one_iff _ _ (ps_owned _ _ _ _ _ _ _ Hps b Hba)) in Hrefs.
      assert (timer_ref b m = timer_ref b s.(mbx)) as H3 by (unfold timer_ref; by rewrite Hne).
      replace (refs b (after s i p rest m)) with (refs b s) by lia. done.
  - intros b. pose proof (inv_running _ Hinv b) as Hr.
    pose proof (cnt_after (runs_timeout b) _ _ _ _ p m Hi) as Hc.
    destruct (decide (b = a)) as [->|Hba].
    + rewrite Hm, lookup_insert_eq. rewrite Hw in Hr. lia.
    + rewrite Hne by done. destruct (ps_runs _ _ _ _ _ _ _ Hps b Hba). lia.
  - intros b. by eapply once_after.
  - intros b wb Hwb Hno. pose proof (cnt_after (compares b) _ _ _ _ p m Hi) as Hc.
    rewrite (ps_compares _ _ _ _ _ _ _ Hps b) in Hc.
    destruct (decide (b = a)) as [->|Hba].
    + rewrite Hm, lookup_insert_eq in Hwb. injection Hwb as <-. rewrite Has in Hno.
      destruct (inv_resp _ Hinv a w Hw Hno). split; [auto|lia].
    + rewrite Hne in Hwb by done. destruct (inv_resp _ Hinv b wb Hwb Hno). split; [done|lia].
  - intros b wb Hwb Hs Hx Ho. destruct (decide (b = a)) as [->|Hba].
    + simplify_eq. destruct (Hb Hs Hx Ho) as [Ho' Hs']. split; [done|].
      exists w'. by rewrite Hm, lookup_insert_eq.
    + rewrite (ps_owned _ _ _ _ _ _ _ Hps) by done. split; [done|]. rewrite Hne by done.
      exists wb. split; [done|]. exfalso.
      destruct Hs as (_ & [[cmd Heq]|[Heq|[_ [Heq|Heq]]]]); simplify_eq; try done;
        pose proof (ps_mentions _ _ _ _ _ _ _ Hps) as Hmt;
        pose proof (ps_weight _ _ _ _ _ _ _ Hps b Hba) as [H0 _];
        simpl in *; rewrite ?one_yes in * by done; try lia;
        rewrite !one_no in Hmt by congruence; lia.
Qed.

(** An operation that frees the awaiter [a]: the last reference goes. *)
Lemma inv_delete s i o rest p m a w :
  inv s → plain_step s i o rest p m a →
  s.(mbx).(awaiters) !! a = Some w → m.(awaiters) = delete a s.(mbx).(awaiters) →
  Z.of_nat (weight a o + one (a ∈ s.(mbx).(owned)) + one (w.(timeout_work) = WorkPending))
  = w.(kref) + Z.of_nat (cnt (weight a) p + one (a ∈ m.(owned))) →
  (runs_timeout a o = one (w.(timeout_work) = WorkRunning) + cnt (runs_timeout a) p)%nat →
  (cnt (user_ref a) p + one (a ∈ m.(owned)) ≤ user_ref a o + one (a ∈ s.(mbx).(owned)))%nat →
  inv (after s i p rest m).
Proof.
  intros Hinv Hps Hw Hm Hk Hrun Huser. pose proof (ps_thread _ _ _ _ _ _ _ Hps) as Hi.
  assert (∀ b, refs b (after s i p rest m) + weight b o + one (b ∈ s.(mbx).(owned))
     + timer_ref b s.(mbx) = refs b s + cnt (weight b) p + one (b ∈ m.(owned)) + timer_ref b m)%nat
    as Hrefs by (intros b; apply refs_after; [done|apply Hps]).
  assert (timer_ref a m = 0%nat) as Ht' by (unfold timer_ref; by rewrite Hm, lookup_delete_eq).
  assert (timer_ref a s.(mbx) = one (w.(timeout_work) = WorkPending)) as Ht.
  { unfold timer_ref. by rewrite Hw. }
  assert (∀ b, b ≠ a → m.(awaiters) !! b = s.(mbx).(awaiters) !! b) as Hne.
  { intros b ?. by rewrite Hm, lookup_delete_ne. }
  assert (refs a (after s i p rest m) = 0%nat) as H0.
  { specialize (Hrefs a). pose proof (inv_refs _ Hinv a) as Hr. rewrite Hw in Hr. lia. }
  eapply inv_plain; try apply Hps; try done.
  - intros b wb. destruct (decide (b = a)) as [->|]; [|rewrite Hne by done; eauto].
    by rewrite Hm, lookup_delete_eq.
  - intros b Hb0. assert (b ≠ a) as Hba.
    { intros ->. pose proof (ps_mentions _ _ _ _ _ _ _ Hps). lia. }
    split; [by apply Hne|]. split; [by apply Hps|]. by apply (ps_owned _ _ _ _ _ _ _ Hps).
  - intros b. pose proof (inv_refs _ Hinv b) as Hr. specialize (Hrefs b).
    destruct (decide (b = a)) as [->|Hba].
    + by rewrite Hm, lookup_delete_eq.
    + rewrite Hne by done. destruct (ps_weight _ _ _ _ _ _ _ Hps b Hba) as [H1 H2].
      rewrite (one_iff _ _ (ps_owned _ _ _ _ _ _ _ Hps b Hba)) in Hrefs.
      assert (timer_ref b m = timer_ref b s.(mbx)) as H3 by (unfold timer_ref; by rewrite Hne).
      replace (refs b (after s i p rest m)) with (refs b s) by lia. done.
  - intros b. pose proof (inv_running _ Hinv b) as Hr.
    pose proof (cnt_after (runs_timeout b) _ _ _ _ p m Hi) as Hc.
    destruct (decide (b = a)) as [->|Hba].
    + rewrite Hm, lookup_delete_eq. rewrite Hw in Hr. lia.
    + rewrite Hne by done. destruct (ps_runs _ _ _ _ _ _ _ Hps b Hba). lia.
  - intros b. by eapply once_after.
  - intros b wb Hwb Hno. pose proof (cnt_after (compares b) _ _ _ _ p m Hi) as Hc.
    rewrite (ps_compares _ _ _ _ _ _ _ Hps b) in Hc.
    destruct (decide (b = a)) as [->|Hba]; [by rewrite Hm, lookup_delete_eq in Hwb|].
    rewrite Hne in Hwb by done. destruct (inv_resp _ Hinv b wb Hwb Hno). split; [done|lia].
  - intros b wb Hwb Hs Hx Ho. exfalso.
    pose proof (held_after _ _ _ _ p m a Hi) as Hh. unfold refs in H0.
    assert (cnt (weight a) (p ++ rest) ≤ held a (after s i p rest m))%nat as Hle.
    { apply (held_thread _ i). simpl. rewrite list_lookup_insert_eq; [done|].
      by eapply lookup_lt_Some. }
    rewrite cnt_app in Hle.
    destruct Hs as (_ & [[cmd Heq]|[Heq|[_ [Heq|Heq]]]]); simplify_eq; try done;
      destruct (decide (b = a)) as [->|Hba];
      try (pose proof (ps_mentions _ _ _ _ _ _ _ Hps) as Hmt;
        pose proof (ps_weight _ _ _ _ _ _ _ Hps b Hba) as [Hz _]);
      simpl in *; rewrite ?one_yes in * by done; try lia;
      rewrite !one_no in Hmt by congruence; lia.
Qed.

(** The user's state may change at any time. *)
Lemma inv_user_change s h : inv s → user_ok h → inv (set_mbx (set_user h s.(mbx)) s).
Proof. intros Hinv Hh. destruct Hinv. by constructor. Qed.

(** ** The operations, one by one *)

Definition op_ok s (i : nat) (o : op) (rest : list op) : Prop :=
  wp (exec i o s.(mbx)) (λ '(p, m), inv (after s i p rest m)).

Lemma thread_protected s i p : inv s → s.(threads) !! i = Some p → protected p.
Proof. intros Hinv Hi. by eapply (inv_protected _ Hinv), list_elem_of_lookup_2. Qed.

Lemma rest_protected s i o rest :
  inv s → s.(threads) !! i = Some (o :: rest) → protected rest.
Proof. intros Hinv Hi. by destruct (thread_protected _ _ _ Hinv Hi). Qed.

(** The awaiter that a thread mentions is allocated. *)
Lemma mentioned_live s i p a :
  inv s → s.(threads) !! i = Some p → (0 < cnt (weight a) p)%nat →
  ∃ w, s.(mbx).(awaiters) !! a = Some w ∧ w.(kref) = Z.of_nat (refs a s)
       ∧ (cnt (weight a) p + one (a ∈ s.(mbx).(owned)) + listed_refs a s.(mbx)
          + one (w.(timeout_work) = WorkPending) ≤ refs a s)%nat.
Proof.
  intros Hinv Hi Hp. pose proof (held_thread _ _ _ a Hi) as Hh.
  assert (0 < refs a s)%nat as Hr by (unfold refs; lia).
  destruct (inv_awaiter_live _ _ Hinv Hr) as [w Hw]. exists w. split; [done|].
  pose proof (inv_refs _ Hinv a) as Ha. rewrite Hw in Ha. split; [apply Ha|].
  unfold refs, timer_ref. rewrite Hw. lia.
Qed.

Lemma borrowed_live s i o rest a :
  inv s → s.(threads) !! i = Some (o :: rest) → borrows o = Some a →
  (0 < cnt (weight a) rest)%nat ∧ weight a o = 0%nat ∧ ∃ w, s.(mbx).(awaiters) !! a = Some w
    ∧ w.(kref) = Z.of_nat (refs a s) ∧ (0 < refs a s)%nat.
Proof.
  intros Hinv Hi Hb. pose proof (thread_protected _ _ _ Hinv Hi) as [Hp _].
  specialize (Hp a Hb). split; [done|]. split; [by destruct o|].
  destruct (mentioned_live _ _ _ a Hinv Hi) as (w & Hw & Hk & Hle); [rewrite cnt_cons; lia|].
  exists w. rewrite cnt_cons in Hle. split_and!; [done..|lia].
Qed.

Ltac solve_plain Hi Hinv :=
  constructor; simpl; try done; try (intros; singletons; done); try (intros; simp_one; done);
  try (repeat (split; [intros ? [=]; subst; simpl; simp_one; lia|]);
       apply (rest_protected _ _ _ _ Hinv Hi)); try (apply (inv_user _ Hinv));
  try (simp_one; lia).

Lemma cancel_timeout_work_ok s i a rest :
  inv s → s.(threads) !! i = Some (Cancel_timeout_work a :: rest) →
  op_ok s i (Cancel_timeout_work a) rest.
Proof.
  intros Hinv Hi. unfold op_ok. simpl. unfold gcip_mailbox_cancel_timeout_work.
  destruct (borrowed_live _ _ _ _ a Hinv Hi eq_refl) as (Hr & _ & w & Hw & Hk & Hpos).
  rewrite Hw. simpl.
  assert (w.(timeout_work) ≠ WorkPending → inv (after s i [] rest s.(mbx))) as Hno.
  { intros _. eapply (inv_update _ _ (Cancel_timeout_work a) _ _ _ a w w); try solve [counts].
    - solve_plain Hi Hinv.
    - by rewrite insert_id.
    - not_building. }
  destruct (w.(timeout_work)) eqn:Ht; simpl; [by apply Hno| |by apply Hno].
  eapply (inv_update _ _ (Cancel_timeout_work a) _ _ _ a w (set_timeout_work WorkIdle w));
    try solve [simpl; rewrite ?Ht; counts].
  - solve_plain Hi Hinv.
  - not_building.
Qed.

Lemma cancel_timeout_work_sync_ok s i a rest :
  inv s → s.(threads) !! i = Some (Cancel_timeout_work_sync a :: rest) →
  op_ok s i (Cancel_timeout_work_sync a) rest.
Proof.
  intros Hinv Hi. unfold op_ok. simpl.
  unfold gcip_mailbox_cancel_timeout_work_sync, gcip_mailbox_cancel_timeout_work.
  destruct (borrowed_live _ _ _ _ a Hinv Hi eq_refl) as (Hr & _ & w & Hw & Hk & Hpos).
  rewrite Hw. simpl. destruct (w.(timeout_work)) eqn:Ht; simpl; [| |done].
  - eapply (inv_update _ _ (Cancel_timeout_work_sync a) _ _ _ a w w); try solve [counts].
    + solve_plain Hi Hinv.
    + by rewrite insert_id.
    + intros (Hw1 & [[? ?]|[?|[_ [?|?]]]]) _ Ho; simplify_eq. split; [done|].
      split; [done|]. auto.
  - eapply (inv_update _ _ (Cancel_timeout_work_sync a) _ _ _ a w (set_timeout_work WorkIdle w));
      try solve [simpl; rewrite ?Ht; counts].
    + solve_plain Hi Hinv.
    + intros (Hw1 & [[? ?]|[?|[? [?|?]]]]) _ Ho; simplify_eq. split; [done|].
      split; [done|]. simpl. auto.
Qed.

(** Operations that leave the awaiters as they are. *)
Lemma same_awaiters_ok s i o rest m a w :
  inv s → plain_step s i o rest [] m a → borrows o = Some a →
  s.(mbx).(awaiters) !! a = Some w → 0 < w.(kref) → m.(awaiters) = s.(mbx).(awaiters) →
  (a ∈ m.(owned) ↔ a ∈ s.(mbx).(owned)) →
  (∀ b w p, ¬ build_shape b w (o :: p)) →
  inv (after s i [] rest m).
Proof.
  intros Hinv Hps Hb Hw Hpos Hm Ho Hs.
  eapply (inv_update _ _ o _ _ _ a w w); try done.
  - by rewrite Hm, insert_id.
  - rewrite (one_iff _ _ Ho). destruct o; simplify_eq; counts.
  - destruct o; simplify_eq; counts.
  - rewrite (one_iff _ _ Ho). destruct o; simplify_eq; counts.
  - intros Hx. by destruct (Hs _ _ _ Hx).
Qed.

Lemma handler_ok s i o a rest cb e :
  inv s → s.(threads) !! i = Some (o :: rest) → borrows o = Some a →
  (∀ b w p, ¬ build_shape b w (o :: p)) → (∀ b, runs_timeout b o = 0%nat) → plain o →
  (∀ h f r, user_ok h → cb = Some f → user_ok (f a r h)) →
  wp (handler cb a e s.(mbx)) (λ '(p, m), inv (after s i p rest m)).
Proof.
  intros Hinv Hi Hb Hs Hrt Hpl Hu. unfold handler.
  destruct (borrowed_live _ _ _ _ a Hinv Hi Hb) as (Hr & H0 & w & Hw & Hk & Hpos).
  rewrite Hw. simpl.
  eapply (same_awaiters_ok _ _ o _ _ a w); try done; [|lia|by destruct cb|by destruct cb].
  assert (∀ b, weight b o = 0%nat) as Hwo by (intros b; destruct o; simplify_eq; done).
  constructor; try done; try (by destruct cb).
  - intros; singletons.
  - destruct cb eqn:Hcb; simpl; [eapply Hu; [apply Hinv|done]|apply Hinv].
  - rewrite cnt_cons. lia.
  - apply (rest_protected _ _ _ _ Hinv Hi).
Qed.

Lemma complete_all_ok s i a rest :
  inv s → s.(threads) !! i = Some (Complete_all a :: rest) → op_ok s i (Complete_all a) rest.
Proof.
  intros Hinv Hi. unfold op_ok. simpl. unfold complete_all.
  destruct (borrowed_live _ _ _ _ a Hinv Hi eq_refl) as (Hr & _ & w & Hw & Hk & Hpos).
  rewrite Hw. simpl.
  eapply (inv_update _ _ (Complete_all a) _ _ _ a w (set_handled w)); try solve [counts].
  - solve_plain Hi Hinv.
  - not_building.
Qed.

(** Operations that give the awaiter back to the user. *)
Lemma give_back_ok s i o a rest e :
  inv s → s.(threads) !! i = Some (o :: rest) → weight a o = 1%nat → user_ref a o = 1%nat →
  (∀ b, b ≠ a → weight b o = 0%nat) → plain o → (∀ b, runs_timeout b o = 0%nat) →
  (∀ b w p, ¬ build_shape b w (o :: p)) →
  let m := set_owned ({[a]} ∪ s.(mbx).(owned)) s.(mbx) in
  inv (after s i [] rest (match e with Some e => log e m | None => m end)).
Proof.
  intros Hinv Hi H1 Hur H0 Hpl Hrt Hs m.
  assert (a ∉ s.(mbx).(owned)) as Ho.
  { pose proof (inv_once _ Hinv a) as Ho. intros Hin. rewrite (one_yes (a ∈ _)) in Ho by done.
    pose proof (cnt_lookup (cnt (user_ref a)) _ _ _ Hi) as Hc. rewrite cnt_cons in Hc. lia. }
  destruct (mentioned_live _ _ _ a Hinv Hi) as (w & Hw & Hk & Hle); [rewrite cnt_cons; lia|].
  rewrite cnt_cons in Hle.
  eapply (inv_update _ _ o _ _ _ a w w); try done.
  - constructor; try done; try (by destruct e).
    + intros; singletons.
    + destruct e; apply Hinv.
    + intros b Hb. destruct e; simpl; set_solver.
    + intros b Hb. by rewrite H0.
    + rewrite cnt_cons. lia.
    + apply (rest_protected _ _ _ _ Hinv Hi).
  - destruct e; simpl; by rewrite insert_id.
  - rewrite H1. destruct e; simpl; rewrite (one_no (a ∈ s.(mbx).(owned))), (one_yes (a ∈ _ ∪ _))
      by (done || set_solver); lia.
  - lia.
  - rewrite Hrt. done.
  - rewrite Hur. destruct e; simpl; rewrite (one_no (a ∈ s.(mbx).(owned))), (one_yes (a ∈ _ ∪ _))
      by (done || set_solver); lia.
  - intros Hx. by destruct (Hs _ _ _ Hx).
Qed.

Lemma call_same (cb : option (H → H)) m :
  (call cb m).(wait_list) = m.(wait_list) ∧ (call cb m).(frames) = m.(frames)
  ∧ (call cb m).(tx_queue_lock) = m.(tx_queue_lock) ∧ (call cb m).(tx_queue) = m.(tx_queue)
  ∧ (call cb m).(queue_wrap_bit) = m.(queue_wrap_bit) ∧ (call cb m).(owned) = m.(owned)
  ∧ (call cb m).(awaiters) = m.(awaiters).
Proof. by destruct cb. Qed.

(** Dropping a reference: the awaiter stays with one less, or is freed. *)
Lemma awaiter_put_spec m a w :
  m.(awaiters) !! a = Some w → user_ok m.(user) →
  (w.(kref) = 1 → w.(timeout_work) ≠ WorkPending) →
  wp (gcip_mailbox_awaiter_put a m) (λ m',
    m'.(wait_list) = m.(wait_list) ∧ m'.(frames) = m.(frames)
    ∧ m'.(tx_queue_lock) = m.(tx_queue_lock) ∧ m'.(tx_queue) = m.(tx_queue)
    ∧ m'.(queue_wrap_bit) = m.(queue_wrap_bit) ∧ m'.(owned) = m.(owned) ∧ user_ok m'.(user)
    ∧ m'.(awaiters) = (if w.(kref) - 1 =? 0 then delete a m.(awaiters)
                       else <[a := set_kref (w.(kref) - 1) w]> m.(awaiters))).
Proof.
  intros Hw Hu Hp. unfold gcip_mailbox_awaiter_put. rewrite Hw. simpl.
  destruct (Z.eqb_spec (w.(kref) - 1) 0) as [Hz|Hz]; [|done].
  unfold gcip_mailbox_awaiter_destroy, kfree_awaiter.
  set (m1 := set_awaiters _ m). set (cb := release_awaiter_data ≫= _).
  destruct (call_same cb m1) as (E1 & E2 & E3 & E4 & E5 & E6 & E7). rewrite E7.
  unfold m1 at 1. simpl. rewrite lookup_insert_eq. simpl.
  rewrite decide_False by (apply Hp; lia). simpl. rewrite E1, E2, E3, E4, E5, E6.
  split_and!; try done; [|subst m1; simpl; apply delete_insert_eq].
  destruct release_awaiter_data eqn:Hr; simpl; [by apply user_release|done].
Qed.

Lemma runs_timeout_weight a o : (runs_timeout a o ≤ weight a o)%nat.
Proof. destruct o; simpl; lia. Qed.

(** The references of the other operations cover the timeout that runs. *)
Lemma running_le s i o rest a :
  s.(threads) !! i = Some (o :: rest) →
  (cnt (cnt (runs_timeout a)) s.(threads) + weight a o ≤ held a s + runs_timeout a o)%nat.
Proof.
  intros Hi. pose proof (cnt_after (runs_timeout a) _ _ _ _ [] s.(mbx) Hi) as H1.
  pose proof (held_after _ _ _ _ [] s.(mbx) a Hi) as H2. simpl in H1, H2.
  assert (cnt (cnt (runs_timeout a)) (after s i [] rest s.(mbx)).(threads)
          ≤ held a (after s i [] rest s.(mbx)))%nat; [|simpl in *; lia].
  apply cnt_le. intros p. apply cnt_le, runs_timeout_weight.
Qed.

(** The last reference is dropped by a thread when no timer is armed, and no other
    thread runs the timeout. *)
Lemma last_ref s i o rest a w :
  inv s → s.(threads) !! i = Some (o :: rest) → weight a o = 1%nat →
  s.(mbx).(awaiters) !! a = Some w → w.(kref) = 1 →
  one (w.(timeout_work) = WorkPending) = 0%nat
  ∧ one (w.(timeout_work) = WorkRunning) = runs_timeout a o ∧ one (a ∈ s.(mbx).(owned)) = 0%nat.
Proof.
  intros Hinv Hi Ho Hw H1.
  destruct (mentioned_live _ _ _ a Hinv Hi) as (w' & Hw' & Hk & Hle); [rewrite cnt_cons; lia|].
  simplify_eq. rewrite cnt_cons in Hle. pose proof (running_le _ _ _ _ a Hi) as Hr.
  pose proof (inv_running _ Hinv a) as Hn. rewrite Hw in Hn. unfold refs in *.
  pose proof (cnt_lookup (cnt (runs_timeout a)) _ _ _ Hi) as Hc. rewrite cnt_cons in Hc. lia.
Qed.

Lemma awaiter_put_ok s i a rest :
  inv s → s.(threads) !! i = Some (Awaiter_put a :: rest) → op_ok s i (Awaiter_put a) rest.
Proof.
  intros Hinv Hi. unfold op_ok. simpl. apply wp_bind.
  destruct (mentioned_live _ _ _ a Hinv Hi) as (w & Hw & Hk & Hle); [counts|].
  assert (weight a (Awaiter_put a) = 1%nat) as H1 by counts.
  eapply wp_mono.
  { apply (awaiter_put_spec _ a w); [done|apply Hinv|]. intros Hk1 Hp.
    destruct (last_ref _ _ _ _ _ _ Hinv Hi H1 Hw Hk1) as [Hx _]. by rewrite one_yes in Hx. }
  intros m (E1 & E2 & E3 & E4 & E5 & E6 & Hu & Haw). simpl.
  assert (plain_step s i (Awaiter_put a) rest [] m a) as Hps.
  { constructor; rewrite ?E6; try done; try (intros; singletons; done);
      try (intros; counts); try (apply (rest_protected _ _ _ _ Hinv Hi)). }
  destruct (Z.eqb_spec (w.(kref) - 1) 0) as [Hz|Hz].
  - destruct (last_ref _ _ _ _ _ _ Hinv Hi H1 Hw ltac:(lia)) as (Hx1 & Hx2 & Hx3).
    eapply (inv_delete _ _ (Awaiter_put a) _ _ _ a w); try done; rewrite ?E6, ?Hx1, ?Hx2; counts.
  - eapply (inv_update _ _ (Awaiter_put a) _ _ _ a w (set_kref (w.(kref) - 1) w)); try done;
      rewrite ?E6; try solve [counts].
    intros (Hw1 & [[? ?]|[?|[? [?|?]]]]) _ Ho; simplify_eq. split; [done|]. split; [done|].
    simpl. auto.
Qed.

Lemma timeout_put_ok s i a rest :
  inv s → s.(threads) !! i = Some (Timeout_put a :: rest) → op_ok s i (Timeout_put a) rest.
Proof.
  intros Hinv Hi. unfold op_ok. simpl. unfold timeout_put. apply wp_bind.
  destruct (mentioned_live _ _ _ a Hinv Hi) as (w & Hw & Hk & Hle); [counts|].
  assert (weight a (Timeout_put a) = 1%nat) as H1 by counts.
  assert (w.(timeout_work) = WorkRunning) as Hrun.
  { pose proof (inv_running _ Hinv a) as Hr. rewrite Hw in Hr.
    pose proof (cnt_lookup (cnt (runs_timeout a)) _ _ _ Hi) as Hc. rewrite cnt_cons in Hc.
    simpl in Hc. unfold one in *. repeat case_decide; lia || done. }
  eapply wp_mono.
  { apply (awaiter_put_spec _ a w); [done|apply Hinv|]. intros Hk1 Hp. congruence. }
  intros m (E1 & E2 & E3 & E4 & E5 & E6 & Hu & Haw). simpl.
  set (m' := set_awaiters _ m).
  assert (plain_step s i (Timeout_put a) rest [] m' a) as Hps.
  { constructor; simpl; rewrite ?E6; try done; try (intros; singletons; done);
      try (intros; counts); try (apply (rest_protected _ _ _ _ Hinv Hi)). }
  destruct (Z.eqb_spec (w.(kref) - 1) 0) as [Hz|Hz].
  - destruct (last_ref _ _ _ _ _ _ Hinv Hi H1 Hw ltac:(lia)) as (Hx1 & Hx2 & Hx3).
    eapply (inv_delete _ _ (Timeout_put a) _ _ _ a w); try done; simpl;
      rewrite ?E6, ?Hx1, ?Hx2; try solve [counts].
    rewrite Haw. apply map_eq. intros b. destruct (decide (a = b)) as [->|].
    + by rewrite lookup_alter_eq, !lookup_delete_eq.
    + by rewrite lookup_alter_ne.
  - eapply (inv_update _ _ (Timeout_put a) _ _ _ a w
              (set_timeout_work WorkIdle (set_kref (w.(kref) - 1) w))); try done; simpl;
      rewrite ?E6; try solve [rewrite ?Hrun; counts].
    + rewrite Haw. by rewrite alter_insert_eq.
    + not_building.
Qed.

Lemma cancel_wait_ok s i a rest :
  inv s → s.(threads) !! i = Some (Cancel_wait a :: rest) → op_ok s i (Cancel_wait a) rest.
Proof.
  intros Hinv Hi. unfold op_ok. simpl. unfold wait_for_completion.
  destruct (mentioned_live _ _ _ a Hinv Hi) as (w & Hw & Hk & Hle); [counts|].
  rewrite Hw. simpl. destruct w.(handled); simpl; [|done]. rewrite cnt_cons in Hle. simpl in Hle.
  eapply (inv_update _ _ (Cancel_wait a) _ _ _ a w w); try solve [counts].
  - solve_plain Hi Hinv.
  - by rewrite insert_id.
  - not_building.
Qed.

Lemma awaiter_flushed_ok s i a rest :
  inv s → s.(threads) !! i = Some (Awaiter_flushed a :: rest) →
  op_ok s i (Awaiter_flushed a) rest.
Proof.
  intros Hinv Hi. unfold op_ok. simpl. unfold awaiter_flushed.
  destruct (mentioned_live _ _ _ a Hinv Hi) as (w & Hw & Hk & Hle); [counts|].
  rewrite Hw. simpl. rewrite cnt_cons in Hle. simpl in Hle.
  destruct handle_awaiter_flushed as [f|] eqn:Hf.
  - eapply (inv_user_change (after s i [] rest (log (Flushed a)
      (set_owned ({[a]} ∪ s.(mbx).(owned)) s.(mbx)))) (f a _ s.(mbx).(user))).
    + apply (give_back_ok s i (Awaiter_flushed a) a rest (Some (Flushed a)));
        try done; try (intros; counts); intros; not_building.
    + eapply user_flushed; [apply Hinv|done].
  - eapply (inv_update _ _ (Awaiter_flushed a) _ _ _ a w w); try solve [counts].
    + solve_plain Hi Hinv.
    + by rewrite insert_id.
    + not_building.
Qed.

(** ** The list of waiters *)

Lemma find_waiter_spec m r l :
  (∀ e, e ∈ l → elem_ok m e) →
  wp (find_waiter m (Some r) l) (λ found,
    match found with
    | None => ∀ e w r', e ∈ l → deref e.(we_async_resp) m = Some w → w.(resp) = Some r' →
                matches r r' = false
    | Some (e, l') => ∃ l1 l2, l = l1 ++ e :: l2 ∧ l' = l1 ++ l2
        ∧ ∃ w r', deref e.(we_async_resp) m = Some w ∧ w.(resp) = Some r' ∧ matches r r' = true
    end).
Proof.
  induction l as [|e l IH]; intros Hl; simpl; [intros; by singletons|].
  destruct (Hl e) as (_ & w & r' & Hw & Hr' & _); [left|]. rewrite Hw. simpl.
  unfold does_response_match_waiter. simpl. rewrite Hr'. simpl.
  assert ((match op_does_response_match_waiter with
           | Some f => f r r' | None => get_resp_elem_seq r =? get_resp_elem_seq r' end)
          = matches r r') as -> by done.
  destruct (matches r r') eqn:Hm; simpl.
  - exists [], l. split_and!; try done. eauto.
  - apply wp_bind. eapply wp_mono; [apply IH; intros; apply Hl; by right|].
    intros [[e' l']|]; simpl.
    + intros (l1 & l2 & -> & -> & Hx). exists (e :: l1), l2. done.
    + intros Hx e' w' r'' [->|He']%elem_of_cons Hw' Hr''; [by simplify_eq|eauto].
Qed.

(** Each waiter is found under its own key, and under no other. *)
Lemma find_self s d w r :
  inv s → deref d s.(mbx) = Some w → w.(resp) = Some r → unlisted d s = false →
  wp (find_waiter s.(mbx) (Some r) s.(mbx).(wait_list)) (λ found,
    match found with
    | None => ∀ e, e ∈ s.(mbx).(wait_list) → e.(we_async_resp) ≠ d
    | Some (e, l') => ∃ l1 l2, s.(mbx).(wait_list) = l1 ++ e :: l2 ∧ l' = l1 ++ l2
        ∧ e.(we_async_resp) = d
    end).
Proof.
  intros Hinv Hd Hr Hu. eapply wp_mono; [apply find_waiter_spec, Hinv|].
  intros [[e l']|].
  - intros (l1 & l2 & Hl & -> & w' & r' & Hw' & Hr' & Hm). exists l1, l2. split_and!; try done.
    eapply (inv_match _ Hinv); eauto. rewrite Hl. set_solver.
  - intros Hx e He <-. specialize (Hx e w r He Hd Hr). by rewrite matches_refl in Hx.
Qed.

(** The entry [e] leaves the list while the thread [i] goes from [o] to [p]. *)
Record unlist_step s (i : nat) (o : op) (rest p : list op) m (e : wait_list_elem)
    (l1 l2 : list wait_list_elem) : Prop := UnlistStep {
  us_thread : s.(threads) !! i = Some (o :: rest);
  us_before : s.(mbx).(wait_list) = l1 ++ e :: l2;
  us_after : m.(wait_list) = l1 ++ l2;
  us_lock : m.(tx_queue_lock) = s.(mbx).(tx_queue_lock);
  us_queue : m.(tx_queue) = s.(mbx).(tx_queue);
  us_wrap : m.(queue_wrap_bit) = s.(mbx).(queue_wrap_bit);
  us_user : user_ok m.(user);
  us_frames t : is_Some (m.(frames) !! t) ↔ is_Some (s.(mbx).(frames) !! t);
  us_awaiters a : is_Some (m.(awaiters) !! a) ↔ is_Some (s.(mbx).(awaiters) !! a);
  us_deref d w : deref d m = Some w → ∃ w', deref d s.(mbx) = Some w' ∧
    (d ≠ e.(we_async_resp) → w = w') ∧
    match w.(resp), w'.(resp) with
    | Some r, Some r' => ∀ x, matches r x = matches r' x
    | None, None => True | _, _ => False end;
  us_copy o' cmd d : o' ∈ o :: p → o' ≠ Enqueue_copy cmd d;
  us_build a : ∀ w q, ¬ build_shape a w (o :: q);
  us_op d : op_unlists d o = false;
  us_unlists o' d : o' ∈ p → op_unlists d o' = true → d = OnStack i ∧ d = e.(we_async_resp);
  us_alone o' : o' ∈ p → alone o' = true → p ++ rest = [o'];
  us_frame o' t : o' ∈ p → frame_of o' = Some t → t = i ∧ frame_of o = Some i;
  us_waits o' : o' ∈ p → waits_for o' = None;
  us_self t : frame_of o = Some t → e.(we_async_resp) = OnStack t;
  us_same a : cnt (weight a) (o :: rest) = 0%nat → listed_refs a s.(mbx) = 0%nat →
    m.(awaiters) !! a = s.(mbx).(awaiters) !! a ∧ cnt (weight a) p = 0%nat;
  us_owned : m.(owned) = s.(mbx).(owned);
  us_refs a : match m.(awaiters) !! a with
        | Some w => w.(kref) = Z.of_nat (refs a (after s i p rest m))
                    ∧ (0 < refs a (after s i p rest m))%nat
        | None => refs a (after s i p rest m) = 0%nat end;
  us_once a : cnt (user_ref a) p = user_ref a o;
  us_work a w' : m.(awaiters) !! a = Some w' →
    ∃ w, s.(mbx).(awaiters) !! a = Some w ∧ w'.(timeout_work) = w.(timeout_work);
  us_runs a : cnt (runs_timeout a) p = runs_timeout a o;
  us_compares a : (cnt (compares a) p ≤ compares a o)%nat;
  us_protected : protected (p ++ rest)
}.

Lemma unlisted_mono s i o rest p m d :
  s.(threads) !! i = Some (o :: rest) → op_unlists d o = false →
  unlisted d s = true → unlisted d (after s i p rest m) = true.
Proof.
  intros Hi Ho. rewrite !unlisted_spec. intros (j & q & Hj & Hq).
  destruct (decide (j = i)) as [->|Hne].
  - simplify_eq. simpl in Hq. rewrite Ho in Hq. simpl in Hq. exists i, (p ++ rest).
    split; [|by rewrite existsb_app, Hq, orb_true_r].
    simpl. apply list_lookup_insert_eq. by eapply lookup_lt_Some.
  - exists j, q. split; [|done]. simpl. by rewrite list_lookup_insert_ne.
Qed.

Lemma unlisted_new s i o rest p m d :
  s.(threads) !! i = Some (o :: rest) → unlisted d (after s i p rest m) = true →
  unlisted d s = true ∨ existsb (op_unlists d) p = true.
Proof.
  intros Hi. rewrite !unlisted_spec. intros (j & q & Hj & Hq).
  destruct (after_lookup _ _ _ _ _ _ _ _ Hi Hj) as [[-> ->]|[Hne Hj']]; [|left; eauto].
  rewrite existsb_app in Hq. apply orb_true_iff in Hq as [Hq|Hq]; [by right|left].
  exists i, (o :: rest). split; [done|]. simpl. by rewrite Hq, orb_true_r.
Qed.

Lemma inv_unlist s i o rest p m e l1 l2 :
  inv s → unlist_step s i o rest p m e l1 l2 → inv (after s i p rest m).
Proof.
  intros Hinv Hus. pose proof (us_thread _ _ _ _ _ _ _ _ _ Hus) as Hi.
  pose proof (us_before _ _ _ _ _ _ _ _ _ Hus) as Hl.
  pose proof (us_after _ _ _ _ _ _ _ _ _ Hus) as Hl'.
  assert (∀ e', e' ∈ l1 ++ l2 → e' ∈ s.(mbx).(wait_list)
            ∧ e'.(we_async_resp) ≠ e.(we_async_resp)) as Hin.
  { intros e' He'. rewrite Hl. split; [set_solver|]. intros Heq.
    pose proof (inv_nodup _ Hinv) as Hnd. rewrite Hl, fmap_app in Hnd. simpl in Hnd.
    apply NoDup_app in Hnd as (_ & Hnd & Hnd'). apply NoDup_cons in Hnd' as [Hnd' _].
    apply elem_of_app in He' as [He'|He'].
    - apply (Hnd (e'.(we_async_resp))); [by apply list_elem_of_fmap_2|]. rewrite Heq. left.
    - apply Hnd'. rewrite <- Heq. by apply list_elem_of_fmap_2. }
  assert (∀ d, d ≠ e.(we_async_resp) → unlisted d s = false →
            unlisted d (after s i p rest m) = false) as Hun.
  { intros d Hd Hu. apply not_true_iff_false. intros Ht.
    destruct (unlisted_new _ _ _ _ _ _ _ Hi Ht) as [Ht'|Ht']; [congruence|].
    apply existsb_exists in Ht' as (o' & Ho' & Hx). apply list_elem_of_In in Ho'.
    by destruct (us_unlists _ _ _ _ _ _ _ _ _ Hus o' d Ho' Hx). }
  assert (∀ d w r, deref d m = Some w → w.(resp) = Some r → ∃ w' r',
            deref d s.(mbx) = Some w' ∧ w'.(resp) = Some r' ∧ ∀ x, matches r x = matches r' x)
    as Hder.
  { intros d w r Hw Hr. destruct (us_deref _ _ _ _ _ _ _ _ _ Hus d w Hw) as (w' & Hw' & _ & Hx).
    rewrite Hr in Hx. destruct (w'.(resp)) as [r'|] eqn:Hr'; [|done]. eauto 10. }
  assert (∀ d, is_Some (deref d m) ↔ is_Some (deref d s.(mbx))) as Hlive.
  { intros [t|a]; simpl; [apply (us_frames _ _ _ _ _ _ _ _ _ Hus)|].
    rewrite !fmap_is_Some. apply (us_awaiters _ _ _ _ _ _ _ _ _ Hus). }
  assert (∀ j q o', (after s i p rest m).(threads) !! j = Some q → o' ∈ q → alone o' = true →
            (j = i ∧ q = p ++ rest ∧ o' ∈ p) ∨ j ≠ i ∧ s.(threads) !! j = Some q) as Haj.
  { intros j q o' Hj Ho' Ha'.
    destruct (after_lookup _ _ _ _ _ _ _ _ Hi Hj) as [[-> ->]|[Hne Hj']]; [|by right].
    apply elem_of_app in Ho' as [Ho'|Ho']; [by left|].
    pose proof (inv_alone _ Hinv i _ o' Hi ltac:(set_solver) Ha'). simplify_eq. set_solver. }
  assert (∀ e', e' ∈ l1 ++ l2 → ∀ w' r', deref e'.(we_async_resp) m = Some w' →
            w'.(resp) = Some r' → ∃ w0 r0, deref e'.(we_async_resp) s.(mbx) = Some w0
              ∧ w0.(resp) = Some r0 ∧ ∀ x, matches x r' = matches x r0) as Hder'.
  { intros e' He' w' r' Hw' Hr'. destruct (Hder _ _ _ Hw' Hr') as (w0 & r0 & ? & ? & Hx).
    exists w0, r0. split_and!; try done. intros x. by rewrite !(matches_sym x). }
  constructor; try apply Hus.
  - intros a. pose proof (cnt_after (user_ref a) _ _ _ _ p m Hi) as Hc.
    pose proof (inv_once _ Hinv a) as Ho. rewrite (us_once _ _ _ _ _ _ _ _ _ Hus a) in Hc.
    simpl. rewrite (us_owned _ _ _ _ _ _ _ _ _ Hus). simpl in *. lia.
  - split; simpl; [rewrite (us_wrap _ _ _ _ _ _ _ _ _ Hus)|rewrite (us_queue _ _ _ _ _ _ _ _ _ Hus)];
      apply Hinv.
  - intros a Ha. apply (inv_fresh _ Hinv). by apply (us_awaiters _ _ _ _ _ _ _ _ _ Hus).
  - intros q Hq'. apply list_elem_of_lookup in Hq' as [j Hj].
    destruct (after_lookup _ _ _ _ _ _ _ _ Hi Hj) as [[-> ->]|[_ Hj']]; [apply Hus|].
    eapply (inv_protected _ Hinv), list_elem_of_lookup_2, Hj'.
  - simpl. rewrite Hl'. intros e' He'. destruct (Hin e' He') as [He0 Hne].
    destruct (inv_elem _ Hinv e' He0) as (Hea & w & r & Hw & Hr & Hwt). split; [done|].
    destruct (Hlive (e'.(we_async_resp))) as [_ [w' Hw']]; [eauto|].
    destruct (us_deref _ _ _ _ _ _ _ _ _ Hus _ _ Hw') as (w0 & Hw0 & Heq & _). simplify_eq.
    rewrite (Heq Hne) in Hw'. eauto.
  - simpl. rewrite Hl'. intros e' He'. destruct (Hin e' He') as [He0 Hne].
    apply Hun; [done|by apply (inv_listed _ Hinv)].
  - simpl. rewrite Hl'. pose proof (inv_nodup _ Hinv) as Hnd. rewrite Hl in Hnd.
    rewrite fmap_app in *. simpl in Hnd. apply NoDup_app in Hnd as (? & Hnd & [? ?]%NoDup_cons).
    apply NoDup_app. split_and!; try done. intros x Hx Hx'. apply (Hnd x Hx). by right.
  - simpl. rewrite Hl'. intros d w r e' w' r' Hd Hr Hu He' Hw' Hr' Hm.
    destruct (Hder _ _ _ Hd Hr) as (w0 & r0 & Hw0 & Hr0 & Hx).
    destruct (Hder' _ He' _ _ Hw' Hr') as (w1 & r1 & Hw1 & Hr1 & Hx1).
    eapply (inv_match _ Hinv); try done; [|by apply Hin|by rewrite <- Hx, <- Hx1].
    apply not_true_iff_false. intros Ht.
    by rewrite (unlisted_mono _ _ _ _ p m d Hi (us_op _ _ _ _ _ _ _ _ _ Hus d) Ht) in Hu.
  - intros j q o' Hj Ho' Ha'. destruct (Haj _ _ _ Hj Ho' Ha') as [(-> & -> & Hp)|[_ Hj']].
    + by apply (us_alone _ _ _ _ _ _ _ _ _ Hus).
    + by eapply (inv_alone _ Hinv).
  - intros j q o' t Hj Ho' Hf.
    destruct (Haj _ _ _ Hj Ho' ltac:(by eapply frame_alone)) as [(-> & -> & Hp)|[_ Hj']]; simpl.
    + destruct (us_frame _ _ _ _ _ _ _ _ _ Hus o' t Hp Hf) as [-> Hf']. split; [done|].
      apply (us_frames _ _ _ _ _ _ _ _ _ Hus).
      apply (inv_frame _ Hinv i (o :: rest) o i); [done|left|done].
    + destruct (inv_frame _ Hinv j q o' t Hj' Ho' Hf) as [-> Hfr]. split; [done|].
      by apply (us_frames _ _ _ _ _ _ _ _ _ Hus).
  - simpl. rewrite Hl'. intros e' t He' Ht. destruct (Hin e' He') as [He0 Hne].
    destruct (inv_stack _ Hinv e' t He0 Ht) as (o' & Ho' & Hf). exists o'. split; [|done].
    rewrite list_lookup_insert_ne; [done|]. intros ->. simplify_eq.
    rewrite (us_self _ _ _ _ _ _ _ _ _ Hus _ Hf) in Hne. done.
  - intros j q o' t Hj Ho' Hf. destruct (waits_alone _ _ Hf) as [Ha' _].
    destruct (Haj _ _ _ Hj Ho' Ha') as [(_ & _ & Hp)|[_ Hj']].
    { rewrite (us_waits _ _ _ _ _ _ _ _ _ Hus _ Hp) in Hf. done. }
    destruct (inv_waits _ Hinv j q o' t Hj' Ho' Hf) as [r Hr].
    apply bind_Some in Hr as (w & Hw & Hr).
    destruct (Hlive (OnStack t)) as [_ [w' Hw']]; [eauto|]. cbn -[deref]. rewrite Hw'. simpl.
    destruct (us_deref _ _ _ _ _ _ _ _ _ Hus _ _ Hw') as (w0 & Hw0 & _ & Hx).
    rewrite Hw in Hw0. injection Hw0 as <-. rewrite Hr in Hx. destruct (w'.(resp)); [eauto|done].
  - intros j. simpl. rewrite (us_lock _ _ _ _ _ _ _ _ _ Hus), (inv_lock _ Hinv j).
    split; intros (cmd & d & Hj); exists cmd, d.
    + rewrite list_lookup_insert_ne; [done|]. intros ->. simplify_eq. exfalso.
      by eapply (us_copy _ _ _ _ _ _ _ _ _ Hus); [left|].
    + destruct (Haj j _ (Enqueue_copy cmd d) Hj ltac:(set_solver) eq_refl) as [(_ & _ & Hp)|[_ Hj']];
        [|done]. exfalso. by eapply (us_copy _ _ _ _ _ _ _ _ _ Hus); [right|].
  - intros j cmd d Hj.
    destruct (Haj j _ (Enqueue_copy cmd d) Hj ltac:(set_solver) eq_refl) as [(_ & _ & Hp)|[_ Hj']].
    + exfalso. by eapply (us_copy _ _ _ _ _ _ _ _ _ Hus); [right|].
    + apply Hlive. destruct (inv_copy _ Hinv _ _ _ Hj') as [w ->]. eauto.
  - intros a. pose proof (cnt_after (runs_timeout a) _ _ _ _ p m Hi) as Hc.
    rewrite (us_runs _ _ _ _ _ _ _ _ _ Hus a) in Hc. pose proof (inv_running _ Hinv a) as Hr.
    simpl in *. destruct (m.(awaiters) !! a) as [w'|] eqn:Hw'.
    + destruct (us_work _ _ _ _ _ _ _ _ _ Hus a w' Hw') as (w & Hw & ->). rewrite Hw in Hr. lia.
    + destruct (s.(mbx).(awaiters) !! a) eqn:Hw; [|lia].
      destruct (us_awaiters _ _ _ _ _ _ _ _ _ Hus a) as [_ [? ?]]; [eauto|congruence].
  - intros a w' Hw' Hno. destruct (us_work _ _ _ _ _ _ _ _ _ Hus a w' Hw') as (w & Hw & Heq).
    destruct (us_deref _ _ _ _ _ _ _ _ _ Hus (InAwaiter a) (aw_async_resp w')) as (w0 & Hw0 & _ & Hx).
    { simpl in *. by rewrite Hw'. }
    simpl in Hw0. rewrite Hw in Hw0. injection Hw0 as <-. rewrite Hno in Hx.
    destruct (inv_resp _ Hinv a w Hw) as [H1 H2]; [by destruct (resp (aw_async_resp w))|].
    rewrite Heq. split; [done|]. pose proof (cnt_after (compares a) _ _ _ _ p m Hi) as Hc.
    pose proof (us_compares _ _ _ _ _ _ _ _ _ Hus a). lia.
  - intros j q a Hj Hx. destruct (after_lookup _ _ _ _ _ _ _ _ Hi Hj) as [[-> ->]|[Hne Hj']].
    + exfalso. rewrite existsb_app in Hx. apply orb_true_iff in Hx as [Hx|Hx].
      * apply existsb_exists in Hx as (o' & Ho' & Hx). apply list_elem_of_In in Ho'.
        by destruct (us_unlists _ _ _ _ _ _ _ _ _ Hus o' _ Ho' Hx).
      * destruct (inv_build _ Hinv i (o :: rest) a Hi) as (_ & _ & _ & w & _ & Hs).
        { simpl. by rewrite Hx, orb_true_r. }
        by eapply us_build.
    + destruct (inv_build _ Hinv j q a Hj' Hx) as (Hh & Hr & Ho & w & Hw & Hs).
      assert (cnt (weight a) (o :: rest) = 0%nat) as H0.
      { pose proof (cnt_two (cnt (weight a)) _ _ _ _ _ Hne Hj' Hi). unfold held in Hh. lia. }
      destruct (us_same _ _ _ _ _ _ _ _ _ Hus a H0 Hr) as (Ha & Hpa).
      pose proof (held_after _ _ _ _ p m a Hi) as Hh'. rewrite cnt_cons in H0.
      split; [|split; [|split]].
      * simpl in *. lia.
      * unfold listed_refs in *. simpl. rewrite Hl'. rewrite Hl, cnt_app, cnt_cons in Hr.
        rewrite cnt_app. lia.
      * simpl. by rewrite (us_owned _ _ _ _ _ _ _ _ _ Hus).
      * simpl. rewrite Ha. eauto.
Qed.

Lemma listed_refs_cut (m m' : mailbox) e l1 l2 a :
  m.(wait_list) = l1 ++ e :: l2 → m'.(wait_list) = l1 ++ l2 →
  (listed_refs a m = listed_refs a m' + one (e.(we_awaiter) = Some a))%nat.
Proof. intros H1 H2. unfold listed_refs. rewrite H1, H2, !cnt_app, cnt_cons. lia. Qed.

(** The waiters that threads look for in the list are not on their way to it. *)
Lemma awaiter_listed s i o rest a :
  inv s → s.(threads) !! i = Some (o :: rest) → (∀ b w q, ¬ build_shape b w (o :: q)) →
  (0 < cnt (weight a) (o :: rest))%nat → unlisted (InAwaiter a) s = false.
Proof.
  intros Hinv Hi Hb Hpos. apply not_true_iff_false. intros (j & q & Hj & Hq)%unlisted_spec.
  destruct (inv_build _ Hinv j q a Hj Hq) as (Hh & _ & _ & w' & _ & Hs).
  destruct (decide (j = i)) as [->|Hne]; [simplify_eq; by eapply Hb|].
  pose proof (cnt_two (cnt (weight a)) _ _ _ _ _ Hne Hj Hi) as H2. unfold held in Hh. lia.
Qed.

Lemma stack_listed s i o :
  inv s → s.(threads) !! i = Some [o] → op_unlists (OnStack i) o = false →
  unlisted (OnStack i) s = false.
Proof.
  intros Hinv Hi Ho. apply not_true_iff_false. intros (j & q & Hj & Hq)%unlisted_spec.
  apply existsb_exists in Hq as (o' & Ho' & Hx). apply list_elem_of_In in Ho'.
  assert (frame_of o' = Some i) as Hf.
  { destruct o'; simpl in Hx |- *; try done; apply bool_decide_eq_true_1 in Hx; by simplify_eq. }
  destruct (inv_frame _ Hinv j q o' i Hj Ho' Hf) as [-> _]. simplify_eq.
  apply list_elem_of_singleton in Ho' as ->. congruence.
Qed.

(** An awaiter takes itself out of the list, to be timed out or cancelled. *)
Lemma del_awaiter_ok s i o rest p a :
  inv s → s.(threads) !! i = Some (o :: rest) → plain o → (∀ o', o' ∈ p → plain o') →
  compares a o = 1%nat → (∀ b, cnt (compares b) p = 0%nat) →
  (∀ b, cnt (weight b) p = weight b o) → (∀ b, b ≠ a → weight b o = 0%nat) →
  (∀ b, cnt (user_ref b) p = user_ref b o) →
  (∀ b, cnt (runs_timeout b) p = runs_timeout b o) →
  (∀ b w q, ¬ build_shape b w (o :: q)) → protected (p ++ rest) →
  (0 < cnt (weight a) (p ++ rest))%nat →
  wp (gcip_mailbox_del_wait_resp (InAwaiter a) s.(mbx)) (λ '(removed, m),
    if (removed : bool) then inv (after s i p rest m) else m = s.(mbx)).
Proof.
  intros Hinv Hi Hpl Hpl' Hcmp Hcmp' Hwt Hwt' Hur Hrt Hb Hpr Hpos.
  destruct (mentioned_live _ _ _ a Hinv Hi) as (w & Hw & Hk & Hle).
  { rewrite cnt_app in Hpos. rewrite cnt_cons, <- Hwt. lia. }
  destruct (w.(aw_async_resp).(resp)) as [r|] eqn:Hr.
  2: { destruct (inv_resp _ Hinv a w Hw Hr) as [_ H0].
       pose proof (cnt_lookup (cnt (compares a)) _ _ _ Hi) as Hc. rewrite cnt_cons in Hc. lia. }
  assert (unlisted (InAwaiter a) s = false) as Hu.
  { apply (awaiter_listed _ _ _ _ _ Hinv Hi Hb). rewrite cnt_app in Hpos.
    rewrite cnt_cons, <- Hwt. lia. }
  unfold gcip_mailbox_del_wait_resp. simpl. rewrite Hw. simpl. rewrite Hr.
  apply wp_bind. eapply wp_mono.
  { apply (find_self _ (InAwaiter a) (aw_async_resp w) r); try done. simpl. by rewrite Hw. }
  intros [[e l']|]; simpl; [|done]. intros (l1 & l2 & Hl & -> & He).
  destruct (inv_elem _ Hinv e ltac:(rewrite Hl; set_solver)) as [Hea _]. rewrite He in Hea.
  simpl in Hea. rewrite Hea. apply wp_bind.
  set (m := set_wait_list (l1 ++ l2) s.(mbx)).
  assert (∀ b, listed_refs b s.(mbx) = listed_refs b m + one (b = a))%nat as Hlr.
  { intros b. rewrite (listed_refs_cut s.(mbx) m e l1 l2 b Hl eq_refl), Hea. f_equal.
    apply one_iff. split; congruence. }
  rewrite cnt_cons in Hle. rewrite (Hlr a), (one_yes (a = a)) in Hle by done.
  assert (1 < refs a s)%nat as Hr1.
  { rewrite cnt_app in Hpos. rewrite <- Hwt in Hle. lia. }
  eapply wp_mono.
  { apply (awaiter_put_spec m a w); [done|apply Hinv|]. lia. }
  intros m' (E1 & E2 & E3 & E4 & E5 & E6 & Hus & Haw). simpl in *.
  rewrite (proj2 (Z.eqb_neq _ _)) in Haw by lia.
  set (w' := set_kref (w.(kref) - 1) w) in *.
  eapply (inv_unlist _ _ o _ _ _ e l1 l2); [done|].
  assert (∀ b, timer_ref b m' = timer_ref b s.(mbx)) as Ht.
  { intros b. unfold timer_ref. rewrite Haw. destruct (decide (b = a)) as [->|].
    - by rewrite lookup_insert_eq, Hw.
    - by rewrite lookup_insert_ne. }
  constructor; try done.
  - intros t. by rewrite E2.
  - intros b. rewrite Haw. destruct (decide (b = a)) as [->|].
    + rewrite lookup_insert_eq, Hw. by split; eauto.
    + by rewrite lookup_insert_ne.
  - intros d wd Hd. exists wd. split; [|split; [done|by case_match]].
    destruct d as [t|b]; simpl in *; [by rewrite <- E2|]. rewrite Haw in Hd.
    destruct (decide (b = a)) as [->|].
    + rewrite lookup_insert_eq in Hd. simplify_eq/=. by rewrite Hw.
    + by rewrite lookup_insert_ne in Hd.
  - intros o' cmd d [->|Ho']%elem_of_cons ->; [destruct Hpl; done|].
    destruct (Hpl' _ Ho'); done.
  - apply Hpl.
  - intros o' d Ho' Hx. destruct (Hpl' _ Ho') as [_ Hx']. by rewrite Hx' in Hx.
  - intros o' Ho' Ha. destruct (Hpl' _ Ho'). congruence.
  - intros o' t Ho' Hf. apply frame_alone in Hf. destruct (Hpl' _ Ho'). congruence.
  - intros o' Ho'. by apply plain_waits, Hpl'.
  - intros t Hf. apply frame_alone in Hf. destruct Hpl. congruence.
  - intros b H0 _. assert (b ≠ a) as Hba.
    { intros ->. rewrite cnt_app in Hpos. rewrite cnt_cons, <- Hwt in H0. lia. }
    rewrite Haw, lookup_insert_ne by done. by rewrite Hwt, Hwt'.
  - intros b. pose proof (held_after _ _ _ _ p m' b Hi) as Hh. rewrite Hwt in Hh.
    pose proof (inv_refs _ Hinv b) as Hrb. unfold refs in *. simpl.
    assert (listed_refs b m' = listed_refs b m) as -> by (unfold listed_refs; by rewrite E1).
    rewrite E6, Ht. simpl in Hh. rewrite (Hlr b) in Hrb. rewrite Haw. destruct (decide (b = a)) as [->|Hba].
    + rewrite lookup_insert_eq. rewrite Hw, (one_yes (a = a)) in Hrb by done.
      rewrite (Hlr a), (one_yes (a = a)) in Hr1 by done.
      unfold w'. simpl. simpl in Hrb. lia.
    + rewrite lookup_insert_ne by done. rewrite (one_no (b = a)) in Hrb by done.
      destruct (s.(mbx).(awaiters) !! b); simpl in *; lia.
  - intros b wb Hwb. rewrite Haw in Hwb. destruct (decide (b = a)) as [->|].
    + rewrite lookup_insert_eq in Hwb. simplify_eq. eauto.
    + rewrite lookup_insert_ne in Hwb by done. eauto.
  - intros b. rewrite Hcmp'. lia.
Qed.

Lemma timeout_del_ok s i a rest :
  inv s → s.(threads) !! i = Some (Timeout_del a :: rest) → op_ok s i (Timeout_del a) rest.
Proof.
  intros Hinv Hi. unfold op_ok. simpl. unfold gcip_mailbox_async_cmd_timeout_work. apply wp_bind.
  destruct (borrowed_live _ _ _ _ a Hinv Hi eq_refl) as (Hr & _ & w & Hw & Hk & Hpos).
  eapply wp_mono.
  { eapply (del_awaiter_ok s i (Timeout_del a) rest [Awaiter_timedout a; Complete_all a] a);
      try done; try (intros; counts); try (intros; singletons; done); try (intros; not_building).
    split; [intros ? [= <-]; simpl; simp_one; lia|].
    split; [intros ? [= <-]; simpl; simp_one; lia|]. apply (rest_protected _ _ _ _ Hinv Hi). }
  intros [[] m]; simpl; [done|]. intros ->.
  eapply (inv_update _ _ (Timeout_del a) _ _ _ a w w); try solve [counts].
  - solve_plain Hi Hinv.
  - by rewrite insert_id.
  - not_building.
Qed.

Lemma cancel_del_ok s i a rest :
  inv s → s.(threads) !! i = Some (Cancel_del a :: rest) → op_ok s i (Cancel_del a) rest.
Proof.
  intros Hinv Hi. unfold op_ok. simpl. unfold gcip_mailbox_cancel_awaiter. apply wp_bind.
  destruct (mentioned_live _ _ _ a Hinv Hi) as (w & Hw & Hk & Hle); [counts|].
  rewrite cnt_cons in Hle. simpl in Hle. rewrite (one_yes (a = a)) in Hle by done.
  eapply wp_mono.
  { eapply (del_awaiter_ok s i (Cancel_del a) rest [Cancel_return a true] a);
      try done; try (intros; counts); try (intros; singletons; done); try (intros; not_building).
    split; [intros ? [=]|]. apply (rest_protected _ _ _ _ Hinv Hi). }
  intros [[] m]; simpl; [done|]. intros ->.
  eapply (inv_update _ _ (Cancel_del a) _ _ _ a w w); try solve [counts].
  - solve_plain Hi Hinv.
  - by rewrite insert_id.
  - not_building.
Qed.

(** ** Commands *)

(** A thread goes from its only operation to [p]; what changes of the waiters is
    not in the list. *)
Record rethread_step s (i : nat) (o : op) (p : list op) m : Prop := RethreadStep {
  rs_thread : s.(threads) !! i = Some [o];
  rs_wait : m.(wait_list) = s.(mbx).(wait_list);
  rs_owned : m.(owned) = s.(mbx).(owned);
  rs_queue : length m.(tx_queue) = length s.(mbx).(tx_queue);
  rs_wrap : m.(queue_wrap_bit) = s.(mbx).(queue_wrap_bit);
  rs_user : user_ok m.(user);
  rs_frames t : is_Some (m.(frames) !! t) ↔ is_Some (s.(mbx).(frames) !! t);
  rs_awaiters a w' : m.(awaiters) !! a = Some w' → ∃ w, s.(mbx).(awaiters) !! a = Some w
    ∧ w'.(timeout_work) = w.(timeout_work) ∧ w'.(kref) = w.(kref)
    ∧ (w'.(aw_async_resp).(resp) = None → w.(aw_async_resp).(resp) = None);
  rs_live a : is_Some (s.(mbx).(awaiters) !! a) → is_Some (m.(awaiters) !! a);
  rs_deref d : deref d m = deref d s.(mbx) ∨ existsb (op_unlists d) p = true;
  rs_op d : op_unlists d o = true → existsb (op_unlists d) p = true;
  rs_unlists d e : existsb (op_unlists d) p = true → e ∈ s.(mbx).(wait_list) →
    e.(we_async_resp) ≠ d;
  rs_copy o' cmd d : o' ∈ p → o' ≠ Enqueue_copy cmd d;
  rs_lock j : m.(tx_queue_lock) = Some j ↔ (j ≠ i ∧ s.(mbx).(tx_queue_lock) = Some j);
  rs_alone o' : o' ∈ p → alone o' = true → p = [o'];
  rs_frame o' t : o' ∈ p → frame_of o' = Some t → t = i ∧ frame_of o = Some i;
  rs_waits o' t : o' ∈ p → waits_for o' = Some t → is_Some (deref (OnStack t) m ≫= resp);
  rs_stack e : e ∈ s.(mbx).(wait_list) → e.(we_async_resp) = OnStack i →
    ∃ o', p = [o'] ∧ frame_of o' = Some i;
  rs_weight a : cnt (weight a) p = weight a o;
  rs_user_ref a : cnt (user_ref a) p = user_ref a o;
  rs_runs a : cnt (runs_timeout a) p = runs_timeout a o;
  rs_compares a : cnt (compares a) p = 0%nat;
  rs_build a : existsb (op_unlists (InAwaiter a)) p = true →
    (∃ cmd, o = Enqueue cmd (InAwaiter a)) ∧ p = [Cancel_timeout_work_sync a; Free_awaiter a];
  rs_protected : protected p
}.

Lemma inv_rethread s i o p m : inv s → rethread_step s i o p m → inv (after s i p [] m).
Proof.
  intros Hinv Hrs. pose proof (rs_thread _ _ _ _ _ Hrs) as Hi.
  pose proof (rs_wait _ _ _ _ _ Hrs) as Hwl.
  assert (∀ a, held a (after s i p [] m) = held a s) as Hh.
  { intros a. pose proof (held_after _ _ _ _ p m a Hi) as Hh.
    rewrite (rs_weight _ _ _ _ _ Hrs) in Hh. lia. }
  assert (∀ a, timer_ref a m = timer_ref a s.(mbx)) as Ht.
  { intros a. unfold timer_ref. destruct (m.(awaiters) !! a) as [w'|] eqn:Hw'.
    - destruct (rs_awaiters _ _ _ _ _ Hrs a w' Hw') as (w & -> & -> & _). done.
    - destruct (s.(mbx).(awaiters) !! a) eqn:Hw; [|done].
      destruct (rs_live _ _ _ _ _ Hrs a) as [? ?]; [eauto|congruence]. }
  assert (∀ d, unlisted d (after s i p [] m) = false → unlisted d s = false
            ∧ deref d m = deref d s.(mbx)) as Hun.
  { intros d Hu. assert (existsb (op_unlists d) p = false) as Hp.
    { apply not_true_iff_false. intros Hp.
      assert (unlisted d (after s i p [] m) = true) as Hu'; [|congruence].
      apply unlisted_spec. exists i, (p ++ []). split; [|by rewrite app_nil_r].
      simpl. apply list_lookup_insert_eq. by eapply lookup_lt_Some. }
    split; [|by destruct (rs_deref _ _ _ _ _ Hrs d); [|congruence]].
    apply not_true_iff_false. intros Hu'. destruct (op_unlists d o) eqn:Ho.
    - apply (rs_op _ _ _ _ _ Hrs) in Ho. congruence.
    - by rewrite (unlisted_mono _ _ _ _ p m d Hi Ho Hu') in Hu. }
  assert (∀ e, e ∈ s.(mbx).(wait_list) →
            unlisted e.(we_async_resp) (after s i p [] m) = false) as Hel.
  { intros e He. apply not_true_iff_false. intros Hu.
    destruct (unlisted_new _ _ _ _ _ _ _ Hi Hu) as [Hu'|Hu'].
    - by rewrite (inv_listed _ Hinv e He) in Hu'.
    - by destruct (rs_unlists _ _ _ _ _ Hrs _ e Hu' He). }
  assert (∀ j q, (after s i p [] m).(threads) !! j = Some q →
            (j = i ∧ q = p) ∨ j ≠ i ∧ s.(threads) !! j = Some q) as Hj'.
  { intros j q Hj. destruct (after_lookup _ _ _ _ _ _ _ _ Hi Hj) as [[-> ->]|]; [|by right].
    left. by rewrite app_nil_r. }
  constructor.
  - intros a. simpl. unfold refs. simpl. rewrite (rs_owned _ _ _ _ _ Hrs), Ht.
    pose proof (inv_refs _ Hinv a) as Hr. unfold refs in Hr. pose proof (Hh a) as Hha.
    assert (listed_refs a m = listed_refs a s.(mbx)) as -> by (unfold listed_refs; by rewrite Hwl).
    destruct (m.(awaiters) !! a) as [w'|] eqn:Hw'.
    + destruct (rs_awaiters _ _ _ _ _ Hrs a w' Hw') as (w & Hw & _ & -> & _).
      rewrite Hw in Hr. lia.
    + destruct (s.(mbx).(awaiters) !! a) eqn:Hw; [|lia].
      destruct (rs_live _ _ _ _ _ Hrs a) as [? ?]; [eauto|congruence].
  - intros a. pose proof (cnt_after (user_ref a) _ _ _ _ p m Hi) as Hc.
    pose proof (inv_once _ Hinv a) as Ho. rewrite (rs_user_ref _ _ _ _ _ Hrs a) in Hc.
    simpl in *. rewrite (rs_owned _ _ _ _ _ Hrs). lia.
  - apply Hrs.
  - simpl. rewrite (rs_wrap _ _ _ _ _ Hrs), (rs_queue _ _ _ _ _ Hrs). apply Hinv.
  - intros a [w' Hw']. destruct (rs_awaiters _ _ _ _ _ Hrs a w' Hw') as (w & Hw & _).
    apply (inv_fresh _ Hinv). eauto.
  - intros q Hq. apply list_elem_of_lookup in Hq as [j Hj].
    destruct (Hj' _ _ Hj) as [[-> ->]|[_ Hj0]]; [apply Hrs|].
    eapply (inv_protected _ Hinv), list_elem_of_lookup_2, Hj0.
  - simpl. rewrite Hwl. intros e He. destruct (inv_elem _ Hinv e He) as [Hea Hw].
    split; [done|]. destruct (Hun _ (Hel e He)) as [_ ->]. done.
  - simpl. rewrite Hwl. apply Hel.
  - simpl. rewrite Hwl. apply Hinv.
  - simpl. rewrite Hwl. intros d w r e w' r' Hd Hr Hu He Hw' Hr' Hm.
    destruct (Hun _ Hu) as [Hu0 Hde]. destruct (Hun _ (Hel e He)) as [_ Hde'].
    rewrite Hde in Hd. rewrite Hde' in Hw'. by eapply (inv_match _ Hinv).
  - intros j q o' Hj Ho' Ha. destruct (Hj' _ _ Hj) as [[-> ->]|[_ Hj0]].
    + by apply (rs_alone _ _ _ _ _ Hrs).
    + by eapply (inv_alone _ Hinv).
  - intros j q o' t Hj Ho' Hf. simpl. rewrite (rs_frames _ _ _ _ _ Hrs).
    destruct (Hj' _ _ Hj) as [[-> ->]|[_ Hj0]]; [|by eapply (inv_frame _ Hinv)].
    destruct (rs_frame _ _ _ _ _ Hrs o' t Ho' Hf) as [-> Hf']. split; [done|].
    by eapply (inv_frame _ Hinv i [o] o i); [done|left|].
  - simpl. rewrite Hwl. intros e t He Ht'. destruct (inv_stack _ Hinv e t He Ht') as (o' & Ho' & Hf).
    destruct (decide (t = i)) as [->|Hne].
    + destruct (rs_stack _ _ _ _ _ Hrs e He Ht') as (o'' & -> & Hf''). exists o''.
      split; [|done]. apply list_lookup_insert_eq. by eapply lookup_lt_Some.
    + exists o'. split; [|done]. by rewrite list_lookup_insert_ne.
  - intros j q o' t Hj Ho' Hf. destruct (Hj' _ _ Hj) as [[-> ->]|[Hne Hj0]].
    { by apply (rs_waits _ _ _ _ _ Hrs _ _ Ho' Hf). }
    pose proof (inv_waits _ Hinv j q o' t Hj0 Ho' Hf) as Hr.
    cbn -[deref]. destruct (rs_deref _ _ _ _ _ Hrs (OnStack t)) as [->|Hx]; [done|].
    exfalso. apply Hne. destruct (waits_alone _ _ Hf) as [_ Hf'].
    destruct (inv_frame _ Hinv j q o' t Hj0 Ho' Hf') as [<- _].
    apply existsb_exists in Hx as (o1 & Ho1 & Hx). apply list_elem_of_In in Ho1.
    assert (frame_of o1 = Some t) as Hf1; [|by destruct (rs_frame _ _ _ _ _ Hrs o1 t Ho1 Hf1)].
    destruct o1; simpl in Hx |- *; try done; apply bool_decide_eq_true_1 in Hx; by simplify_eq.
  - intros j. simpl. rewrite (rs_lock _ _ _ _ _ Hrs), (inv_lock _ Hinv j). split.
    + intros (Hne & cmd & d & Hj). exists cmd, d. by rewrite list_lookup_insert_ne.
    + intros (cmd & d & Hj). destruct (Hj' _ _ Hj) as [[-> Hq]|[Hne Hj0]]; [|eauto].
      exfalso. eapply (rs_copy _ _ _ _ _ Hrs); [rewrite <- Hq; left|done].
  - intros j cmd d Hj. destruct (Hj' _ _ Hj) as [[-> Hq]|[Hne Hj0]].
    { exfalso. eapply (rs_copy _ _ _ _ _ Hrs); [rewrite <- Hq; left|done]. }
    destruct (inv_copy _ Hinv _ _ _ Hj0) as [w Hw]. simpl.
    destruct (rs_deref _ _ _ _ _ Hrs d) as [->|Hx]; [eauto|].
    destruct d as [t|a]; simpl in *.
    + apply (rs_frames _ _ _ _ _ Hrs). eauto.
    + apply fmap_Some in Hw as (w0 & Hw0 & _).
      destruct (rs_live _ _ _ _ _ Hrs a) as [w1 ->]; [eauto|]. simpl. eauto.
  - intros a. pose proof (cnt_after (runs_timeout a) _ _ _ _ p m Hi) as Hc.
    rewrite (rs_runs _ _ _ _ _ Hrs a) in Hc. pose proof (inv_running _ Hinv a) as Hr.
    simpl in *. destruct (m.(awaiters) !! a) as [w'|] eqn:Hw'.
    + destruct (rs_awaiters _ _ _ _ _ Hrs a w' Hw') as (w & Hw & -> & _). rewrite Hw in Hr. lia.
    + destruct (s.(mbx).(awaiters) !! a) eqn:Hw; [|lia].
      destruct (rs_live _ _ _ _ _ Hrs a) as [? ?]; [eauto|congruence].
  - intros a w' Hw' Hno. destruct (rs_awaiters _ _ _ _ _ Hrs a w' Hw') as (w & Hw & Heq & _ & Hx).
    destruct (inv_resp _ Hinv a w Hw (Hx Hno)) as [H1 H2]. rewrite Heq. split; [done|].
    pose proof (cnt_after (compares a) _ _ _ _ p m Hi) as Hc.
    rewrite (rs_compares _ _ _ _ _ Hrs a) in Hc. lia.
  - intros j q a Hj Hx.
    assert (listed_refs a m = listed_refs a s.(mbx)) as Hlr by (unfold listed_refs; by rewrite Hwl).
    destruct (Hj' _ _ Hj) as [[-> ->]|[Hne Hj0]].
    + destruct (rs_build _ _ _ _ _ Hrs a Hx) as [[cmd ->] ->].
      destruct (inv_build _ Hinv i [Enqueue cmd (InAwaiter a)] a Hi) as (H1 & H2 & H3 & w & Hw & Hs).
      { simpl. by rewrite bool_decide_eq_true_2. }
      rewrite Hh. simpl. rewrite Hlr, (rs_owned _ _ _ _ _ Hrs). split_and!; try done.
      * rewrite H1. simpl. by rewrite !one_yes.
      * destruct (rs_live _ _ _ _ _ Hrs a) as [w' Hw']; [eauto|].
        destruct (rs_awaiters _ _ _ _ _ Hrs a w' Hw') as (w0 & Hw0 & Heq & _). simplify_eq.
        exists w'. split; [done|]. destruct Hs as [Hs _]. split; [by rewrite Heq|]. auto.
    + destruct (inv_build _ Hinv j q a Hj0 Hx) as (H1 & H2 & H3 & w & Hw & Hs).
      rewrite Hh. simpl. rewrite Hlr, (rs_owned _ _ _ _ _ Hrs). split_and!; try done.
      destruct (rs_live _ _ _ _ _ Hrs a) as [w' Hw']; [eauto|].
      destruct (rs_awaiters _ _ _ _ _ Hrs a w' Hw') as (w0 & Hw0 & Heq & _). simplify_eq.
      exists w'. split; [done|]. unfold build_shape in *. by rewrite Heq.
Qed.

(** An operation that changes nothing. *)
Lemma inv_skip s i o rest :
  inv s → s.(threads) !! i = Some (o :: rest) → plain o →
  (∀ a, weight a o = 0%nat ∧ runs_timeout a o = 0%nat) → (∀ a w p, ¬ build_shape a w (o :: p)) →
  inv (after s i [] rest s.(mbx)).
Proof.
  intros Hinv Hi Hpl Hw Hb.
  assert (∀ a, refs a (after s i [] rest s.(mbx)) = refs a s) as Hr.
  { intros a. pose proof (refs_after _ _ _ _ [] s.(mbx) a Hi eq_refl) as Hr.
    destruct (Hw a) as [H0 _]. rewrite cnt_nil in Hr. lia. }
  eapply inv_plain; try done; try (intros; singletons; done).
  - apply Hinv.
  - eauto.
  - intros a. rewrite Hr. apply (inv_refs _ Hinv).
  - intros a. pose proof (cnt_after (runs_timeout a) _ _ _ _ [] s.(mbx) Hi) as Hc.
    destruct (Hw a) as [_ H0]. rewrite cnt_nil in Hc. rewrite <- (inv_running _ Hinv a). lia.
  - intros a. pose proof (cnt_after (user_ref a) _ _ _ _ [] s.(mbx) Hi) as Hc.
    pose proof (inv_once _ Hinv a). rewrite cnt_nil in Hc. lia.
  - intros a w Hwa Hno. destruct (inv_resp _ Hinv a w Hwa Hno). split; [done|].
    pose proof (cnt_after (compares a) _ _ _ _ [] s.(mbx) Hi) as Hc. rewrite cnt_nil in Hc. lia.
  - intros a w _ Hs. by destruct (Hb a w rest).
  - apply (rest_protected _ _ _ _ Hinv Hi).
Qed.

(** A response that is handed over to its waiter. *)
Lemma handle_response_ok s i r rest :
  inv s → s.(threads) !! i = Some (Rx_elem r :: rest) →
  wp (gcip_mailbox_handle_response r s.(mbx)) (λ '(p, m), inv (after s i p rest m)).
Proof.
  intros Hinv Hi. unfold gcip_mailbox_handle_response. apply wp_bind.
  eapply wp_mono; [apply find_waiter_spec, Hinv|]. intros [[e l']|]; simpl.
  2: { intros _. apply (inv_skip _ _ (Rx_elem r)); try done. intros; not_building. }
  intros (l1 & l2 & Hl & -> & w & r' & Hw & Hr' & Hm).
  assert (e ∈ s.(mbx).(wait_list)) as He by (rewrite Hl; set_solver).
  destruct (inv_elem _ Hinv e He) as [Hea _].
  set (m := set_wait_list (l1 ++ l2) (store (we_async_resp e) (AsyncResp false (Some r)) s.(mbx))).
  assert (∀ b, listed_refs b s.(mbx) = listed_refs b m + one (e.(we_awaiter) = Some b))%nat as Hlr.
  { intros b. by apply (listed_refs_cut _ _ e l1 l2). }
  set (p := match we_awaiter e with None => _ | Some a => _ end).
  assert (∀ o', o' ∈ p → plain o') as Hp.
  { subst p. destruct e.(we_awaiter); intros; singletons; done. }
  assert (∀ b, cnt (weight b) p = one (e.(we_awaiter) = Some b)) as Hpw.
  { intros b. subst p. destruct e.(we_awaiter) as [a|]; [|by rewrite one_no].
    simpl. rewrite Nat.add_0_r. apply one_iff. split; congruence. }
  assert (∀ x, matches r x = matches r' x) as Hmx by (intros x; by apply matches_trans).
  assert (∀ b, m.(awaiters) !! b = if decide (e.(we_async_resp) = InAwaiter b)
            then set_aw_async_resp (AsyncResp false (Some r)) <$> s.(mbx).(awaiters) !! b
            else s.(mbx).(awaiters) !! b) as Haw.
  { intros b. unfold m. destruct e.(we_async_resp) as [t|a]; simpl; [done|].
    case_decide; simplify_eq; [by rewrite lookup_alter_eq|]. rewrite lookup_alter_ne; congruence. }
  assert (∀ t, m.(frames) !! t = if decide (e.(we_async_resp) = OnStack t)
            then Some (AsyncResp false (Some r)) else s.(mbx).(frames) !! t) as Hfr.
  { intros b. unfold m. destruct e.(we_async_resp) as [t|a]; simpl; [|done].
    case_decide; simplify_eq; [by rewrite lookup_insert_eq|]. rewrite lookup_insert_ne; congruence. }
  assert (∀ t, is_Some (m.(frames) !! t) ↔ is_Some (s.(mbx).(frames) !! t)) as Hfl.
  { intros t. rewrite Hfr. case_decide as Ht; [|done]. rewrite Ht in Hw. simpl in Hw.
    rewrite Hw. by split; eauto. }
  assert (∀ b, timer_ref b m = timer_ref b s.(mbx)) as Htr.
  { intros b. unfold timer_ref. rewrite Haw. case_decide; [|done]. by destruct (_ !! b). }
  assert (m.(tx_queue_lock) = s.(mbx).(tx_queue_lock) ∧ m.(tx_queue) = s.(mbx).(tx_queue)
          ∧ m.(queue_wrap_bit) = s.(mbx).(queue_wrap_bit) ∧ m.(user) = s.(mbx).(user)
          ∧ m.(owned) = s.(mbx).(owned) ∧ m.(wait_list) = l1 ++ l2) as (E1 & E2 & E3 & E4 & E5 & E6).
  { unfold m. by destruct e.(we_async_resp). }
  assert (inv (after s i p rest m)); [|by subst p; destruct e.(we_awaiter)].
  clearbody m.
  eapply (inv_unlist _ _ (Rx_elem r) _ _ _ e l1 l2); [done|]. constructor; try done.
  - rewrite E4. apply Hinv.
  - intros b. rewrite Haw. case_decide; [|done]. by rewrite fmap_is_Some.
  - intros d wd Hd. destruct (decide (d = e.(we_async_resp))) as [->|Hne].
    + exists w. split; [done|]. split; [done|]. rewrite Hr'.
      assert (wd = AsyncResp false (Some r)) as ->; [|done].
      destruct e.(we_async_resp) as [t|a]; simpl in Hd, Hw.
      * rewrite Hfr, decide_True in Hd by done. congruence.
      * rewrite Haw, decide_True in Hd by done. destruct (s.(mbx).(awaiters) !! a); [|done].
        by simplify_eq/=.
    + exists wd. split; [|split; [done|by case_match]]. destruct d as [t|a]; simpl in Hd |- *.
      * by rewrite Hfr, decide_False in Hd.
      * by rewrite Haw, decide_False in Hd.
  - intros o' cmd d [->|Ho']%elem_of_cons Heq; [done|]. subst o'. by destruct (Hp _ Ho').
  - intros; not_building.
  - intros o' d Ho' Hx. destruct (Hp _ Ho') as [_ Hx']. by rewrite Hx' in Hx.
  - intros o' Ho' Ha. destruct (Hp _ Ho'). congruence.
  - intros o' t Ho' Hf. apply frame_alone in Hf. destruct (Hp _ Ho'). congruence.
  - intros o' Ho'. by apply plain_waits, Hp.
  - intros b H0 H1. rewrite Hpw. rewrite (Hlr b) in H1. split; [|lia]. rewrite Haw.
    destruct (decide _) as [Hb|_]; [|done]. rewrite Hb in Hea. simpl in Hea. rewrite Hea, one_yes in H1 by done.
    lia.
  - intros b. pose proof (held_after _ _ _ _ p m b Hi) as Hh. rewrite Hpw in Hh. simpl in Hh.
    pose proof (inv_refs _ Hinv b) as Hrb.
    assert (refs b (after s i p rest m) = refs b s) as ->.
    { unfold refs. simpl. rewrite Htr, (Hlr b), E5. simpl in Hh. lia. }
    rewrite Haw. destruct (decide (we_async_resp e = InAwaiter b)); [|done]. by destruct (_ !! b).
  - intros b. subst p. by destruct e.(we_awaiter).
  - intros b wb. rewrite Haw. case_decide; [|eauto]. intros Hb.
    apply fmap_Some in Hb as (w0 & -> & ->). eauto.
  - intros b. subst p. by destruct e.(we_awaiter).
  - intros b. subst p. by destruct e.(we_awaiter).
  - subst p. destruct e.(we_awaiter); simpl; [|apply (rest_protected _ _ _ _ Hinv Hi)].
    repeat (split; [intros ? [=]; subst; simpl; simp_one; lia|]).
    apply (rest_protected _ _ _ _ Hinv Hi).
Qed.

Lemma rx_elem_ok s i r rest :
  inv s → s.(threads) !! i = Some (Rx_elem r :: rest) → op_ok s i (Rx_elem r) rest.
Proof.
  intros Hinv Hi. unfold op_ok. simpl. unfold gcip_mailbox_handle_rx_elem.
  case_match; [|by apply handle_response_ok].
  apply (inv_user_change (after s i [] rest s.(mbx))).
  - apply (inv_skip _ _ (Rx_elem r)); try done. intros; not_building.
  - apply user_reversed, Hinv.
Qed.

(** The thread of [gcip_mailbox_send_cmd] whose response is not in the list. *)
Lemma send_retires s i o ret :
  inv s → s.(threads) !! i = Some [o] → frame_of o = Some i →
  (∀ d, op_unlists d o = false) → (∀ cmd d, o ≠ Enqueue_copy cmd d) →
  (∀ a, weight a o = 0%nat ∧ user_ref a o = 0%nat ∧ runs_timeout a o = 0%nat) →
  (∀ e, e ∈ s.(mbx).(wait_list) → e.(we_async_resp) ≠ OnStack i) →
  inv (after s i [Send_return i ret] [] s.(mbx)).
Proof.
  intros Hinv Hi Hf Ho Hc Hw Hl. apply (inv_rethread _ _ o); [done|].
  assert (∀ d, existsb (op_unlists d) ([Send_return i ret] : list op) = true → d = OnStack i) as Hd.
  { intros d Hd. simpl in Hd. rewrite orb_false_r in Hd. by apply bool_decide_eq_true_1 in Hd. }
  constructor; try done; try (intros; singletons; done); try (by intros a; destruct (Hw a) as (?&?&?)).
  - apply Hinv.
  - eauto.
  - by left.
  - intros d. by rewrite Ho.
  - intros d e Hx He Heq. rewrite (Hd _ Hx) in Heq. by apply (Hl e He).
  - intros j. split; [|tauto]. intros Hj. split; [|done]. intros ->.
    apply (inv_lock _ Hinv) in Hj as (cmd & d & Hj). simplify_eq. by eapply Hc.
  - intros o' t ->%list_elem_of_singleton [= <-]. done.
  - intros e He Ht. by destruct (Hl e He).
Qed.

Lemma thread_frame s i o rest t :
  inv s → s.(threads) !! i = Some (o :: rest) → frame_of o = Some t →
  t = i ∧ rest = [] ∧ ∃ w, s.(mbx).(frames) !! i = Some w.
Proof.
  intros Hinv Hi Hf.
  pose proof (inv_alone _ Hinv i _ o Hi ltac:(left) ltac:(by eapply frame_alone)) as Heq.
  injection Heq as ->.
  by destruct (inv_frame _ Hinv i [o] o t Hi ltac:(left) Hf) as [-> Hw].
Qed.

Lemma send_wait_ok s i t rest :
  inv s → s.(threads) !! i = Some (Send_wait t :: rest) → op_ok s i (Send_wait t) rest.
Proof.
  intros Hinv Hi. destruct (thread_frame _ _ _ _ t Hinv Hi eq_refl) as (-> & -> & w & Hw).
  unfold op_ok. simpl. rewrite Hw. simpl. destruct w.(waiting) eqn:Hwt; [done|].
  apply (send_retires _ _ (Send_wait i)); try done.
  intros e He Heq. destruct (inv_elem _ Hinv e He) as (_ & w' & r & Hw' & _ & Hwt').
  rewrite Heq in Hw'. simpl in Hw'. congruence.
Qed.

Lemma send_del_ok s i t rest :
  inv s → s.(threads) !! i = Some (Send_del t :: rest) → op_ok s i (Send_del t) rest.
Proof.
  intros Hinv Hi. pose proof (inv_waits _ Hinv i _ _ t Hi ltac:(left) eq_refl) as Hresp.
  destruct (thread_frame _ _ _ _ t Hinv Hi eq_refl) as (-> & -> & w & Hw).
  simpl in Hresp. rewrite Hw in Hresp. simpl in Hresp. destruct Hresp as [r Hr].
  assert (unlisted (OnStack i) s = false) as Hu by by apply (stack_listed _ _ (Send_del i)).
  unfold op_ok. simpl. apply wp_bind. unfold gcip_mailbox_del_wait_resp. simpl. rewrite Hw.
  simpl. rewrite Hr. apply wp_bind.
  eapply wp_mono; [by apply (find_self _ (OnStack i) w r)|]. intros [[e l']|]; simpl.
  2: { intros Hl. by apply (send_retires _ _ (Send_del i)). }
  intros (l1 & l2 & Hl & -> & He).
  destruct (inv_elem _ Hinv e ltac:(rewrite Hl; set_solver)) as [Hea _]. rewrite He in Hea.
  simpl in Hea. rewrite Hea. simpl. set (m := set_wait_list (l1 ++ l2) s.(mbx)).
  apply (inv_unlist _ _ (Send_del i) _ _ _ e l1 l2); [done|].
  constructor; try done; try (intros; singletons; done).
  - apply Hinv.
  - intros d wd Hd. exists wd. split; [done|]. split; [done|]. by case_match.
  - intros; not_building.
  - intros o' d Ho' Hx. apply list_elem_of_singleton in Ho' as ->. simpl in Hx.
    apply bool_decide_eq_true_1 in Hx. by rewrite He.
  - intros o' t ->%list_elem_of_singleton [= <-]. done.
  - intros t [= <-]. done.
  - intros b. pose proof (held_after _ _ _ _ [Send_return i (- ETIMEDOUT)] m b Hi) as Hh.
    assert (refs b (after s i [Send_return i (- ETIMEDOUT)] [] m) = refs b s) as ->.
    { unfold refs. simpl. rewrite (listed_refs_cut s.(mbx) m e l1 l2 b Hl eq_refl), Hea, (one_no (None = Some b)) by done.
      unfold timer_ref. simpl in *. lia. }
    apply (inv_refs _ Hinv).
  - eauto.
Qed.

End Step.

End Inv.
Arguments inv {C R H ops} wrap_bit n user_ok s.
Arguments op_ok {C R H ops} wrap_bit n user_ok s i o rest.
Arguments user_laws {C R H} ops wrap_bit n user_ok.
Arguments match_laws {C R H} ops.
