(* ===== verification/GcipMailboxSteps.v ===== *)
(** * GCIP: every step keeps the invariant

    The operations of a command (it is put in the queue, waits, returns), then the
    moves of the users, of the timers and of the firmware. *)

From S2P Require Import Prelude.
From S2P Require Import Interleaving.
From S2P Require Import GcipQueue.
From S2P Require Import GcipMailbox.
From S2P Require Import GcipMailboxInv.

Section Steps.
Context {C R H : Type} {ops : gcip_mailbox_ops C R H}.
Context {wrap_bit : Z} {n : nat} {user_ok : H → Prop}.
Context {laws : user_laws ops wrap_bit n user_ok} {key : match_laws ops}.
Local Notation mailbox := (gcip_mailbox C R H).
Local Notation op := (op C R).
Local Notation system := (system C R H).
Local Notation inv := (inv wrap_bit n user_ok).
Local Notation op_ok := (op_ok wrap_bit n user_ok).
Implicit Types (m : mailbox) (s : system).

(** A thread ends with the memory of its waiter [d]. *)
Record retire_step s (i : nat) (o : op) (d : async_ref) m : Prop := RetireStep {
  re_thread : s.(threads) !! i = Some [o];
  re_wait : m.(wait_list) = s.(mbx).(wait_list);
  re_owned : m.(owned) = s.(mbx).(owned);
  re_lock : m.(tx_queue_lock) = s.(mbx).(tx_queue_lock);
  re_queue : m.(tx_queue) = s.(mbx).(tx_queue);
  re_wrap : m.(queue_wrap_bit) = s.(mbx).(queue_wrap_bit);
  re_user : user_ok m.(user);
  re_awaiters a : m.(awaiters) !! a =
    if decide (d = InAwaiter a) then None else s.(mbx).(awaiters) !! a;
  re_frames t : m.(frames) !! t =
    if decide (d = OnStack t) then None else s.(mbx).(frames) !! t;
  re_unlists d' : op_unlists d' o = bool_decide (d' = d);
  re_copy cmd d' : o ≠ Enqueue_copy cmd d';
  re_frame t : frame_of o = Some t → d = OnStack t;
  re_self t : d = OnStack t → t = i;
  re_weight a : weight a o = one (d = InAwaiter a);
  re_runs a : runs_timeout a o = 0%nat;
  re_build a w : d = InAwaiter a → build_shape a w [o] → w.(timeout_work) = WorkIdle
}.

Lemma inv_retire s i o d m : inv s → retire_step s i o d m → inv (after s i [] [] m).
Proof.
  intros Hinv Hre. pose proof (re_thread _ _ _ _ _ Hre) as Hi.
  pose proof (re_wait _ _ _ _ _ Hre) as Hwl. pose proof (re_owned _ _ _ _ _ Hre) as How.
  assert (∀ a, d = InAwaiter a → held a s = 1%nat ∧ listed_refs a s.(mbx) = 0%nat
            ∧ a ∉ s.(mbx).(owned) ∧ ∃ w, s.(mbx).(awaiters) !! a = Some w
            ∧ w.(timeout_work) = WorkIdle) as Hda.
  { intros a Hd. destruct (inv_build _ Hinv i [o] a Hi) as (H1 & H2 & H3 & w & Hw & Hs).
    { simpl. rewrite (re_unlists _ _ _ _ _ Hre), bool_decide_eq_true_2; done. }
    split_and!; try done.
    - rewrite H1. simpl. rewrite (re_weight _ _ _ _ _ Hre), one_yes; done.
    - exists w. split; [done|]. by apply (re_build _ _ _ _ _ Hre a). }
  assert (∀ a, held a s = held a (after s i [] [] m) + one (d = InAwaiter a))%nat as Hh.
  { intros a. pose proof (held_after _ _ _ _ [] m a Hi) as Hh. rewrite cnt_nil in Hh.
    rewrite (re_weight _ _ _ _ _ Hre) in Hh. lia. }
  assert (∀ d', d' ≠ d → unlisted d' (after s i [] [] m) = unlisted d' s) as Hun.
  { intros d' Hd'. eapply (unlisted_after _ _ o); [done| |done].
    rewrite (re_unlists _ _ _ _ _ Hre). by apply bool_decide_eq_false_2. }
  assert (unlisted d s = true) as Hud.
  { apply unlisted_spec. exists i, [o]. split; [done|]. simpl.
    rewrite (re_unlists _ _ _ _ _ Hre), bool_decide_eq_true_2; done. }
  assert (∀ e, e ∈ s.(mbx).(wait_list) → e.(we_async_resp) ≠ d) as Hne.
  { intros e He <-. by rewrite (inv_listed _ Hinv e He) in Hud. }
  assert (∀ d', deref d' m = if decide (d' = d) then None else deref d' s.(mbx)) as Hde.
  { intros [t|a]; simpl.
    - rewrite (re_frames _ _ _ _ _ Hre). repeat case_decide; congruence.
    - rewrite (re_awaiters _ _ _ _ _ Hre). repeat case_decide; simpl; congruence. }
  assert (∀ j q, (after s i [] [] m).(threads) !! j = Some q →
            (j = i ∧ q = []) ∨ j ≠ i ∧ s.(threads) !! j = Some q) as Hj'.
  { intros j q Hj. destruct (after_lookup _ _ _ _ _ _ _ _ Hi Hj) as [[-> ->]|]; auto. }
  assert (∀ (f : op → nat), cnt (cnt f) (after s i [] [] m).(threads) ≤ cnt (cnt f) s.(threads))%nat
    as Hc.
  { intros f. pose proof (cnt_after f _ _ _ _ [] m Hi). rewrite cnt_nil in *. lia. }
  constructor; try apply Hre.
  - intros a. simpl. rewrite (re_awaiters _ _ _ _ _ Hre). unfold refs, listed_refs, timer_ref. simpl.
    rewrite Hwl, How, (re_awaiters _ _ _ _ _ Hre). specialize (Hh a).
    pose proof (inv_refs _ Hinv a) as Hr. unfold refs, listed_refs, timer_ref in Hr.
    destruct (decide (d = InAwaiter a)) as [Hd|Hd].
    + destruct (Hda a Hd) as (H1 & H2 & H3 & w & Hw & Ht). unfold listed_refs in H2.
      rewrite one_yes in Hh by done. rewrite (one_no (a ∈ _)) by done. lia.
    + rewrite one_no in Hh by done. replace (held a (after s i [] [] m)) with (held a s) by lia. done.
  - intros a. pose proof (inv_once _ Hinv a). specialize (Hc (user_ref a)). simpl in *.
    rewrite How. lia.
  - split; simpl; [rewrite (re_wrap _ _ _ _ _ Hre)|rewrite (re_queue _ _ _ _ _ Hre)]; apply Hinv.
  - intros a. simpl. rewrite (re_awaiters _ _ _ _ _ Hre). case_decide; [by intros []|].
    apply (inv_fresh _ Hinv).
  - intros q Hq. apply list_elem_of_lookup in Hq as [j Hj].
    destruct (Hj' _ _ Hj) as [[-> ->]|[_ Hj0]]; [done|].
    eapply (inv_protected _ Hinv), list_elem_of_lookup_2, Hj0.
  - simpl. rewrite Hwl. intros e He. destruct (inv_elem _ Hinv e He) as (Hea & w & Hw).
    split; [done|]. exists w. rewrite Hde, decide_False by eauto. done.
  - simpl. rewrite Hwl. intros e He. rewrite Hun by eauto. by apply (inv_listed _ Hinv).
  - simpl. rewrite Hwl. apply Hinv.
  - simpl. rewrite Hwl. intros d' w r e w' r' Hd Hr Hu He Hw'. rewrite Hde in Hd, Hw'.
    rewrite decide_False in Hw' by eauto. destruct (decide (d' = d)); [done|].
    rewrite Hun in Hu by done.
    by eapply (inv_match _ Hinv).
  - intros j q o' Hj Ho'. destruct (Hj' _ _ Hj) as [[-> ->]|[_ Hj0]]; [singletons|].
    by eapply (inv_alone _ Hinv).
  - intros j q o' t Hj Ho' Hf. destruct (Hj' _ _ Hj) as [[-> ->]|[Hji Hj0]]; [singletons|].
    destruct (inv_frame _ Hinv j q o' t Hj0 Ho' Hf) as [-> Hfr]. split; [done|].
    simpl. rewrite (re_frames _ _ _ _ _ Hre), decide_False; [done|].
    intros Hd. by apply (re_self _ _ _ _ _ Hre) in Hd.
  - simpl. rewrite Hwl. intros e t He Ht. destruct (inv_stack _ Hinv e t He Ht) as (o' & Ho' & Hf).
    exists o'. split; [|done]. rewrite list_lookup_insert_ne; [done|]. intros ->. simplify_eq.
    apply (re_frame _ _ _ _ _ Hre) in Hf. apply (Hne e He). congruence.
  - intros j q o' t Hj Ho' Hf. destruct (Hj' _ _ Hj) as [[-> ->]|[Hji Hj0]]; [singletons|].
    pose proof (inv_waits _ Hinv j q o' t Hj0 Ho' Hf) as Hr. cbn -[deref].
    rewrite Hde, decide_False; [done|]. intros Hd. symmetry in Hd.
    apply (re_self _ _ _ _ _ Hre) in Hd. destruct (waits_alone _ _ Hf) as [_ Hf'].
    by destruct (inv_frame _ Hinv j q o' t Hj0 Ho' Hf') as [-> _].
  - intros j. simpl. rewrite (re_lock _ _ _ _ _ Hre), (inv_lock _ Hinv j).
    split; intros (cmd & d' & Hj); exists cmd, d'.
    + rewrite list_lookup_insert_ne; [done|]. intros ->. simplify_eq.
      by eapply (re_copy _ _ _ _ _ Hre).
    + by destruct (Hj' _ _ Hj) as [[-> ?]|[_ Hj0]].
  - intros j cmd d' Hj. destruct (Hj' _ _ Hj) as [[-> ?]|[Hji Hj0]]; [done|].
    destruct (inv_copy _ Hinv _ _ _ Hj0) as [w Hw]. exists w. cbn -[deref].
    rewrite Hde, decide_False; [done|]. intros ->. destruct d as [t|a].
    + pose proof (re_self _ _ _ _ _ Hre t eq_refl) as ->.
      by destruct (inv_frame _ Hinv j _ _ i Hj0 ltac:(left) eq_refl).
    + destruct (Hda a eq_refl) as (H1 & _).
      pose proof (cnt_two (cnt (weight a)) _ _ _ _ _ Hji Hj0 Hi) as H2. unfold held in H1.
      simpl in H2. rewrite (re_weight _ _ _ _ _ Hre), !one_yes in H2 by done. lia.
  - intros a. pose proof (cnt_after (runs_timeout a) _ _ _ _ [] m Hi) as Hca.
    rewrite (re_runs _ _ _ _ _ Hre), cnt_nil in Hca. pose proof (inv_running _ Hinv a) as Hr.
    simpl in *. rewrite (re_awaiters _ _ _ _ _ Hre). case_decide as Hd; [|lia].
    destruct (Hda a Hd) as (_ & _ & _ & w & Hw & Ht). rewrite Hw, one_no in Hr by congruence. lia.
  - intros a w. simpl. rewrite (re_awaiters _ _ _ _ _ Hre). case_decide; [done|]. intros Hw Hno.
    destruct (inv_resp _ Hinv a w Hw Hno). split; [done|]. specialize (Hc (compares a)).
    simpl in Hc. lia.
  - intros j q a Hj Hx. destruct (Hj' _ _ Hj) as [[-> ->]|[Hji Hj0]]; [done|].
    destruct (inv_build _ Hinv j q a Hj0 Hx) as (H1 & H2 & H3 & w & Hw & Hs).
    assert (d ≠ InAwaiter a) as Hd.
    { intros Hd. destruct (Hda a Hd) as (H4 & _).
      pose proof (cnt_two (cnt (weight a)) _ _ _ _ _ Hji Hj0 Hi) as H5. unfold held in *.
      simpl in H5. rewrite (re_weight _ _ _ _ _ Hre), one_yes in H5 by done. lia. }
    specialize (Hh a). rewrite one_no in Hh by done. unfold listed_refs. simpl.
    rewrite Hwl, How, (re_awaiters _ _ _ _ _ Hre), decide_False by done.
    split; [lia|]. split; [done|]. eauto.
Qed.

Lemma send_return_ok s i t ret rest :
  inv s → s.(threads) !! i = Some (Send_return t ret :: rest) → op_ok s i (Send_return t ret) rest.
Proof.
  intros Hinv Hi. destruct (thread_frame _ _ _ _ t Hinv Hi eq_refl) as (-> & -> & w & Hw).
  unfold GcipMailboxInv.op_ok. simpl. unfold send_return. rewrite Hw. simpl.
  set (cb := on_error ≫= _).
  set (m1 := if negb (ret =? 0) then call cb s.(mbx) else s.(mbx)).
  destruct (call_same cb s.(mbx)) as (E1 & E2 & E3 & E4 & E5 & E6 & E7).
  assert (m1.(wait_list) = s.(mbx).(wait_list) ∧ m1.(frames) = s.(mbx).(frames)
    ∧ m1.(tx_queue_lock) = s.(mbx).(tx_queue_lock) ∧ m1.(tx_queue) = s.(mbx).(tx_queue)
    ∧ m1.(queue_wrap_bit) = s.(mbx).(queue_wrap_bit) ∧ m1.(owned) = s.(mbx).(owned)
    ∧ m1.(awaiters) = s.(mbx).(awaiters) ∧ user_ok m1.(user)) as (F1 & F2 & F3 & F4 & F5 & F6 & F7 & F8).
  { subst m1. destruct (negb _); split_and!; try done; try apply Hinv.
    subst cb. destruct on_error as [f|] eqn:Hf; simpl; [|apply Hinv].
    by apply user_error; [apply Hinv|]. }
  clearbody m1. apply (inv_retire _ _ (Send_return i ret) (OnStack i)); [done|].
  constructor; try done.
  - intros a. simpl. by rewrite F7.
  - intros t. simpl. rewrite F2. case_decide as Ht; simplify_eq; [by rewrite lookup_delete_eq|].
    rewrite lookup_delete_ne; congruence.
  - intros t [= ->]. done.
  - by intros t [= ->].
Qed.

Lemma free_awaiter_ok s i a rest :
  inv s → s.(threads) !! i = Some (Free_awaiter a :: rest) → op_ok s i (Free_awaiter a) rest.
Proof.
  intros Hinv Hi. destruct (inv_build _ Hinv i _ a Hi) as (_ & _ & _ & w & Hw & Hs).
  { simpl. by rewrite bool_decide_eq_true_2. }
  assert (rest = [] ∧ w.(timeout_work) = WorkIdle) as [-> Ht].
  { destruct Hs as (_ & [[? ?]|[?|[? [?|?]]]]); by simplify_eq. }
  unfold GcipMailboxInv.op_ok. simpl. unfold kfree_awaiter. rewrite Hw. simpl.
  rewrite decide_False by congruence. simpl.
  apply (inv_retire _ _ (Free_awaiter a) (InAwaiter a)); [done|]. constructor; try done.
  - apply Hinv.
  - intros b. simpl. case_decide as Hb; simplify_eq; [by rewrite lookup_delete_eq|].
    rewrite lookup_delete_ne; congruence.
  - intros b. simpl. apply one_iff. split; congruence.
  - intros b w' [= <-] (_ & [[? ?]|[?|[? [?|?]]]]); by simplify_eq.
Qed.

(** ** A command is put in the queue *)

(** What [m'] is to [m] when the waiter [d] has got a key, or has been left alone. *)
Record keyed (d : async_ref) m m' : Prop := Keyed {
  ky_wait : m'.(wait_list) = m.(wait_list);
  ky_owned : m'.(owned) = m.(owned);
  ky_lock : m'.(tx_queue_lock) = m.(tx_queue_lock);
  ky_queue : m'.(tx_queue) = m.(tx_queue);
  ky_wrap : m'.(queue_wrap_bit) = m.(queue_wrap_bit);
  ky_user : user_ok m'.(user);
  ky_frames t : is_Some (m'.(frames) !! t) ↔ is_Some (m.(frames) !! t);
  ky_awaiters a w' : m'.(awaiters) !! a = Some w' → ∃ w, m.(awaiters) !! a = Some w
    ∧ w'.(timeout_work) = w.(timeout_work) ∧ w'.(kref) = w.(kref) ∧ w'.(handled) = w.(handled)
    ∧ (w'.(aw_async_resp).(resp) = None → w.(aw_async_resp).(resp) = None);
  ky_live a : is_Some (m.(awaiters) !! a) → is_Some (m'.(awaiters) !! a);
  ky_deref d' : d' ≠ d → deref d' m' = deref d' m
}.

Lemma store_keyed d r m :
  is_Some (deref d m) → user_ok m.(user) →
  keyed d m (store d (AsyncResp true (Some r)) m)
  ∧ deref d (store d (AsyncResp true (Some r)) m) = Some (AsyncResp true (Some r)).
Proof.
  intros Hd Hu. destruct d as [t|a]; simpl in *.
  - split; [|by rewrite lookup_insert_eq]. constructor; try done; simpl.
    + intros t'. destruct (decide (t' = t)) as [->|].
      * rewrite lookup_insert_eq. by split; eauto.
      * by rewrite lookup_insert_ne.
    + eauto 10.
    + intros [t'|a] Hne; simpl; [|done]. rewrite lookup_insert_ne; congruence.
  - apply fmap_is_Some in Hd as [w Hw]. split; [|by rewrite lookup_alter_eq, Hw].
    constructor; try done; simpl.
    + intros b w'. destruct (decide (b = a)) as [->|].
      * rewrite lookup_alter_eq, Hw. intros [= <-]. by exists w.
      * rewrite lookup_alter_ne by done. eauto 10.
    + intros b Hb. destruct (decide (b = a)) as [->|].
      * rewrite lookup_alter_eq, Hw. simpl. eauto.
      * by rewrite lookup_alter_ne.
    + intros [t|b] Hne; simpl; [done|]. rewrite lookup_alter_ne; congruence.
Qed.

Lemma enqueue_fails s i cmd d ret m :
  inv s → s.(threads) !! i = Some [Enqueue cmd d] → s.(mbx).(tx_queue_lock) = None →
  keyed d s.(mbx) m → inv (after s i (enqueue_failed d ret) [] m).
Proof.
  intros Hinv Hi Hlk Hk. apply (inv_rethread _ _ (Enqueue cmd d)); [done|].
  assert (∀ d', existsb (op_unlists d') (enqueue_failed (C := C) (R := R) d ret) = true ↔ d' = d)
    as Hun.
  { intros d'. destruct d as [t|a]; simpl; rewrite orb_false_r; apply bool_decide_eq_true. }
  assert (∀ t, d = OnStack t → t = i) as Hdi.
  { intros t ->. by destruct (inv_frame _ Hinv i _ _ t Hi ltac:(left) eq_refl). }
  constructor; try apply Hk; try done.
  - by rewrite (ky_queue _ _ _ Hk).
  - intros a w' Hw'. destruct (ky_awaiters _ _ _ Hk a w' Hw') as (w & ? & ? & ? & ? & ?). eauto 10.
  - intros d'. rewrite Hun. destruct (decide (d' = d)); [by right|left]. by apply (ky_deref _ _ _ Hk).
  - intros d'. rewrite Hun. simpl. by rewrite bool_decide_eq_true.
  - intros d' e ->%Hun He <-. pose proof (inv_listed _ Hinv e He) as Hl.
    apply not_true_iff_false in Hl. apply Hl, unlisted_spec. exists i, [Enqueue cmd e.(we_async_resp)].
    split; [done|]. simpl. by rewrite bool_decide_eq_true_2.
  - intros o' cmd' d' Ho'. destruct d; simpl in Ho'; by singletons.
  - intros j. rewrite (ky_lock _ _ _ Hk), Hlk. split; [done|by intros []].
  - intros o' Ho' Ha. destruct d; simpl in Ho'; by singletons.
  - intros o' t Ho' Hf. destruct d as [t'|a]; simpl in Ho'; singletons; try done. injection Hf as ->.
    by rewrite <- (Hdi t).
  - intros o' t Ho' Hf. destruct d as [t'|a]; simpl in Ho'; by singletons.
  - intros e He Ht. destruct (inv_stack _ Hinv e i He Ht) as (o' & Ho' & Hf).
    simplify_eq. simpl in Hf. destruct d; [|done]. injection Hf as ->. by exists (Send_return i ret).
  - intros a. destruct d as [t|b]; simpl; [done|]. rewrite Nat.add_0_r. apply one_iff.
    split; congruence.
  - intros a. destruct d as [t|b]; simpl; [done|]. rewrite Nat.add_0_r. apply one_iff.
    split; congruence.
  - intros a. by destruct d.
  - intros a. by destruct d.
  - intros a Ha. apply Hun in Ha. subst d. split; [eauto|done].
  - destruct d; simpl; [split; [intros ? [=]|done]|]. split; [intros ? [= ->]; counts|].
    split; [intros ? [=]|done].
Qed.

(** The entries [l] that [gcip_mailbox_enqueue_cmd] adds for the waiter [d]. *)
Definition new_entries s (d : async_ref) m (l : list wait_list_elem) : Prop :=
  (l = [] ∧ ∃ w, deref d m = Some w ∧ w.(resp) = None)
  ∨ ∃ r, l = [WaitListElem d (awaiter_of d)] ∧ deref d m = Some (AsyncResp true (Some r))
      ∧ ∀ d' w' r', d' ≠ d → unlisted d' s = false → deref d' s.(mbx) = Some w' →
          w'.(resp) = Some r' → matches r r' = false.

(** [m1] with the new entries and their references. *)
Record entered (i : nat) (l : list wait_list_elem) m1 m : Prop := Entered {
  en_wait : m.(wait_list) = m1.(wait_list) ++ l;
  en_lock : m.(tx_queue_lock) = Some i;
  en_owned : m.(owned) = m1.(owned);
  en_queue : m.(tx_queue) = m1.(tx_queue);
  en_wrap : m.(queue_wrap_bit) = m1.(queue_wrap_bit);
  en_user : m.(user) = m1.(user);
  en_frames : m.(frames) = m1.(frames);
  en_awaiters a : m.(awaiters) !! a =
    (λ w, set_kref (w.(kref) + Z.of_nat (cnt (λ e, one (we_awaiter e = Some a)) l)) w)
      <$> m1.(awaiters) !! a
}.

Lemma entered_deref i l m1 m d : entered i l m1 m → deref d m = deref d m1.
Proof.
  intros He. destruct d as [t|a]; simpl.
  - by rewrite (en_frames _ _ _ _ He).
  - rewrite (en_awaiters _ _ _ _ He). by destruct (m1.(awaiters) !! a).
Qed.

Lemma inv_enqueued s i cmd cmd' d l m1 m :
  inv s → s.(threads) !! i = Some [Enqueue cmd d] → s.(mbx).(tx_queue_lock) = None →
  keyed d s.(mbx) m1 → entered i l m1 m → new_entries s d m1 l →
  inv (after s i [Enqueue_copy cmd' d] [] m).
Proof.
  intros Hinv Hi Hlk Hk Hen Hl.
  set (s' := after s i [Enqueue_copy cmd' d] [] m).
  assert (m.(wait_list) = s.(mbx).(wait_list) ++ l) as Hwl.
  { by rewrite (en_wait _ _ _ _ Hen), (ky_wait _ _ _ Hk). }
  assert (m.(owned) = s.(mbx).(owned)) as How.
  { by rewrite (en_owned _ _ _ _ Hen), (ky_owned _ _ _ Hk). }
  assert (∀ d', deref d' m = deref d' m1) as Hde by (intros; by eapply entered_deref).
  assert (unlisted d s = true) as Hud.
  { apply unlisted_spec. exists i, [Enqueue cmd d]. split; [done|]. simpl.
    by rewrite bool_decide_eq_true_2. }
  assert (∀ d', d' ≠ d → unlisted d' s' = unlisted d' s) as Hun.
  { intros d' Hd'. eapply (unlisted_after _ _ (Enqueue cmd d)); [done| |done].
    by apply bool_decide_eq_false_2. }
  assert (∀ t, d = OnStack t → t = i) as Hdi.
  { intros t ->. by destruct (inv_frame _ Hinv i _ _ t Hi ltac:(left) eq_refl). }
  assert (∀ e, e ∈ s.(mbx).(wait_list) → e.(we_async_resp) ≠ d) as Hne.
  { intros e He <-. by rewrite (inv_listed _ Hinv e He) in Hud. }
  assert (∀ j q, s'.(threads) !! j = Some q →
            (j = i ∧ q = [Enqueue_copy cmd' d]) ∨ j ≠ i ∧ s.(threads) !! j = Some q) as Hj'.
  { intros j q Hj. destruct (after_lookup _ _ _ _ _ _ _ _ Hi Hj) as [[-> ->]|]; auto. }
  assert (s'.(threads) !! i = Some [Enqueue_copy cmd' d]) as Hi'.
  { apply list_lookup_insert_eq. by eapply lookup_lt_Some. }
  assert (∀ j q, j ≠ i → s'.(threads) !! j = Some q → ∀ cmd d, q ≠ [Enqueue_copy cmd d]) as Hnc.
  { intros j q Hji Hj cmd0 d0 ->. destruct (Hj' _ _ Hj) as [[? _]|[_ Hj0]]; [done|].
    assert (s.(mbx).(tx_queue_lock) = Some j) as Hlj; [|congruence].
    apply (inv_lock _ Hinv). eauto. }
  assert (∀ a, held a s' = held a s) as Hh.
  { intros a. pose proof (held_after _ _ _ _ [Enqueue_copy cmd' d] m a Hi) as Hh. simpl in Hh.
    subst s'. lia. }
  assert (unlisted d s' = false) as Hud'.
  { apply not_true_iff_false. intros Hu. apply unlisted_spec in Hu as (j & q & Hj & Hq).
    destruct (Hj' _ _ Hj) as [[-> ->]|[Hji Hj0]]; [done|]. destruct d as [t|a].
    - specialize (Hdi t eq_refl) as ->. apply existsb_exists in Hq as (o' & Ho' & Hx).
      apply list_elem_of_In in Ho'. assert (frame_of o' = Some i) as Hf.
      { destruct o'; simpl in Hx |- *; try done; apply bool_decide_eq_true_1 in Hx; by simplify_eq. }
      by destruct (inv_frame _ Hinv j q o' i Hj0 Ho' Hf).
    - destruct (inv_build _ Hinv j q a Hj0 Hq) as (H1 & _ & _ & w & _ & Hs).
      pose proof (cnt_two (cnt (weight a)) _ _ _ _ _ Hji Hj0 Hi) as H2. unfold held in H1.
      simpl in H2. rewrite one_yes in H2 by done. lia. }
  assert (∀ a, d = InAwaiter a → held a s = 1%nat ∧ listed_refs a s.(mbx) = 0%nat) as Hda.
  { intros a ->. destruct (inv_build _ Hinv i _ a Hi) as (H1 & H2 & _).
    { simpl. by rewrite bool_decide_eq_true_2. }
    split; [|done]. rewrite H1. simpl. by rewrite one_yes. }
  assert (∀ a w', m.(awaiters) !! a = Some w' → ∃ w, s.(mbx).(awaiters) !! a = Some w
    ∧ w'.(timeout_work) = w.(timeout_work)
    ∧ w'.(kref) = w.(kref) + Z.of_nat (cnt (λ e, one (we_awaiter e = Some a)) l)
    ∧ (w'.(aw_async_resp).(resp) = None → w.(aw_async_resp).(resp) = None)) as Haw.
  { intros a w'. rewrite (en_awaiters _ _ _ _ Hen). intros Hw'.
    apply fmap_Some in Hw' as (w1 & Hw1 & ->).
    destruct (ky_awaiters _ _ _ Hk a w1 Hw1) as (w & Hw & H1 & H2 & _ & H3). exists w.
    simpl. rewrite <- H2. done. }
  assert (∀ a, is_Some (s.(mbx).(awaiters) !! a) → is_Some (m.(awaiters) !! a)) as Hlive.
  { intros a Ha. rewrite (en_awaiters _ _ _ _ Hen), fmap_is_Some. by apply (ky_live _ _ _ Hk). }
  assert (∀ a, listed_refs a m = listed_refs a s.(mbx)
            + cnt (λ e, one (we_awaiter e = Some a)) l)%nat as Hlr.
  { intros a. unfold listed_refs. by rewrite Hwl, cnt_app. }
  assert (∀ a, timer_ref a m = timer_ref a s.(mbx)) as Ht.
  { intros a. unfold timer_ref. destruct (m.(awaiters) !! a) as [w'|] eqn:Hw'.
    - destruct (Haw a w' Hw') as (w & -> & -> & _). done.
    - destruct (s.(mbx).(awaiters) !! a) eqn:Hw; [|done].
      destruct (Hlive a) as [? ?]; [eauto|congruence]. }
  assert (∀ e, e ∈ l → e = WaitListElem d (awaiter_of d) ∧ ∃ r,
            deref d m = Some (AsyncResp true (Some r)) ∧
            ∀ d' w' r', d' ≠ d → unlisted d' s = false → deref d' s.(mbx) = Some w' →
              w'.(resp) = Some r' → matches r r' = false) as Hnew.
  { intros e He. destruct Hl as [[-> _]|(r & -> & Hr & Hf)]; singletons. split; [done|].
    exists r. by rewrite Hde. }
  constructor.
  - intros a. simpl. unfold refs. simpl. rewrite How, Ht, Hlr.
    pose proof (inv_refs _ Hinv a) as Hr. unfold refs in Hr. pose proof (Hh a) as Hha.
    destruct (m.(awaiters) !! a) as [w'|] eqn:Hw'.
    + destruct (Haw a w' Hw') as (w & Hw & _ & -> & _). rewrite Hw in Hr. lia.
    + destruct (s.(mbx).(awaiters) !! a) eqn:Hw.
      { destruct (Hlive a) as [? ?]; [eauto|congruence]. }
      assert (cnt (λ e, one (we_awaiter e = Some a)) l = 0%nat); [|lia].
      apply cnt_zero. intros e He. destruct (Hnew e He) as (-> & _). apply one_no. simpl.
      intros Heq. destruct d as [t|b]; simplify_eq/=. destruct (Hda a eq_refl) as [H1 _]. lia.
  - intros a. pose proof (inv_once _ Hinv a).
    pose proof (cnt_after (user_ref a) _ _ _ _ [Enqueue_copy cmd' d] m Hi) as Hc.
    simpl in *. rewrite How. lia.
  - simpl. rewrite (en_user _ _ _ _ Hen). apply Hk.
  - simpl. rewrite (en_wrap _ _ _ _ Hen), (en_queue _ _ _ _ Hen), (ky_wrap _ _ _ Hk),
      (ky_queue _ _ _ Hk). apply Hinv.
  - intros a [w' Hw']. destruct (Haw a w' Hw') as (w & Hw & _). apply (inv_fresh _ Hinv). eauto.
  - intros q Hq. apply list_elem_of_lookup in Hq as [j Hj].
    destruct (Hj' _ _ Hj) as [[-> ->]|[_ Hj0]]; [by split; [intros ? [=]|]|].
    eapply (inv_protected _ Hinv), list_elem_of_lookup_2, Hj0.
  - simpl. rewrite Hwl. intros e [He|He]%elem_of_app.
    + destruct (inv_elem _ Hinv e He) as (Hea & w & r & Hw & Hr). split; [done|].
      exists w, r. rewrite Hde, (ky_deref _ _ _ Hk) by eauto. done.
    + destruct (Hnew e He) as (-> & r & Hr & _). split; [done|]. simpl. rewrite Hr. eauto.
  - simpl. rewrite Hwl. intros e [He|He]%elem_of_app.
    + rewrite Hun by eauto. by apply (inv_listed _ Hinv).
    + by destruct (Hnew e He) as (-> & _).
  - simpl. rewrite Hwl, fmap_app. apply NoDup_app. split; [apply Hinv|]. split.
    + intros x Hx Hx'. apply list_elem_of_fmap in Hx as (e & -> & He).
      apply list_elem_of_fmap in Hx' as (e' & Heq & He'). destruct (Hnew e' He') as (-> & _).
      by apply (Hne e He).
    + destruct Hl as [[-> _]|(r & -> & _)]; [constructor|apply NoDup_singleton].
  - simpl. rewrite Hwl. intros d' w r e w' r' Hd Hr Hu [He|He]%elem_of_app Hw' Hr' Hm.
    + pose proof (Hne e He) as Hed. rewrite Hde, (ky_deref _ _ _ Hk) in Hw' by done.
      destruct (decide (d' = d)) as [->|Hd'].
      * exfalso. destruct Hl as [[-> (w0 & Hw0 & Hno)]|(r0 & -> & Hr0 & Hf)].
        { rewrite Hde, Hw0 in Hd. congruence. }
        rewrite Hde, Hr0 in Hd. simplify_eq/=.
        assert (unlisted e.(we_async_resp) s = false) as Hue by by apply (inv_listed _ Hinv).
        rewrite (Hf _ _ _ Hed Hue Hw' Hr') in Hm. done.
      * rewrite Hde, (ky_deref _ _ _ Hk) in Hd by done. fold s' in Hu. rewrite Hun in Hu by done.
        by eapply (inv_match _ Hinv).
    + destruct (Hnew e He) as (-> & r0 & Hr0 & Hf). simpl in Hw' |- *.
      rewrite Hr0 in Hw'. simplify_eq/=. destruct (decide (d' = d)) as [->|Hd']; [done|].
      rewrite Hde, (ky_deref _ _ _ Hk) in Hd by done. fold s' in Hu. rewrite Hun in Hu by done.
      rewrite matches_sym, (Hf _ _ _ Hd' Hu Hd Hr) in Hm. done.
  - intros j q o' Hj Ho' Ha. destruct (Hj' _ _ Hj) as [[-> ->]|[_ Hj0]]; [by singletons|].
    by eapply (inv_alone _ Hinv).
  - intros j q o' t Hj Ho' Hf. simpl. rewrite (en_frames _ _ _ _ Hen), (ky_frames _ _ _ Hk).
    destruct (Hj' _ _ Hj) as [[-> ->]|[_ Hj0]]; [|by eapply (inv_frame _ Hinv)].
    singletons. by eapply (inv_frame _ Hinv i _ _ t Hi); [left|].
  - simpl. rewrite Hwl. intros e t [He|He]%elem_of_app Ht'.
    + destruct (inv_stack _ Hinv e t He Ht') as (o' & Ho' & Hf). destruct (decide (t = i)) as [->|].
      * exfalso. simplify_eq. simpl in Hf. destruct d as [t|]; [|done]. injection Hf as ->.
        by apply (Hne e He).
      * exists o'. by rewrite list_lookup_insert_ne.
    + destruct (Hnew e He) as (-> & _). simpl in Ht'. subst d. pose proof (Hdi t eq_refl) as ->.
      by exists (Enqueue_copy cmd' (OnStack i)).
  - intros j q o' t Hj Ho' Hf. destruct (Hj' _ _ Hj) as [[-> ->]|[Hji Hj0]]; [by singletons|].
    pose proof (inv_waits _ Hinv j q o' t Hj0 Ho' Hf) as Hr. cbn -[deref].
    rewrite Hde, (ky_deref _ _ _ Hk); [done|]. intros Hd. symmetry in Hd. apply Hdi in Hd as ->.
    destruct (waits_alone _ _ Hf) as [_ Hf'].
    by destruct (inv_frame _ Hinv j q o' i Hj0 Ho' Hf') as [-> _].
  - intros j. simpl. rewrite (en_lock _ _ _ _ Hen). split.
    + intros [= <-]. eauto.
    + intros (cmd0 & d0 & Hj). destruct (decide (j = i)) as [->|Hji]; [done|].
      by destruct (Hnc j _ Hji Hj cmd0 d0).
  - intros j cmd0 d0 Hj. destruct (decide (j = i)) as [->|Hji]; [|by destruct (Hnc j _ Hji Hj cmd0 d0)].
    rewrite Hi' in Hj. injection Hj as <- <-. cbn -[deref]. rewrite Hde.
    destruct Hl as [[_ (w & Hw & _)]|(r & _ & Hr & _)]; eauto.
  - intros a. pose proof (cnt_after (runs_timeout a) _ _ _ _ [Enqueue_copy cmd' d] m Hi) as Hc.
    pose proof (inv_running _ Hinv a) as Hr. simpl in *.
    destruct (m.(awaiters) !! a) as [w'|] eqn:Hw'.
    + destruct (Haw a w' Hw') as (w & Hw & -> & _). rewrite Hw in Hr. lia.
    + destruct (s.(mbx).(awaiters) !! a) eqn:Hw; [|lia].
      destruct (Hlive a) as [? ?]; [eauto|congruence].
  - intros a w' Hw' Hno. destruct (Haw a w' Hw') as (w & Hw & Heq & _ & Hx).
    destruct (inv_resp _ Hinv a w Hw (Hx Hno)) as [H1 H2]. rewrite Heq. split; [done|].
    pose proof (cnt_after (compares a) _ _ _ _ [Enqueue_copy cmd' d] m Hi) as Hc. simpl in *. lia.
  - intros j q a Hj Hx. destruct (Hj' _ _ Hj) as [[-> ->]|[Hji Hj0]]; [done|].
    assert (d ≠ InAwaiter a) as Hd.
    { intros Hd. rewrite <- Hd in Hx. apply not_true_iff_false in Hud'. apply Hud'.
      apply unlisted_spec. eauto. }
    assert (cnt (λ e, one (we_awaiter e = Some a)) l = 0%nat) as Hl0.
    { apply cnt_zero. intros e He. destruct (Hnew e He) as (-> & _). apply one_no. simpl.
      intros Heq. destruct d as [t|b]; by simplify_eq/=. }
    destruct (inv_build _ Hinv j q a Hj0 Hx) as (H1 & H2 & H3 & w & Hw & Hs).
    fold s'. rewrite Hh. simpl. rewrite Hlr, How. split; [done|]. split; [lia|]. split; [done|].
    destruct (Hlive a) as [w' Hw']; [eauto|]. exists w'. split; [done|].
    destruct (Haw a w' Hw') as (w0 & Hw0 & Heq & _). simplify_eq. unfold build_shape in *.
    by rewrite Heq.
Qed.

Lemma fresh_key_spec cmd d s r :
  fresh_key cmd d s = true → key_of cmd d s.(mbx) = Some r →
  ∀ d' w' r', d' ≠ d → unlisted d' s = false → deref d' s.(mbx) = Some w' →
    w'.(resp) = Some r' → matches r r' = false.
Proof.
  unfold fresh_key. intros Hf Hk d' w' r' Hne Hu Hd Hr. rewrite Hk in Hf.
  apply andb_true_iff in Hf as [Hf1 Hf2]. rewrite !forallb_forall in Hf1, Hf2.
  assert (unlike r d d' w' s = true) as Hx.
  { destruct d' as [t|a]; simpl in Hd.
    - apply (Hf1 (t, w')). by apply list_elem_of_In, elem_of_map_to_list.
    - apply fmap_Some in Hd as (w & Hw & ->). apply (Hf2 (a, w)).
      by apply list_elem_of_In, elem_of_map_to_list. }
  unfold unlike in Hx. rewrite Hu, Hr, bool_decide_eq_false_2 in Hx by congruence.
  simpl in Hx. by apply negb_true_iff in Hx.
Qed.

Lemma set_kref_same (x : option (resp_awaiter R)) :
  (λ w, set_kref (w.(kref) + Z.of_nat 0) w) <$> x = x.
Proof. destruct x as [[]|]; simpl; [|done]. unfold set_kref. simpl. by rewrite Z.add_0_r. Qed.

Lemma enqueue_ok s i cmd d rest :
  inv s → s.(threads) !! i = Some (Enqueue cmd d :: rest) → fresh_key cmd d s = true →
  op_ok s i (Enqueue cmd d) rest.
Proof.
  intros Hinv Hi Hfk.
  pose proof (inv_alone _ Hinv i _ _ Hi ltac:(left) eq_refl) as Heq. injection Heq as ->.
  unfold GcipMailboxInv.op_ok. simpl. unfold gcip_mailbox_enqueue_cmd.
  destruct (s.(mbx).(tx_queue_lock)) as [j|] eqn:Hlk; [done|]. simpl.
  pose proof (fresh_key_spec cmd d s) as Hfresh. unfold key_of in Hfresh.
  set (cmd' := if should_maintain_seq_num _ then _ else cmd) in *.
  assert (is_Some (deref d s.(mbx))) as [w Hw].
  { destruct d as [t|a].
    - by destruct (inv_frame _ Hinv i _ _ t Hi ltac:(left) eq_refl) as [-> ?].
    - destruct (mentioned_live _ _ _ a Hinv Hi) as (w & Hw & _); [counts|].
      simpl. rewrite Hw. simpl. eauto. }
  assert (keyed d s.(mbx) s.(mbx)) as Hsame.
  { constructor; try done; [apply Hinv|eauto 10]. }
  destruct (wait_for_tx_queue_not_full (s.(mbx).(user)) =? 0); simpl.
  2: by eapply enqueue_fails.
  rewrite Hw in Hfresh |- *. simpl in Hfresh |- *. destruct (w.(resp)) as [r|] eqn:Hr; simpl.
  2: { eapply (inv_enqueued _ _ cmd _ d [] s.(mbx)); try done; [|left; eauto].
       constructor; try done; [by rewrite app_nil_r|]. intros a.
       by rewrite cnt_nil, set_kref_same. }
  set (r1 := set_resp_elem_seq _ r) in *. specialize (Hfresh r1 Hfk eq_refl).
  apply wp_bind. unfold gcip_mailbox_push_wait_resp.
  destruct (store_keyed d r1 s.(mbx)) as [Hk Hd]; [eauto|apply Hinv|]. rewrite Hd. simpl.
  set (m1 := store d _ s.(mbx)) in *.
  destruct (has_memory m1.(user)); simpl; [|by eapply enqueue_fails].
  destruct (try_call _ m1) as [ret m2] eqn:Htc.
  assert (keyed d s.(mbx) m2 ∧ deref d m2 = Some (AsyncResp true (Some r1))) as [Hk2 Hd2].
  { unfold try_call in Htc. destruct before_enqueue_wait_list as [f|] eqn:Hf; simpl in Htc.
    - destruct (f r1 (awaiter_of d) m1.(user)) as [ret' h] eqn:Hfr. simplify_eq.
      split; [|done]. destruct Hk. constructor; try done. simpl.
      pose proof (user_before m1.(user) f r1 (awaiter_of d) ltac:(done) Hf) as Hu.
      by rewrite Hfr in Hu.
    - by simplify_eq. }
  destruct (Z.eqb_spec ret 0) as [->|Hret]; simpl.
  2: { rewrite (proj2 (Z.eqb_neq ret 0)) by done. simpl. by eapply enqueue_fails. }
  assert (new_entries s d m2 [WaitListElem d (awaiter_of d)]) as Hnew.
  { right. exists r1. done. }
  destruct d as [t|a]; simpl.
  - eapply (inv_enqueued _ _ cmd _ (OnStack t) [WaitListElem (OnStack t) None] m2); try done.
    constructor; try done. intros a.
    by rewrite cnt_cons, cnt_nil, one_no, set_kref_same.
  - apply wp_bind. simpl in Hd2. destruct (m2.(awaiters) !! a) as [w2|] eqn:Hw2; [|done].
    unfold gcip_mailbox_awaiter_get. rewrite Hw2. simpl.
    eapply (inv_enqueued _ _ cmd _ (InAwaiter a) [WaitListElem (InAwaiter a) (Some a)] m2); try done.
    constructor; try done. intros b. rewrite cnt_cons, cnt_nil. simpl. destruct (decide (b = a)) as [->|].
    + rewrite lookup_insert_eq, Hw2. simpl. by rewrite one_yes.
    + rewrite lookup_insert_ne, one_no by congruence. by rewrite set_kref_same.
Qed.

(** The thread goes on once its command is copied. *)
Lemma enqueue_returns s i cmd d w m :
  inv s → s.(threads) !! i = Some [Enqueue_copy cmd d] → deref d s.(mbx) = Some w →
  m.(wait_list) = s.(mbx).(wait_list) → m.(frames) = s.(mbx).(frames) →
  m.(awaiters) = s.(mbx).(awaiters) → m.(owned) = s.(mbx).(owned) →
  m.(queue_wrap_bit) = s.(mbx).(queue_wrap_bit) →
  length m.(tx_queue) = length s.(mbx).(tx_queue) → m.(tx_queue_lock) = None →
  user_ok m.(user) → inv (after s i (enqueued d w.(resp)) [] m).
Proof.
  intros Hinv Hi Hw E1 E2 E3 E4 E5 E6 E7 Hu.
  apply (inv_rethread _ _ (Enqueue_copy cmd d)); [done|].
  assert (∀ t, d = OnStack t → t = i) as Hdi.
  { intros t ->. by destruct (inv_frame _ Hinv i _ _ t Hi ltac:(left) eq_refl). }
  assert (∀ d', existsb (op_unlists d') (enqueued (C := C) d w.(resp)) = true →
            d' = d ∧ d = OnStack i ∧ w.(resp) = None) as Hun.
  { intros d' Hx. destruct d as [t|a], (w.(resp)); simpl in Hx; try done.
    rewrite orb_false_r in Hx. apply bool_decide_eq_true_1 in Hx as ->.
    by rewrite (Hdi t). }
  constructor; try done.
  - by rewrite E2.
  - intros a w'. rewrite E3. eauto 10.
  - by rewrite E3.
  - intros d'. left. destruct d'; simpl; [by rewrite E2|by rewrite E3].
  - intros d' e Hx He <-. destruct (Hun _ Hx) as (Hd & _ & Hno).
    destruct (inv_elem _ Hinv e He) as (_ & w' & r & Hw' & Hr & _). rewrite Hd in Hw'. congruence.
  - intros o' cmd' d' Ho'. destruct d, (w.(resp)); simpl in Ho'; by singletons.
  - intros j. rewrite E7. split; [done|]. intros [Hji Hj].
    assert (s.(mbx).(tx_queue_lock) = Some i) by (apply (inv_lock _ Hinv); eauto). congruence.
  - intros o' Ho' Ha. destruct d, (w.(resp)); simpl in Ho'; by singletons.
  - intros o' t Ho' Hf. destruct d as [t'|a], (w.(resp)); simpl in Ho'; singletons; try done;
      injection Hf as ->; by rewrite <- (Hdi t).
  - intros o' t Ho' Hf. destruct d as [t'|a], (w.(resp)) eqn:Hr; simpl in Ho'; singletons; try done.
    injection Hf as ->. simpl. simpl in Hw. rewrite E2, Hw. simpl. rewrite Hr. eauto.
  - intros e He Ht. destruct (inv_stack _ Hinv e i He Ht) as (o' & Ho' & Hf). simplify_eq.
    simpl in Hf. destruct d as [t|]; [|done]. injection Hf as ->.
    destruct (w.(resp)); simpl; eauto.
  - intros a. destruct d as [t|b], (w.(resp)); simpl; try done; rewrite Nat.add_0_r;
      apply one_iff; split; congruence.
  - intros a. destruct d as [t|b], (w.(resp)); simpl; try done; rewrite Nat.add_0_r;
      apply one_iff; split; congruence.
  - intros a. by destruct d, (w.(resp)).
  - intros a. by destruct d, (w.(resp)).
  - intros a Hx. by destruct (Hun _ Hx) as (<- & ? & _).
  - destruct d, (w.(resp)); simpl; split; (done || by intros ? [=]).
Qed.

Lemma after_call_ok m cmd :
  user_ok m.(user) →
  ∃ h, user_ok h ∧ try_call (after_enqueue_cmd ≫= λ f, Some (f cmd)) m = (0, set_user h m).
Proof.
  intros Hu. unfold try_call. destruct after_enqueue_cmd as [f|] eqn:Hf; simpl.
  - destruct (user_after m.(user) f cmd Hu Hf) as [H0 Hu'].
    destruct (f cmd m.(user)) as [ret h]. simpl in *. exists h. by rewrite H0.
  - exists m.(user). by destruct m.
Qed.

Lemma enqueue_copy_ok s i cmd d rest :
  inv s → s.(threads) !! i = Some (Enqueue_copy cmd d :: rest) →
  op_ok s i (Enqueue_copy cmd d) rest.
Proof.
  intros Hinv Hi.
  pose proof (inv_alone _ Hinv i _ _ Hi ltac:(left) eq_refl) as Heq. injection Heq as ->.
  destruct (inv_copy _ Hinv _ _ _ Hi) as [w Hw].
  unfold GcipMailboxInv.op_ok. simpl. unfold enqueue_copy.
  destruct (inv_queue _ Hinv) as [Hwb Hn]. rewrite Hwb.
  pose proof (user_tail (s.(mbx).(user)) (inv_user _ Hinv)) as Ht.
  rewrite decide_True by lia. set (idx := Z.to_nat _).
  set (m1 := set_user _ (log _ (set_tx_queue _ s.(mbx)))).
  assert (user_ok m1.(user)) as Hu1 by apply user_inc, Hinv.
  destruct (after_call_ok m1 cmd Hu1) as (h & Hh & ->).
  cbn -[deref]. set (m3 := if should_maintain_seq_num _ then _ else _).
  assert (deref d m3 = Some w) as ->.
  { subst m3. by destruct (should_maintain_seq_num _), d. }
  simpl. apply (enqueue_returns _ _ cmd _ w); try done;
    subst m3; destruct (should_maintain_seq_num _); try done; simpl; by rewrite length_insert.
Qed.

Lemma put_cmd_return_ok s i a rest :
  inv s → s.(threads) !! i = Some (Put_cmd_return a :: rest) → op_ok s i (Put_cmd_return a) rest.
Proof.
  intros Hinv Hi. unfold GcipMailboxInv.op_ok. simpl.
  apply (give_back_ok s i (Put_cmd_return a) a rest None); try done; try (intros; counts).
  intros; not_building.
Qed.

Lemma cancel_return_ok s i a b rest :
  inv s → s.(threads) !! i = Some (Cancel_return a b :: rest) → op_ok s i (Cancel_return a b) rest.
Proof.
  intros Hinv Hi. unfold GcipMailboxInv.op_ok. simpl.
  apply (give_back_ok s i (Cancel_return a b) a rest (Some (Cancelled a b))); try done;
    try (intros; counts). intros; not_building.
Qed.

Lemma exec_ok s i o rest :
  inv s → s.(threads) !! i = Some (o :: rest) → allowed (Run i) s = true → op_ok s i o rest.
Proof.
  intros Hinv Hi Hal. destruct o.
  - apply enqueue_ok; try done. simpl in Hal. by rewrite Hi in Hal.
  - by apply enqueue_copy_ok.
  - by apply send_wait_ok.
  - by apply send_del_ok.
  - by apply send_return_ok.
  - by apply put_cmd_return_ok.
  - by apply free_awaiter_ok.
  - by apply rx_elem_ok.
  - by apply cancel_timeout_work_ok.
  - by apply cancel_timeout_work_sync_ok.
  - apply (handler_ok _ _ (Awaiter_arrived a) a); try done; [by intros; not_building|].
    intros; by apply user_arrived.
  - apply (handler_ok _ _ (Awaiter_timedout a) a); try done; [by intros; not_building|].
    intros; by apply user_timedout.
  - by apply complete_all_ok.
  - by apply awaiter_put_ok.
  - by apply timeout_del_ok.
  - by apply timeout_put_ok.
  - by apply cancel_del_ok.
  - by apply cancel_wait_ok.
  - by apply cancel_return_ok.
  - by apply awaiter_flushed_ok.
Qed.

End Steps.
