(* ===== verification/GcipMailboxMoves.v ===== *)
(** * GCIP: the moves of the users, the timers and the firmware keep the invariant

    A move starts a thread, so that it changes the references of awaiters only
    together with the operations that the thread has to do. *)

From S2P Require Import Prelude.
From S2P Require Import Interleaving.
From S2P Require Import GcipQueue.
From S2P Require Import GcipMailbox.
From S2P Require Import GcipMailboxInv.
From S2P Require Import GcipMailboxSteps.

Section Moves.
Context {C R H : Type} {ops : gcip_mailbox_ops C R H}.
Context {wrap_bit : Z} {n : nat} {user_ok : H → Prop}.
Context {laws : user_laws ops wrap_bit n user_ok} {key : match_laws ops}.
Local Notation mailbox := (gcip_mailbox C R H).
Local Notation op := (op C R).
Local Notation system := (system C R H).
Local Notation inv := (inv wrap_bit n user_ok).
Implicit Types (m : mailbox) (s : system).

Definition spawned s (p : list op) m : system := spawn p (set_mbx m s).

Lemma spawned_lookup s p m j q :
  (spawned s p m).(threads) !! j = Some q →
  (j = length s.(threads) ∧ q = p) ∨ s.(threads) !! j = Some q.
Proof.
  simpl. intros Hj. apply lookup_snoc_Some in Hj as [[_ Hj]|[-> ->]]; auto.
Qed.

Lemma spawned_old s p m j q :
  s.(threads) !! j = Some q → (spawned s p m).(threads) !! j = Some q.
Proof. intros Hj. simpl. by apply lookup_app_l_Some. Qed.

Lemma cnt_spawned (f : op → nat) s p m :
  cnt (cnt f) (spawned s p m).(threads) = (cnt (cnt f) s.(threads) + cnt f p)%nat.
Proof. simpl. rewrite cnt_app, cnt_cons, cnt_nil. lia. Qed.

Lemma unlisted_spawned s p m d :
  unlisted d (spawned s p m) = unlisted d s || existsb (op_unlists d) p.
Proof. unfold unlisted. simpl. rewrite existsb_app. simpl. by rewrite orb_false_r. Qed.

(** A thread of plain operations starts. *)
Record spawn_step s (p : list op) m : Prop := SpawnStep {
  sp_wait e : e ∈ m.(wait_list) → e ∈ s.(mbx).(wait_list);
  sp_nodup : NoDup (we_async_resp <$> m.(wait_list));
  sp_frames : m.(frames) = s.(mbx).(frames);
  sp_lock : m.(tx_queue_lock) = s.(mbx).(tx_queue_lock);
  sp_queue : m.(tx_queue) = s.(mbx).(tx_queue);
  sp_wrap : m.(queue_wrap_bit) = s.(mbx).(queue_wrap_bit);
  sp_user : user_ok m.(user);
  sp_plain o : o ∈ p → plain o;
  sp_awaiters a w' : m.(awaiters) !! a = Some w' → ∃ w, s.(mbx).(awaiters) !! a = Some w
    ∧ aw_async_resp w' = aw_async_resp w ∧ (w.(timeout_work) = WorkIdle → w'.(timeout_work) = WorkIdle);
  sp_live a : is_Some (s.(mbx).(awaiters) !! a) → is_Some (m.(awaiters) !! a);
  sp_build a : unlisted (InAwaiter a) s = true → a ∉ s.(mbx).(owned) →
    listed_refs a s.(mbx) = 0%nat →
    m.(awaiters) !! a = s.(mbx).(awaiters) !! a ∧ cnt (weight a) p = 0%nat ∧ a ∉ m.(owned);
  sp_refs a : match m.(awaiters) !! a with
    | Some w => w.(kref) = Z.of_nat (refs a (spawned s p m)) ∧ (0 < refs a (spawned s p m))%nat
    | None => refs a (spawned s p m) = 0%nat end;
  sp_once a : (cnt (user_ref a) p + one (a ∈ m.(owned)) ≤ one (a ∈ s.(mbx).(owned)))%nat;
  sp_runs a w w' : s.(mbx).(awaiters) !! a = Some w → m.(awaiters) !! a = Some w' →
    (one (w.(timeout_work) = WorkRunning) + cnt (runs_timeout a) p
     = one (w'.(timeout_work) = WorkRunning))%nat;
  sp_dead a : s.(mbx).(awaiters) !! a = None → cnt (runs_timeout a) p = 0%nat;
  sp_compares a w : s.(mbx).(awaiters) !! a = Some w → w.(aw_async_resp).(resp) = None →
    cnt (compares a) p = 0%nat;
  sp_protected : protected p
}.

Lemma inv_spawn s p m : inv s → spawn_step s p m → inv (spawned s p m).
Proof.
  intros Hinv Hsp.
  assert (∀ d, unlisted d (spawned s p m) = unlisted d s) as Hun.
  { intros d. rewrite unlisted_spawned, plain_unlists; [by rewrite orb_false_r|apply Hsp]. }
  assert (∀ d, deref d m = deref d s.(mbx)) as Hde.
  { intros [t|a]; simpl; [by rewrite (sp_frames _ _ _ Hsp)|].
    destruct (m.(awaiters) !! a) as [w'|] eqn:Hw'.
    - destruct (sp_awaiters _ _ _ Hsp a w' Hw') as (w & -> & Heq & _). simpl. by rewrite Heq.
    - destruct (s.(mbx).(awaiters) !! a) eqn:Hw; [|done].
      destruct (sp_live _ _ _ Hsp a) as [? ?]; [eauto|congruence]. }
  assert (∀ j q o', (spawned s p m).(threads) !! j = Some q → o' ∈ q → alone o' = true →
            s.(threads) !! j = Some q) as Haj.
  { intros j q o' Hj Ho' Ha. destruct (spawned_lookup _ _ _ _ _ Hj) as [[-> ->]|]; [|done].
    destruct (sp_plain _ _ _ Hsp o' Ho'). congruence. }
  constructor; try apply Hsp.
  - intros a. rewrite cnt_spawned. pose proof (inv_once _ Hinv a).
    pose proof (sp_once _ _ _ Hsp a). simpl. lia.
  - simpl. rewrite (sp_wrap _ _ _ Hsp), (sp_queue _ _ _ Hsp). apply Hinv.
  - intros a [w' Hw']. destruct (sp_awaiters _ _ _ Hsp a w' Hw') as (w & Hw & _).
    apply (inv_fresh _ Hinv). eauto.
  - intros q Hq. apply list_elem_of_lookup in Hq as [j Hj].
    destruct (spawned_lookup _ _ _ _ _ Hj) as [[-> ->]|Hj']; [apply Hsp|].
    eapply (inv_protected _ Hinv), list_elem_of_lookup_2, Hj'.
  - intros e He. destruct (inv_elem _ Hinv e (sp_wait _ _ _ Hsp e He)) as [Hea Hw].
    split; [done|]. simpl. by rewrite Hde.
  - intros e He. rewrite Hun. by apply (inv_listed _ Hinv), (sp_wait _ _ _ Hsp).
  - intros d w r e w' r'. rewrite Hun. simpl. rewrite !Hde. intros Hd Hr Hu He.
    eapply (inv_match _ Hinv); try done. by apply (sp_wait _ _ _ Hsp).
  - intros j q o' Hj Ho' Ha. apply (inv_alone _ Hinv j q o'); try done.
    by apply (Haj j q o').
  - intros j q o' t Hj Ho' Hf. simpl. rewrite (sp_frames _ _ _ Hsp).
    apply (inv_frame _ Hinv j q o' t); try done.
    apply (Haj j q o'); try done. by eapply frame_alone.
  - intros e t He Ht. destruct (inv_stack _ Hinv e t (sp_wait _ _ _ Hsp e He) Ht) as (o & Ho & Hf).
    exists o. split; [|done]. by apply spawned_old.
  - intros j q o' t Hj Ho' Hf. cbn -[deref]. rewrite Hde.
    apply (inv_waits _ Hinv j q o' t); try done.
    apply (Haj j q o'); try done. by eapply waits_alone.
  - intros j. change (m.(tx_queue_lock) = Some j ↔
      ∃ cmd d, (spawned s p m).(threads) !! j = Some [Enqueue_copy cmd d]).
    rewrite (sp_lock _ _ _ Hsp), (inv_lock _ Hinv). split; intros (cmd & d & Hj); exists cmd, d.
    + by apply spawned_old.
    + by eapply (Haj _ _ (Enqueue_copy cmd d)); [|left|].
  - intros j cmd d Hj. simpl. rewrite Hde.
    eapply (inv_copy _ Hinv). by eapply (Haj _ _ (Enqueue_copy cmd d)); [|left|].
  - intros a. rewrite cnt_spawned, (inv_running _ Hinv a). simpl.
    destruct (s.(mbx).(awaiters) !! a) as [w|] eqn:Hw.
    + destruct (sp_live _ _ _ Hsp a) as [w' Hw']; [eauto|]. rewrite Hw'.
      by apply (sp_runs _ _ _ Hsp).
    + rewrite (sp_dead _ _ _ Hsp a Hw). destruct (m.(awaiters) !! a) as [w'|] eqn:Hw'; [|done].
      destruct (sp_awaiters _ _ _ Hsp a w' Hw') as (w & Hw0 & _). congruence.
  - intros a w' Hw' Hno. destruct (sp_awaiters _ _ _ Hsp a w' Hw') as (w & Hw & Heq & Hi).
    rewrite Heq in Hno. destruct (inv_resp _ Hinv a w Hw Hno). split; [auto|].
    rewrite cnt_spawned, (sp_compares _ _ _ Hsp a w); [lia|done..].
  - intros j q a Hj Hx.
    destruct (spawned_lookup _ _ _ _ _ Hj) as [[-> ->]|Hj'].
    { rewrite plain_unlists in Hx; [done|apply Hsp]. }
    destruct (inv_build _ Hinv j q a Hj' Hx) as (H1 & H2 & H3 & Hs).
    destruct (sp_build _ _ _ Hsp a) as (Ha & H0 & Ho); try done.
    { apply unlisted_spec. eauto. }
    unfold held in *. rewrite cnt_spawned, H0, Nat.add_0_r. split; [done|].
    simpl. rewrite Ha. split_and!; try done. unfold listed_refs in *. apply cnt_zero.
    intros e He. apply (proj1 (cnt_zero _ _) H2). by apply (sp_wait _ _ _ Hsp).
Qed.

Lemma refs_spawned s p m a :
  m.(wait_list) = s.(mbx).(wait_list) →
  (refs a (spawned s p m) + one (a ∈ s.(mbx).(owned)) + timer_ref a s.(mbx)
   = refs a s + cnt (weight a) p + one (a ∈ m.(owned)) + timer_ref a m)%nat.
Proof.
  intros Hwl. unfold refs, held, listed_refs. rewrite cnt_spawned. simpl. rewrite Hwl. lia.
Qed.

(** The user hands its reference of [a] to a thread. *)
Lemma give_ok s p a :
  inv s → a ∈ s.(mbx).(owned) → (∀ o, o ∈ p → plain o) →
  (∀ b, cnt (weight b) p = one (b = a)) → (∀ b, cnt (runs_timeout b) p = 0%nat) →
  (∀ b w, s.(mbx).(awaiters) !! b = Some w → w.(aw_async_resp).(resp) = None →
     cnt (compares b) p = 0%nat) →
  protected p → inv (spawned s p (set_owned (s.(mbx).(owned) ∖ {[a]}) s.(mbx))).
Proof.
  intros Hinv Ha Hp Hw Hr Hc Hpr. set (m := set_owned _ _).
  assert (∀ b, (one (b = a) + one (b ∈ m.(owned)) = one (b ∈ s.(mbx).(owned)))%nat) as Ho.
  { intros b. simpl. destruct (decide (b = a)) as [->|].
    - rewrite (one_yes (a = a)), (one_no (a ∈ _ ∖ _)), one_yes by (done || set_solver). done.
    - rewrite (one_no (b = a)) by done. apply one_iff. set_solver. }
  apply inv_spawn; [done|]. constructor; try done; simpl.
  - apply Hinv.
  - apply Hinv.
  - eauto.
  - intros b _ Hb _. specialize (Ho b). rewrite (one_no (b ∈ s.(mbx).(owned))) in Ho by done.
    rewrite Hw. split; [done|]. split; [lia|]. set_solver.
  - intros b. pose proof (refs_spawned s p m b eq_refl) as Hrb. specialize (Ho b).
    rewrite Hw in Hrb. assert (timer_ref b m = timer_ref b s.(mbx)) as Ht by done.
    replace (refs b (spawned s p m)) with (refs b s) by lia. apply (inv_refs _ Hinv).
  - intros b. specialize (Ho b). pose proof (cnt_le (user_ref b) (weight b) p (user_ref_weight b)) as Hl.
    rewrite Hw in Hl. simpl in Ho. lia.
  - intros b w w' -> [= ->]. rewrite Hr. lia.
Qed.

Lemma cancel_move_ok s a :
  inv s → allowed (Cancel a) s = true → wp (step (Cancel a) s) inv.
Proof.
  intros Hinv Hal. simpl in Hal. apply andb_true_iff in Hal as [Ha Hr].
  apply bool_decide_eq_true_1 in Ha, Hr. simpl.
  apply (give_ok s [Cancel_timeout_work a; Cancel_del a] a); try done.
  - intros; by singletons.
  - intros b. simpl. rewrite Nat.add_0_r. apply one_iff. split; congruence.
  - intros b w Hw Hno. simpl. rewrite one_no; [done|]. intros ->. simpl in Hr.
    rewrite Hw in Hr. simpl in Hr. rewrite Hno in Hr. by destruct Hr.
  - split; [|split; [|done]]; intros ? [=]; subst; counts.
Qed.

Lemma user_put_ok s a :
  inv s → allowed (User_put a) s = true → wp (step (User_put a) s) inv.
Proof.
  intros Hinv Hal. simpl in Hal. apply bool_decide_eq_true_1 in Hal. simpl.
  apply (give_ok s [Awaiter_put a] a); try done.
  - intros; by singletons.
  - intros b. simpl. rewrite Nat.add_0_r. apply one_iff. split; congruence.
Qed.

Lemma timer_ok s a : inv s → allowed (Timer a) s = true → wp (step (Timer a) s) inv.
Proof.
  intros Hinv Hal. simpl in Hal. simpl.
  destruct (s.(mbx).(awaiters) !! a) as [w|] eqn:Hw; [|done]. simpl.
  apply andb_true_iff in Hal as [Ht Hu]. apply bool_decide_eq_true_1 in Ht.
  apply negb_true_iff in Hu. set (w' := set_timeout_work WorkRunning w).
  set (m := set_awaiters _ _). set (p := [Timeout_del a; Timeout_put a]).
  assert (∀ b, m.(awaiters) !! b = if decide (b = a) then Some w' else s.(mbx).(awaiters) !! b)
    as Haw.
  { intros b. simpl. destruct (decide (b = a)) as [->|]; [by rewrite lookup_insert_eq|].
    by rewrite lookup_insert_ne. }
  assert (∀ b, cnt (weight b) p = one (b = a)) as Hwt.
  { intros b. simpl. rewrite Nat.add_0_r. apply one_iff. split; congruence. }
  apply (inv_spawn s p m); [done|]. constructor; try done.
  - apply Hinv.
  - apply Hinv.
  - intros o Ho. subst p. by singletons.
  - intros b wb. rewrite Haw. destruct (decide (b = a)) as [->|]; [|eauto].
    intros [= <-]. exists w. split; [done|]. split; [done|]. congruence.
  - intros b. rewrite Haw. destruct (decide (b = a)); [eauto|done].
  - intros b Hb Ho _. rewrite Haw, Hwt. destruct (decide (b = a)) as [->|]; [congruence|].
    by rewrite one_no.
  - intros b. pose proof (refs_spawned s p m b eq_refl) as Hrb. rewrite Hwt in Hrb.
    pose proof (inv_refs _ Hinv b) as Hr. unfold timer_ref in Hrb. rewrite Haw in Hrb |- *.
    simpl in Hrb. destruct (decide (b = a)) as [->|].
    + rewrite Hw in Hrb, Hr. simpl in Hrb. rewrite Ht in Hrb. simp_one.
      replace (refs a (spawned s p m)) with (refs a s) by lia. done.
    + rewrite (one_no (b = a)) in Hrb by done.
      replace (refs b (spawned s p m)) with (refs b s) by lia. done.
  - intros b wb wb' Hb. rewrite Haw. subst p. simpl. destruct (decide (b = a)) as [->|].
    + intros [= <-]. simplify_eq. rewrite Ht. counts.
    + intros Hb'. simplify_eq. rewrite (one_no (a = b)) by congruence. lia.
  - intros b Hb. subst p. simpl. by rewrite one_no by congruence.
  - intros b wb Hb Hno. subst p. simpl. rewrite one_no; [done|]. intros ->. simplify_eq.
    destruct (inv_resp _ Hinv _ _ Hw Hno). congruence.
  - split; [|split; [|done]]; intros ? [=]; subst; counts.
Qed.

Lemma responses_ok s rs : inv s → wp (step (Responses rs) s) inv.
Proof.
  intros Hinv. simpl. set (p := Rx_elem (C := C) <$> rs).
  assert (∀ f : op → nat, (∀ r, f (Rx_elem r) = 0%nat) → cnt f p = 0%nat) as Hz.
  { intros f Hf. apply cnt_zero. intros o Ho. apply list_elem_of_fmap in Ho as (r & -> & _). done. }
  assert (inv (spawned s p s.(mbx))) as Hok; [|by destruct s].
  apply inv_spawn; [done|]. constructor; try done; try (intros; by apply Hz).
  - apply Hinv.
  - apply Hinv.
  - intros o Ho. apply list_elem_of_fmap in Ho as (r & -> & _). done.
  - eauto.
  - intros b _ Hb _. rewrite Hz by done. done.
  - intros b. pose proof (refs_spawned s p s.(mbx) b eq_refl) as Hrb.
    rewrite Hz in Hrb by done. replace (refs b (spawned s p s.(mbx))) with (refs b s) by lia.
    apply (inv_refs _ Hinv).
  - intros b. rewrite Hz; [lia|done].
  - intros b w w' -> [= ->]. rewrite Hz; [lia|done].
  - subst p. clear Hz. induction rs as [|r rs IH]; [done|]. by split; [intros ? [=]|].
Qed.

(** ** Release *)

Lemma flush_cnt (f : op → nat) (k : nat → nat) l :
  (∀ a, cnt f [Awaiter_put a; Cancel_timeout_work_sync a; Awaiter_flushed a] = k a) →
  cnt f (l ≫= flush_elem) = cnt (λ e, from_option k 0%nat (we_awaiter e)) l.
Proof.
  intros Hf. induction l as [|e l IH]; [done|]. rewrite bind_cons, cnt_app, cnt_cons, IH. f_equal.
  unfold flush_elem. by destruct e.(we_awaiter).
Qed.

Lemma cnt_scale {A} (f g : A → nat) (k : nat) l :
  (∀ x, f x = k * g x)%nat → cnt f l = (k * cnt g l)%nat.
Proof.
  intros Hfg. induction l as [|x l IH]; [simpl; lia|]. rewrite !cnt_cons, Hfg. lia.
Qed.

Lemma flush_weight a l :
  cnt (weight (C := C) (R := R) a) (l ≫= flush_elem)
  = (2 * cnt (λ e, one (we_awaiter e = Some a)) l)%nat.
Proof.
  rewrite (flush_cnt _ (λ b, 2 * one (b = a))%nat) by (intros; simpl; lia).
  apply cnt_scale. intros e. destruct e.(we_awaiter) as [b|]; simpl; [|done].
  rewrite (one_iff (b = a) (Some b = Some a)) by (split; congruence). lia.
Qed.

Lemma flush_user_ref a l :
  cnt (user_ref (C := C) (R := R) a) (l ≫= flush_elem)
  = cnt (λ e, one (we_awaiter e = Some a)) l.
Proof.
  rewrite (flush_cnt _ (λ b, one (b = a))) by (intros; simpl; lia).
  rewrite <- (Nat.mul_1_l (cnt (λ e, one _) l)).
  apply cnt_scale. intros e. destruct e.(we_awaiter) as [b|]; simpl; [|done].
  rewrite (one_iff (b = a) (Some b = Some a)) by (split; congruence). lia.
Qed.

Lemma flush_none (f : op → nat) l :
  (∀ a, cnt f [Awaiter_put a; Cancel_timeout_work_sync a; Awaiter_flushed a] = 0%nat) →
  cnt f (l ≫= flush_elem) = 0%nat.
Proof.
  intros Hf. rewrite (flush_cnt f (λ _, 0%nat)) by done. apply cnt_zero.
  intros e _. by destruct e.(we_awaiter).
Qed.

Lemma flush_elem_in o l :
  o ∈ l ≫= flush_elem (C := C) (R := R) →
  ∃ a, o = Awaiter_put a ∨ o = Cancel_timeout_work_sync a ∨ o = Awaiter_flushed a.
Proof.
  intros Ho. apply list_elem_of_bind in Ho as (e & Ho & _). unfold flush_elem in Ho.
  destruct e.(we_awaiter); singletons; eauto.
Qed.

Lemma flush_protected l : protected (l ≫= flush_elem (C := C) (R := R)).
Proof.
  induction l as [|e l IH]; [done|]. simpl. unfold flush_elem at 1.
  destruct e.(we_awaiter) as [a|]; simpl; [|done].
  split; [intros ? [=]|]. split; [intros ? [= <-]; simp_one; lia|]. by split; [intros ? [=]|].
Qed.

(** An awaiter is in the list once at most. *)
Lemma listed_once s a : inv s → (listed_refs a s.(mbx) ≤ 1)%nat.
Proof.
  intros Hinv. unfold listed_refs. pose proof (inv_nodup _ Hinv) as Hnd.
  assert (∀ e, e ∈ s.(mbx).(wait_list) → e.(we_awaiter) = awaiter_of e.(we_async_resp)) as He.
  { intros e He. by apply (inv_elem _ Hinv). }
  induction s.(mbx).(wait_list) as [|e l IH]; [simpl; lia|]. rewrite cnt_cons.
  apply NoDup_cons in Hnd as [Hn Hnd]. destruct (decide (e.(we_awaiter) = Some a)) as [Ha|Ha].
  - rewrite one_yes by done. rewrite (proj2 (cnt_zero _ l)); [done|]. intros e' He'.
    apply one_no. intros Ha'. apply Hn. rewrite He in Ha by by left. rewrite He in Ha' by by right.
    assert (e.(we_async_resp) = e'.(we_async_resp)) as ->; [|by apply list_elem_of_fmap_2].
    destruct (e.(we_async_resp)), (e'.(we_async_resp)); by simplify_eq/=.
  - rewrite one_no by done. apply IH; [done|]. intros. apply He. by right.
Qed.

Lemma release_ok s : inv s → allowed Release s = true → wp (step Release s) inv.
Proof.
  intros Hinv Hal. simpl in Hal. rewrite forallb_forall in Hal. simpl.
  set (users := omap we_awaiter _) in *. set (p := _ ≫= flush_elem).
  set (m := set_owned _ _).
  assert (∀ a, (0 < listed_refs a s.(mbx))%nat ↔ a ∈ users) as Hus.
  { intros a. split.
    - intros Hl. destruct (decide (a ∈ users)) as [|Hno]; [done|].
      assert (listed_refs a s.(mbx) = 0%nat); [|lia]. apply cnt_zero. intros e He.
      apply one_no. intros Ha. apply Hno, list_elem_of_omap. eauto.
    - intros (e & He & Ha)%list_elem_of_omap. by eapply listed_refs_pos. }
  assert (∀ a, a ∈ users → a ∈ s.(mbx).(owned)) as Hown.
  { intros a Ha. apply list_elem_of_In in Ha. specialize (Hal a Ha).
    by apply bool_decide_eq_true_1 in Hal. }
  assert (∀ a, one (a ∈ m.(owned)) + listed_refs a s.(mbx) = one (a ∈ s.(mbx).(owned)))%nat as Ho.
  { intros a. pose proof (listed_once s a Hinv). simpl.
    destruct (decide (a ∈ users)) as [Ha|Ha].
    - rewrite (one_no (a ∈ _ ∖ _)) by set_solver. rewrite one_yes by auto.
      apply Hus in Ha. lia.
    - rewrite (one_iff (a ∈ _ ∖ _) (a ∈ s.(mbx).(owned))) by set_solver.
      rewrite <- Hus in Ha. lia. }
  assert (∀ a, cnt (weight a) p = 2 * listed_refs a s.(mbx))%nat as Hw by (intros; apply flush_weight).
  apply (inv_spawn s p m); [done|]. constructor; try done.
  - intros e He. by apply elem_of_nil in He.
  - constructor.
  - apply Hinv.
  - intros o Hop. apply flush_elem_in in Hop as (a & [->|[->| ->]]); done.
  - eauto.
  - intros a _ Ha Hl. specialize (Ho a). rewrite Hw, Hl. split; [done|]. split; [done|].
    intros Ha'. rewrite one_yes, one_no in Ho by done. lia.
  - intros a. simpl.
    assert (refs a (spawned s p m) = refs a s) as ->; [|apply (inv_refs _ Hinv)].
    unfold refs, held. rewrite cnt_spawned, Hw. specialize (Ho a). simpl.
    assert (timer_ref a m = timer_ref a s.(mbx)) as -> by done. simpl in Ho.
    assert (listed_refs a m = 0%nat) as -> by done. lia.
  - intros a. unfold p. rewrite flush_user_ref. specialize (Ho a). unfold listed_refs in Ho. lia.
  - intros a w w' Hw1 Hw2. simpl in Hw2. simplify_eq. unfold p. rewrite flush_none by done. lia.
  - intros a _. by apply flush_none.
  - intros a w _ _. by apply flush_none.
  - apply flush_protected.
Qed.

(** ** New commands *)

Lemma protected_zero (f : op → nat) (a : nat) p :
  (∀ o, (0 < f o)%nat → (0 < weight a o)%nat ∨ borrows o = Some a) →
  protected p → cnt (weight a) p = 0%nat → cnt f p = 0%nat.
Proof.
  intros Hf. induction p as [|o p IH]; [done|]. intros [Ho Hp] H0. rewrite cnt_cons in *.
  rewrite IH by (done || lia). destruct (f o) eqn:Hfo; [done|].
  destruct (Hf o) as [Hw|Hb]; [lia..|]. specialize (Ho a Hb). lia.
Qed.

(** An awaiter that does not exist is mentioned nowhere. *)
Lemma dead_zero s a :
  inv s → s.(mbx).(awaiters) !! a = None →
  refs a s = 0%nat ∧ cnt (cnt (compares a)) s.(threads) = 0%nat.
Proof.
  intros Hinv Ha. pose proof (inv_refs _ Hinv a) as Hr. rewrite Ha in Hr. split; [done|].
  apply cnt_zero. intros p Hp. apply (protected_zero _ a); [| |].
  - intros o. destruct o; simpl; try lia; unfold one; case_decide; subst; try lia; auto.
  - by apply (inv_protected _ Hinv).
  - unfold refs in Hr. assert (held a s = 0%nat) as Hh by lia. by apply (proj1 (cnt_zero _ _) Hh).
Qed.

(** The thread of a new command and its waiter [d]. *)
Record submit_step s (cmd : C) (d : async_ref) m (next : nat) : Prop := SubmitStep {
  su_wait : m.(wait_list) = s.(mbx).(wait_list);
  su_owned : m.(owned) = s.(mbx).(owned);
  su_lock : m.(tx_queue_lock) = s.(mbx).(tx_queue_lock);
  su_queue : m.(tx_queue) = s.(mbx).(tx_queue);
  su_wrap : m.(queue_wrap_bit) = s.(mbx).(queue_wrap_bit);
  su_user : user_ok m.(user);
  su_frames t : m.(frames) !! t = s.(mbx).(frames) !! t
    ∨ d = OnStack t ∧ is_Some (m.(frames) !! t);
  su_stack t : d = OnStack t → t = length s.(threads) ∧ is_Some (m.(frames) !! t);
  su_awaiters a : d ≠ InAwaiter a → m.(awaiters) !! a = s.(mbx).(awaiters) !! a;
  su_next : (s.(next_awaiter) ≤ next)%nat;
  su_new a : d = InAwaiter a → s.(mbx).(awaiters) !! a = None ∧ (a < next)%nat ∧
    ∃ w, m.(awaiters) !! a = Some w ∧ w.(kref) = 1 + Z.of_nat (one (w.(timeout_work) = WorkPending))
      ∧ w.(timeout_work) ≠ WorkRunning
      ∧ (w.(aw_async_resp).(resp) = None → w.(timeout_work) = WorkIdle)
}.

Lemma inv_submit s cmd d m next :
  inv s → submit_step s cmd d m next →
  inv (System m (s.(threads) ++ [[Enqueue cmd d]]) next).
Proof.
  intros Hinv Hsu. set (p := [Enqueue cmd d]). set (s' := System _ _ _).
  assert (∀ j q, s'.(threads) !! j = Some q →
            (j = length s.(threads) ∧ q = p) ∨ s.(threads) !! j = Some q) as Hj'.
  { intros j q Hj. by apply (spawned_lookup s p m). }
  assert (∀ f : op → nat, cnt (cnt f) s'.(threads) = (cnt (cnt f) s.(threads) + cnt f p)%nat) as Hc.
  { intros f. by apply (cnt_spawned f s p m). }
  assert (∀ d', unlisted d' s' = unlisted d' s || bool_decide (d' = d)) as Hun.
  { intros d'. pose proof (unlisted_spawned s p m d') as Hu. simpl in Hu.
    by rewrite orb_false_r in Hu. }
  assert (∀ e, e ∈ s.(mbx).(wait_list) → e.(we_async_resp) ≠ d) as Hne.
  { intros e He Hd. destruct (inv_elem _ Hinv e He) as (_ & w & r & Hw & _). rewrite Hd in Hw.
    destruct d as [t|a].
    - destruct (su_stack _ _ _ _ _ Hsu t eq_refl) as [-> _].
      destruct (inv_stack _ Hinv e _ He Hd) as (o & Ho & _). apply lookup_lt_Some in Ho. lia.
    - destruct (su_new _ _ _ _ _ Hsu a eq_refl) as [Ha _]. simpl in Hw. by rewrite Ha in Hw. }
  assert (∀ d', d' ≠ d → deref d' m = deref d' s.(mbx)) as Hde.
  { intros [t|a] Hd; simpl.
    - destruct (su_frames _ _ _ _ _ Hsu t) as [->|[-> _]]; done.
    - by rewrite (su_awaiters _ _ _ _ _ Hsu). }
  assert (∀ a, cnt (weight a) p = one (d = InAwaiter a)) as Hw.
  { intros a. simpl. lia. }
  assert (∀ a, listed_refs a m = listed_refs a s.(mbx)) as Hlr.
  { intros a. unfold listed_refs. by rewrite (su_wait _ _ _ _ _ Hsu). }
  constructor; try apply Hsu.
  - intros a. unfold refs, held. rewrite Hc, Hw. simpl. rewrite Hlr, (su_owned _ _ _ _ _ Hsu).
    destruct (decide (d = InAwaiter a)) as [Hd|Hd].
    + destruct (su_new _ _ _ _ _ Hsu a Hd) as (Ha & _ & w & Hwa & Hk & _).
      destruct (dead_zero _ _ Hinv Ha) as [H0 _]. unfold refs, held in H0.
      unfold timer_ref. rewrite Hwa, one_yes by done. lia.
    + unfold timer_ref. rewrite (su_awaiters _ _ _ _ _ Hsu a Hd), one_no by done.
      pose proof (inv_refs _ Hinv a) as Hr. unfold refs, held, timer_ref in Hr.
      by rewrite Nat.add_0_r.
  - intros a. rewrite Hc. simpl. rewrite (su_owned _ _ _ _ _ Hsu). pose proof (inv_once _ Hinv a) as Ho.
    destruct (decide (d = InAwaiter a)) as [Hd|Hd]; [|rewrite one_no by done; lia].
    destruct (su_new _ _ _ _ _ Hsu a Hd) as (Ha & _). destruct (dead_zero _ _ Hinv Ha) as [H0 _].
    unfold refs in H0. rewrite one_yes by done.
    assert (cnt (cnt (user_ref a)) s.(threads) ≤ held a s)%nat; [|lia].
    apply cnt_le. intros q. apply cnt_le, user_ref_weight.
  - simpl. rewrite (su_wrap _ _ _ _ _ Hsu), (su_queue _ _ _ _ _ Hsu). apply Hinv.
  - intros a. simpl. destruct (decide (d = InAwaiter a)) as [Hd|Hd].
    + by destruct (su_new _ _ _ _ _ Hsu a Hd) as (_ & ? & _).
    + rewrite (su_awaiters _ _ _ _ _ Hsu a Hd). intros Ha%(inv_fresh _ Hinv).
      pose proof (su_next _ _ _ _ _ Hsu). lia.
  - intros q Hq. apply list_elem_of_lookup in Hq as [j Hj].
    destruct (Hj' _ _ Hj) as [[-> ->]|Hj0]; [by split; [intros ? [=]|]|].
    eapply (inv_protected _ Hinv), list_elem_of_lookup_2, Hj0.
  - simpl. rewrite (su_wait _ _ _ _ _ Hsu). intros e He.
    destruct (inv_elem _ Hinv e He) as [Hea Hx]. split; [done|]. rewrite Hde by auto. done.
  - simpl. rewrite (su_wait _ _ _ _ _ Hsu). intros e He.
    rewrite Hun, (inv_listed _ Hinv e He). by apply bool_decide_eq_false_2, Hne.
  - simpl. rewrite (su_wait _ _ _ _ _ Hsu). apply Hinv.
  - simpl. rewrite (su_wait _ _ _ _ _ Hsu). intros d' w r e w' r' Hd Hr Hu He Hw' Hr' Hm.
    rewrite Hun in Hu. apply orb_false_iff in Hu as [Hu Hdd]. apply bool_decide_eq_false_1 in Hdd.
    rewrite Hde in Hd by done. rewrite Hde in Hw' by auto. by eapply (inv_match _ Hinv).
  - intros j q o' Hj Ho' Ha. destruct (Hj' _ _ Hj) as [[-> ->]|Hj0].
    + subst p. by singletons.
    + by apply (inv_alone _ Hinv j q o').
  - intros j q o' t Hj Ho' Hf. simpl. destruct (Hj' _ _ Hj) as [[-> ->]|Hj0].
    + subst p. singletons. destruct d as [t'|]; [|done]. injection Hf as ->.
      by destruct (su_stack _ _ _ _ _ Hsu t eq_refl) as [-> ?].
    + destruct (inv_frame _ Hinv j q o' t Hj0 Ho' Hf) as [-> Hfr]. split; [done|].
      by destruct (su_frames _ _ _ _ _ Hsu j) as [->|[_ ?]].
  - simpl. rewrite (su_wait _ _ _ _ _ Hsu). intros e t He Ht.
    destruct (inv_stack _ Hinv e t He Ht) as (o & Ho & Hf). exists o. split; [|done].
    by apply lookup_app_l_Some.
  - intros j q o' t Hj Ho' Hf. destruct (Hj' _ _ Hj) as [[-> ->]|Hj0]; [subst p; by singletons|].
    cbn -[deref]. rewrite Hde; [by apply (inv_waits _ Hinv j q o' t)|]. intros Hd. symmetry in Hd.
    destruct (su_stack _ _ _ _ _ Hsu t Hd) as [-> _]. destruct (waits_alone _ _ Hf) as [_ Hf'].
    destruct (inv_frame _ Hinv j q o' _ Hj0 Ho' Hf') as [<- _]. apply lookup_lt_Some in Hj0. lia.
  - intros j. simpl. rewrite (su_lock _ _ _ _ _ Hsu), (inv_lock _ Hinv).
    split; intros (cmd' & d' & Hj); exists cmd', d'.
    + by apply lookup_app_l_Some.
    + by destruct (Hj' _ _ Hj) as [[_ ?]|Hj0].
  - intros j cmd' d' Hj. destruct (Hj' _ _ Hj) as [[_ ?]|Hj0]; [done|].
    destruct (inv_copy _ Hinv _ _ _ Hj0) as [w Hdw]. exists w. cbn -[deref]. rewrite Hde; [done|].
    intros ->. destruct d as [t|a].
    + destruct (su_stack _ _ _ _ _ Hsu t eq_refl) as [-> _].
      destruct (inv_frame _ Hinv j _ _ _ Hj0 ltac:(left) eq_refl) as [<- _].
      apply lookup_lt_Some in Hj0. lia.
    + destruct (su_new _ _ _ _ _ Hsu a eq_refl) as [Ha _]. simpl in Hdw. by rewrite Ha in Hdw.
  - intros a. rewrite Hc. simpl. rewrite Nat.add_0_r, (inv_running _ Hinv a).
    destruct (decide (d = InAwaiter a)) as [Hd|Hd].
    + destruct (su_new _ _ _ _ _ Hsu a Hd) as (-> & _ & w & -> & _ & Hr & _). by rewrite one_no.
    + by rewrite (su_awaiters _ _ _ _ _ Hsu a Hd).
  - intros a w Hwa Hno. rewrite Hc. simpl. rewrite Nat.add_0_r.
    destruct (decide (d = InAwaiter a)) as [Hd|Hd].
    + destruct (su_new _ _ _ _ _ Hsu a Hd) as (Ha & _ & w' & Hw' & _ & _ & Hr). simpl in Hwa.
      simplify_eq. split; [auto|]. by apply (dead_zero _ _ Hinv Ha).
    + simpl in Hwa. rewrite (su_awaiters _ _ _ _ _ Hsu a Hd) in Hwa. by apply (inv_resp _ Hinv a w).
  - intros j q a Hj Hx. unfold held. rewrite Hc, Hw. simpl. rewrite Hlr, (su_owned _ _ _ _ _ Hsu).
    destruct (Hj' _ _ Hj) as [[-> ->]|Hj0].
    + simpl in Hx. rewrite orb_false_r in Hx. apply bool_decide_eq_true_1 in Hx.
      destruct (su_new _ _ _ _ _ Hsu a (eq_sym Hx)) as (Ha & _ & w & Hwa & _ & Hr & _).
      destruct (dead_zero _ _ Hinv Ha) as [H0 _]. unfold refs, held in H0.
      split; [simpl; lia|]. split; [lia|]. split.
      { intros Ho. rewrite (one_yes (a ∈ _)) in H0 by done. lia. }
      exists w. split; [done|]. split; [done|]. left. exists cmd. by rewrite Hx.
    + destruct (inv_build _ Hinv j q a Hj0 Hx) as (H1 & H2 & H3 & w & Hwa & Hs).
      assert (d ≠ InAwaiter a) as Hd.
      { intros Hd. destruct (su_new _ _ _ _ _ Hsu a Hd) as [Ha _]. congruence. }
      rewrite one_no, (su_awaiters _ _ _ _ _ Hsu a Hd) by done. unfold held in H1.
      split; [lia|]. eauto.
Qed.

Lemma send_move_ok s cmd r : inv s → wp (step (Send_cmd cmd r) s) inv.
Proof.
  intros Hinv. simpl. set (t := length s.(threads)).
  apply (inv_submit s cmd (OnStack t)); [done|]. constructor; simpl; try done.
  - apply Hinv.
  - intros t'. destruct (decide (t' = t)) as [->|].
    + right. rewrite lookup_insert_eq. eauto.
    + left. by rewrite lookup_insert_ne.
  - intros t' [= <-]. rewrite lookup_insert_eq. eauto.
Qed.

Lemma put_move_ok s cmd r b :
  inv s → allowed (Put_cmd cmd r b) s = true → wp (step (Put_cmd cmd r b) s) inv.
Proof.
  intros Hinv Hal. simpl in *. unfold put_cmd. set (a := s.(next_awaiter)).
  apply (inv_submit s cmd (InAwaiter a)); [done|]. constructor; try (by destruct r).
  - destruct r; apply Hinv.
  - intros t. left. by destruct r.
  - intros a' Hne. destruct r; simpl; rewrite lookup_insert_ne; congruence.
  - simpl. lia.
  - intros a' [= <-]. split; [|split; [lia|]].
    { destruct (s.(mbx).(awaiters) !! a) eqn:Ha; [|done].
      assert (a < s.(next_awaiter))%nat by (apply (inv_fresh _ Hinv); eauto). subst a. lia. }
    eexists. split; [destruct r; simpl; by rewrite lookup_insert_eq|].
    destruct b; simpl; [done|]. destruct r; [done|]. by apply bool_decide_eq_true_1 in Hal as [].
Qed.

Lemma expire_ok s t : inv s → allowed (Expire t) s = true → wp (step (Expire t) s) inv.
Proof.
  intros Hinv Hal. simpl in *.
  destruct (s.(threads) !! t) as [[|[| |t'| | | | | | | | | | | | | | | | |] [|]]|] eqn:Ht; try done.
  destruct (inv_frame _ Hinv t _ _ t' Ht ltac:(left) eq_refl) as [-> [w Hw]].
  pose proof (inv_waits _ Hinv t _ _ t Ht ltac:(left) eq_refl) as Hr.
  assert (inv (after s t [Send_del t] [] s.(mbx))) as Hok; [|done].
  apply (inv_rethread _ _ (Send_wait t)); [done|].
  constructor; try done; try (intros; by singletons).
  - apply Hinv.
  - eauto 10.
  - by left.
  - intros j. split; [|tauto]. intros Hj. split; [|done]. intros ->.
    apply (inv_lock _ Hinv) in Hj as (cmd & d & Hj). simplify_eq.
  - intros o' t' Ho' Hf. singletons. by injection Hf as ->.
  - intros o' t' Ho' Hf. singletons. by injection Hf as <-.
  - eauto.
Qed.

(** Other code leaves the user's state well formed. *)
Definition move_ok (mv : move C R H) : Prop :=
  match mv with Other h => user_ok h | _ => True end.

Theorem step_ok s mv : inv s → allowed mv s = true → move_ok mv → wp (step mv s) inv.
Proof.
  intros Hinv Hal Hmv. destruct mv.
  - by apply send_move_ok.
  - by apply put_move_ok.
  - by apply cancel_move_ok.
  - by apply user_put_ok.
  - by apply timer_ok.
  - by apply expire_ok.
  - by apply responses_ok.
  - by apply release_ok.
  - by apply inv_user_change.
  - simpl. unfold run_thread. destruct (s.(threads) !! i) as [[|o rest]|] eqn:Hi; [done| |done].
    pose proof (exec_ok s i o rest Hinv Hi Hal) as Hx. unfold GcipMailboxInv.op_ok in Hx.
    by destruct (exec i o s.(mbx)) as [[p m]| |].
Qed.

Theorem play_ok mvs s :
  inv s → disciplined mvs s = true → (∀ mv, mv ∈ mvs → move_ok mv) → wp (play mvs s) inv.
Proof.
  revert s. induction mvs as [|mv mvs IH]; intros s Hinv Hd Hm; [done|]. simpl in *.
  apply andb_true_iff in Hd as [Hal Hd]. apply wp_bind.
  pose proof (step_ok s mv Hinv Hal (Hm _ ltac:(left))) as Hs.
  destruct (step mv s) as [s'| |]; simpl in *; try done.
  apply IH; try done. intros; apply Hm; by right.
Qed.

(** ** The first state *)

Lemma boot_ok md queue h m :
  gcip_mailbox_init md wrap_bit queue h = (0, Some m) → length queue = n → user_ok h →
  inv (boot m).
Proof.
  unfold gcip_mailbox_init. intros Hi Hn Hh. destruct (md =? 0); [done|].
  destruct (negb _); [done|]. injection Hi as <-.
  constructor; cbn [boot mbx awaiters threads wait_list owned next_awaiter user tx_queue
    queue_wrap_bit tx_queue_lock frames]; try done; try (intros; by singletons).
  - intros a. rewrite one_no by apply not_elem_of_empty. simpl. lia.
  - intros a []%lookup_empty_is_Some.
  - constructor.
  - split; [done|]. by intros (cmd & d & Hx).
Qed.

(** No step waits for ever, and none ends without a state. *)
Lemma step_blocked s mv : step mv s ≠ Blocked.
Proof.
  destruct mv; simpl; try done.
  - by destruct (_ !! _).
  - unfold run_thread. destruct (_ !! _) as [[|o rest]|]; try done.
    by destruct (exec i o s.(mbx)) as [[p m]| |].
Qed.

Lemma play_blocked mvs s : play mvs s ≠ Blocked.
Proof.
  revert s. induction mvs as [|mv mvs IH]; intros s; [done|]. simpl.
  pose proof (step_blocked s mv). destruct (step mv s) as [s'| |]; simpl; try done.
Qed.

Lemma play_run mvs s :
  inv s → disciplined mvs s = true → (∀ mv, mv ∈ mvs → move_ok mv) →
  ∃ s', play mvs s = Ok s' ∧ inv s'.
Proof.
  intros Hinv Hd Hm. pose proof (play_ok mvs s Hinv Hd Hm) as Hp.
  pose proof (play_blocked mvs s). destruct (play mvs s) as [s'| |]; simpl in Hp; try done. eauto.
Qed.

(** Every invariant that the steps of well-behaved users keep holds at the end. *)
Lemma play_invariant (P : system → Prop) mvs s s' :
  (∀ s mv s', inv s → P s → allowed mv s = true → move_ok mv → step mv s = Ok s' → P s') →
  inv s → P s → disciplined mvs s = true → (∀ mv, mv ∈ mvs → move_ok mv) →
  play mvs s = Ok s' → inv s' ∧ P s'.
Proof.
  intros HP. revert s. induction mvs as [|mv mvs IH]; intros s Hinv Hs Hd Hm Hp.
  { by injection Hp as <-. }
  simpl in Hd, Hp. apply andb_true_iff in Hd as [Hal Hd].
  pose proof (step_ok s mv Hinv Hal (Hm _ ltac:(left))) as Hst.
  destruct (step mv s) as [s1| |] eqn:He; try done. simpl in Hst, Hp.
  apply (IH s1); try done.
  - apply (HP s mv); try done. apply Hm. left.
  - intros; apply Hm; by right.
Qed.

End Moves.
Arguments move_ok {C R H} user_ok mv.
