(* ===== verification/GcipSettle.v ===== *)
(** * GCIP: every asynchronous command is settled once

    A command that was submitted is in the list of waiters, or in the hands of the
    thread that will settle it, or has been settled: its response arrived, it timed
    out, was cancelled, flushed or refused.  A thread that waits until somebody
    else has handled its awaiter does not wait for ever. *)

From S2P Require Import Prelude.
From S2P Require Import Interleaving.
From S2P Require Import GcipQueue.
From S2P Require Import GcipMailbox.
From S2P Require Import GcipMailboxInv.
From S2P Require Import GcipMailboxSteps.
From S2P Require Import GcipMailboxMoves.

Section Settle.
Context {C R H : Type} {ops : gcip_mailbox_ops C R H}.
Context {wrap_bit : Z} {n : nat} {user_ok : H → Prop}.
Context {laws : user_laws ops wrap_bit n user_ok} {key : match_laws ops}.
Local Notation mailbox := (gcip_mailbox C R H).
Local Notation op := (op C R).
Local Notation system := (system C R H).
Local Notation inv := (inv wrap_bit n user_ok).
Implicit Types (m : mailbox) (s : system).

(** The ends of the command of [a]. *)
Definition settles (a : nat) (e : outcome_event C R) : nat :=
  match e with
  | Rejected b | Arrived b | Timedout b | Cancelled b true | Flushed b => one (b = a)
  | _ => 0%nat
  end.

(** The operations that will end it. *)
Definition owes (a : nat) (o : op) : nat :=
  match o with
  | Enqueue _ d => one (d = InAwaiter a)
  | Free_awaiter b | Awaiter_arrived b | Awaiter_timedout b | Cancel_return b true
  | Awaiter_flushed b => one (b = a)
  | _ => 0%nat
  end.

Definition pending (a : nat) s : nat := (cnt (cnt (owes a)) s.(threads) + listed_refs a s.(mbx))%nat.

(** Somebody handles the response of [a], or its timeout. *)
Definition handles (a : nat) (e : outcome_event C R) : nat :=
  match e with Arrived b | Timedout b => one (b = a) | _ => 0%nat end.
Definition handling (a : nat) (o : op) : nat :=
  match o with Awaiter_arrived b | Awaiter_timedout b => one (b = a) | _ => 0%nat end.
Definition completes (a : nat) (o : op) : nat :=
  match o with Complete_all b => one (b = a) | _ => 0%nat end.
Definition cancel_waits (a : nat) (o : op) : nat :=
  match o with Cancel_wait b => one (b = a) | _ => 0%nat end.

(** What an operation does for the command of [a]. *)
Record effect (a : nat) m (o : op) (p : list op) m' : Prop := Effect {
  ef_token : (cnt (settles a) m'.(trace) + cnt (owes a) p + listed_refs a m'
              = cnt (settles a) m.(trace) + owes a o + listed_refs a m)%nat;
  ef_submitted : Submitted a ∈ m'.(trace) ↔ Submitted a ∈ m.(trace);
  ef_live w' : m'.(awaiters) !! a = Some w' → ∃ w, m.(awaiters) !! a = Some w
    ∧ (is_Some w.(aw_async_resp).(resp) → is_Some w'.(aw_async_resp).(resp))
    ∧ (w.(handled) = true ∨ completes a o = 1%nat → w'.(handled) = true);
  ef_handles : (cnt (handles a) m'.(trace) + cnt (handling a) p
                ≤ cnt (handles a) m.(trace) + handling a o + cnt (completes a) p)%nat;
  ef_rejected : Rejected a ∈ m'.(trace) → Rejected a ∈ m.(trace) ∨ m'.(awaiters) !! a = None;
  ef_listed : listed_refs a m = 0%nat → user_ref a o = 0%nat → listed_refs a m' = 0%nat;
  ef_wait : (0 < cnt (cancel_waits a) p)%nat → listed_refs a m' = 0%nat
}.

(** The memory of the awaiters but for their counts and timers. *)
Definition same_resps m m' : Prop :=
  ∀ b w', m'.(awaiters) !! b = Some w' → ∃ w, m.(awaiters) !! b = Some w
    ∧ aw_async_resp w' = aw_async_resp w ∧ handled w' = handled w.

Lemma call_trace (cb : option (H → H)) m : (call cb m).(trace) = m.(trace).
Proof. by destruct cb. Qed.

Lemma awaiter_put_keeps a m m' :
  gcip_mailbox_awaiter_put a m = Ok m' →
  m'.(trace) = m.(trace) ∧ m'.(wait_list) = m.(wait_list) ∧ same_resps m m'
  ∧ ∀ b, b ≠ a → m'.(awaiters) !! b = m.(awaiters) !! b.
Proof.
  unfold gcip_mailbox_awaiter_put. intros Hp. apply outcome_bind_Ok in Hp as (w & Hw & Hp).
  destruct (m.(awaiters) !! a) as [w0|] eqn:Ha; [|done]. injection Hw as ->.
  set (m1 := set_awaiters (<[a := _]> _) m) in Hp.
  assert (same_resps m m1 ∧ ∀ b, b ≠ a → m1.(awaiters) !! b = m.(awaiters) !! b) as [H1 H2].
  { split.
    - intros b w'. subst m1. simpl. destruct (decide (b = a)) as [->|].
      + rewrite lookup_insert_eq. intros [= <-]. exists w. done.
      + rewrite lookup_insert_ne by done. eauto.
    - intros b Hb. simpl. by rewrite lookup_insert_ne. }
  destruct (_ =? 0); [|by injection Hp as <-].
  unfold gcip_mailbox_awaiter_destroy, kfree_awaiter in Hp. set (cb := release_awaiter_data ≫= _) in Hp.
  destruct (call_same cb m1) as (E1 & _ & _ & _ & _ & _ & E7). rewrite E7 in Hp.
  apply outcome_bind_Ok in Hp as (w1 & _ & Hp). case_decide; [done|]. injection Hp as <-.
  split; [by etransitivity; [apply call_trace|]|]. split; [by etransitivity; [apply E1|]|]. split.
  - intros b w'. simpl. rewrite lookup_delete_Some. intros [_ Hb]. by apply H1.
  - intros b Hb. simpl. rewrite lookup_delete_ne by done. by apply H2.
Qed.

(** An operation that leaves the list alone, and logs [l]. *)
Lemma effect_local a m o p m' l :
  m'.(wait_list) = m.(wait_list) → same_resps m m' → m'.(trace) = m.(trace) ++ l →
  (cnt (settles a) l + cnt (owes a) p = owes a o)%nat →
  (cnt (handles a) l + cnt (handling a) p = handling a o)%nat →
  Submitted a ∉ l → Rejected a ∉ l → completes a o = 0%nat →
  cnt (cancel_waits a) p = 0%nat → effect a m o p m'.
Proof.
  intros Hwl Hr Ht Ho Hh Hsu Hre Hc Hw.
  assert (listed_refs a m' = listed_refs a m) as Hl by (unfold listed_refs; by rewrite Hwl).
  constructor; rewrite ?Ht, ?cnt_app, ?elem_of_app; try lia; try tauto.
  intros w' Hw'. destruct (Hr a w' Hw') as (w & Hww & -> & ->). exists w.
  split; [done|]. split; [done|]. intros [?|?]; [done|congruence].
Qed.

(** An operation of one thread keeps these counts. *)
Definition op_effect a s (i : nat) (o : op) : Prop :=
  ∀ p m', exec i o s.(mbx) = Ok (p, m') → effect a s.(mbx) o p m'.

Lemma same_resps_refl m : same_resps m m.
Proof. intros b w Hw. eauto. Qed.

Lemma same_resps_eq m m' : m'.(awaiters) = m.(awaiters) → same_resps m m'.
Proof. intros He b w. rewrite He. eauto. Qed.

Ltac ok_inv Hx :=
  repeat (apply outcome_bind_Ok in Hx;
          let x := fresh "x" in let Hb := fresh "Hb" in destruct Hx as (x & Hb & Hx)).

Ltac not_in :=
  let Hin := fresh in
  intros Hin; first [by apply elem_of_nil in Hin|by apply list_elem_of_singleton in Hin; congruence].

(** The list [[]] logged *)
Lemma trace_nil m m' : m'.(trace) = m.(trace) → m'.(trace) = m.(trace) ++ [].
Proof. by rewrite app_nil_r. Qed.

Lemma set_awaiter_resps m a w w' :
  m.(awaiters) !! a = Some w → aw_async_resp w' = aw_async_resp w → w'.(handled) = w.(handled) →
  same_resps m (set_awaiters (<[a := w']> m.(awaiters)) m).
Proof.
  intros Hw E1 E2 b wb. simpl. destruct (decide (b = a)) as [->|].
  - rewrite lookup_insert_eq. intros [= <-]. eauto.
  - rewrite lookup_insert_ne by done. eauto.
Qed.

Lemma effect_enqueue_copy a s i cmd d :
  inv s → op_effect a s i (Enqueue_copy cmd d).
Proof.
  intros Hinv p m' Hx. simpl in Hx. unfold enqueue_copy in Hx. case_decide; [|done].
  set (m1 := set_user _ (log _ (set_tx_queue _ s.(mbx)))) in Hx.
  assert (user_ok m1.(user)) as Hu1 by apply user_inc, Hinv.
  destruct (after_call_ok m1 cmd Hu1) as (h & _ & Hc). rewrite Hc in Hx. cbn -[deref] in Hx.
  set (m3 := if should_maintain_seq_num _ then _ else _) in Hx.
  ok_inv Hx. injection Hx as <- <-.
  apply (effect_local _ _ _ _ _ [Queued cmd d]).
  - subst m3. by destruct (should_maintain_seq_num _).
  - apply same_resps_eq. subst m3. by destruct (should_maintain_seq_num _).
  - subst m3. by destruct (should_maintain_seq_num _).
  - by destruct d, (x.(resp)).
  - by destruct d, (x.(resp)).
  - not_in.
  - not_in.
  - done.
  - by destruct d, (x.(resp)).
Qed.

Lemma effect_send_return a s i t ret : op_effect a s i (Send_return t ret).
Proof.
  intros p m' Hx. simpl in Hx. unfold send_return in Hx. ok_inv Hx. injection Hx as <- <-.
  set (m1 := if negb (ret =? 0) then _ else _).
  assert (m1.(wait_list) = s.(mbx).(wait_list) ∧ m1.(awaiters) = s.(mbx).(awaiters)
          ∧ m1.(trace) = s.(mbx).(trace)) as (E1 & E2 & E3).
  { subst m1. destruct (negb (ret =? 0)); [|done].
    set (cb := on_error ≫= _). destruct (call_same cb s.(mbx)) as (? & _ & _ & _ & _ & _ & ?).
    split_and!; try done. apply call_trace. }
  apply (effect_local _ _ _ _ _ [Sent t ret x.(resp)]); try done.
  - by apply same_resps_eq.
  - simpl. by rewrite E3.
  - not_in.
  - not_in.
Qed.

(** The handlers of a response and of a timeout. *)
Lemma effect_handler a s o b cb e p m' :
  handler cb b e s.(mbx) = Ok (p, m') → settles a e = owes a o → handles a e = handling a o →
  e ≠ Submitted a → e ≠ Rejected a → completes a o = 0%nat → effect a s.(mbx) o p m'.
Proof.
  intros Hx H1 H2 H3 H4 H5. unfold handler in Hx. ok_inv Hx. injection Hx as <- <-.
  set (cb' := cb ≫= _). destruct (call_same cb' s.(mbx)) as (E1 & _ & _ & _ & _ & _ & E2).
  apply (effect_local _ _ _ _ _ [e]); try done.
  - by apply same_resps_eq.
  - simpl. by rewrite call_trace.
  - simpl. lia.
  - simpl. lia.
  - not_in.
  - not_in.
Qed.

(** The operations that change one awaiter and log nothing. *)
Lemma effect_silent a s o p m' :
  m'.(wait_list) = s.(mbx).(wait_list) → same_resps s.(mbx) m' →
  m'.(trace) = s.(mbx).(trace) → cnt (owes a) p = owes a o →
  cnt (handling a) p = handling a o → completes a o = 0%nat → cnt (cancel_waits a) p = 0%nat →
  effect a s.(mbx) o p m'.
Proof.
  intros. apply (effect_local _ _ _ _ _ []); try done; try by apply trace_nil.
  - not_in.
  - not_in.
Qed.

Lemma effect_cancel_timeout_work a s i b :
  op_effect a s i (Cancel_timeout_work b) ∧ op_effect a s i (Cancel_timeout_work_sync b).
Proof.
  assert (∀ o p m', owes a o = 0%nat → handling a o = 0%nat → completes a o = 0%nat →
            gcip_mailbox_cancel_timeout_work b s.(mbx) = Ok (p, m') → effect a s.(mbx) o p m') as Hc.
  { intros o p m' H1 H2 H3 Hx. unfold gcip_mailbox_cancel_timeout_work in Hx. ok_inv Hx.
    apply must_Ok in Hb. destruct (x.(timeout_work)); injection Hx as <- <-;
      apply effect_silent; try done; try apply same_resps_refl.
    by eapply set_awaiter_resps. }
  split; intros p m' Hx; simpl in Hx; [by apply Hc|].
  unfold gcip_mailbox_cancel_timeout_work_sync in Hx. ok_inv Hx.
  destruct (x.(timeout_work)); try done; by apply Hc.
Qed.

Lemma effect_complete_all a s i b : op_effect a s i (Complete_all b).
Proof.
  intros p m' Hx. simpl in Hx. unfold complete_all in Hx. ok_inv Hx. apply must_Ok in Hb.
  injection Hx as <- <-. constructor; try done; simpl; try lia; try tauto.
  intros w'. destruct (decide (a = b)) as [->|Hne].
  - rewrite lookup_insert_eq. intros [= <-]. by exists x.
  - rewrite lookup_insert_ne by done. intros Hw. exists w'. split; [done|]. split; [done|].
    intros [?|Hc]; [done|]. by rewrite one_no in Hc.
Qed.

Lemma effect_awaiter_put a s i b : op_effect a s i (Awaiter_put b).
Proof.
  intros p m' Hx. simpl in Hx. ok_inv Hx. injection Hx as <- <-.
  destruct (awaiter_put_keeps _ _ _ Hb) as (E1 & E2 & E3 & _). by apply effect_silent.
Qed.

Lemma effect_timeout_put a s i b : op_effect a s i (Timeout_put b).
Proof.
  intros p m' Hx. simpl in Hx. unfold timeout_put in Hx. ok_inv Hx. injection Hx as <- <-.
  destruct (awaiter_put_keeps _ _ _ Hb) as (E1 & E2 & E3 & _). apply effect_silent; try done.
  intros b' w'. simpl. destruct (decide (b' = b)) as [->|].
  - rewrite lookup_alter_eq. intros Hw. apply fmap_Some in Hw as (w1 & Hw1 & ->).
    destruct (E3 _ _ Hw1) as (w & ? & ? & ?). by exists w.
  - rewrite lookup_alter_ne by done. apply E3.
Qed.

Lemma effect_cancel_wait a s i b : op_effect a s i (Cancel_wait b).
Proof.
  intros p m' Hx. simpl in Hx. unfold wait_for_completion in Hx. ok_inv Hx.
  destruct (x.(handled)); [|done]. injection Hx as <- <-.
  apply effect_silent; try done. apply same_resps_refl.
Qed.

Lemma effect_cancel_return a s i b r : op_effect a s i (Cancel_return b r).
Proof.
  intros p m' Hx. simpl in Hx. injection Hx as <- <-.
  apply (effect_local _ _ _ _ _ [Cancelled b r]); try done; try not_in.
  - by apply same_resps_eq.
  - destruct r; simpl; lia.
Qed.

Lemma effect_awaiter_flushed a s i b : op_effect a s i (Awaiter_flushed b).
Proof.
  intros p m' Hx. simpl in Hx. unfold awaiter_flushed in Hx. ok_inv Hx.
  destruct handle_awaiter_flushed; injection Hx as <- <-;
    apply (effect_local _ _ _ _ _ [Flushed b]); try done; try not_in;
    try (by apply same_resps_eq); simpl; lia.
Qed.

Lemma effect_free_awaiter a s i b : op_effect a s i (Free_awaiter b).
Proof.
  intros p m' Hx. simpl in Hx. ok_inv Hx. injection Hx as <- <-.
  unfold kfree_awaiter in Hb. ok_inv Hb. case_decide; [done|]. injection Hb as <-.
  constructor; simpl; rewrite ?cnt_app, ?elem_of_app; try lia; try done.
  - simpl. unfold listed_refs. simpl. lia.
  - split; [intros [?|Hin]; [done|by apply list_elem_of_singleton in Hin]|by left].
  - intros w'. rewrite lookup_delete_Some. intros [_ Hw]. exists w'. split; [done|].
    split; [done|]. by intros [?|?].
  - intros [?|Hin]; [by left|]. right. apply list_elem_of_singleton in Hin. injection Hin as ->. apply lookup_delete_eq.
Qed.

(** ** The list of waiters *)

Lemma find_cut m r l e l' :
  find_waiter m r l = Ok (Some (e, l')) → ∃ l1 l2, l = l1 ++ e :: l2 ∧ l' = l1 ++ l2.
Proof.
  revert e l'. induction l as [|e0 l IH]; intros e l' Hf; simpl in Hf; [done|].
  ok_inv Hf. destruct x0.
  - injection Hf as <- <-. by exists [], l.
  - ok_inv Hf. destruct x0 as [[e1 l1']|]; [|done]. injection Hf as <- <-.
    destruct (IH _ _ Hb1) as (l1 & l2 & -> & ->). by exists (e0 :: l1), l2.
Qed.

(** A waiter takes itself out of the list, or is not in it. *)
Lemma del_finds s d w r removed m' :
  inv s → deref d s.(mbx) = Some w → w.(resp) = Some r → unlisted d s = false →
  gcip_mailbox_del_wait_resp d s.(mbx) = Ok (removed, m') →
  same_resps s.(mbx) m' ∧ m'.(trace) = s.(mbx).(trace) ∧
  if removed then ∃ e l1 l2, s.(mbx).(wait_list) = l1 ++ e :: l2 ∧ m'.(wait_list) = l1 ++ l2
    ∧ e.(we_awaiter) = awaiter_of d
  else m' = s.(mbx) ∧ ∀ e, e ∈ s.(mbx).(wait_list) → e.(we_async_resp) ≠ d.
Proof.
  intros Hinv Hd Hr Hu Hx. unfold gcip_mailbox_del_wait_resp in Hx. rewrite Hd in Hx.
  simpl in Hx. rewrite Hr in Hx. pose proof (find_self _ _ _ _ Hinv Hd Hr Hu) as Hf.
  apply outcome_bind_Ok in Hx as (o & Ho & Hx). rewrite Ho in Hf. simpl in Hf.
  destruct o as [[e l']|]; [|injection Hx as <- <-; split; [apply same_resps_refl|done]].
  destruct Hf as (l1 & l2 & Hl & -> & He). apply outcome_bind_Ok in Hx as (m1 & Hm & Hx).
  injection Hx as <- <-. destruct (inv_elem _ Hinv e ltac:(rewrite Hl; set_solver)) as [Hea _].
  rewrite He in Hea. rewrite Hea in Hm. set (m0 := set_wait_list _ s.(mbx)) in Hm.
  assert (same_resps m0 m1 ∧ m1.(trace) = m0.(trace) ∧ m1.(wait_list) = m0.(wait_list))
    as (H1 & H2 & H3).
  { destruct (awaiter_of d); [|injection Hm as <-; split; [apply same_resps_refl|done]].
    by destruct (awaiter_put_keeps _ _ _ Hm) as (? & ? & ? & _). }
  split; [done|]. split; [done|]. eauto 10.
Qed.

(** [e] leaves the list. *)
Lemma effect_unlist a s o p m' e l1 l2 :
  s.(mbx).(wait_list) = l1 ++ e :: l2 → m'.(wait_list) = l1 ++ l2 →
  (∀ w', m'.(awaiters) !! a = Some w' → ∃ w, s.(mbx).(awaiters) !! a = Some w
    ∧ (is_Some w.(aw_async_resp).(resp) → is_Some w'.(aw_async_resp).(resp))
    ∧ w'.(handled) = w.(handled)) →
  m'.(trace) = s.(mbx).(trace) →
  cnt (owes a) p = (owes a o + one (e.(we_awaiter) = Some a))%nat →
  (cnt (handling a) p ≤ handling a o + cnt (completes a) p)%nat →
  completes a o = 0%nat → cnt (cancel_waits a) p = 0%nat → effect a s.(mbx) o p m'.
Proof.
  intros Hl Hl' Hr Ht Ho Hh Hc Hw. pose proof (listed_refs_cut s.(mbx) m' e l1 l2 a Hl Hl') as Hlr.
  constructor; rewrite ?Ht; try lia; try tauto.
  intros w' Hw'. destruct (Hr w' Hw') as (w & Hww & Hx & Hy). exists w. split; [done|].
  split; [done|]. rewrite Hy. intros [?|?]; [done|congruence].
Qed.

Lemma same_resps_live a m m' w' :
  same_resps m m' → m'.(awaiters) !! a = Some w' → ∃ w, m.(awaiters) !! a = Some w
    ∧ (is_Some w.(aw_async_resp).(resp) → is_Some w'.(aw_async_resp).(resp))
    ∧ w'.(handled) = w.(handled).
Proof. intros Hs Hw. destruct (Hs a w' Hw) as (w & ? & -> & ->). eauto. Qed.

Lemma effect_rx_elem a s i r : inv s → op_effect a s i (Rx_elem r).
Proof.
  intros Hinv p m' Hx. simpl in Hx. unfold gcip_mailbox_handle_rx_elem in Hx.
  destruct (match is_rx_elem_reversed with Some f => f r | None => _ end).
  { injection Hx as <- <-. apply effect_silent; try done. by apply same_resps_eq. }
  unfold gcip_mailbox_handle_response in Hx. apply outcome_bind_Ok in Hx as (o & Ho & Hx).
  destruct o as [[e l']|].
  2: { injection Hx as <- <-. apply effect_silent; try done. apply same_resps_refl. }
  destruct (find_cut _ _ _ _ _ Ho) as (l1 & l2 & Hl & ->). injection Hx as <- <-.
  set (m1 := set_wait_list _ _). set (p := match we_awaiter e with None => _ | Some _ => _ end).
  assert (∀ f : op → nat, cnt f p = match we_awaiter e with None => 0%nat | Some b =>
            (f (Cancel_timeout_work b) + (f (Awaiter_arrived b) + (f (Complete_all b)
             + (f (Awaiter_put b) + 0))))%nat end) as Hp.
  { intros f. subst p. by destruct e.(we_awaiter). }
  apply (effect_unlist _ _ _ _ _ e l1 l2); try done; rewrite ?Hp.
  - intros w' Hw'. subst m1. simpl in Hw'. destruct e.(we_async_resp) as [t|b]; simpl in Hw'.
    { eauto. }
    destruct (decide (a = b)) as [->|Hne].
    + rewrite lookup_alter_eq in Hw'. apply fmap_Some in Hw' as (w & Hw & ->). exists w. simpl. eauto.
    + rewrite lookup_alter_ne in Hw' by done. eauto.
  - by destruct e.(we_async_resp).
  - destruct e.(we_awaiter) as [b|]; simpl; [|done].
    rewrite (one_iff (b = a) (Some b = Some a)) by (split; congruence). lia.
  - destruct e.(we_awaiter); simpl; lia.
  - by destruct e.(we_awaiter).
Qed.

Lemma effect_send_del a s i t rest :
  inv s → s.(threads) !! i = Some (Send_del t :: rest) → op_effect a s i (Send_del t).
Proof.
  intros Hinv Hi p m' Hx. simpl in Hx. apply outcome_bind_Ok in Hx as ([removed m1] & Hd & Hx).
  injection Hx as <- <-. destruct (thread_frame _ _ _ _ t Hinv Hi eq_refl) as (-> & -> & _).
  destruct (inv_waits _ Hinv i _ _ i Hi ltac:(left) eq_refl) as [r Hr].
  apply bind_Some in Hr as (w & Hw & Hr).
  destruct (del_finds s (OnStack i) w r removed m1 Hinv Hw Hr) as (H1 & H2 & H3); [|done|].
  { by apply (stack_listed _ _ _ Hinv Hi). }
  destruct removed.
  - destruct H3 as (e & l1 & l2 & Hl & Hl' & He). apply (effect_unlist _ _ _ _ _ e l1 l2); try done.
    + intros w'. by apply same_resps_live.
    + simpl. by rewrite He.
  - destruct H3 as [-> _]. apply effect_silent; try done.
Qed.

Lemma compared_awaiter s i o rest a :
  inv s → s.(threads) !! i = Some (o :: rest) → compares a o = 1%nat →
  (0 < cnt (weight a) (o :: rest))%nat →
  ∃ w r, deref (InAwaiter a) s.(mbx) = Some w ∧ w.(resp) = Some r.
Proof.
  intros Hinv Hi Hc Hp. destruct (mentioned_live _ _ _ a Hinv Hi Hp) as (w & Hw & _).
  exists (aw_async_resp w). simpl. rewrite Hw. destruct (resp (aw_async_resp w)) as [r|] eqn:Hr.
  - by exists r.
  - destruct (inv_resp _ Hinv a w Hw Hr) as [_ H0].
    pose proof (cnt_lookup (cnt (compares a)) _ _ _ Hi) as Hx. rewrite cnt_cons in Hx. lia.
Qed.

Lemma effect_timeout_del a s i b rest :
  inv s → s.(threads) !! i = Some (Timeout_del b :: rest) → op_effect a s i (Timeout_del b).
Proof.
  intros Hinv Hi p m' Hx. simpl in Hx. unfold gcip_mailbox_async_cmd_timeout_work in Hx.
  apply outcome_bind_Ok in Hx as ([removed m1] & Hd & Hx). injection Hx as <- <-.
  destruct (borrowed_live _ _ _ _ b Hinv Hi eq_refl) as (Hp & H0 & _).
  assert (0 < cnt (weight b) (Timeout_del b :: rest))%nat as Hp' by (rewrite cnt_cons; lia).
  destruct (compared_awaiter _ _ _ _ b Hinv Hi ltac:(counts) Hp') as (w & r & Hw & Hr).
  destruct (del_finds s (InAwaiter b) w r removed m1 Hinv Hw Hr) as (H1 & H2 & H3); [|done|].
  { apply (awaiter_listed _ _ _ _ _ Hinv Hi); [intros; not_building|done]. }
  destruct removed.
  - destruct H3 as (e & l1 & l2 & Hl & Hl' & He). apply (effect_unlist _ _ _ _ _ e l1 l2); try done.
    + intros w'. by apply same_resps_live.
    + rewrite He. simpl. rewrite (one_iff (b = a) (Some b = Some a)) by (split; congruence). lia.
  - destruct H3 as [-> _]. apply effect_silent; try done.
Qed.

Lemma effect_cancel_del a s i b rest :
  inv s → s.(threads) !! i = Some (Cancel_del b :: rest) → op_effect a s i (Cancel_del b).
Proof.
  intros Hinv Hi p m' Hx. simpl in Hx. unfold gcip_mailbox_cancel_awaiter in Hx.
  apply outcome_bind_Ok in Hx as ([removed m1] & Hd & Hx). injection Hx as <- <-.
  assert (0 < cnt (weight b) (Cancel_del b :: rest))%nat as Hp' by counts.
  destruct (compared_awaiter _ _ _ _ b Hinv Hi ltac:(counts) Hp') as (w & r & Hw & Hr).
  destruct (del_finds s (InAwaiter b) w r removed m1 Hinv Hw Hr) as (H1 & H2 & H3); [|done|].
  { apply (awaiter_listed _ _ _ _ _ Hinv Hi); [intros; not_building|done]. }
  destruct removed.
  - destruct H3 as (e & l1 & l2 & Hl & Hl' & He). apply (effect_unlist _ _ _ _ _ e l1 l2); try done.
    + intros w'. by apply same_resps_live.
    + rewrite He. simpl. rewrite (one_iff (b = a) (Some b = Some a)) by (split; congruence). lia.
  - destruct H3 as [-> Hno]. constructor; try done; simpl; try lia; try tauto.
    + intros w' Hw'. exists w'. split; [done|]. split; [done|]. by intros [?|?].
    + intros Hc. destruct (decide (b = a)) as [->|Hne]; [|rewrite one_no in Hc by done; lia].
      apply cnt_zero. intros e He. apply one_no. intros Ha. apply (Hno e He).
      destruct (inv_elem _ Hinv e He) as [Hea _]. rewrite Hea in Ha.
      by destruct (we_async_resp e); simplify_eq/=.
Qed.

(** ** A command is put in the queue *)

Lemma cnt_enqueue_failed (f : op → nat) d ret :
  f (Cancel_timeout_work_sync (match d with InAwaiter b => b | OnStack _ => 0%nat end)) = 0%nat →
  cnt f (enqueue_failed d ret) = match d with
    | OnStack t => f (Send_return t ret) | InAwaiter b => f (Free_awaiter b) end.
Proof. intros H0. destruct d; simpl in *; lia. Qed.

Lemma effect_enqueue_failed a s cmd d ret m' :
  m'.(wait_list) = s.(mbx).(wait_list) → m'.(trace) = s.(mbx).(trace) →
  (∀ w', m'.(awaiters) !! a = Some w' → ∃ w, s.(mbx).(awaiters) !! a = Some w
    ∧ (is_Some w.(aw_async_resp).(resp) → is_Some w'.(aw_async_resp).(resp))
    ∧ w'.(handled) = w.(handled)) →
  effect a s.(mbx) (Enqueue cmd d) (enqueue_failed d ret) m'.
Proof.
  intros Hwl Ht Hr.
  assert (listed_refs a m' = listed_refs a s.(mbx)) as Hl by (unfold listed_refs; by rewrite Hwl).
  constructor; rewrite ?Ht, ?Hl, ?cnt_enqueue_failed by done; simpl; try tauto; try lia.
  - destruct d as [t|b]; simpl; [by rewrite one_no|].
    rewrite (one_iff (b = a) (InAwaiter b = InAwaiter a)) by (split; congruence). lia.
  - intros w' Hw'. destruct (Hr w' Hw') as (w & ? & ? & Hh). exists w. split; [done|].
    split; [done|]. rewrite Hh. by intros [?|?].
  - destruct d; simpl; lia.
Qed.

Lemma effect_enqueue a s i cmd d rest :
  inv s → s.(threads) !! i = Some (Enqueue cmd d :: rest) →
  (d = InAwaiter a → ∀ w, s.(mbx).(awaiters) !! a = Some w → is_Some w.(aw_async_resp).(resp)) →
  op_effect a s i (Enqueue cmd d).
Proof.
  intros Hinv Hi Hresp p m' Hx. simpl in Hx. unfold gcip_mailbox_enqueue_cmd in Hx.
  destruct (s.(mbx).(tx_queue_lock)); [done|].
  set (cmd' := if should_maintain_seq_num _ then _ else cmd) in Hx.
  destruct (negb (wait_for_tx_queue_not_full _ =? 0)).
  { injection Hx as <- <-. apply effect_enqueue_failed; try done. eauto. }
  apply outcome_bind_Ok in Hx as (w & Hw & Hx). apply must_Ok in Hw.
  destruct (w.(resp)) as [r|] eqn:Hr.
  2: { injection Hx as <- <-. assert (d ≠ InAwaiter a) as Hd.
       { intros ->. simpl in Hw. apply fmap_Some in Hw as (w0 & Hw0 & ->).
         destruct (Hresp eq_refl w0 Hw0). congruence. }
       apply effect_silent; try done; [by apply same_resps_eq|]. simpl. by rewrite one_no. }
  set (r1 := set_resp_elem_seq _ r) in Hx.
  destruct (store_keyed (user_ok := user_ok) d r1 s.(mbx)) as [Hk Hd]; [eauto|apply Hinv|].
  assert ((store d (AsyncResp true (Some r1)) s.(mbx)).(trace) = s.(mbx).(trace)) as Htr
    by by destruct d.
  set (m1 := store d _ s.(mbx)) in *. apply outcome_bind_Ok in Hx as ([ret m2] & Hp & Hx).
  unfold gcip_mailbox_push_wait_resp in Hp. rewrite Hd in Hp. simpl in Hp.
  assert (∀ w', m1.(awaiters) !! a = Some w' → ∃ w, s.(mbx).(awaiters) !! a = Some w
    ∧ (is_Some w.(aw_async_resp).(resp) → is_Some w'.(aw_async_resp).(resp))
    ∧ w'.(handled) = w.(handled)) as Hlive.
  { intros w' Hw'. destruct (ky_awaiters _ _ _ Hk a w' Hw') as (w0 & Hw0 & _ & _ & Hh & Hn).
    exists w0. split; [done|]. split; [|done]. intros Hs. apply not_eq_None_Some.
    intros Hno. rewrite (Hn Hno) in Hs. by destruct Hs. }
  destruct (has_memory m1.(user)); simpl in Hp.
  2: { injection Hp as <- <-. simpl in Hx. injection Hx as <- <-.
       apply effect_enqueue_failed; try done. apply (ky_wait _ _ _ Hk). }
  destruct (try_call _ m1) as [ret1 m3] eqn:Htc.
  assert (m3.(wait_list) = m1.(wait_list) ∧ m3.(trace) = m1.(trace)
          ∧ m3.(awaiters) = m1.(awaiters)) as (E1 & E2 & E3).
  { unfold try_call in Htc. destruct (before_enqueue_wait_list ≫= _) as [f|].
    - destruct (f m1.(user)). by injection Htc as _ <-.
    - by injection Htc as _ <-. }
  destruct (Z.eqb_spec ret1 0) as [->|Hret]; simpl in Hp.
  2: { injection Hp as <- <-. rewrite (proj2 (Z.eqb_neq ret1 0)) in Hx by done.
       injection Hx as <- <-. apply effect_enqueue_failed.
       - by rewrite E1, (ky_wait _ _ _ Hk).
       - by rewrite E2.
       - by rewrite E3. }
  apply outcome_bind_Ok in Hp as (m4 & Hg & Hp). injection Hp as <- <-. simpl in Hx.
  injection Hx as <- <-.
  assert (m4.(wait_list) = m3.(wait_list) ∧ m4.(trace) = m3.(trace)
          ∧ same_resps m3 m4) as (F1 & F2 & F3).
  { destruct (awaiter_of d) as [b|]; [|injection Hg as <-; split_and!; try done; apply same_resps_refl].
    unfold gcip_mailbox_awaiter_get in Hg. apply outcome_bind_Ok in Hg as (wb & Hwb & Hg).
    apply must_Ok in Hwb. injection Hg as <-. split_and!; try done. by eapply set_awaiter_resps. }
  assert (listed_refs a (set_tx_queue_lock (Some i)
            (set_wait_list (m4.(wait_list) ++ [WaitListElem d (awaiter_of d)]) m4))
          = listed_refs a s.(mbx) + one (d = InAwaiter a))%nat as Hl.
  { unfold listed_refs. simpl. rewrite F1, E1, (ky_wait _ _ _ Hk), cnt_app, cnt_cons, cnt_nil. simpl.
    rewrite (one_iff (awaiter_of d = Some a) (d = InAwaiter a)); [lia|].
    destruct d; simpl; split; congruence. }
  constructor; simpl; rewrite ?F2, ?E2, ?Htr; try tauto; try lia.
  intros w' Hw'. destruct (F3 a w' Hw') as (w3 & Hw3 & G1 & G2). rewrite E3 in Hw3.
  destruct (Hlive w3 Hw3) as (w0 & Hw0 & G3 & G4). exists w0. rewrite G1, G2, G4.
  split; [done|]. split; [done|]. by intros [?|?].
Qed.

Lemma effect_exec a s i o rest :
  inv s → s.(threads) !! i = Some (o :: rest) →
  (∀ cmd, o = Enqueue cmd (InAwaiter a) →
     ∀ w, s.(mbx).(awaiters) !! a = Some w → is_Some w.(aw_async_resp).(resp)) →
  op_effect a s i o.
Proof.
  intros Hinv Hi Hresp. destruct o.
  - eapply effect_enqueue; try done. intros ->. by eapply Hresp.
  - by apply effect_enqueue_copy.
  - intros p m' Hx. simpl in Hx. ok_inv Hx. destruct (x.(waiting)); [done|]. injection Hx as <- <-.
    apply effect_silent; try done. apply same_resps_refl.
  - by eapply effect_send_del.
  - apply effect_send_return.
  - intros p m' Hx. injection Hx as <- <-. apply effect_silent; try done. by apply same_resps_eq.
  - apply effect_free_awaiter.
  - by apply effect_rx_elem.
  - by apply effect_cancel_timeout_work.
  - by apply effect_cancel_timeout_work.
  - intros p m' Hx. by eapply effect_handler.
  - intros p m' Hx. by eapply effect_handler.
  - apply effect_complete_all.
  - apply effect_awaiter_put.
  - by eapply effect_timeout_del.
  - apply effect_timeout_put.
  - by eapply effect_cancel_del.
  - apply effect_cancel_wait.
  - apply effect_cancel_return.
  - apply effect_awaiter_flushed.
Qed.

(** ** The invariant *)

Record settled s (a : nat) : Prop := Settled {
  st_new : (s.(next_awaiter) ≤ a)%nat →
    cnt (settles a) s.(mbx).(trace) = 0%nat ∧ Submitted a ∉ s.(mbx).(trace);
  st_resp : Submitted a ∈ s.(mbx).(trace) →
    ∀ w, s.(mbx).(awaiters) !! a = Some w → is_Some w.(aw_async_resp).(resp);
  st_token : Submitted a ∈ s.(mbx).(trace) →
    (cnt (settles a) s.(mbx).(trace) + pending a s = 1)%nat;
  st_done w : Submitted a ∈ s.(mbx).(trace) → s.(mbx).(awaiters) !! a = Some w →
    (0 < cnt (handles a) s.(mbx).(trace) + cnt (cnt (handling a)) s.(threads))%nat →
    w.(handled) = true ∨ (0 < cnt (cnt (completes a)) s.(threads))%nat;
  st_rejected : Submitted a ∈ s.(mbx).(trace) → Rejected a ∈ s.(mbx).(trace) →
    s.(mbx).(awaiters) !! a = None;
  st_wait : Submitted a ∈ s.(mbx).(trace) → (0 < cnt (cnt (cancel_waits a)) s.(threads))%nat →
    listed_refs a s.(mbx) = 0%nat
}.

(** The user has one reference: no other operation has it as well. *)
Lemma user_refs_two a s i o rest (f : op → nat) :
  inv s → s.(threads) !! i = Some (o :: rest) → user_ref a o = 1%nat →
  (∀ o, f o ≤ user_ref a o)%nat → (cnt (cnt f) s.(threads) ≤ f o)%nat.
Proof.
  intros Hinv Hi Hu Hf. pose proof (inv_once _ Hinv a) as Ho.
  pose proof (cnt_after f _ _ _ _ [] s.(mbx) Hi) as H1.
  pose proof (cnt_after (user_ref a) _ _ _ _ [] s.(mbx) Hi) as H2. rewrite cnt_nil in H1, H2.
  assert (cnt (cnt f) (after s i [] rest s.(mbx)).(threads)
          ≤ cnt (cnt (user_ref a)) (after s i [] rest s.(mbx)).(threads))%nat; [|simpl in *; lia].
  apply cnt_le. intros p. by apply cnt_le.
Qed.

(** No operation concerns an awaiter that does not exist. *)
Lemma dead_ops a s (f : op → nat) :
  inv s → s.(mbx).(awaiters) !! a = None →
  (∀ o, (0 < f o)%nat → (0 < weight a o)%nat ∨ borrows o = Some a) →
  cnt (cnt f) s.(threads) = 0%nat ∧ listed_refs a s.(mbx) = 0%nat.
Proof.
  intros Hinv Ha Hf. destruct (dead_zero s a Hinv Ha) as [H0 _]. unfold refs in H0.
  split; [|lia]. apply cnt_zero. intros p Hp. apply (protected_zero _ a); [done| |].
  - by apply (inv_protected _ Hinv).
  - assert (held a s = 0%nat) as Hh by lia. by apply (proj1 (cnt_zero _ _) Hh).
Qed.

Lemma owes_mentions a o : (0 < owes a o)%nat → (0 < weight a o)%nat ∨ borrows o = Some a.
Proof.
  destruct o as [| | | | | | | | | | | | | | | | | |b []|]; simpl; unfold one; try lia;
    case_decide; subst; try lia; auto.
Qed.

Lemma new_awaiter_dead a s :
  inv s → (s.(next_awaiter) ≤ a)%nat → s.(mbx).(awaiters) !! a = None.
Proof.
  intros Hinv Hn. destruct (_ !! a) eqn:Ha; [|done].
  assert (a < s.(next_awaiter))%nat by (apply (inv_fresh _ Hinv); eauto). lia.
Qed.

(** Only [gcip_mailbox_put_cmd_flags] submits. *)
Lemma exec_submitted a s i o rest p m :
  inv s → s.(threads) !! i = Some (o :: rest) → exec i o s.(mbx) = Ok (p, m) →
  Submitted a ∈ m.(trace) → Submitted a ∈ s.(mbx).(trace).
Proof.
  intros Hinv Hi Hx.
  assert (op_effect a s i o → Submitted a ∈ m.(trace) → Submitted a ∈ s.(mbx).(trace)) as Hef.
  { intros He. by apply (ef_submitted _ _ _ _ _ (He _ _ Hx)). }
  destruct (s.(mbx).(awaiters) !! a) as [w|] eqn:Hw.
  2: { apply Hef, (effect_exec a s i o rest Hinv Hi). intros _ _ w Hw'. congruence. }
  destruct (w.(aw_async_resp).(resp)) as [r|] eqn:Hr.
  { apply Hef, (effect_exec a s i o rest Hinv Hi). intros _ _ w' Hw'. simplify_eq. eauto. }
  destruct o as [cmd d| | | | | | | | | | | | | | | | | | |];
    try (apply Hef, (effect_exec a s i _ rest Hinv Hi); by intros ? [=]).
  destruct (decide (d = InAwaiter a)) as [->|Hd].
  2: { apply Hef, (effect_exec a s i _ rest Hinv Hi). intros ? [=]; congruence. }
  simpl in Hx. unfold gcip_mailbox_enqueue_cmd in Hx. destruct (s.(mbx).(tx_queue_lock)); [done|].
  destruct (negb _); [by injection Hx as <- <-|]. simpl in Hx. rewrite Hw in Hx. simpl in Hx.
  rewrite Hr in Hx. by injection Hx as <- <-.
Qed.

Lemma settled_exec s i o rest p m a :
  inv s → s.(threads) !! i = Some (o :: rest) → exec i o s.(mbx) = Ok (p, m) →
  settled s a → settled (after s i p rest m) a.
Proof.
  intros Hinv Hi Hx Hst. pose proof (effect_exec a s i o rest Hinv Hi) as Hef.
  pose proof (exec_submitted a s i o rest p m Hinv Hi Hx) as Hback.
  assert (Submitted a ∈ s.(mbx).(trace) → effect a s.(mbx) o p m) as Hsub.
  { intros Hs. apply Hef; [|done]. intros _ _. by apply Hst. }
  assert (∀ f : op → nat, cnt (cnt f) (after s i p rest m).(threads) + f o
            = cnt (cnt f) s.(threads) + cnt f p)%nat as Hc by (intros; by apply cnt_after).
  constructor; cbn [after mbx threads next_awaiter].
  - intros Hn. pose proof (new_awaiter_dead a s Hinv Hn) as Hd. assert (effect a s.(mbx) o p m) as He.
    { apply Hef; [|done]. intros _ _ w Hw. congruence. }
    destruct (st_new _ _ Hst Hn) as (H1 & H2).
    destruct (dead_ops a s (owes a) Hinv Hd (owes_mentions a)) as [Ho Hl].
    pose proof (ef_token _ _ _ _ _ He) as Ht. pose proof (cnt_lookup (cnt (owes a)) _ _ _ Hi) as Hl'.
    rewrite cnt_cons in Hl'. split; [lia|]. by rewrite (ef_submitted _ _ _ _ _ He).
  - intros Hs w' Hw'. specialize (Hback Hs). destruct (ef_live _ _ _ _ _ (Hsub Hback) w' Hw') as (w & Hw & Hx' & _).
    apply Hx'. by apply (st_resp _ _ Hst).
  - intros Hs. specialize (Hback Hs). pose proof (ef_token _ _ _ _ _ (Hsub Hback)) as Ht.
    pose proof (st_token _ _ Hst Hback) as Hk. specialize (Hc (owes a)). unfold pending in *. simpl in *. lia.
  - intros w' Hs Hw' Hpos. specialize (Hback Hs). pose proof (Hsub Hback) as He.
    destruct (ef_live _ _ _ _ _ He w' Hw') as (w & Hw & _ & Hh).
    pose proof (ef_handles _ _ _ _ _ He) as Hle. pose proof (Hc (handling a)) as Hc1.
    pose proof (Hc (completes a)) as Hc2. simpl in *.
    destruct (decide (completes a o = 1%nat)) as [Ho|Ho]; [left; auto|].
    assert (completes a o = 0%nat) as Ho0.
    { destruct o; simpl in *; try done. unfold one in *. case_decide; done. }
    destruct (decide (0 < cnt (completes a) p)%nat); [right; lia|].
    destruct (st_done _ _ Hst w Hback Hw) as [?|?]; [lia|left; auto|right; lia].
  - intros Hs Hr. specialize (Hback Hs). pose proof (Hsub Hback) as He.
    destruct (ef_rejected _ _ _ _ _ He Hr) as [Hr0|]; [|done].
    destruct (m.(awaiters) !! a) as [w'|] eqn:Hw'; [|done].
    destruct (ef_live _ _ _ _ _ He w' Hw') as (w & Hw & _).
    by rewrite (st_rejected _ _ Hst Hback Hr0) in Hw.
  - intros Hs Hpos. specialize (Hback Hs). pose proof (Hsub Hback) as He.
    pose proof (Hc (cancel_waits a)) as Hc1. simpl in Hc1, Hpos.
    destruct (decide (0 < cnt (cancel_waits a) p)%nat) as [Hp|Hp]; [by apply (ef_wait _ _ _ _ _ He)|].
    assert (listed_refs a s.(mbx) = 0%nat) as Hl by (apply (st_wait _ _ Hst Hback); lia).
    apply (ef_listed _ _ _ _ _ He Hl). destruct (user_ref a o) as [|[|k]] eqn:Hu; [done| |].
    + pose proof (user_refs_two a s i o rest (cancel_waits a) Hinv Hi Hu) as H2.
      assert (∀ o : op, cancel_waits a o ≤ user_ref a o)%nat as Hle by (intros []; simpl; lia).
      specialize (H2 Hle). lia.
    + pose proof (inv_once _ Hinv a). pose proof (cnt_lookup (cnt (user_ref a)) _ _ _ Hi) as Hl'.
      rewrite cnt_cons in Hl'. lia.
Qed.


(** ** Moves *)

(** A thread starts, and takes over entries of the list. *)
Lemma settled_spawn s p m a :
  settled s a → m.(trace) = s.(mbx).(trace) → same_resps s.(mbx) m →
  (cnt (owes a) p + listed_refs a m = listed_refs a s.(mbx))%nat →
  cnt (handling a) p = 0%nat → cnt (cancel_waits a) p = 0%nat → settled (spawned s p m) a.
Proof.
  intros Hst Ht Hr Ho Hh Hw. constructor; rewrite ?cnt_spawned; cbn [spawned spawn set_mbx mbx next_awaiter];
    rewrite ?Ht.
  - apply Hst.
  - intros Hs w' Hw'. destruct (Hr a w' Hw') as (w & Hww & -> & _). by apply (st_resp _ _ Hst).
  - intros Hs. pose proof (st_token _ _ Hst Hs) as Hk. unfold pending in *.
    rewrite cnt_spawned. simpl. lia.
  - intros w' Hs Hw' Hpos. destruct (Hr a w' Hw') as (w & Hww & _ & ->).
    destruct (st_done _ _ Hst w Hs Hww) as [?|?]; [lia|by left|right; lia].
  - intros Hs Hre. destruct (m.(awaiters) !! a) as [w'|] eqn:Hw'; [|done].
    destruct (Hr a w' Hw') as (w & Hww & _). by rewrite (st_rejected _ _ Hst Hs Hre) in Hww.
  - intros Hs Hpos. assert (listed_refs a s.(mbx) = 0%nat); [|lia].
    apply (st_wait _ _ Hst Hs). lia.
Qed.

Lemma settled_same s p m a :
  settled s a → m.(trace) = s.(mbx).(trace) → m.(wait_list) = s.(mbx).(wait_list) →
  same_resps s.(mbx) m → cnt (owes a) p = 0%nat →
  cnt (handling a) p = 0%nat → cnt (cancel_waits a) p = 0%nat → settled (spawned s p m) a.
Proof.
  intros Hst Ht Hwl Hr Ho Hh Hw. apply settled_spawn; try done.
  unfold listed_refs. rewrite Hwl. lia.
Qed.

Lemma settles_submitted a l : (cnt (handles a) l ≤ cnt (settles a) l)%nat.
Proof. apply cnt_le. intros []; simpl; lia. Qed.

Lemma settled_put s cmd r b a :
  inv s → settled s a → settled (put_cmd cmd r b s) a.
Proof.
  intros Hinv Hst. unfold put_cmd. set (a0 := s.(next_awaiter)).
  set (w := if b then _ else _). set (m1 := set_awaiters _ s.(mbx)).
  set (m := match r with Some _ => _ | None => m1 end).
  assert (w.(aw_async_resp) = AsyncResp false r) as Hwr by by destruct b.
  assert (m.(wait_list) = s.(mbx).(wait_list) ∧ m.(awaiters) = <[a0 := w]> s.(mbx).(awaiters))
    as [E1 E2] by by destruct r.
  assert (listed_refs a m = listed_refs a s.(mbx)) as Hl by (unfold listed_refs; by rewrite E1).
  assert (∀ f : op → nat, cnt (cnt f) (s.(threads) ++ [[Enqueue cmd (InAwaiter a0)]])
            = cnt (cnt f) s.(threads) + f (Enqueue cmd (InAwaiter a0)))%nat as Hc.
  { intros f. rewrite cnt_app, !cnt_cons, !cnt_nil. lia. }
  assert (cnt (settles a) m.(trace) = cnt (settles a) s.(mbx).(trace)
    ∧ cnt (handles a) m.(trace) = cnt (handles a) s.(mbx).(trace)
    ∧ (Rejected a ∈ m.(trace) ↔ Rejected a ∈ s.(mbx).(trace))) as (T1 & T2 & T3).
  { subst m. destruct r; [|done]. simpl. rewrite !cnt_app, !cnt_cons, !cnt_nil. simpl.
    split_and!; [lia..|]. set_solver. }
  destruct (decide (a = a0)) as [->|Hne].
  - destruct (st_new _ _ Hst (le_n _)) as [Hs0 Hsub0].
    pose proof (new_awaiter_dead a0 s Hinv (le_n _)) as Hd.
    destruct (dead_ops a0 s (owes a0) Hinv Hd (owes_mentions a0)) as [Ho Hl0].
    pose proof (settles_submitted a0 s.(mbx).(trace)) as Hle.
    assert (cnt (cnt (handling a0)) s.(threads) ≤ cnt (cnt (owes a0)) s.(threads))%nat as Hle2.
    { apply cnt_le. intros p. apply cnt_le. intros []; simpl; lia. }
    assert (cnt (cnt (cancel_waits a0)) s.(threads) = 0%nat) as Hcw.
    { apply (dead_ops a0 s); try done. intros []; simpl; try lia. }
    constructor; cbn [mbx threads next_awaiter]; rewrite ?Hc, ?T1, ?T2, ?Hl; simpl; try lia.
    + intros Hs w' Hw'. rewrite E2, lookup_insert_eq in Hw'. injection Hw' as <-. rewrite Hwr.
      destruct r; [by eexists|]. done.
    + intros Hs. unfold pending. cbn [mbx threads]. rewrite Hc, Hl. simpl. rewrite one_yes by done. lia.
    + intros _ Hre. apply T3 in Hre. exfalso.
      assert (settles a0 (Rejected a0 : outcome_event C R) = 0%nat) as Hx by
        by apply (proj1 (cnt_zero _ _) Hs0).
      simpl in Hx. by rewrite one_yes in Hx.
  - assert (Submitted a ∈ m.(trace) ↔ Submitted a ∈ s.(mbx).(trace)) as T4.
    { subst m. destruct r; [|done]. simpl. set_solver. }
    assert (InAwaiter a0 ≠ InAwaiter a) as Hne' by congruence.
    constructor; cbn [mbx threads next_awaiter]; rewrite ?Hc, ?T1, ?T2, ?Hl, ?E2,
      ?lookup_insert_ne by done; simpl; rewrite ?Nat.add_0_r.
    + intros Hn. rewrite T4. apply (st_new _ _ Hst). unfold a0 in Hne. lia.
    + intros Hs. by apply (st_resp _ _ Hst), T4.
    + intros Hs. pose proof (st_token _ _ Hst (proj1 T4 Hs)) as Hk. unfold pending in *.
      cbn [mbx threads]. rewrite Hc, Hl. simpl. rewrite one_no by done. lia.
    + intros w' Hs Hw' Hpos. by apply (st_done _ _ Hst w' (proj1 T4 Hs) Hw').
    + intros Hs Hr. by apply (st_rejected _ _ Hst (proj1 T4 Hs)), T3.
    + intros Hs. by apply (st_wait _ _ Hst (proj1 T4 Hs)).
Qed.

Lemma settled_step s mv s' :
  inv s → (∀ a, settled s a) → allowed mv s = true → move_ok user_ok mv → step mv s = Ok s' →
  ∀ a, settled s' a.
Proof.
  intros Hinv Hst Hal _ Hs a. specialize (Hst a). destruct mv; simpl in Hs.
  - injection Hs as <-. apply (settled_same s [Enqueue cmd (OnStack (length s.(threads)))]); try done.
    + by apply same_resps_eq.
  - injection Hs as <-. by apply settled_put.
  - injection Hs as <-. apply (settled_same s [Cancel_timeout_work a0; Cancel_del a0]); try done.
    by apply same_resps_eq.
  - injection Hs as <-. apply (settled_same s [Awaiter_put a0]); try done. by apply same_resps_eq.
  - apply outcome_bind_Ok in Hs as (w & Hw & Hs). apply must_Ok in Hw. injection Hs as <-.
    apply (settled_same s [Timeout_del a0; Timeout_put a0]); try done.
    by eapply set_awaiter_resps.
  - injection Hs as <-. simpl in Hal.
    destruct (s.(threads) !! t) as [[|[| |t'| | | | | | | | | | | | | | | | |] [|]]|] eqn:Ht; try done.
    assert (∀ f : op → nat, f (Send_wait t') = f (Send_del t) →
      cnt (cnt f) (<[t := [Send_del t]]> s.(threads)) = cnt (cnt f) s.(threads)) as Hc.
    { intros f Hf. pose proof (cnt_insert (cnt f) _ _ _ [Send_del t] Ht) as Hx.
      rewrite !cnt_cons, !cnt_nil in Hx. lia. }
    constructor; cbn [mbx threads next_awaiter]; rewrite ?Hc by done; try apply Hst.
    intros Hs. unfold pending. cbn [threads mbx]. rewrite Hc by done. by apply Hst.
  - injection Hs as <-. assert (∀ f : op → nat, (∀ r, f (Rx_elem r) = 0%nat) →
      cnt f (Rx_elem <$> rs) = 0%nat) as Hz.
    { intros f Hf. apply cnt_zero. intros o Ho. apply list_elem_of_fmap in Ho as (r & -> & _). done. }
    assert (settled (spawned s (Rx_elem <$> rs) s.(mbx)) a) as Hok; [|by destruct s].
    apply settled_same; try done; try (by apply Hz). apply same_resps_refl.
  - injection Hs as <-. apply (settled_spawn s (s.(mbx).(wait_list) ≫= flush_elem)); try done.
    + by apply same_resps_eq.
    + assert (cnt (owes a) (s.(mbx).(wait_list) ≫= flush_elem (C := C) (R := R))
              = listed_refs a s.(mbx)) as ->; [|unfold listed_refs; simpl; lia].
      unfold listed_refs. rewrite <- (flush_user_ref (C := C) (R := R)). rewrite !(flush_cnt _ (λ b, one (b = a)));
        [done|intros; simpl; lia..].
    + by apply flush_none.
    + by apply flush_none.
  - injection Hs as <-. destruct Hst. by constructor.
  - unfold run_thread in Hs. destruct (s.(threads) !! i) as [[|o rest]|] eqn:Hi;
      [by injection Hs as <-| |by injection Hs as <-].
    destruct (exec i o s.(mbx)) as [[p m]| |] eqn:Hx; [|by injection Hs as <-|done].
    injection Hs as <-. by apply (settled_exec s i o rest p m).
Qed.

Lemma boot_settled m a : m.(trace) = [] → settled (boot m) a.
Proof.
  intros Ht. constructor; cbn [boot mbx threads]; rewrite ?Ht;
    try (intros; exfalso; by eapply elem_of_nil).
  - intros _. split; [done|]. apply not_elem_of_nil.
Qed.

Lemma init_settled md queue h m a :
  gcip_mailbox_init md wrap_bit queue h = (0, Some m) → settled (boot m) a.
Proof.
  unfold gcip_mailbox_init. intros Hi. destruct (md =? 0); [done|].
  destruct (negb _); [done|]. injection Hi as <-. by apply boot_settled.
Qed.

(** Whoever waits for the completion of an awaiter waits for one that is done or on
    its way. *)
Lemma handled_soon s i a rest w :
  inv s → settled s a → s.(threads) !! i = Some (Cancel_wait a :: rest) →
  Submitted a ∈ s.(mbx).(trace) → s.(mbx).(awaiters) !! a = Some w →
  Cancelled a true ∉ s.(mbx).(trace) → Flushed a ∉ s.(mbx).(trace) →
  w.(handled) = true ∨ ∃ j p, s.(threads) !! j = Some p ∧ Complete_all a ∈ p.
Proof.
  intros Hinv Hst Hi Hs Hw Hc Hf.
  assert (user_ref a (Cancel_wait a : op) = 1%nat) as Hu by counts.
  pose proof (cnt_lookup (cnt (cancel_waits a)) _ _ _ Hi) as Hcw. rewrite cnt_cons in Hcw.
  simpl in Hcw. rewrite one_yes in Hcw by done.
  assert (listed_refs a s.(mbx) = 0%nat) as Hl by (apply (st_wait _ _ Hst Hs); lia).
  assert (Rejected a ∉ s.(mbx).(trace)) as Hr.
  { intros Hr. by rewrite (st_rejected _ _ Hst Hs Hr) in Hw. }
  assert (cnt (cnt (owes a)) s.(threads) ≤ cnt (cnt (handling a)) s.(threads))%nat as Ho.
  { set (f := λ o : op, (owes a o - handling a o)%nat).
    assert (cnt (cnt f) s.(threads) ≤ f (Cancel_wait a))%nat as Hf0.
    { apply (user_refs_two a s i _ rest f Hinv Hi Hu). intros o. unfold f.
      destruct o as [| | | | | | | | | | | | | | | | | |b []|]; simpl; lia. }
    assert (∀ l : list (list op), cnt (cnt (owes a)) l
              ≤ cnt (cnt f) l + cnt (cnt (handling a)) l)%nat as Hsum.
    { induction l as [|p l IH]; [simpl; lia|]. rewrite !cnt_cons.
      assert (cnt (owes a) p ≤ cnt f p + cnt (handling a) p)%nat; [|lia].
      clear IH. induction p as [|o p IH]; [simpl; lia|]. rewrite !cnt_cons. unfold f at 1. lia. }
    specialize (Hsum s.(threads)). unfold f in Hf0 at 2. simpl in Hf0. lia. }
  assert (cnt (settles a) s.(mbx).(trace) ≤ cnt (handles a) s.(mbx).(trace))%nat as Hsh.
  { revert Hc Hf Hr. generalize s.(mbx).(trace) as l. induction l as [|e l IH]; [simpl; lia|].
    intros Hc Hf Hr. rewrite !cnt_cons. apply not_elem_of_cons in Hc as [Hc1 Hc].
    apply not_elem_of_cons in Hf as [Hf1 Hf]. apply not_elem_of_cons in Hr as [Hr1 Hr].
    specialize (IH Hc Hf Hr). assert (settles a e ≤ handles a e)%nat; [|lia].
    destruct e as [| |b|b|b|b []|b|]; simpl; try lia; rewrite one_no; try lia; congruence. }
  pose proof (st_token _ _ Hst Hs) as Hk. unfold pending in Hk.
  destruct (st_done _ _ Hst w Hs Hw) as [?|Hcp]; [lia|by left|right].
  destruct (decide (Exists (λ p, cnt (completes a) p ≠ 0%nat) s.(threads))) as [He|He].
  - apply Exists_exists in He as (p & Hp & Hn0). apply list_elem_of_lookup in Hp as [j Hj].
    exists j, p. split; [done|]. clear Hj. induction p as [|o p IH]; [done|].
    rewrite cnt_cons in Hn0. destruct (decide (cnt (completes a) p = 0%nat)) as [H0|H0].
    + destruct o; simpl in Hn0; try lia. unfold one in Hn0. case_decide; [|lia]. subst. left.
    + right. by apply IH.
  - exfalso. assert (cnt (cnt (completes a)) s.(threads) = 0%nat); [|lia]. apply cnt_zero.
    intros p Hp. destruct (decide (cnt (completes a) p = 0%nat)) as [|Hn0]; [done|].
    destruct He. apply Exists_exists. eauto.
Qed.

End Settle.
