(* ===== verification/GcipProgress.v ===== *)
(** * GCIP: whoever waits for an awaiter to be handled is woken up

    The threads that fetch responses and the timeouts never wait: the one that has
    to complete an awaiter does so after finitely many of its steps. *)

From S2P Require Import Prelude.
From S2P Require Import Interleaving.
From S2P Require Import GcipQueue.
From S2P Require Import GcipMailbox.
From S2P Require Import GcipMailboxInv.
From S2P Require Import GcipMailboxSteps.
From S2P Require Import GcipMailboxMoves.
From S2P Require Import GcipSettle.

Section Progress.
Context {C R H : Type} {ops : gcip_mailbox_ops C R H}.
Context {wrap_bit : Z} {n : nat} {user_ok : H → Prop}.
Context {laws : user_laws ops wrap_bit n user_ok} {key : match_laws ops}.
Local Notation mailbox := (gcip_mailbox C R H).
Local Notation op := (op C R).
Local Notation system := (system C R H).
Local Notation inv := (inv wrap_bit n user_ok).
Implicit Types (m : mailbox) (s : system).

(** Operations of the threads that receive responses, and of timeouts. *)
Definition receives (o : op) : bool :=
  match o with
  | Rx_elem _ | Timeout_del _ | Awaiter_arrived _ | Awaiter_timedout _ | Complete_all _ => true
  | _ => false
  end.

(** Operations that such a thread may also have, and what is left of it costs. *)
Definition cost (o : op) : nat :=
  match o with
  | Rx_elem _ | Timeout_del _ => 9
  | Cancel_timeout_work _ => 2
  | Awaiter_arrived _ | Awaiter_timedout _ | Complete_all _ | Awaiter_put _ | Timeout_put _ => 1
  | _ => 0
  end.

Definition receiver (p : list op) : Prop :=
  ∀ o, o ∈ p → receives o = true → ∀ o', o' ∈ p → (0 < cost o')%nat.

Definition receivers s : Prop := ∀ p, p ∈ s.(threads) → receiver p.

Lemma exec_cost i o m p m' :
  exec i o m = Ok (p, m') → (0 < cost o)%nat →
  (cnt cost p < cost o)%nat ∧ (∀ o', o' ∈ p → (0 < cost o')%nat).
Proof.
  intros Hx Hc. destruct o; simpl in Hc; try lia; simpl in Hx.
  - unfold gcip_mailbox_handle_rx_elem in Hx.
    destruct (match is_rx_elem_reversed with Some f => f r | None => _ end).
    { injection Hx as <- <-. split; [simpl; lia|intros ? Ho; by apply elem_of_nil in Ho]. }
    unfold gcip_mailbox_handle_response in Hx. apply outcome_bind_Ok in Hx as (f & _ & Hx).
    destruct f as [[e l]|]; injection Hx as <- <-;
      [|split; [simpl; lia|intros ? Ho; by apply elem_of_nil in Ho]].
    destruct e.(we_awaiter); split; simpl; try lia; intros o' Ho; singletons; simpl; lia.
  - unfold gcip_mailbox_cancel_timeout_work in Hx. apply outcome_bind_Ok in Hx as (w & _ & Hx).
    destruct w.(timeout_work); injection Hx as <- <-; split; simpl; try lia;
      intros o' Ho; singletons; simpl; lia.
  - unfold handler in Hx. apply outcome_bind_Ok in Hx as (w & _ & Hx). injection Hx as <- <-.
    split; [simpl; lia|intros ? Ho; by apply elem_of_nil in Ho].
  - unfold handler in Hx. apply outcome_bind_Ok in Hx as (w & _ & Hx). injection Hx as <- <-.
    split; [simpl; lia|intros ? Ho; by apply elem_of_nil in Ho].
  - unfold complete_all in Hx. apply outcome_bind_Ok in Hx as (w & _ & Hx). injection Hx as <- <-.
    split; [simpl; lia|intros ? Ho; by apply elem_of_nil in Ho].
  - apply outcome_bind_Ok in Hx as (w & _ & Hx). injection Hx as <- <-.
    split; [simpl; lia|intros ? Ho; by apply elem_of_nil in Ho].
  - unfold gcip_mailbox_async_cmd_timeout_work in Hx.
    apply outcome_bind_Ok in Hx as ([[] m1] & _ & Hx); injection Hx as <- <-; split; simpl; try lia;
      intros o' Ho; singletons; simpl; lia.
  - unfold timeout_put in Hx. apply outcome_bind_Ok in Hx as (w & _ & Hx). injection Hx as <- <-.
    split; [simpl; lia|intros ? Ho; by apply elem_of_nil in Ho].
Qed.

Lemma outcome_bind_Blocked {A B} (f : A → outcome B) o :
  (o ≫= f) = Blocked → o = Blocked ∨ ∃ x, o = Ok x ∧ f x = Blocked.
Proof. destruct o; simpl; [eauto|eauto|done]. Qed.

Lemma must_blocked {A} (o : option A) : must o ≠ Blocked.
Proof. by destruct o. Qed.

Ltac not_blocked :=
  repeat match goal with
  | Hx : (_ ≫= _) = Blocked |- _ =>
      apply outcome_bind_Blocked in Hx as [Hx|(? & _ & Hx)]
  | Hx : must _ = Blocked |- _ => by apply must_blocked in Hx
  end; try done.

Lemma find_not_blocked m r l : find_waiter m r l ≠ Blocked.
Proof.
  induction l as [|e l IH]; simpl; [done|]. intros Hx.
  apply outcome_bind_Blocked in Hx as [Hx|(w & _ & Hx)]; [by apply must_blocked in Hx|].
  apply outcome_bind_Blocked in Hx as [Hx|(b & _ & Hx)].
  { unfold does_response_match_waiter in Hx. not_blocked. }
  destruct b; [done|]. not_blocked.
Qed.

Lemma put_not_blocked a m : gcip_mailbox_awaiter_put a m ≠ Blocked.
Proof.
  unfold gcip_mailbox_awaiter_put, gcip_mailbox_awaiter_destroy, kfree_awaiter. intros Hx.
  apply outcome_bind_Blocked in Hx as [Hx|(w & _ & Hx)]; [by apply must_blocked in Hx|].
  destruct (_ =? 0); [|done].
  apply outcome_bind_Blocked in Hx as [Hx|(w' & _ & Hx)]; [by apply must_blocked in Hx|].
  by case_decide.
Qed.

Lemma del_not_blocked d m : gcip_mailbox_del_wait_resp d m ≠ Blocked.
Proof.
  unfold gcip_mailbox_del_wait_resp. intros Hx.
  apply outcome_bind_Blocked in Hx as [Hx|(w & _ & Hx)]; [by apply must_blocked in Hx|].
  apply outcome_bind_Blocked in Hx as [Hx|(f & _ & Hx)]; [by apply find_not_blocked in Hx|].
  destruct f as [[e l]|]; [|done].
  apply outcome_bind_Blocked in Hx as [Hx|(m' & _ & Hx)]; [|done].
  destruct e.(we_awaiter); [by apply put_not_blocked in Hx|done].
Qed.

Lemma exec_not_blocked i o m : (0 < cost o)%nat → exec i o m ≠ Blocked.
Proof.
  intros Hc Hx. destruct o; simpl in Hc; try lia; simpl in Hx.
  - unfold gcip_mailbox_handle_rx_elem in Hx. destruct (match is_rx_elem_reversed with Some f => f r | None => _ end); [done|].
    unfold gcip_mailbox_handle_response in Hx.
    apply outcome_bind_Blocked in Hx as [Hx|(f & _ & Hx)]; [by apply find_not_blocked in Hx|].
    destruct f as [[]|]; done.
  - unfold gcip_mailbox_cancel_timeout_work in Hx. not_blocked.
  - unfold handler in Hx. not_blocked.
  - unfold handler in Hx. not_blocked.
  - unfold complete_all in Hx. not_blocked.
  - apply outcome_bind_Blocked in Hx as [Hx|(w & _ & Hx)]; [by apply put_not_blocked in Hx|done].
  - unfold gcip_mailbox_async_cmd_timeout_work in Hx.
    apply outcome_bind_Blocked in Hx as [Hx|([removed m'] & _ & Hx)]; [|done].
    by apply del_not_blocked in Hx.
  - unfold timeout_put in Hx.
    apply outcome_bind_Blocked in Hx as [Hx|(w & _ & Hx)]; [by apply put_not_blocked in Hx|done].
Qed.

(** ** Receivers stay receivers *)

Lemma exec_receives i o m p m' :
  exec i o m = Ok (p, m') → cost o = 0%nat → ∀ o', o' ∈ p → receives o' = false.
Proof.
  intros Hx Hc o' Ho'. destruct o; simpl in Hc; try lia; simpl in Hx.
  - assert (∀ d ret, o' ∈ enqueue_failed (C := C) d ret → receives o' = false) as Hf.
    { intros [t|a] ret Ho; simpl in Ho; by singletons. }
    unfold gcip_mailbox_enqueue_cmd in Hx. destruct m.(tx_queue_lock); [done|].
    destruct (negb _); [injection Hx as <- _; by eapply Hf|].
    apply outcome_bind_Ok in Hx as (w & _ & Hx). destruct w.(resp).
    + apply outcome_bind_Ok in Hx as ([ret m1] & _ & Hx).
      destruct (negb _); injection Hx as <- _; [by eapply Hf|by singletons].
    + injection Hx as <- _. by singletons.
  - unfold enqueue_copy in Hx. case_decide; [|done].
    destruct (try_call _ _) as [ret m1]. destruct (negb _).
    + injection Hx as <- _. destruct dst; simpl in Ho'; by singletons.
    + apply outcome_bind_Ok in Hx as (w & _ & Hx). injection Hx as <- _.
      destruct dst, w.(resp); simpl in Ho'; by singletons.
  - apply outcome_bind_Ok in Hx as (w & _ & Hx). destruct w.(waiting); [done|].
    injection Hx as <- _. by singletons.
  - apply outcome_bind_Ok in Hx as ([b m1] & _ & Hx). injection Hx as <- _. by singletons.
  - unfold send_return in Hx. apply outcome_bind_Ok in Hx as (w & _ & Hx). injection Hx as <- _.
    by apply elem_of_nil in Ho'.
  - injection Hx as <- _. by apply elem_of_nil in Ho'.
  - apply outcome_bind_Ok in Hx as (w & _ & Hx). injection Hx as <- _. by apply elem_of_nil in Ho'.
  - unfold gcip_mailbox_cancel_timeout_work_sync, gcip_mailbox_cancel_timeout_work in Hx.
    apply outcome_bind_Ok in Hx as (w & _ & Hx).
    destruct w.(timeout_work); [| |done]; apply outcome_bind_Ok in Hx as (w' & _ & Hx);
      destruct w'.(timeout_work); injection Hx as <- _; by singletons.
  - unfold gcip_mailbox_cancel_awaiter in Hx. apply outcome_bind_Ok in Hx as ([[] m1] & _ & Hx);
      injection Hx as <- _; by singletons.
  - unfold wait_for_completion in Hx. apply outcome_bind_Ok in Hx as (w & _ & Hx).
    destruct w.(handled); [|done]. injection Hx as <- _. by singletons.
  - injection Hx as <- _. by apply elem_of_nil in Ho'.
  - unfold awaiter_flushed in Hx. apply outcome_bind_Ok in Hx as (w & _ & Hx).
    destruct handle_awaiter_flushed; injection Hx as <- _; by singletons.
Qed.

Lemma receiver_after i o rest m p m' :
  exec i o m = Ok (p, m') → receiver (o :: rest) → receiver (p ++ rest).
Proof.
  intros Hx Hr o1 Ho1 H1 o2 Ho2. destruct (cost o) as [|k] eqn:Hc.
  - assert (o1 ∈ rest) as Hin.
    { apply elem_of_app in Ho1 as [Ho1|]; [|done].
      pose proof (exec_receives _ _ _ _ _ Hx Hc o1 Ho1). congruence. }
    assert (0 < cost o)%nat by (apply (Hr o1); [by right|done|by left]). lia.
  - destruct (exec_cost _ _ _ _ _ Hx) as [_ Hp]; [lia|].
    apply elem_of_app in Ho2 as [Ho2|Ho2]; [auto|].
    apply elem_of_app in Ho1 as [Ho1|Ho1]; [|apply (Hr o1); set_solver].
    assert (receives o = true) as Hro.
    { destruct o; simpl in Hc |- *; try done; simpl in Hx.
      - unfold gcip_mailbox_cancel_timeout_work in Hx.
        apply outcome_bind_Ok in Hx as (w & _ & Hx).
        destruct w.(timeout_work); injection Hx as <- _; by singletons.
      - apply outcome_bind_Ok in Hx as (w & _ & Hx). injection Hx as <- _. by apply elem_of_nil in Ho1.
      - unfold timeout_put in Hx. apply outcome_bind_Ok in Hx as (w & _ & Hx).
        injection Hx as <- _. by apply elem_of_nil in Ho1. }
    apply (Hr o); [by left|done|by right].
Qed.

Lemma receivers_spawned s p m : receivers s → receiver p → receivers (spawned s p m).
Proof. intros Hs Hp q Hq. apply elem_of_app in Hq as [Hq|Hq]; [auto|by singletons]. Qed.

Lemma receiver_costs p : (∀ o, o ∈ p → (0 < cost o)%nat) → receiver p.
Proof. intros Hp o _ _ o' Ho'. auto. Qed.

Lemma receiver_none p : (∀ o, o ∈ p → receives o = false) → receiver p.
Proof. intros Hp o Ho Hr. by rewrite Hp in Hr. Qed.

Lemma receivers_insert s i p m next :
  receivers s → receiver p → receivers (System m (<[i := p]> s.(threads)) next).
Proof.
  intros Hs Hp q Hq. apply list_elem_of_lookup in Hq as [j Hj].
  apply list_lookup_insert_Some in Hj as [(_ & <- & _)|[_ Hj]]; [done|].
  eapply Hs, list_elem_of_lookup_2, Hj.
Qed.

Lemma receivers_step s mv s' : receivers s → step mv s = Ok s' → receivers s'.
Proof.
  intros Hr Hs. destruct mv; simpl in Hs.
  - injection Hs as <-. apply (receivers_spawned s); [done|]. apply receiver_none.
    intros; by singletons.
  - injection Hs as <-. intros q Hq. apply elem_of_app in Hq as [Hq|Hq]; [auto|]. singletons.
    apply receiver_none. intros; by singletons.
  - injection Hs as <-. apply (receivers_spawned s); [done|]. apply receiver_none.
    intros; by singletons.
  - injection Hs as <-. apply (receivers_spawned s); [done|]. apply receiver_none.
    intros; by singletons.
  - apply outcome_bind_Ok in Hs as (w & _ & Hs). injection Hs as <-.
    apply (receivers_spawned s); [done|]. apply receiver_costs. intros; singletons; simpl; lia.
  - injection Hs as <-. apply receivers_insert; [done|]. apply receiver_none. intros; by singletons.
  - injection Hs as <-. apply (receivers_spawned s _ s.(mbx)); [done|]. apply receiver_costs.
    intros o Ho. apply list_elem_of_fmap in Ho as (r & -> & _). simpl. lia.
  - injection Hs as <-. apply (receivers_spawned s); [done|]. apply receiver_none.
    intros o Ho. apply flush_elem_in in Ho as (a & [->|[->| ->]]); done.
  - by injection Hs as <-.
  - unfold run_thread in Hs. destruct (s.(threads) !! i) as [[|o rest]|] eqn:Hi;
      [by injection Hs as <-| |by injection Hs as <-].
    destruct (exec i o s.(mbx)) as [[p m]| |] eqn:Hx; [|by injection Hs as <-|done].
    injection Hs as <-. apply receivers_insert; [done|]. eapply receiver_after; [done|].
    by eapply Hr, list_elem_of_lookup_2.
Qed.

(** ** Completion *)

Lemma protected_in (p : list op) o a :
  protected p → o ∈ p → borrows o = Some a → (0 < cnt (weight a) p)%nat.
Proof.
  induction p as [|o' p IH]; [by intros _ ?%elem_of_nil|]. intros [Ho Hp] [->|Hin]%elem_of_cons Hb.
  - rewrite cnt_cons. specialize (Ho a Hb). lia.
  - rewrite cnt_cons. specialize (IH Hp Hin Hb). lia.
Qed.

Lemma complete_all_runs k a s i p w :
  inv s → s.(threads) !! i = Some p → receiver p → Complete_all a ∈ p →
  s.(mbx).(awaiters) !! a = Some w → (cnt cost p ≤ k)%nat →
  ∃ j s' w', play (replicate j (Run i)) s = Ok s' ∧ s'.(mbx).(awaiters) !! a = Some w'
    ∧ w'.(handled) = true.
Proof.
  revert s p w. induction k as [|k IH]; intros s p w Hinv Hi Hr Hc Hw Hk.
  { apply list_elem_of_lookup in Hc as [x Hx]. pose proof (cnt_lookup cost _ _ _ Hx).
    simpl in *. lia. }
  destruct p as [|o rest]; [by apply elem_of_nil in Hc|].
  assert (0 < cost o)%nat as Ho by (apply (Hr (Complete_all a)); [done|done|left]).
  assert (allowed (Run i) s = true) as Hal.
  { simpl. rewrite Hi. by destruct o; simpl in Ho; try lia. }
  pose proof (exec_ok s i o rest Hinv Hi Hal) as Hx. unfold op_ok in Hx.
  pose proof (exec_not_blocked i o s.(mbx) Ho) as Hb.
  destruct (exec i o s.(mbx)) as [[p m]| |] eqn:He; try done. simpl in Hx.
  assert (step (Run i) s = Ok (after s i p rest m)) as Hs.
  { simpl. unfold run_thread. by rewrite Hi, He. }
  destruct (exec_cost _ _ _ _ _ He Ho) as [Hlt _].
  apply elem_of_cons in Hc as [<-|Hc].
  - exists 1%nat, (after s i p rest m). simpl in He. unfold complete_all in He.
    rewrite Hw in He. simpl in He. injection He as <- <-.
    exists (set_handled w). cbn [replicate play]. rewrite Hs. split; [done|]. simpl.
    by rewrite lookup_insert_eq.
  - assert ((after s i p rest m).(threads) !! i = Some (p ++ rest)) as Hi'.
    { simpl. apply list_lookup_insert_eq. by eapply lookup_lt_Some. }
    assert (Complete_all a ∈ p ++ rest) as Hc' by set_solver.
    destruct (mentioned_live _ _ _ a Hx Hi') as (w1 & Hw1 & _).
    { eapply protected_in; [by eapply thread_protected|done|done]. }
    destruct (IH _ _ w1 Hx Hi') as (j & s' & w' & Hp & Hres); try done.
    { by eapply receiver_after. }
    { rewrite cnt_app. rewrite cnt_cons in Hk. lia. }
    exists (S j), s', w'. cbn [replicate play]. rewrite Hs. done.
Qed.

End Progress.
