(* ===== verification/GcipKci.v ===== *)
(** * GCIP: the kernel control interface of the edge TPU

    Model of [gcip-kernel-driver/drivers/gcip/gcip-kci.c] on the registers of
    [edgetpu/rio/drivers/edgetpu/edgetpu-kci.c]: the mailbox by which the kernel
    controls the firmware.  Its commands are synchronous; the requests that come
    from the firmware have the top bit of their sequence number set, and go to a
    circular buffer that a work empties ([gcip_reverse_kci]). *)

From S2P Require Import Prelude.
From S2P Require Import GcipQueue.
From S2P Require Import GcipMailbox.

Definition GCIP_KCI_REVERSE_FLAG : Z := 0x8000000000000000.

Record gcip_kci_command_element := KciCommand {
  cmd_seq : Z;
  cmd_code : Z;
  dma_address : Z;
  dma_size : Z;
  dma_flags : Z
}.

(** [retval] is also [rkci_value2]. *)
Record gcip_kci_response_element := KciResponse {
  resp_seq : Z;
  resp_code : Z;
  rkci_value1 : Z;
  retval : Z
}.

Inductive gcip_kci_doorbell_reason := GCIP_KCI_PUSH_CMD | GCIP_KCI_CONSUME_RESP.

(** [struct gcip_reverse_kci]; its size is a power of two. *)
Record gcip_reverse_kci := ReverseKci {
  rkci_head : Z;
  rkci_tail : Z;
  buffer_size : Z;
  buffer : list gcip_kci_response_element;
  rkci_work : bool
}.

(** [struct gcip_kci] but for its mailbox, with the registers of the mailbox, the
    doorbells rung and the dumps of the state of the block that errors left. *)
Record gcip_kci := GcipKci {
  etkci_mailbox : edgetpu_mailbox;
  rkci : gcip_reverse_kci;
  kci_cur_seq : Z;
  doorbells : list gcip_kci_doorbell_reason;
  block_dumps : nat;
  block_off : bool;
  memory_left : bool
}.

Definition set_cmd_elem_seq_kci (seq : Z) (c : gcip_kci_command_element) :=
  KciCommand seq c.(cmd_code) c.(dma_address) c.(dma_size) c.(dma_flags).
Definition set_resp_elem_seq_kci (seq : Z) (r : gcip_kci_response_element) :=
  KciResponse seq r.(resp_code) r.(rkci_value1) r.(retval).
Definition set_etkci_mailbox (m : edgetpu_mailbox) (k : gcip_kci) : gcip_kci :=
  GcipKci m k.(rkci) k.(kci_cur_seq) k.(doorbells) k.(block_dumps) k.(block_off) k.(memory_left).
Definition set_rkci (v : gcip_reverse_kci) (k : gcip_kci) : gcip_kci :=
  GcipKci k.(etkci_mailbox) v k.(kci_cur_seq) k.(doorbells) k.(block_dumps) k.(block_off)
    k.(memory_left).
Definition set_kci_cur_seq (v : Z) (k : gcip_kci) : gcip_kci :=
  GcipKci k.(etkci_mailbox) k.(rkci) v k.(doorbells) k.(block_dumps) k.(block_off) k.(memory_left).

(** ** The circular buffer of the requests *)

(** [linux/circ_buf.h], on [unsigned long] *)
Definition CIRC_CNT (head tail size : Z) : Z := Z.land (u64 (head - tail)) (size - 1).
Definition CIRC_SPACE (head tail size : Z) : Z := CIRC_CNT tail (u64 (head + 1)) size.

(** The head is always in the buffer, so that the store is (see [rkci_ok]). *)
Definition gcip_reverse_kci_add_resp (resp : gcip_kci_response_element) (v : gcip_reverse_kci) :
    Z * gcip_reverse_kci :=
  if 1 <=? CIRC_SPACE v.(rkci_head) v.(rkci_tail) v.(buffer_size) then
    (0, ReverseKci (Z.land (u64 (v.(rkci_head) + 1)) (v.(buffer_size) - 1)) v.(rkci_tail)
          v.(buffer_size) (<[Z.to_nat v.(rkci_head) := resp]> v.(buffer)) true)
  else (- ENOSPC, v).

(** The element removed, if any; a read past the buffer is undefined. *)
Definition gcip_reverse_kci_remove_resp (v : gcip_reverse_kci) :
    outcome (option gcip_kci_response_element * gcip_reverse_kci) :=
  if 1 <=? CIRC_CNT v.(rkci_head) v.(rkci_tail) v.(buffer_size) then
    resp ← must (v.(buffer) !! Z.to_nat v.(rkci_tail));
    Ok (Some resp, ReverseKci v.(rkci_head)
          (Z.land (u64 (v.(rkci_tail) + 1)) (v.(buffer_size) - 1))
          v.(buffer_size) v.(buffer) v.(rkci_work))
  else Ok (None, v).

(** The requests that [reverse_kci_handle_response] gets, in order. *)
Fixpoint gcip_reverse_kci_work_loop (fuel : nat) (v : gcip_reverse_kci)
    (handled : list gcip_kci_response_element) :
    outcome (list gcip_kci_response_element * gcip_reverse_kci) :=
  match fuel with
  | O => Blocked
  | S fuel =>
      '(r, v) ← gcip_reverse_kci_remove_resp v;
      match r with
      | None => Ok (handled, v)
      | Some resp => gcip_reverse_kci_work_loop fuel v (handled ++ [resp])
      end
  end.

Definition gcip_reverse_kci_work (fuel : nat) (v : gcip_reverse_kci) :
    outcome (list gcip_kci_response_element * gcip_reverse_kci) :=
  gcip_reverse_kci_work_loop fuel
    (ReverseKci v.(rkci_head) v.(rkci_tail) v.(buffer_size) v.(buffer) false) [].

Definition empty_reverse_kci (buffer_size : Z) (memory : list gcip_kci_response_element) :
    gcip_reverse_kci := ReverseKci 0 0 buffer_size memory false.

(** [memory] is what [devm_kcalloc] returns. *)
Definition gcip_reverse_kci_init (buffer_size : Z)
    (memory : option (list gcip_kci_response_element)) : Z * option gcip_reverse_kci :=
  match memory with
  | None => (- ENOMEM, None)
  | Some memory => (0, Some (empty_reverse_kci buffer_size memory))
  end.

Definition gcip_reverse_kci_reinit (v : gcip_reverse_kci) : gcip_reverse_kci :=
  ReverseKci 0 0 v.(buffer_size) v.(buffer) v.(rkci_work).

(** ** The operations of the mailbox *)

Definition edgetpu_kci_trigger_doorbell (reason : gcip_kci_doorbell_reason) (k : gcip_kci) :
    gcip_kci :=
  GcipKci k.(etkci_mailbox) k.(rkci) k.(kci_cur_seq) (k.(doorbells) ++ [reason]) k.(block_dumps)
    k.(block_off) k.(memory_left).

Definition edgetpu_kci_on_error (err : Z) (k : gcip_kci) : gcip_kci :=
  if err =? - ETIMEDOUT then
    GcipKci k.(etkci_mailbox) k.(rkci) k.(kci_cur_seq) k.(doorbells) (S k.(block_dumps))
      k.(block_off) k.(memory_left)
  else k.

(** When it need not wait, or when its wait ends without any room: one that ends
    with room is the call made later. *)
Definition gcip_kci_wait_for_cmd_queue_not_full (k : gcip_kci) : Z :=
  let m := k.(etkci_mailbox) in
  if negb (m.(cmd_csr).(head_csr) =? Z.lxor m.(cmd_queue_tail) CIRC_QUEUE_WRAP_BIT) then 0
  else - ETIMEDOUT.

Definition gcip_kci_after_enqueue_cmd (cmd : gcip_kci_command_element) (k : gcip_kci) :
    Z * gcip_kci := (0, edgetpu_kci_trigger_doorbell GCIP_KCI_PUSH_CMD k).

Definition gcip_kci_after_fetch_resps (num_resps : Z) (k : gcip_kci) : gcip_kci :=
  if k.(etkci_mailbox).(resp_queue_size) / 2 <=? num_resps
  then edgetpu_kci_trigger_doorbell GCIP_KCI_CONSUME_RESP k else k.

Definition gcip_kci_is_rx_elem_reversed (r : gcip_kci_response_element) : bool :=
  negb (Z.land r.(resp_seq) GCIP_KCI_REVERSE_FLAG =? 0).

(** A request that finds the buffer full is dropped. *)
Definition gcip_kci_handle_reversed_command (r : gcip_kci_response_element) (k : gcip_kci) :
    gcip_kci := set_rkci (gcip_reverse_kci_add_resp r k.(rkci)).2 k.

#[export] Instance kci_mailbox_ops :
    gcip_mailbox_ops gcip_kci_command_element gcip_kci_response_element gcip_kci := {|
  get_tx_queue_tail k := k.(etkci_mailbox).(cmd_queue_tail);
  inc_tx_queue_tail inc k :=
    set_etkci_mailbox (edgetpu_mailbox_inc_cmd_queue_tail k.(etkci_mailbox) inc) k;
  wait_for_tx_queue_not_full := gcip_kci_wait_for_cmd_queue_not_full;
  get_cmd_elem_seq := cmd_seq;
  set_cmd_elem_seq := set_cmd_elem_seq_kci;
  get_rx_queue_size k := k.(etkci_mailbox).(resp_queue_size);
  get_rx_queue_head k := k.(etkci_mailbox).(resp_queue_head);
  inc_rx_queue_head inc k :=
    set_etkci_mailbox (edgetpu_mailbox_inc_resp_queue_head k.(etkci_mailbox) inc) k;
  get_resp_elem_seq := resp_seq;
  set_resp_elem_seq := set_resp_elem_seq_kci;
  is_rx_elem_reversed := Some gcip_kci_is_rx_elem_reversed;
  handle_reversed_command := gcip_kci_handle_reversed_command;
  has_memory := memory_left;
  before_enqueue_wait_list := None;
  after_enqueue_cmd := Some gcip_kci_after_enqueue_cmd;
  after_fetch_resps := Some gcip_kci_after_fetch_resps;
  handle_awaiter_arrived := None;
  handle_awaiter_timedout := None;
  handle_awaiter_flushed := None;
  release_awaiter_data := None;
  is_block_off := Some block_off;
  on_error := Some edgetpu_kci_on_error;
  op_does_response_match_waiter := None
|}.

Definition kci_system : Type :=
  system gcip_kci_command_element gcip_kci_response_element gcip_kci.

(** ** Initialization *)

Definition GCIP_MAILBOX_MODE_BIDIRECTIONAL : Z :=
  Z.lor (Z.lor GCIP_MAILBOX_MODE_TX_CMD GCIP_MAILBOX_MODE_RX_RSP)
    (Z.lor GCIP_MAILBOX_MODE_RX_CMD GCIP_MAILBOX_MODE_TX_RSP).

Definition kci_mode : Z := Z.lor GCIP_MAILBOX_MODE_BIDIRECTIONAL GCIP_MAILBOX_MODE_SEQ_EXTERNAL.

(** [gcip_kci_init] of an interface that is not initialized yet, with the memory of
    its queue of commands. *)
Definition gcip_kci_init (cmd_queue : list gcip_kci_command_element)
    (rkci_buffer : option (list gcip_kci_response_element)) (rkci_buffer_size : Z)
    (k : gcip_kci) : Z * option kci_system :=
  match gcip_reverse_kci_init rkci_buffer_size rkci_buffer with
  | (_, Some v) =>
      let k := set_kci_cur_seq 0 (set_rkci v k) in
      let '(ret, m) := gcip_mailbox_init kci_mode CIRC_QUEUE_WRAP_BIT cmd_queue k in
      (ret, boot <$> m)
  | (ret, None) => (ret, None)
  end.

(** ** Commands *)

Definition is_reverse (cmd : gcip_kci_command_element) : bool :=
  negb (Z.land cmd.(cmd_seq) GCIP_KCI_REVERSE_FLAG =? 0).

(** [gcip_kci_send_cmd_return_resp] up to [gcip_mailbox_send_cmd], whose thread then
    goes on. *)
Definition gcip_kci_send_cmd_return_resp (cmd : gcip_kci_command_element)
    (resp : option gcip_kci_response_element) (s : kci_system) : outcome kci_system :=
  let k := s.(mbx).(user) in
  if is_reverse cmd then step (Send_cmd cmd resp) s
  else
    let seq := u64 (k.(kci_cur_seq) + 1) in
    s ← step (Other (set_kci_cur_seq seq k)) s;
    step (Send_cmd (set_cmd_elem_seq_kci seq cmd) resp) s.

(** [buf] is the response on the stack, which is not initialized. *)
Definition gcip_kci_send_cmd (cmd : gcip_kci_command_element) (buf : gcip_kci_response_element)
    (s : kci_system) : outcome kci_system :=
  gcip_kci_send_cmd_return_resp cmd (if is_reverse cmd then None else Some buf) s.

(** What the caller gets once [gcip_mailbox_send_cmd] returns. *)
Definition gcip_kci_result (ret : Z) (resp : option gcip_kci_response_element) : Z :=
  if negb (ret =? 0) then ret else match resp with Some r => r.(resp_code) | None => 0 end.
