(* ===== verification/GcipKciProps.v ===== *)
(** * GCIP: what the kernel control interface promises its mailbox

    The circular buffer of the firmware's requests is a bounded FIFO
    ([rkci_exec_fifo]); the operations keep the state that the mailbox relies on
    ([kci_laws]), and responses match by their sequence numbers ([kci_match]). *)

From S2P Require Import Prelude.
From S2P Require Import Interleaving.
From S2P Require Import GcipQueue.
From S2P Require Import GcipMailbox.
From S2P Require Import GcipMailboxInv.
From S2P Require Import GcipMailboxSteps.
From S2P Require Import GcipMailboxMoves.
From S2P Require Import GcipKci.

(** ** The buffer of the requests *)

Definition rkci_ok (v : gcip_reverse_kci) : Prop :=
  (∃ k, 0 <= k < 32 ∧ v.(buffer_size) = 2 ^ k) ∧ length v.(buffer) = Z.to_nat v.(buffer_size)
  ∧ 0 <= v.(rkci_head) < v.(buffer_size) ∧ 0 <= v.(rkci_tail) < v.(buffer_size).

Definition rkci_count (v : gcip_reverse_kci) : Z :=
  (v.(rkci_head) - v.(rkci_tail)) mod v.(buffer_size).

(** The requests in the buffer, the oldest first. *)
Definition rkci_elems (v : gcip_reverse_kci) : list gcip_kci_response_element :=
  omap (λ i, v.(buffer) !! Z.to_nat ((v.(rkci_tail) + i) mod v.(buffer_size)))
    (seqZ 0 (rkci_count v)).

Lemma omap_all {A B} (f : A → option B) (l : list A) :
  (∀ x, x ∈ l → is_Some (f x)) → length (omap f l) = length l.
Proof.
  induction l as [|x l IH]; intros Hl; [done|]. simpl.
  destruct (Hl x) as [y ->]; [left|]. simpl. f_equal. apply IH. intros; apply Hl; by right.
Qed.

Lemma omap_ext_in {A B} (f g : A → option B) (l : list A) :
  (∀ x, x ∈ l → f x = g x) → omap f l = omap g l.
Proof.
  induction l as [|x l IH]; intros Hl; [done|]. csimpl. rewrite Hl by left.
  rewrite IH; [done|]. intros; apply Hl; by right.
Qed.

Lemma omap_fmap {A B C} (f : B → option C) (g : A → B) (l : list A) :
  omap f (g <$> l) = omap (λ x, f (g x)) l.
Proof. induction l as [|x l IH]; [done|]. csimpl. by rewrite IH. Qed.

Lemma omap_snoc {A B} (f : A → option B) (l : list A) x y :
  f x = Some y → omap f (l ++ [x]) = omap f l ++ [y].
Proof. intros Hx. rewrite omap_app. simpl. by rewrite Hx. Qed.

Section Rkci.
Context (v : gcip_reverse_kci) (Hv : rkci_ok v).
Local Notation size := v.(buffer_size).

Lemma rkci_mask x : Z.land (u64 x) (size - 1) = x mod size.
Proof.
  destruct Hv as ((k & Hk & ->) & _). rewrite Z.sub_1_r, <- Z.ones_equiv, Z.land_ones by lia.
  unfold u64. apply Z.bits_inj'. intros i Hi. rewrite !Z.testbit_mod_pow2 by lia.
  destruct (Z.ltb_spec i k), (Z.ltb_spec i 64); simpl; done || lia.
Qed.

Lemma rkci_size : 1 <= size.
Proof. destruct Hv as ((k & Hk & ->) & _). lia. Qed.

Lemma rkci_cnt : CIRC_CNT v.(rkci_head) v.(rkci_tail) size = rkci_count v.
Proof. apply rkci_mask. Qed.

Lemma rkci_count_range : 0 <= rkci_count v < size.
Proof. apply Z.mod_pos_bound. pose proof rkci_size. lia. Qed.

Lemma rkci_space : CIRC_SPACE v.(rkci_head) v.(rkci_tail) size = size - 1 - rkci_count v.
Proof.
  unfold CIRC_SPACE, CIRC_CNT. pose proof rkci_size. pose proof rkci_count_range as Hc.
  replace (u64 (rkci_tail v - u64 (rkci_head v + 1))) with (u64 (rkci_tail v - (rkci_head v + 1)))
    by (unfold u64; by rewrite Zminus_mod_idemp_r).
  rewrite rkci_mask. unfold rkci_count in *.
  symmetry. apply Z.mod_unique with (q := - ((rkci_head v - rkci_tail v) / size) - 1); [lia|].
  pose proof (Z.div_mod (rkci_head v - rkci_tail v) size ltac:(lia)). lia.
Qed.

Lemma rkci_slot i : 0 <= i →
  is_Some (v.(buffer) !! Z.to_nat ((v.(rkci_tail) + i) mod size)).
Proof.
  intros Hi. apply lookup_lt_is_Some. destruct Hv as (_ & -> & _). pose proof rkci_size.
  pose proof (Z.mod_pos_bound (rkci_tail v + i) size). lia.
Qed.

Lemma length_rkci_elems : Z.of_nat (length (rkci_elems v)) = rkci_count v.
Proof.
  pose proof rkci_count_range. unfold rkci_elems. rewrite omap_all; [rewrite length_seqZ; lia|].
  intros i Hi. apply elem_of_seqZ in Hi. apply rkci_slot. lia.
Qed.

Lemma rkci_add r :
  rkci_count v < size - 1 →
  let '(ret, v') := gcip_reverse_kci_add_resp r v in
  ret = 0 ∧ rkci_ok v' ∧ rkci_elems v' = rkci_elems v ++ [r] ∧ v'.(buffer_size) = size.
Proof.
  intros Hc. unfold gcip_reverse_kci_add_resp. rewrite rkci_space, (proj2 (Z.leb_le _ _)) by lia.
  rewrite rkci_mask. pose proof rkci_size. pose proof rkci_count_range as Hr.
  destruct Hv as (Hk & Hl & Hh & Ht).
  split; [done|]. split; [|split; [|done]].
  { split; [done|]. simpl. rewrite length_insert. pose proof (Z.mod_pos_bound (rkci_head v + 1) size).
    split_and!; lia. }
  set (v' := ReverseKci _ _ _ _ _). assert (rkci_count v' = rkci_count v + 1) as Hc'.
  { unfold rkci_count. simpl. rewrite Zminus_mod_idemp_l. unfold rkci_count in Hc, Hr.
    symmetry. apply Z.mod_unique with (q := (rkci_head v - rkci_tail v) / size); [lia|].
    pose proof (Z.div_mod (rkci_head v - rkci_tail v) size ltac:(lia)). lia. }
  assert ((rkci_tail v + rkci_count v) mod size = rkci_head v) as Hlast.
  { unfold rkci_count. rewrite Zplus_mod_idemp_r. replace (_ + _) with (rkci_head v) by lia.
    apply Z.mod_small. lia. }
  unfold rkci_elems. rewrite Hc', seqZ_app by lia.
  assert (seqZ (0 + rkci_count v) 1 = [rkci_count v]) as ->.
  { by rewrite seqZ_cons, seqZ_nil by lia. }
  rewrite (omap_snoc _ _ _ r).
  - f_equal. apply omap_ext_in. intros i Hi%elem_of_seqZ. simpl.
    apply list_lookup_insert_ne. intros Heq.
    pose proof (Z.mod_pos_bound (rkci_tail v + i) size).
    assert ((rkci_tail v + i) mod size = rkci_head v) as Hih by lia.
    rewrite <- Hlast in Hih.
    pose proof (Z.div_mod (rkci_tail v + i) size ltac:(lia)) as H1.
    pose proof (Z.div_mod (rkci_tail v + rkci_count v) size ltac:(lia)) as H2.
    rewrite Hih in H1. clear Heq Hih.
    set (q1 := (rkci_tail v + i) / size) in *. set (q2 := (_ + rkci_count v) / size) in *.
    assert (rkci_count v - i = size * (q2 - q1)) by lia. clearbody q1 q2.
    destruct (Z.lt_ge_cases 0 (q2 - q1)); nia.
  - simpl. rewrite Hlast. apply list_lookup_insert_eq. lia.
Qed.

Lemma rkci_full r :
  rkci_count v = size - 1 → gcip_reverse_kci_add_resp r v = (- ENOSPC, v).
Proof.
  intros Hc. unfold gcip_reverse_kci_add_resp. rewrite rkci_space, (proj2 (Z.leb_gt _ _)) by lia.
  done.
Qed.

Lemma rkci_remove :
  match rkci_elems v with
  | [] => gcip_reverse_kci_remove_resp v = Ok (None, v)
  | r :: l => ∃ v', gcip_reverse_kci_remove_resp v = Ok (Some r, v') ∧ rkci_ok v'
      ∧ rkci_elems v' = l ∧ v'.(buffer_size) = size
  end.
Proof.
  pose proof length_rkci_elems as Hlen. pose proof rkci_count_range as Hr. pose proof rkci_size.
  unfold gcip_reverse_kci_remove_resp. rewrite rkci_cnt.
  destruct (Z.eq_dec (rkci_count v) 0) as [H0|Hn].
  { rewrite H0 in *. destruct (rkci_elems v); [done|simpl in Hlen; lia]. }
  rewrite (proj2 (Z.leb_le _ _)) by lia. destruct Hv as (Hk & Hl & Hh & Ht).
  destruct (lookup_lt_is_Some_2 v.(buffer) (Z.to_nat v.(rkci_tail))) as [r Hr0]; [lia|].
  assert (rkci_elems v = r :: omap (λ i, v.(buffer) !! Z.to_nat ((v.(rkci_tail) + i) mod size))
            (seqZ 1 (rkci_count v - 1))) as ->.
  { unfold rkci_elems. rewrite seqZ_cons by lia. simpl.
    rewrite Z.add_0_r, Z.mod_small, Hr0 by lia. by rewrite Z.sub_1_r. }
  rewrite Hr0. simpl. rewrite rkci_mask. eexists. split; [done|]. split; [|split; [|done]].
  { split; [done|]. simpl. pose proof (Z.mod_pos_bound (rkci_tail v + 1) size).
    split_and!; lia. }
  set (v' := ReverseKci _ _ _ _ _). assert (rkci_count v' = rkci_count v - 1) as Hc'.
  { unfold rkci_count. simpl. rewrite Zminus_mod_idemp_r. unfold rkci_count in Hr, Hn.
    symmetry. apply Z.mod_unique with (q := (rkci_head v - rkci_tail v) / size); [lia|].
    pose proof (Z.div_mod (rkci_head v - rkci_tail v) size ltac:(lia)). lia. }
  unfold rkci_elems. rewrite Hc'. rewrite <- (fmap_add_seqZ 1 0), omap_fmap. apply omap_ext_in. intros i Hi%elem_of_seqZ.
  simpl. do 2 f_equal. rewrite Zplus_mod_idemp_l. f_equal. lia.
Qed.

End Rkci.

Lemma rkci_work_loop_all fuel v handled :
  rkci_ok v → rkci_count v < Z.of_nat fuel →
  ∃ v', gcip_reverse_kci_work_loop fuel v handled = Ok (handled ++ rkci_elems v, v')
    ∧ rkci_ok v' ∧ rkci_elems v' = [] ∧ v'.(buffer_size) = v.(buffer_size).
Proof.
  revert v handled. induction fuel as [|fuel IH]; intros v handled Hv Hf.
  { pose proof (rkci_count_range v Hv). lia. }
  simpl. pose proof (rkci_remove v Hv) as Hr. pose proof (length_rkci_elems v Hv) as Hl.
  destruct (rkci_elems v) as [|r l] eqn:He.
  - rewrite Hr. simpl. exists v. by rewrite app_nil_r.
  - destruct Hr as (v' & -> & Hv' & He' & Hs'). simpl.
    pose proof (length_rkci_elems v' Hv') as Hl'. rewrite He' in Hl'. simpl in Hl.
    destruct (IH v' (handled ++ [r]) Hv') as (v'' & -> & Hv'' & He'' & Hs''); [lia|].
    exists v''. rewrite He', <- app_assoc, Hs''. done.
Qed.

(** A request from the firmware, or a turn of the work. *)
Inductive rkci_event := Request (r : gcip_kci_response_element) | Work.

Fixpoint rkci_exec (fuel : nat) (evs : list rkci_event) (v : gcip_reverse_kci) :
    outcome (list Z * list gcip_kci_response_element * gcip_reverse_kci) :=
  match evs with
  | [] => Ok ([], [], v)
  | Request r :: evs =>
      let '(ret, v) := gcip_reverse_kci_add_resp r v in
      '(rets, handled, v) ← rkci_exec fuel evs v;
      Ok (ret :: rets, handled, v)
  | Work :: evs =>
      '(now, v) ← gcip_reverse_kci_work fuel v;
      '(rets, handled, v) ← rkci_exec fuel evs v;
      Ok (rets, now ++ handled, v)
  end.

(** A bounded queue: a request finds room or is refused, the work takes all. *)
Fixpoint fifo_exec (capacity : nat) (evs : list rkci_event)
    (q : list gcip_kci_response_element) :
    list Z * list gcip_kci_response_element * list gcip_kci_response_element :=
  match evs with
  | [] => ([], [], q)
  | Request r :: evs =>
      let room := bool_decide (length q < capacity)%nat in
      let '(rets, handled, q) := fifo_exec capacity evs (if room then q ++ [r] else q) in
      ((if room then 0 else - ENOSPC) :: rets, handled, q)
  | Work :: evs =>
      let '(rets, handled, q') := fifo_exec capacity evs [] in (rets, q ++ handled, q')
  end.

Lemma rkci_exec_fifo fuel evs v :
  rkci_ok v → v.(buffer_size) <= Z.of_nat fuel →
  ∃ rets handled v', rkci_exec fuel evs v = Ok (rets, handled, v') ∧ rkci_ok v'
    ∧ fifo_exec (Z.to_nat (v.(buffer_size) - 1)) evs (rkci_elems v) = (rets, handled, rkci_elems v').
Proof.
  revert v. induction evs as [|[r|] evs IH]; intros v Hv Hf; simpl.
  - by exists [], [], v.
  - pose proof (length_rkci_elems v Hv) as Hl. pose proof (rkci_count_range v Hv) as Hc.
    destruct (Z.eq_dec (rkci_count v) (v.(buffer_size) - 1)) as [He|Hn].
    + rewrite (rkci_full v Hv) by done. destruct (IH v Hv Hf) as (rets & handled & v' & -> & Hv' & Hx).
      rewrite bool_decide_eq_false_2 by lia. rewrite Hx. simpl. by exists (- ENOSPC :: rets), handled, v'.
    + pose proof (rkci_add v Hv r ltac:(lia)) as Ha.
      destruct (gcip_reverse_kci_add_resp r v) as [ret v1]. destruct Ha as (-> & Hv1 & He1 & Hs1).
      destruct (IH v1 Hv1 ltac:(lia)) as (rets & handled & v' & -> & Hv' & Hx).
      rewrite bool_decide_eq_true_2 by lia. rewrite Hs1, He1 in Hx. rewrite Hx. simpl.
      by exists (0 :: rets), handled, v'.
  - unfold gcip_reverse_kci_work. set (v0 := ReverseKci _ _ _ _ false).
    assert (rkci_ok v0) as Hv0 by done.
    destruct (rkci_work_loop_all fuel v0 [] Hv0) as (v1 & -> & Hv1 & He1 & Hs).
    { pose proof (rkci_count_range v0 Hv0). simpl in *. lia. }
    simpl in Hs |- *. destruct (IH v1 Hv1 ltac:(lia)) as (rets & handled & v' & -> & Hv' & Hx).
    rewrite Hs, He1 in Hx. rewrite Hx. simpl. by exists rets, (rkci_elems v ++ handled), v'.
Qed.

(** ** The operations of the mailbox *)

(** The transmit queue has [n] elements, and its tail is an index of it. *)
Definition kci_ok (n : nat) (k : gcip_kci) : Prop :=
  k.(etkci_mailbox).(cmd_queue_size) = Z.of_nat n ∧ (0 < n < 1024)%nat
  ∧ (∃ t, k.(etkci_mailbox).(cmd_queue_tail) = circ_index (Z.of_nat n) CIRC_QUEUE_WRAP_BIT t)
  ∧ rkci_ok k.(rkci).

Lemma wrap_bit_pow : CIRC_QUEUE_WRAP_BIT = 2 ^ 10.
Proof. done. Qed.

Lemma kci_inc n t : (0 < n < 1024)%nat →
  gcip_circ_queue_inc (circ_index (Z.of_nat n) CIRC_QUEUE_WRAP_BIT t) 1 (Z.of_nat n)
    CIRC_QUEUE_WRAP_BIT = circ_index (Z.of_nat n) CIRC_QUEUE_WRAP_BIT (t + 1).
Proof.
  intros Hn. rewrite wrap_bit_pow. apply inc_index; [lia| |lia].
  change (2 ^ 10) with 1024. lia.
Qed.

#[export] Instance kci_laws n : user_laws kci_mailbox_ops CIRC_QUEUE_WRAP_BIT n (kci_ok n).
Proof.
  constructor; try done.
  - intros h (Hs & Hn & (t & Ht) & _). simpl. rewrite Ht, wrap_bit_pow.
    assert (0 < Z.of_nat n < 2 ^ 10) by (change (2 ^ 10) with 1024; lia).
    rewrite index_real by lia. apply Z.mod_pos_bound. lia.
  - intros h (Hs & Hn & (t & Ht) & Hr). unfold kci_ok. simpl. split_and!; try (done || lia).
    exists (t + 1). by rewrite Hs, Ht, kci_inc.
  - intros h r (Hs & Hn & Ht & Hr). unfold kci_ok. simpl. split_and!; try (done || lia).
    destruct (Z.eq_dec (rkci_count h.(rkci)) (h.(rkci).(buffer_size) - 1)) as [He|He].
    + by rewrite (rkci_full _ Hr).
    + pose proof (rkci_count_range _ Hr).
      pose proof (rkci_add _ Hr r ltac:(lia)) as Ha. destruct (gcip_reverse_kci_add_resp _ _).
      by destruct Ha as (_ & ? & _).
  - intros h f c Hh [= <-]. split; [done|]. destruct Hh as (Hs & Hn & Ht & Hr). done.
  - intros h f e Hh [= <-]. unfold edgetpu_kci_on_error. by case_match.
Qed.

#[export] Instance kci_match : match_laws kci_mailbox_ops.
Proof.
  constructor; unfold matches; simpl.
  - intros r. apply Z.eqb_refl.
  - intros r1 r2. apply Z.eqb_sym.
  - intros r1 r2 r3 ->%Z.eqb_eq. done.
Qed.
