(* ===== verification/GcipFetch.v ===== *)
(** * GCIP: fetching responses

    [gcip_mailbox_fetch_responses] against a firmware that keeps to the protocol of
    the queue: it only adds responses, and not more than fit. *)

From S2P Require Import Prelude.
From S2P Require Import Interleaving.
From S2P Require Import GcipQueue.
From S2P Require Import GcipMailbox.
From S2P Require Import GcipMailboxInv.
From S2P Require Import GcipKci.

Section Fetch.
Context {C R H : Type} {ops : gcip_mailbox_ops C R H}.
Context (k size h : Z) (Hk : 0 <= k < 32) (Hsize : 0 < size < 2 ^ k).
Local Notation idx := (circ_index size (2 ^ k)).

(** The [i]-th read of the tail finds [T i] responses put in the queue so far; the
    response number [j] is [r j]. *)
Context (T : nat → Z) (Q : nat → list R) (r : Z → R).

Record firmware_ok : Prop := FirmwareOk {
  fw_first : h <= T 0;
  fw_grows i : T i <= T (S i);
  fw_fits i : T i <= h + size;
  fw_slots i j : h <= j < T i → Q i !! Z.to_nat (j mod size) = Some (r j)
}.
Context (Hfw : firmware_ok).

Lemma firmware_from i : h <= T i.
Proof.
  induction i as [|i IH]; [apply Hfw|]. pose proof (fw_grows Hfw i). lia.
Qed.

Lemma seqZ_map_cons (j c : Z) : 0 < c → r <$> seqZ j c = r j :: (r <$> seqZ (j + 1) (c - 1)).
Proof. intros Hc. rewrite seqZ_cons by lia. csimpl. by rewrite Z.add_1_r, Z.sub_1_r. Qed.

Lemma copy_all (q : list R) (c : nat) (j : Z) :
  0 <= j → (∀ x, j <= x < j + Z.of_nat c → q !! Z.to_nat (x mod size) = Some (r x)) →
  copy_responses q size c (j mod size) = Ok (r <$> seqZ j (Z.of_nat c)).
Proof.
  revert j. induction c as [|c IH]; intros j Hj Hq; [done|]. cbn [copy_responses].
  rewrite (Hq j) by lia. simpl. rewrite Zplus_mod_idemp_l.
  rewrite (IH (j + 1)); [|lia|intros x Hx; apply Hq; lia]. simpl.
  rewrite (seqZ_map_cons j (Z.of_nat (S c))) by lia. by replace (Z.of_nat (S c) - 1) with (Z.of_nat c) by lia.
Qed.

Lemma fetch_loop_all fuel csr alloc elem_size i N :
  (∀ i, csr i = (idx (T i), Q i)) → 0 <= h → 0 <= elem_size → size * elem_size < 2 ^ 32 →
  h <= N <= T i → h + size - N < Z.of_nat fuel →
  ∃ i' N', fetch_loop fuel csr alloc (2 ^ k) size elem_size i (idx N) (r <$> seqZ h (N - h))
           = Ok (r <$> seqZ h (N' - h))
    ∧ N <= N' <= T i' ∧ (alloc i' = true → N' = T i').
Proof.
  intros Hcsr Hh He0 He. revert i N. induction fuel as [|fuel IH]; intros i N HN Hf.
  { pose proof (fw_fits Hfw i). lia. }
  cbn [fetch_loop]. rewrite Hcsr. pose proof (fw_fits Hfw i) as Hfit.
  rewrite valid_index by lia. rewrite index_real by lia.
  pose proof (Z.mod_pos_bound (T i) size ltac:(lia)).
  assert (size <=? T i mod size = false) as -> by (apply Z.leb_gt; lia). simpl.
  rewrite cnt_index by lia. destruct (Z.eqb_spec (T i - N) 0) as [Hz|Hz].
  { exists i, N. split; [done|]. split; [lia|]. intros _. lia. }
  destruct (alloc i) eqn:Ha; simpl; [|exists i, N; split; [done|]; split; [lia|congruence]].
  rewrite length_fmap, length_seqZ.
  replace (Z.of_nat (Z.to_nat (N - h)) + (T i - N)) with (T i - h) by lia.
  assert (0 <= (T i - h) * elem_size < 2 ^ 32) as Hsz by nia.
  rewrite u32_small, Z.ltb_irrefl by lia.
  rewrite index_real by lia. rewrite copy_all.
  2: lia. 2: { intros x Hx. apply (fw_slots Hfw). lia. }
  cbn [mbind outcome_bind]. rewrite inc_index by lia. replace (N + (T i - N)) with (T i) by lia.
  rewrite Z2Nat.id by lia.
  assert ((r <$> seqZ h (N - h)) ++ (r <$> seqZ N (T i - N)) = r <$> seqZ h (T i - h)) as ->.
  { rewrite <- fmap_app. f_equal. replace (T i - h) with ((N - h) + (T i - N)) by lia.
    rewrite seqZ_app by lia. do 2 f_equal. lia. }
  destruct (IH (S i) (T i)) as (i' & N' & Hl & HN' & Hlast).
  { pose proof (fw_grows Hfw i). lia. }
  { lia. }
  exists i', N'. split; [done|]. split; [lia|done].
Qed.

End Fetch.
