(* ===== verification/GcipKciInv.v ===== *)
(** * GCIP: the kernel control interface obeys its mailbox

    Its commands have sequence numbers of their own, so that the mailbox is used as
    it must be whatever its threads and the firmware do, and a response that a
    thread returns is one of the firmware with the number of its command
    ([kci_inv]).  The steps of the threads keep this ([kci_exec]). *)

From S2P Require Import Prelude.
From S2P Require Import Interleaving.
From S2P Require Import GcipQueue.
From S2P Require Import GcipMailbox.
From S2P Require Import GcipMailboxInv.
From S2P Require Import GcipMailboxSteps.
From S2P Require Import GcipMailboxMoves.
From S2P Require Import GcipSettle.
From S2P Require Import GcipKci.
From S2P Require Import GcipKciProps.

(** What happens to the interface: commands are sent and time out, the firmware
    takes [c] commands, responds, turns off; the requests are worked on. *)
Inductive kci_move :=
| Kci_send (cmd : gcip_kci_command_element) (buf : gcip_kci_response_element)
| Kci_expire (t : nat)
| Kci_consume (c : Z)
| Kci_responses (rs : list gcip_kci_response_element)
| Kci_work
| Kci_block (off memory : bool)
| Kci_run (i : nat).

Definition firmware_consumes (c : Z) (k : gcip_kci) : gcip_kci :=
  let m := k.(etkci_mailbox) in
  let head := gcip_circ_queue_inc m.(cmd_csr).(head_csr) c m.(cmd_queue_size) CIRC_QUEUE_WRAP_BIT in
  set_etkci_mailbox (set_cmd_csr (set_head_csr head m.(cmd_csr)) m) k.

Definition set_block (off memory : bool) (k : gcip_kci) : gcip_kci :=
  GcipKci k.(etkci_mailbox) k.(rkci) k.(kci_cur_seq) k.(doorbells) k.(block_dumps) off memory.

Definition kci_step (mv : kci_move) (s : kci_system) : outcome kci_system :=
  let k := s.(mbx).(user) in
  match mv with
  | Kci_send cmd buf => gcip_kci_send_cmd cmd buf s
  | Kci_expire t => step (Expire t) s
  | Kci_consume c => step (Other (firmware_consumes c k)) s
  | Kci_responses rs => step (Responses rs) s
  | Kci_work =>
      '(_, v) ← gcip_reverse_kci_work (S (Z.to_nat k.(rkci).(buffer_size))) k.(rkci);
      step (Other (set_rkci v k)) s
  | Kci_block off memory => step (Other (set_block off memory k)) s
  | Kci_run i => step (Run i) s
  end.

(** A wait expires when it waits; the firmware takes commands that are there. *)
Definition kci_allowed (mv : kci_move) (s : kci_system) : bool :=
  match mv with
  | Kci_expire t => allowed (Expire t) s
  | Kci_consume c =>
      let m := s.(mbx).(user).(etkci_mailbox) in
      (0 <=? c) && (c <=? gcip_circ_queue_cnt m.(cmd_csr).(head_csr) m.(cmd_queue_tail)
                           m.(cmd_queue_size) CIRC_QUEUE_WRAP_BIT)
  | _ => true
  end.

Fixpoint kci_play (mvs : list kci_move) (s : kci_system) : outcome kci_system :=
  match mvs with
  | [] => Ok s
  | mv :: mvs => s ← kci_step mv s; kci_play mvs s
  end.

Fixpoint kci_disciplined (mvs : list kci_move) (s : kci_system) : bool :=
  match mvs with
  | [] => true
  | mv :: mvs =>
      kci_allowed mv s && match kci_step mv s with Ok s => kci_disciplined mvs s | _ => true end
  end.

Local Notation op := (op gcip_kci_command_element gcip_kci_response_element).

(** The sequence number that a thread waits for, or will. *)
Definition thread_seq (o : op) (w : async_resp gcip_kci_response_element) : option Z :=
  match w.(resp), o with
  | Some _, Enqueue cmd _ => Some cmd.(cmd_seq)
  | Some r, (Enqueue_copy _ _ | Send_wait _ | Send_del _) => Some r.(resp_seq)
  | _, _ => None
  end.

Section Kci.
Context (n : nat) (received : gcip_kci_response_element → Prop) (bound : Z).
Implicit Types s : kci_system.
Local Notation inv := (inv (ops := kci_mailbox_ops) CIRC_QUEUE_WRAP_BIT n (kci_ok n)).

Definition answered s (t : nat) (r : gcip_kci_response_element) : Prop :=
  ∃ cmd, Queued cmd (OnStack t) ∈ s.(mbx).(trace) ∧ r.(resp_seq) = cmd.(cmd_seq).

(** What the frame of the thread [j] holds while it has [o] to do. *)
Definition thread_ok s (j : nat) (o : op) (w : async_resp gcip_kci_response_element) : Prop :=
  match o with
  | Enqueue _ d => d = OnStack j
  | Enqueue_copy cmd d => d = OnStack j ∧
      ∀ r, w.(resp) = Some r → r.(resp_seq) = cmd.(cmd_seq) ∧ (w.(waiting) = false → received r)
  | Send_wait t => t = j ∧
      ∀ r, w.(resp) = Some r → answered s j r ∧ (w.(waiting) = false → received r)
  | Send_del t => t = j
  | Send_return t ret => t = j ∧
      (ret = 0 → ∀ r, w.(resp) = Some r → answered s j r ∧ received r)
  | _ => False
  end.

Record kci_inv s : Prop := KciInv {
  ki_inv : inv s;
  ki_mode : s.(mbx).(mode) = kci_mode;
  ki_awaiters : s.(mbx).(awaiters) = ∅;
  ki_seq : 0 <= s.(mbx).(user).(kci_cur_seq) <= bound;
  ki_ops p o : p ∈ s.(threads) → o ∈ p → alone o = true ∨ ∃ r, o = Rx_elem r ∧ received r;
  ki_frame t : is_Some (s.(mbx).(frames) !! t) →
    ∃ o, s.(threads) !! t = Some [o] ∧ alone o = true;
  ki_thread j o : s.(threads) !! j = Some [o] → alone o = true →
    ∃ w, s.(mbx).(frames) !! j = Some w ∧ thread_ok s j o w
      ∧ ∀ sq, thread_seq o w = Some sq → 0 < sq <= s.(mbx).(user).(kci_cur_seq);
  ki_distinct i j o o' w w' sq : s.(threads) !! i = Some [o] → s.(threads) !! j = Some [o'] →
    s.(mbx).(frames) !! i = Some w → s.(mbx).(frames) !! j = Some w' →
    thread_seq o w = Some sq → thread_seq o' w' = Some sq → i = j;
  ki_sent t r : Sent t 0 (Some r) ∈ s.(mbx).(trace) → answered s t r ∧ received r
}.

(** The commands that are being sent have keys of their own. *)
Lemma kci_fresh s i cmd d rest :
  kci_inv s → s.(threads) !! i = Some (Enqueue cmd d :: rest) → fresh_key cmd d s = true.
Proof.
  intros Hk Hi. pose proof (ki_inv _ Hk) as Hinv.
  pose proof (inv_alone _ Hinv i _ _ Hi ltac:(left) eq_refl) as Heq. injection Heq as ->.
  destruct (ki_thread _ Hk i _ Hi eq_refl) as (w & Hw & Hd & Hsq). simpl in Hd. subst d.
  unfold fresh_key, key_of. rewrite (ki_mode _ Hk). simpl. rewrite Hw. simpl.
  destruct (w.(resp)) as [r|] eqn:Hr; [|done]. simpl. apply andb_true_iff. split.
  2: { rewrite (ki_awaiters _ Hk). apply forallb_forall. intros [] Hx.
       rewrite map_to_list_empty in Hx. by destruct Hx. }
  apply forallb_forall. intros [t w'] Hin. apply list_elem_of_In, elem_of_map_to_list in Hin.
  unfold unlike. destruct (decide (t = i)) as [->|Hne]; [by rewrite bool_decide_eq_true_2|].
  destruct (unlisted (OnStack t) s) eqn:Hu; [by rewrite orb_true_r|]. apply orb_true_iff. right.
  destruct (w'.(resp)) as [r'|] eqn:Hr'; [|done].
  apply negb_true_iff, Z.eqb_neq. simpl. intros Hseq.
  destruct (ki_frame _ Hk t) as (o & Ho & Hal); [eauto|].
  destruct (ki_thread _ Hk t o Ho Hal) as (w0 & Hw0 & Hok & _). simplify_eq.
  assert (op_unlists (OnStack t) o = false) as Hun.
  { apply not_true_iff_false. intros Hx. apply not_true_iff_false in Hu. apply Hu.
    apply unlisted_spec. exists t, [o]. split; [done|]. simpl. by rewrite Hx. }
  apply Hne. symmetry. apply (ki_distinct _ Hk i t (Enqueue cmd (OnStack i)) o w w' r'.(resp_seq));
    try done.
  - unfold thread_seq. rewrite Hr. by rewrite Hseq.
  - unfold thread_seq. rewrite Hr'. destruct o; try done; simpl in Hok, Hun.
    + subst. by rewrite bool_decide_eq_true_2 in Hun.
    + destruct Hok as [-> _]. by rewrite bool_decide_eq_true_2 in Hun.
Qed.

(** ** Threads *)

Lemma answered_mono s s' t r :
  (∀ e, e ∈ s.(mbx).(trace) → e ∈ s'.(mbx).(trace)) → answered s t r → answered s' t r.
Proof. intros Ht (cmd & Hc & Hr). exists cmd. auto. Qed.

Lemma thread_ok_mono s s' j o w :
  (∀ e, e ∈ s.(mbx).(trace) → e ∈ s'.(mbx).(trace)) → thread_ok s j o w → thread_ok s' j o w.
Proof.
  intros Ht. destruct o; simpl; try done.
  - intros [-> Hw]. split; [done|]. intros r Hr. destruct (Hw r Hr). eauto using answered_mono.
  - intros [-> Hw]. split; [done|]. intros H0 r Hr. destruct (Hw H0 r Hr). eauto using answered_mono.
Qed.

(** The thread [i] goes from [o] to [o'], or ends, and its frame from [w] to [w']. *)
Record turn s (i : nat) (o : op) (w : async_resp gcip_kci_response_element) (next : option op)
    (w' : async_resp gcip_kci_response_element) m : Prop := Turn {
  tn_thread : s.(threads) !! i = Some [o];
  tn_frame : s.(mbx).(frames) !! i = Some w;
  tn_mode : m.(mode) = s.(mbx).(mode);
  tn_awaiters : m.(awaiters) = s.(mbx).(awaiters);
  tn_frames t : m.(frames) !! t = if decide (t = i) then (λ _, w') <$> next else s.(mbx).(frames) !! t;
  tn_seq : m.(user).(kci_cur_seq) = s.(mbx).(user).(kci_cur_seq);
  tn_trace e : e ∈ s.(mbx).(trace) → e ∈ m.(trace);
  tn_sent t r : Sent t 0 (Some r) ∈ m.(trace) →
    Sent t 0 (Some r) ∈ s.(mbx).(trace) ∨ (answered s t r ∧ received r);
  tn_next o' : next = Some o' → alone o' = true ∧
    (∀ s', s'.(mbx) = m → thread_ok s' i o' w')
    ∧ ∀ sq, thread_seq o' w' = Some sq → thread_seq o w = Some sq
}.

Lemma kci_turn s i o w next w' m :
  kci_inv s → turn s i o w next w' m →
  inv (after s i (option_list next) [] m) → alone o = true →
  kci_inv (after s i (option_list next) [] m).
Proof.
  intros Hk Ht Hinv' Hal. pose proof (tn_thread _ _ _ _ _ _ _ Ht) as Hi.
  set (s' := after s i (option_list next) [] m) in *.
  assert (∀ j q, s'.(threads) !! j = Some q →
            (j = i ∧ q = option_list next) ∨ j ≠ i ∧ s.(threads) !! j = Some q) as Hj'.
  { intros j q Hj. destruct (after_lookup _ _ _ _ _ _ _ _ Hi Hj) as [[-> ->]|]; [|by right].
    left. by rewrite app_nil_r. }
  assert (s'.(threads) !! i = Some (option_list next)) as Hi'.
  { simpl. rewrite app_nil_r. apply list_lookup_insert_eq. by eapply lookup_lt_Some. }
  assert (∀ e, e ∈ s.(mbx).(trace) → e ∈ s'.(mbx).(trace)) as Htr by apply Ht.
  assert (∀ j, j ≠ i → s'.(mbx).(frames) !! j = s.(mbx).(frames) !! j) as Hfr.
  { intros j Hj. simpl. by rewrite (tn_frames _ _ _ _ _ _ _ Ht), decide_False. }
  assert (∀ o', next = Some o' → s'.(mbx).(frames) !! i = Some w') as Hfi.
  { intros o' ->. simpl. by rewrite (tn_frames _ _ _ _ _ _ _ Ht), decide_True. }
  destruct (ki_thread _ Hk i o Hi Hal) as (w0 & Hw0 & _ & Hsq).
  pose proof (tn_frame _ _ _ _ _ _ _ Ht) as Hw. simplify_eq.
  constructor; try done.
  - simpl. by rewrite (tn_mode _ _ _ _ _ _ _ Ht), (ki_mode _ Hk).
  - simpl. by rewrite (tn_awaiters _ _ _ _ _ _ _ Ht), (ki_awaiters _ Hk).
  - simpl. rewrite (tn_seq _ _ _ _ _ _ _ Ht). apply Hk.
  - intros p o' Hp Ho'. apply list_elem_of_lookup in Hp as [j Hj].
    destruct (Hj' _ _ Hj) as [[-> ->]|[_ Hj0]].
    + destruct next; simpl in Ho'; [|by apply elem_of_nil in Ho']. singletons.
      left. by apply (tn_next _ _ _ _ _ _ _ Ht).
    + eapply (ki_ops _ Hk); [by eapply list_elem_of_lookup_2|done].
  - intros t [x Hx]. destruct (decide (t = i)) as [->|Hne].
    + simpl in Hx. rewrite (tn_frames _ _ _ _ _ _ _ Ht), decide_True in Hx by done.
      destruct next as [o'|]; [|done]. exists o'. split; [done|]. by apply (tn_next _ _ _ _ _ _ _ Ht).
    + rewrite Hfr in Hx by done. destruct (ki_frame _ Hk t) as (o' & Ho' & Ha'); [eauto|].
      exists o'. split; [|done]. simpl. by rewrite list_lookup_insert_ne.
  - intros j o' Hj Ha'. simpl. rewrite (tn_seq _ _ _ _ _ _ _ Ht).
    destruct (Hj' _ _ Hj) as [[-> Heq]|[Hne Hj0]].
    + destruct next as [o1|]; [|done]. injection Heq as <-. exists w'.
      split; [by apply (Hfi o')|]. destruct (tn_next _ _ _ _ _ _ _ Ht o' eq_refl) as (_ & Hok & Hsq').
      split; [by apply Hok|]. auto.
    + destruct (ki_thread _ Hk j o' Hj0 Ha') as (w1 & Hw1 & Hok & Hsq'). exists w1.
      split; [by rewrite <- Hw1; apply Hfr|]. split; [|done]. by eapply thread_ok_mono.
  - assert (∀ j o' w1 sq, s'.(threads) !! j = Some [o'] → s'.(mbx).(frames) !! j = Some w1 →
      thread_seq o' w1 = Some sq → ∃ o0 w0, s.(threads) !! j = Some [o0]
        ∧ s.(mbx).(frames) !! j = Some w0 ∧ thread_seq o0 w0 = Some sq) as Hback.
    { intros j o' w1 sq Hj Hw1 Hs1. destruct (Hj' _ _ Hj) as [[-> Heq]|[Hne Hj0]].
      - destruct next as [o1|]; [|done]. injection Heq as <-. rewrite (Hfi o' eq_refl) in Hw1.
        injection Hw1 as <-. destruct (tn_next _ _ _ _ _ _ _ Ht o' eq_refl) as (_ & _ & Hsq').
        exists o, w0. auto.
      - rewrite Hfr in Hw1 by done. eauto. }
    intros i1 j1 o1 o2 w1 w2 sq Hi1 Hj1 Hw1 Hw2 Hs1 Hs2.
    destruct (Hback _ _ _ _ Hi1 Hw1 Hs1) as (a1 & b1 & ? & ? & ?).
    destruct (Hback _ _ _ _ Hj1 Hw2 Hs2) as (a2 & b2 & ? & ? & ?).
    by eapply (ki_distinct _ Hk i1 j1 a1 a2 b1 b2 sq).
  - intros t r Hs. destruct (tn_sent _ _ _ _ _ _ _ Ht t r Hs) as [Hs0|[Ha Hr]].
    + destruct (ki_sent _ Hk t r Hs0). split; [by eapply answered_mono|done].
    + split; [by eapply answered_mono|done].
Qed.

(** No entry of the list is that of an awaiter. *)
Lemma kci_elem s e :
  kci_inv s → e ∈ s.(mbx).(wait_list) → ∃ t, e = WaitListElem (OnStack t) None.
Proof.
  intros Hk He. destruct (inv_elem _ (ki_inv _ Hk) e He) as (Hea & w & r & Hw & _).
  destruct e as [[t|a] aw]; simpl in Hea; subst aw; [by exists t|].
  simpl in Hw. rewrite (ki_awaiters _ Hk) in Hw. done.
Qed.

Lemma kci_enqueue s i cmd d p m :
  kci_inv s → s.(threads) !! i = Some [Enqueue cmd d] → exec i (Enqueue cmd d) s.(mbx) = Ok (p, m) →
  inv (after s i p [] m) → kci_inv (after s i p [] m).
Proof.
  intros Hk Hi Hx Hinv'. destruct (ki_thread _ Hk i _ Hi eq_refl) as (w & Hw & Hd & _).
  simpl in Hd. subst d. simpl in Hx. unfold gcip_mailbox_enqueue_cmd in Hx.
  rewrite (ki_mode _ Hk) in Hx. destruct (s.(mbx).(tx_queue_lock)); [done|]. cbn [mode_has] in Hx.
  set (ret := wait_for_tx_queue_not_full _) in Hx. simpl in Hx.
  destruct (Z.eqb_spec ret 0) as [Hr0|Hr0]; simpl in Hx.
  2: { injection Hx as <- <-.
       apply (kci_turn s i (Enqueue cmd (OnStack i)) w (Some (Send_return i ret)) w); try done.
       constructor; try done; [|by left|].
       - intros t. case_decide; by subst.
       - intros o' [= <-]. split; [done|]. split; [by intros s' _|].
         unfold thread_seq. by destruct (resp w). }
  rewrite Hw in Hx. simpl in Hx. destruct (w.(resp)) as [r|] eqn:Hr.
  2: { injection Hx as <- <-.
       apply (kci_turn s i (Enqueue cmd (OnStack i)) w (Some (Enqueue_copy cmd (OnStack i))) w);
         try done.
       constructor; try done; [|by left|].
       - intros t. case_decide; by subst.
       - intros o' [= <-]. split; [done|]. split; [intros s' _; split; [done|congruence]|].
         unfold thread_seq. by rewrite Hr. }
  unfold gcip_mailbox_push_wait_resp in Hx. simpl in Hx. rewrite lookup_insert_eq in Hx.
  set (w1 := AsyncResp true (Some (set_resp_elem_seq_kci cmd.(cmd_seq) r))) in Hx. simpl in Hx.
  destruct (memory_left _); simpl in Hx; injection Hx as <- <-.
  - apply (kci_turn s i (Enqueue cmd (OnStack i)) w (Some (Enqueue_copy cmd (OnStack i))) w1); try done.
    constructor; try done; [|by left|].
    + intros t. simpl. case_decide as Ht; [subst; by rewrite lookup_insert_eq|].
      by rewrite lookup_insert_ne.
    + intros o' [= <-]. split; [done|]. split.
      * intros s' _. split; [done|]. by intros r' [= <-].
      * unfold thread_seq. rewrite Hr. done.
  - apply (kci_turn s i (Enqueue cmd (OnStack i)) w (Some (Send_return i (- ENOMEM))) w1); try done.
    constructor; try done; [|by left|].
    + intros t. simpl. case_decide as Ht; [subst; by rewrite lookup_insert_eq|].
      by rewrite lookup_insert_ne.
    + intros o' [= <-]. by split; [|split; [intros s' _|]].
Qed.

Lemma kci_enqueue_copy s i cmd d p m :
  kci_inv s → s.(threads) !! i = Some [Enqueue_copy cmd d] →
  exec i (Enqueue_copy cmd d) s.(mbx) = Ok (p, m) →
  inv (after s i p [] m) → kci_inv (after s i p [] m).
Proof.
  intros Hk Hi Hx Hinv'. destruct (ki_thread _ Hk i _ Hi eq_refl) as (w & Hw & [-> Hd] & _).
  simpl in Hx. unfold enqueue_copy in Hx. case_decide; [|done]. simpl in Hx.
  rewrite (ki_mode _ Hk) in Hx. simpl in Hx. rewrite Hw in Hx. simpl in Hx. injection Hx as <- <-.
  destruct (w.(resp)) as [r|] eqn:Hr.
  - apply (kci_turn s i (Enqueue_copy cmd (OnStack i)) w (Some (Send_wait i)) w); try done.
    constructor; try done.
    + intros t. simpl. case_decide; by subst.
    + intros e He. simpl. set_solver.
    + intros t r' Hs. left. simpl in Hs. set_solver.
    + intros o' [= <-]. split; [done|]. split; [|unfold thread_seq; by rewrite Hr].
      intros s' Hs'. split; [done|]. intros r' Hr'. destruct (Hd r' ltac:(congruence)) as [Hq Hrc].
      split; [|done]. exists cmd. rewrite Hs'. simpl. split; [set_solver|done].
  - apply (kci_turn s i (Enqueue_copy cmd (OnStack i)) w (Some (Send_return i 0)) w); try done.
    constructor; try done.
    + intros t. simpl. case_decide; by subst.
    + intros e He. simpl. set_solver.
    + intros t r' Hs. left. simpl in Hs. set_solver.
    + intros o' [= <-]. split; [done|]. split; [|unfold thread_seq; by rewrite Hr].
      intros s' Hs'. split; [done|]. intros _ r' Hr'. congruence.
Qed.

Lemma kci_send_wait s i t p m :
  kci_inv s → s.(threads) !! i = Some [Send_wait t] → exec i (Send_wait t) s.(mbx) = Ok (p, m) →
  inv (after s i p [] m) → kci_inv (after s i p [] m).
Proof.
  intros Hk Hi Hx Hinv'. destruct (ki_thread _ Hk i _ Hi eq_refl) as (w & Hw & [-> Hd] & _).
  simpl in Hx. rewrite Hw in Hx. simpl in Hx. destruct (w.(waiting)) eqn:Hwt; [done|].
  injection Hx as <- <-.
  apply (kci_turn s i (Send_wait i) w (Some (Send_return i 0)) w); try done.
  constructor; try done; [|by left|].
  - intros t. case_decide; by subst.
  - intros o' [= <-]. split; [done|]. split; [|unfold thread_seq; by destruct (resp w)].
    intros s' Hs'. split; [done|]. intros _ r Hr. destruct (Hd r Hr) as [Ha Hrc]. split; [|auto].
    eapply answered_mono; [|done]. by rewrite Hs'.
Qed.

(** Removing an entry drops no reference: there is no awaiter. *)
Lemma kci_del s i removed m :
  kci_inv s → s.(threads) !! i = Some [Send_del i] →
  gcip_mailbox_del_wait_resp (OnStack i) s.(mbx) = Ok (removed, m) →
  ∃ l, m = set_wait_list l s.(mbx).
Proof.
  intros Hk Hi Hd. unfold gcip_mailbox_del_wait_resp in Hd.
  apply outcome_bind_Ok in Hd as (w & Hw & Hd). apply must_Ok in Hw.
  destruct (inv_waits _ (ki_inv _ Hk) i _ _ i Hi ltac:(left) eq_refl) as [r Hr].
  simpl in Hr, Hw. rewrite Hw in Hr. simpl in Hr. rewrite Hr in Hd.
  pose proof (find_waiter_spec s.(mbx) r s.(mbx).(wait_list) (inv_elem _ (ki_inv _ Hk))) as Hf.
  apply outcome_bind_Ok in Hd as (f & Hfe & Hd). rewrite Hfe in Hf. simpl in Hf.
  destruct f as [[e l']|].
  2: { injection Hd as _ <-. exists s.(mbx).(wait_list). by destruct s as [[]]. }
  destruct Hf as (l1 & l2 & Hl & -> & _).
  destruct (kci_elem s e Hk ltac:(rewrite Hl; set_solver)) as [t0 ->].
  simpl in Hd. injection Hd as _ <-. eauto.
Qed.

Lemma kci_send_del s i t p m :
  kci_inv s → s.(threads) !! i = Some [Send_del t] → exec i (Send_del t) s.(mbx) = Ok (p, m) →
  inv (after s i p [] m) → kci_inv (after s i p [] m).
Proof.
  intros Hk Hi Hx Hinv'. destruct (ki_thread _ Hk i _ Hi eq_refl) as (w & Hw & -> & _).
  simpl in Hx. apply outcome_bind_Ok in Hx as ([removed m1] & Hd & Hx). injection Hx as <- <-.
  destruct (kci_del s i removed m1 Hk Hi Hd) as [l ->].
  apply (kci_turn s i (Send_del i) w (Some (Send_return i (- ETIMEDOUT))) w); try done.
  constructor; try done.
  - intros t1. simpl. case_decide; by subst.
  - intros t1 r. by left.
  - intros o' [= <-]. split; [done|]. split; [by intros s' _|]. unfold thread_seq. by destruct (resp w).
Qed.

Lemma kci_send_return s i t ret p m :
  kci_inv s → s.(threads) !! i = Some [Send_return t ret] →
  exec i (Send_return t ret) s.(mbx) = Ok (p, m) →
  inv (after s i p [] m) → kci_inv (after s i p [] m).
Proof.
  intros Hk Hi Hx Hinv'. destruct (ki_thread _ Hk i _ Hi eq_refl) as (w & Hw & [-> Hd] & _).
  simpl in Hx. unfold send_return in Hx. rewrite Hw in Hx. simpl in Hx. injection Hx as <- <-.
  set (m1 := if negb (ret =? 0) then _ else _) in *.
  assert (m1.(mode) = s.(mbx).(mode) ∧ m1.(awaiters) = s.(mbx).(awaiters)
    ∧ m1.(frames) = s.(mbx).(frames) ∧ m1.(user).(kci_cur_seq) = s.(mbx).(user).(kci_cur_seq)
    ∧ m1.(trace) = s.(mbx).(trace)) as (E1 & E2 & E3 & E4 & E5).
  { subst m1. destruct (negb _); [|done]. simpl. unfold edgetpu_kci_on_error. by case_match. }
  apply (kci_turn s i (Send_return i ret) w None w); try done.
  constructor; try done.
  - intros t. simpl. rewrite E3. case_decide as Ht; [subst; by rewrite lookup_delete_eq|].
    by rewrite lookup_delete_ne.
  - intros e He. simpl. rewrite E5. set_solver.
  - intros t r Hs. simpl in Hs. rewrite E5 in Hs. apply elem_of_app in Hs as [Hs|Hs]; [by left|right].
    apply list_elem_of_singleton in Hs. injection Hs as -> <- Hr. by apply Hd.
Qed.

(** A response or a request is handled, and the rest of its thread goes on. *)
Lemma kci_rx_elem s i r rest p m :
  kci_inv s → s.(threads) !! i = Some (Rx_elem r :: rest) → exec i (Rx_elem r) s.(mbx) = Ok (p, m) →
  inv (after s i p rest m) → kci_inv (after s i p rest m).
Proof.
  intros Hk Hi Hx Hinv'.
  assert (received r) as Hrc.
  { destruct (ki_ops _ Hk _ (Rx_elem r) (list_elem_of_lookup_2 _ _ _ Hi) ltac:(left))
      as [?|(r' & [= <-] & ?)]; done. }
  assert (∀ o, o ∈ rest → ∃ r, o = Rx_elem r ∧ received r) as Hrest.
  { intros o Ho.
    destruct (ki_ops _ Hk _ o (list_elem_of_lookup_2 _ _ _ Hi) ltac:(by right)) as [Ha|?]; [|done].
    pose proof (inv_alone _ (ki_inv _ Hk) i _ o Hi ltac:(by right) Ha). by simplify_eq. }
  assert (p = [] ∧ m.(mode) = s.(mbx).(mode) ∧ m.(awaiters) = s.(mbx).(awaiters)
    ∧ m.(user).(kci_cur_seq) = s.(mbx).(user).(kci_cur_seq) ∧ m.(trace) = s.(mbx).(trace)
    ∧ ∀ t, m.(frames) !! t = s.(mbx).(frames) !! t ∨
        ∃ w r0, s.(mbx).(frames) !! t = Some w ∧ w.(resp) = Some r0 ∧ r.(resp_seq) = r0.(resp_seq)
          ∧ m.(frames) !! t = Some (AsyncResp false (Some r)) ∧ unlisted (OnStack t) s = false)
    as (-> & E1 & E2 & E3 & E4 & E5).
  { simpl in Hx. unfold gcip_mailbox_handle_rx_elem in Hx. simpl in Hx.
    destruct (gcip_kci_is_rx_elem_reversed r).
    { injection Hx as <- <-. split_and!; try done. by left. }
    unfold gcip_mailbox_handle_response in Hx.
    pose proof (find_waiter_spec s.(mbx) r s.(mbx).(wait_list) (inv_elem _ (ki_inv _ Hk))) as Hf.
    apply outcome_bind_Ok in Hx as (f & Hfe & Hx). rewrite Hfe in Hf. simpl in Hf.
    destruct f as [[e l']|]; [|injection Hx as <- <-; split_and!; try done; by left].
    destruct Hf as (l1 & l2 & Hl & -> & w & r0 & Hw & Hr0 & Hm).
    assert (e ∈ s.(mbx).(wait_list)) as He by (rewrite Hl; set_solver).
    destruct (kci_elem s e Hk He) as [t ->]. simpl in Hx, Hw. injection Hx as <- <-.
    split_and!; try done. intros t'. simpl. destruct (decide (t' = t)) as [->|Hne].
    - right. exists w, r0. rewrite lookup_insert_eq. split_and!; try done.
      + unfold matches in Hm. simpl in Hm. by apply Z.eqb_eq in Hm.
      + by apply (inv_listed _ (ki_inv _ Hk) _ He).
    - left. by rewrite lookup_insert_ne. }
  assert (∀ j q, (after s i [] rest m).(threads) !! j = Some q →
            (j = i ∧ q = rest) ∨ j ≠ i ∧ s.(threads) !! j = Some q) as Hj'.
  { intros j q Hj. destruct (after_lookup _ _ _ _ _ _ _ _ Hi Hj) as [[-> ->]|]; auto. }
  assert (∀ j o, (after s i [] rest m).(threads) !! j = Some [o] → alone o = true →
            s.(threads) !! j = Some [o]) as Hja.
  { intros j o Hj Ha. destruct (Hj' _ _ Hj) as [[-> <-]|[_ ?]]; [|done].
    destruct (Hrest o ltac:(left)) as (r' & -> & _). done. }
  assert (∀ j o w', (after s i [] rest m).(threads) !! j = Some [o] → alone o = true →
            m.(frames) !! j = Some w' → ∃ w, s.(mbx).(frames) !! j = Some w
              ∧ (∀ sq, thread_seq o w' = Some sq → thread_seq o w = Some sq)
              ∧ (thread_ok s j o w → thread_ok (after s i [] rest m) j o w')) as Hwj.
  { intros j o w' Hj Ha Hw'. pose proof (Hja j o Hj Ha) as Hj0.
    destruct (E5 j) as [Heq|(w & r0 & Hw & Hr0 & Hsq & Hm & Hu)].
    - rewrite Heq in Hw'. exists w'. split; [done|]. split; [done|].
      apply thread_ok_mono. simpl. by rewrite E4.
    - rewrite Hm in Hw'. injection Hw' as <-. exists w. split; [done|].
      assert (op_unlists (OnStack j) o = false) as Hun.
      { apply not_true_iff_false. intros Hx'. apply not_true_iff_false in Hu. apply Hu.
        apply unlisted_spec. exists j, [o]. split; [done|]. simpl. by rewrite Hx'. }
      unfold thread_seq. rewrite Hr0. simpl. split.
      + destruct o; try done; simpl; congruence.
      + destruct o; simpl; try done.
        * intros [-> Hok]. split; [done|]. intros r' [= <-]. destruct (Hok r0 Hr0).
          split; [congruence|done].
        * intros [-> Hok]. split; [done|]. intros r' [= <-].
          destruct (Hok r0 Hr0) as [(cmd & Hc & Hs) _]. split; [|done].
          exists cmd. simpl. rewrite E4. split; [done|congruence].
        * intros [-> Hok]. simpl in Hun. by rewrite bool_decide_eq_true_2 in Hun. }
  constructor; try done.
  - simpl. by rewrite E1, (ki_mode _ Hk).
  - simpl. by rewrite E2, (ki_awaiters _ Hk).
  - simpl. rewrite E3. apply Hk.
  - intros q o Hq Ho. apply list_elem_of_lookup in Hq as [j Hj].
    destruct (Hj' _ _ Hj) as [[-> ->]|[_ Hj0]]; [right; auto|].
    eapply (ki_ops _ Hk); [by eapply list_elem_of_lookup_2|done].
  - intros t Ht. simpl in Ht. assert (is_Some (s.(mbx).(frames) !! t)) as Ht'.
    { destruct (E5 t) as [<-|(w & r0 & -> & _)]; eauto. }
    destruct (ki_frame _ Hk t Ht') as (o & Ho & Ha). exists o. split; [|done].
    simpl. rewrite list_lookup_insert_ne; [done|]. intros ->. rewrite Hi in Ho. by simplify_eq.
  - intros j o Hj Ha. destruct (ki_thread _ Hk j o (Hja j o Hj Ha) Ha) as (w & Hw & Hok & Hsq).
    assert (is_Some (m.(frames) !! j)) as [w' Hw'].
    { destruct (E5 j) as [->|(? & ? & _ & _ & _ & -> & _)]; eauto. }
    exists w'. split; [done|]. destruct (Hwj j o w' Hj Ha Hw') as (w0 & Hw0 & Hs & Ho). simplify_eq.
    split; [auto|]. simpl. rewrite E3. auto.
  - intros i1 j1 o1 o2 w1 w2 sq Hi1 Hj1 Hw1 Hw2 Hs1 Hs2.
    assert (∀ o w, thread_seq o w = Some sq → alone o = true) as Hal.
    { intros o w. unfold thread_seq. by destruct (resp w), o. }
    simpl in Hw1, Hw2.
    destruct (Hwj i1 o1 w1 Hi1 (Hal _ _ Hs1) Hw1) as (a1 & Ha1 & Hb1 & _).
    destruct (Hwj j1 o2 w2 Hj1 (Hal _ _ Hs2) Hw2) as (a2 & Ha2 & Hb2 & _).
    apply (ki_distinct _ Hk i1 j1 o1 o2 a1 a2 sq); eauto.
  - intros t r' Hs. simpl in Hs. rewrite E4 in Hs. destruct (ki_sent _ Hk t r' Hs) as [Ha ?].
    split; [|done]. eapply answered_mono; [|done]. simpl. by rewrite E4.
Qed.

Lemma kci_exec s i o rest p m :
  kci_inv s → s.(threads) !! i = Some (o :: rest) → exec i o s.(mbx) = Ok (p, m) →
  inv (after s i p rest m) → kci_inv (after s i p rest m).
Proof.
  intros Hk Hi Hx Hinv'.
  destruct (ki_ops _ Hk _ o (list_elem_of_lookup_2 _ _ _ Hi) ltac:(left)) as [Ha|(r & -> & _)].
  2: by eapply kci_rx_elem.
  pose proof (inv_alone _ (ki_inv _ Hk) i _ o Hi ltac:(left) Ha) as Heq. injection Heq as ->.
  destruct o; try done.
  - by eapply kci_enqueue.
  - by eapply kci_enqueue_copy.
  - by eapply kci_send_wait.
  - by eapply kci_send_del.
  - by eapply kci_send_return.
Qed.

End Kci.
