(* ===== verification/GcipKciMoves.v ===== *)
(** * GCIP: what happens to the kernel control interface

    Every move keeps [kci_inv] and is one that the mailbox allows, so that a play of
    the interface always has a result, whatever its threads and its firmware do. *)

From S2P Require Import Prelude.
From S2P Require Import Interleaving.
From S2P Require Import GcipQueue.
From S2P Require Import GcipMailbox.
From S2P Require Import GcipMailboxInv.
From S2P Require Import GcipMailboxSteps.
From S2P Require Import GcipMailboxMoves.
From S2P Require Import GcipKci.
From S2P Require Import GcipKciProps.
From S2P Require Import GcipKciInv.

Section Moves.
Context (n : nat) (received : gcip_kci_response_element → Prop) (bound : Z).
Implicit Types s : kci_system.
Local Notation inv := (inv (ops := kci_mailbox_ops) CIRC_QUEUE_WRAP_BIT n (kci_ok n)).
Local Notation kci_inv := (kci_inv n received bound).
Local Notation cur_seq s := (s.(mbx).(user).(kci_cur_seq)).

Lemma thread_seq_alone {o w sq} : thread_seq o w = Some sq → alone o = true.
Proof. unfold thread_seq. by destruct (resp w), o. Qed.

Lemma kci_other s h :
  kci_inv s → kci_ok n h → cur_seq s <= h.(kci_cur_seq) <= bound →
  kci_inv (set_mbx (set_user h s.(mbx)) s).
Proof.
  intros Hk Hh Hle. constructor.
  - by apply (inv_user_change s h (ki_inv _ _ _ _ Hk)).
  - apply Hk.
  - apply Hk.
  - pose proof (ki_seq _ _ _ _ Hk). simpl. lia.
  - apply Hk.
  - apply Hk.
  - intros j o Hj Ha. destruct (ki_thread _ _ _ _ Hk j o Hj Ha) as (w & Hw & Hok & Hsq).
    exists w. split; [done|]. split; [by eapply thread_ok_mono|].
    intros sq Hs. specialize (Hsq sq Hs). simpl. lia.
  - apply Hk.
  - apply Hk.
Qed.

Lemma kci_responses s rs :
  kci_inv s → (∀ r, r ∈ rs → received r) → kci_inv (spawn (Rx_elem <$> rs) s).
Proof.
  intros Hk Hrs. set (s' := spawn _ s).
  assert (∀ j q, s'.(threads) !! j = Some q →
    q = (Rx_elem (C := gcip_kci_command_element) <$> rs) ∨ s.(threads) !! j = Some q) as Hj'.
  { intros j q Hj. destruct (spawned_lookup s _ s.(mbx) j q Hj) as [[_ ->]|]; auto. }
  assert (∀ j o, s'.(threads) !! j = Some [o] → alone o = true → s.(threads) !! j = Some [o]) as Ha'.
  { intros j o Hj Ha. destruct (Hj' _ _ Hj) as [Heq|]; [|done]. exfalso.
    destruct rs as [|r [|]]; try done. injection Heq as ->. done. }
  constructor.
  - pose proof (responses_ok s rs (ki_inv _ _ _ _ Hk)) as Hok.
    done.
  - apply Hk.
  - apply Hk.
  - apply Hk.
  - intros p o Hp Ho. apply list_elem_of_lookup in Hp as [j Hj].
    destruct (Hj' _ _ Hj) as [->|Hj0].
    + apply list_elem_of_fmap in Ho as (r & -> & Hr). right. eauto.
    + eapply (ki_ops _ _ _ _ Hk); [by eapply list_elem_of_lookup_2|done].
  - intros t Ht. destruct (ki_frame _ _ _ _ Hk t Ht) as (o & Ho & Ha). exists o.
    split; [|done]. simpl. by apply lookup_app_l_Some.
  - intros j o Hj Ha. destruct (ki_thread _ _ _ _ Hk j o (Ha' _ _ Hj Ha) Ha) as (w & Hw & Hok & Hsq).
    exists w. split; [done|]. split; [by eapply thread_ok_mono|done].
  - intros i j o o' w w' sq Hi Hj Hw Hw' Hs Hs'.
    apply (ki_distinct _ _ _ _ Hk i j o o' w w' sq); try done; apply Ha'; try done; by eapply thread_seq_alone.
  - apply Hk.
Qed.

Lemma kci_expire s t :
  kci_inv s → allowed (Expire t) s = true → wp (step (Expire t) s) kci_inv.
Proof.
  intros Hk Hal. pose proof (expire_ok s t (ki_inv _ _ _ _ Hk) Hal) as Hok.
  simpl in *.
  destruct (s.(threads) !! t) as [[|[| |t'| | | | | | | | | | | | | | | | |] [|]]|] eqn:Ht; try done.
  destruct (ki_thread _ _ _ _ Hk t _ Ht eq_refl) as (w & Hw & [-> _] & Hsq).
  apply (kci_turn n received bound s t (Send_wait t) w (Some (Send_del t)) w s.(mbx)); try done.
  constructor; try done; [|by left|].
  - intros t'. case_decide; by subst.
  - intros o' [= <-]. split; [done|]. split; [by intros s' _|].
    unfold thread_seq. by destruct (resp w).
Qed.

(** A thread enters [gcip_mailbox_send_cmd], with a number of its own if it waits
    for a response. *)
Lemma kci_submit s cmd r :
  kci_inv s →
  (∀ x, r = Some x → 0 < cmd.(cmd_seq) <= cur_seq s ∧
     ∀ j o w sq, s.(threads) !! j = Some [o] → s.(mbx).(frames) !! j = Some w →
       thread_seq o w = Some sq → sq < cmd.(cmd_seq)) →
  wp (step (Send_cmd cmd r) s) kci_inv.
Proof.
  intros Hk Hr.
  pose proof (send_move_ok s cmd r (ki_inv _ _ _ _ Hk)) as Hok.
  simpl in *. set (t := length s.(threads)) in *. set (s' := spawn _ _) in *.
  assert (∀ j q, s'.(threads) !! j = Some q →
    (j = t ∧ q = [Enqueue cmd (OnStack t)]) ∨ j ≠ t ∧ s.(threads) !! j = Some q) as Hj'.
  { intros j q Hj. simpl in Hj. apply lookup_snoc_Some in Hj as [[Hlt Hj]|[-> <-]]; [right|left]; auto.
    split; [unfold t; lia|done]. }
  assert (∀ j w, s'.(mbx).(frames) !! j = Some w →
    (j = t ∧ w = AsyncResp false r) ∨ j ≠ t ∧ s.(mbx).(frames) !! j = Some w) as Hw'.
  { intros j w Hw. simpl in Hw. apply lookup_insert_Some in Hw as [[<- <-]|[? ?]]; [left|right]; auto. }
  assert (∀ j o w sq, s'.(threads) !! j = Some [o] → s'.(mbx).(frames) !! j = Some w →
    thread_seq o w = Some sq → (j = t ∧ sq = cmd.(cmd_seq) ∧ is_Some r) ∨
      j ≠ t ∧ s.(threads) !! j = Some [o] ∧ s.(mbx).(frames) !! j = Some w) as Hseq.
  { intros j o w sq Hj Hw Hs. destruct (Hj' _ _ Hj) as [[-> [= ->]]|[Hne Hj0]].
    - left. destruct (Hw' _ _ Hw) as [[_ ->]|[? _]]; [|done]. unfold thread_seq in Hs. simpl in Hs.
      destruct r; [|done]. injection Hs as <-. eauto.
    - right. destruct (Hw' _ _ Hw) as [[-> _]|[_ ?]]; done. }
  constructor; try done.
  - apply Hk.
  - apply Hk.
  - apply Hk.
  - intros p o Hp Ho. apply list_elem_of_lookup in Hp as [j Hj].
    destruct (Hj' _ _ Hj) as [[-> ->]|[_ Hj0]].
    + apply list_elem_of_singleton in Ho as ->. by left.
    + eapply (ki_ops _ _ _ _ Hk); [by eapply list_elem_of_lookup_2|done].
  - intros j [w Hw]. destruct (Hw' _ _ Hw) as [[-> _]|[_ Hw0]].
    + exists (Enqueue cmd (OnStack t)). split; [|done]. simpl. apply lookup_snoc_Some. by right.
    + destruct (ki_frame _ _ _ _ Hk j ltac:(eauto)) as (o & Ho & Ha). exists o.
      split; [|done]. simpl. by apply lookup_app_l_Some.
  - intros j o Hj Ha. destruct (Hj' _ _ Hj) as [[-> [= ->]]|[Hne Hj0]].
    + exists (AsyncResp false r). simpl. rewrite lookup_insert_eq. split; [done|]. split; [done|].
      intros sq Hs. unfold thread_seq in Hs. simpl in Hs. destruct r as [x|]; [|done].
      injection Hs as <-. by apply (Hr x).
    + destruct (ki_thread _ _ _ _ Hk j o Hj0 Ha) as (w & Hw & Ho & Hsq). exists w. simpl.
      rewrite lookup_insert_ne by done. split; [done|]. split; [by eapply thread_ok_mono|done].
  - intros i j o o' w w' sq Hi Hj Hwi Hwj Hs Hs'.
    destruct (Hseq i o w sq Hi Hwi Hs) as [(-> & -> & x & Hx)|(_ & Hi0 & Hwi0)];
      destruct (Hseq j o' w' _ Hj Hwj Hs') as [(-> & Hsq & x' & Hx')|(_ & Hj0 & Hwj0)]; try done.
    + destruct (Hr x Hx) as [_ Hlt]. specialize (Hlt _ _ _ _ Hj0 Hwj0 Hs'). lia.
    + destruct (Hr x' Hx') as [_ Hlt]. specialize (Hlt _ _ _ _ Hi0 Hwi0 Hs). lia.
    + by apply (ki_distinct _ _ _ _ Hk i j o o' w w' sq).
  - apply Hk.
Qed.

Lemma kci_run s i : kci_inv s → wp (step (Run i) s) kci_inv.
Proof.
  intros Hk. simpl. unfold run_thread.
  destruct (s.(threads) !! i) as [[|o rest]|] eqn:Hi; [done| |done].
  destruct (exec i o s.(mbx)) as [[p m]| |] eqn:Hx; [|done|].
  - apply (kci_exec n received bound s i o rest p m Hk Hi Hx).
    pose proof (step_ok s (Run i) (ki_inv _ _ _ _ Hk)) as Hs. simpl in Hs. unfold run_thread in Hs.
    rewrite Hi, Hx in Hs. apply Hs; [|done]. destruct o; try done. by eapply kci_fresh.
  - pose proof (step_ok s (Run i) (ki_inv _ _ _ _ Hk)) as Hs. simpl in Hs. unfold run_thread in Hs.
    rewrite Hi, Hx in Hs. apply Hs; [|done]. destruct o; try done. by eapply kci_fresh.
Qed.

End Moves.

(** What the firmware sent during the moves. *)
Definition responded (mvs : list kci_move) (r : gcip_kci_response_element) : Prop :=
  ∃ rs, Kci_responses rs ∈ mvs ∧ r ∈ rs.

Section Step.
Context (n : nat) (received : gcip_kci_response_element → Prop).
Implicit Types s : kci_system.

Lemma kci_weaken b b' s : b <= b' → kci_inv n received b s → kci_inv n received b' s.
Proof. intros Hle []. constructor; try done. lia. Qed.

Lemma kci_send_ok b s cmd buf :
  kci_inv n received b s → b + 1 < 2 ^ 64 →
  wp (gcip_kci_send_cmd cmd buf s) (kci_inv n received (b + 1)).
Proof.
  intros Hk Hb. unfold gcip_kci_send_cmd, gcip_kci_send_cmd_return_resp.
  pose proof (ki_seq _ _ _ _ Hk) as Hs. set (k := s.(mbx).(user)) in *.
  destruct (is_reverse cmd).
  { apply kci_submit; [|done]. eapply kci_weaken; [|done]. lia. }
  rewrite u64_small by lia. cbn [step mbind outcome_bind].
  apply kci_submit.
  - apply kci_other; [eapply kci_weaken; [|done]; lia| |simpl; fold k; lia].
    apply (inv_user _ (ki_inv _ _ _ _ Hk)).
  - intros x _. simpl. split; [lia|]. intros j o w sq Hj Hw Hsq.
    destruct (ki_thread _ _ _ _ Hk j o Hj ltac:(by eapply thread_seq_alone)) as (w' & Hw' & _ & Hq).
    simplify_eq. specialize (Hq sq Hsq). fold k in Hq. lia.
Qed.

Lemma kci_work_ok k :
  rkci_ok k.(rkci) → ∃ l v,
    gcip_reverse_kci_work (S (Z.to_nat k.(rkci).(buffer_size))) k.(rkci) = Ok (l, v) ∧ rkci_ok v.
Proof.
  intros Hv. unfold gcip_reverse_kci_work.
  destruct (rkci_work_loop_all (S (Z.to_nat k.(rkci).(buffer_size)))
              (ReverseKci k.(rkci).(rkci_head) k.(rkci).(rkci_tail) k.(rkci).(buffer_size)
                 k.(rkci).(buffer) false) []) as (v & -> & Hv' & _); [done| |eauto].
  pose proof (rkci_count_range _ Hv). unfold rkci_count in *. simpl. lia.
Qed.

Lemma kci_step_ok b s mv :
  kci_inv n received b s → b + 1 < 2 ^ 64 → kci_allowed mv s = true →
  (∀ rs r, mv = Kci_responses rs → r ∈ rs → received r) →
  wp (kci_step mv s) (kci_inv n received (b + 1)).
Proof.
  intros Hk Hb Hal Hr. assert (kci_inv n received (b + 1) s) as Hk1 by (eapply kci_weaken; [|done]; lia).
  pose proof (inv_user _ (ki_inv _ _ _ _ Hk)) as Hu. pose proof (ki_seq _ _ _ _ Hk) as Hs.
  destruct mv; cbn [kci_step].
  - by apply kci_send_ok.
  - by apply kci_expire.
  - by apply kci_other; [|simpl|simpl; lia].
  - apply (kci_responses n received (b + 1) s rs); [done|]. eauto.
  - destruct Hu as (? & ? & ? & Hv). destruct (kci_work_ok _ Hv) as (l & v & -> & Hv').
    cbn [mbind outcome_bind step wp]. apply kci_other; [done|by split|simpl; lia].
  - apply kci_other; [done|done|simpl; lia].
  - by apply kci_run.
Qed.

Lemma kci_step_blocked s mv : rkci_ok s.(mbx).(user).(rkci) → kci_step mv s ≠ Blocked.
Proof.
  intros Hv. destruct mv; cbn [kci_step]; try apply step_blocked.
  - unfold gcip_kci_send_cmd, gcip_kci_send_cmd_return_resp. by destruct (is_reverse cmd).
  - destruct (kci_work_ok _ Hv) as (l & v & -> & _). done.
Qed.

Lemma kci_play_ok (P : kci_system → Prop) mvs b s :
  (∀ s mv s' b, kci_inv n received b s → P s → kci_allowed mv s = true → kci_step mv s = Ok s' → P s') →
  kci_inv n received b s → P s → b + Z.of_nat (length mvs) < 2 ^ 64 →
  kci_disciplined mvs s = true → (∀ r, responded mvs r → received r) →
  ∃ s', kci_play mvs s = Ok s' ∧ kci_inv n received (b + Z.of_nat (length mvs)) s' ∧ P s'.
Proof.
  intros HP. revert b s. induction mvs as [|mv mvs IH]; intros b s Hk Hs Hb Hd Hr.
  { exists s. split; [done|]. by rewrite Z.add_0_r. }
  simpl in Hd, Hb. apply andb_true_iff in Hd as [Hal Hd].
  pose proof (kci_step_ok b s mv Hk ltac:(lia) Hal) as Hok.
  pose proof (kci_step_blocked s mv) as Hnb. cbn [kci_play].
  destruct (kci_step mv s) as [s1| |] eqn:Hs1; simpl.
  - destruct (IH (b + 1) s1) as (s' & -> & Hk' & Hs'); try done.
    + apply Hok. intros rs r -> Hin. apply Hr. exists rs. split; [left|done].
    + by eapply HP.
    + lia.
    + intros r (rs & Hrs & Hin). apply Hr. exists rs. split; [by right|done].
    + exists s'. split; [done|]. split; [|done]. by replace (b + Z.of_nat (S (length mvs)))
        with (b + 1 + Z.of_nat (length mvs)) by lia.
  - destruct Hnb; [|done]. apply (inv_user _ (ki_inv _ _ _ _ Hk)).
  - destruct Hok. intros rs r -> Hin. apply Hr. exists rs. split; [left|done].
Qed.

(** ** The first state *)

Lemma kci_init_ok queue buffer size k s :
  gcip_kci_init queue (Some buffer) size k = (0, Some s) → length queue = n →
  kci_ok n (set_rkci (empty_reverse_kci size buffer) k) → kci_inv n received 0 s.
Proof.
  unfold gcip_kci_init. cbn [gcip_reverse_kci_init]. set (k0 := set_kci_cur_seq 0 _).
  destruct (gcip_mailbox_init kci_mode CIRC_QUEUE_WRAP_BIT queue k0) as [ret [m|]] eqn:Hm; [|done].
  intros [= -> <-] Hn Hk. assert (kci_ok n k0) as Hk0 by done.
  pose proof (boot_ok kci_mode queue k0 m Hm Hn Hk0) as Hinv.
  unfold gcip_mailbox_init in Hm. simpl in Hm. injection Hm as <-.
  constructor; try done; cbn [mbx threads boot frames trace].
  - intros p o Hp. by apply elem_of_nil in Hp.
  - intros t [? Ht]. by rewrite lookup_empty in Ht.
  - intros t r Ht. by apply elem_of_nil in Ht.
Qed.

End Step.
