(* ===== verification/GcipKciFifo.v ===== *)
(** * GCIP: the order of the commands of the kernel control interface

    The firmware takes from the transmit queue the commands that the driver queued,
    in their order and each once, and finds at most as many of them as the queue has
    elements. *)

From S2P Require Import Prelude.
From S2P Require Import Interleaving.
From S2P Require Import GcipQueue.
From S2P Require Import GcipMailbox.
From S2P Require Import GcipMailboxInv.
From S2P Require Import GcipMailboxSteps.
From S2P Require Import GcipMailboxMoves.
From S2P Require Import GcipSettle.
From S2P Require Import GcipKci.
From S2P Require Import GcipKciProps.
From S2P Require Import GcipKciInv.
From S2P Require Import GcipKciMoves.

Definition queued_cmd (e : outcome_event gcip_kci_command_element gcip_kci_response_element) :
    option gcip_kci_command_element :=
  match e with Queued cmd _ => Some cmd | _ => None end.

(** The commands queued since the beginning. *)
Definition queued (s : kci_system) : list gcip_kci_command_element :=
  omap queued_cmd s.(mbx).(trace).

(** The [c] commands that the firmware reads from the head of the queue. *)
Definition firmware_reads (c : Z) (s : kci_system) : list gcip_kci_command_element :=
  let m := s.(mbx).(user).(etkci_mailbox) in
  omap (λ i, s.(mbx).(tx_queue) !! Z.to_nat (CIRC_QUEUE_REAL_INDEX
          (gcip_circ_queue_inc m.(cmd_csr).(head_csr) i m.(cmd_queue_size) CIRC_QUEUE_WRAP_BIT)
          CIRC_QUEUE_WRAP_BIT)) (seqZ 0 c).

(** What it has read in the end. *)
Fixpoint taken (mvs : list kci_move) (s : kci_system) : list gcip_kci_command_element :=
  match mvs with
  | [] => []
  | mv :: mvs =>
      match mv with Kci_consume c => firmware_reads c s | _ => [] end
      ++ match kci_step mv s with Ok s => taken mvs s | _ => [] end
  end.

Section Fifo.
Context (n : nat) (received : gcip_kci_response_element → Prop) (bound : Z).
Implicit Types s : kci_system.
Local Notation kci_inv := (kci_inv n received bound).
Local Notation idx := (circ_index (Z.of_nat n) CIRC_QUEUE_WRAP_BIT).

(** The firmware has taken [h] of the [t] commands queued; a thread that holds the
    lock has room. *)
Record window (h t : nat) (q : list gcip_kci_command_element)
    (m : gcip_mailbox gcip_kci_command_element gcip_kci_response_element gcip_kci) : Prop := Window {
  wi_tail : m.(user).(etkci_mailbox).(cmd_queue_tail) = idx (Z.of_nat t);
  wi_head : m.(user).(etkci_mailbox).(cmd_csr).(head_csr) = idx (Z.of_nat h);
  wi_range : (h ≤ t ≤ h + n)%nat;
  wi_room : is_Some m.(tx_queue_lock) → (t < h + n)%nat;
  wi_slots i : (h ≤ i < t)%nat → m.(tx_queue) !! (i mod n)%nat = q !! i
}.

Record fifo (l : list gcip_kci_command_element) s : Prop := Fifo {
  ff_taken : l = take (length l) (queued s);
  ff_window : window (length l) (length (queued s)) (queued s) s.(mbx)
}.

Lemma mod_nat i : Z.to_nat (Z.of_nat i mod Z.of_nat n) = (i mod n)%nat.
Proof. by rewrite <- Nat2Z.inj_mod, Nat2Z.id. Qed.

Lemma mod_window h i j : (h ≤ i < j)%nat → (j < h + n)%nat → (i mod n ≠ j mod n)%nat.
Proof.
  intros Hi Hj Heq. pose proof (Nat.div_mod_eq i n). pose proof (Nat.div_mod_eq j n).
  assert (j - i = n * (j / n - i / n))%nat as Hd by nia.
  destruct (Nat.eq_0_gt_0_cases (j / n - i / n)) as [Hz|Hz]; nia.
Qed.

(** Most operations leave the queue and its registers alone. *)
Definition same_queue s s' : Prop :=
  s'.(mbx).(tx_queue) = s.(mbx).(tx_queue)
  ∧ s'.(mbx).(user).(etkci_mailbox).(cmd_queue_tail) = s.(mbx).(user).(etkci_mailbox).(cmd_queue_tail)
  ∧ s'.(mbx).(user).(etkci_mailbox).(cmd_csr).(head_csr)
    = s.(mbx).(user).(etkci_mailbox).(cmd_csr).(head_csr)
  ∧ queued s' = queued s.

Lemma fifo_same l s s' :
  fifo l s → same_queue s s' →
  (is_Some s'.(mbx).(tx_queue_lock) → is_Some s.(mbx).(tx_queue_lock)
     ∨ (length (queued s) < length l + n)%nat) →
  fifo l s'.
Proof.
  intros [Hl []] (Hq & Ht & Hh & Hs) Hr. constructor; rewrite Hs; [done|].
  constructor; rewrite ?Hq, ?Ht, ?Hh; try done. intros Hx. destruct (Hr Hx); auto.
Qed.

Lemma queued_log s i p rest m e :
  m.(trace) = s.(mbx).(trace) ++ [e] → queued_cmd e = None → queued (after s i p rest m) = queued s.
Proof.
  intros Ht He. unfold queued. simpl. rewrite Ht, omap_app. simpl. by rewrite He, app_nil_r.
Qed.

Lemma fifo_enqueue l s i cmd d p m :
  kci_inv s → fifo l s → s.(threads) !! i = Some [Enqueue cmd d] →
  exec i (Enqueue cmd d) s.(mbx) = Ok (p, m) → fifo l (after s i p [] m).
Proof.
  intros Hk Hf Hi Hx. simpl in Hx. unfold gcip_mailbox_enqueue_cmd in Hx.
  destruct (s.(mbx).(tx_queue_lock)) eqn:Hlock; [done|].
  destruct (inv_user _ (ki_inv _ _ _ _ Hk)) as (Hsz & Hn & _).
  set (ret := wait_for_tx_queue_not_full _) in Hx.
  destruct (negb (ret =? 0)) eqn:Hret.
  { injection Hx as _ <-. apply (fifo_same l s); [done|done|]. simpl. by left. }
  apply negb_false_iff, Z.eqb_eq in Hret.
  assert (length (queued s) < length l + n)%nat as Hroom.
  { subst ret. simpl in Hret. unfold gcip_kci_wait_for_cmd_queue_not_full in Hret.
    destruct (Z.eqb_spec s.(mbx).(user).(etkci_mailbox).(cmd_csr).(head_csr)
      (Z.lxor s.(mbx).(user).(etkci_mailbox).(cmd_queue_tail) CIRC_QUEUE_WRAP_BIT)) as [He|He]; [done|].
    destruct Hf as [_ Hw]. rewrite (wi_tail _ _ _ _ Hw), (wi_head _ _ _ _ Hw) in He.
    pose proof (wi_range _ _ _ _ Hw). rewrite wrap_bit_pow in He.
    rewrite full_index in He by (change (2 ^ 10) with 1024; lia). lia. }
  assert (same_queue s (after s i p [] m)) as Hsame; [|apply (fifo_same l s); auto].
  apply outcome_bind_Ok in Hx as (w & Hw & Hx). destruct (w.(resp)) as [r|]; [|by injection Hx as _ <-].
  apply outcome_bind_Ok in Hx as ([ret' m'] & Hx' & Hx).
  unfold gcip_mailbox_push_wait_resp in Hx'. apply outcome_bind_Ok in Hx' as (w' & _ & Hx').
  apply outcome_bind_Ok in Hx' as (r' & _ & Hx'). simpl in Hx'.
  destruct (negb (memory_left _)).
  { injection Hx' as <- <-. injection Hx as _ <-. by destruct d. }
  destruct d as [t|a]; simpl in Hx'.
  - injection Hx' as <- <-. by injection Hx as _ <-.
  - destruct (inv_alone _ (ki_inv _ _ _ _ Hk) i _ (Enqueue cmd (InAwaiter a)) Hi ltac:(left) eq_refl).
    destruct (ki_thread _ _ _ _ Hk i _ Hi eq_refl) as (? & _ & [=] & _).
Qed.

Lemma fifo_enqueue_copy l s i cmd d p m :
  kci_inv s → fifo l s → s.(threads) !! i = Some [Enqueue_copy cmd d] →
  exec i (Enqueue_copy cmd d) s.(mbx) = Ok (p, m) → fifo l (after s i p [] m).
Proof.
  intros Hk [Hl Hw] Hi Hx. simpl in Hx. unfold enqueue_copy in Hx.
  destruct (inv_user _ (ki_inv _ _ _ _ Hk)) as (Hsz & Hn & _).
  destruct (inv_queue _ (ki_inv _ _ _ _ Hk)) as [Hwb Hlen].
  assert (is_Some s.(mbx).(tx_queue_lock)) as Hlock.
  { exists i. apply (inv_lock _ (ki_inv _ _ _ _ Hk)). eauto. }
  pose proof (wi_room _ _ _ _ Hw Hlock) as Hroom. pose proof (wi_range _ _ _ _ Hw) as Hrange.
  set (t := length (queued s)) in *. set (h := length l) in *.
  assert (CIRC_QUEUE_REAL_INDEX (get_tx_queue_tail s.(mbx).(user)) s.(mbx).(queue_wrap_bit)
          = Z.of_nat t mod Z.of_nat n) as Hidx.
  { simpl. rewrite Hwb, (wi_tail _ _ _ _ Hw), wrap_bit_pow. apply index_real; [lia|].
    change (2 ^ 10) with 1024. lia. }
  rewrite Hidx, mod_nat in Hx. case_decide; [|done]. simpl in Hx.
  rewrite (ki_mode _ _ _ _ Hk) in Hx. simpl in Hx. apply outcome_bind_Ok in Hx as (w & _ & Hx).
  injection Hx as _ <-. set (m := set_tx_queue_lock None _).
  assert (queued (after s i p [] m) = queued s ++ [cmd]) as Hq.
  { unfold queued. simpl. rewrite omap_app. done. }
  assert (length (queued s ++ [cmd]) = S t) as Hlen' by (rewrite length_app; simpl; lia).
  constructor; rewrite Hq.
  - rewrite take_app_le by lia. done.
  - rewrite Hlen'. constructor.
    + simpl. rewrite Hsz, (wi_tail _ _ _ _ Hw), kci_inc by done. f_equal. lia.
    + apply (wi_head _ _ _ _ Hw).
    + fold h. lia.
    + simpl. by intros [].
    + intros j Hj. simpl. fold h in Hj. destruct (decide (j = t)) as [->|Hne].
      * rewrite list_lookup_insert_eq; [by rewrite list_lookup_middle|].
        rewrite Hlen. apply Nat.mod_upper_bound. lia.
      * rewrite list_lookup_insert_ne by (apply not_eq_sym, (mod_window h); lia).
        rewrite lookup_app_l by (fold t; lia). apply (wi_slots _ _ _ _ Hw). fold h t. lia.
Qed.

Lemma fifo_run l s i o rest p m :
  kci_inv s → fifo l s → s.(threads) !! i = Some (o :: rest) → exec i o s.(mbx) = Ok (p, m) →
  fifo l (after s i p rest m).
Proof.
  intros Hk Hf Hi Hx.
  destruct (ki_ops _ _ _ _ Hk _ o (list_elem_of_lookup_2 _ _ _ Hi) ltac:(left)) as [Ha|(r & -> & _)].
  - pose proof (inv_alone _ (ki_inv _ _ _ _ Hk) i _ o Hi ltac:(left) Ha) as Heq. injection Heq as ->.
    destruct (ki_thread _ _ _ _ Hk i o Hi Ha) as (w & Hw & Hok & _). destruct o; try done.
    + by eapply fifo_enqueue.
    + by eapply fifo_enqueue_copy.
    + simpl in Hx. destruct Hok as [-> _]. rewrite Hw in Hx. simpl in Hx.
      destruct (waiting w); [done|]. injection Hx as _ <-. by apply (fifo_same l s); auto.
    + simpl in Hok. subst t. apply outcome_bind_Ok in Hx as ([removed m1] & Hd & Hx).
      injection Hx as _ <-. destruct (kci_del _ _ _ s i removed m1 Hk Hi Hd) as [l' ->].
      by apply (fifo_same l s); auto.
    + simpl in Hok. destruct Hok as [-> _]. simpl in Hx. unfold send_return in Hx. rewrite Hw in Hx.
      simpl in Hx. injection Hx as _ <-. unfold edgetpu_kci_on_error.
      apply (fifo_same l s); [done| |].
      * split_and!; try (by repeat case_match).
        apply (queued_log s _ _ _ _ (Sent i ret (resp w))); [by repeat case_match|done].
      * left. by repeat case_match.
  - simpl in Hx. unfold gcip_mailbox_handle_rx_elem in Hx. simpl in Hx.
    destruct (gcip_kci_is_rx_elem_reversed r).
    { injection Hx as _ <-. by apply (fifo_same l s); auto. }
    unfold gcip_mailbox_handle_response in Hx.
    pose proof (find_waiter_spec s.(mbx) r s.(mbx).(wait_list) (inv_elem _ (ki_inv _ _ _ _ Hk))) as Hfw.
    apply outcome_bind_Ok in Hx as (f & Hfe & Hx). rewrite Hfe in Hfw. simpl in Hfw.
    destruct f as [[e l']|]; [|injection Hx as _ <-; by apply (fifo_same l s); auto].
    destruct Hfw as (l1 & l2 & Hl & -> & _).
    destruct (kci_elem _ _ _ s e Hk ltac:(rewrite Hl; set_solver)) as [t ->].
    simpl in Hx. injection Hx as _ <-. by apply (fifo_same l s); auto.
Qed.

(** ** Moves *)

Lemma omap_window {A} (f : Z → option A) (q : list A) h c :
  (∀ i, (i < c)%nat → f (Z.of_nat i) = q !! (h + i)%nat) → (h + c ≤ length q)%nat →
  omap f (seqZ 0 (Z.of_nat c)) = take c (drop h q).
Proof.
  induction c as [|c IH]; intros Hf Hc; [done|].
  destruct (lookup_lt_is_Some_2 q (h + c)%nat) as [x Hx]; [lia|].
  rewrite (take_S_r _ _ x) by (by rewrite lookup_drop).
  rewrite <- IH; [|intros; apply Hf; lia|lia].
  replace (Z.of_nat (S c)) with (Z.of_nat c + 1) by lia. rewrite seqZ_app by lia.
  assert (seqZ (0 + Z.of_nat c) 1 = [Z.of_nat c]) as -> by (by rewrite seqZ_cons, seqZ_nil by lia).
  apply omap_snoc. by rewrite Hf by lia.
Qed.

Lemma fifo_consume l s c :
  kci_inv s → fifo l s → kci_allowed (Kci_consume c) s = true →
  fifo (l ++ firmware_reads c s)
    (set_mbx (set_user (firmware_consumes c s.(mbx).(user)) s.(mbx)) s).
Proof.
  intros Hk [Hl Hw] Hal. apply andb_true_iff in Hal as [H0 Hc].
  apply Z.leb_le in H0. apply Z.leb_le in Hc.
  destruct (inv_user _ (ki_inv _ _ _ _ Hk)) as (Hsz & Hn & _).
  assert (0 < Z.of_nat n < 2 ^ 10) as Hn' by (change (2 ^ 10) with 1024; lia).
  pose proof (wi_range _ _ _ _ Hw) as Hrange.
  set (t := length (queued s)) in *. set (h := length l) in *.
  rewrite Hsz, (wi_tail _ _ _ _ Hw), (wi_head _ _ _ _ Hw), wrap_bit_pow, cnt_index in Hc by lia.
  assert (firmware_reads c s = take (Z.to_nat c) (drop h (queued s))) as Hreads.
  { unfold firmware_reads. rewrite Hsz, (wi_head _ _ _ _ Hw), wrap_bit_pow.
    rewrite <- (Z2Nat.id c) at 1 by lia. apply omap_window; [|fold t; lia]. intros i Hi.
    rewrite inc_index, index_real by lia. rewrite <- Nat2Z.inj_add, mod_nat.
    apply (wi_slots _ _ _ _ Hw). fold h t. lia. }
  assert (l ++ firmware_reads c s = take (h + Z.to_nat c) (queued s)) as Heq.
  { rewrite Hreads, Hl. fold h. by rewrite take_take_drop. }
  assert (length (l ++ firmware_reads c s) = h + Z.to_nat c)%nat as Hlen.
  { rewrite Heq, length_take. fold t. lia. }
  constructor; rewrite Hlen; [done|]. constructor; try apply Hw.
  - simpl. rewrite Hsz, (wi_head _ _ _ _ Hw), wrap_bit_pow, inc_index by lia. f_equal. lia.
  - change (length (queued _)) with t. lia.
  - intros Hx. pose proof (wi_room _ _ _ _ Hw Hx). change (length (queued _)) with t. lia.
  - intros i Hi. apply (wi_slots _ _ _ _ Hw). change (length (queued _)) with t in Hi. lia.
Qed.

Lemma fifo_step l s s' mv :
  kci_inv s → fifo l s → kci_allowed mv s = true → kci_step mv s = Ok s' →
  fifo (l ++ match mv with Kci_consume c => firmware_reads c s | _ => [] end) s'.
Proof.
  intros Hk Hf Hal Hs. destruct mv; cbn [kci_step] in Hs; try rewrite app_nil_r.
  - unfold gcip_kci_send_cmd, gcip_kci_send_cmd_return_resp in Hs. destruct (is_reverse cmd).
    + injection Hs as <-. by apply (fifo_same l s); auto.
    + injection Hs as <-. by apply (fifo_same l s); auto.
  - injection Hs as <-. by apply (fifo_same l s); auto.
  - injection Hs as <-. by apply fifo_consume.
  - injection Hs as <-. by apply (fifo_same l s); auto.
  - apply outcome_bind_Ok in Hs as ([h v] & _ & Hs). injection Hs as <-.
    by apply (fifo_same l s); auto.
  - injection Hs as <-. by apply (fifo_same l s); auto.
  - simpl in Hs. unfold run_thread in Hs. destruct (s.(threads) !! i) as [[|o rest]|] eqn:Hi.
    + by injection Hs as <-.
    + destruct (exec i o s.(mbx)) as [[p m]| |] eqn:Hx; [|by injection Hs as <-|done].
      injection Hs as <-. by apply (fifo_run l s i o rest p m).
    + by injection Hs as <-.
Qed.

End Fifo.

Section Play.
Context (n : nat) (received : gcip_kci_response_element → Prop).
Implicit Types s : kci_system.

Lemma fifo_play mvs : ∀ b l s,
  kci_inv n received b s → fifo n l s → b + Z.of_nat (length mvs) < 2 ^ 64 →
  kci_disciplined mvs s = true → (∀ r, responded mvs r → received r) →
  ∃ s', kci_play mvs s = Ok s' ∧ fifo n (l ++ taken mvs s) s'.
Proof.
  induction mvs as [|mv mvs IH]; intros b l s Hk Hf Hb Hd Hr.
  { exists s. split; [done|]. by rewrite app_nil_r. }
  destruct (kci_play_ok n received (λ _, True) [mv] b s) as (s1 & Hs1 & Hk1 & _); try done.
  { simpl in *. lia. }
  { simpl in *. apply andb_true_iff in Hd as [-> _]. by destruct (kci_step mv s). }
  { intros r (rs & Hrs & Hin). apply list_elem_of_singleton in Hrs as <-.
    apply Hr. exists rs. split; [left|done]. }
  cbn [kci_play taken] in *. destruct (kci_step mv s) as [s2| |] eqn:Hs2; try done.
  injection Hs1 as ->. simpl in Hd. rewrite Hs2 in Hd. apply andb_true_iff in Hd as [Hal Hd].
  simpl. rewrite app_assoc. apply (IH (b + 1)); try done.
  - by apply (fifo_step n received b).
  - simpl in Hb. lia.
  - intros r (rs & Hrs & Hin). apply Hr. exists rs. split; [by right|done].
Qed.

End Play.
