(* ===== verification/GcipProps.v ===== *)
(** * GCIP: what the mailboxes promise

    The properties of the mailboxes of the accelerators, for every user of them
    that obeys [user_laws] and [match_laws], with the kernel control interface as
    the user of the witnesses. *)

From S2P Require Import Prelude.
From S2P Require Import Interleaving.
From S2P Require Import GcipQueue.
From S2P Require Import GcipMailbox.
From S2P Require Import GcipMailboxInv.
From S2P Require Import GcipMailboxSteps.
From S2P Require Import GcipMailboxMoves.
From S2P Require Import GcipSettle.
From S2P Require Import GcipProgress.
From S2P Require Import GcipKci.
From S2P Require Import GcipKciProps.
From S2P Require Import GcipFetch.
From S2P Require Import GcipKciInv.
From S2P Require Import GcipKciMoves.
From S2P Require Import GcipKciFifo.

(** ** A concrete mailbox *)

Definition ex_response (seq code : Z) : gcip_kci_response_element := KciResponse seq code 0 0.
Definition ex_command (seq : Z) : gcip_kci_command_element := KciCommand seq 3 0 0 0.

Definition ex_kci : gcip_kci :=
  GcipKci
    (EdgetpuMailbox 4 0 4 0 (QueueCsr 0x1000 0 4 0 0) (QueueCsr 0x2000 0 4 0 0) true [0; 0; 0; 0])
    (empty_reverse_kci 2 [ex_response 0 0; ex_response 0 0]) 0 [] 0 false true.

Definition ex_mailbox : gcip_mailbox gcip_kci_command_element gcip_kci_response_element gcip_kci :=
  GcipMailbox kci_mode CIRC_QUEUE_WRAP_BIT 0 (replicate 4 (ex_command 0)) None [] ∅ ∅ ex_kci ∅ [].

Lemma ex_init :
  gcip_mailbox_init kci_mode CIRC_QUEUE_WRAP_BIT (replicate 4 (ex_command 0)) ex_kci
  = (0, Some ex_mailbox).
Proof. reflexivity. Qed.

Lemma ex_kci_ok : kci_ok 4 ex_kci.
Proof.
  unfold kci_ok. simpl. split_and!; [done|lia|lia|by exists 0|].
  split; [exists 1; split; [lia|done]|]. simpl. split_and!; done || lia.
Qed.

(** Two commands: one gets its response although its timer fires, one is cancelled. *)
Definition ex_moves : list (move gcip_kci_command_element gcip_kci_response_element gcip_kci) :=
  [Put_cmd (ex_command 7) (Some (ex_response 0 0)) false; Run 0; Run 0; Run 0;
   Put_cmd (ex_command 8) (Some (ex_response 0 0)) true; Run 1; Run 1; Run 1;
   Timer 0; Responses [ex_response 7 5]; Run 3; Run 2; Run 2; Run 3; Run 3; Run 3; Run 3;
   Cancel 1; Run 4; Run 4; Run 4; User_put 0; Run 5; User_put 1; Run 6].

Lemma ex_disciplined : disciplined ex_moves (boot ex_mailbox) = true.
Proof. vm_compute. reflexivity. Qed.

Lemma ex_moves_ok mv : mv ∈ ex_moves → move_ok (kci_ok 4) mv.
Proof. intros Hmv. unfold ex_moves in Hmv. repeat (apply elem_of_cons in Hmv as [->|Hmv]; [done|]). by apply elem_of_nil in Hmv. Qed.


(** ** Memory and commands *)

Section Promises.
Context {C R H : Type} {ops : gcip_mailbox_ops C R H}.
Context {wrap_bit : Z} {n : nat} {user_ok : H → Prop}.
Context {laws : user_laws ops wrap_bit n user_ok} {key : match_laws ops}.
Implicit Types s : system C R H.

(** What holds after the moves of users that respect the documentation. *)
Definition good s : Prop := (∀ a, settled s a) ∧ receivers s.

Lemma reach md queue h m mvs :
  gcip_mailbox_init md wrap_bit queue h = (0, Some m) → length queue = n → user_ok h →
  disciplined mvs (boot m) = true → (∀ mv, mv ∈ mvs → move_ok user_ok mv) →
  ∃ s, play mvs (boot m) = Ok s ∧ inv wrap_bit n user_ok s ∧ good s.
Proof.
  intros Hi Hn Hu Hd Hm. pose proof (boot_ok md queue h m Hi Hn Hu) as Hb.
  destruct (play_run mvs (boot m) Hb Hd Hm) as (s & Hp & _). exists s. split; [done|].
  apply (play_invariant good mvs (boot m)); try done.
  - intros s0 mv s1 Hinv [H1 H2] Hal Hmv Hs. split.
    + by apply (settled_step s0 mv).
    + by apply (receivers_step s0 mv).
  - split; [intros a; by eapply init_settled|]. intros p Hp'. by apply elem_of_nil in Hp'.
Qed.

(** C3.  In every interleaving of the threads that send, put and cancel commands, of the
    timers, of the responses and of the release of the mailbox which is [disciplined]
    (commands with a timeout have a response, commands in flight have different keys, a
    timer fires once its command is in the queue, users drop and cancel what they hold),
    no memory is used after it is freed, no awaiter is freed while its timer is
    armed, no response is compared with a null one and no command is written past
    the queue: every step has a result, every entry of the list of waiters points
    to memory that lives, and every awaiter that lives is referenced. *)
Theorem gcip_mailbox_safe md queue h m mvs :
  gcip_mailbox_init md wrap_bit queue h = (0, Some m) → length queue = n → user_ok h →
  disciplined mvs (boot m) = true → (∀ mv, mv ∈ mvs → move_ok user_ok mv) →
  ∃ s, play mvs (boot m) = Ok s
    ∧ (∀ e, e ∈ s.(mbx).(wait_list) → is_Some (deref e.(we_async_resp) s.(mbx)))
    ∧ (∀ a w, s.(mbx).(awaiters) !! a = Some w → 0 < w.(kref)).
Proof.
  intros Hi Hn Hu Hd Hm. destruct (reach md queue h m mvs Hi Hn Hu Hd Hm) as (s & Hp & Hinv & _).
  exists s. split; [done|]. split.
  - intros e He. destruct (inv_elem _ Hinv e He) as (_ & w & r & -> & _). eauto.
  - intros a w Hw. pose proof (inv_refs _ Hinv a) as Hr. rewrite Hw in Hr. lia.
Qed.

(** C16.  No awaiter leaks: once every thread is done, no command waits and no timer
    is armed, the awaiters allocated are those whose reference the user holds. *)
Theorem gcip_mailbox_no_leak md queue h m mvs s :
  gcip_mailbox_init md wrap_bit queue h = (0, Some m) → length queue = n → user_ok h →
  disciplined mvs (boot m) = true → (∀ mv, mv ∈ mvs → move_ok user_ok mv) →
  play mvs (boot m) = Ok s →
  (∀ p, p ∈ s.(threads) → p = []) → s.(mbx).(wait_list) = [] →
  (∀ a w, s.(mbx).(awaiters) !! a = Some w → w.(timeout_work) ≠ WorkPending) →
  ∀ a, match s.(mbx).(awaiters) !! a with
       | Some w => a ∈ s.(mbx).(owned) ∧ w.(kref) = 1
       | None => a ∉ s.(mbx).(owned)
       end.
Proof.
  intros Hi Hn Hu Hd Hm Hp Ht Hl Hw a.
  destruct (reach md queue h m mvs Hi Hn Hu Hd Hm) as (s' & Hp' & Hinv & _).
  rewrite Hp in Hp'. injection Hp' as <-.
  pose proof (inv_refs _ Hinv a) as Hr.
  assert (refs a s = one (a ∈ s.(mbx).(owned))) as Heq.
  { unfold refs. assert (held a s = 0%nat) as ->.
    { apply cnt_zero. intros p Hpt. by rewrite (Ht p Hpt). }
    unfold listed_refs, timer_ref. rewrite Hl. simpl.
    destruct (s.(mbx).(awaiters) !! a) as [w|] eqn:Ha; [|lia].
    rewrite (one_no (timeout_work w = WorkPending)); [lia|]. by eapply Hw. }
  destruct (s.(mbx).(awaiters) !! a) as [w|].
  - destruct (decide (a ∈ s.(mbx).(owned))) as [Ho|Ho].
    + rewrite one_yes in Heq by done. split; [done|lia].
    + rewrite one_no in Heq by done. lia.
  - intros Ho. rewrite one_yes in Heq by done. lia.
Qed.

(** C4.  In every interleaving that is [disciplined], where above all no timer fires
    before its command is in the queue ([gcip_early_timeout] is about one that does), the
    response of an asynchronous command arrives, or it times out, is cancelled, flushed
    or refused: never two of them, however they race; and once the threads are done
    exactly one of them, unless it still waits. *)
Theorem gcip_settled_once md queue h m mvs :
  gcip_mailbox_init md wrap_bit queue h = (0, Some m) → length queue = n → user_ok h →
  disciplined mvs (boot m) = true → (∀ mv, mv ∈ mvs → move_ok user_ok mv) →
  ∃ s, play mvs (boot m) = Ok s ∧ ∀ a, Submitted a ∈ s.(mbx).(trace) →
    (cnt (settles a) s.(mbx).(trace) ≤ 1)%nat
    ∧ ((∀ p, p ∈ s.(threads) → p = []) →
       cnt (settles a) s.(mbx).(trace) = 1%nat
       ∨ ∃ e, e ∈ s.(mbx).(wait_list) ∧ e.(we_awaiter) = Some a).
Proof.
  intros Hi Hn Hu Hd Hm.
  destruct (reach md queue h m mvs Hi Hn Hu Hd Hm) as (s & Hp & Hinv & Hst & _).
  exists s. split; [done|]. intros a Ha. pose proof (st_token _ _ (Hst a) Ha) as Hk.
  split; [lia|]. intros Ht. unfold pending in Hk.
  assert (cnt (cnt (owes a)) s.(threads) = 0%nat) as H0.
  { apply cnt_zero. intros p Hpt. by rewrite (Ht p Hpt). }
  destruct (decide (listed_refs a s.(mbx) = 0%nat)) as [Hl|Hl]; [left; lia|right].
  destruct (decide (Exists (λ e, e.(we_awaiter) = Some a) s.(mbx).(wait_list))) as [He|He].
  { apply Exists_exists in He as (e & ? & ?). eauto. }
  destruct Hl. apply cnt_zero. intros e Hin. apply one_no. intros Hea. apply He, Exists_exists. eauto.
Qed.

(** C13.  [gcip_mailbox_cancel_awaiter] does not wait for ever: when it finds that
    others have taken an awaiter that was neither cancelled nor flushed before, its
    completion is done, or the thread that has it to do gets there by itself. *)
Theorem gcip_cancel_wait_ends md queue h m mvs s i a rest :
  gcip_mailbox_init md wrap_bit queue h = (0, Some m) → length queue = n → user_ok h →
  disciplined mvs (boot m) = true → (∀ mv, mv ∈ mvs → move_ok user_ok mv) →
  play mvs (boot m) = Ok s → s.(threads) !! i = Some (Cancel_wait a :: rest) →
  Submitted a ∈ s.(mbx).(trace) → Cancelled a true ∉ s.(mbx).(trace) →
  Flushed a ∉ s.(mbx).(trace) →
  ∃ j k s' w, play (replicate k (Run j)) s = Ok s' ∧ s'.(mbx).(awaiters) !! a = Some w
    ∧ w.(handled) = true.
Proof.
  intros Hi Hn Hu Hd Hm Hp Ht Hs Hc Hf.
  destruct (reach md queue h m mvs Hi Hn Hu Hd Hm) as (s' & Hp' & Hinv & Hst & Hrc).
  rewrite Hp in Hp'. injection Hp' as <-.
  destruct (mentioned_live _ _ _ a Hinv Ht) as (w & Hw & _); [counts|].
  destruct (handled_soon s i a rest w Hinv (Hst a) Ht Hs Hw Hc Hf) as [Hh|(j & p & Hj & Hin)].
  - by exists i, 0%nat, s, w.
  - destruct (complete_all_runs _ a s j p w Hinv Hj (Hrc _ (list_elem_of_lookup_2 _ _ _ Hj)) Hin Hw
                (le_n _)) as (k & s' & w' & H1 & H2 & H3).
    by exists j, k, s', w'.
Qed.

End Promises.

Lemma gcip_mailbox_safe_witness : ∃ s, play ex_moves (boot ex_mailbox) = Ok s
  ∧ (∀ e, e ∈ s.(mbx).(wait_list) → is_Some (deref e.(we_async_resp) s.(mbx)))
  ∧ (∀ a w, s.(mbx).(awaiters) !! a = Some w → 0 < w.(kref)).
Proof.
  apply (gcip_mailbox_safe kci_mode (replicate 4 (ex_command 0)) ex_kci ex_mailbox ex_moves
           ex_init eq_refl ex_kci_ok ex_disciplined ex_moves_ok).
Defined.

(** The same moves, with an awaiter that its user keeps. *)
Definition ex_kept : list (move gcip_kci_command_element gcip_kci_response_element gcip_kci) :=
  [Put_cmd (ex_command 7) (Some (ex_response 0 0)) false; Run 0; Run 0; Run 0;
   Responses [ex_response 7 5]; Run 1; Run 1; Run 1; Run 1; Run 1; Run 1].

Lemma gcip_mailbox_no_leak_witness :
  ∃ s, play ex_kept (boot ex_mailbox) = Ok s ∧
    match s.(mbx).(awaiters) !! 0%nat with
    | Some w => 0%nat ∈ s.(mbx).(owned) ∧ w.(kref) = 1
    | None => 0%nat ∉ s.(mbx).(owned)
    end.
Proof.
  eexists. split; [vm_compute; reflexivity|].
  apply (gcip_mailbox_no_leak kci_mode (replicate 4 (ex_command 0)) ex_kci ex_mailbox ex_kept _
           ex_init eq_refl ex_kci_ok).
  - vm_compute. reflexivity.
  - intros mv Hmv. unfold ex_kept in Hmv.
    repeat (apply elem_of_cons in Hmv as [->|Hmv]; [done|]). by apply elem_of_nil in Hmv.
  - vm_compute. reflexivity.
  - intros p Hp. simpl in Hp. repeat (apply elem_of_cons in Hp as [->|Hp]; [done|]).
    by apply elem_of_nil in Hp.
  - reflexivity.
  - intros a w Hw. apply elem_of_map_to_list in Hw. revert Hw. vm_compute. intros Hw.
    apply list_elem_of_singleton in Hw. by injection Hw as _ ->.
Defined.

Lemma gcip_settled_once_witness : ∃ s, play ex_moves (boot ex_mailbox) = Ok s
  ∧ ∀ a, Submitted a ∈ s.(mbx).(trace) →
    (cnt (settles a) s.(mbx).(trace) ≤ 1)%nat
    ∧ ((∀ p, p ∈ s.(threads) → p = []) →
       cnt (settles a) s.(mbx).(trace) = 1%nat
       ∨ ∃ e, e ∈ s.(mbx).(wait_list) ∧ e.(we_awaiter) = Some a).
Proof.
  apply (gcip_settled_once kci_mode (replicate 4 (ex_command 0)) ex_kci ex_mailbox ex_moves
           ex_init eq_refl ex_kci_ok ex_disciplined ex_moves_ok).
Defined.

(** The command 0 is cancelled while the thread 1 handles its response. *)
Definition ex_race : list (move gcip_kci_command_element gcip_kci_response_element gcip_kci) :=
  [Put_cmd (ex_command 7) (Some (ex_response 0 0)) true; Run 0; Run 0; Run 0;
   Responses [ex_response 7 5]; Run 1; Cancel 0; Run 2; Run 2].

Lemma gcip_cancel_wait_ends_witness :
  ∃ s, play ex_race (boot ex_mailbox) = Ok s ∧
    ∃ j k s' w, play (replicate k (Run j)) s = Ok s' ∧ s'.(mbx).(awaiters) !! 0%nat = Some w
      ∧ w.(handled) = true.
Proof.
  eexists. split; [vm_compute; reflexivity|].
  apply (gcip_cancel_wait_ends kci_mode (replicate 4 (ex_command 0)) ex_kci ex_mailbox ex_race _
           2 0 [] ex_init eq_refl ex_kci_ok).
  - vm_compute. reflexivity.
  - intros mv Hmv. unfold ex_race in Hmv.
    repeat (apply elem_of_cons in Hmv as [->|Hmv]; [done|]). by apply elem_of_nil in Hmv.
  - vm_compute. reflexivity.
  - reflexivity.
  - simpl. left.
  - simpl. intros Hin. repeat (apply elem_of_cons in Hin as [Hin|Hin]; [done|]).
    by apply elem_of_nil in Hin.
  - simpl. intros Hin. repeat (apply elem_of_cons in Hin as [Hin|Hin]; [done|]).
    by apply elem_of_nil in Hin.
Defined.

(** C15.  Fetching ends, and returns the responses that the firmware has put in the
    queue since the last time, each once and in their order, up to the last tail
    read (or to the tail when memory ran out); the head moves past exactly these. *)
Theorem gcip_fetch_responses_all {C R H} {ops : gcip_mailbox_ops C R H}
    k size h T Q r csr alloc elem_size fuel (m : gcip_mailbox C R H) :
  0 <= k < 32 → 0 < size < 2 ^ k → 0 <= h → 0 <= elem_size → size * elem_size < 2 ^ 32 →
  m.(queue_wrap_bit) = 2 ^ k → get_rx_queue_size m.(user) = size →
  get_rx_queue_head m.(user) = circ_index size (2 ^ k) h →
  (match is_block_off with Some f => f m.(user) | None => false end) = false →
  firmware_ok size h T Q r → (∀ i, csr i = (circ_index size (2 ^ k) (T i), Q i)) →
  size < Z.of_nat fuel →
  ∃ i N m', gcip_mailbox_fetch_responses fuel csr alloc elem_size true m
            = Ok (r <$> seqZ h (N - h), m')
    ∧ h <= N <= T i ∧ (alloc i = true → N = T i)
    ∧ m' = call (after_fetch_resps ≫= λ f, Some (f (N - h)))
             (set_user (inc_rx_queue_head (N - h) m.(user)) m).
Proof.
  intros Hk Hs Hh He0 He Hwb Hsz Hhd Hoff Hfw Hcsr Hf.
  destruct (fetch_loop_all k size h Hk Hs T Q r Hfw fuel csr alloc elem_size 0 h)
    as (i & N & Hl & HN & Hlast); try done; try lia.
  { pose proof (fw_first _ _ _ _ _ Hfw). lia. }
  unfold gcip_mailbox_fetch_responses. rewrite Hoff, Hwb, Hsz, Hhd. cbn [orb negb].
  replace (h - h) with 0 in Hl by lia. rewrite seqZ_nil in Hl by lia. cbn [fmap list_fmap] in Hl.
  rewrite Hl. simpl. eexists i, N, _. split; [done|]. split; [done|]. split; [done|].
  rewrite length_fmap, length_seqZ. by rewrite Z2Nat.id by lia.
Qed.

(** A firmware that has one response in the queue first, and another one later. *)
Definition ex_tails (i : nat) : Z := if (i =? 0)%nat then 1 else 2.
Definition ex_rx_queue : list gcip_kci_response_element :=
  [ex_response 7 5; ex_response 8 6; ex_response 0 0; ex_response 0 0].

Lemma gcip_fetch_responses_all_witness :
  ∃ i N m', gcip_mailbox_fetch_responses 8 (λ i, (circ_index 4 (2 ^ 10) (ex_tails i), ex_rx_queue))
              (λ _, true) 24 true ex_mailbox
            = Ok ((λ j, nth (Z.to_nat j) ex_rx_queue (ex_response 0 0)) <$> seqZ 0 (N - 0), m')
    ∧ 0 <= N <= ex_tails i ∧ (true = true → N = ex_tails i)
    ∧ m' = call (after_fetch_resps ≫= λ f, Some (f (N - 0)))
             (set_user (inc_rx_queue_head (N - 0) ex_mailbox.(user)) ex_mailbox).
Proof.
  apply (gcip_fetch_responses_all 10 4 0 ex_tails (λ _, ex_rx_queue)
           (λ j, nth (Z.to_nat j) ex_rx_queue (ex_response 0 0))
           (λ i, (circ_index 4 (2 ^ 10) (ex_tails i), ex_rx_queue)) (λ _, true) 24 8 ex_mailbox);
    try done.
  constructor.
  - done.
  - intros [|i]; done.
  - intros [|i]; done.
  - intros i j Hj. assert (0 <= j < 2) as Hj2 by (destruct i; cbn in Hj; lia).
    assert (j = 0 ∨ j = 1) as [-> | ->] by lia; done.
Defined.

(** ** The kernel control interface *)

(** The driver gave its memory to the queue of commands, and to the buffer of the
    requests, and initialized the interface. *)
Definition kci_setup (queue : list gcip_kci_command_element)
    (buffer : list gcip_kci_response_element) (k : gcip_kci) (s : kci_system) : Prop :=
  (∃ addr m, edgetpu_mailbox_set_queue m GCIP_MAILBOX_CMD_QUEUE addr (Z.of_nat (length queue))
             = (0, k.(etkci_mailbox)))
  ∧ (∃ j, 0 <= j < 32 ∧ Z.of_nat (length buffer) = 2 ^ j)
  ∧ gcip_kci_init queue (Some buffer) (Z.of_nat (length buffer)) k = (0, Some s).

Lemma kci_setup_ok received queue buffer k s :
  kci_setup queue buffer k s →
  kci_inv (length queue) received 0 s ∧ fifo (length queue) [] s.
Proof.
  intros ((addr & m & Hm) & (j & Hj & Hb) & Hi). set (n := length queue) in *.
  unfold edgetpu_mailbox_set_queue, gcip_valid_circ_queue_size in Hm.
  destruct (Z.eqb_spec (Z.of_nat n) 0) as [|Hn0]; [done|]. cbn [orb] in Hm.
  destruct (Z.ltb_spec (CIRC_QUEUE_MAX_SIZE CIRC_QUEUE_WRAP_BIT) (Z.of_nat n)) as [|Hn1]; [done|].
  change (CIRC_QUEUE_MAX_SIZE CIRC_QUEUE_WRAP_BIT) with 1023 in Hn1. cbn [negb] in Hm.
  destruct (negb (Z.land _ _ =? 0)); [done|]. injection Hm as Hm.
  assert (kci_ok n (set_rkci (empty_reverse_kci (Z.of_nat (length buffer)) buffer) k)) as Hk.
  { unfold kci_ok. simpl. rewrite <- Hm. simpl. split; [done|]. split; [lia|].
    split; [by exists 0|]. unfold rkci_ok. simpl. split; [eauto|]. split; [lia|]. lia. }
  split; [by apply (kci_init_ok _ _ queue buffer (Z.of_nat (length buffer)) k)|].
  unfold gcip_kci_init, gcip_mailbox_init in Hi. simpl in Hi. injection Hi as <-.
  constructor; [done|]. constructor; simpl; rewrite <- ?Hm; simpl; try done; try lia.
Qed.

(** C5.  Whatever the interleaving of the threads that send commands, of their
    timeouts, of the responses and the requests of the firmware and of the work, the
    interface uses its mailbox as it must, and its memory lives; and a command that
    succeeds with a response returns one that the firmware sent, with the sequence
    number of the command that this very thread queued. *)
Theorem kci_answer queue buffer k s mvs :
  kci_setup queue buffer k s → kci_disciplined mvs s = true →
  Z.of_nat (length mvs) < 2 ^ 64 →
  ∃ s', kci_play mvs s = Ok s' ∧ ∀ t r, Sent t 0 (Some r) ∈ s'.(mbx).(trace) →
    responded mvs r ∧ ∃ cmd, Queued cmd (OnStack t) ∈ s'.(mbx).(trace)
                      ∧ r.(resp_seq) = cmd.(cmd_seq).
Proof.
  intros Hs Hd Hb. destruct (kci_setup_ok (responded mvs) _ _ _ _ Hs) as [Hk _].
  destruct (kci_play_ok (length queue) (responded mvs) (λ _, True) mvs 0 s) as (s' & Hp & Hk' & _); try done.
  exists s'. split; [done|]. intros t r Hr. destruct (ki_sent _ _ _ _ Hk' t r Hr). done.
Qed.

(** C6.  The firmware takes the commands in the order in which the driver queued
    them, each once, and none that was overwritten; the others, not more than the
    queue has elements, wait there. *)
Theorem kci_fifo queue buffer k s mvs :
  kci_setup queue buffer k s → kci_disciplined mvs s = true →
  Z.of_nat (length mvs) < 2 ^ 64 →
  ∃ s' waits, kci_play mvs s = Ok s' ∧ queued s' = taken mvs s ++ waits
    ∧ (length waits ≤ length queue)%nat.
Proof.
  intros Hs Hd Hb. destruct (kci_setup_ok (responded mvs) _ _ _ _ Hs) as [Hk Hf].
  destruct (fifo_play (length queue) (responded mvs) mvs 0 [] s Hk Hf) as (s' & Hp & [Hl Hw]); try done.
  exists s', (drop (length (taken mvs s)) (queued s')). split; [done|]. simpl in Hl, Hw. split.
  - rewrite Hl at 1. by rewrite take_drop.
  - rewrite length_drop. pose proof (wi_range _ _ _ _ _ Hw). lia.
Qed.

(** Two commands: the firmware takes them, sends a request and answers the first
    one; the second one times out. *)
Definition ex_kci_moves : list kci_move :=
  [Kci_send (ex_command 9) (ex_response 0 0); Kci_run 0; Kci_run 0;
   Kci_send (ex_command 9) (ex_response 0 0); Kci_run 1; Kci_run 1; Kci_consume 2;
   Kci_responses [ex_response GCIP_KCI_REVERSE_FLAG 3; ex_response 1 5]; Kci_run 2; Kci_run 2;
   Kci_run 0; Kci_run 0; Kci_expire 1; Kci_run 1; Kci_run 1; Kci_work].

Definition ex_kci_boot : kci_system := boot ex_mailbox.

Lemma ex_setup :
  kci_setup (replicate 4 (ex_command 0)) [ex_response 0 0; ex_response 0 0] ex_kci ex_kci_boot.
Proof.
  split; [exists 0x1000, ex_kci.(etkci_mailbox); reflexivity|].
  split; [exists 1; split; [lia|done]|reflexivity].
Qed.

Lemma kci_answer_witness :
  ∃ s', kci_play ex_kci_moves ex_kci_boot = Ok s'
    ∧ ∀ t r, Sent t 0 (Some r) ∈ s'.(mbx).(trace) →
      responded ex_kci_moves r ∧ ∃ cmd, Queued cmd (OnStack t) ∈ s'.(mbx).(trace)
                                  ∧ r.(resp_seq) = cmd.(cmd_seq).
Proof.
  apply (kci_answer _ _ ex_kci ex_kci_boot ex_kci_moves ex_setup); [vm_compute; reflexivity|done].
Defined.

Lemma kci_fifo_witness :
  ∃ s' waits, kci_play ex_kci_moves ex_kci_boot = Ok s'
    ∧ queued s' = taken ex_kci_moves ex_kci_boot ++ waits ∧ (length waits ≤ 4)%nat.
Proof.
  apply (kci_fifo (replicate 4 (ex_command 0)) _ ex_kci ex_kci_boot ex_kci_moves ex_setup);
    [vm_compute; reflexivity|done].
Defined.

Lemma ex_kci_run :
  match kci_play ex_kci_moves ex_kci_boot with
  | Ok s => s.(mbx).(trace)
      = [Queued (ex_command 1) (OnStack 0); Queued (ex_command 2) (OnStack 1);
         Sent 0 0 (Some (ex_response 1 5)); Sent 1 (- ETIMEDOUT) (Some (ex_response 2 0))]
  | _ => False
  end.
Proof. vm_compute. reflexivity. Qed.

(** C18.  The buffer of the firmware's requests is a bounded queue: a request finds
    room or is refused with [-ENOSPC], and the work hands over all the requests that
    were accepted, each once and in their order. *)
Theorem kci_requests_fifo buffer j evs :
  0 <= j < 32 → Z.of_nat (length buffer) = 2 ^ j →
  ∃ rets handled v q,
    rkci_exec (S (length buffer)) evs (empty_reverse_kci (Z.of_nat (length buffer)) buffer)
    = Ok (rets, handled, v)
    ∧ fifo_exec (length buffer - 1) evs [] = (rets, handled, q) ∧ rkci_elems v = q.
Proof.
  intros Hj Hb. set (v0 := empty_reverse_kci _ _).
  assert (rkci_ok v0) as Hv0.
  { unfold rkci_ok. simpl. split; [eauto|]. split; [lia|]. lia. }
  assert (rkci_elems v0 = []) as He0.
  { unfold rkci_elems, rkci_count. change (_ - _) with 0. by rewrite Zmod_0_l. }
  destruct (rkci_exec_fifo (S (length buffer)) evs v0 Hv0) as (rets & handled & v & Hx & _ & Hq).
  { simpl. lia. }
  exists rets, handled, v, (rkci_elems v). split; [done|]. split; [|done].
  rewrite <- Hq, He0. f_equal. simpl. lia.
Qed.

Lemma kci_requests_fifo_witness :
  ∃ rets handled v q,
    rkci_exec 3 [Request (ex_response 0 1); Request (ex_response 0 2); Work]
      (empty_reverse_kci 2 [ex_response 0 0; ex_response 0 0]) = Ok (rets, handled, v)
    ∧ fifo_exec 1 [Request (ex_response 0 1); Request (ex_response 0 2); Work] []
      = (rets, handled, q) ∧ rkci_elems v = q.
Proof.
  apply (kci_requests_fifo [ex_response 0 0; ex_response 0 0] 1); [lia|done].
Defined.

(** ** A timer that is early *)

(** A mailbox that numbers its commands itself. *)
Definition ex_seq_mailbox :
    gcip_mailbox gcip_kci_command_element gcip_kci_response_element gcip_kci :=
  GcipMailbox (Z.lor GCIP_MAILBOX_MODE_TX_CMD GCIP_MAILBOX_MODE_RX_RSP) CIRC_QUEUE_WRAP_BIT 0
    (replicate 4 (ex_command 0)) None [] ∅ ∅ ex_kci ∅ [].

(** The command 0 waits; the timer of the command 1 fires while its thread still
    waits to put it in the queue; both are answered. *)
Definition ex_early : list (move gcip_kci_command_element gcip_kci_response_element gcip_kci) :=
  [Put_cmd (ex_command 0) (Some (ex_response 0 0)) true; Run 0; Run 0; Run 0;
   Put_cmd (ex_command 0) (Some (ex_response 0 0)) false; Timer 1; Run 2; Run 2; Run 2; Run 2;
   Run 1; Run 1; Run 1;
   Responses [ex_response 0 5; ex_response 1 6]; Run 3; Run 3; Run 3; Run 3; Run 3; Run 3].

(** The timer of an asynchronous command is armed before the command is put in
    the queue.  One that fires before has no number yet: its awaiter takes the entry
    of the command that has the number 0 out of the list, times out, and is then
    queued and answered all the same, while the response of the other command is
    dropped, which never ends. *)
Theorem gcip_early_timeout :
  disciplined ex_early (boot ex_seq_mailbox) = false ∧
  match play ex_early (boot ex_seq_mailbox) with
  | Ok s => Timedout 1 ∈ s.(mbx).(trace) ∧ Arrived 1 ∈ s.(mbx).(trace)
      ∧ Submitted 0 ∈ s.(mbx).(trace) ∧ cnt (settles 0) s.(mbx).(trace) = 0%nat
      ∧ s.(mbx).(wait_list) = [] ∧ s.(threads) = [[]; []; []; []]
  | _ => False
  end.
Proof.
  split; [vm_compute; reflexivity|]. vm_compute.
  split; [by repeat (left || right)|]. split; [by repeat (left || right)|].
  split; [by repeat (left || right)|]. done.
Qed.
