(* ===== verification/IifTable.v ===== *)
(** * Inter-IP fences: the fence table

    Model of [gcip-kernel-driver/drivers/gcip/iif/iif-fence-table.c] and of the
    layout in [iif-shared.h].  The table is shared with the firmware of every IP (a
    block of the SoC): the kernel writes who waits for a fence, the signalers how
    many signals remain.  The functions are on the entry of their fence.

    Theorem: an error code survives the table as an error, and a second trip
    changes nothing ([iif_error_codes]). *)

From S2P Require Import Prelude.

Definition IIF_NUM_FENCES_PER_IP : Z := 1024.
Definition IIF_NUM_SYNC_POINTS : Z := 3.
Definition IIF_WAIT_TABLE_SYNC_POINT_COUNT_ALL : Z := 0xFF.
Definition IIF_SIGNAL_TABLE_MAX_TIMELINE : Z := 0xFF.

(** [enum iif_ip_type]: DSP, TPU, GPU, AP, IRIS, AOC. *)
Definition IIF_IP_AP : Z := 3.
Definition IIF_IP_NUM : Z := 6.
Definition IIF_IP_RESERVED : Z := 16.

Inductive iif_fence_signaler_type := IIF_FENCE_SIGNALER_TYPE_IP | IIF_FENCE_SIGNALER_TYPE_UNKNOWN.
Inductive iif_fence_type :=
  IIF_FENCE_TYPE_SINGLE_SHOT | IIF_FENCE_TYPE_REUSABLE | IIF_FENCE_TYPE_UNKNOWN.
#[global] Instance iif_fence_type_eq_dec : EqDecision iif_fence_type.
Proof. solve_decision. Defined.

(** ** Error codes *)

Inductive iif_signal_table_fence_error :=
| IIF_ERROR_OK | IIF_ERROR_CANCELLED | IIF_ERROR_UNKNOWN | IIF_ERROR_INVALID_ARGUMENT
| IIF_ERROR_DEADLINE_EXCEEDED | IIF_ERROR_NOT_FOUND | IIF_ERROR_ALREADY_EXISTS
| IIF_ERROR_PERMISSION_DENIED | IIF_ERROR_RESOURCE_EXHAUSTED | IIF_ERROR_FAILED_PRECONDITION
| IIF_ERROR_ABORTED | IIF_ERROR_OUT_OF_RANGE | IIF_ERROR_UNIMPLEMENTED | IIF_ERROR_INTERNAL
| IIF_ERROR_UNAVAILABLE | IIF_ERROR_DATA_LOSS | IIF_ERROR_UNAUTHENTICATED.
#[global] Instance iif_error_eq_dec : EqDecision iif_signal_table_fence_error.
Proof. solve_decision. Defined.

(** The values of the enumeration, as they are in a byte of the table. *)
Definition iif_errors : list iif_signal_table_fence_error :=
  [IIF_ERROR_OK; IIF_ERROR_CANCELLED; IIF_ERROR_UNKNOWN; IIF_ERROR_INVALID_ARGUMENT;
   IIF_ERROR_DEADLINE_EXCEEDED; IIF_ERROR_NOT_FOUND; IIF_ERROR_ALREADY_EXISTS;
   IIF_ERROR_PERMISSION_DENIED; IIF_ERROR_RESOURCE_EXHAUSTED; IIF_ERROR_FAILED_PRECONDITION;
   IIF_ERROR_ABORTED; IIF_ERROR_OUT_OF_RANGE; IIF_ERROR_UNIMPLEMENTED; IIF_ERROR_INTERNAL;
   IIF_ERROR_UNAVAILABLE; IIF_ERROR_DATA_LOSS; IIF_ERROR_UNAUTHENTICATED].

Definition error_byte (e : iif_signal_table_fence_error) : Z :=
  match list_find (e =.) iif_errors with Some (i, _) => Z.of_nat i | None => 0 end.

Definition iif_fence_table_to_signal_table_error_code (errno : Z) : iif_signal_table_fence_error :=
  let among := existsb (λ e, errno =? - e) in
  if errno =? 0 then IIF_ERROR_OK
  else if among [ECANCELED] then IIF_ERROR_CANCELLED
  else if among [EINVAL; EFAULT] then IIF_ERROR_INVALID_ARGUMENT
  else if among [ETIME; ETIMEDOUT] then IIF_ERROR_DEADLINE_EXCEEDED
  else if among [ENOENT; ENODEV] then IIF_ERROR_NOT_FOUND
  else if among [EEXIST] then IIF_ERROR_ALREADY_EXISTS
  else if among [EACCES] then IIF_ERROR_PERMISSION_DENIED
  else if among [ENOMEM; ENOSPC] then IIF_ERROR_RESOURCE_EXHAUSTED
  else if among [EBUSY] then IIF_ERROR_FAILED_PRECONDITION
  else if among [EDEADLK; EOWNERDEAD; EALREADY] then IIF_ERROR_ABORTED
  else if among [ERANGE; EOVERFLOW] then IIF_ERROR_OUT_OF_RANGE
  else if among [EOPNOTSUPP] then IIF_ERROR_UNIMPLEMENTED
  else if among [EIO] then IIF_ERROR_INTERNAL
  else if among [EAGAIN] then IIF_ERROR_UNAVAILABLE
  else if among [EBADMSG; ENOTRECOVERABLE] then IIF_ERROR_DATA_LOSS
  else if among [EPERM] then IIF_ERROR_UNAUTHENTICATED
  else IIF_ERROR_UNKNOWN.

(** A byte that is not in the enumeration takes the default. *)
Definition iif_fence_table_to_linux_error_code (status : Z) : Z :=
  match iif_errors !! Z.to_nat status with
  | Some IIF_ERROR_OK => 0
  | Some IIF_ERROR_CANCELLED => - ECANCELED
  | Some IIF_ERROR_INVALID_ARGUMENT => - EINVAL
  | Some IIF_ERROR_DEADLINE_EXCEEDED => - ETIMEDOUT
  | Some IIF_ERROR_NOT_FOUND => - ENOENT
  | Some IIF_ERROR_ALREADY_EXISTS => - EEXIST
  | Some IIF_ERROR_PERMISSION_DENIED => - EACCES
  | Some (IIF_ERROR_RESOURCE_EXHAUSTED | IIF_ERROR_FAILED_PRECONDITION | IIF_ERROR_ABORTED) =>
      - EBUSY
  | Some IIF_ERROR_OUT_OF_RANGE => - ERANGE
  | Some IIF_ERROR_UNIMPLEMENTED => - EOPNOTSUPP
  | Some IIF_ERROR_UNAVAILABLE => - EAGAIN
  | Some IIF_ERROR_UNAUTHENTICATED => - EPERM
  | _ => - EIO
  end.

(** ** Entries *)

(** Sync points are pairs of a timeline and a count. *)
Record iif_wait_table_entry := WaitEntry {
  waiting_ips : Z;
  wait_flag : Z;
  sync_points : list (Z * Z)
}.

(** [remaining] is the 16-bit union of [remaining_signals] and of [timeline], its
    low byte; [st_timeout] is also [reserved_0]. *)
Record iif_signal_table_entry := SignalEntry {
  remaining : Z;
  signal_flag : Z;
  st_timeout : Z;
  st_error : Z
}.

Definition st_timeline (s : iif_signal_table_entry) : Z := u8 s.(remaining).

Definition IIF_SIGNAL_TABLE_FLAG_ERROR : Z := 1.
Definition IIF_WAIT_TABLE_FLAG_REUSABLE : Z := 1.

(** Both entries of a fence. *)
Record table_entry := TableEntry {
  wt : iif_wait_table_entry;
  st : iif_signal_table_entry
}.

Definition iif_fence_table_init_single_shot_fence_entry (total_signalers waiters : Z)
    (e : table_entry) : table_entry :=
  TableEntry (WaitEntry (u8 waiters) 0 e.(wt).(sync_points))
    (SignalEntry (u16 total_signalers) 0 e.(st).(st_timeout) 0).

Definition set_timeline_byte (v : Z) (s : iif_signal_table_entry) : iif_signal_table_entry :=
  SignalEntry (s.(remaining) - u8 s.(remaining) + u8 v) s.(signal_flag) s.(st_timeout) s.(st_error).

Definition iif_fence_table_init_reusable_fence_entry (timeout waiters : Z)
    (e : table_entry) : table_entry :=
  let s := set_timeline_byte 0 e.(st) in
  TableEntry (WaitEntry (u8 waiters) IIF_WAIT_TABLE_FLAG_REUSABLE [(0, 0); (0, 0); (0, 0)])
    (SignalEntry s.(remaining) 0 (u8 timeout) 0).

Definition iif_fence_table_set_waiting_ip (ip : Z) (e : table_entry) : table_entry :=
  TableEntry (WaitEntry (u8 (Z.lor e.(wt).(waiting_ips) (Z.shiftl 1 ip))) e.(wt).(wait_flag)
                e.(wt).(sync_points)) e.(st).

Definition iif_fence_table_set_sync_point (sync_point_index start_timeline count : Z)
    (e : table_entry) : table_entry :=
  if IIF_NUM_SYNC_POINTS <=? sync_point_index then e
  else TableEntry (WaitEntry e.(wt).(waiting_ips) e.(wt).(wait_flag)
         (<[Z.to_nat sync_point_index := (u8 start_timeline, u8 count)]> e.(wt).(sync_points)))
         e.(st).

(** [None] when it sets nothing. *)
Definition iif_fence_table_get_sync_point (sync_point_index : Z) (e : table_entry) :
    option (Z * Z) :=
  if IIF_NUM_SYNC_POINTS <=? sync_point_index then None
  else e.(wt).(sync_points) !! Z.to_nat sync_point_index.

Definition iif_fence_table_set_remaining_signals (remaining_signalers : Z) (e : table_entry) :
    table_entry :=
  if remaining_signalers <? e.(st).(remaining)
  then TableEntry e.(wt) (SignalEntry (u16 remaining_signalers) e.(st).(signal_flag)
                            e.(st).(st_timeout) e.(st).(st_error))
  else e.

Definition iif_fence_table_inc_timeline (e : table_entry) : table_entry :=
  TableEntry e.(wt) (set_timeline_byte (st_timeline e.(st) + 1) e.(st)).

Definition iif_fence_table_set_flag (flag : Z) (e : table_entry) : table_entry :=
  TableEntry e.(wt) (SignalEntry e.(st).(remaining) flag e.(st).(st_timeout) e.(st).(st_error)).

Definition is_errored (e : table_entry) : bool :=
  negb (Z.land e.(st).(signal_flag) IIF_SIGNAL_TABLE_FLAG_ERROR =? 0).

Definition iif_fence_table_get_error (e : table_entry) : Z :=
  if is_errored e then iif_fence_table_to_linux_error_code e.(st).(st_error) else 0.

Definition iif_fence_table_set_error (error : Z) (e : table_entry) : table_entry :=
  if error =? 0 then e
  else
    let flag := e.(st).(signal_flag) in
    let s := SignalEntry e.(st).(remaining) flag e.(st).(st_timeout)
               (error_byte (iif_fence_table_to_signal_table_error_code error)) in
    iif_fence_table_set_flag (Z.lor flag IIF_SIGNAL_TABLE_FLAG_ERROR) (TableEntry e.(wt) s).

(** ** Theorems *)

Lemma error_byte_get e : iif_errors !! Z.to_nat (error_byte e) = Some e.
Proof. by destruct e. Qed.

Lemma flag_errored flag : negb (Z.land (Z.lor flag IIF_SIGNAL_TABLE_FLAG_ERROR)
  IIF_SIGNAL_TABLE_FLAG_ERROR =? 0) = true.
Proof.
  apply negb_true_iff, Z.eqb_neq. intros H0. apply (f_equal (λ x, Z.testbit x 0)) in H0.
  rewrite Z.land_spec, Z.lor_spec in H0. by rewrite orb_true_r in H0.
Qed.

Lemma get_set_error error e : error ≠ 0 →
  iif_fence_table_get_error (iif_fence_table_set_error error e)
  = iif_fence_table_to_linux_error_code
      (error_byte (iif_fence_table_to_signal_table_error_code error)).
Proof.
  intros He. unfold iif_fence_table_set_error, iif_fence_table_get_error, is_errored.
  rewrite (proj2 (Z.eqb_neq _ _) He). simpl. by rewrite flag_errored.
Qed.

(** An error that the kernel stores in the table is read back as an error,
    never as success; what is read back is stored and read unchanged; and the codes
    that the two conversions pair survive. *)
Theorem iif_error_codes error e :
  error < 0 →
  let read err := iif_fence_table_get_error (iif_fence_table_set_error err e) in
  read error < 0 ∧ read (read error) = read error
  ∧ (error ∈ map Z.opp [ECANCELED; EINVAL; ETIMEDOUT; ENOENT; EEXIST; EACCES; EBUSY; ERANGE;
       EOPNOTSUPP; EIO; EAGAIN; EPERM] → read error = error).
Proof.
  intros He. cbv beta zeta. rewrite get_set_error by lia.
  set (k := iif_fence_table_to_signal_table_error_code error).
  assert (k ≠ IIF_ERROR_OK) as Hk.
  { subst k. unfold iif_fence_table_to_signal_table_error_code.
    rewrite (proj2 (Z.eqb_neq _ _)) by lia. by repeat case_match. }
  split; [by destruct k|]. split.
  - rewrite get_set_error; by destruct k.
  - intros Hin. subst k. unfold map in Hin.
    repeat (apply elem_of_cons in Hin as [->|Hin]; [vm_compute; reflexivity|]).
    by apply elem_of_nil in Hin.
Qed.

Lemma iif_error_codes_witness :
  let e := TableEntry (WaitEntry 0 0 []) (SignalEntry 1 0 0 0) in
  let read err := iif_fence_table_get_error (iif_fence_table_set_error err e) in
  read (- ENOMEM) < 0 ∧ read (read (- ENOMEM)) = read (- ENOMEM)
  ∧ (- ENOMEM ∈ map Z.opp [ECANCELED; EINVAL; ETIMEDOUT; ENOENT; EEXIST; EACCES; EBUSY; ERANGE;
       EOPNOTSUPP; EIO; EAGAIN; EPERM] → read (- ENOMEM) = - ENOMEM).
Proof. apply (iif_error_codes (- ENOMEM)). reflexivity. Defined.
