(* ===== verification/IifFence.v ===== *)
(** * Inter-IP fences: a fence under its lock

    Model of [gcip-kernel-driver/drivers/gcip/iif/iif-fence.c] and [iif-direct.c]:
    what is done to one fence while its [fence_lock] is held.  A fence is unblocked
    once all its signalers have signaled it (single shot) or at each signal
    (reusable); direct fences are those that the firmwares signal through the fence
    table, and the only ones: no sync unit registers here.

    A [view] is all that such code reaches: the fence, its direct fence, which is
    freed when the fence retires, its entry of the table, the pool of identifiers,
    and the callbacks that it calls. *)

From S2P Require Import Prelude.
From S2P Require Import IifTable.

Definition IIF_FLAGS_RETIRE_ON_RELEASE : Z := 1.
Definition IIF_FLAGS_DISABLE_POLL : Z := 2.
Definition IIF_FLAGS_DIRECT : Z := 4.

Record iif_fence_params := FenceParams {
  signaler_type : iif_fence_signaler_type;
  fence_type : iif_fence_type;
  signaler_ip : Z;
  remaining_signalers : Z;
  waiters : Z;
  timeout : Z;
  flags : Z
}.

(** [signaled] and [timeline] are a union: the first is of single-shot fences, the
    second of reusable ones. *)
Record iif_fence_status := FenceStatus {
  status_error : Z;
  status_signaled : bool;
  status_timeline : Z
}.

(** A work item: queued or not, and whether its function runs. *)
Record work := Work { pending : bool; running : bool }.

Definition schedule_work (w : work) : work := Work true w.(running).
Definition work_idle (w : work) : bool := negb (w.(pending) || w.(running)).

(** [struct iif_fence]: [timeline] and [signaled] are a union as above; [hashed] is
    whether the fence is in the table from identifiers to fences; [put_work] is
    whether it is queued, since nothing waits for its end; [fence_lock] is the
    thread that holds the lock over several steps. *)
Record iif_fence := IifFence {
  id : Z;
  params : iif_fence_params;
  submitted_signalers : Z;
  signaled_signalers : Z;
  outstanding_waiters : Z;
  outstanding_waiters_per_ip : Z → Z;
  outstanding_block_wakelock : Z → Z;
  timeline : Z;
  signaled : bool;
  fence_lock : option nat;
  kref : Z;
  retired : bool;
  poll_cb_list : list nat;
  poll_cb_pended : bool;
  all_signaler_submitted_cb_list : list nat;
  signal_error : Z;
  all_signaler_submitted_error : Z;
  num_sync_file : Z;
  propagate : bool;
  signaled_work : work;
  waited_work : work;
  put_work : bool;
  hashed : bool
}.

(** [struct iif_direct_fence]; [poll_cb] is whether the callback of the fence is in
    its list, which is the only one that ever is. *)
Record iif_direct_fence := DirectFence {
  d_id : Z;
  d_timeline : Z;
  d_error : Z;
  num_sync_points : Z;
  last_poll_timeline : Z;
  d_params : iif_fence_params;
  poll_cb : bool;
  error_set_by_kernel : bool
}.

(** What the users of a fence see. *)
Inductive call :=
| Poll_called (cb : nat) (signaled : bool) (timeline error : Z)
| All_submitted (cb : nat) (error : Z)
| Fence_unblocked (ip : Z)
| Destroyed.

Record view := View {
  fence : iif_fence;
  direct : option iif_direct_fence;
  entry : table_entry;
  idp : gset Z;
  calls : list call
}.

(** ** Setters *)

Section Setters.
Implicit Types f : iif_fence.

Definition set_params v f := IifFence f.(id) v f.(submitted_signalers) f.(signaled_signalers)
  f.(outstanding_waiters) f.(outstanding_waiters_per_ip) f.(outstanding_block_wakelock)
  f.(timeline) f.(signaled) f.(fence_lock) f.(kref) f.(retired) f.(poll_cb_list) f.(poll_cb_pended)
  f.(all_signaler_submitted_cb_list) f.(signal_error) f.(all_signaler_submitted_error)
  f.(num_sync_file) f.(propagate) f.(signaled_work) f.(waited_work) f.(put_work) f.(hashed).
Definition set_signalers sub sig f := IifFence f.(id) f.(params) sub sig
  f.(outstanding_waiters) f.(outstanding_waiters_per_ip) f.(outstanding_block_wakelock)
  f.(timeline) f.(signaled) f.(fence_lock) f.(kref) f.(retired) f.(poll_cb_list) f.(poll_cb_pended)
  f.(all_signaler_submitted_cb_list) f.(signal_error) f.(all_signaler_submitted_error)
  f.(num_sync_file) f.(propagate) f.(signaled_work) f.(waited_work) f.(put_work) f.(hashed).
Definition set_waiters n per_ip f := IifFence f.(id) f.(params) f.(submitted_signalers)
  f.(signaled_signalers) n per_ip f.(outstanding_block_wakelock)
  f.(timeline) f.(signaled) f.(fence_lock) f.(kref) f.(retired) f.(poll_cb_list) f.(poll_cb_pended)
  f.(all_signaler_submitted_cb_list) f.(signal_error) f.(all_signaler_submitted_error)
  f.(num_sync_file) f.(propagate) f.(signaled_work) f.(waited_work) f.(put_work) f.(hashed).
Definition set_block_wakelock v f := IifFence f.(id) f.(params) f.(submitted_signalers)
  f.(signaled_signalers) f.(outstanding_waiters) f.(outstanding_waiters_per_ip) v
  f.(timeline) f.(signaled) f.(fence_lock) f.(kref) f.(retired) f.(poll_cb_list) f.(poll_cb_pended)
  f.(all_signaler_submitted_cb_list) f.(signal_error) f.(all_signaler_submitted_error)
  f.(num_sync_file) f.(propagate) f.(signaled_work) f.(waited_work) f.(put_work) f.(hashed).
Definition set_status t sig err f := IifFence f.(id) f.(params) f.(submitted_signalers)
  f.(signaled_signalers) f.(outstanding_waiters) f.(outstanding_waiters_per_ip)
  f.(outstanding_block_wakelock)
  t sig f.(fence_lock) f.(kref) f.(retired) f.(poll_cb_list) f.(poll_cb_pended)
  f.(all_signaler_submitted_cb_list) err f.(all_signaler_submitted_error)
  f.(num_sync_file) f.(propagate) f.(signaled_work) f.(waited_work) f.(put_work) f.(hashed).
Definition set_lock v f := IifFence f.(id) f.(params) f.(submitted_signalers)
  f.(signaled_signalers) f.(outstanding_waiters) f.(outstanding_waiters_per_ip)
  f.(outstanding_block_wakelock)
  f.(timeline) f.(signaled) v f.(kref) f.(retired) f.(poll_cb_list) f.(poll_cb_pended)
  f.(all_signaler_submitted_cb_list) f.(signal_error) f.(all_signaler_submitted_error)
  f.(num_sync_file) f.(propagate) f.(signaled_work) f.(waited_work) f.(put_work) f.(hashed).
Definition set_kref v f := IifFence f.(id) f.(params) f.(submitted_signalers)
  f.(signaled_signalers) f.(outstanding_waiters) f.(outstanding_waiters_per_ip)
  f.(outstanding_block_wakelock)
  f.(timeline) f.(signaled) f.(fence_lock) v f.(retired) f.(poll_cb_list) f.(poll_cb_pended)
  f.(all_signaler_submitted_cb_list) f.(signal_error) f.(all_signaler_submitted_error)
  f.(num_sync_file) f.(propagate) f.(signaled_work) f.(waited_work) f.(put_work) f.(hashed).
(** Retired, and out of the table of identifiers. *)
Definition set_retired f := IifFence f.(id) f.(params) f.(submitted_signalers)
  f.(signaled_signalers) f.(outstanding_waiters) f.(outstanding_waiters_per_ip)
  f.(outstanding_block_wakelock)
  f.(timeline) f.(signaled) f.(fence_lock) f.(kref) true f.(poll_cb_list) f.(poll_cb_pended)
  f.(all_signaler_submitted_cb_list) f.(signal_error) f.(all_signaler_submitted_error)
  f.(num_sync_file) f.(propagate) f.(signaled_work) f.(waited_work) f.(put_work) false.
Definition set_poll_cbs l pended f := IifFence f.(id) f.(params) f.(submitted_signalers)
  f.(signaled_signalers) f.(outstanding_waiters) f.(outstanding_waiters_per_ip)
  f.(outstanding_block_wakelock)
  f.(timeline) f.(signaled) f.(fence_lock) f.(kref) f.(retired) l pended
  f.(all_signaler_submitted_cb_list) f.(signal_error) f.(all_signaler_submitted_error)
  f.(num_sync_file) f.(propagate) f.(signaled_work) f.(waited_work) f.(put_work) f.(hashed).
Definition set_submitted_cbs l err f := IifFence f.(id) f.(params) f.(submitted_signalers)
  f.(signaled_signalers) f.(outstanding_waiters) f.(outstanding_waiters_per_ip)
  f.(outstanding_block_wakelock)
  f.(timeline) f.(signaled) f.(fence_lock) f.(kref) f.(retired) f.(poll_cb_list) f.(poll_cb_pended)
  l f.(signal_error) err
  f.(num_sync_file) f.(propagate) f.(signaled_work) f.(waited_work) f.(put_work) f.(hashed).
Definition set_num_sync_file v f := IifFence f.(id) f.(params) f.(submitted_signalers)
  f.(signaled_signalers) f.(outstanding_waiters) f.(outstanding_waiters_per_ip)
  f.(outstanding_block_wakelock)
  f.(timeline) f.(signaled) f.(fence_lock) f.(kref) f.(retired) f.(poll_cb_list) f.(poll_cb_pended)
  f.(all_signaler_submitted_cb_list) f.(signal_error) f.(all_signaler_submitted_error)
  v f.(propagate) f.(signaled_work) f.(waited_work) f.(put_work) f.(hashed).
Definition set_propagate v f := IifFence f.(id) f.(params) f.(submitted_signalers)
  f.(signaled_signalers) f.(outstanding_waiters) f.(outstanding_waiters_per_ip)
  f.(outstanding_block_wakelock)
  f.(timeline) f.(signaled) f.(fence_lock) f.(kref) f.(retired) f.(poll_cb_list) f.(poll_cb_pended)
  f.(all_signaler_submitted_cb_list) f.(signal_error) f.(all_signaler_submitted_error)
  f.(num_sync_file) v f.(signaled_work) f.(waited_work) f.(put_work) f.(hashed).
Definition set_works s w p f := IifFence f.(id) f.(params) f.(submitted_signalers)
  f.(signaled_signalers) f.(outstanding_waiters) f.(outstanding_waiters_per_ip)
  f.(outstanding_block_wakelock)
  f.(timeline) f.(signaled) f.(fence_lock) f.(kref) f.(retired) f.(poll_cb_list) f.(poll_cb_pended)
  f.(all_signaler_submitted_cb_list) f.(signal_error) f.(all_signaler_submitted_error)
  f.(num_sync_file) f.(propagate) s w p f.(hashed).

End Setters.

Definition set_flags v (p : iif_fence_params) : iif_fence_params :=
  FenceParams p.(signaler_type) p.(fence_type) p.(signaler_ip) p.(remaining_signalers) p.(waiters)
    p.(timeout) v.
Definition set_params_waiters v (p : iif_fence_params) : iif_fence_params :=
  FenceParams p.(signaler_type) p.(fence_type) p.(signaler_ip) p.(remaining_signalers) v
    p.(timeout) p.(flags).

Definition set_timeout v (p : iif_fence_params) : iif_fence_params :=
  FenceParams p.(signaler_type) p.(fence_type) p.(signaler_ip) p.(remaining_signalers) p.(waiters)
    v p.(flags).

Definition schedule_signaled_work f :=
  set_works (schedule_work f.(signaled_work)) f.(waited_work) f.(put_work) f.
Definition schedule_waited_work f :=
  set_works f.(signaled_work) (schedule_work f.(waited_work)) f.(put_work) f.
Definition schedule_put_work f := set_works f.(signaled_work) f.(waited_work) true f.

Definition with_fence (f : iif_fence) (v : view) : view :=
  View f v.(direct) v.(entry) v.(idp) v.(calls).
Definition with_direct (d : iif_direct_fence) (v : view) : view :=
  View v.(fence) (Some d) v.(entry) v.(idp) v.(calls).
Definition with_entry (e : table_entry) (v : view) : view :=
  View v.(fence) v.(direct) e v.(idp) v.(calls).
Definition called (l : list call) (v : view) : view :=
  View v.(fence) v.(direct) v.(entry) v.(idp) (v.(calls) ++ l).

(** A counter of each IP, that of [ip] changed. *)
Definition at_ip (ip v : Z) (counters : Z → Z) : Z → Z :=
  λ i, if i =? ip then v else counters i.

(** ** Signalers, waiters, retirement *)

Definition has_flag (f : iif_fence) (flag : Z) : bool := negb (Z.land f.(params).(flags) flag =? 0).
Definition iif_fence_is_direct (f : iif_fence) : bool := has_flag f IIF_FLAGS_DIRECT.
Definition is_single_shot (f : iif_fence) : bool :=
  bool_decide (f.(params).(fence_type) = IIF_FENCE_TYPE_SINGLE_SHOT).
Definition is_reusable (f : iif_fence) : bool :=
  bool_decide (f.(params).(fence_type) = IIF_FENCE_TYPE_REUSABLE).

Definition iif_fence_unsubmitted_signalers_locked (f : iif_fence) : Z :=
  f.(params).(remaining_signalers) - f.(submitted_signalers).
Definition iif_fence_outstanding_signalers_locked (f : iif_fence) : Z :=
  f.(submitted_signalers) - f.(signaled_signalers).
Definition iif_fence_all_signalers_signaled_locked (f : iif_fence) : bool :=
  f.(signaled_signalers) =? f.(params).(remaining_signalers).
Definition iif_fence_has_retired_locked (f : iif_fence) : bool := f.(retired).

(** [iif_direct_fence_retire] frees the direct fence, which must be there. *)
Definition iif_direct_fence_retire (v : view) : outcome view :=
  d ← must v.(direct);
  Ok (View v.(fence) None v.(entry) (v.(idp) ∖ {[d.(d_id)]}) v.(calls)).

Definition iif_direct_remove_poll_cb (v : view) : outcome view :=
  d ← must v.(direct);
  Ok (with_direct (DirectFence d.(d_id) d.(d_timeline) d.(d_error) d.(num_sync_points)
                     d.(last_poll_timeline) d.(d_params) false d.(error_set_by_kernel)) v).

Definition iif_fence_retire_locked (v : view) : outcome view :=
  if iif_fence_has_retired_locked v.(fence) then Ok v
  else
    v ← iif_direct_remove_poll_cb v;
    v ← iif_direct_fence_retire v;
    Ok (with_fence (set_retired v.(fence)) v).

Definition iif_fence_retire_if_possible_locked (v : view) : outcome view :=
  let f := v.(fence) in
  if negb (has_flag f IIF_FLAGS_RETIRE_ON_RELEASE) && (f.(outstanding_waiters) =? 0)
     && (iif_fence_outstanding_signalers_locked f =? 0) && (f.(num_sync_file) =? 0)
  then iif_fence_retire_locked v else Ok v.

Definition iif_fence_inc_signaled_signalers_locked (complete : bool) (v : view) :
    outcome (Z * view) :=
  let f := v.(fence) in
  if iif_fence_all_signalers_signaled_locked f then Ok (0, v)
  else
    let sig := if complete then f.(params).(remaining_signalers)
               else u16 (f.(signaled_signalers) + 1) in
    let ret := f.(params).(remaining_signalers) - sig in
    v ← iif_fence_retire_if_possible_locked
          (with_fence (set_signalers f.(submitted_signalers) sig f) v);
    Ok (ret, v).

Definition iif_fence_submit_signaler_locked (complete : bool) (v : view) : view :=
  let f := v.(fence) in
  let sub := if complete then f.(params).(remaining_signalers)
             else u16 (f.(submitted_signalers) + 1) in
  let f := set_signalers sub f.(signaled_signalers) f in
  if negb (iif_fence_unsubmitted_signalers_locked f =? 0) then with_fence f v
  else
    called ((λ cb, All_submitted cb f.(all_signaler_submitted_error)) <$>
              f.(all_signaler_submitted_cb_list))
      (with_fence (set_submitted_cbs [] f.(all_signaler_submitted_error) f) v).

Definition iif_fence_submit_waiter_locked (waiter_ip : Z) (v : view) : view :=
  let f := v.(fence) in
  let f := set_waiters (u16 (f.(outstanding_waiters) + 1))
             (at_ip waiter_ip (u16 (f.(outstanding_waiters_per_ip) waiter_ip + 1))
                f.(outstanding_waiters_per_ip)) f in
  let w := f.(params).(waiters) in
  if negb (Z.land w (Z.shiftl 1 waiter_ip) =? 0) then with_fence f v
  else
    with_fence
      (set_params (set_params_waiters (u16 (Z.lor w (Z.shiftl 1 waiter_ip))) f.(params)) f)
      (with_entry (iif_fence_table_set_waiting_ip waiter_ip v.(entry)) v).

(** The warnings are not modelled. *)
Definition iif_fence_remove_waiter_locked (waiter_ip : Z) (v : view) : outcome view :=
  let f := v.(fence) in
  iif_fence_retire_if_possible_locked
    (with_fence (set_waiters (u16 (f.(outstanding_waiters) - 1))
       (at_ip waiter_ip (u16 (f.(outstanding_waiters_per_ip) waiter_ip - 1))
          f.(outstanding_waiters_per_ip)) f) v).

(** ** Status and poll callbacks *)

Definition poll_called (f : iif_fence) : list call :=
  (λ cb, Poll_called cb f.(signaled) f.(timeline) f.(signal_error)) <$> f.(poll_cb_list).

Definition iif_fence_notify_poll_cb_single_shot_locked (v : view) : view :=
  let f := v.(fence) in
  if negb f.(signaled) then v
  else called (poll_called f) (with_fence (set_poll_cbs [] f.(poll_cb_pended) f) v).

Definition iif_fence_notify_poll_cb_reusable_locked (v : view) : view :=
  let f := v.(fence) in
  called (poll_called f)
    (with_fence (if negb (f.(signal_error) =? 0) then set_poll_cbs [] f.(poll_cb_pended) f else f) v).

Definition iif_fence_notify_poll_cb_locked (v : view) : view :=
  let f := v.(fence) in
  if has_flag f IIF_FLAGS_DISABLE_POLL then with_fence (set_poll_cbs f.(poll_cb_list) true f) v
  else
    let v := if is_single_shot f then iif_fence_notify_poll_cb_single_shot_locked v
             else if is_reusable f then iif_fence_notify_poll_cb_reusable_locked v else v in
    with_fence (set_poll_cbs v.(fence).(poll_cb_list) false v.(fence)) v.

(** Whether the status is updated; the timeline of the status is cut to [int]. *)
Definition iif_fence_set_status_locked (status : iif_fence_status) (f : iif_fence) :
    bool * iif_fence :=
  let t := u64 (s32 status.(status_timeline)) in
  let '(updated, f) :=
    if is_single_shot f then
      let sig := f.(signaled) || status.(status_signaled) in
      (negb (Bool.eqb f.(signaled) sig), set_status f.(timeline) sig f.(signal_error) f)
    else
      (f.(timeline) <? t,
       set_status (if f.(timeline) <? t then t else f.(timeline)) f.(signaled) f.(signal_error) f) in
  let error := status.(status_error) in
  let error := if (0 <? error) || (error <? - MAX_ERRNO) then - EINVAL else error in
  let error := if negb (f.(signal_error) =? 0) && (error =? 0) then f.(signal_error) else error in
  if f.(signal_error) =? error then (updated, f)
  else (updated || negb (is_single_shot f), set_status f.(timeline) f.(signaled) error f).

Definition iif_fence_poll_cb_func_locked (status : iif_fence_status) (v : view) : view :=
  let '(updated, f) := iif_fence_set_status_locked status v.(fence) in
  if negb updated then with_fence f v
  else iif_fence_notify_poll_cb_locked (with_fence (schedule_signaled_work f) v).

Definition iif_fence_is_unblocked_locked (f : iif_fence) (t : Z) : bool :=
  match f.(params).(fence_type) with
  | IIF_FENCE_TYPE_SINGLE_SHOT => f.(signaled)
  | IIF_FENCE_TYPE_REUSABLE => negb (f.(signal_error) =? 0) || (t <? f.(timeline))
  | IIF_FENCE_TYPE_UNKNOWN => false
  end.

(** ** Direct fences *)

Definition iif_direct_fence_set_error (error : Z) (d : iif_direct_fence) : iif_direct_fence :=
  DirectFence d.(d_id) d.(d_timeline) error d.(num_sync_points) d.(last_poll_timeline)
    d.(d_params) d.(poll_cb) d.(error_set_by_kernel).
Definition iif_direct_fence_set_timeline (t : Z) (d : iif_direct_fence) : iif_direct_fence :=
  DirectFence d.(d_id) t d.(d_error) d.(num_sync_points) d.(last_poll_timeline)
    d.(d_params) d.(poll_cb) d.(error_set_by_kernel).
Definition set_last_poll_timeline (t : Z) (d : iif_direct_fence) : iif_direct_fence :=
  DirectFence d.(d_id) d.(d_timeline) d.(d_error) d.(num_sync_points) t
    d.(d_params) d.(poll_cb) d.(error_set_by_kernel).
Definition set_poll_cb (b : bool) (d : iif_direct_fence) : iif_direct_fence :=
  DirectFence d.(d_id) d.(d_timeline) d.(d_error) d.(num_sync_points) d.(last_poll_timeline)
    d.(d_params) b d.(error_set_by_kernel).
Definition mark_error_set_by_kernel (d : iif_direct_fence) : iif_direct_fence :=
  DirectFence d.(d_id) d.(d_timeline) d.(d_error) d.(num_sync_points) d.(last_poll_timeline)
    d.(d_params) d.(poll_cb) true.

(** Only if the kernel has to do it for the signaler. *)
Definition iif_direct_fence_table_set_remaining_signals (remaining_signals : Z) (v : view) : view :=
  if v.(fence).(propagate)
  then with_entry (iif_fence_table_set_remaining_signals remaining_signals v.(entry)) v else v.

Definition iif_direct_fence_table_inc_timeline (v : view) : view :=
  if v.(fence).(propagate) then with_entry (iif_fence_table_inc_timeline v.(entry)) v else v.

Definition iif_direct_fence_table_get_timeline (d : iif_direct_fence) (e : table_entry) : Z :=
  match d.(d_params).(fence_type) with
  | IIF_FENCE_TYPE_SINGLE_SHOT =>
      s32 (u32 (d.(d_params).(remaining_signalers) - e.(st).(remaining)))
  | _ => st_timeline e.(st)
  end.

Definition iif_direct_fence_is_sync_point_ready (sync_point_index : Z) (d : iif_direct_fence)
    (e : table_entry) : bool :=
  match iif_fence_table_get_sync_point sync_point_index e with
  | Some (t, count) =>
      ((count =? IIF_WAIT_TABLE_SYNC_POINT_COUNT_ALL) || (d.(last_poll_timeline) <? t + count - 1))
      && (t <=? d.(d_timeline))
  | None => false
  end.

Definition iif_direct_fence_handle_signal_error (error : Z) (v : view) : outcome view :=
  d ← must v.(direct);
  let table_error := iif_fence_table_get_error v.(entry) in
  let errored := is_errored v.(entry) in
  let d := if v.(fence).(propagate) || (errored && (table_error =? 0))
           then mark_error_set_by_kernel d else d in
  if (error =? 0) || negb d.(error_set_by_kernel) then Ok (with_direct d v)
  else Ok (with_direct (iif_direct_fence_set_error error d)
             (with_entry (iif_fence_table_set_error error v.(entry)) v)).

Definition iif_direct_fence_invoke_poll_callbacks_single_shot (v : view) : outcome view :=
  d ← must v.(direct);
  if d.(d_timeline) <? d.(d_params).(remaining_signalers) then Ok v
  else if negb d.(poll_cb) then Ok v
  else Ok (iif_fence_poll_cb_func_locked (FenceStatus d.(d_error) true 0)
             (with_direct (set_poll_cb false d) v)).

Definition iif_direct_fence_invoke_poll_callbacks_reusable (v : view) : outcome view :=
  d ← must v.(direct);
  let found :=
    if negb (d.(d_error) =? 0) then true
    else if d.(d_timeline) <=? d.(last_poll_timeline) then false
    else existsb (λ i, iif_direct_fence_is_sync_point_ready i d v.(entry))
           (seqZ 0 d.(num_sync_points)) in
  if negb found then Ok v
  else
    let status := FenceStatus d.(d_error) false d.(d_timeline) in
    let v := if d.(poll_cb)
             then iif_fence_poll_cb_func_locked status
                    (if negb (d.(d_error) =? 0) then with_direct (set_poll_cb false d) v else v)
             else v in
    d ← must v.(direct);
    Ok (with_direct (set_last_poll_timeline d.(d_timeline) d) v).

Definition iif_direct_fence_sync_status (invoke_poll_cb : view → outcome view) (v : view) :
    outcome view :=
  d ← must v.(direct);
  let e := v.(entry) in
  let table_timeline := iif_direct_fence_table_get_timeline d e in
  let table_errored := is_errored e in
  let table_error := iif_fence_table_get_error e in
  let table_error := if d.(error_set_by_kernel) then d.(d_error) else table_error in
  let table_errored := table_errored || negb (d.(d_error) =? 0) in
  let table_error := if negb table_errored && negb (table_error =? 0) then 0 else table_error in
  let table_error := if table_errored && (table_error =? 0) then - ECANCELED else table_error in
  let table_timeline :=
    if table_timeline <? d.(d_timeline) then d.(d_timeline) else table_timeline in
  if (d.(d_timeline) =? table_timeline) && (d.(d_error) =? table_error) then Ok v
  else
    invoke_poll_cb (with_direct (iif_direct_fence_set_timeline table_timeline
                                   (iif_direct_fence_set_error table_error d)) v).

Definition iif_direct_fence_signal_single_shot (error : Z) (v : view) : outcome view :=
  let table_remaining_signals := v.(entry).(st).(remaining) in
  let table_errored := is_errored v.(entry) in
  let error :=
    if (table_remaining_signals =? 0) && negb table_errored && negb (error =? 0) then 0
    else if (table_remaining_signals =? 0) && table_errored && (error =? 0) then - ECANCELED
    else error in
  let table_remaining_signals :=
    if v.(fence).(propagate) && negb (table_remaining_signals =? 0)
    then table_remaining_signals - 1 else table_remaining_signals in
  v ← iif_direct_fence_handle_signal_error error v;
  iif_direct_fence_sync_status iif_direct_fence_invoke_poll_callbacks_single_shot
    (iif_direct_fence_table_set_remaining_signals table_remaining_signals v).

Definition iif_direct_fence_signal_reusable (error : Z) (v : view) : outcome view :=
  d ← must v.(direct);
  let table_timeline := iif_direct_fence_table_get_timeline d v.(entry) in
  let table_errored := is_errored v.(entry) in
  let error := if table_errored && (error =? 0) then - ECANCELED else error in
  let error :=
    if (IIF_SIGNAL_TABLE_MAX_TIMELINE <=? table_timeline)
       || (d.(d_params).(timeout) <=?
             u64 (table_timeline + if v.(fence).(propagate) then 1 else 0))
    then - ETIMEDOUT else error in
  v ← iif_direct_fence_handle_signal_error error v;
  iif_direct_fence_sync_status iif_direct_fence_invoke_poll_callbacks_reusable
    (if table_timeline <? IIF_SIGNAL_TABLE_MAX_TIMELINE
     then iif_direct_fence_table_inc_timeline v else v).

Definition iif_direct_fence_signal (error : Z) (v : view) : outcome (Z * view) :=
  d ← must v.(direct);
  match d.(d_params).(fence_type) with
  | IIF_FENCE_TYPE_SINGLE_SHOT => v ← iif_direct_fence_signal_single_shot error v; Ok (0, v)
  | IIF_FENCE_TYPE_REUSABLE => v ← iif_direct_fence_signal_reusable error v; Ok (0, v)
  | IIF_FENCE_TYPE_UNKNOWN => Ok (- EOPNOTSUPP, v)
  end.

Definition iif_direct_fence_add_sync_point (t count : Z) (v : view) : outcome (Z * view) :=
  d ← must v.(direct);
  match d.(d_params).(fence_type) with
  | IIF_FENCE_TYPE_REUSABLE =>
      if IIF_NUM_SYNC_POINTS <=? d.(num_sync_points) then Ok (- ENOSPC, v)
      else if (t =? 0) || (count =? 0) then Ok (- EINVAL, v)
      else
        let t := if IIF_SIGNAL_TABLE_MAX_TIMELINE <? t then IIF_SIGNAL_TABLE_MAX_TIMELINE else t in
        let count := if IIF_WAIT_TABLE_SYNC_POINT_COUNT_ALL <=? count
                     then IIF_WAIT_TABLE_SYNC_POINT_COUNT_ALL else count in
        let e := iif_fence_table_set_sync_point d.(num_sync_points) t count v.(entry) in
        let d := DirectFence d.(d_id) d.(d_timeline) d.(d_error) (d.(num_sync_points) + 1)
                   d.(last_poll_timeline) d.(d_params) d.(poll_cb) d.(error_set_by_kernel) in
        v ← iif_direct_fence_invoke_poll_callbacks_reusable (with_direct d (with_entry e v));
        Ok (0, v)
  | _ => Ok (- EOPNOTSUPP, v)
  end.

(** ** Signaling *)

(** No fence that is not direct has a sync unit to ask. *)
Definition iif_fence_signal_with_status_locked (error : Z) (force : bool) (v : view) :
    outcome (Z * view) :=
  let f := v.(fence) in
  if iif_fence_all_signalers_signaled_locked f then Ok (- EBUSY, v)
  else if negb force && (iif_fence_outstanding_signalers_locked f =? 0) then Ok (- EPERM, v)
  else if (0 <? error) || (error <? - MAX_ERRNO) then Ok (- EINVAL, v)
  else if negb f.(propagate) && negb (iif_fence_is_direct f) then Ok (0, v)
  else iif_direct_fence_signal error v.

(** The locked part of [iif_fence_do_waited_work_if_no_outstanding_signalers]: what
    it returns, and whether the waited work is to be done. *)
Definition signaler_done_locked (v : view) : outcome (Z * bool * view) :=
  let f := v.(fence) in
  if iif_fence_all_signalers_signaled_locked f then Ok (- EBUSY, false, v)
  else if iif_fence_outstanding_signalers_locked f =? 0 then Ok (- EPERM, false, v)
  else
    '(ret, v) ← iif_fence_inc_signaled_signalers_locked false v;
    Ok (ret, (0 <=? ret) && (iif_fence_outstanding_signalers_locked v.(fence) =? 0), v).

(** ** Block wakelocks *)

(** How many of each IP to release, for the waited work, or all of them. *)
Definition waited_work_locked (f : iif_fence) : (Z → Z) * iif_fence :=
  if negb (iif_fence_outstanding_signalers_locked f =? 0) then (λ _, 0, f)
  else
    let excess i := f.(outstanding_waiters_per_ip) i <? f.(outstanding_block_wakelock) i in
    (λ i, if excess i then f.(outstanding_block_wakelock) i - f.(outstanding_waiters_per_ip) i
          else 0,
     set_block_wakelock (λ i, if excess i then f.(outstanding_waiters_per_ip) i
                              else f.(outstanding_block_wakelock) i) f).

Definition release_all_locked (f : iif_fence) : (Z → Z) * iif_fence :=
  (f.(outstanding_block_wakelock), set_block_wakelock (λ _, 0) f).

(** ** Destruction *)

(** The locked part of [iif_fence_do_destroy]: whether [updated]. *)
Definition do_destroy_locked (v : view) : outcome (bool * view) :=
  let f := v.(fence) in
  let v :=
    if negb (bool_decide (f.(all_signaler_submitted_cb_list) = []))
       && (f.(submitted_signalers) <? f.(params).(remaining_signalers))
    then iif_fence_submit_signaler_locked true
           (with_fence (set_submitted_cbs f.(all_signaler_submitted_cb_list) (- EDEADLK) f) v)
    else v in
  '(updated, v) ←
    (if iif_fence_all_signalers_signaled_locked v.(fence) then Ok (false, v)
     else
       let f := set_propagate true v.(fence) in
       let '(updated, f) :=
         iif_fence_set_status_locked (FenceStatus (- EDEADLK) true f.(params).(timeout)) f in
       '(_, v) ← iif_fence_inc_signaled_signalers_locked true (with_fence f v);
       Ok (updated, v));
  v ← iif_fence_retire_locked v;
  Ok (updated, iif_fence_notify_poll_cb_locked v).

(** ** Flags and callbacks *)

Definition iif_fence_set_flags (fl : Z) (clear : bool) (v : view) : Z * view :=
  let f := v.(fence) in
  if negb (Z.land fl IIF_FLAGS_DIRECT =? 0)
     && Bool.eqb clear (negb (Z.land f.(params).(flags) IIF_FLAGS_DIRECT =? 0)) then (- EINVAL, v)
  else
    let f := set_params (set_flags (if clear then Z.land f.(params).(flags) (Z.lnot fl)
                                    else Z.lor f.(params).(flags) fl) f.(params)) f in
    (0, if clear && negb (Z.land fl IIF_FLAGS_DISABLE_POLL =? 0) && f.(poll_cb_pended)
        then iif_fence_notify_poll_cb_locked (with_fence f v) else with_fence f v).

Definition iif_fence_add_poll_callback (cb : nat) (v : view) : Z * view :=
  let f := v.(fence) in
  if (is_single_shot f && f.(signaled)) || (is_reusable f && negb (f.(signal_error) =? 0))
     || iif_fence_all_signalers_signaled_locked f then (- EPERM, v)
  else
    let f := set_poll_cbs (f.(poll_cb_list) ++ [cb]) f.(poll_cb_pended) f in
    (0, if is_reusable f && negb (f.(timeline) =? 0)
        then called [Poll_called cb f.(signaled) f.(timeline) f.(signal_error)] (with_fence f v)
        else with_fence f v).

Definition iif_fence_remove_poll_callback (cb : nat) (v : view) : bool * view :=
  let f := v.(fence) in
  if bool_decide (cb ∈ f.(poll_cb_list))
  then (true, with_fence (set_poll_cbs (filter (λ c, c ≠ cb) f.(poll_cb_list)) f.(poll_cb_pended) f) v)
  else (false, v).

Definition iif_fence_add_all_signaler_submitted_callback (cb : nat) (v : view) : Z * view :=
  let f := v.(fence) in
  if iif_fence_unsubmitted_signalers_locked f =? 0 then (- EPERM, v)
  else (0, with_fence (set_submitted_cbs (f.(all_signaler_submitted_cb_list) ++ [cb])
                         f.(all_signaler_submitted_error) f) v).

Definition iif_fence_remove_all_signaler_submitted_callback (cb : nat) (v : view) : bool * view :=
  let f := v.(fence) in
  if bool_decide (cb ∈ f.(all_signaler_submitted_cb_list))
  then (true, with_fence (set_submitted_cbs
                (filter (λ c, c ≠ cb) f.(all_signaler_submitted_cb_list))
                f.(all_signaler_submitted_error) f) v)
  else (false, v).

Definition iif_fence_get_signal_status (f : iif_fence) : Z :=
  if f.(signaled) then (if negb (f.(signal_error) =? 0) then f.(signal_error) else 1) else 0.

Definition iif_fence_get_status (f : iif_fence) : iif_fence_status :=
  FenceStatus f.(signal_error) f.(signaled) f.(timeline).
