(* ===== verification/IifSystem.v ===== *)
(** * Inter-IP fences: threads, works and wakelocks

    Model of the rest of [iif-fence.c], of [iif-manager.c] and of what a sync file
    does to its fence.  A function that other threads can run in the middle of is a
    list of [op]s, each of them what the code does under the lock of one fence or
    without a lock; a sequence of [move]s is an interleaving.

    The block wakelock of an IP keeps its block powered.  The functions that submit
    commands acquire them before they take the locks of all the fences of the
    command, and a fence counts those that it has to release.  A function that uses
    a fence that is freed, or its direct fence once retired, is undefined. *)

From stdpp Require Import sorting.
From S2P Require Import Prelude.
From S2P Require Import Interleaving.
From S2P Require Import IifTable.
From S2P Require Import IifFence.

(** A command that waits for [ins] and signals [outs]. *)
Record command := Command { ins : list nat; outs : list nat; waiter_ip : Z }.

Inductive op :=
| Acquire_in (c : command) (n : nat)
| Next_out (c : command) (wakelock_held : list (list Z))
| Acquire_out (c : command) (wakelock_held : list (list Z)) (got todo : list Z)
| Lock (k : nat)
| Commit (c : command) (wakelock_held : list (list Z))
| Release (k : nat) (ip : Z)
| Signal (k : nat) (error : Z) (async : bool)
| Signaler_done (k : nat) (async signal : bool)
| Signaler_completed (k : nat) (async : bool)
| Waited (k : nat)
| Schedule_waited (k : nat)
| Flush_signaled (k : nat)
| Broadcast (k : nat)
| Signaled_done (k : nat)
| Waited_done (k : nat)
| Waiter_completed (k : nat) (ip : Z)
| Remove_waiter (k : nat) (ip : Z)
| Sync_file_inc (k : nat)
| Sync_file_dec (k : nat)
| Sync_file_release (k : nat)
| Remove_poll (k cb : nat)
| Put (k : nat) (async : bool)
| Destroy_flush (k : nat)
| Destroy (k : nat)
| Destroy_release (k : nat)
| Free (k : nat)
| Return (ret : Z).

Inductive event := Called (k : nat) (c : call) | Returned (i : nat) (ret : Z).

(** [registered] is the IPs whose driver has the wakelock operators, and
    [wakelocks] how often it was asked to acquire less how often to release. *)
Record world := World {
  fences : gmap nat (iif_fence * option iif_direct_fence);
  next : nat;
  table : Z → table_entry;
  pool : gset Z;
  registered : gset Z;
  wakelocks : Z → Z;
  threads : list (list op);
  log : list event
}.

Definition set_fences v w :=
  World v w.(next) w.(table) w.(pool) w.(registered) w.(wakelocks) w.(threads) w.(log).
Definition set_registered v w :=
  World w.(fences) w.(next) w.(table) w.(pool) v w.(wakelocks) w.(threads) w.(log).
Definition set_wakelocks v w :=
  World w.(fences) w.(next) w.(table) w.(pool) w.(registered) v w.(threads) w.(log).
Definition set_threads v w :=
  World w.(fences) w.(next) w.(table) w.(pool) w.(registered) w.(wakelocks) v w.(log).
Definition set_table v w :=
  World w.(fences) w.(next) v w.(pool) w.(registered) w.(wakelocks) w.(threads) w.(log).
Definition add_log l w :=
  World w.(fences) w.(next) w.(table) w.(pool) w.(registered) w.(wakelocks) w.(threads)
    (w.(log) ++ l).

(** ** The view of a fence *)

Definition view_of (k : nat) (w : world) : outcome view :=
  '(f, d) ← must (w.(fences) !! k);
  Ok (View f d (w.(table) f.(id)) w.(pool) []).

Definition put_view (k : nat) (v : view) (w : world) : world :=
  World (<[k := (v.(fence), v.(direct))]> w.(fences)) w.(next)
    (λ i, if i =? v.(fence).(id) then v.(entry) else w.(table) i) v.(idp) w.(registered)
    w.(wakelocks) w.(threads) (w.(log) ++ (Called k <$> v.(calls))).

(** [F] with the lock of [k] held, by the thread already or for [F] alone. *)
Definition on_view {A} (k : nat) (F : view → outcome (A * view)) (w : world) :
    outcome (A * world) :=
  v ← view_of k w;
  '(x, v) ← F v;
  Ok (x, put_view k v w).

Definition locked {A} (k : nat) (F : view → outcome (A * view)) (w : world) :
    outcome (A * world) :=
  v ← view_of k w;
  match v.(fence).(fence_lock) with
  | Some _ => Blocked
  | None => on_view k F w
  end.

(** What cannot fail, of the fence alone. *)
Definition of_fence {A} (F : iif_fence → A * iif_fence) (v : view) : outcome (A * view) :=
  let '(x, f) := F v.(fence) in Ok (x, with_fence f v).
Definition of_view {A} (F : view → A * view) (v : view) : outcome (A * view) := Ok (F v).

(** ** Wakelocks *)

Definition iif_manager_acquire_block_wakelock (ip : Z) (driver : Z) (w : world) : Z * world :=
  if IIF_IP_NUM <=? ip then (- EINVAL, w)
  else if negb (bool_decide (ip ∈ w.(registered))) then (0, w)
  else if negb (driver =? 0) then (driver, w)
  else (0, set_wakelocks (at_ip ip (w.(wakelocks) ip + 1) w.(wakelocks)) w).

Definition iif_manager_release_block_wakelock (ip : Z) (w : world) : world :=
  if IIF_IP_NUM <=? ip then w
  else if negb (bool_decide (ip ∈ w.(registered))) then w
  else set_wakelocks (at_ip ip (w.(wakelocks) ip - 1) w.(wakelocks)) w.

(** [locks] of each IP to release *)
Definition iif_fence_release_block_wakelocks (k : nat) (locks : Z → Z) : list op :=
  seqZ 0 IIF_IP_RESERVED ≫= λ ip, replicate (Z.to_nat (locks ip)) (Release k ip).

Definition iif_fences_release_block_wakelock (ks : list nat) (ip : Z) : list op :=
  (λ k, Release k ip) <$> reverse ks.

Definition iif_fences_release_block_wakelock_of_waiters (ks : list nat)
    (wakelock_held : list (list Z)) : list op :=
  concat (reverse (zip_with (λ k ips, (λ ip, Release k ip) <$> ips) ks wakelock_held)).

(** [for_each_ip] of a 16-bit mask *)
Definition ips_of (mask : Z) : list Z := filter (λ ip, Z.testbit mask ip = true) (seqZ 0 16).

(** ** Submission *)

Definition compare_iif_fence_by_id (l r : Z * nat) : Prop := l.1 <= r.1.
#[global] Instance compare_iif_fence_by_id_dec : RelDecision compare_iif_fence_by_id.
Proof. intros l r. apply Z_le_dec. Defined.

(** The fences sorted, with their identifiers, and [-EDEADLK] if one repeats. *)
Definition iif_fences_sort_by_id (l : list (Z * nat)) : Z * list (Z * nat) :=
  let l := merge_sort compare_iif_fence_by_id l in
  (if existsb (λ p, p.1.1 =? p.2.1) (zip l (tail l)) then - EDEADLK else 0, l).

Fixpoint check_fence_uniqueness (fuel : nat) (l r : list (Z * nat)) : Z :=
  match fuel, l, r with
  | S fuel, x :: l', y :: r' =>
      if x.1 <? y.1 then check_fence_uniqueness fuel l' r
      else if y.1 <? x.1 then check_fence_uniqueness fuel l r'
      else - EDEADLK
  | _, _, _ => 0
  end.

(** An iteration passes a fence of either list, so that this fuel is enough. *)
Definition iif_fences_check_fence_uniqueness (l r : list (Z * nat)) : Z :=
  check_fence_uniqueness (length l + length r) l r.

(** The identifiers of the fences of an array. *)
Definition with_ids (ks : list nat) (w : world) : outcome (list (Z * nat)) :=
  must (mapM (λ k, p ← w.(fences) !! k; Some (p.1.(id), k)) ks).

(** [iif_fence_submit_signaler_and_waiter] up to the first wakelock: [memory] is
    whether [kcalloc] succeeds. *)
Definition iif_fence_submit_signaler_and_waiter (c : command) (memory : bool) (w : world) :
    outcome (list op) :=
  if negb (bool_decide (c.(ins) = [])) && (IIF_IP_NUM <=? c.(waiter_ip))
  then Ok [Return (- EINVAL)]
  else if negb memory then Ok [Return (- ENOMEM)]
  else
    l ← with_ids c.(ins) w;
    r ← with_ids c.(outs) w;
    let '(ret, l) := iif_fences_sort_by_id l in
    if negb (ret =? 0) then Ok [Return ret]
    else
      let '(ret, r) := iif_fences_sort_by_id r in
      if negb (ret =? 0) then Ok [Return ret]
      else
        let ret := iif_fences_check_fence_uniqueness l r in
        Ok (if negb (ret =? 0) then [Return ret]
            else [Acquire_in (Command l.*2 r.*2 c.(waiter_ip)) 0]).

(** The wakelock of the next fence to wait for; [driver] is what its driver returns
    if it is asked. *)
Definition iif_fences_acquire_block_wakelock (c : command) (n : nat) (driver : Z) (w : world) :
    outcome (list op * world) :=
  match c.(ins) !! n with
  | None => Ok ([Next_out c []], w)
  | Some k =>
      _ ← must (w.(fences) !! k);
      let '(ret, w) := iif_manager_acquire_block_wakelock c.(waiter_ip) driver w in
      Ok (if ret =? 0 then [Acquire_in c (S n)]
          else iif_fences_release_block_wakelock (take n c.(ins)) c.(waiter_ip) ++ [Return ret], w)
  end.

(** The waiters of the next fence to signal, which are read without its lock; then
    the locks of all of them are taken. *)
Definition next_out (c : command) (wakelock_held : list (list Z)) (w : world) :
    outcome (list op * world) :=
  match c.(outs) !! length wakelock_held with
  | None => Ok ((Lock <$> c.(ins) ++ c.(outs)) ++ [Commit c wakelock_held], w)
  | Some k =>
      '(f, _) ← must (w.(fences) !! k);
      Ok ([Acquire_out c wakelock_held [] (ips_of f.(params).(waiters))], w)
  end.

Definition release_command (c : command) (wakelock_held : list (list Z)) : list op :=
  iif_fences_release_block_wakelock_of_waiters c.(outs) wakelock_held
  ++ iif_fences_release_block_wakelock c.(ins) c.(waiter_ip).

Definition iif_fences_acquire_block_wakelock_of_waiters (c : command)
    (wakelock_held : list (list Z)) (got todo : list Z) (driver : Z) (w : world) :
    outcome (list op * world) :=
  match todo with
  | [] => Ok ([Next_out c (wakelock_held ++ [got])], w)
  | ip :: todo =>
      k ← must (c.(outs) !! length wakelock_held);
      _ ← must (w.(fences) !! k);
      let '(ret, w) := iif_manager_acquire_block_wakelock ip driver w in
      Ok (if ret =? 0 then [Acquire_out c wakelock_held (got ++ [ip]) todo]
          else release_command c (wakelock_held ++ [got]) ++ [Return ret], w)
  end.

(** The same for every fence of an array. *)
Fixpoint for_fences (ks : list nat) (F : nat → view → outcome (() * view)) (i : nat) (w : world) :
    outcome world :=
  match ks with
  | [] => Ok w
  | k :: ks =>
      '(_, w) ← on_view k (F i) w;
      for_fences ks F (S i) w
  end.

Definition fences_of (ks : list nat) (w : world) : outcome (list iif_fence) :=
  must (mapM (λ k, fst <$> w.(fences) !! k) ks).

Definition iif_fences_are_waiter_submittable_locked (l : list iif_fence) : Z :=
  if existsb iif_fence_has_retired_locked l then - EPERM else 0.

Definition iif_fences_are_signaler_submittable_locked (l : list iif_fence) : Z :=
  if existsb (λ f, (iif_fence_unsubmitted_signalers_locked f =? 0)
                   || iif_fence_has_retired_locked f) l
  then - EPERM else 0.

Definition count_wakelock (f : iif_fence) (ip : Z) : iif_fence :=
  set_block_wakelock (at_ip ip (u16 (f.(outstanding_block_wakelock) ip + 1))
                        f.(outstanding_block_wakelock)) f.

Definition update_fence (F : iif_fence → iif_fence) (v : view) : outcome (() * view) :=
  Ok ((), with_fence (F v.(fence)) v).

(** What is done with all the locks held. *)
Definition submit_locked (c : command) (wakelock_held : list (list Z)) (w : world) :
    outcome world :=
  w ← for_fences c.(ins)
        (λ _ v, Ok ((), iif_fence_submit_waiter_locked c.(waiter_ip) v)) 0 w;
  w ← for_fences c.(outs) (λ _ v, Ok ((), iif_fence_submit_signaler_locked false v)) 0 w;
  w ← for_fences c.(ins) (λ _, update_fence (λ f, count_wakelock f c.(waiter_ip))) 0 w;
  for_fences c.(outs)
    (λ i, update_fence (λ f, foldl count_wakelock f (default [] (wakelock_held !! i)))) 0 w.

Definition iif_fences_write_unlock (ks : list nat) (w : world) : outcome world :=
  for_fences (reverse ks) (λ _, update_fence (set_lock None)) 0 w.

Definition commit (c : command) (wakelock_held : list (list Z)) (w : world) :
    outcome (list op * world) :=
  l ← fences_of c.(ins) w;
  r ← fences_of c.(outs) w;
  let ret := iif_fences_are_waiter_submittable_locked l in
  let ret := if ret =? 0 then iif_fences_are_signaler_submittable_locked r else ret in
  w ← (if ret =? 0 then submit_locked c wakelock_held w else Ok w);
  w ← iif_fences_write_unlock c.(outs) w;
  w ← iif_fences_write_unlock c.(ins) w;
  Ok ((if ret =? 0 then [] else release_command c wakelock_held) ++ [Return ret], w).

(** ** Signals *)

Definition iif_fence_signal_and_update (k : nat) (error : Z) (async : bool) (w : world) :
    outcome (list op * world) :=
  '(ret, w) ← locked k (iif_fence_signal_with_status_locked error false) w;
  '(f, _) ← must (w.(fences) !! k);
  Ok (if (ret =? 0) && iif_fence_is_direct f && is_single_shot f then [Signaler_done k async true]
      else (if (ret =? 0) && negb async then [Flush_signaled k] else []) ++ [Return ret], w).

(** [iif_fence_do_waited_work_if_no_outstanding_signalers], for a signal or for
    [iif_fence_signaler_completed]. *)
Definition signaler_done (k : nat) (async signal : bool) (w : world) :
    outcome (list op * world) :=
  '(ret, waited, w) ← locked k signaler_done_locked w;
  Ok ((if (waited : bool) then [if async then Schedule_waited k else Waited k] else [])
      ++ (if signal
          then (if (ret =? 0) && negb async then [Flush_signaled k] else []) ++ [Return ret]
          else []), w).

(** Direct single-shot fences ignore it. *)
Definition iif_fence_signaler_completed (k : nat) (async : bool) (w : world) :
    outcome (list op * world) :=
  '(f, _) ← must (w.(fences) !! k);
  Ok (if iif_fence_is_direct f && is_single_shot f then [] else [Signaler_done k async false], w).

Definition iif_fence_waited_work_func (k : nat) (w : world) : outcome (list op * world) :=
  '(locks, w) ← locked k (of_fence waited_work_locked) w;
  Ok (iif_fence_release_block_wakelocks k locks, w).

(** What changes the fence alone, and takes no lock. *)
Definition update (k : nat) (F : iif_fence → iif_fence) (w : world) : outcome (list op * world) :=
  '(_, w) ← on_view k (update_fence F) w; Ok ([], w).

Definition flush_signaled (k : nat) (w : world) : outcome (list op * world) :=
  '(f, _) ← must (w.(fences) !! k);
  if work_idle f.(signaled_work) then Ok ([], w) else Blocked.

Definition iif_manager_broadcast_fence_unblocked (k : nat) (w : world) :
    outcome (list op * world) :=
  '(f, _) ← must (w.(fences) !! k);
  let ips := ips_of (w.(table) f.(id)).(wt).(waiting_ips) in
  Ok ([], add_log ((λ ip, Called k (Fence_unblocked ip)) <$>
                     filter (λ ip, ip ∈ w.(registered)) ips) w).

(** ** Waiters *)

Definition iif_fence_waiter_completed (k : nat) (ip : Z) (w : world) :
    outcome (list op * world) :=
  '(release, w) ← locked k (λ v,
    v ← iif_fence_remove_waiter_locked ip v;
    let f := v.(fence) in
    let held := f.(outstanding_block_wakelock) ip in
    if (iif_fence_outstanding_signalers_locked f =? 0) && negb (held =? 0)
    then Ok (true, with_fence (set_block_wakelock
                      (at_ip ip (u16 (held - 1)) f.(outstanding_block_wakelock)) f) v)
    else Ok (false, v)) w;
  Ok (if (release : bool) then [Release k ip] else [], w).

Definition iif_fence_remove_waiter (k : nat) (ip : Z) (w : world) : outcome (list op * world) :=
  '(_, w) ← locked k (λ v, v ← iif_fence_remove_waiter_locked ip v; Ok ((), v)) w;
  Ok ([], w).

(** ** References and destruction *)

Definition iif_fence_do_destroy (k : nat) : list op :=
  [Destroy_flush k; Destroy k; Destroy_release k; Free k].

Definition kref_put (k : nat) (async : bool) (w : world) : outcome (list op * world) :=
  '(f, _) ← must (w.(fences) !! k);
  if f.(kref) <=? 0 then Undef
  else
    '(_, w) ← update k (λ f, set_kref (f.(kref) - 1) f) w;
    if negb (f.(kref) =? 1) then Ok ([], w)
    else if async then update k schedule_put_work w
    else Ok (iif_fence_do_destroy k, w).

Definition kref_get (k : nat) (w : world) : outcome world :=
  '(f, _) ← must (w.(fences) !! k);
  if f.(kref) <=? 0 then Undef
  else '(_, w) ← update k (λ f, set_kref (f.(kref) + 1) f) w; Ok w.

Definition destroy_flush (k : nat) (w : world) : outcome (list op * world) :=
  '(f, _) ← must (w.(fences) !! k);
  if work_idle f.(signaled_work) && work_idle f.(waited_work) then Ok ([], w) else Blocked.

Definition destroy (k : nat) (w : world) : outcome (list op * world) :=
  '(updated, w) ← locked k do_destroy_locked w;
  Ok (if (updated : bool) then [Broadcast k] else [], w).

Definition iif_fence_release_all_block_wakelock (k : nat) (w : world) :
    outcome (list op * world) :=
  '(locks, w) ← locked k (of_fence release_all_locked) w;
  Ok (iif_fence_release_block_wakelocks k locks, w).

(** The user frees the fence when it is told that it is destroyed: none of its works
    may be queued or run then. *)
Definition on_release (k : nat) (w : world) : outcome (list op * world) :=
  '(f, _) ← must (w.(fences) !! k);
  if work_idle f.(signaled_work) && work_idle f.(waited_work) && negb f.(put_work)
  then Ok ([], add_log [Called k Destroyed] (set_fences (delete k w.(fences)) w))
  else Undef.

(** ** Sync files *)

Definition sync_file_dec (k : nat) (w : world) : outcome (list op * world) :=
  '(f, _) ← must (w.(fences) !! k);
  '(_, w) ← update k (λ f, set_num_sync_file (f.(num_sync_file) - 1) f) w;
  Ok (if f.(num_sync_file) - 1 =? 0 then [Sync_file_release k] else [], w).

Definition iif_fence_on_sync_file_release (k : nat) (w : world) : outcome (list op * world) :=
  '(_, w) ← locked k (λ v, v ← iif_fence_retire_if_possible_locked v; Ok ((), v)) w;
  Ok ([], w).

(** ** Threads *)

(** One [op] of the thread [i]: what takes its place, and the world. *)
Definition exec (i : nat) (driver : Z) (o : op) (w : world) : outcome (list op * world) :=
  match o with
  | Acquire_in c n => iif_fences_acquire_block_wakelock c n driver w
  | Next_out c held => next_out c held w
  | Acquire_out c held got todo =>
      iif_fences_acquire_block_wakelock_of_waiters c held got todo driver w
  | Lock k => '(_, w) ← locked k (update_fence (set_lock (Some i))) w; Ok ([], w)
  | Commit c held => commit c held w
  | Release k ip =>
      _ ← must (w.(fences) !! k);
      Ok ([], iif_manager_release_block_wakelock ip w)
  | Signal k error async => iif_fence_signal_and_update k error async w
  | Signaler_done k async signal => signaler_done k async signal w
  | Signaler_completed k async => iif_fence_signaler_completed k async w
  | Waited k => iif_fence_waited_work_func k w
  | Schedule_waited k => update k schedule_waited_work w
  | Flush_signaled k => flush_signaled k w
  | Broadcast k => iif_manager_broadcast_fence_unblocked k w
  | Signaled_done k =>
      update k (λ f, set_works (Work f.(signaled_work).(pending) false) f.(waited_work)
                       f.(put_work) f) w
  | Waited_done k =>
      update k (λ f, set_works f.(signaled_work) (Work f.(waited_work).(pending) false)
                       f.(put_work) f) w
  | Waiter_completed k ip => iif_fence_waiter_completed k ip w
  | Remove_waiter k ip => iif_fence_remove_waiter k ip w
  | Sync_file_inc k => update k (λ f, set_num_sync_file (f.(num_sync_file) + 1) f) w
  | Sync_file_dec k => sync_file_dec k w
  | Sync_file_release k => iif_fence_on_sync_file_release k w
  | Remove_poll k cb =>
      '(_, w) ← locked k (of_view (iif_fence_remove_poll_callback cb)) w; Ok ([], w)
  | Put k async => kref_put k async w
  | Destroy_flush k => destroy_flush k w
  | Destroy k => destroy k w
  | Destroy_release k => iif_fence_release_all_block_wakelock k w
  | Free k => on_release k w
  | Return ret => Ok ([], add_log [Returned i ret] w)
  end.

Definition run_thread (i : nat) (driver : Z) (w : world) : outcome world :=
  p ← must (w.(threads) !! i);
  match p with
  | [] => Blocked
  | o :: p =>
      '(q, w) ← exec i driver o w;
      Ok (set_threads (<[i := q ++ p]> w.(threads)) w)
  end.

(** ** Creation *)

(** [iif_direct_fence_create]: the parameters as it keeps them, and the entry; [ida]
    is what [ida_alloc_range] returns and [memory] whether [kzalloc] succeeds. *)
Definition iif_direct_fence_create (p : iif_fence_params) (memory : bool) (ida : Z)
    (e : Z → table_entry) : Z * option (iif_direct_fence * table_entry) :=
  match p.(signaler_type) with
  | IIF_FENCE_SIGNALER_TYPE_UNKNOWN => (- EOPNOTSUPP, None)
  | IIF_FENCE_SIGNALER_TYPE_IP =>
      if negb memory then (- ENOMEM, None)
      else if ida <? 0 then (ida, None)
      else
        let created p e := (ida, Some (DirectFence ida 0 0 0 (-1) p true false, e)) in
        match p.(fence_type) with
        | IIF_FENCE_TYPE_SINGLE_SHOT =>
            created p (iif_fence_table_init_single_shot_fence_entry p.(remaining_signalers)
                         p.(waiters) (e ida))
        | IIF_FENCE_TYPE_REUSABLE =>
            let p := if IIF_SIGNAL_TABLE_MAX_TIMELINE <? p.(timeout)
                     then set_timeout IIF_SIGNAL_TABLE_MAX_TIMELINE p else p in
            created p (iif_fence_table_init_reusable_fence_entry p.(timeout) p.(waiters) (e ida))
        | IIF_FENCE_TYPE_UNKNOWN => (- EOPNOTSUPP, None)
        end
  end.

Definition new_fence (id : Z) (p : iif_fence_params) : iif_fence :=
  IifFence id p 0 0 0 (λ _, 0) (λ _, 0) 0 false None 1 false [] false [] 0 0 0
    (p.(signaler_ip) =? IIF_IP_AP) (Work false false) (Work false false) false true.

(** A fence that is not direct has no operators to be created with. *)
Definition iif_fence_init_with_params (p : iif_fence_params) (memory : bool) (ida : Z)
    (w : world) : Z * world :=
  if IIF_IP_NUM <=? p.(signaler_ip) then (- EINVAL, w)
  else if Z.land p.(flags) IIF_FLAGS_DIRECT =? 0 then (- EOPNOTSUPP, w)
  else
    match iif_direct_fence_create p memory ida w.(table) with
    | (id, Some (d, e)) =>
        (0, World (<[w.(next) := (new_fence id p, Some d)]> w.(fences)) (S w.(next))
              (λ i, if i =? id then e else w.(table) i) (w.(pool) ∪ {[id]}) w.(registered)
              w.(wakelocks) w.(threads) w.(log))
    | (ret, None) => (ret, w)
    end.

(** The parameters of [iif_fence_init]. *)
Definition iif_fence_init (signaler_ip total_signalers : Z) : iif_fence_params :=
  FenceParams IIF_FENCE_SIGNALER_TYPE_IP IIF_FENCE_TYPE_SINGLE_SHOT signaler_ip total_signalers
    0 0 IIF_FLAGS_DIRECT.

(** ** Interleavings *)

(** What a user calls in a thread of its own, with a reference to the fence.  [cb] is
    the callback of the file, if it was polled. *)
Inductive user_call :=
| Iif_fence_signal_with_status (error : Z) (async : bool)
| Iif_fence_signaler_completed (async : bool)
| Iif_fence_waiter_completed (ip : Z) (async : bool)
| Iif_fence_put (async : bool)
| Iif_sync_file_release (cb : option nat).

Definition program (k : nat) (u : user_call) : list op :=
  match u with
  | Iif_fence_signal_with_status error async => [Signal k error async]
  | Iif_fence_signaler_completed async => [Signaler_completed k async]
  | Iif_fence_waiter_completed ip false => [Waiter_completed k ip]
  | Iif_fence_waiter_completed ip true => [Remove_waiter k ip; Schedule_waited k]
  | Iif_fence_put async => [Put k async]
  | Iif_sync_file_release cb =>
      [Sync_file_dec k] ++ match cb with Some cb => [Remove_poll k cb] | None => [] end
      ++ [Put k false]
  end.

(** [Atomic] is a function that is over with the section that it locks. *)
Inductive atomic_call :=
| Iif_fence_add_sync_point (timeline count : Z)
| Iif_fence_set_flags (flags : Z) (clear : bool)
| Iif_fence_add_poll_callback (cb : nat)
| Iif_fence_remove_poll_callback (cb : nat)
| Iif_fence_add_all_signaler_submitted_callback (cb : nat)
| Iif_fence_remove_all_signaler_submitted_callback (cb : nat).

Inductive move :=
| Init (p : iif_fence_params) (memory : bool) (ida : Z)
| Submit (c : command) (memory : bool)
| Call (k : nat) (u : user_call)
| Atomic (k : nat) (a : atomic_call)
| Set_propagate_unblock (k : nat)
| Get (k : nat)
| Get_from_id (id : Z)
| Sync_file_create (k : nat)
| Firmware (id : Z) (s : iif_signal_table_entry)
| Register (ip : Z)
| Unregister (ip : Z)
| Run_signaled (k : nat)
| Run_waited (k : nat)
| Run_put (k : nat)
| Run (i : nat) (driver : Z).

Definition iif_fence_add_sync_point (t count : Z) (v : view) : outcome (Z * view) :=
  if negb (is_reusable v.(fence)) then Ok (- EOPNOTSUPP, v)
  else if (t =? 0) || (count =? 0) then Ok (- EINVAL, v)
  else iif_direct_fence_add_sync_point t count v.

(** What it returns is left out. *)
Definition atomic (a : atomic_call) (v : view) : outcome (() * view) :=
  match a with
  | Iif_fence_add_sync_point t count =>
      '(_, v) ← iif_fence_add_sync_point t count v; Ok ((), v)
  | Iif_fence_set_flags fl clear => Ok ((), (iif_fence_set_flags fl clear v).2)
  | Iif_fence_add_poll_callback cb => Ok ((), (iif_fence_add_poll_callback cb v).2)
  | Iif_fence_remove_poll_callback cb => Ok ((), (iif_fence_remove_poll_callback cb v).2)
  | Iif_fence_add_all_signaler_submitted_callback cb =>
      Ok ((), (iif_fence_add_all_signaler_submitted_callback cb v).2)
  | Iif_fence_remove_all_signaler_submitted_callback cb =>
      Ok ((), (iif_fence_remove_all_signaler_submitted_callback cb v).2)
  end.

Definition spawn (p : list op) (w : world) : world := set_threads (w.(threads) ++ [p]) w.

(** The fence of an identifier in the hash table. *)
Definition iif_manager_get_fence_from_id (id' : Z) (w : world) : option nat :=
  fst <$> head (filter (λ p, p.2.1.(hashed) = true ∧ p.2.1.(id) = id')
                  (map_to_list w.(fences))).

Definition step (mv : move) (w : world) : outcome world :=
  match mv with
  | Init p memory ida => Ok (iif_fence_init_with_params p memory ida w).2
  | Submit c memory =>
      p ← iif_fence_submit_signaler_and_waiter c memory w;
      Ok (spawn p w)
  | Call k u => Ok (spawn (program k u) w)
  | Atomic k a => '(_, w) ← locked k (atomic a) w; Ok w
  | Set_propagate_unblock k => '(_, w) ← update k (set_propagate true) w; Ok w
  | Get k => kref_get k w
  | Get_from_id id =>
      match iif_manager_get_fence_from_id id w with
      | Some k => kref_get k w
      | None => Ok w
      end
  | Sync_file_create k => w ← kref_get k w; Ok (spawn [Sync_file_inc k] w)
  | Firmware id s =>
      Ok (set_table (λ i, if i =? id then TableEntry (w.(table) id).(wt) s else w.(table) i) w)
  | Register ip =>
      Ok (if IIF_IP_NUM <=? ip then w else set_registered ({[ip]} ∪ w.(registered)) w)
  | Unregister ip =>
      Ok (if IIF_IP_NUM <=? ip then w else set_registered (w.(registered) ∖ {[ip]}) w)
  | Run_signaled k =>
      '(f, _) ← must (w.(fences) !! k);
      let s := f.(signaled_work) in
      if negb s.(pending) || s.(running) then Blocked
      else
        '(_, w) ← update k (set_works (Work false true) f.(waited_work) f.(put_work)) w;
        Ok (spawn [Broadcast k; Signaled_done k] w)
  | Run_waited k =>
      '(f, _) ← must (w.(fences) !! k);
      let s := f.(waited_work) in
      if negb s.(pending) || s.(running) then Blocked
      else
        '(_, w) ← update k (set_works f.(signaled_work) (Work false true) f.(put_work)) w;
        Ok (spawn [Waited k; Waited_done k] w)
  | Run_put k =>
      '(f, _) ← must (w.(fences) !! k);
      if negb f.(put_work) then Blocked
      else
        '(_, w) ← update k (set_works f.(signaled_work) f.(waited_work) false) w;
        Ok (spawn (iif_fence_do_destroy k) w)
  | Run i driver => run_thread i driver w
  end.

(** ** The users *)

(** The fences that an [op] uses. *)
Definition op_fences (o : op) : list nat :=
  match o with
  | Acquire_in c _ | Next_out c _ | Acquire_out c _ _ _ | Commit c _ => c.(ins) ++ c.(outs)
  | Lock k | Release k _ | Signal k _ _ | Signaler_done k _ _ | Signaler_completed k _ | Waited k
  | Schedule_waited k | Flush_signaled k | Broadcast k | Signaled_done k | Waited_done k
  | Waiter_completed k _ | Remove_waiter k _ | Sync_file_inc k | Sync_file_dec k
  | Sync_file_release k | Remove_poll k _ | Put k _ | Destroy_flush k | Destroy k
  | Destroy_release k | Free k => [k]
  | Return _ => []
  end.

Definition uses (k : nat) (p : list op) : Prop := k ∈ p ≫= op_fences.
#[global] Instance uses_dec k p : Decision (uses k p).
Proof. unfold uses. apply _. Defined.

(** A thread of a work, not of a user: it has the end of the work to run. *)
Definition is_work (k : nat) (o : op) : bool :=
  match o with
  | Signaled_done k' | Waited_done k' => bool_decide (k' = k)
  | _ => false
  end.

Definition user_uses (k : nat) (p : list op) : bool :=
  bool_decide (uses k p) && negb (existsb (is_work k) p).

(** The caller has a reference, which is not put before its functions return. *)
Definition referenced (k : nat) (w : world) : bool :=
  match w.(fences) !! k with Some (f, _) => 0 <? f.(kref) | None => false end.

Definition put_allowed (i k : nat) (w : world) : bool :=
  match w.(fences) !! k with
  | Some (f, _) =>
      negb (f.(kref) =? 1)
      || forallb (λ jp, bool_decide (jp.1 = i) || negb (user_uses k jp.2)) (imap pair w.(threads))
  | None => false
  end.

(** The wakelocks that a fence counts do not wrap. *)
Definition counts_fit (c : command) (wakelock_held : list (list Z)) (w : world) : bool :=
  let fits k ip :=
    match w.(fences) !! k with
    | Some (f, _) => f.(outstanding_block_wakelock) ip <? 2 ^ 16 - 1
    | None => false
    end in
  forallb (λ k, fits k c.(waiter_ip)) c.(ins)
  && forallb (λ p, forallb (fits p.1) p.2) (zip c.(outs) wakelock_held).

(** The wakelocks of [ip] that an [op] is to release, or to count. *)
Definition op_owes (ip : Z) (o : op) : nat :=
  let count := cnt (λ i, one (i = ip)) in
  let of_ins c n := if decide (c.(waiter_ip) = ip) then n else 0%nat in
  match o with
  | Acquire_in c n => of_ins c n
  | Next_out c held => (of_ins c (length c.(ins)) + cnt count held)%nat
  | Acquire_out c held got _ => (of_ins c (length c.(ins)) + cnt count (held ++ [got]))%nat
  | Commit c held => (of_ins c (length c.(ins)) + cnt count held)%nat
  | Release _ ip' => one (ip' = ip)
  | _ => 0%nat
  end.

Definition threads_owe (ip : Z) (w : world) : nat := cnt (cnt (op_owes ip)) w.(threads).

Definition fence_owes (ip : Z) (k : nat) (p : iif_fence * option iif_direct_fence) (n : Z) : Z :=
  p.1.(outstanding_block_wakelock) ip + n.

Definition fences_owe (ip : Z) (w : world) : Z := map_fold (fence_owes ip) 0 w.(fences).

(** Users respect what the headers ask for: operators are registered before they
    are needed, a callback is not added twice; [ida_alloc_range] returns a free
    identifier of the range.  Two moves are left out, as the code does not bear them: a
    sync point added to a fence that has retired ([iif_sync_point_after_retire]), and a
    fence looked up by its identifier while its last reference is dropped
    ([iif_get_from_id_dying]). *)
Definition allowed (mv : move) (w : world) : bool :=
  match mv with
  | Init p _ ida =>
      let min := p.(signaler_ip) * IIF_NUM_FENCES_PER_IP in
      (0 <=? p.(signaler_ip)) && (0 <=? p.(remaining_signalers))
      && (p.(remaining_signalers) <? 2 ^ 16)
      && ((ida <? 0) || (min <=? ida) && (ida <? min + IIF_NUM_FENCES_PER_IP)
                        && negb (bool_decide (ida ∈ w.(pool))))
  | Submit c _ => forallb (λ k, referenced k w) (c.(ins) ++ c.(outs)) && (0 <=? c.(waiter_ip))
  | Call k u =>
      referenced k w
      && match u with
         | Iif_fence_waiter_completed ip _ => (0 <=? ip) && (ip <? IIF_IP_NUM)
         | _ => true
         end
  | Atomic k a =>
      referenced k w
      && match a, w.(fences) !! k with
         | Iif_fence_add_sync_point _ _, Some (f, _) => negb f.(retired)
         | Iif_fence_add_poll_callback cb, Some (f, _) => negb (bool_decide (cb ∈ f.(poll_cb_list)))
         | Iif_fence_add_all_signaler_submitted_callback cb, Some (f, _) =>
             negb (bool_decide (cb ∈ f.(all_signaler_submitted_cb_list)))
         | _, _ => true
         end
  | Set_propagate_unblock k | Get k | Sync_file_create k => referenced k w
  | Get_from_id id =>
      match iif_manager_get_fence_from_id id w with Some k => referenced k w | None => true end
  | Register ip | Unregister ip =>
      (0 <=? ip) && (Z.of_nat (threads_owe ip w) + fences_owe ip w =? 0)
  | Firmware _ _ => true
  | Run_signaled k | Run_waited k | Run_put k => bool_decide (is_Some (w.(fences) !! k))
  | Run i _ =>
      match w.(threads) !! i with
      | Some (Put k _ :: _) => put_allowed i k w
      | Some (Commit c held :: _) => counts_fit c held w
      | Some _ => true
      | None => false
      end
  end.

Fixpoint play (mvs : list move) (w : world) : outcome world :=
  match mvs with
  | [] => Ok w
  | mv :: mvs => w ← step mv w; play mvs w
  end.

Fixpoint disciplined (mvs : list move) (w : world) : bool :=
  match mvs with
  | [] => true
  | mv :: mvs =>
      allowed mv w && match step mv w with Ok w => disciplined mvs w | _ => true end
  end.

(** [iif_manager_init], with the fence table as it is found. *)
Definition iif_manager_init (t : Z → table_entry) : world :=
  World ∅ 0 t ∅ ∅ (λ _, 0) [] [].
