(* ===== verification/IifInv.v ===== *)
(** * Inter-IP fences: what a section under the lock keeps

    [vok] is what holds of a fence whenever its lock is free: its counters are in
    order, and it has its direct fence until it retires.  [vrel] is what every
    section keeps; each function of [IifFence] has its lemma. *)

From S2P Require Import Prelude.
From S2P Require Import Interleaving.
From S2P Require Import IifTable.
From S2P Require Import IifFence.
From S2P Require Import IifSystem.

Definition total (f : iif_fence) : Z := f.(params).(remaining_signalers).

(** What never changes. *)
Definition ident (f : iif_fence) : Z * Z := (f.(id), f.(params).(signaler_ip)).

Record counters_ok (f : iif_fence) : Prop := {
  ok_total : total f < 2 ^ 16;
  ok_submitted : 0 ≤ f.(submitted_signalers) ≤ total f;
  ok_signaled : 0 ≤ f.(signaled_signalers) ≤ total f;
  ok_order : f.(signaled_signalers) ≤ f.(submitted_signalers)
             ∨ f.(signaled_signalers) = total f;
  ok_per_ip : ∀ ip, 0 ≤ f.(outstanding_waiters_per_ip) ip;
  ok_hashed : f.(hashed) = negb f.(retired)
}.

Definition direct_ok (f : iif_fence) (d : option iif_direct_fence) : Prop :=
  if f.(retired) then d = None else ∃ d', d = Some d' ∧ d'.(d_id) = f.(id).

(** A retired fence is not signaled again. *)
Definition settled (f : iif_fence) : Prop :=
  f.(retired) = true →
  f.(submitted_signalers) = f.(signaled_signalers) ∨ f.(signaled_signalers) = total f.

Definition vok (v : view) : Prop := counters_ok v.(fence) ∧ direct_ok v.(fence) v.(direct).

(** [sched] is whether the section may queue works. *)
Record vrel (sched : bool) (v v' : view) : Prop := {
  rel_vok : vok v → vok v';
  rel_ident : ident v'.(fence) = ident v.(fence);
  rel_total : total v'.(fence) = total v.(fence);
  rel_kref : v'.(fence).(kref) = v.(fence).(kref);
  rel_put_work : v'.(fence).(put_work) = v.(fence).(put_work);
  rel_waited : v'.(fence).(waited_work).(running) = v.(fence).(waited_work).(running);
  rel_running : v'.(fence).(signaled_work).(running) = v.(fence).(signaled_work).(running);
  rel_works : sched = false → v'.(fence).(signaled_work) = v.(fence).(signaled_work)
                             ∧ v'.(fence).(waited_work) = v.(fence).(waited_work);
  rel_wakelock : v'.(fence).(outstanding_block_wakelock) = v.(fence).(outstanding_block_wakelock);
  rel_retired : v.(fence).(retired) = true → v'.(fence).(retired) = true;
  rel_pool : vok v → v'.(idp) = if negb v.(fence).(retired) && v'.(fence).(retired)
                        then v.(idp) ∖ {[v.(fence).(id)]} else v.(idp)
}.

(** A section that keeps the counters of the signalers too. *)
Definition same_signalers (v v' : view) : Prop :=
  v'.(fence).(submitted_signalers) = v.(fence).(submitted_signalers)
  ∧ v'.(fence).(signaled_signalers) = v.(fence).(signaled_signalers)
  ∧ v'.(fence).(retired) = v.(fence).(retired).

Definition keeps (sched : bool) (v v' : view) : Prop := vrel sched v v' ∧ same_signalers v v'.

Lemma rel_id b v v' : vrel b v v' → v'.(fence).(id) = v.(fence).(id).
Proof. intros Hr. by injection (rel_ident _ _ _ Hr). Qed.

Lemma vrel_refl b v : vrel b v v.
Proof. split; try done. intros _. by destruct v.(fence).(retired). Qed.

Lemma vrel_trans b v1 v2 v3 : vrel b v1 v2 → vrel b v2 v3 → vrel b v1 v3.
Proof.
  intros R1 R2. pose proof (rel_id _ _ _ R1) as rel_id0. destruct R1, R2.
  split; try congruence; try tauto.
  - intros Hb. destruct rel_works0, rel_works1; auto. split; congruence.
  - intros Hv. rewrite rel_pool1, rel_pool0, rel_id0 by auto.
    destruct (retired (fence v1)) eqn:E1, (retired (fence v2)) eqn:E2,
      (retired (fence v3)) eqn:E3; simpl; try done; try (by rewrite ?rel_retired0 in *);
      try (by rewrite ?rel_retired1 in *); set_solver.
Qed.

Lemma vrel_weaken b v v' : vrel false v v' → vrel b v v'.
Proof. intros []. split; auto. Qed.

Lemma keeps_refl b v : keeps b v v.
Proof. split; [apply vrel_refl|done]. Qed.

Lemma fence_keeps_trans b v1 v2 v3 : keeps b v1 v2 → keeps b v2 v3 → keeps b v1 v3.
Proof.
  intros [H1 (A1 & A2 & A3)] [H2 (B1 & B2 & B3)].
  split; [by eapply vrel_trans|]. split_and!; congruence.
Qed.

Lemma keeps_weaken b v v' : keeps false v v' → keeps b v v'.
Proof. intros [H ?]. split; [by apply vrel_weaken|done]. Qed.

Lemma keeps_settled b v v' : keeps b v v' → settled v.(fence) → settled v'.(fence).
Proof.
  intros [[] (H1 & H2 & H3)] Hs Hr. rewrite H1, H2, rel_total0. apply Hs. congruence.
Qed.

(** A change of the fence that only touches what [vrel] leaves free. *)
Lemma keeps_fence b v v' :
  (counters_ok v.(fence) → ∀ ip, 0 ≤ v'.(fence).(outstanding_waiters_per_ip) ip) →
  ident v'.(fence) = ident v.(fence) → total v'.(fence) = total v.(fence) →
  v'.(fence).(submitted_signalers) = v.(fence).(submitted_signalers) →
  v'.(fence).(signaled_signalers) = v.(fence).(signaled_signalers) →
  v'.(fence).(kref) = v.(fence).(kref) → v'.(fence).(put_work) = v.(fence).(put_work) →
  v'.(fence).(waited_work).(running) = v.(fence).(waited_work).(running) →
  v'.(fence).(signaled_work).(running) = v.(fence).(signaled_work).(running) →
  (b = false → v'.(fence).(signaled_work) = v.(fence).(signaled_work)
              ∧ v'.(fence).(waited_work) = v.(fence).(waited_work)) →
  v'.(fence).(outstanding_block_wakelock) = v.(fence).(outstanding_block_wakelock) →
  v'.(fence).(retired) = v.(fence).(retired) → v'.(fence).(hashed) = v.(fence).(hashed) →
  d_id <$> v'.(direct) = d_id <$> v.(direct) → v'.(idp) = v.(idp) →
  keeps b v v'.
Proof.
  intros Hip Hid Ht H1 H2 Hk Hp Hw Hr Hs Ho Hret Hh Hd Hpool. split; [split|done]; try done.
  - intros [[] Hdir]. split.
    + split; rewrite ?Ht, ?H1, ?H2, ?Hh, ?Hret; try done. apply Hip. by split.
    + unfold direct_ok in *. rewrite Hret.
      assert (v'.(fence).(id) = v.(fence).(id)) as -> by by injection Hid.
      destruct (retired (fence v)).
      * rewrite Hdir in Hd. by destruct (direct v').
      * destruct Hdir as (d & Heq & <-). rewrite Heq in Hd.
        destruct (direct v') as [d'|]; simplify_eq/=. by exists d'.
  - by rewrite Hret.
  - rewrite Hret. by destruct (retired (fence v)).
Qed.

Ltac keep :=
  apply keeps_fence; simpl; intros; first
    [done|match goal with H : counters_ok _ |- _ => exact (ok_per_ip _ H _) end|idtac].

(** ** Poll callbacks and the status *)

Lemma called_keeps b l v : keeps b v (called l v).
Proof. keep. Qed.

Lemma notify_keeps b v : keeps b v (iif_fence_notify_poll_cb_locked v).
Proof.
  unfold iif_fence_notify_poll_cb_locked, iif_fence_notify_poll_cb_single_shot_locked,
    iif_fence_notify_poll_cb_reusable_locked.
  repeat case_match; keep; by repeat case_match.
Qed.

Lemma set_status_locked_fence s f :
  ∃ t sig err, (iif_fence_set_status_locked s f).2 = set_status t sig err f.
Proof.
  unfold iif_fence_set_status_locked.
  assert (f = set_status f.(timeline) f.(signaled) f.(signal_error) f) as Hf by (by destruct f).
  repeat case_match; simplify_eq/=; eauto; try by rewrite <-Hf; eauto.
  all: by repeat eexists.
Qed.

Lemma set_status_keeps b s v :
  keeps b v (with_fence (iif_fence_set_status_locked s v.(fence)).2 v).
Proof. destruct (set_status_locked_fence s v.(fence)) as (t & sig & err & ->). keep. Qed.

Lemma poll_cb_func_keeps s v : keeps true v (iif_fence_poll_cb_func_locked s v).
Proof.
  unfold iif_fence_poll_cb_func_locked. pose proof (set_status_keeps true s v) as Hs.
  destruct (iif_fence_set_status_locked s (fence v)) as [[] f]; simpl in *; [|done].
  eapply fence_keeps_trans; [|apply notify_keeps]. eapply fence_keeps_trans; [exact Hs|]. keep.
Qed.

(** ** Direct fences *)

Lemma with_direct_keeps b v d d' : v.(direct) = Some d → d'.(d_id) = d.(d_id) →
  keeps b v (with_direct d' v).
Proof. intros Hd Hid. keep. rewrite Hd. simpl. by rewrite Hid. Qed.

Lemma with_entry_keeps b e v : keeps b v (with_entry e v).
Proof. keep. Qed.

(** Code that needs the direct fence, which a fence has until it retires. *)
Definition needs_direct (F : view → outcome view) : Prop :=
  ∀ v d, v.(direct) = Some d →
    wp (F v) (λ v', keeps true v v' ∧ ∃ d', v'.(direct) = Some d' ∧ d'.(d_id) = d.(d_id)).

Lemma poll_cb_func_direct s v : (iif_fence_poll_cb_func_locked s v).(direct) = v.(direct).
Proof.
  unfold iif_fence_poll_cb_func_locked, iif_fence_notify_poll_cb_locked,
    iif_fence_notify_poll_cb_single_shot_locked, iif_fence_notify_poll_cb_reusable_locked.
  by repeat (case_match; simplify_eq/=).
Qed.

Lemma handle_signal_error_needs error : needs_direct (iif_direct_fence_handle_signal_error error).
Proof.
  intros v d Hd. unfold iif_direct_fence_handle_signal_error. rewrite Hd. cbn [must mbind outcome_bind].
  set (d0 := if _ || _ then mark_error_set_by_kernel d else d).
  assert (d0.(d_id) = d.(d_id)) as Hid by (subst d0; by case_match).
  case_match; (split; [|eexists; split; [reflexivity|done]]).
  - by eapply with_direct_keeps.
  - eapply fence_keeps_trans; [apply with_entry_keeps|]. by eapply with_direct_keeps.
Qed.

Lemma invoke_single_shot_needs : needs_direct iif_direct_fence_invoke_poll_callbacks_single_shot.
Proof.
  intros v d Hd. unfold iif_direct_fence_invoke_poll_callbacks_single_shot. rewrite Hd.
  cbn [must mbind outcome_bind].
  repeat case_match; simpl; try (split; [apply keeps_refl|by eauto]).
  split; [|rewrite poll_cb_func_direct; by eexists].
  eapply fence_keeps_trans; [|apply poll_cb_func_keeps]. by eapply with_direct_keeps.
Qed.

Lemma invoke_reusable_needs : needs_direct iif_direct_fence_invoke_poll_callbacks_reusable.
Proof.
  intros v d Hd. unfold iif_direct_fence_invoke_poll_callbacks_reusable. rewrite Hd.
  cbn [must mbind outcome_bind].
  destruct (if negb (d_error d =? 0) then true else _); [|split; [apply keeps_refl|by eauto]].
  cbn [negb]. set (v1 := if poll_cb d then _ else v).
  assert (keeps true v v1 ∧ ∃ d', v1.(direct) = Some d' ∧ d'.(d_id) = d.(d_id))
    as (Hk & d1 & Hd1 & Hid).
  { subst v1. destruct (poll_cb d); [|split; [apply keeps_refl|by eauto]].
    rewrite poll_cb_func_direct. case_match.
    - split; [|by eexists]. eapply fence_keeps_trans; [|apply poll_cb_func_keeps].
      by eapply with_direct_keeps.
    - split; [apply poll_cb_func_keeps|by eauto]. }
  rewrite Hd1. cbn [must mbind outcome_bind wp]. split; [|by eexists].
  eapply fence_keeps_trans; [exact Hk|]. by eapply with_direct_keeps.
Qed.

Lemma sync_status_needs F : needs_direct F → needs_direct (iif_direct_fence_sync_status F).
Proof.
  intros HF v d Hd. unfold iif_direct_fence_sync_status. rewrite Hd. cbn [must mbind outcome_bind].
  case_match; [split; [apply keeps_refl|by eauto]|].
  match goal with |- context [F (with_direct ?d0 v)] => specialize (HF (with_direct d0 v) d0 eq_refl) end.
  eapply wp_mono; [exact HF|]. intros v' [Hk (d' & Hd' & Hid)].
  split; [|exists d'; by rewrite Hid].
  eapply fence_keeps_trans; [|exact Hk]. by eapply with_direct_keeps.
Qed.

Lemma needs_trans F v v1 d d1 :
  needs_direct F → v.(direct) = Some d → keeps true v v1 → v1.(direct) = Some d1 →
  d1.(d_id) = d.(d_id) →
  wp (F v1) (λ v', keeps true v v' ∧ ∃ d', v'.(direct) = Some d' ∧ d'.(d_id) = d.(d_id)).
Proof.
  intros HF Hd Hk Hd1 Hid. eapply wp_mono; [by eapply HF|]. intros v' [Hk' (d' & Hd' & Hid')].
  split; [by eapply fence_keeps_trans|]. exists d'. by rewrite Hid'.
Qed.

Lemma signal_single_shot_needs error : needs_direct (iif_direct_fence_signal_single_shot error).
Proof.
  intros v d Hd. unfold iif_direct_fence_signal_single_shot. apply wp_bind.
  eapply wp_mono; [by eapply handle_signal_error_needs|]. intros v1 [Hk (d1 & Hd1 & Hid)].
  eapply needs_trans; [apply sync_status_needs, invoke_single_shot_needs|done| | |exact Hid].
  - eapply fence_keeps_trans; [exact Hk|].
    unfold iif_direct_fence_table_set_remaining_signals. case_match; [apply with_entry_keeps|apply keeps_refl].
  - unfold iif_direct_fence_table_set_remaining_signals. by case_match.
Qed.

Lemma signal_reusable_needs error : needs_direct (iif_direct_fence_signal_reusable error).
Proof.
  intros v d Hd. unfold iif_direct_fence_signal_reusable. rewrite Hd.
  cbn [must mbind outcome_bind]. apply wp_bind.
  eapply wp_mono; [by eapply handle_signal_error_needs|]. intros v1 [Hk (d1 & Hd1 & Hid)].
  eapply needs_trans; [apply sync_status_needs, invoke_reusable_needs|done| | |exact Hid].
  - eapply fence_keeps_trans; [exact Hk|]. unfold iif_direct_fence_table_inc_timeline.
    repeat case_match; try apply with_entry_keeps; apply keeps_refl.
  - unfold iif_direct_fence_table_inc_timeline. by repeat case_match.
Qed.

Lemma direct_signal_needs error v d : v.(direct) = Some d →
  wp (iif_direct_fence_signal error v) (λ p, keeps true v p.2).
Proof.
  intros Hd. unfold iif_direct_fence_signal. rewrite Hd. cbn [must mbind outcome_bind].
  case_match; simpl; [..|apply keeps_refl]; apply wp_bind.
  - eapply wp_mono; [by eapply signal_single_shot_needs|]. by intros v' [Hk _].
  - eapply wp_mono; [by eapply signal_reusable_needs|]. by intros v' [Hk _].
Qed.

Lemma add_sync_point_needs t count v d : v.(direct) = Some d →
  wp (iif_direct_fence_add_sync_point t count v) (λ p, keeps true v p.2).
Proof.
  intros Hd. unfold iif_direct_fence_add_sync_point. rewrite Hd. cbn [must mbind outcome_bind].
  repeat case_match; simpl; try apply keeps_refl; apply wp_bind.
  all: eapply wp_mono; [eapply (needs_trans _ v); [apply invoke_reusable_needs|exact Hd| |reflexivity|done]
    |by intros v' [Hk _]].
  all: eapply fence_keeps_trans; [apply with_entry_keeps|]; by eapply with_direct_keeps.
Qed.

(** ** Signalers, waiters, retirement *)

Definition same_counts (v v' : view) : Prop :=
  v'.(fence).(submitted_signalers) = v.(fence).(submitted_signalers)
  ∧ v'.(fence).(signaled_signalers) = v.(fence).(signaled_signalers).

Lemma retire_locked v : vok v →
  wp (iif_fence_retire_locked v) (λ v', vrel false v v' ∧ same_counts v v'
    ∧ v'.(fence).(retired) = true).
Proof.
  intros [Hc Hd]. unfold iif_fence_retire_locked, iif_fence_has_retired_locked.
  destruct (retired (fence v)) eqn:Hr; [by split; [apply vrel_refl|]|].
  unfold direct_ok in Hd. rewrite Hr in Hd. destruct Hd as (d & Hd & Hid).
  unfold iif_direct_remove_poll_cb, iif_direct_fence_retire. rewrite Hd.
  cbn. split; [|done]. split; try done.
  - intros _. split; [|done]. destruct Hc. by split.
  - intros _. cbn. by rewrite Hr, Hid.
Qed.

Lemma settled_live v : settled v.(fence) →
  iif_fence_outstanding_signalers_locked v.(fence) ≠ 0 →
  iif_fence_all_signalers_signaled_locked v.(fence) = false → v.(fence).(retired) = false.
Proof.
  unfold iif_fence_outstanding_signalers_locked, iif_fence_all_signalers_signaled_locked.
  intros Hs Ho Ha%Z.eqb_neq. destruct (retired (fence v)) eqn:Hr; [|done].
  destruct (Hs Hr); [lia|done].
Qed.

Lemma retire_if_possible v : vok v → settled v.(fence) →
  wp (iif_fence_retire_if_possible_locked v) (λ v', vrel false v v' ∧ same_counts v v'
    ∧ settled v'.(fence)).
Proof.
  intros Hv Hs. unfold iif_fence_retire_if_possible_locked.
  destruct (_ && _) eqn:Hb; [|by split; [apply vrel_refl|]].
  apply andb_true_iff in Hb as [Hb _]. apply andb_true_iff in Hb as [_ Ho%Z.eqb_eq].
  eapply wp_mono; [by apply retire_locked|]. intros v' (Hr & (H1 & H2) & _).
  split_and!; [done|by split|]. intros _. rewrite H1, H2.
  unfold iif_fence_outstanding_signalers_locked in Ho. left. lia.
Qed.

(** The fence with other counts of signalers, which are still in order. *)
Lemma set_signalers_vrel v sub sig :
  (counters_ok v.(fence) → counters_ok (set_signalers sub sig v.(fence))) →
  vrel false v (with_fence (set_signalers sub sig v.(fence)) v).
Proof.
  intros Hc. split; try done.
  - intros [H1 H2]. split; [by apply Hc|]. done.
  - intros _. cbn. by destruct (retired (fence v)).
Qed.

Lemma inc_signaled v : vok v → settled v.(fence) →
  iif_fence_all_signalers_signaled_locked v.(fence) = false →
  iif_fence_outstanding_signalers_locked v.(fence) ≠ 0 →
  wp (iif_fence_inc_signaled_signalers_locked false v)
    (λ p, vrel false v p.2 ∧ settled p.2.(fence)).
Proof.
  intros Hv Hs Ha Ho. pose proof (settled_live v Hs Ho Ha) as Hr.
  unfold iif_fence_inc_signaled_signalers_locked. rewrite Ha.
  pose proof Hv as [Hc Hd]. destruct Hc.
  unfold iif_fence_outstanding_signalers_locked in Ho.
  unfold iif_fence_all_signalers_signaled_locked in Ha. apply Z.eqb_neq in Ha.
  fold (total (fence v)) in Ha.
  assert (u16 (signaled_signalers (fence v) + 1) = signaled_signalers (fence v) + 1) as Hu.
  { apply u16_small. lia. }
  rewrite Hu. set (v1 := with_fence _ v).
  assert (vrel false v v1) as H1.
  { apply set_signalers_vrel. intros _. split; unfold total in *; cbn; done || lia. }
  cbn [set_signalers]. apply wp_bind. eapply wp_mono.
  - apply retire_if_possible; [by apply (rel_vok _ _ _ H1)|]. intros Hr1. by cbn in Hr1; rewrite Hr in Hr1.
  - intros v2 (H2 & _ & Hs2). split; [by eapply vrel_trans|done].
Qed.

Lemma signaler_done_vrel v : vok v → settled v.(fence) →
  wp (signaler_done_locked v) (λ p, vrel false v p.2 ∧ settled p.2.(fence)).
Proof.
  intros Hv Hs. unfold signaler_done_locked.
  destruct (iif_fence_all_signalers_signaled_locked (fence v)) eqn:Ha;
    [by split; [apply vrel_refl|]|].
  case_match eqn:Ho; [by split; [apply vrel_refl|]|]. apply Z.eqb_neq in Ho.
  apply wp_bind. eapply wp_mono; [by apply inc_signaled|]. by intros [ret v'].
Qed.

Lemma signal_vrel error v : vok v → settled v.(fence) →
  wp (iif_fence_signal_with_status_locked error false v)
    (λ p, vrel true v p.2 ∧ settled p.2.(fence)).
Proof.
  intros Hv Hs. unfold iif_fence_signal_with_status_locked.
  destruct (iif_fence_all_signalers_signaled_locked (fence v)) eqn:Ha;
    [by split; [apply vrel_refl|]|].
  destruct (_ =? 0) eqn:Ho; [by split; [apply vrel_refl|]|]. apply Z.eqb_neq in Ho. simpl.
  pose proof (settled_live v Hs Ho Ha) as Hr.
  destruct Hv as [Hc Hd]. unfold direct_ok in Hd. rewrite Hr in Hd. destruct Hd as (d & Hd & _).
  repeat case_match; try (by split; [apply vrel_refl|]).
  all: eapply wp_mono; [by eapply direct_signal_needs|]; intros p Hk; split; [apply Hk|].
  all: by apply (keeps_settled _ _ _ Hk).
Qed.

Lemma remove_waiter_vrel ip v : vok v → settled v.(fence) →
  wp (iif_fence_remove_waiter_locked ip v) (λ v', vrel false v v' ∧ settled v'.(fence)).
Proof.
  intros Hv Hs. unfold iif_fence_remove_waiter_locked. set (v1 := with_fence _ v).
  assert (keeps false v v1) as H1.
  { keep. unfold at_ip. case_match; [|by apply ok_per_ip].
    pose proof (u16_range (outstanding_waiters_per_ip (fence v) ip - 1)). lia. }
  eapply wp_mono; [apply retire_if_possible|].
  - by apply (rel_vok _ _ _ (proj1 H1)).
  - by eapply keeps_settled.
  - intros v' (Hr & _ & Hs'). split; [|done]. eapply vrel_trans; [apply H1|done].
Qed.

Lemma submit_waiter_keeps ip v : keeps false v (iif_fence_submit_waiter_locked ip v).
Proof.
  unfold iif_fence_submit_waiter_locked. case_match; keep; unfold at_ip;
    case_match; try (by apply ok_per_ip).
  all: pose proof (u16_range (outstanding_waiters_per_ip (fence v) ip + 1)); lia.
Qed.

(** The callbacks of the submission do not count. *)
Lemma submit_signaler_keeps (complete : bool) v :
  let sub := if complete then total v.(fence)
             else u16 (v.(fence).(submitted_signalers) + 1) in
  keeps false (with_fence (set_signalers sub v.(fence).(signaled_signalers) v.(fence)) v)
    (iif_fence_submit_signaler_locked complete v).
Proof.
  intros sub. subst sub. unfold iif_fence_submit_signaler_locked, total.
  destruct complete; case_match; keep.
Qed.

Lemma submit_signaler_vrel v : vok v → v.(fence).(retired) = false →
  iif_fence_unsubmitted_signalers_locked v.(fence) ≠ 0 →
  let v' := iif_fence_submit_signaler_locked false v in
  vrel false v v' ∧ v'.(fence).(retired) = false.
Proof.
  intros [Hc Hd] Hr Hu. pose proof (submit_signaler_keeps false v) as [Hk (_ & _ & Hk3)].
  cbv zeta. split; [|by rewrite Hk3]. eapply vrel_trans; [|exact Hk].
  apply set_signalers_vrel. intros _. unfold iif_fence_unsubmitted_signalers_locked in Hu.
  fold (total (fence v)) in Hu. destruct Hc.
  rewrite u16_small by lia. split; unfold total in *; cbn; done || lia.
Qed.

(** ** Destruction, flags, callbacks *)

Lemma vrel_settled_of b v v' : vrel b v v' →
  v'.(fence).(signaled_signalers) = total v'.(fence) → settled v'.(fence).
Proof. intros _ Ht _. by right. Qed.

(** All the signalers of a fence that is destroyed have signaled it. *)
Lemma complete_signalers v : vok v →
  iif_fence_all_signalers_signaled_locked v.(fence) = false →
  wp (iif_fence_inc_signaled_signalers_locked true v)
    (λ p, vrel false v p.2 ∧ p.2.(fence).(signaled_signalers) = total v.(fence)).
Proof.
  intros Hv Ha. unfold iif_fence_inc_signaled_signalers_locked. rewrite Ha.
  set (v1 := with_fence _ v).
  assert (vrel false v v1) as H1.
  { apply set_signalers_vrel. intros []. split; unfold total in *; cbn; done || lia. }
  apply wp_bind. eapply wp_mono.
  - apply retire_if_possible; [by apply (rel_vok _ _ _ H1)|]. intros _. right. done.
  - intros v2 (H2 & (_ & Hc) & _). split; [by eapply vrel_trans|]. cbn in *. by rewrite Hc.
Qed.

Lemma submit_all_vrel v :
  vrel false v (iif_fence_submit_signaler_locked true v)
  ∧ (iif_fence_submit_signaler_locked true v).(fence).(signaled_signalers)
    = v.(fence).(signaled_signalers).
Proof.
  pose proof (submit_signaler_keeps true v) as [Hk (_ & Hk2 & _)]. split; [|by rewrite Hk2].
  eapply vrel_trans; [|exact Hk]. apply set_signalers_vrel. intros [].
  split; unfold total in *; cbn; done || lia.
Qed.

(** The first part of [do_destroy_locked]. *)
Lemma destroy_submit v :
  let v1 :=
    if negb (bool_decide (v.(fence).(all_signaler_submitted_cb_list) = []))
       && (v.(fence).(submitted_signalers) <? v.(fence).(params).(remaining_signalers))
    then iif_fence_submit_signaler_locked true
           (with_fence (set_submitted_cbs v.(fence).(all_signaler_submitted_cb_list) (- EDEADLK)
                          v.(fence)) v)
    else v in
  vrel false v v1 ∧ v1.(fence).(signaled_signalers) = v.(fence).(signaled_signalers).
Proof.
  cbv zeta. case_match; [|by split; [apply vrel_refl|]].
  match goal with |- context [iif_fence_submit_signaler_locked true ?x] =>
    destruct (submit_all_vrel x) as [Hr Hs]; split; [|by rewrite Hs];
    eapply vrel_trans; [|exact Hr] end.
  assert (keeps false v (with_fence (set_submitted_cbs v.(fence).(all_signaler_submitted_cb_list)
    (- EDEADLK) v.(fence)) v)) as Hk by keep. apply Hk.
Qed.

Lemma do_destroy_vrel v : vok v →
  wp (do_destroy_locked v) (λ p, vrel false v p.2 ∧ settled p.2.(fence)).
Proof.
  intros Hv. unfold do_destroy_locked. cbv zeta. pose proof (destroy_submit v) as [H1 Hsig1].
  cbv zeta in H1, Hsig1. match type of H1 with vrel _ _ ?x => set (v1 := x) in * end.
  assert (vok v1) as Hv1 by by apply (rel_vok _ _ _ H1).
  apply wp_bind.
  assert (wp (if iif_fence_all_signalers_signaled_locked v1.(fence) then Ok (false, v1)
     else
       let f := set_propagate true v1.(fence) in
       let '(updated, f) :=
         iif_fence_set_status_locked (FenceStatus (- EDEADLK) true f.(params).(timeout)) f in
       '(_, v2) ← iif_fence_inc_signaled_signalers_locked true (with_fence f v1);
       Ok (updated, v2))
    (λ p, vrel false v1 p.2 ∧ p.2.(fence).(signaled_signalers) = total p.2.(fence))) as H2.
  { destruct (iif_fence_all_signalers_signaled_locked (fence v1)) eqn:Ha.
    { split; [apply vrel_refl|]. by apply Z.eqb_eq in Ha. }
    cbv zeta. set (f1 := set_propagate true (fence v1)).
    assert (keeps false v1 (with_fence f1 v1)) as Hk1 by keep.
    pose proof (set_status_keeps false
      (FenceStatus (- EDEADLK) true (timeout (params f1))) (with_fence f1 v1)) as Hk2.
    cbn [fence with_fence] in Hk2. destruct (iif_fence_set_status_locked _ _) as [updated f2] eqn:Hs2.
    cbn [snd] in Hk2. change (with_fence f2 (with_fence f1 v1)) with (with_fence f2 v1) in Hk2.
    assert (keeps false v1 (with_fence f2 v1)) as Hk3 by by eapply fence_keeps_trans.
    apply wp_bind. eapply wp_mono.
    - apply complete_signalers; [by apply (rel_vok _ _ _ (proj1 Hk3))|].
      destruct Hk3 as [Hr (_ & Hk & _)]. cbn in Hk. unfold iif_fence_all_signalers_signaled_locked in *.
      cbn. rewrite Hk. pose proof (rel_total _ _ _ Hr) as Ht. unfold total in Ht. cbn in Ht. by rewrite Ht.
    - intros [ret v3] [Hr Ht]. cbn in *. destruct Hk3 as [Hk3 _].
      split; [by eapply vrel_trans|]. rewrite Ht. by rewrite (rel_total _ _ _ Hr). }
  eapply wp_mono; [exact H2|]. intros [updated v2] [Hr2 Ht2]. cbn [fst snd] in *.
  assert (vok v2) as Hv2 by by apply (rel_vok _ _ _ Hr2). apply wp_bind.
  eapply wp_mono; [by apply retire_locked|]. intros v3 (Hr3 & (_ & Hs3) & Hret).
  cbn [wp snd]. destruct (notify_keeps false v3) as [Hr4 (_ & Hs4 & _)]. split.
  - eapply vrel_trans; [exact H1|]. eapply vrel_trans; [exact Hr2|].
    by eapply vrel_trans.
  - intros _. right. rewrite Hs4, Hs3, Ht2. by rewrite (rel_total _ _ _ Hr4), (rel_total _ _ _ Hr3).
Qed.

Lemma atomic_vrel a v : vok v → settled v.(fence) →
  match a with Iif_fence_add_sync_point _ _ => v.(fence).(retired) = false | _ => True end →
  wp (atomic a v) (λ p, keeps true v p.2).
Proof.
  intros [Hc Hd] Hs Ha.
  destruct a; simpl in *; unfold iif_fence_set_flags, iif_fence_add_poll_callback,
    iif_fence_remove_poll_callback, iif_fence_add_all_signaler_submitted_callback,
    iif_fence_remove_all_signaler_submitted_callback.
  - unfold direct_ok in Hd. rewrite Ha in Hd. destruct Hd as (d & Hd & _). apply wp_bind.
    unfold iif_fence_add_sync_point. repeat case_match; try apply keeps_refl.
    eapply wp_mono; [by eapply add_sync_point_needs|]. by intros [].
  - repeat case_match; simpl; first
      [apply keeps_refl|solve [keep]|eapply fence_keeps_trans; [|apply notify_keeps]; keep].
  - repeat case_match; simpl; try apply keeps_refl; keep.
  - repeat case_match; simpl; try apply keeps_refl; keep.
  - repeat case_match; simpl; try apply keeps_refl; keep.
  - repeat case_match; simpl; try apply keeps_refl; keep.
Qed.

(** ** Wakelocks *)

(** [v'] with the wakelocks that [v] counts. *)
Definition with_wakelocks_of (v v' : view) : view :=
  with_fence (set_block_wakelock v.(fence).(outstanding_block_wakelock) v'.(fence)) v'.

Lemma with_wakelocks_same v v' :
  v'.(fence).(outstanding_block_wakelock) = v.(fence).(outstanding_block_wakelock) →
  with_wakelocks_of v v' = v'.
Proof. unfold with_wakelocks_of. intros <-. destruct v' as [[] ? ? ? ?]. done. Qed.

(** [vrel], the wakelocks apart. *)
Definition vrel_upto (b : bool) (v v' : view) : Prop :=
  vrel b v (with_wakelocks_of v v') ∧ (settled v.(fence) → settled v'.(fence)).

Lemma vrel_is_upto b v v' : vrel b v v' → settled v'.(fence) → vrel_upto b v v'.
Proof.
  intros Hr Hs. split; [|done]. rewrite with_wakelocks_same; [done|]. by apply (rel_wakelock _ _ _ Hr).
Qed.

Lemma keeps_upto b v v' : keeps b v v' → vrel_upto b v v'.
Proof.
  intros Hk. split; [|by eapply keeps_settled].
  rewrite with_wakelocks_same; [apply Hk|]. by apply (rel_wakelock _ _ _ (proj1 Hk)).
Qed.

Lemma wakelocks_upto b v h : vrel_upto b v (with_fence (set_block_wakelock h v.(fence)) v).
Proof.
  split; [|done]. unfold with_wakelocks_of. cbn.
  assert (set_block_wakelock (outstanding_block_wakelock (fence v)) (set_block_wakelock h (fence v))
    = fence v) as -> by by destruct (fence v). destruct v. apply vrel_refl.
Qed.
