(* ===== verification/IifWorld.v ===== *)
(** * Inter-IP fences: the invariant

    What holds of the fences, of the threads and of the wakelocks at every step of
    every interleaving ([inv]), and how it is kept by a step of one thread on one
    fence ([world_update]). *)

From S2P Require Import Prelude.
From S2P Require Import Interleaving.
From S2P Require Import IifTable.
From S2P Require Import IifFence.
From S2P Require Import IifSystem.
From S2P Require Import IifInv.

#[global] Instance command_eq_dec : EqDecision command.
Proof. solve_decision. Defined.
#[global] Instance op_eq_dec : EqDecision op.
Proof. solve_decision. Defined.

(** ** Threads *)

Definition mark (o' o : op) : nat := one (o = o').

Lemma marked o p : (0 < cnt (mark o) p)%nat ↔ o ∈ p.
Proof.
  induction p as [|o' p IH]; [split; [simpl; lia|by intros ?%elem_of_nil]|].
  rewrite cnt_cons, elem_of_cons. unfold mark at 1. destruct (decide (o' = o)) as [->|Hn].
  - rewrite one_yes by done. split; [by left|lia].
  - rewrite one_no by done. rewrite <-IH. split; [by right|]. intros [->|H]; [done|lia].
Qed.

Lemma uses_app k p q : uses k (p ++ q) ↔ uses k p ∨ uses k q.
Proof. unfold uses. by rewrite bind_app, elem_of_app. Qed.

Lemma uses_cons k o p : uses k (o :: p) ↔ k ∈ op_fences o ∨ uses k p.
Proof. unfold uses. cbn. by rewrite elem_of_app. Qed.

Lemma uses_nil k : ¬ uses k [].
Proof. intros H. by apply elem_of_nil in H. Qed.

Lemma uses_elem k o p : o ∈ p → k ∈ op_fences o → uses k p.
Proof. intros Ho Hk. apply list_elem_of_bind. eauto. Qed.

(** Threads that need no reference: those of the works, and that of the end. *)
Definition special (k : nat) (p : list op) : Prop :=
  Signaled_done k ∈ p ∨ Waited_done k ∈ p ∨ Free k ∈ p.

Definition final (o : op) : bool :=
  match o with Put _ _ | Signaled_done _ | Waited_done _ | Free _ => true | _ => false end.

Definition command_ok (c : command) : Prop := NoDup (c.(ins) ++ c.(outs)).

(** A submission under way has the wakelocks of the fences that it has passed, each
    once. *)
Definition op_ok (o : op) : Prop :=
  match o with
  | Acquire_in c n => command_ok c ∧ (n ≤ length c.(ins))%nat
  | Next_out c held =>
      command_ok c ∧ (length held ≤ length c.(outs))%nat ∧ Forall (NoDup (A := Z)) held
  | Acquire_out c held got todo =>
      command_ok c ∧ (length held < length c.(outs))%nat ∧ Forall (NoDup (A := Z)) held
      ∧ NoDup (got ++ todo)
  | Commit c held =>
      command_ok c ∧ length held = length c.(outs) ∧ Forall (NoDup (A := Z)) held
  | _ => True
  end.

(** The last op is the only one that may end a use. *)
Fixpoint wf_thread (p : list op) : Prop :=
  match p with
  | [] => True
  | o :: p => (final o = true → p = []) ∧ op_ok o ∧ wf_thread p
  end.

Lemma wf_app q p : Forall (λ o, final o = false ∧ op_ok o) q → wf_thread p → wf_thread (q ++ p).
Proof. induction 1 as [|o q [Ho ?] _ IH]; [done|]. intros Hp. split; [by rewrite Ho|auto]. Qed.

(** ** Destruction *)

Definition idle (f : iif_fence) : Prop :=
  work_idle f.(signaled_work) = true ∧ work_idle f.(waited_work) = true.

Inductive destroy_phase (k : nat) (f : iif_fence) : list op → Prop :=
| Phase_flush : destroy_phase k f (iif_fence_do_destroy k)
| Phase_destroy : idle f → destroy_phase k f [Destroy k; Destroy_release k; Free k]
| Phase_broadcast : idle f → destroy_phase k f [Broadcast k; Destroy_release k; Free k]
| Phase_release : idle f → destroy_phase k f [Destroy_release k; Free k]
| Phase_free q :
    idle f → (∀ ip, f.(outstanding_block_wakelock) ip = 0) →
    Forall (λ o, ∃ ip, o = Release k ip) q → destroy_phase k f (q ++ [Free k]).

(** ** The invariant *)

Definition b2n (b : bool) : nat := if b then 1%nat else 0%nat.
Definition bz (b : bool) : Z := if b then 1 else 0.

Record fence_inv (k : nat) (l : list (list op)) (f : iif_fence) (d : option iif_direct_fence) :
    Prop := {
  fi_counters : counters_ok f;
  fi_direct : direct_ok f d;
  fi_settled : settled f;
  fi_wakelock ip : 0 ≤ f.(outstanding_block_wakelock) ip < 2 ^ 16;
  fi_kref : 0 ≤ f.(kref);
  fi_users p : p ∈ l → uses k p → 0 < f.(kref) ∨ special k p;
  fi_signaled : cnt (cnt (mark (Signaled_done k))) l = b2n f.(signaled_work).(running);
  fi_waited : cnt (cnt (mark (Waited_done k))) l = b2n f.(waited_work).(running);
  fi_free : (cnt (cnt (mark (Free k))) l + b2n f.(put_work))%nat = one (f.(kref) = 0);
  fi_phase p : p ∈ l → Free k ∈ p → destroy_phase k f p;
  fi_range : let min := f.(params).(signaler_ip) * IIF_NUM_FENCES_PER_IP in
             min ≤ f.(id) < min + IIF_NUM_FENCES_PER_IP
}.

(** [extra] is what the step under way has left to count. *)
Record inv (extra : Z → Z) (w : world) : Prop := {
  inv_none k p : w.(fences) !! k = None → p ∈ w.(threads) → ¬ uses k p;
  inv_fence k f d : w.(fences) !! k = Some (f, d) → fence_inv k w.(threads) f d;
  inv_wf p : p ∈ w.(threads) → wf_thread p;
  inv_next k : (w.(next) ≤ k)%nat → w.(fences) !! k = None;
  inv_pool k f d : w.(fences) !! k = Some (f, d) → f.(retired) = false → f.(id) ∈ w.(pool);
  inv_ids k1 f1 d1 k2 f2 d2 :
    w.(fences) !! k1 = Some (f1, d1) → w.(fences) !! k2 = Some (f2, d2) →
    f1.(retired) = false → f2.(retired) = false → f1.(id) = f2.(id) → k1 = k2;
  inv_registered ip : ip ∈ w.(registered) → 0 ≤ ip < IIF_IP_NUM;
  inv_wakelocks ip : w.(wakelocks) ip =
    if decide (ip ∈ w.(registered))
    then Z.of_nat (threads_owe ip w) + fences_owe ip w + extra ip else 0
}.

(** ** Sums over the fences *)

Lemma owe_insert ip k p (m : gmap nat (iif_fence * option iif_direct_fence)) :
  m !! k = None →
  map_fold (fence_owes ip) 0 (<[k := p]> m)
  = p.1.(outstanding_block_wakelock) ip
    + map_fold (fence_owes ip) 0 m.
Proof.
  intros Hk. rewrite map_fold_insert_L; [done| |done]. intros. unfold fence_owes. lia.
Qed.

Lemma owe_delete ip k p (m : gmap nat (iif_fence * option iif_direct_fence)) :
  m !! k = Some p →
  map_fold (fence_owes ip) 0 m
  = p.1.(outstanding_block_wakelock) ip
    + map_fold (fence_owes ip) 0 (delete k m).
Proof.
  intros Hk. rewrite <-(owe_insert ip k p) by apply lookup_delete_eq. by rewrite insert_delete_id.
Qed.

Lemma owe_update ip k p p' (m : gmap nat (iif_fence * option iif_direct_fence)) :
  m !! k = Some p →
  map_fold (fence_owes ip) 0 (<[k := p']> m)
  + p.1.(outstanding_block_wakelock) ip
  = map_fold (fence_owes ip) 0 m
    + p'.1.(outstanding_block_wakelock) ip.
Proof.
  intros Hk. rewrite (owe_delete ip k p m Hk), <-insert_delete_eq.
  rewrite owe_insert by apply lookup_delete_eq. lia.
Qed.

(** ** A step of a thread *)

(** The thread [p0] becomes [p1], or [p1] is a new thread and [p0] empty. *)
Record tchange (l0 l : list (list op)) (p0 p1 : list op) : Prop := {
  tc_cnt (g : op → nat) : (cnt (cnt g) l + cnt g p0 = cnt (cnt g) l0 + cnt g p1)%nat;
  tc_in p : p ∈ l → p = p1 ∨ p ∈ l0;
  tc_old : p0 ∈ l0 ∨ p0 = []
}.

Lemma tchange_insert l i p0 p1 : l !! i = Some p0 → tchange l (<[i := p1]> l) p0 p1.
Proof.
  intros Hi. split.
  - intros g. by apply (cnt_insert (cnt g)).
  - intros p (j & Hj)%list_elem_of_lookup. apply list_lookup_insert_Some in Hj as [(_ & -> & _)|[_ Hj]];
      [by left|right]. by eapply list_elem_of_lookup_2.
  - left. by eapply list_elem_of_lookup_2.
Qed.

Lemma tchange_spawn l p : tchange l (l ++ [p]) [] p.
Proof.
  split.
  - intros g. rewrite cnt_app, cnt_cons, !cnt_nil. lia.
  - intros q [Hq|Hq]%elem_of_app; [by right|left]. by apply list_elem_of_singleton in Hq.
  - by right.
Qed.

Lemma tchange_none l : tchange l l [] [].
Proof. split; [done|by right|by right]. Qed.

(** The same ends of works and destructions. *)
Definition same_marks (k : nat) (p0 p1 : list op) : Prop :=
  ∀ o, o = Signaled_done k ∨ o = Waited_done k ∨ o = Free k → cnt (mark o) p1 = cnt (mark o) p0.

Lemma same_marks_special k p0 p1 : same_marks k p0 p1 → special k p0 → special k p1.
Proof.
  intros Hm. unfold special. rewrite <-!marked.
  rewrite !Hm by auto. done.
Qed.

Lemma tchange_users k l0 l p0 p1 (r : Prop) :
  tchange l0 l p0 p1 → same_marks k p0 p1 → (uses k p1 → uses k p0) →
  (∀ p, p ∈ l0 → uses k p → r ∨ special k p) → ∀ p, p ∈ l → uses k p → r ∨ special k p.
Proof.
  intros Ht Hm Hu Hr p [->|Hp]%(tc_in _ _ _ _ Ht) Hk; [|by apply Hr].
  apply Hu in Hk. destruct (tc_old _ _ _ _ Ht) as [Hp0| ->]; [|by apply uses_nil in Hk].
  destruct (Hr p0 Hp0 Hk) as [|Hs]; [by left|right]. by eapply same_marks_special.
Qed.

Lemma fence_inv_threads k l0 l p0 p1 f d :
  fence_inv k l0 f d → tchange l0 l p0 p1 → same_marks k p0 p1 → (uses k p1 → uses k p0) →
  (Free k ∈ p1 → destroy_phase k f p1) → fence_inv k l f d.
Proof.
  intros [] Ht Hm Hu Hp. split; try done.
  - by eapply tchange_users.
  - pose proof (tc_cnt _ _ _ _ Ht (mark (Signaled_done k))). rewrite (Hm (Signaled_done k)) in H by auto. lia.
  - pose proof (tc_cnt _ _ _ _ Ht (mark (Waited_done k))). rewrite (Hm (Waited_done k)) in H by auto. lia.
  - pose proof (tc_cnt _ _ _ _ Ht (mark (Free k))). rewrite (Hm (Free k)) in H by auto. lia.
  - intros p [->|Hin]%(tc_in _ _ _ _ Ht); auto.
Qed.

Lemma threads_owe_change ip w w' p0 p1 : tchange w.(threads) w'.(threads) p0 p1 →
  (threads_owe ip w' + cnt (op_owes ip) p0 = threads_owe ip w + cnt (op_owes ip) p1)%nat.
Proof. intros Ht. apply (tc_cnt _ _ _ _ Ht). Qed.

Lemma tchange_wf l0 l p0 p1 : tchange l0 l p0 p1 → (∀ p, p ∈ l0 → wf_thread p) → wf_thread p1 →
  ∀ p, p ∈ l → wf_thread p.
Proof. intros Ht Hl H1 p [->|Hp]%(tc_in _ _ _ _ Ht); auto. Qed.

Lemma tchange_none_uses l0 l p0 p1 k : tchange l0 l p0 p1 → (uses k p1 → uses k p0) →
  (∀ p, p ∈ l0 → ¬ uses k p) → ∀ p, p ∈ l → ¬ uses k p.
Proof.
  intros Ht Hu Hl p [->|Hp]%(tc_in _ _ _ _ Ht); [|by apply Hl].
  intros Hk%Hu. destruct (tc_old _ _ _ _ Ht) as [Hp0| ->]; [by apply (Hl p0)|by apply uses_nil in Hk].
Qed.

(** The wakelocks after a step: they change as what is owed. *)
Definition balance (e e' : Z → Z) (w w' : world) (p0 p1 : list op) : Prop :=
  ∀ ip, if decide (ip ∈ w.(registered))
        then w'.(wakelocks) ip + Z.of_nat (cnt (op_owes ip) p0) + fences_owe ip w + e ip
             = w.(wakelocks) ip + Z.of_nat (cnt (op_owes ip) p1) + fences_owe ip w' + e' ip
        else w'.(wakelocks) ip = 0.

Lemma balance_inv e e' w w' p0 p1 ip :
  inv e w → tchange w.(threads) w'.(threads) p0 p1 → w'.(registered) = w.(registered) →
  balance e e' w w' p0 p1 → w'.(wakelocks) ip =
    if decide (ip ∈ w'.(registered))
    then Z.of_nat (threads_owe ip w') + fences_owe ip w' + e' ip else 0.
Proof.
  intros Hi Ht Hr Hb. specialize (Hb ip). rewrite Hr.
  pose proof (inv_wakelocks _ _ Hi ip) as Hw. pose proof (threads_owe_change ip w w' p0 p1 Ht).
  destruct (decide _); [|done]. lia.
Qed.

(** A step that changes no fence. *)
Lemma inv_thread e e' w w' p0 p1 :
  inv e w → tchange w.(threads) w'.(threads) p0 p1 →
  w'.(fences) = w.(fences) → w'.(next) = w.(next) → w'.(pool) = w.(pool) →
  w'.(registered) = w.(registered) →
  (∀ k, same_marks k p0 p1) → (∀ k, uses k p1 → uses k p0) →
  (∀ k f d, w.(fences) !! k = Some (f, d) → Free k ∈ p1 → destroy_phase k f p1) →
  wf_thread p1 → balance e e' w w' p0 p1 → inv e' w'.
Proof.
  intros Hi Ht Hf Hn Hp Hr Hm Hu Hd Hw Hb. split; rewrite ?Hf, ?Hn, ?Hp.
  - intros k p Hk. apply (tchange_none_uses _ _ _ _ k Ht); [apply Hu|].
    intros q Hq. by apply (inv_none _ _ Hi k).
  - intros k f d Hk. eapply fence_inv_threads; eauto. by apply (inv_fence _ _ Hi).
  - eapply tchange_wf; [done| |done]. apply (inv_wf _ _ Hi).
  - apply (inv_next _ _ Hi).
  - apply (inv_pool _ _ Hi).
  - apply (inv_ids _ _ Hi).
  - rewrite Hr. apply (inv_registered _ _ Hi).
  - intros ip. by eapply balance_inv.
Qed.

(** A step that changes one fence. *)
Lemma world_update e e' w w' k f d f' d' p0 p1 :
  inv e w → w.(fences) !! k = Some (f, d) → tchange w.(threads) w'.(threads) p0 p1 →
  w'.(fences) = <[k := (f', d')]> w.(fences) → w'.(next) = w.(next) →
  w'.(pool) = (if negb f.(retired) && f'.(retired) then w.(pool) ∖ {[f.(id)]} else w.(pool)) →
  w'.(registered) = w.(registered) → f'.(id) = f.(id) →
  (f.(retired) = true → f'.(retired) = true) → fence_inv k w'.(threads) f' d' →
  (∀ k', k' ≠ k → same_marks k' p0 p1 ∧ (uses k' p1 → uses k' p0) ∧ Free k' ∉ p1) →
  wf_thread p1 → balance e e' w w' p0 p1 → inv e' w'.
Proof.
  intros Hi Hk Ht Hf Hn Hp Hr Hid Hret Hfi Ho Hw Hb.
  assert (∀ k' f2 d2, w'.(fences) !! k' = Some (f2, d2) →
    ∃ f1 d1, w.(fences) !! k' = Some (f1, d1) ∧ f1.(id) = f2.(id)
             ∧ (f2.(retired) = false → f1.(retired) = false)) as Hback.
  { intros k' f2 d2 Hk'. rewrite Hf in Hk'.
    destruct (decide (k' = k)) as [->|Hne].
    - rewrite lookup_insert_eq in Hk'. simplify_eq. exists f, d. split_and!; [done|done|].
      intros H2. destruct (retired f) eqn:E; [|done]. by rewrite Hret in H2.
    - rewrite lookup_insert_ne in Hk' by done. eauto 10. }
  split.
  - intros k' p Hk'. rewrite Hf in Hk'. apply lookup_insert_None in Hk' as [Hk' Hne].
    apply (tchange_none_uses _ _ _ _ k' Ht); [apply Ho; congruence|].
    intros q Hq. by apply (inv_none _ _ Hi k').
  - intros k' f2 d2 Hk'. rewrite Hf in Hk'. destruct (decide (k' = k)) as [->|Hne].
    + rewrite lookup_insert_eq in Hk'. by simplify_eq.
    + rewrite lookup_insert_ne in Hk' by done. destruct (Ho k' Hne) as (H1 & H2 & H3).
      eapply fence_inv_threads; [by apply (inv_fence _ _ Hi)|done|done|done|done].
  - eapply tchange_wf; [done| |done]. apply (inv_wf _ _ Hi).
  - rewrite Hn. intros k' Hk'. rewrite Hf, lookup_insert_ne; [by apply (inv_next _ _ Hi)|].
    intros ->. rewrite (inv_next _ _ Hi k' Hk') in Hk. done.
  - intros k' f2 d2 Hk' Hr2. destruct (Hback k' f2 d2 Hk') as (f1 & d1 & Hk1 & Hid1 & Hr1).
    rewrite <-Hid1. rewrite Hp. pose proof (inv_pool _ _ Hi k' f1 d1 Hk1 (Hr1 Hr2)) as Hin.
    destruct (_ && _) eqn:Hb'; [|done]. apply andb_true_iff in Hb' as [Hb1%negb_true_iff Hb2].
    apply elem_of_difference. split; [done|]. intros Heq%elem_of_singleton.
    assert (k' = k) as ->.
    { apply (inv_ids _ _ Hi k' f1 d1 k f d); auto. }
    rewrite Hf, lookup_insert_eq in Hk'. simplify_eq. congruence.
  - intros k1 f1 d1 k2 f2 d2 H1 H2 Hr1 Hr2 Heq.
    destruct (Hback _ _ _ H1) as (g1 & e1 & G1 & Gid1 & Gr1).
    destruct (Hback _ _ _ H2) as (g2 & e2 & G2 & Gid2 & Gr2).
    eapply (inv_ids _ _ Hi); eauto. congruence.
  - rewrite Hr. apply (inv_registered _ _ Hi).
  - intros ip. by eapply balance_inv.
Qed.

(** ** A section of a fence *)

Definition view_at (w : world) (f : iif_fence) (d : option iif_direct_fence) : view :=
  View f d (w.(table) f.(id)) w.(pool) [].

Lemma inv_vok e w k f d : inv e w → w.(fences) !! k = Some (f, d) →
  vok (view_at w f d) ∧ settled f.
Proof. intros Hi Hk. by destruct (inv_fence _ _ Hi k f d Hk). Qed.

Lemma vok_wakelocks_of v v' : vok (with_wakelocks_of v v') → vok v'.
Proof. intros [[] Hd]. by split; [split|]. Qed.

Lemma inv_section b e w k f d v' :
  inv e w → w.(fences) !! k = Some (f, d) → vrel_upto b (view_at w f d) v' →
  (∀ ip, 0 ≤ v'.(fence).(outstanding_block_wakelock) ip < 2 ^ 16) →
  (∀ p, p ∈ w.(threads) → Free k ∈ p → destroy_phase k f p → destroy_phase k v'.(fence) p) →
  inv (λ ip, e ip + f.(outstanding_block_wakelock) ip
             - v'.(fence).(outstanding_block_wakelock) ip) (put_view k v' w).
Proof.
  intros Hi Hk [Hr Hs] Hw Hp. destruct (inv_vok e w k f d Hi Hk) as [Hv Hset].
  pose proof (inv_fence _ _ Hi k f d Hk) as Hf.
  pose proof (vok_wakelocks_of _ _ (rel_vok _ _ _ Hr Hv)) as Hv'.
  eapply (world_update e _ w (put_view k v' w) k f d v'.(fence) v'.(direct) [] []);
    [done|done|apply tchange_none|done|done| |done| | | | |done|].
  - apply (rel_pool _ _ _ Hr Hv).
  - apply (rel_id _ _ _ Hr).
  - apply (rel_retired _ _ _ Hr).
  - destruct Hf. pose proof (rel_kref _ _ _ Hr) as Hkr. pose proof (rel_put_work _ _ _ Hr) as Hpw.
    pose proof (rel_running _ _ _ Hr) as Hrun. pose proof (rel_waited _ _ _ Hr) as Hwa.
    pose proof (rel_ident _ _ _ Hr) as Hid. cbn in *. split.
    + apply Hv'.
    + apply Hv'.
    + by apply Hs.
    + done.
    + by rewrite Hkr.
    + rewrite Hkr. done.
    + by rewrite Hrun.
    + by rewrite Hwa.
    + by rewrite Hkr, Hpw.
    + auto.
    + injection Hid as -> ->. done.
  - intros k' Hne. split_and!; [done|done|]. by intros ?%elem_of_nil.
  - intros ip. pose proof (inv_wakelocks _ _ Hi ip) as Hwl. cbn.
    destruct (decide _); [|done].
    pose proof (owe_update ip k (f, d) (v'.(fence), v'.(direct)) _ Hk) as Ho.
    unfold fences_owe. cbn in *. lia.
Qed.

Lemma phase_mono k f f' p :
  f'.(signaled_work) = f.(signaled_work) → f'.(waited_work) = f.(waited_work) →
  (∀ ip, f.(outstanding_block_wakelock) ip = 0 → f'.(outstanding_block_wakelock) ip = 0) →
  destroy_phase k f p → destroy_phase k f' p.
Proof.
  intros H1 H2 Hw Hp. assert (idle f → idle f') as Hidle by (unfold idle; by rewrite H1, H2).
  destruct Hp; constructor; auto.
Qed.

(** An op that is of a user or of a work, not of the end of a fence. *)
Definition acting (o : op) : bool :=
  match o with
  | Destroy_flush _ | Destroy _ | Broadcast _ | Destroy_release _ | Release _ _ | Free _ => false
  | _ => true
  end.

Lemma phase_head k f o p : destroy_phase k f (o :: p) → acting o = false.
Proof.
  intros Hp. remember (o :: p) as l eqn:Hl. destruct Hp as [| | | |q _ _ Hq];
    unfold iif_fence_do_destroy in *; simplify_eq/=; try done.
  destruct Hq as [|o' q [ip ->] _]; by simplify_eq/=.
Qed.

(** While a user or a work acts on a fence, the end of the fence has not passed the
    point where it waits for the works. *)
Lemma phase_acting e w i o p k f d p' :
  inv e w → w.(fences) !! k = Some (f, d) → w.(threads) !! i = Some (o :: p) →
  k ∈ op_fences o → acting o = true → p' ∈ w.(threads) → Free k ∈ p' →
  p' = iif_fence_do_destroy k.
Proof.
  intros Hi Hk Hp Hko Ha Hp' Hfree. destruct (inv_fence _ _ Hi k f d Hk).
  pose proof (fi_phase0 p' Hp' Hfree) as Hph.
  assert (o :: p ∈ w.(threads)) as Hop by by eapply list_elem_of_lookup_2.
  assert (uses k (o :: p)) as Hu by (apply uses_cons; by left).
  assert (¬ idle f → p' = iif_fence_do_destroy k) as Hidle by by destruct Hph.
  apply Hidle. intros [Hi1 Hi2]. unfold work_idle in *.
  apply negb_true_iff, orb_false_iff in Hi1 as [_ Hi1], Hi2 as [_ Hi2].
  rewrite Hi1 in fi_signaled0. rewrite Hi2 in fi_waited0. simpl in *.
  assert (f.(kref) = 0) as H0.
  { assert (0 < cnt (mark (Free k)) p')%nat by by apply marked.
    apply list_elem_of_lookup in Hp' as [j Hj].
    pose proof (cnt_lookup (cnt (mark (Free k))) _ _ _ Hj).
    destruct (decide (f.(kref) = 0)); [done|]. rewrite one_no in fi_free0 by done. lia. }
  destruct (fi_users0 _ Hop Hu) as [?|[Hs|[Hs|Hs]]]; [lia|..].
  - apply marked in Hs. pose proof (cnt_lookup (cnt (mark (Signaled_done k))) _ _ _ Hp). lia.
  - apply marked in Hs. pose proof (cnt_lookup (cnt (mark (Waited_done k))) _ _ _ Hp). lia.
  - pose proof (phase_head _ _ _ _ (fi_phase0 _ Hop Hs)). congruence.
Qed.

Lemma same_marks_ops k o q p : final o = false → Forall (λ o, final o = false) q →
  same_marks k (o :: p) (q ++ p).
Proof.
  intros Ho Hq m Hm. rewrite cnt_cons, cnt_app.
  assert (∀ o', final o' = false → mark m o' = 0%nat) as Hz.
  { intros o' Ho'. apply one_no. intros ->. by destruct Hm as [-> |[-> | ->]]. }
  rewrite (Hz o Ho). rewrite (proj2 (cnt_zero (mark m) q)); [done|].
  intros o' Ho'. rewrite Forall_forall in Hq. auto.
Qed.

(** The first op of a thread is replaced by others on the same fences. *)
Lemma inv_ops e e' w w' i o q p :
  inv e w → w.(threads) !! i = Some (o :: p) → final o = false →
  Forall (λ o', final o' = false ∧ op_ok o' ∧ op_fences o' ⊆ op_fences o) q →
  (∀ k f d, w.(fences) !! k = Some (f, d) →
     destroy_phase k f (o :: p) → destroy_phase k f (q ++ p)) →
  w'.(fences) = w.(fences) → w'.(next) = w.(next) → w'.(pool) = w.(pool) →
  w'.(registered) = w.(registered) → w'.(threads) = w.(threads) →
  (∀ ip, if decide (ip ∈ w.(registered))
         then w'.(wakelocks) ip + Z.of_nat (op_owes ip o) + e ip
              = w.(wakelocks) ip + Z.of_nat (cnt (op_owes ip) q) + e' ip
         else w'.(wakelocks) ip = 0) →
  inv e' (set_threads (<[i := q ++ p]> w'.(threads)) w').
Proof.
  intros Hi Hp Ho Hq Hph Hf Hn Hpool Hr Ht Hb.
  assert (Forall (λ o', final o' = false) q) as Hfq by (eapply Forall_impl; [done|by intros ? []]).
  eapply (inv_thread e e' w _ (o :: p) (q ++ p)); try done.
  - cbn. rewrite Ht. by apply tchange_insert.
  - intros k. by apply same_marks_ops.
  - intros k [Hu|Hu]%uses_app; apply uses_cons; [left|by right].
    apply list_elem_of_bind in Hu as (o' & Ho' & Hk).
    rewrite Forall_forall in Hq. by apply (Hq o').
  - intros k f d Hk Hfree. apply (Hph k f d Hk). apply (inv_fence _ _ Hi k f d Hk).
    + by eapply list_elem_of_lookup_2.
    + apply elem_of_app in Hfree as [Hfree|Hfree]; [|by right].
      rewrite Forall_forall in Hfq. by apply Hfq in Hfree.
  - apply wf_app; [eapply Forall_impl; [exact Hq|by intros ? (? & ? & ?)]|].
    by destruct (inv_wf _ _ Hi _ (list_elem_of_lookup_2 _ _ _ Hp)) as [_ [_ Hw]].
  - intros ip. specialize (Hb ip). rewrite cnt_cons, cnt_app. unfold fences_owe.
    cbn [fences wakelocks set_threads]. rewrite Hf. destruct (decide _); [lia|done].
Qed.
