(* ===== verification/IifSteps.v ===== *)
(** * Inter-IP fences: one op of a thread keeps the invariant *)

From S2P Require Import Prelude.
From S2P Require Import Interleaving.
From S2P Require Import IifTable.
From S2P Require Import IifFence.
From S2P Require Import IifSystem.
From S2P Require Import IifInv.
From S2P Require Import IifWorld.

Definition none : Z → Z := λ _, 0.

(** The ops [q] take the place of the first op of the thread [i], before [p]. *)
Definition step_ok (i : nat) (p q : list op) (w : world) : Prop :=
  inv none (set_threads (<[i := q ++ p]> w.(threads)) w).

Lemma inv_ext e e' w : (∀ ip, e ip = e' ip) → inv e w → inv e' w.
Proof. intros He []. split; try done. intros ip. by rewrite <-He. Qed.

Lemma inv_alive e w p k : inv e w → p ∈ w.(threads) → uses k p →
  ∃ f d, w.(fences) !! k = Some (f, d).
Proof.
  intros Hi Hp Hu. destruct (w.(fences) !! k) as [[f d]|] eqn:Hk; [by eauto|].
  by destruct (inv_none _ _ Hi k p Hk Hp).
Qed.

Lemma head_alive e w i o p k : inv e w → w.(threads) !! i = Some (o :: p) → k ∈ op_fences o →
  ∃ f d, w.(fences) !! k = Some (f, d).
Proof.
  intros Hi Hp Hk. eapply inv_alive; [done|by eapply list_elem_of_lookup_2|].
  apply uses_cons. by left.
Qed.

Lemma wp_view {A} k (F : view → outcome (A * view)) w f d Q :
  w.(fences) !! k = Some (f, d) →
  wp (F (view_at w f d)) (λ r, Q (r.1, put_view k r.2 w)) → wp (on_view k F w) Q.
Proof.
  intros Hk HF. unfold on_view, view_of. rewrite Hk. cbn [must mbind outcome_bind].
  fold (view_at w f d). destruct (F (view_at w f d)) as [[x v']| |]; done.
Qed.

Lemma wp_locked {A} k (F : view → outcome (A * view)) w f d Q :
  w.(fences) !! k = Some (f, d) → wp (on_view k F w) Q → wp (locked k F w) Q.
Proof.
  intros Hk HF. unfold locked, view_of. rewrite Hk. cbn [must mbind outcome_bind fence].
  by destruct (fence_lock f).
Qed.

Definition fits (f : iif_fence) : Prop := ∀ ip, 0 ≤ f.(outstanding_block_wakelock) ip < 2 ^ 16.

(** The ops that a section leaves to do. *)
Definition follows (o : op) (q : list op) : Prop :=
  Forall (λ o', final o' = false ∧ op_ok o' ∧ op_fences o' ⊆ op_fences o) q.

(** A section of an op, and what follows it. *)
Lemma wp_section {A} i o p w k (F : view → outcome (A * view)) (P : A → iif_fence → iif_fence → Prop) :
  inv none w → w.(threads) !! i = Some (o :: p) → k ∈ op_fences o → final o = false →
  acting o = true →
  (∀ v, vok v → settled v.(fence) → fits v.(fence) →
     wp (F v) (λ r, (∃ b, vrel_upto b v r.2) ∧ fits r.2.(fence) ∧ P r.1 v.(fence) r.2.(fence))) →
  wp (on_view k F w) (λ r, ∃ f f', P r.1 f f' ∧ (∃ d, r.2.(fences) !! k = Some (f', d)) ∧
    ∀ q, follows o q →
      (∀ ip, ip ∈ w.(registered) →
             Z.of_nat (cnt (op_owes ip) q) + f'.(outstanding_block_wakelock) ip
             = Z.of_nat (op_owes ip o) + f.(outstanding_block_wakelock) ip) →
      step_ok i p q r.2).
Proof.
  intros Hi Hp Hk Hfo Ha HF. destruct (head_alive _ _ _ _ _ _ Hi Hp Hk) as (f & d & Hkf).
  destruct (inv_vok _ _ _ _ _ Hi Hkf) as [Hv Hs].
  eapply wp_view; [done|]. eapply wp_mono; [apply HF; [done|done|]|].
  { intros ip. by apply (inv_fence _ _ Hi k f d Hkf). }
  intros [x v'] [[b Hr] [Hfit HP]]. cbn [fst snd] in *. exists f, v'.(fence).
  split_and!; [done|exists v'.(direct); apply lookup_insert_eq|].
  intros q Hq Ho.
  eapply (inv_ops _ none (put_view k v' w)); cbn [threads put_view]; try done.
  - apply (inv_section b none w k f d v'); try done.
    intros p' Hp' Hfree _. rewrite (phase_acting _ _ _ _ _ _ _ _ p' Hi Hkf Hp Hk Ha Hp' Hfree).
    apply Phase_flush.
  - intros k' f' d' _ Hph. apply phase_head in Hph. congruence.
  - intros ip. specialize (Ho ip). cbn [registered wakelocks put_view].
    pose proof (inv_wakelocks _ _ Hi ip) as Hw. destruct (decide _) as [Hr'|]; [|done].
    specialize (Ho Hr'). cbn. unfold none. lia.
Qed.

(** An op that changes no fence. *)
Lemma step_thread i o p w w' q :
  inv none w → w.(threads) !! i = Some (o :: p) → final o = false → acting o = true →
  follows o q →
  w'.(fences) = w.(fences) → w'.(next) = w.(next) → w'.(pool) = w.(pool) →
  w'.(registered) = w.(registered) → w'.(threads) = w.(threads) →
  (∀ ip, if decide (ip ∈ w.(registered))
         then w'.(wakelocks) ip + Z.of_nat (op_owes ip o)
              = w.(wakelocks) ip + Z.of_nat (cnt (op_owes ip) q)
         else w'.(wakelocks) ip = 0) →
  step_ok i p q w'.
Proof.
  intros Hi Hp Hfo Ha Hq H1 H2 H3 H4 H5 Hb. eapply (inv_ops none none w w' i o); try done.
  - intros k f d _ Hph. apply phase_head in Hph. congruence.
  - intros ip. specialize (Hb ip). unfold none. destruct (decide _); [lia|done].
Qed.

(** [step_thread] where the wakelocks do not change. *)
Lemma step_same i o p w q :
  inv none w → w.(threads) !! i = Some (o :: p) → final o = false → acting o = true →
  follows o q → (∀ ip, ip ∈ w.(registered) → op_owes ip o = cnt (op_owes ip) q) →
  step_ok i p q w.
Proof.
  intros Hi Hp Hfo Ha Hq Ho. eapply step_thread; try done.
  intros ip. specialize (Ho ip). pose proof (inv_wakelocks _ _ Hi ip) as Hw.
  destruct (decide _) as [Hr|]; [|done]. rewrite Ho by done. lia.
Qed.

(** ** Sections of a user *)

Lemma fits_same v v' b : vrel b v v' → fits v.(fence) → fits v'.(fence).
Proof. intros Hr Hf ip. rewrite (rel_wakelock _ _ _ Hr). apply Hf. Qed.

(** A section that leaves the wakelocks alone. *)
Lemma wp_section_same {A} i o p w k b (F : view → outcome (A * view)) :
  inv none w → w.(threads) !! i = Some (o :: p) → k ∈ op_fences o → final o = false →
  acting o = true → (∀ ip, op_owes ip o = 0%nat) →
  (∀ v, vok v → settled v.(fence) → wp (F v) (λ r, vrel b v r.2 ∧ settled r.2.(fence))) →
  wp (on_view k F w) (λ r, (∃ f d, r.2.(fences) !! k = Some (f, d)) ∧
    ∀ q, follows o q → (∀ ip, cnt (op_owes ip) q = 0%nat) → step_ok i p q r.2).
Proof.
  intros Hi Hp Hk Hfo Ha Ho HF.
  eapply wp_mono; [eapply (wp_section i o p w k F
    (λ _ f f', f'.(outstanding_block_wakelock) = f.(outstanding_block_wakelock)))|]; try done.
  - intros v Hv Hs Hfit. eapply wp_mono; [by apply HF|]. intros [x v'] [Hr Hs']. split_and!.
    + exists b. by apply vrel_is_upto.
    + by eapply fits_same.
    + by apply (rel_wakelock _ _ _ Hr).
  - intros r (f & f' & Hw & (d & Hkd) & Hq). split; [by eauto|]. intros q Hfq Hoq.
    apply Hq; [done|]. intros ip _. rewrite Hw, Hoq, Ho. lia.
Qed.

Ltac follow :=
  repeat (apply Forall_cons; split; [split_and!; [done|done|set_solver]|]); apply Forall_nil; done.

Lemma of_keeps {A} (F : view → outcome (A * view)) b :
  (∀ v, wp (F v) (λ r, keeps b v r.2)) →
  ∀ v, vok v → settled v.(fence) → wp (F v) (λ r, vrel b v r.2 ∧ settled r.2.(fence)).
Proof.
  intros HF v Hv Hs. eapply wp_mono; [apply HF|]. intros r Hk. split; [apply Hk|].
  by apply (keeps_settled _ _ _ Hk).
Qed.

Lemma signal_step i k error async p w :
  inv none w → w.(threads) !! i = Some (Signal k error async :: p) →
  wp (iif_fence_signal_and_update k error async w) (λ r, step_ok i p r.1 r.2).
Proof.
  intros Hi Hp. unfold iif_fence_signal_and_update.
  destruct (head_alive _ _ _ _ _ k Hi Hp) as (f & d & Hk); [by left|].
  apply wp_bind, (wp_locked _ _ _ f d); [done|].
  eapply wp_mono; [eapply (wp_section_same i _ p w k true); try done; [by left|];
    intros v Hv Hs; by apply signal_vrel|].
  intros [ret w1] [(f1 & d1 & Hk1) Hq]. cbn [fst snd] in *. rewrite Hk1.
  cbn [must mbind outcome_bind wp fst snd].
  destruct (_ && _); [|destruct (_ && _)]; apply Hq; done || follow.
Qed.

Lemma signaler_done_step i k async signal p w :
  inv none w → w.(threads) !! i = Some (Signaler_done k async signal :: p) →
  wp (signaler_done k async signal w) (λ r, step_ok i p r.1 r.2).
Proof.
  intros Hi Hp. unfold signaler_done.
  destruct (head_alive _ _ _ _ _ k Hi Hp) as (f & d & Hk); [by left|].
  apply wp_bind, (wp_locked _ _ _ f d); [done|].
  eapply wp_mono; [eapply (wp_section_same i _ p w k false); try done; [by left|];
    intros v Hv Hs; by apply signaler_done_vrel|].
  intros [[ret waited] w1] [_ Hq]. cbn [fst snd wp] in *.
  destruct waited, signal, async; try destruct (_ && _); apply Hq; done || follow.
Qed.

(** What one locked section does, with nothing to follow. *)
Lemma section_step {A} i o p w k b (F : view → outcome (A * view)) q :
  inv none w → w.(threads) !! i = Some (o :: p) → op_fences o = [k] → final o = false →
  acting o = true → (∀ ip, op_owes ip o = 0%nat) →
  (∀ v, vok v → settled v.(fence) → wp (F v) (λ r, vrel b v r.2 ∧ settled r.2.(fence))) →
  follows o q → (∀ ip, cnt (op_owes ip) q = 0%nat) →
  wp (on_view k F w) (λ r, step_ok i p q r.2).
Proof.
  intros Hi Hp Hk Hfo Ha Ho HF Hq Hoq.
  eapply wp_mono; [eapply (wp_section_same i o p w k b); try done; rewrite Hk; by left|].
  intros r [_ H]. by apply H.
Qed.

Lemma update_step i o p w k b F q :
  inv none w → w.(threads) !! i = Some (o :: p) → op_fences o = [k] → final o = false →
  acting o = true → (∀ ip, op_owes ip o = 0%nat) →
  (∀ v, keeps b v (with_fence (F v.(fence)) v)) →
  follows o q → (∀ ip, cnt (op_owes ip) q = 0%nat) →
  wp (update k F w) (λ r, r.1 = [] ∧ step_ok i p q r.2).
Proof.
  intros Hi Hp Hk Hfo Ha Ho HF Hq Hoq. unfold update. apply wp_bind.
  eapply wp_mono; [eapply (section_step i o p w k b); try done|].
  - apply of_keeps. intros v. apply HF.
  - intros [x w']. done.
Qed.

(** The ops of a user that lock a fence or change it, and end there. *)
Lemma simple_steps i o p w :
  inv none w → w.(threads) !! i = Some (o :: p) →
  match o with
  | Lock _ | Schedule_waited _ | Remove_waiter _ _ | Sync_file_inc _ | Sync_file_dec _
  | Sync_file_release _ | Remove_poll _ _ => True
  | _ => False
  end →
  ∀ driver, wp (exec i driver o w) (λ r, step_ok i p r.1 r.2).
Proof.
  intros Hi Hp Ho driver.
  assert (∀ k, k ∈ op_fences o → ∃ f d, w.(fences) !! k = Some (f, d)) as Hal.
  { intros k Hk. by eapply head_alive. }
  destruct o as [| | |k| | | | | | |k| | | | | |k ip|k|k|k|k cb| | | | | |]; try done;
    destruct (Hal k) as (f & d & Hk); try (by left); cbn [exec].
  - apply wp_bind, (wp_locked _ _ _ f d); [done|].
    eapply wp_mono; [eapply (section_step i _ p w k false _ []); try done|by intros []].
    + apply of_keeps. intros v. keep.
    + apply Forall_nil. done.
  - eapply wp_mono; [eapply (update_step i _ p w k true _ []); try done|].
    + intros v. keep.
    + apply Forall_nil. done.
    + by intros [q w'] [-> H].
  - unfold iif_fence_remove_waiter. apply wp_bind, (wp_locked _ _ _ f d); [done|].
    eapply wp_mono; [eapply (section_step i _ p w k false _ []); try done|by intros []].
    + intros v Hv Hs. apply wp_bind. eapply wp_mono; [by apply remove_waiter_vrel|]. done.
    + apply Forall_nil. done.
  - eapply wp_mono; [eapply (update_step i _ p w k true _ []); try done|].
    + intros v. keep.
    + apply Forall_nil. done.
    + by intros [q w'] [-> H].
  - unfold sync_file_dec. rewrite Hk. cbn [must mbind outcome_bind]. apply wp_bind.
    eapply wp_mono; [eapply (update_step i _ p w k true _
      (if f.(num_sync_file) - 1 =? 0 then [Sync_file_release k] else [])); try done|].
    + intros v. keep.
    + case_match; follow.
    + intros ip. by case_match.
    + intros [q w'] [_ H]. done.
  - unfold iif_fence_on_sync_file_release. apply wp_bind, (wp_locked _ _ _ f d); [done|].
    eapply wp_mono; [eapply (section_step i _ p w k false _ []); try done|by intros []].
    + intros v Hv Hs. apply wp_bind. eapply wp_mono; [by apply retire_if_possible|].
      intros v' (H1 & _ & H2). done.
    + apply Forall_nil. done.
  - apply wp_bind, (wp_locked _ _ _ f d); [done|].
    eapply wp_mono; [eapply (section_step i _ p w k true _ []); try done|by intros []].
    + intros v Hv Hs. pose proof (atomic_vrel (Iif_fence_remove_poll_callback cb) v Hv Hs I) as H.
      split; [apply H|]. by apply (keeps_settled _ _ _ H).
    + apply Forall_nil. done.
Qed.

(** ** Wakelocks of a fence *)

Lemma owes_replicate ip k ip' n :
  cnt (op_owes ip) (replicate n (Release k ip')) = if decide (ip' = ip) then n else 0%nat.
Proof.
  induction n as [|n IH]; [by case_decide|]. cbn [replicate]. rewrite cnt_cons, IH. simpl.
  unfold one. case_decide; lia.
Qed.

Lemma owes_seqZ ip k locks n m :
  cnt (op_owes ip) (seqZ m (Z.of_nat n) ≫= λ ip', replicate (Z.to_nat (locks ip')) (Release k ip'))
  = if decide (m ≤ ip < m + Z.of_nat n) then Z.to_nat (locks ip) else 0%nat.
Proof.
  revert m. induction n as [|n IH]; intros m; [by rewrite decide_False by lia|].
  rewrite seqZ_cons by lia. cbn [mbind list_bind]. rewrite cnt_app, owes_replicate.
  replace (Z.pred (Z.of_nat (S n))) with (Z.of_nat n) by lia.
  change (list_bind _ _ ?f ?l) with (l ≫= f). rewrite IH.
  destruct (decide (m = ip)) as [->|]; repeat case_decide; lia.
Qed.

Lemma owes_releases ip k locks : 0 ≤ ip < IIF_IP_NUM →
  cnt (op_owes ip) (iif_fence_release_block_wakelocks k locks) = Z.to_nat (locks ip).
Proof.
  intros Hip. unfold iif_fence_release_block_wakelocks.
  change IIF_IP_RESERVED with (Z.of_nat 16). rewrite owes_seqZ, decide_True; [done|].
  unfold IIF_IP_NUM in Hip. lia.
Qed.

Lemma releases_ops k locks o :
  o ∈ iif_fence_release_block_wakelocks k locks → ∃ ip, o = Release k ip.
Proof.
  intros (ip & Ho & _)%list_elem_of_bind. apply elem_of_replicate in Ho as [-> _]. eauto.
Qed.

Lemma waited_step i k p w :
  inv none w → w.(threads) !! i = Some (Waited k :: p) →
  wp (iif_fence_waited_work_func k w) (λ r, step_ok i p r.1 r.2).
Proof.
  intros Hi Hp. unfold iif_fence_waited_work_func.
  destruct (head_alive _ _ _ _ _ k Hi Hp) as (f & d & Hk); [by left|].
  apply wp_bind, (wp_locked _ _ _ f d); [done|].
  eapply wp_mono; [eapply (wp_section i _ p w k _ (λ locks f f', ∀ ip,
    0 ≤ locks ip ∧ locks ip + f'.(outstanding_block_wakelock) ip
                   = f.(outstanding_block_wakelock) ip)); try done; [by left|]|].
  - intros v Hv Hs Hfit. unfold of_fence, waited_work_locked. destruct (negb _); simpl.
    + split_and!; [|done|intros ip; lia].
      exists false. apply keeps_upto. keep.
    + split_and!.
      * exists false. apply wakelocks_upto.
      * intros ip. cbn. specialize (Hfit ip). pose proof (ok_per_ip _ (proj1 Hv) ip).
        case_match; lia.
      * intros ip. cbn. case_match eqn:He; [apply Z.ltb_lt in He|]; lia.
  - intros [locks w1] (f0 & f' & Hl & _ & Hq). cbn [fst snd wp] in *. apply Hq.
    + apply Forall_forall. intros o (ip & ->)%releases_ops. split_and!; [done|done|set_solver].
    + intros ip Hr. rewrite owes_releases by by apply (inv_registered _ _ Hi).
      specialize (Hl ip). simpl. lia.
Qed.

Lemma waiter_completed_step i k ip p w :
  inv none w → w.(threads) !! i = Some (Waiter_completed k ip :: p) →
  wp (iif_fence_waiter_completed k ip w) (λ r, step_ok i p r.1 r.2).
Proof.
  intros Hi Hp. unfold iif_fence_waiter_completed.
  destruct (head_alive _ _ _ _ _ k Hi Hp) as (f & d & Hk); [by left|].
  apply wp_bind, (wp_locked _ _ _ f d); [done|].
  eapply wp_mono; [eapply (wp_section i _ p w k _ (λ (release : bool) f f', ∀ ip',
    f.(outstanding_block_wakelock) ip'
    = f'.(outstanding_block_wakelock) ip' + if release then Z.of_nat (one (ip = ip')) else 0));
    try done; [by left|]|].
  - intros v Hv Hs Hfit. apply wp_bind. eapply wp_mono; [by apply remove_waiter_vrel|].
    intros v1 [Hr Hs1]. pose proof (rel_wakelock _ _ _ Hr) as Hw.
    pose proof (fits_same _ _ _ Hr Hfit) as Hfit1.
    destruct (_ && _) eqn:Hb; simpl.
    + apply andb_true_iff in Hb as [_ Hb%negb_true_iff%Z.eqb_neq].
      pose proof (Hfit1 ip) as Hfip. split_and!.
      * exists false. destruct (wakelocks_upto false v1 (at_ip ip
          (u16 (outstanding_block_wakelock (fence v1) ip - 1)) (outstanding_block_wakelock (fence v1))))
          as [Hu1 Hu2]. split; [|intros _; by apply Hu2].
        eapply vrel_trans; [exact Hr|]. unfold with_wakelocks_of in *. rewrite <-Hw. exact Hu1.
      * intros ip'. cbn. unfold at_ip. case_match; [|apply Hfit1]. rewrite u16_small by lia. lia.
      * intros ip'. cbn. unfold at_ip. rewrite <-Hw. case_match eqn:He.
        -- apply Z.eqb_eq in He as ->. rewrite u16_small, one_yes by lia || done. lia.
        -- apply Z.eqb_neq in He. rewrite one_no by congruence. lia.
    + split_and!; [|done|intros ip'; rewrite Hw; lia].
      exists false. by apply vrel_is_upto.
  - intros [release w1] (f0 & f' & Hl & _ & Hq). cbn [fst snd wp] in *.
    apply Hq; [destruct release; follow|]. intros ip' _. rewrite (Hl ip').
    destruct release; rewrite ?cnt_cons, ?cnt_nil; simpl; lia.
Qed.
