(* ===== verification/IifSubmit.v ===== *)
(** * Inter-IP fences: submissions keep the invariant *)

From S2P Require Import Prelude.
From S2P Require Import Interleaving.
From S2P Require Import IifTable.
From S2P Require Import IifFence.
From S2P Require Import IifSystem.
From S2P Require Import IifInv.
From S2P Require Import IifWorld.
From S2P Require Import IifSteps.

(** ** Acquiring *)

Lemma acquire_result ip driver w :
  let r := iif_manager_acquire_block_wakelock ip driver w in
  r.2.(fences) = w.(fences) ∧ r.2.(next) = w.(next) ∧ r.2.(pool) = w.(pool)
  ∧ r.2.(registered) = w.(registered) ∧ r.2.(threads) = w.(threads)
  ∧ ∀ ip', (r.1 = 0 → ip' ∈ w.(registered) → r.2.(wakelocks) ip' = w.(wakelocks) ip' + Z.of_nat (one (ip = ip')))
    ∧ (r.1 ≠ 0 → r.2.(wakelocks) ip' = w.(wakelocks) ip')
    ∧ (ip' ∉ w.(registered) → r.2.(wakelocks) ip' = w.(wakelocks) ip').
Proof.
  cbv zeta. unfold iif_manager_acquire_block_wakelock.
  case_match; [by split_and!|]. case_bool_decide; simpl; [|split_and!; try done].
  - case_match eqn:Hd; simpl.
    + split_and!; try done. intros ip'. split_and!; try done.
      intros ->. done.
    + split_and!; try done. intros ip'. unfold at_ip. destruct (Z.eqb_spec ip' ip) as [->|].
      * rewrite one_yes by done. split_and!; done || lia.
      * rewrite one_no by congruence. split_and!; done || lia.
  - intros ip'. split_and!; try done. intros _ Hr. rewrite one_no; [lia|]. congruence.
Qed.

(** The step that asks for the wakelock of [ip]: it has [q1] left if it gets it. *)
Lemma acquire_step i o p w ip driver q1 q2 :
  inv none w → w.(threads) !! i = Some (o :: p) → final o = false → acting o = true →
  follows o q1 → follows o q2 →
  (∀ ip', cnt (op_owes ip') q1 = (op_owes ip' o + one (ip = ip'))%nat) →
  (∀ ip', cnt (op_owes ip') q2 = op_owes ip' o) →
  let r := iif_manager_acquire_block_wakelock ip driver w in
  step_ok i p (if r.1 =? 0 then q1 else q2) r.2.
Proof.
  intros Hi Hp Hf Ha Hq1 Hq2 H1 H2. cbv zeta.
  destruct (acquire_result ip driver w) as (R1 & R2 & R3 & R4 & R5 & R6).
  eapply (step_thread i o p w); try done; [by case_match|].
  intros ip'. destruct (R6 ip') as (W1 & W2 & W3). pose proof (inv_wakelocks _ _ Hi ip') as Hw.
  destruct (decide _) as [Hr|Hr]; [|by rewrite W3].
  case_match eqn:He; [apply Z.eqb_eq in He|apply Z.eqb_neq in He].
  - rewrite W1, H1 by done. lia.
  - rewrite W2, H2 by done. lia.
Qed.

Lemma owes_fmap ip k ips :
  cnt (op_owes ip) ((λ ip', Release k ip') <$> ips) = cnt (λ ip', one (ip' = ip)) ips.
Proof. induction ips as [|ip' ips IH]; [done|]. by rewrite fmap_cons, !cnt_cons, IH. Qed.

Lemma owes_ins ip ip' ks :
  cnt (op_owes ip) (iif_fences_release_block_wakelock ks ip')
  = if decide (ip' = ip) then length ks else 0%nat.
Proof.
  unfold iif_fences_release_block_wakelock. rewrite <-(length_reverse ks).
  induction (reverse ks) as [|k l IH]; [by case_decide|].
  rewrite fmap_cons, cnt_cons, IH. simpl. unfold one. case_decide; lia.
Qed.

Lemma cnt_reverse {A} (g : A → nat) l : cnt g (reverse l) = cnt g l.
Proof. unfold cnt. induction l as [|x l IH]; [done|]. rewrite reverse_cons, sum_list_with_app, IH. simpl. lia. Qed.

Lemma cnt_concat {A} (g : A → nat) l : cnt g (concat l) = cnt (cnt g) l.
Proof. induction l as [|x l IH]; [done|]. simpl. rewrite cnt_app, IH. done. Qed.

Lemma owes_held ip ks held : (length held ≤ length ks)%nat →
  cnt (op_owes ip) (iif_fences_release_block_wakelock_of_waiters ks held)
  = cnt (cnt (λ ip', one (ip' = ip))) held.
Proof.
  intros Hl. unfold iif_fences_release_block_wakelock_of_waiters.
  rewrite cnt_concat, cnt_reverse. revert ks Hl.
  induction held as [|ips held IH]; intros [|k ks] Hl; simpl in *; try done || lia.
  rewrite owes_fmap. f_equal. apply IH. lia.
Qed.

Lemma owes_release_command ip c held : (length held ≤ length c.(outs))%nat →
  cnt (op_owes ip) (release_command c held)
  = ((if decide (c.(waiter_ip) = ip) then length c.(ins) else 0)
     + cnt (cnt (λ ip', one (ip' = ip))) held)%nat.
Proof. intros Hl. unfold release_command. rewrite cnt_app, owes_held, owes_ins by done. lia. Qed.

Lemma follows_releases o ks ip : (∀ k, k ∈ ks → k ∈ op_fences o) →
  follows o (iif_fences_release_block_wakelock ks ip).
Proof.
  intros Hk. apply Forall_forall. intros o' (k & -> & Hin)%list_elem_of_fmap.
  split_and!; [done|done|]. intros k' ->%list_elem_of_singleton. apply Hk. by apply elem_of_reverse.
Qed.

Lemma follows_app o q1 q2 : follows o q1 → follows o q2 → follows o (q1 ++ q2).
Proof. apply Forall_app_2. Qed.

Lemma follows_release_command o c held : op_fences o = c.(ins) ++ c.(outs) →
  follows o (release_command c held).
Proof.
  intros Ho. apply follows_app.
  - apply Forall_forall. intros o' Hin. unfold iif_fences_release_block_wakelock_of_waiters in Hin.
    apply list_elem_of_In, in_concat in Hin as (l & Hl & Hin). apply list_elem_of_In in Hl, Hin.
    apply elem_of_reverse, elem_of_lookup_zip_with in Hl as (j & k & ips & -> & Hk & _).
    apply list_elem_of_fmap in Hin as (ip & -> & _). split_and!; [done|done|].
    intros k' ->%list_elem_of_singleton. rewrite Ho. apply elem_of_app. right.
    by eapply list_elem_of_lookup_2.
  - apply follows_releases. intros k Hk. rewrite Ho. apply elem_of_app. by left.
Qed.

Lemma follows_return o ret : follows o [Return ret].
Proof. follow. Qed.

#[export] Hint Resolve follows_app follows_return : iif.

Lemma head_ok e w i o p : inv e w → w.(threads) !! i = Some (o :: p) → op_ok o.
Proof. intros Hi Hp. by destruct (inv_wf _ _ Hi _ (list_elem_of_lookup_2 _ _ _ Hp)) as [_ [H _]]. Qed.

Lemma acquire_in_step i c n driver p w :
  inv none w → w.(threads) !! i = Some (Acquire_in c n :: p) →
  wp (iif_fences_acquire_block_wakelock c n driver w) (λ r, step_ok i p r.1 r.2).
Proof.
  intros Hi Hp. destruct (head_ok _ _ _ _ _ Hi Hp) as [Hc Hn].
  unfold iif_fences_acquire_block_wakelock. destruct (ins c !! n) as [k|] eqn:Hk.
  - destruct (head_alive _ _ _ _ _ k Hi Hp) as (f & d & Hkf).
    { apply elem_of_app. left. by eapply list_elem_of_lookup_2. }
    rewrite Hkf. cbn [must mbind outcome_bind].
    pose proof (acquire_step i _ p w (waiter_ip c) driver [Acquire_in c (S n)]
      (iif_fences_release_block_wakelock (take n (ins c)) (waiter_ip c) ++ [Return (iif_manager_acquire_block_wakelock (waiter_ip c) driver w).1])
      Hi Hp eq_refl eq_refl) as Hs. cbv zeta in Hs.
    destruct (iif_manager_acquire_block_wakelock _ _ _) as [ret w1]. cbn [wp fst snd] in *.
    apply lookup_lt_Some in Hk. apply Hs.
    + apply Forall_singleton. split_and!; [done|split; [done|lia]|done].
    + apply follows_app; [|apply follows_return]. apply follows_releases.
      intros k' Hk'. apply elem_of_app. left. apply list_elem_of_lookup in Hk' as [j Hj].
      apply lookup_take_Some in Hj as [Hj _]. by eapply list_elem_of_lookup_2.
    + intros ip'. rewrite cnt_cons, cnt_nil. simpl. unfold one. case_decide; lia.
    + intros ip'. rewrite cnt_app, owes_ins, length_take, cnt_cons. simpl.
      case_decide; lia.
  - apply lookup_ge_None in Hk. cbn [wp fst snd]. eapply step_same; [done|done|done|done| |].
    + apply Forall_singleton. split_and!; [done|split_and!; [done|simpl; lia|done]|done].
    + intros ip _. rewrite cnt_cons, cnt_nil. simpl.
      replace n with (length (ins c)) by lia. case_decide; lia.
Qed.

Lemma next_out_step i c held p w :
  inv none w → w.(threads) !! i = Some (Next_out c held :: p) →
  wp (next_out c held w) (λ r, step_ok i p r.1 r.2).
Proof.
  intros Hi Hp. destruct (head_ok _ _ _ _ _ Hi Hp) as (Hc & Hl & Hh).
  unfold next_out. destruct (outs c !! length held) as [k|] eqn:Hk.
  - destruct (head_alive _ _ _ _ _ k Hi Hp) as (f & d & Hkf).
    { apply elem_of_app. right. by eapply list_elem_of_lookup_2. }
    rewrite Hkf. cbn [must mbind outcome_bind wp fst snd]. apply lookup_lt_Some in Hk.
    eapply step_same; try done.
    + apply Forall_singleton. split_and!; [done|split_and!; try done|done].
      apply NoDup_filter, NoDup_seqZ.
    + intros ip _. rewrite cnt_cons, cnt_nil. cbn [op_owes]. rewrite cnt_app, cnt_cons, !cnt_nil.
      lia.
  - apply lookup_ge_None in Hk. cbn [wp fst snd]. eapply step_same; [done|done|done|done| |].
    + apply follows_app.
      * apply Forall_forall. intros o' (k & -> & Hin)%list_elem_of_fmap.
        split_and!; [done|done|]. by intros k' ->%list_elem_of_singleton.
      * apply Forall_singleton. split_and!; [done|split_and!; [done|lia|done]|done].
    + intros ip _. rewrite cnt_app, cnt_cons, cnt_nil.
      rewrite (proj2 (cnt_zero (op_owes ip) (Lock <$> _))); [simpl; lia|].
      by intros o' (k & -> & _)%list_elem_of_fmap.
Qed.

Lemma acquire_out_step i c held got todo driver p w :
  inv none w → w.(threads) !! i = Some (Acquire_out c held got todo :: p) →
  wp (iif_fences_acquire_block_wakelock_of_waiters c held got todo driver w)
    (λ r, step_ok i p r.1 r.2).
Proof.
  intros Hi Hp. destruct (head_ok _ _ _ _ _ Hi Hp) as (Hc & Hl & Hh & Hn).
  unfold iif_fences_acquire_block_wakelock_of_waiters. destruct todo as [|ip todo].
  - rewrite app_nil_r in Hn. cbn [wp fst snd]. eapply step_same; [done|done|done|done| |].
    + apply Forall_singleton. split_and!; [done|split_and!; [done|rewrite length_app; simpl; lia|]|done].
      apply Forall_app_2; [done|by apply Forall_singleton].
    + intros ip _. rewrite cnt_cons, cnt_nil. cbn [op_owes]. lia.
  - destruct (lookup_lt_is_Some_2 _ _ Hl) as [k Hk]. rewrite Hk.
    destruct (head_alive _ _ _ _ _ k Hi Hp) as (f & d & Hkf).
    { apply elem_of_app. right. by eapply list_elem_of_lookup_2. }
    cbn [must mbind outcome_bind]. rewrite Hkf. cbn [must mbind outcome_bind].
    pose proof (acquire_step i _ p w ip driver [Acquire_out c held (got ++ [ip]) todo]
      (release_command c (held ++ [got]) ++ [Return (iif_manager_acquire_block_wakelock ip driver w).1])
      Hi Hp eq_refl eq_refl) as Hs. cbv zeta in Hs.
    destruct (iif_manager_acquire_block_wakelock _ _ _) as [ret w1]. cbn [wp fst snd] in *.
    apply Hs.
    + apply Forall_singleton. split_and!; [done|split_and!; try done|done].
      by rewrite <-app_assoc.
    + apply follows_app; [by apply follows_release_command|apply follows_return].
    + intros ip'. rewrite cnt_cons, cnt_nil. cbn [op_owes]. rewrite !cnt_app, !cnt_cons, !cnt_nil.
      rewrite cnt_app, cnt_cons, cnt_nil. lia.
    + intros ip'. rewrite cnt_app, owes_release_command, cnt_cons, cnt_nil
        by (rewrite length_app; simpl; lia). cbn [op_owes]. lia.
Qed.

(** ** With all the locks held *)

(** What a pass over the fences [ks] leaves alone, and the wakelocks [δ] that it
    counts for each. *)
Record passed (n : nat) (δ : nat → Z → nat) (ks : list nat) (w w' : world) : Prop := {
  pass_threads : w'.(threads) = w.(threads);
  pass_registered : w'.(registered) = w.(registered);
  pass_wakelocks : w'.(wakelocks) = w.(wakelocks);
  pass_others k : k ∉ ks → w'.(fences) !! k = w.(fences) !! k;
  pass_fences j k f d : ks !! j = Some k → w.(fences) !! k = Some (f, d) →
    ∃ f' d', w'.(fences) !! k = Some (f', d') ∧
      ∀ ip, f'.(outstanding_block_wakelock) ip
            = f.(outstanding_block_wakelock) ip + Z.of_nat (δ (n + j)%nat ip)
}.

Lemma for_fences_ok i o p ks F n e w δ :
  inv e w → w.(threads) !! i = Some (o :: p) → acting o = true →
  (∀ k, k ∈ ks → k ∈ op_fences o) → NoDup ks →
  (∀ j k f d v, ks !! j = Some k → w.(fences) !! k = Some (f, d) →
     v.(fence) = f → v.(direct) = d → vok v → fits f →
     wp (F (n + j)%nat v) (λ r, vrel_upto false v r.2 ∧ fits r.2.(fence) ∧
       ∀ ip, r.2.(fence).(outstanding_block_wakelock) ip
             = f.(outstanding_block_wakelock) ip + Z.of_nat (δ (n + j)%nat ip))) →
  wp (for_fences ks F n w) (λ w',
    inv (λ ip, e ip - Z.of_nat (cnt (λ j, δ j ip) (seq n (length ks)))) w' ∧ passed n δ ks w w').
Proof.
  intros Hi Hp Ha. revert n e w Hi Hp.
  induction ks as [|k ks IH]; intros n e w Hi Hp Hks Hnd HF.
  { split; [|by split]. eapply inv_ext; [|exact Hi]. intros ip. simpl. lia. }
  apply NoDup_cons in Hnd as [Hk Hnd].
  destruct (head_alive _ _ _ _ _ k Hi Hp) as (f & d & Hkf); [apply Hks; by left|].
  destruct (inv_vok _ _ _ _ _ Hi Hkf) as [Hv Hs]. cbn [for_fences]. apply wp_bind.
  eapply wp_view; [done|]. specialize (HF 0%nat k f d (view_at w f d) eq_refl Hkf eq_refl eq_refl Hv) as HF0.
  rewrite Nat.add_0_r in HF0.
  eapply wp_mono; [apply HF0; intros ip; by apply (inv_fence _ _ Hi k f d Hkf)|].
  intros [[] v'] (Hr & Hfit & Hw). cbn [fst snd] in *.
  assert (inv (λ ip, e ip - Z.of_nat (δ n ip)) (put_view k v' w)) as Hi1.
  { eapply inv_ext; [|apply (inv_section false e w k f d v' Hi Hkf Hr Hfit)].
    - intros ip. cbn. rewrite (Hw ip). lia.
    - intros p' Hp' Hfree _.
      rewrite (phase_acting _ _ _ _ _ _ _ _ p' Hi Hkf Hp (Hks k (list_elem_of_here _ _)) Ha Hp' Hfree).
      apply Phase_flush. }
  eapply wp_mono; [apply (IH (S n) (λ ip, e ip - Z.of_nat (δ n ip)) (put_view k v' w)); try done|].
  - intros k' Hk'. apply Hks. by right.
  - intros j k' f' d' v1 Hj Hkf' Hf1 Hd1 Hv1 Hfit1.
    cbn [fences put_view] in Hkf'. rewrite lookup_insert_ne in Hkf'.
    + replace (S n + j)%nat with (n + S j)%nat by lia. by apply (HF (S j) k' f' d').
    + intros ->. apply Hk. by eapply list_elem_of_lookup_2.
  - intros w' [Hi' [P1 P2 P3 P4 P5]]. split.
    + eapply inv_ext; [|exact Hi']. intros ip. cbn [length seq]. rewrite cnt_cons. lia.
    + split; try done.
      * intros k' Hk'. apply not_elem_of_cons in Hk' as [Hne Hk']. rewrite P4 by done.
        cbn. by rewrite lookup_insert_ne.
      * intros [|j] k' f' d' Hj Hkf'; simplify_eq/=.
        -- exists v'.(fence), v'.(direct). rewrite P4 by done. cbn. rewrite lookup_insert_eq.
           rewrite Nat.add_0_r. split; [done|]. intros ip. by rewrite Hw.
        -- replace (n + S j)%nat with (S n + j)%nat by lia. apply (P5 j k' f' d' Hj).
           cbn. rewrite lookup_insert_ne; [done|]. intros ->. apply Hk. by eapply list_elem_of_lookup_2.
Qed.

(** A pass that does not count. *)
Lemma for_fences_same i o p ks F n e w :
  inv e w → w.(threads) !! i = Some (o :: p) → acting o = true →
  (∀ k, k ∈ ks → k ∈ op_fences o) → NoDup ks →
  (∀ m k f d v, k ∈ ks → w.(fences) !! k = Some (f, d) → v.(fence) = f → v.(direct) = d → vok v →
     wp (F m v) (λ r, vrel false v r.2 ∧ (settled f → settled r.2.(fence)))) →
  wp (for_fences ks F n w) (λ w', inv e w' ∧ passed n (λ _ _, 0%nat) ks w w').
Proof.
  intros Hi Hp Ha Hks Hnd HF. eapply wp_mono.
  - apply (for_fences_ok i o p ks F n e w (λ _ _, 0%nat)); try done.
    intros j k f d v Hj Hkf <- <- Hv Hfit.
    eapply wp_mono; [eapply HF; try done; by eapply list_elem_of_lookup_2|].
    intros [x v'] [Hr Hs]. pose proof (rel_wakelock _ _ _ Hr) as Hw. cbn in *. split_and!.
    + split; [|done]. by rewrite with_wakelocks_same.
    + intros ip. rewrite Hw. apply Hfit.
    + intros ip. rewrite Hw. lia.
  - intros w' [Hi' Hpass]. split; [|done]. eapply inv_ext; [|exact Hi'].
    intros ip. rewrite (proj2 (cnt_zero _ _)); [lia|done].
Qed.

Lemma passed_same n ks w w' f d k :
  passed n (λ _ _, 0%nat) ks w w' → k ∈ ks → w.(fences) !! k = Some (f, d) →
  ∃ f' d', w'.(fences) !! k = Some (f', d')
    ∧ ∀ ip, f'.(outstanding_block_wakelock) ip = f.(outstanding_block_wakelock) ip.
Proof.
  intros Hpass [j Hj]%list_elem_of_lookup Hk.
  destruct (pass_fences _ _ _ _ _ Hpass j k f d Hj Hk) as (f' & d' & Hk' & Hw).
  exists f', d'. split; [done|]. intros ip. rewrite Hw. lia.
Qed.

(** ** The counts of the wakelocks *)

Lemma count_wakelocks f ips :
  NoDup ips → fits f → (∀ ip, ip ∈ ips → f.(outstanding_block_wakelock) ip < 2 ^ 16 - 1) →
  let f' := foldl count_wakelock f ips in
  (∀ ip, f'.(outstanding_block_wakelock) ip
         = f.(outstanding_block_wakelock) ip + Z.of_nat (cnt (λ ip', one (ip' = ip)) ips))
  ∧ ∃ h, f' = set_block_wakelock h f.
Proof.
  intros Hnd. revert f. induction Hnd as [|ip ips Hip Hnd IH]; intros f Hfit Hlt; cbn [foldl].
  { split; [intros ip; simpl; lia|]. exists f.(outstanding_block_wakelock). by destruct f. }
  pose proof (Hlt ip (list_elem_of_here _ _)) as Hlt0. pose proof (Hfit ip) as Hfit0.
  destruct (IH (count_wakelock f ip)) as [Hw [h Hh]].
  - intros ip'. cbn. unfold at_ip. case_match; [|apply Hfit]. rewrite u16_small; lia.
  - intros ip' Hip'. cbn. unfold at_ip. destruct (Z.eqb_spec ip' ip) as [->|]; [done|].
    apply Hlt. by right.
  - split; [|exists h; rewrite Hh; by destruct f]. intros ip'. rewrite Hw, cnt_cons. cbn.
    unfold at_ip. destruct (Z.eqb_spec ip' ip) as [->|Hne].
    + rewrite u16_small, one_yes by lia || done. lia.
    + rewrite (one_no (ip = ip')) by congruence. lia.
Qed.

Lemma count_pass v ips :
  NoDup ips → fits v.(fence) →
  (∀ ip, ip ∈ ips → v.(fence).(outstanding_block_wakelock) ip < 2 ^ 16 - 1) →
  wp (update_fence (λ f, foldl count_wakelock f ips) v) (λ r, vrel_upto false v r.2 ∧ fits r.2.(fence) ∧
    ∀ ip, r.2.(fence).(outstanding_block_wakelock) ip
          = v.(fence).(outstanding_block_wakelock) ip + Z.of_nat (cnt (λ ip', one (ip' = ip)) ips)).
Proof.
  intros Hnd Hfit Hlt. destruct (count_wakelocks v.(fence) ips Hnd Hfit Hlt) as [Hw [h Hh]].
  cbn [wp update_fence snd fence with_fence]. split_and!; [rewrite Hh; apply wakelocks_upto| |done].
  intros ip. rewrite Hw. specialize (Hfit ip).
  destruct (decide (ip ∈ ips)) as [Hin|Hni].
  - specialize (Hlt ip Hin). assert (cnt (λ ip', one (ip' = ip)) ips ≤ 1)%nat; [|lia].
    clear -Hnd. induction Hnd as [|ip' ips Hip Hnd IH]; [simpl; lia|]. rewrite cnt_cons.
    unfold one at 1. case_decide as He; [|lia]. subst ip'.
    rewrite (proj2 (cnt_zero _ _)); [lia|]. intros x Hx. apply one_no. congruence.
  - rewrite (proj2 (cnt_zero _ _)); [lia|]. intros x Hx. apply one_no. congruence.
Qed.

Lemma cnt_seq_held ip (held : list (list Z)) n (g : nat → nat) :
  (∀ j, (j < length held)%nat → g (n + j)%nat = cnt (λ ip', one (ip' = ip)) (default [] (held !! j))) →
  cnt g (seq n (length held)) = cnt (cnt (λ ip', one (ip' = ip))) held.
Proof.
  revert n. induction held as [|ips held IH]; intros n Hg; [done|]. cbn [length seq].
  rewrite !cnt_cons, (IH (S n)).
  - rewrite <-(Nat.add_0_r n) at 1. rewrite Hg by (simpl; lia). done.
  - intros j Hj. replace (S n + j)%nat with (n + S j)%nat by lia. apply Hg. simpl. lia.
Qed.

(** ** The commit *)

Lemma fences_of_ok ks w :
  (∀ k, k ∈ ks → ∃ f d, w.(fences) !! k = Some (f, d)) →
  ∃ l, fences_of ks w = Ok l ∧ ∀ k f d, k ∈ ks → w.(fences) !! k = Some (f, d) → f ∈ l.
Proof.
  intros Ha. unfold fences_of.
  assert (is_Some (mapM (λ k, fst <$> w.(fences) !! k) ks)) as [l Hl].
  { apply mapM_is_Some, Forall_forall. intros k Hk. destruct (Ha k Hk) as (f & d & Hkf).
    exists f. simpl. by rewrite Hkf. }
  exists l. rewrite Hl. split; [done|]. intros k f d [j Hj]%list_elem_of_lookup Hk.
  apply mapM_Some in Hl. destruct (Forall2_lookup_l _ _ _ _ _ Hl Hj) as (f' & Hf' & Heq).
  rewrite Hk in Heq. simplify_eq/=. by eapply list_elem_of_lookup_2.
Qed.

Lemma existsb_false {A} (g : A → bool) l x : existsb g l = false → x ∈ l → g x = false.
Proof.
  intros He Hx. apply not_true_iff_false. intros Hg. apply not_true_iff_false in He. apply He.
  apply existsb_exists. exists x. by split; [apply list_elem_of_In|].
Qed.

Definition counted (c : command) (held : list (list Z)) (ip : Z) : nat :=
  ((if decide (c.(waiter_ip) = ip) then length c.(ins) else 0)
   + cnt (cnt (λ ip', one (ip' = ip))) held)%nat.

Lemma cnt_const {A} m (l : list A) : cnt (λ _, m) l = (m * length l)%nat.
Proof. induction l as [|x l IH]; [simpl; lia|]. rewrite cnt_cons, IH. simpl. lia. Qed.

Lemma counts_fit_ins c held w k f d :
  counts_fit c held w = true → k ∈ c.(ins) → w.(fences) !! k = Some (f, d) →
  f.(outstanding_block_wakelock) c.(waiter_ip) < 2 ^ 16 - 1.
Proof.
  intros [Hf _]%andb_true_iff Hk Hkf. rewrite forallb_forall in Hf.
  specialize (Hf k (proj1 (list_elem_of_In _ _) Hk)). rewrite Hkf in Hf. by apply Z.ltb_lt.
Qed.

Lemma counts_fit_outs c held w k f d j ips ip :
  counts_fit c held w = true → c.(outs) !! j = Some k → held !! j = Some ips → ip ∈ ips →
  w.(fences) !! k = Some (f, d) → f.(outstanding_block_wakelock) ip < 2 ^ 16 - 1.
Proof.
  intros [_ Hf]%andb_true_iff Hk Hips Hip Hkf. rewrite forallb_forall in Hf.
  assert ((k, ips) ∈ zip c.(outs) held) as Hin.
  { apply elem_of_lookup_zip_with. by exists j, k, ips. }
  specialize (Hf _ (proj1 (list_elem_of_In _ _) Hin)). cbn in Hf. rewrite forallb_forall in Hf.
  specialize (Hf ip (proj1 (list_elem_of_In _ _) Hip)). rewrite Hkf in Hf. by apply Z.ltb_lt.
Qed.

Lemma submit_locked_ok i c held p w :
  inv none w → w.(threads) !! i = Some (Commit c held :: p) → counts_fit c held w = true →
  (∀ k f d, k ∈ c.(outs) → w.(fences) !! k = Some (f, d) →
     f.(retired) = false ∧ iif_fence_unsubmitted_signalers_locked f ≠ 0) →
  wp (submit_locked c held w) (λ w', inv (λ ip, - Z.of_nat (counted c held ip)) w'
    ∧ w'.(threads) = w.(threads) ∧ w'.(registered) = w.(registered)
    ∧ w'.(wakelocks) = w.(wakelocks)).
Proof.
  intros Hi Hp Hfit Hout. destruct (head_ok _ _ _ _ _ Hi Hp) as (Hnd & Hlen & Hheld).
  unfold command_ok in Hnd. apply NoDup_app in Hnd as (Hnd1 & Hdis & Hnd2).
  assert (∀ k, k ∈ c.(ins) → k ∈ op_fences (Commit c held)) as Hin1 by (intros; apply elem_of_app; by left).
  assert (∀ k, k ∈ c.(outs) → k ∈ op_fences (Commit c held)) as Hin2 by (intros; apply elem_of_app; by right).
  unfold submit_locked. apply wp_bind. eapply wp_mono.
  { apply (for_fences_same i (Commit c held) p (ins c) _ 0 none w); try done.
    intros m k f d v Hk Hkf <- <- Hv. cbn [wp snd]. pose proof (submit_waiter_keeps (waiter_ip c) v) as H.
    split; [apply H|]. by apply (keeps_settled _ _ _ H). }
  intros w1 [Hi1 P1]. pose proof Hp as Hp1. rewrite <-(pass_threads _ _ _ _ _ P1) in Hp1.
  apply wp_bind. eapply wp_mono.
  { apply (for_fences_same i (Commit c held) p (outs c) _ 0 none w1); try done.
    intros m k f d v Hk Hkf <- <- Hv. cbn [wp snd].
    rewrite (pass_others _ _ _ _ _ P1) in Hkf by (intros ?; by eapply Hdis).
    destruct (Hout k _ _ Hk Hkf) as [Hr Hu]. destruct (submit_signaler_vrel v Hv Hr Hu) as [H1 H2].
    split; [done|]. intros _ Hret. by rewrite H2 in Hret. }
  intros w2 [Hi2 P2]. pose proof Hp1 as Hp2. rewrite <-(pass_threads _ _ _ _ _ P2) in Hp2.
  apply wp_bind. eapply wp_mono.
  { apply (for_fences_ok i (Commit c held) p (ins c) _ 0 none w2 (λ _ ip, one (waiter_ip c = ip))); try done.
    intros j k f d v Hj Hkf <- <- Hv Hfv. cbn [Nat.add].
    assert (k ∈ c.(ins)) as Hk by by eapply list_elem_of_lookup_2.
    eapply wp_mono; [apply (count_pass v [waiter_ip c]); [apply NoDup_singleton|done|]|].
    - intros ip ->%list_elem_of_singleton.
      rewrite (pass_others _ _ _ _ _ P2) in Hkf by (intros ?; by eapply Hdis).
      destruct (head_alive _ _ _ _ _ k Hi Hp (Hin1 k Hk)) as (f0 & d0 & Hk0).
      destruct (passed_same _ _ _ _ _ _ _ P1 Hk Hk0) as (f1 & d1 & Hk1 & Hw1).
      rewrite Hkf in Hk1. injection Hk1 as <- <-. rewrite Hw1. by eapply counts_fit_ins.
    - intros r (H1 & H2 & H3). split_and!; [done|done|]. intros ip. rewrite H3. simpl.
      f_equal. lia. }
  intros w3 [Hi3 P3]. pose proof Hp2 as Hp3. rewrite <-(pass_threads _ _ _ _ _ P3) in Hp3.
  eapply wp_mono.
  { apply (for_fences_ok i (Commit c held) p (outs c) _ 0 _ w3
      (λ j ip, cnt (λ ip', one (ip' = ip)) (default [] (held !! j))) Hi3 Hp3); try done.
    intros j k f d v Hj Hkf <- <- Hv Hfv. cbn [Nat.add].
    assert (k ∈ c.(outs)) as Hk by by eapply list_elem_of_lookup_2.
    destruct (lookup_lt_is_Some_2 held j) as [ips Hips].
    { rewrite Hlen. by eapply lookup_lt_Some. }
    rewrite Hips. cbn [default from_option id].
    eapply wp_mono; [apply (count_pass v ips); [|done|]|].
    - rewrite Forall_forall in Hheld. apply Hheld. by eapply list_elem_of_lookup_2.
    - intros ip Hip.
      rewrite (pass_others _ _ _ _ _ P3) in Hkf by (intros ?; by eapply Hdis).
      destruct (head_alive _ _ _ _ _ k Hi Hp (Hin2 k Hk)) as (f0 & d0 & Hk0).
      pose proof Hk0 as Hk1. rewrite <-(pass_others _ _ _ _ _ P1 k) in Hk1 by (intros ?; by eapply Hdis).
      destruct (passed_same _ _ _ _ _ _ _ P2 Hk Hk1) as (f1 & d1 & Hk2 & Hw1).
      rewrite Hkf in Hk2. injection Hk2 as <- <-. rewrite Hw1. by eapply counts_fit_outs.
    - intros r (H1 & H2 & H3). done. }
  intros w4 [Hi4 P4]. split_and!.
  - eapply inv_ext; [|exact Hi4]. intros ip. cbn. rewrite cnt_const, length_seq.
    rewrite <-Hlen, (cnt_seq_held ip held 0) by done. unfold counted, none, one. case_decide; lia.
  - by rewrite (pass_threads _ _ _ _ _ P4), (pass_threads _ _ _ _ _ P3),
      (pass_threads _ _ _ _ _ P2), (pass_threads _ _ _ _ _ P1).
  - by rewrite (pass_registered _ _ _ _ _ P4), (pass_registered _ _ _ _ _ P3),
      (pass_registered _ _ _ _ _ P2), (pass_registered _ _ _ _ _ P1).
  - by rewrite (pass_wakelocks _ _ _ _ _ P4), (pass_wakelocks _ _ _ _ _ P3),
      (pass_wakelocks _ _ _ _ _ P2), (pass_wakelocks _ _ _ _ _ P1).
Qed.

Lemma unlock_ok i o p ks e w :
  inv e w → w.(threads) !! i = Some (o :: p) → acting o = true →
  (∀ k, k ∈ ks → k ∈ op_fences o) → NoDup ks →
  wp (iif_fences_write_unlock ks w) (λ w', inv e w' ∧ w'.(threads) = w.(threads)
    ∧ w'.(registered) = w.(registered) ∧ w'.(wakelocks) = w.(wakelocks)).
Proof.
  intros Hi Hp Ha Hks Hnd. unfold iif_fences_write_unlock. eapply wp_mono.
  - apply (for_fences_same i o p (reverse ks) _ 0 e w Hi Hp Ha).
    + intros k Hk. apply Hks. by apply elem_of_reverse.
    + by rewrite reverse_Permutation.
    + intros m k f d v Hk Hkf <- <- Hv. cbn.
      assert (keeps false v (with_fence (set_lock None v.(fence)) v)) as H by keep.
      split; [apply H|]. by apply (keeps_settled _ _ _ H).
  - intros w' [Hi' P]. split_and!; [done|apply P..].
Qed.

Lemma commit_step i c held p w :
  inv none w → w.(threads) !! i = Some (Commit c held :: p) → counts_fit c held w = true →
  wp (commit c held w) (λ r, step_ok i p r.1 r.2).
Proof.
  intros Hi Hp Hfit. destruct (head_ok _ _ _ _ _ Hi Hp) as (Hnd & Hlen & Hheld).
  unfold command_ok in Hnd. pose proof Hnd as (Hnd1 & Hdis & Hnd2)%NoDup_app.
  assert (∀ k, k ∈ c.(ins) → k ∈ op_fences (Commit c held)) as Hin1 by (intros; apply elem_of_app; by left).
  assert (∀ k, k ∈ c.(outs) → k ∈ op_fences (Commit c held)) as Hin2 by (intros; apply elem_of_app; by right).
  unfold commit.
  destruct (fences_of_ok c.(ins) w) as (l & -> & Hl).
  { intros k Hk. by eapply head_alive, Hin1. }
  destruct (fences_of_ok c.(outs) w) as (r & -> & Hr).
  { intros k Hk. by eapply head_alive, Hin2. }
  cbn [mbind outcome_bind]. cbv zeta.
  set (ret := if _ =? 0 then iif_fences_are_signaler_submittable_locked r else _).
  apply wp_bind. eapply (wp_mono _ (λ w',
    inv (λ ip, if ret =? 0 then - Z.of_nat (counted c held ip) else 0) w'
    ∧ w'.(threads) = w.(threads) ∧ w'.(registered) = w.(registered)
    ∧ w'.(wakelocks) = w.(wakelocks))).
  { destruct (ret =? 0) eqn:Hret; [|done]. apply Z.eqb_eq in Hret.
    apply (submit_locked_ok i c held p w); try done. intros k f d Hk Hkf.
    assert (iif_fences_are_signaler_submittable_locked r = 0) as Hz.
    { subst ret. destruct (_ =? 0) eqn:E; [done|]. by apply Z.eqb_neq in E. }
    unfold iif_fences_are_signaler_submittable_locked in Hz.
    destruct (existsb _ r) eqn:He; [done|].
    pose proof (existsb_false _ _ f He (Hr k f d Hk Hkf)) as [H1 H2]%orb_false_iff.
    apply Z.eqb_neq in H1. done. }
  intros w1 (Hi1 & T1 & R1 & W1). pose proof Hp as Hp1. rewrite <-T1 in Hp1.
  apply wp_bind. eapply wp_mono; [by apply (unlock_ok i (Commit c held) p (outs c) _ w1 Hi1 Hp1)|].
  intros w2 (Hi2 & T2 & R2 & W2). pose proof Hp1 as Hp2. rewrite <-T2 in Hp2.
  apply wp_bind. eapply wp_mono; [by apply (unlock_ok i (Commit c held) p (ins c) _ w2 Hi2 Hp2)|].
  intros w3 (Hi3 & T3 & R3 & W3). pose proof Hp2 as Hp3. rewrite <-T3 in Hp3.
  cbn [wp fst snd]. unfold step_ok.
  eapply (inv_ops _ none w3 w3 i (Commit c held) _ p Hi3 Hp3); try done.
  - apply follows_app; [|apply follows_return]. case_match; [by apply Forall_nil|].
    by apply follows_release_command.
  - intros k f d _ Hph. by apply phase_head in Hph.
  - intros ip. pose proof (inv_wakelocks _ _ Hi3 ip) as Hw. destruct (decide _); [|done].
    rewrite cnt_app, cnt_cons, cnt_nil. cbn [op_owes]. unfold none, counted.
    case_match; [rewrite cnt_nil; lia|]. rewrite owes_release_command by lia. lia.
Qed.
