(* ===== verification/IifOrder.v ===== *)
(** * Inter-IP fences: the order of the fences of a command

    The fences of a command are sorted by their identifier, and the ones to wait for
    and the ones to signal are compared by a merge ([uniqueness_decides]). *)

From stdpp Require Import sorting.
From S2P Require Import Prelude.
From S2P Require Import IifTable.
From S2P Require Import IifFence.
From S2P Require Import IifSystem.

Notation by_id := compare_iif_fence_by_id.

#[global] Instance by_id_trans : Transitive by_id.
Proof. intros x y z. unfold by_id. lia. Qed.
#[global] Instance by_id_total : Total by_id.
Proof. intros x y. unfold by_id. lia. Qed.

Definition before (x y : Z * nat) : Prop := x.1 < y.1.
#[global] Instance before_trans : Transitive before.
Proof. intros x y z. unfold before. lia. Qed.

(** No two neighbours of a sorted list are the same: all identifiers differ. *)
Lemma sorted_before (l : list (Z * nat)) :
  Sorted by_id l → existsb (λ p, p.1.1 =? p.2.1) (zip l (tail l)) = false → Sorted before l.
Proof.
  induction 1 as [|x l Hl IH Hx]; [by constructor|]. destruct l as [|y l]; [by repeat constructor|].
  cbn. intros [Hne%Z.eqb_neq He]%orb_false_iff. constructor; [by apply IH|].
  constructor. apply HdRel_inv in Hx. unfold by_id, before in *. cbn in *. lia.
Qed.

Lemma before_ids l : StronglySorted before l → NoDup l.*1.
Proof.
  induction 1 as [|x l Hl IH Hx]; [constructor|]. rewrite fmap_cons. constructor; [|done].
  intros (y & Hy & Hin)%list_elem_of_fmap. rewrite Forall_forall in Hx.
  specialize (Hx y Hin). unfold before in Hx. lia.
Qed.

Lemma before_sorted l : StronglySorted before l → StronglySorted Z.lt l.*1.
Proof.
  induction 1 as [|x l Hl IH Hx]; [constructor|]. rewrite fmap_cons. constructor; [done|].
  apply Forall_fmap. eapply Forall_impl; [exact Hx|]. done.
Qed.

(** The neighbours that are the same show two fences of one identifier. *)
Lemma repeated_ids (l : list (Z * nat)) :
  existsb (λ p, p.1.1 =? p.2.1) (zip l (tail l)) = true → ¬ NoDup l.*1.
Proof.
  induction l as [|x l IH]; [done|]. destruct l as [|y l]; [done|]. cbn.
  rewrite NoDup_cons. intros [He%Z.eqb_eq|He]%orb_true_iff [Hx Hn].
  - apply Hx. cbn in He. rewrite He. by left.
  - by apply IH.
Qed.

Lemma sort_by_id_ok l :
  let r := iif_fences_sort_by_id l in
  r.2 ≡ₚ l ∧ (r.1 = 0 ∧ StronglySorted before r.2 ∨ r.1 = - EDEADLK ∧ ¬ NoDup l.*1).
Proof.
  cbv zeta. unfold iif_fences_sort_by_id. cbn [fst snd].
  assert (merge_sort by_id l ≡ₚ l) as Hp by apply merge_sort_Permutation.
  split; [done|]. destruct (existsb _ _) eqn:He; [right|left]; (split; [done|]).
  - apply repeated_ids in He. by rewrite Hp in He.
  - apply Sorted_StronglySorted; [apply _|]. apply sorted_before; [|done].
    apply Sorted_merge_sort, _.
Qed.

Lemma check_ok fuel l r :
  StronglySorted before l → StronglySorted before r → (length l + length r ≤ fuel)%nat →
  check_fence_uniqueness fuel l r = 0 ∧ (∀ x y, x ∈ l → y ∈ r → x.1 ≠ y.1)
  ∨ check_fence_uniqueness fuel l r = - EDEADLK ∧ ∃ x y, x ∈ l ∧ y ∈ r ∧ x.1 = y.1.
Proof.
  revert l r. induction fuel as [|fuel IH]; intros l r Hl Hr Hf.
  { left. destruct l; simpl in *; [|lia]. split; [done|]. by intros ? ? ?%elem_of_nil. }
  destruct l as [|x l]; [left; split; [done|]; by intros ? ? ?%elem_of_nil|].
  destruct r as [|y r]; [left; split; [done|]; by intros ? ? ? ?%elem_of_nil|].
  apply StronglySorted_inv in Hl as [Hl Hx], Hr as [Hr Hy].
  rewrite Forall_forall in Hx, Hy. cbn in *. destruct (Z.ltb_spec x.1 y.1).
  - destruct (IH l (y :: r)) as [[-> H1]|[-> (a & b & Ha & Hb & He)]].
    + done.
    + constructor; [done|by apply Forall_forall].
    + simpl. lia.
    + left. split; [done|]. intros a b [->|Ha]%elem_of_cons Hb; [|by apply H1].
      apply elem_of_cons in Hb as [->|Hb]; [lia|]. specialize (Hy b Hb). unfold before in Hy. lia.
    + right. split; [done|]. exists a, b. split_and!; [by right|done|done].
  - destruct (Z.ltb_spec y.1 x.1).
    + destruct (IH (x :: l) r) as [[-> H1]|[-> (a & b & Ha & Hb & He)]].
      * constructor; [done|by apply Forall_forall].
      * done.
      * simpl. lia.
      * left. split; [done|]. intros a b Ha [->|Hb]%elem_of_cons; [|by apply H1].
        apply elem_of_cons in Ha as [->|Ha]; [lia|]. specialize (Hx a Ha). unfold before in Hx. lia.
      * right. split; [done|]. exists a, b. split_and!; [done|by right|done].
    + right. split; [done|]. exists x, y. split_and!; [by left|by left|lia].
Qed.

(** The identifiers that the functions above compare are those of the fences. *)
Lemma with_ids_ok ks w l : with_ids ks w = Ok l →
  l.*2 = ks ∧ ∀ p, p ∈ l → ∃ f d, w.(fences) !! p.2 = Some (f, d) ∧ p.1 = f.(id).
Proof.
  unfold with_ids. intros Hm. destruct (mapM _ ks) as [l'|] eqn:Hl; simplify_eq/=.
  apply mapM_Some in Hl. induction Hl as [|k p ks l Hp Hl IH].
  { split; [done|]. by intros p ?%elem_of_nil. }
  destruct IH as [<- Hall]. apply bind_Some in Hp as ([f d] & Hk & [= <-]).
  split; [done|]. intros p [->|Hp]%elem_of_cons; [by exists f, d|by apply Hall].
Qed.

Lemma ids_keys w (l : list (Z * nat)) :
  (∀ p, p ∈ l → ∃ f d, w.(fences) !! p.2 = Some (f, d) ∧ p.1 = f.(id)) → NoDup l.*1 → NoDup l.*2.
Proof.
  intros Hall Hnd.
  assert (l.*1 = (λ k, match w.(fences) !! k with Some p => p.1.(id) | None => 0 end) <$> l.*2) as He.
  { rewrite <-list_fmap_compose. apply list_fmap_ext. intros i p Hp. cbn.
    destruct (Hall p) as (f & d & -> & He); [by eapply list_elem_of_lookup_2|done]. }
  rewrite He in Hnd. by apply NoDup_fmap_1 in Hnd.
Qed.

(** What [iif_fence_submit_signaler_and_waiter] has checked when it goes on. *)
Lemma submit_ok c memory w p :
  iif_fence_submit_signaler_and_waiter c memory w = Ok p →
  (∃ ret, p = [Return ret] ∧ ret < 0)
  ∨ ∃ c', p = [Acquire_in c' 0] ∧ c'.(waiter_ip) = c.(waiter_ip)
      ∧ c'.(ins) ≡ₚ c.(ins) ∧ c'.(outs) ≡ₚ c.(outs) ∧ NoDup (c'.(ins) ++ c'.(outs)).
Proof.
  unfold iif_fence_submit_signaler_and_waiter.
  destruct (_ && _); [intros [= <-]; left; by eexists|].
  destruct memory; cbn [negb]; [|intros [= <-]; left; by eexists].
  intros (l & Hl & (r & Hr & H)%outcome_bind_Ok)%outcome_bind_Ok.
  apply with_ids_ok in Hl as [Hl2 Hl], Hr as [Hr2 Hr].
  pose proof (sort_by_id_ok l) as [Pl Sl]. pose proof (sort_by_id_ok r) as [Pr Sr].
  destruct (iif_fences_sort_by_id l) as [ret l'], (iif_fences_sort_by_id r) as [ret2 r'].
  cbn [fst snd] in *.
  destruct Sl as [[-> Sl]|[-> _]]; cbn in H; [|left; injection H as <-; by eexists].
  destruct Sr as [[-> Sr]|[-> _]]; cbn in H; [|left; injection H as <-; by eexists].
  unfold iif_fences_check_fence_uniqueness in H.
  destruct (check_ok _ l' r' Sl Sr (Nat.le_refl _)) as [[Hc Hd]|[Hc _]]; rewrite Hc in H; cbn in H;
    [|left; injection H as <-; by eexists].
  right. injection H as <-. exists (Command l'.*2 r'.*2 c.(waiter_ip)). cbn.
  split_and!; [done|done|by rewrite Pl, Hl2|by rewrite Pr, Hr2|].
  rewrite <-fmap_app. apply (ids_keys w).
  - intros p. rewrite elem_of_app, Pl, Pr. intros [Hp|Hp]; auto.
  - rewrite fmap_app. apply NoDup_app. split_and!; [by apply before_ids| |by apply before_ids].
    intros i (x & -> & Hx)%list_elem_of_fmap (y & He & Hy)%list_elem_of_fmap. by eapply Hd.
Qed.
