(* ===== verification/IifMoves.v ===== *)
(** * Inter-IP fences: every move keeps the invariant

    The ends of works, references and destructions, then the moves of the users and
    of the works: [step_inv]. *)

From S2P Require Import Prelude.
From S2P Require Import Interleaving.
From S2P Require Import IifTable.
From S2P Require Import IifFence.
From S2P Require Import IifSystem.
From S2P Require Import IifInv.
From S2P Require Import IifWorld.
From S2P Require Import IifSteps.
From S2P Require Import IifSubmit.
From S2P Require Import IifOrder.

(** ** Ops that change no fence *)

Lemma release_step i k ip p w :
  inv none w → w.(threads) !! i = Some (Release k ip :: p) →
  step_ok i p [] (iif_manager_release_block_wakelock ip w).
Proof.
  intros Hi Hp.
  assert (∀ k' f d, w.(fences) !! k' = Some (f, d) →
    destroy_phase k' f (Release k ip :: p) → destroy_phase k' f ([] ++ p)) as Hph.
  { intros k' f d _ Hph. remember (Release k ip :: p) as l eqn:Hl.
    destruct Hph as [| | | |q H1 H2 Hq]; unfold iif_fence_do_destroy in *; simplify_eq.
    destruct Hq as [|o q _ Hq]; simplify_eq/=. by constructor. }
  pose proof (inv_wakelocks _ _ Hi) as Hw.
  unfold step_ok, iif_manager_release_block_wakelock.
  eapply (inv_ops _ none w _ i (Release k ip) [] p Hi Hp); try done; try (by repeat case_match).
  intros ip'. specialize (Hw ip'). unfold none.
  destruct (decide (ip' ∈ registered w)) as [Hr|Hr].
  - pose proof (inv_registered _ _ Hi ip' Hr) as Hlt. rewrite cnt_nil. simpl.
    destruct (decide (ip = ip')) as [->|Hne].
    + rewrite one_yes by done. rewrite (proj2 (Z.leb_gt _ _)) by apply Hlt.
      rewrite bool_decide_true by done. simpl. unfold at_ip. rewrite Z.eqb_refl. lia.
    + rewrite one_no by done. repeat case_match; simpl; try lia. unfold at_ip.
      rewrite (proj2 (Z.eqb_neq _ _)); lia || congruence.
  - repeat case_match; try done. simpl. unfold at_ip. case_match eqn:He; [|done].
    apply Z.eqb_eq in He as ->. apply negb_false_iff, bool_decide_eq_true in H0. done.
Qed.

Lemma broadcast_step i k p w :
  inv none w → w.(threads) !! i = Some (Broadcast k :: p) →
  wp (iif_manager_broadcast_fence_unblocked k w) (λ r, step_ok i p r.1 r.2).
Proof.
  intros Hi Hp. unfold iif_manager_broadcast_fence_unblocked.
  destruct (head_alive _ _ _ _ _ k Hi Hp) as (f & d & Hk); [by left|]. rewrite Hk.
  cbn [must mbind outcome_bind wp fst snd].
  eapply (inv_ops _ none w _ i (Broadcast k) [] p Hi Hp); try done.
  - intros k' f' d' _ Hph. remember (Broadcast k :: p) as l eqn:Hl.
    destruct Hph as [| | | |q H1 H2 Hq]; unfold iif_fence_do_destroy in *; simplify_eq.
    + by constructor.
    + destruct Hq as [|o q [ip ->] Hq]; simplify_eq/=.
  - intros ip. pose proof (inv_wakelocks _ _ Hi ip) as Hw. unfold none. case_decide; [|done].
    simpl. lia.
Qed.

Lemma flush_step i k p w :
  inv none w → w.(threads) !! i = Some (Destroy_flush k :: p) →
  wp (destroy_flush k w) (λ r, step_ok i p r.1 r.2).
Proof.
  intros Hi Hp. unfold destroy_flush.
  destruct (head_alive _ _ _ _ _ k Hi Hp) as (f & d & Hk); [by left|]. rewrite Hk.
  cbn [must mbind outcome_bind wp fst snd]. destruct (_ && _) eqn:Hidle; [|done].
  apply andb_true_iff in Hidle. cbn [wp fst snd].
  eapply (inv_ops _ none w _ i (Destroy_flush k) [] p Hi Hp); try done.
  - intros k' f' d' Hk' Hph. remember (Destroy_flush k :: p) as l eqn:Hl.
    destruct Hph as [| | | |q H1 H2 Hq]; unfold iif_fence_do_destroy in *; simplify_eq.
    + by constructor.
    + destruct Hq as [|o q [ip ->] Hq]; simplify_eq/=.
  - intros ip. pose proof (inv_wakelocks _ _ Hi ip) as Hw. unfold none. case_decide; [|done].
    simpl. lia.
Qed.

(** ** The sections of the end of a fence *)

Lemma destroy_step i k p w :
  inv none w → w.(threads) !! i = Some (Destroy k :: p) →
  wp (destroy k w) (λ r, step_ok i p r.1 r.2).
Proof.
  intros Hi Hp. unfold destroy.
  destruct (head_alive _ _ _ _ _ k Hi Hp) as (f & d & Hk); [by left|].
  destruct (inv_vok _ _ _ _ _ Hi Hk) as [Hv Hs].
  apply wp_bind, (wp_locked _ _ _ f d); [done|]. eapply wp_view; [done|].
  eapply wp_mono; [by apply do_destroy_vrel|]. intros [updated v'] [Hr Hs']. cbn [fst snd] in *.
  pose proof (rel_wakelock _ _ _ Hr) as Hw. pose proof (rel_works _ _ _ Hr eq_refl) as [Hw1 Hw2].
  cbn [fence view_at] in *. cbn [wp].
  assert (inv none (put_view k v' w)) as Hi1.
  { eapply inv_ext; [|apply (inv_section false none w k f d v' Hi Hk)].
    - intros ip. rewrite Hw. unfold none. lia.
    - by apply vrel_is_upto.
    - intros ip. rewrite Hw. apply (inv_fence _ _ Hi k f d Hk).
    - intros p' _ _. apply phase_mono; [done|done|]. by rewrite Hw. }
  eapply (inv_ops _ none (put_view k v' w) _ i (Destroy k) _ p Hi1 Hp); try done.
  - destruct updated; follow.
  - intros k' f' d' Hk' Hph. remember (Destroy k :: p) as l eqn:Hl.
    destruct Hph as [| | | |q H1 H2 Hq]; unfold iif_fence_do_destroy in *; simplify_eq.
    + destruct updated; by constructor.
    + destruct Hq as [|o q [ip ->] Hq]; simplify_eq/=.
  - intros ip. pose proof (inv_wakelocks _ _ Hi1 ip) as Hwl. unfold none. case_decide; [|done].
    destruct updated; simpl; lia.
Qed.

Lemma destroy_release_step i k p w :
  inv none w → w.(threads) !! i = Some (Destroy_release k :: p) →
  wp (iif_fence_release_all_block_wakelock k w) (λ r, step_ok i p r.1 r.2).
Proof.
  intros Hi Hp. unfold iif_fence_release_all_block_wakelock.
  destruct (head_alive _ _ _ _ _ k Hi Hp) as (f & d & Hk); [by left|].
  destruct (inv_vok _ _ _ _ _ Hi Hk) as [Hv Hs].
  apply wp_bind, (wp_locked _ _ _ f d); [done|]. eapply wp_view; [done|].
  unfold of_fence, release_all_locked. cbn [fence view_at wp fst snd].
  set (f0 := set_block_wakelock (λ _, 0) f). set (v' := with_fence f0 (view_at w f d)).
  assert (inv f.(outstanding_block_wakelock) (put_view k v' w)) as Hi1.
  { eapply inv_ext; [|apply (inv_section false none w k f d v' Hi Hk)].
    - intros ip. cbn. unfold none. lia.
    - apply wakelocks_upto.
    - intros ip. cbn. lia.
    - intros p' _ _. by apply phase_mono. }
  eapply (inv_ops _ none (put_view k v' w) _ i (Destroy_release k) _ p Hi1 Hp); try done.
  - apply Forall_forall. intros o (ip & ->)%releases_ops. split_and!; [done|done|set_solver].
  - intros k' f' d' Hk' Hph. remember (Destroy_release k :: p) as l eqn:Hl.
    destruct Hph as [| | | |q H1 H2 Hq]; unfold iif_fence_do_destroy in *; simplify_eq.
    + cbn in Hk'. rewrite lookup_insert_eq in Hk'. simplify_eq. constructor; [done|done|].
      apply Forall_forall. by intros o (ip & ->)%releases_ops; exists ip.
    + destruct Hq as [|o q [ip ->] Hq]; simplify_eq/=.
  - intros ip. pose proof (inv_wakelocks _ _ Hi1 ip) as Hwl. unfold none.
    destruct (decide _) as [Hreg|]; [|done].
    rewrite owes_releases by by apply (inv_registered _ _ Hi).
    pose proof (fi_wakelock _ _ _ _ (inv_fence _ _ Hi k f d Hk) ip). simpl. lia.
Qed.

(** ** References and works *)

(** The fence with other references and works. *)
Definition with_refs (a : Z) (s wt' : work) (pw : bool) (f : iif_fence) : iif_fence :=
  set_kref a (set_works s wt' pw f).

Lemma fence_inv_refs k l0 l p0 p1 f d a s wt' pw :
  let f' := with_refs a s wt' pw f in
  fence_inv k l0 f d → tchange l0 l p0 p1 → 0 ≤ a →
  (∀ p, p ∈ l → uses k p → 0 < a ∨ special k p) →
  (cnt (mark (Signaled_done k)) p1 + b2n f.(signaled_work).(running)
   = cnt (mark (Signaled_done k)) p0 + b2n s.(running))%nat →
  (cnt (mark (Waited_done k)) p1 + b2n f.(waited_work).(running)
   = cnt (mark (Waited_done k)) p0 + b2n wt'.(running))%nat →
  (cnt (mark (Free k)) p1 + b2n pw + one (f.(kref) = 0%Z)
   = cnt (mark (Free k)) p0 + b2n f.(put_work) + one (a = 0%Z))%nat →
  (∀ p, p ∈ l → Free k ∈ p → destroy_phase k f' p) →
  fence_inv k l f' d.
Proof.
  intros f' [] Ht Ha Hu H1 H2 H3 Hph. subst f'.
  pose proof (tc_cnt _ _ _ _ Ht (mark (Signaled_done k))).
  pose proof (tc_cnt _ _ _ _ Ht (mark (Waited_done k))).
  pose proof (tc_cnt _ _ _ _ Ht (mark (Free k))).
  split; cbn; try done; try lia. by destruct fi_counters; split.
Qed.

Lemma update_result k F w f d :
  w.(fences) !! k = Some (f, d) → (F f).(id) = f.(id) →
  ∃ w', update k F w = Ok ([], w') ∧ w'.(fences) = <[k := (F f, d)]> w.(fences)
    ∧ w'.(next) = w.(next) ∧ w'.(pool) = w.(pool) ∧ w'.(registered) = w.(registered)
    ∧ w'.(wakelocks) = w.(wakelocks) ∧ w'.(threads) = w.(threads).
Proof.
  intros Hk Hid. unfold update, on_view, view_of. rewrite Hk. cbn [must mbind outcome_bind].
  eexists. split; [reflexivity|]. done.
Qed.

(** A step that changes the references or the works of a fence. *)
Lemma refs_update w w' k f d a s wt' pw p0 p1 :
  inv none w → w.(fences) !! k = Some (f, d) → tchange w.(threads) w'.(threads) p0 p1 →
  w'.(fences) = <[k := (with_refs a s wt' pw f, d)]> w.(fences) → w'.(next) = w.(next) →
  w'.(pool) = w.(pool) → w'.(registered) = w.(registered) → w'.(wakelocks) = w.(wakelocks) →
  fence_inv k w'.(threads) (with_refs a s wt' pw f) d →
  (∀ k', k' ≠ k → same_marks k' p0 p1 ∧ (uses k' p1 → uses k' p0) ∧ Free k' ∉ p1) →
  wf_thread p1 → (∀ ip, cnt (op_owes ip) p0 = 0%nat ∧ cnt (op_owes ip) p1 = 0%nat) →
  inv none w'.
Proof.
  intros Hi Hk Ht Hf Hn Hp Hr Hw Hfi Ho Hwf Hz.
  eapply (world_update none none w w' k f d _ d p0 p1); try done.
  - rewrite Hp. cbn. by destruct (retired f).
  - intros ip. pose proof (inv_wakelocks _ _ Hi ip) as Hwl. destruct (Hz ip) as [-> ->].
    rewrite Hw. destruct (decide _); [|done]. unfold fences_owe. rewrite Hf.
    pose proof (owe_update ip k (f, d) (with_refs a s wt' pw f, d) _ Hk) as Ho'. cbn in Ho'. lia.
Qed.

Lemma no_others k p0 p1 :
  (∀ o, o ∈ p0 ++ p1 → ∀ k', k' ∈ op_fences o → k' = k) →
  (∀ ip, cnt (op_owes ip) p0 = 0%nat ∧ cnt (op_owes ip) p1 = 0%nat) →
  ∀ k', k' ≠ k → same_marks k' p0 p1 ∧ (uses k' p1 → uses k' p0) ∧ Free k' ∉ p1.
Proof.
  intros Hk Hz k' Hne.
  assert (∀ p o, p = p0 ∨ p = p1 → o ∈ p → k' ∉ op_fences o) as Hno.
  { intros p o Hp Ho Hk'. apply Hne. apply (Hk o); [|done]. apply elem_of_app.
    destruct Hp as [-> | ->]; auto. }
  split_and!.
  - intros o Ho. assert (k' ∈ op_fences o) as Hin by (by destruct Ho as [-> |[-> | ->]]; left).
    assert (∀ p, p = p0 ∨ p = p1 → cnt (mark o) p = 0%nat) as Hc; [|rewrite !Hc; auto].
    intros p Hp. apply cnt_zero. intros o' Ho'. apply one_no. intros ->. by eapply Hno.
  - intros (o & Ho & Hin)%list_elem_of_bind. by destruct (Hno p1 o); auto.
  - intros Hin. destruct (Hno p1 (Free k')); auto. by left.
Qed.

Lemma marks_nil k : cnt (mark (Free k)) [] = 0%nat.
Proof. done. Qed.

(** While there are references nobody destroys the fence. *)
Lemma referenced_no_free k l f d p :
  fence_inv k l f d → 0 < f.(kref) → p ∈ l → Free k ∉ p.
Proof.
  intros [] Hr Hp Hfree. apply marked in Hfree. apply list_elem_of_lookup in Hp as [j Hj].
  pose proof (cnt_lookup (cnt (mark (Free k))) _ _ _ Hj).
  rewrite (one_no (kref f = 0)) in fi_free by lia. lia.
Qed.

Lemma put_alive i k async p w f d :
  inv none w → w.(threads) !! i = Some (Put k async :: p) → w.(fences) !! k = Some (f, d) →
  0 < f.(kref) ∧ p = [].
Proof.
  intros Hi Hp Hk. pose proof (list_elem_of_lookup_2 _ _ _ Hp) as Hin.
  destruct (inv_wf _ _ Hi _ Hin) as [Hlast _]. specialize (Hlast eq_refl). subst p. split; [|done].
  destruct (fi_users _ _ _ _ (inv_fence _ _ Hi k f d Hk) _ Hin) as [?|Hs]; [|done|].
  - apply uses_cons. left. by left.
  - destruct Hs as [Hs|[Hs|Hs]]; apply list_elem_of_singleton in Hs; done.
Qed.

Lemma put_others i k w f d p :
  put_allowed i k w = true → w.(fences) !! k = Some (f, d) → f.(kref) = 1 →
  (∃ j, w.(threads) !! j = Some p ∧ j ≠ i) → uses k p → special k p.
Proof.
  intros Ha Hk H1 (j & Hj & Hne) Hu. unfold put_allowed in Ha. rewrite Hk, H1 in Ha. cbn in Ha.
  rewrite forallb_forall in Ha.
  assert ((j, p) ∈ imap pair w.(threads)) as Hin.
  { apply (list_elem_of_lookup_2 _ j). rewrite list_lookup_imap, Hj. done. }
  specialize (Ha _ (proj1 (list_elem_of_In _ _) Hin)). cbn in Ha.
  rewrite bool_decide_eq_false_2 in Ha by done. cbn in Ha. unfold user_uses in Ha.
  rewrite bool_decide_eq_true_2 in Ha by done. cbn in Ha. rewrite negb_involutive in Ha.
  apply existsb_exists in Ha as (o & Ho & Hw). apply list_elem_of_In in Ho.
  destruct o; try done; cbn in Hw; apply bool_decide_eq_true in Hw as ->; [by left|by right; left].
Qed.

(** The threads after the thread [i] has put its reference. *)
Lemma insert_others {A} (l : list A) i x y p :
  l !! i = Some x → p ∈ <[i := y]> l → p = y ∨ ∃ j, l !! j = Some p ∧ j ≠ i.
Proof.
  intros Hi (j & Hj)%list_elem_of_lookup. apply list_lookup_insert_Some in Hj as [(_ & -> & _)|[Hne Hj]].
  - by left.
  - right. by exists j.
Qed.

Lemma put_step i k async p w :
  inv none w → w.(threads) !! i = Some (Put k async :: p) → put_allowed i k w = true →
  wp (kref_put k async w) (λ r, step_ok i p r.1 r.2).
Proof.
  intros Hi Hp Ha. unfold kref_put.
  destruct (head_alive _ _ _ _ _ k Hi Hp) as (f & d & Hk); [by left|]. rewrite Hk.
  cbn [must mbind outcome_bind]. destruct (put_alive _ _ _ _ _ _ _ Hi Hp Hk) as [Hr ->].
  rewrite (proj2 (Z.leb_gt _ _)) by lia. pose proof (inv_fence _ _ Hi k f d Hk) as Hfi.
  pose proof (fi_free _ _ _ _ Hfi) as Hfree. rewrite (one_no (kref f = 0)) in Hfree by lia.
  destruct (update_result k (λ f, set_kref (f.(kref) - 1) f) w f d Hk eq_refl)
    as (w1 & -> & F1 & N1 & P1 & R1 & W1 & T1). cbn [mbind outcome_bind].
  assert (∀ q, tchange w.(threads) (<[i := q ++ []]> w1.(threads)) [Put k async] (q ++ [])) as Htc.
  { intros q. rewrite T1. by apply tchange_insert. }
  assert (∀ q, (∀ o, o ∈ [Put k async] ++ q → ∀ k', k' ∈ op_fences o → k' = k) →
    (∀ ip, cnt (op_owes ip) q = 0%nat) → ∀ k', k' ≠ k →
    same_marks k' [Put k async] q ∧ (uses k' q → uses k' [Put k async]) ∧ Free k' ∉ q) as Hno.
  { intros q H1 H2. by apply no_others. }
  destruct (kref f =? 1) eqn:He; cbn [negb].
  - apply Z.eqb_eq in He. destruct async.
    + assert (w1.(fences) !! k = Some (set_kref (f.(kref) - 1) f, d)) as Hk1
        by (rewrite F1; apply lookup_insert_eq).
      destruct (update_result k schedule_put_work w1 _ d Hk1 eq_refl)
        as (w2 & -> & F2 & N2 & P2 & R2 & W2 & T2).
      rewrite F1, insert_insert_eq in F2. cbn [wp fst snd]. unfold step_ok.
      eapply (refs_update w _ k f d 0 f.(signaled_work) f.(waited_work) true [Put k true] []);
        cbn [set_threads threads fences next pool registered wakelocks]; try congruence; try done.
      * rewrite T2. apply Htc.
      * rewrite F2, He. done.
      * eapply fence_inv_refs; [done|rewrite T2; apply (Htc [])|done| |done|done| |].
        -- intros p' Hp' Hu. right. rewrite T2, T1 in Hp'.
           apply (insert_others _ _ _ _ _ Hp) in Hp' as [->|Hj]; [by apply uses_nil in Hu|].
           by eapply put_others.
        -- simpl. rewrite He. destruct (put_work f); simpl in *; lia || done.
        -- intros p' Hp' Hf'. rewrite T2, T1 in Hp'.
           apply (insert_others _ _ _ _ _ Hp) in Hp' as [->|(j & Hj & _)]; [by apply elem_of_nil in Hf'|].
           destruct (referenced_no_free _ _ _ _ p' Hfi Hr); [by eapply list_elem_of_lookup_2|done].
      * apply Hno; [|done]. intros o [->|?%elem_of_nil]%elem_of_cons; [|done].
      by intros k' ->%list_elem_of_singleton.
    + cbn [wp fst snd]. unfold step_ok.
      eapply (refs_update w _ k f d 0 f.(signaled_work) f.(waited_work) f.(put_work) [Put k false]
        (iif_fence_do_destroy k)); cbn [set_threads threads fences next pool registered wakelocks];
        try congruence; try done.
      * rewrite F1, He. reflexivity.
      * eapply fence_inv_refs; [done|apply (Htc (iif_fence_do_destroy k))|done| |done|done| |].
        -- intros p' Hp' Hu. right. rewrite T1 in Hp'.
           apply (insert_others _ _ _ _ _ Hp) in Hp' as [->|Hj]; [right; right|by eapply put_others].
           do 3 right. by left.
        -- rewrite He. rewrite app_nil_r. simpl. unfold mark. simp_one. simpl. lia.
        -- intros p' Hp' Hf'. rewrite T1 in Hp'.
           apply (insert_others _ _ _ _ _ Hp) in Hp' as [->|(j & Hj & _)]; [apply Phase_flush|].
           destruct (referenced_no_free _ _ _ _ p' Hfi Hr); [by eapply list_elem_of_lookup_2|done].
      * apply Hno; [|done]. intros o Ho k'. unfold iif_fence_do_destroy in Ho. cbn in Ho.
        singletons; by intros ->%list_elem_of_singleton.
  - apply Z.eqb_neq in He. cbn [wp fst snd]. unfold step_ok.
    eapply (refs_update w _ k f d (kref f - 1) f.(signaled_work) f.(waited_work) f.(put_work)
      [Put k async] []); cbn [set_threads threads fences next pool registered wakelocks];
      try congruence; try done.
    + eapply fence_inv_refs; [done|apply (Htc [])|lia| |done|done| |].
      * intros p' _ _. left. lia.
      * simpl. rewrite (one_no (kref f = 0)), (one_no (kref f - 1 = 0)) by lia. done.
      * intros p' Hp' Hf'. rewrite T1 in Hp'.
        apply (insert_others _ _ _ _ _ Hp) in Hp' as [->|(j & Hj & _)]; [by apply elem_of_nil in Hf'|].
        destruct (referenced_no_free _ _ _ _ p' Hfi Hr); [by eapply list_elem_of_lookup_2|done].
    + apply Hno; [|done]. intros o [->|?%elem_of_nil]%elem_of_cons; [|done].
      by intros k' ->%list_elem_of_singleton.
Qed.

Lemma end_of_thread i o w : inv none w → w.(threads) !! i = Some o → final (default (Return 0) (head o)) = true →
  ∃ o', o = [o'].
Proof.
  intros Hi Hp Hf. pose proof (inv_wf _ _ Hi _ (list_elem_of_lookup_2 _ _ _ Hp)) as Hw.
  destruct o as [|o' p]; [done|]. destruct Hw as [Hl _]. exists o'. by rewrite (Hl Hf).
Qed.

(** The function of a work ends. *)
Lemma work_done_step i k o p w f d s wt' :
  inv none w → w.(threads) !! i = Some (o :: p) → w.(fences) !! k = Some (f, d) →
  o = Signaled_done k ∧ s = Work f.(signaled_work).(pending) false ∧ wt' = f.(waited_work)
  ∨ o = Waited_done k ∧ s = f.(signaled_work) ∧ wt' = Work f.(waited_work).(pending) false →
  wp (update k (λ f, set_works s wt' f.(put_work) f) w) (λ r, step_ok i p r.1 r.2).
Proof.
  intros Hi Hp Hk Ho.
  assert (final o = true ∧ acting o = true ∧ op_fences o = [k] ∧ (∀ ip, op_owes ip o = 0%nat))
    as (Hfo & Ha & Hof & Hz) by (by destruct Ho as [(-> & _)|(-> & _)]).
  destruct (end_of_thread i _ w Hi Hp Hfo) as [o' [= _ ->]].
  destruct (update_result k (λ f, set_works s wt' f.(put_work) f) w f d Hk eq_refl)
    as (w1 & -> & F1 & N1 & P1 & R1 & W1 & T1). cbn [wp fst snd]. unfold step_ok.
  pose proof (inv_fence _ _ Hi k f d Hk) as Hfi.
  assert (tchange w.(threads) (<[i := [] ++ []]> w1.(threads)) [o] []) as Htc.
  { rewrite T1. by apply tchange_insert. }
  pose proof (tc_cnt _ _ _ _ Htc) as Hc.
  eapply (refs_update w _ k f d f.(kref) s wt' f.(put_work) [o] []);
    cbn [set_threads threads fences next pool registered wakelocks]; try congruence; try done.
  - pose proof (fi_signaled _ _ _ _ Hfi) as H1. pose proof (fi_waited _ _ _ _ Hfi) as H2.
    pose proof (cnt_lookup (cnt (mark (Signaled_done k))) _ _ _ Hp) as L1.
    pose proof (cnt_lookup (cnt (mark (Waited_done k))) _ _ _ Hp) as L2.
    rewrite H1, cnt_cons, cnt_nil in L1. rewrite H2, cnt_cons, cnt_nil in L2.
    unfold mark in L1, L2.
    eapply fence_inv_refs; [done|exact Htc| | | | | |].
    + apply (fi_kref _ _ _ _ Hfi).
    + intros p' [->|Hp']%(tc_in _ _ _ _ Htc) Hu; [by apply uses_nil in Hu|].
      by apply (fi_users _ _ _ _ Hfi).
    + rewrite cnt_nil, cnt_cons, cnt_nil. unfold mark.
      destruct Ho as [(-> & -> & _)|(-> & -> & _)]; simp_one; [|simpl; lia].
      destruct (running (signaled_work f)); simpl in *; lia.
    + rewrite cnt_nil, cnt_cons, cnt_nil. unfold mark.
      destruct Ho as [(-> & _ & ->)|(-> & _ & ->)]; simp_one; [simpl; lia|].
      destruct (running (waited_work f)); simpl in *; lia.
    + rewrite cnt_nil, cnt_cons, cnt_nil. unfold mark.
      destruct Ho as [(-> & _)|(-> & _)]; simp_one; lia.
    + intros p' [->|Hp']%(tc_in _ _ _ _ Htc) Hf'; [by apply elem_of_nil in Hf'|].
      rewrite (phase_acting none w i o [] k f d p' Hi Hk Hp); [apply Phase_flush| |done|done|done].
      rewrite Hof. by left.
  - apply no_others; [|by intros ip; rewrite cnt_cons, Hz].
    intros o1 [->|?%elem_of_nil]%elem_of_cons k'; [|done]. rewrite Hof. by intros ->%list_elem_of_singleton.
  - intros ip. by rewrite cnt_cons, Hz.
Qed.

Lemma one_le P `{Decision P} : (one P ≤ 1)%nat.
Proof. unfold one. case_decide; lia. Qed.

(** Nothing uses a fence that its end is about to free. *)
Lemma free_alone i k p w f d :
  inv none w → w.(threads) !! i = Some (Free k :: p) → w.(fences) !! k = Some (f, d) →
  p = [] ∧ (∀ ip, f.(outstanding_block_wakelock) ip = 0)
  ∧ work_idle f.(signaled_work) && work_idle f.(waited_work) && negb f.(put_work) = true
  ∧ ∀ j q, w.(threads) !! j = Some q → j ≠ i → ¬ uses k q.
Proof.
  intros Hi Hp Hk. destruct (end_of_thread i _ w Hi Hp eq_refl) as [o [= _ ->]].
  destruct (inv_fence _ _ Hi k f d Hk). pose proof (list_elem_of_lookup_2 _ _ _ Hp) as Hin.
  assert (Free k ∈ [Free k]) as Hself by by left.
  assert (idle f ∧ ∀ ip, f.(outstanding_block_wakelock) ip = 0) as [[I1 I2] H2].
  { pose proof (fi_phase _ Hin Hself) as Hph. remember [Free k] as l eqn:Hl.
    by destruct Hph; unfold iif_fence_do_destroy in *; simplify_eq. }
  pose proof I1 as J1. pose proof I2 as J2.
  unfold work_idle in I1, I2. apply negb_true_iff, orb_false_iff in I1 as [_ I1], I2 as [_ I2].
  rewrite I1 in fi_signaled. rewrite I2 in fi_waited.
  assert (cnt (mark (Free k)) [Free k] = 1%nat) as Hone.
  { rewrite cnt_cons. unfold mark. by simp_one. }
  pose proof (cnt_lookup (cnt (mark (Free k))) _ _ _ Hp) as Hown.
  assert (one (kref f = 0%Z) ≤ 1)%nat by apply one_le.
  split_and!; [done|done| |].
  { rewrite J1, J2. destruct (put_work f); [|done]. cbn [b2n] in fi_free. lia. }
  intros j q' Hj Hne Hu.
  pose proof (cnt_two (cnt (mark (Free k))) _ _ _ _ _ Hne Hj Hp) as Htwo.
  assert (kref f = 0) as H0.
  { destruct (decide (kref f = 0)); [done|]. rewrite one_no in fi_free by done. lia. }
  destruct (fi_users _ (list_elem_of_lookup_2 _ _ _ Hj) Hu) as [?|[Hs|[Hs|Hs]]]; [lia|..];
    apply marked in Hs.
  - pose proof (cnt_lookup (cnt (mark (Signaled_done k))) _ _ _ Hj). simpl in *. lia.
  - pose proof (cnt_lookup (cnt (mark (Waited_done k))) _ _ _ Hj). simpl in *. lia.
  - lia.
Qed.

Lemma free_step i k p w :
  inv none w → w.(threads) !! i = Some (Free k :: p) →
  wp (on_release k w) (λ r, step_ok i p r.1 r.2).
Proof.
  intros Hi Hp. unfold on_release.
  destruct (head_alive _ _ _ _ _ k Hi Hp) as (f & d & Hk); [by left|]. rewrite Hk.
  cbn [must mbind outcome_bind]. destruct (free_alone _ _ _ _ _ _ Hi Hp Hk) as (-> & Hz & Hid & Ho).
  rewrite Hid. cbn [wp fst snd].
  unfold step_ok. cbn [threads add_log set_fences app].
  assert (tchange w.(threads) (<[i := []]> w.(threads)) [Free k] []) as Htc by by apply tchange_insert.
  assert (∀ k', k' ≠ k → same_marks k' [Free k] []) as Hm.
  { intros k' Hne o Ho'. rewrite cnt_cons, !cnt_nil. unfold mark. rewrite one_no; [done|].
    by destruct Ho' as [-> |[-> | ->]]; intros [=]. }
  split; cbn [threads fences next pool registered wakelocks set_threads add_log set_fences].
  - intros k' q Hk' Hq. apply (insert_others _ _ _ _ _ Hp) in Hq as [->|(j & Hj & Hne)];
      [apply uses_nil|].
    apply lookup_delete_None in Hk' as [<-|Hk']; [by eapply Ho|].
    apply (inv_none _ _ Hi k'); [done|]. by eapply list_elem_of_lookup_2.
  - intros k' f' d' Hk'. apply lookup_delete_Some in Hk' as [Hne Hk'].
    eapply fence_inv_threads; [by apply (inv_fence _ _ Hi)|exact Htc|by apply Hm| |].
    + by intros ?%uses_nil.
    + by intros ?%elem_of_nil.
  - eapply tchange_wf; [exact Htc| |done]. apply (inv_wf _ _ Hi).
  - intros k' Hk'. apply lookup_delete_None. right. by apply (inv_next _ _ Hi).
  - intros k' f' d' Hk'. apply lookup_delete_Some in Hk' as [_ Hk']. by apply (inv_pool _ _ Hi k' f' d').
  - intros k1 f1 d1 k2 f2 d2 [_ H1]%lookup_delete_Some [_ H2]%lookup_delete_Some.
    by apply (inv_ids _ _ Hi k1 f1 d1 k2 f2 d2).
  - apply (inv_registered _ _ Hi).
  - intros ip. pose proof (inv_wakelocks _ _ Hi ip) as Hw. destruct (decide _); [|done].
    pose proof (owe_delete ip k (f, d) _ Hk) as Hd. cbn in Hd. rewrite Hz in Hd.
    pose proof (tc_cnt _ _ _ _ Htc (op_owes ip)) as Hc. rewrite cnt_cons, !cnt_nil in Hc.
    unfold threads_owe, fences_owe in *. cbn [threads fences set_threads add_log set_fences] in *. simpl in Hc. lia.
Qed.

(** ** Any op *)

Definition run_allowed (i : nat) (o : op) (w : world) : Prop :=
  match o with
  | Put k _ => put_allowed i k w = true
  | Commit c held => counts_fit c held w = true
  | _ => True
  end.

Lemma exec_step i driver o p w :
  inv none w → w.(threads) !! i = Some (o :: p) → run_allowed i o w →
  wp (exec i driver o w) (λ r, step_ok i p r.1 r.2).
Proof.
  intros Hi Hp Ha.
  destruct o as [c n|c held|c held got todo|k|c held|k ip|k error async|k async signal|k async|k|k|k|k
    |k|k|k ip|k ip|k|k|k|k cb|k async|k|k|k|k|ret]; cbn [exec run_allowed] in *;
    try (by apply (simple_steps i _ p w Hi Hp I driver)).
  - by apply acquire_in_step.
  - by apply next_out_step.
  - by apply acquire_out_step.
  - by apply commit_step.
  - destruct (head_alive _ _ _ _ _ k Hi Hp) as (f & d & Hk); [by left|]. rewrite Hk.
    cbn [must mbind outcome_bind wp fst snd]. by eapply release_step.
  - by apply signal_step.
  - by apply signaler_done_step.
  - unfold iif_fence_signaler_completed.
    destruct (head_alive _ _ _ _ _ k Hi Hp) as (f & d & Hk); [by left|]. rewrite Hk.
    cbn [must mbind outcome_bind wp fst snd]. eapply step_same; try done; case_match; done || follow.
  - by apply waited_step.
  - unfold flush_signaled.
    destruct (head_alive _ _ _ _ _ k Hi Hp) as (f & d & Hk); [by left|]. rewrite Hk.
    cbn [must mbind outcome_bind]. case_match; [|done]. cbn [wp fst snd].
    eapply step_same; try done. by apply Forall_nil.
  - by apply broadcast_step.
  - destruct (head_alive _ _ _ _ _ k Hi Hp) as (f & d & Hk); [by left|].
    pose proof (work_done_step i k _ p w f d _ _ Hi Hp Hk (or_introl (conj eq_refl (conj eq_refl eq_refl)))) as H.
    unfold update, on_view, view_of in *. rewrite Hk in *. exact H.
  - destruct (head_alive _ _ _ _ _ k Hi Hp) as (f & d & Hk); [by left|].
    pose proof (work_done_step i k _ p w f d _ _ Hi Hp Hk (or_intror (conj eq_refl (conj eq_refl eq_refl)))) as H.
    unfold update, on_view, view_of in *. rewrite Hk in *. exact H.
  - by apply waiter_completed_step.
  - by apply put_step.
  - by apply flush_step.
  - by apply destroy_step.
  - by apply destroy_release_step.
  - by apply free_step.
  - cbn [wp fst snd]. eapply (step_thread i _ p w); try done; [by apply Forall_nil|].
    intros ip. pose proof (inv_wakelocks _ _ Hi ip) as Hw. case_decide; [|done]. simpl. lia.
Qed.

(** ** New threads *)

Lemma world_spawn p w :
  inv none w →
  (∀ k, uses k p → ∃ f d, w.(fences) !! k = Some (f, d) ∧ 0 < f.(kref)) →
  (∀ k, same_marks k [] p) → wf_thread p → (∀ ip, cnt (op_owes ip) p = 0%nat) →
  inv none (spawn p w).
Proof.
  intros Hi Hu Hm Hw Hz. pose proof (tchange_spawn w.(threads) p) as Htc.
  split; cbn [threads fences next pool registered wakelocks spawn set_threads].
  - intros k q Hk [->|Hq]%(tc_in _ _ _ _ Htc); [|by apply (inv_none _ _ Hi k)].
    intros Hp. destruct (Hu k Hp) as (f & d & Hk' & _). congruence.
  - intros k f d Hk. destruct (inv_fence _ _ Hi k f d Hk) as [F1 F2 F3 F4 F5 F6 F7 F8 F9 F10 F11].
    pose proof (λ o, tc_cnt _ _ _ _ Htc (mark o)) as Hc.
    split; try done.
    + intros q [->|Hq]%(tc_in _ _ _ _ Htc) Hk'; [|by apply F6].
      destruct (Hu k Hk') as (f' & d' & Hk'' & Hr). left. congruence.
    + specialize (Hc (Signaled_done k)). rewrite (Hm k (Signaled_done k)), cnt_nil in Hc by auto. lia.
    + specialize (Hc (Waited_done k)). rewrite (Hm k (Waited_done k)), cnt_nil in Hc by auto. lia.
    + specialize (Hc (Free k)). rewrite (Hm k (Free k)), cnt_nil in Hc by auto. lia.
    + intros q [->|Hq]%(tc_in _ _ _ _ Htc) Hf; [|by apply F10].
      apply marked in Hf. rewrite (Hm k (Free k)), cnt_nil in Hf by auto. lia.
  - intros q [->|Hq]%(tc_in _ _ _ _ Htc); [done|by apply (inv_wf _ _ Hi)].
  - apply (inv_next _ _ Hi).
  - apply (inv_pool _ _ Hi).
  - apply (inv_ids _ _ Hi).
  - apply (inv_registered _ _ Hi).
  - intros ip. rewrite (inv_wakelocks _ _ Hi ip). destruct (decide _); [|done].
    pose proof (tc_cnt _ _ _ _ Htc (op_owes ip)) as Hc. rewrite Hz, cnt_nil in Hc.
    unfold threads_owe, fences_owe in *. cbn [threads fences set_threads spawn]. lia.
Qed.

Lemma referenced_alive k w : referenced k w = true →
  ∃ f d, w.(fences) !! k = Some (f, d) ∧ 0 < f.(kref).
Proof.
  unfold referenced. destruct (w.(fences) !! k) as [[f d]|] eqn:Hk; [|done].
  intros Hr%Z.ltb_lt. eauto.
Qed.

Lemma call_step k u w : inv none w → referenced k w = true → inv none (spawn (program k u) w).
Proof.
  intros Hi Hr. apply world_spawn; [done| | | |].
  - intros k' Hk'. assert (k' = k) as ->; [|by apply referenced_alive].
    apply list_elem_of_bind in Hk' as (o & Hk' & Ho).
    destruct u as [| |ip []| |[cb|]]; cbn in Ho; singletons; by apply list_elem_of_singleton in Hk'.
  - intros k' o Ho. rewrite cnt_nil. apply cnt_zero. intros o' Ho'. apply one_no. intros ->.
    destruct u as [| |ip []| |[cb|]]; cbn in Ho'; singletons; by destruct Ho as [|[|]].
  - by destruct u as [| |ip []| |[cb|]].
  - intros ip'. by destruct u as [| |ip []| |[cb|]].
Qed.

Lemma submit_step c memory w :
  inv none w → forallb (λ k, referenced k w) (c.(ins) ++ c.(outs)) = true →
  wp (p ← iif_fence_submit_signaler_and_waiter c memory w; Ok (spawn p w)) (inv none).
Proof.
  intros Hi Hr. rewrite forallb_forall in Hr.
  assert (∀ k, k ∈ c.(ins) ++ c.(outs) → ∃ f d, w.(fences) !! k = Some (f, d) ∧ 0 < f.(kref)) as Hal.
  { intros k Hk. apply referenced_alive, Hr. by apply list_elem_of_In. }
  assert (∀ ks, (∀ k, k ∈ ks → k ∈ c.(ins) ++ c.(outs)) → ∃ l, with_ids ks w = Ok l) as Hids.
  { intros ks Hks. unfold with_ids.
    assert (is_Some (mapM (λ k, p ← w.(fences) !! k; Some (p.1.(id), k)) ks)) as [l ->]; [|by eexists].
    apply mapM_is_Some, Forall_forall. intros k Hk. destruct (Hal k (Hks k Hk)) as (f & d & Hk' & _).
    exists (f.(id), k). simpl. by rewrite Hk'. }
  assert (∃ p, iif_fence_submit_signaler_and_waiter c memory w = Ok p) as [p Hp].
  { unfold iif_fence_submit_signaler_and_waiter. case_match; [by eexists|].
    case_match; [by eexists|].
    destruct (Hids c.(ins)) as [l ->]; [intros; apply elem_of_app; by left|].
    destruct (Hids c.(outs)) as [r ->]; [intros; apply elem_of_app; by right|].
    cbn [mbind outcome_bind]. destruct (iif_fences_sort_by_id l), (iif_fences_sort_by_id r).
    repeat case_match; by eexists. }
  rewrite Hp. cbn [mbind outcome_bind wp]. apply world_spawn; [done|..].
  all: destruct (submit_ok _ _ _ _ Hp) as [(ret & -> & _)|(c' & -> & _ & Pi & Po & Hnd)].
  - intros k Hk. by apply elem_of_nil in Hk.
  - intros k Hk. apply Hal. apply list_elem_of_bind in Hk as (o & -> %list_elem_of_singleton & _) || idtac.
    unfold uses in Hk. cbn in Hk. rewrite app_nil_r, Pi, Po in Hk. done.
  - intros k o [-> |[-> | ->]]; done.
  - intros k o [-> |[-> | ->]]; done.
  - done.
  - split; [done|]. split; [|done]. split; [done|]. cbn. lia.
  - done.
  - intros ip. rewrite cnt_cons, cnt_nil. cbn. by case_decide.
Qed.

(** ** Works *)

Lemma idle_phase k l f d p : fence_inv k l f d → p ∈ l → Free k ∈ p → ¬ idle f →
  p = iif_fence_do_destroy k.
Proof. intros Hfi Hp Hf Hn. by destruct (fi_phase _ _ _ _ Hfi p Hp Hf). Qed.

Lemma run_signaled_step k w : inv none w → is_Some (w.(fences) !! k) →
  wp (step (Run_signaled k) w) (inv none).
Proof.
  intros Hi [[f d] Hk]. cbn [step]. rewrite Hk. cbn [must mbind outcome_bind].
  destruct (_ || _) eqn:Hb; [done|]. apply orb_false_iff in Hb as [Hpend%negb_false_iff Hrun].
  destruct (update_result k (set_works (Work false true) f.(waited_work) f.(put_work)) w f d Hk eq_refl)
    as (w1 & -> & F1 & N1 & P1 & R1 & W1 & T1). cbn [mbind outcome_bind wp].
  pose proof (inv_fence _ _ Hi k f d Hk) as Hfi.
  pose proof (tchange_spawn w.(threads) [Broadcast k; Signaled_done k]) as Htc. rewrite <-T1 in Htc at 2.
  eapply (refs_update w _ k f d f.(kref) (Work false true) f.(waited_work) f.(put_work) []
    [Broadcast k; Signaled_done k]); cbn [spawn set_threads threads fences next pool registered wakelocks];
    try congruence; try done.
  - eapply fence_inv_refs; [done|exact Htc|apply (fi_kref _ _ _ _ Hfi)| | |done|done|].
    + intros p [->|Hp]%(tc_in _ _ _ _ Htc) Hu; [|by apply (fi_users _ _ _ _ Hfi)].
      right. left. right. by left.
    + rewrite !cnt_cons, !cnt_nil, Hrun. unfold mark. simp_one. done.
    + intros p [->|Hp]%(tc_in _ _ _ _ Htc) Hf;
        [by apply elem_of_cons in Hf as [[=]|[[=]|[]%elem_of_nil]%elem_of_cons]|].
      rewrite (idle_phase _ _ _ _ _ Hfi Hp Hf); [apply Phase_flush|].
      intros [Hi1 _]. unfold work_idle in Hi1. by rewrite Hpend in Hi1.
  - apply no_others; [|done]. intros o Ho k'. cbn in Ho. singletons; by intros ->%list_elem_of_singleton.
Qed.

Lemma run_waited_step k w : inv none w → is_Some (w.(fences) !! k) →
  wp (step (Run_waited k) w) (inv none).
Proof.
  intros Hi [[f d] Hk]. cbn [step]. rewrite Hk. cbn [must mbind outcome_bind].
  destruct (_ || _) eqn:Hb; [done|]. apply orb_false_iff in Hb as [Hpend%negb_false_iff Hrun].
  destruct (update_result k (set_works f.(signaled_work) (Work false true) f.(put_work)) w f d Hk eq_refl)
    as (w1 & -> & F1 & N1 & P1 & R1 & W1 & T1). cbn [mbind outcome_bind wp].
  pose proof (inv_fence _ _ Hi k f d Hk) as Hfi.
  pose proof (tchange_spawn w.(threads) [Waited k; Waited_done k]) as Htc. rewrite <-T1 in Htc at 2.
  eapply (refs_update w _ k f d f.(kref) f.(signaled_work) (Work false true) f.(put_work) []
    [Waited k; Waited_done k]); cbn [spawn set_threads threads fences next pool registered wakelocks];
    try congruence; try done.
  - eapply fence_inv_refs; [done|exact Htc|apply (fi_kref _ _ _ _ Hfi)| |done| |done|].
    + intros p [->|Hp]%(tc_in _ _ _ _ Htc) Hu; [|by apply (fi_users _ _ _ _ Hfi)].
      right. right. left. right. by left.
    + rewrite !cnt_cons, !cnt_nil, Hrun. unfold mark. simp_one. done.
    + intros p [->|Hp]%(tc_in _ _ _ _ Htc) Hf;
        [by apply elem_of_cons in Hf as [[=]|[[=]|[]%elem_of_nil]%elem_of_cons]|].
      rewrite (idle_phase _ _ _ _ _ Hfi Hp Hf); [apply Phase_flush|].
      intros [_ Hi1]. unfold work_idle in Hi1. by rewrite Hpend in Hi1.
  - apply no_others; [|done]. intros o Ho k'. cbn in Ho. singletons; by intros ->%list_elem_of_singleton.
Qed.

Lemma run_put_step k w : inv none w → is_Some (w.(fences) !! k) →
  wp (step (Run_put k) w) (inv none).
Proof.
  intros Hi [[f d] Hk]. cbn [step]. rewrite Hk. cbn [must mbind outcome_bind].
  destruct (negb _) eqn:Hb; [done|]. apply negb_false_iff in Hb.
  destruct (update_result k (set_works f.(signaled_work) f.(waited_work) false) w f d Hk eq_refl)
    as (w1 & -> & F1 & N1 & P1 & R1 & W1 & T1). cbn [mbind outcome_bind wp].
  pose proof (inv_fence _ _ Hi k f d Hk) as Hfi. pose proof (fi_free _ _ _ _ Hfi) as Hfree.
  rewrite Hb in Hfree. cbn [b2n] in Hfree. pose proof (one_le (kref f = 0)) as Hle.
  pose proof (tchange_spawn w.(threads) (iif_fence_do_destroy k)) as Htc. rewrite <-T1 in Htc at 2.
  eapply (refs_update w _ k f d f.(kref) f.(signaled_work) f.(waited_work) false []
    (iif_fence_do_destroy k)); cbn [spawn set_threads threads fences next pool registered wakelocks];
    try congruence; try done.
  - eapply fence_inv_refs; [done|exact Htc|apply (fi_kref _ _ _ _ Hfi)| |done|done| |].
    + intros p [->|Hp]%(tc_in _ _ _ _ Htc) Hu; [|by apply (fi_users _ _ _ _ Hfi)].
      right. right. right. do 3 right. by left.
    + rewrite Hb. unfold iif_fence_do_destroy. rewrite !cnt_cons, !cnt_nil. unfold mark. simp_one. simpl. lia.
    + intros p [->|Hp]%(tc_in _ _ _ _ Htc) Hf; [apply Phase_flush|].
      apply marked in Hf. apply list_elem_of_lookup in Hp as [j Hj].
      pose proof (cnt_lookup (cnt (mark (Free k))) _ _ _ Hj). lia.
  - apply no_others; [|done]. intros o Ho k'. unfold iif_fence_do_destroy in Ho. cbn in Ho.
    singletons; by intros ->%list_elem_of_singleton.
Qed.

(** ** References, flags, callbacks *)

Lemma get_step k w : inv none w → referenced k w = true →
  wp (kref_get k w) (λ w', inv none w' ∧ referenced k w' = true).
Proof.
  intros Hi Hr. destruct (referenced_alive _ _ Hr) as (f & d & Hk & Hpos).
  unfold kref_get. rewrite Hk. cbn [must mbind outcome_bind].
  rewrite (proj2 (Z.leb_gt _ _)) by lia.
  destruct (update_result k (λ f, set_kref (f.(kref) + 1) f) w f d Hk eq_refl)
    as (w1 & -> & F1 & N1 & P1 & R1 & W1 & T1). cbn [mbind outcome_bind wp].
  pose proof (inv_fence _ _ Hi k f d Hk) as Hfi. split.
  - eapply (refs_update w w1 k f d (f.(kref) + 1) f.(signaled_work) f.(waited_work) f.(put_work) [] []);
      try done.
    + rewrite T1. apply tchange_none.
    + rewrite T1. eapply fence_inv_refs; [done|apply tchange_none|lia| |done|done| |].
      * intros p _ _. left. lia.
      * rewrite !one_no by lia. done.
      * intros p Hp Hf. by destruct (referenced_no_free _ _ _ _ p Hfi Hpos Hp).
    + intros k' _. split_and!; [done|done|]. by intros ?%elem_of_nil.
  - unfold referenced. rewrite F1, lookup_insert_eq. apply Z.ltb_lt. cbn. lia.
Qed.

(** A section of a user that leaves no thread. *)
Lemma user_section {A} b k (F : view → outcome (A * view)) w f d :
  inv none w → w.(fences) !! k = Some (f, d) → 0 < f.(kref) →
  (vok (view_at w f d) → settled f →
   wp (F (view_at w f d)) (λ r, keeps b (view_at w f d) r.2)) →
  wp (on_view k F w) (λ r, inv none r.2).
Proof.
  intros Hi Hk Hr HF. destruct (inv_vok _ _ _ _ _ Hi Hk) as [Hv Hs].
  eapply wp_view; [done|]. eapply wp_mono; [by apply HF|]. intros [x v'] Hkeep. cbn [fst snd] in *.
  pose proof (rel_wakelock _ _ _ (proj1 Hkeep)) as Hw.
  eapply inv_ext; [|apply (inv_section b none w k f d v' Hi Hk)].
  - intros ip. rewrite Hw. unfold none. cbn. lia.
  - by apply keeps_upto.
  - intros ip. rewrite Hw. apply (inv_fence _ _ Hi k f d Hk).
  - intros p Hp Hf. by destruct (referenced_no_free _ _ _ _ p (inv_fence _ _ Hi k f d Hk) Hr Hp).
Qed.

(** ** Creation *)

Lemma init_step p memory ida w : inv none w → allowed (Init p memory ida) w = true →
  inv none (iif_fence_init_with_params p memory ida w).2.
Proof.
  intros Hi Ha. unfold iif_fence_init_with_params.
  destruct (_ <=? _); [done|]. destruct (_ =? 0); [done|].
  assert (∀ id d e, iif_direct_fence_create p memory ida w.(table) = (id, Some (d, e)) →
    id = ida ∧ 0 ≤ ida ∧ d.(d_id) = id) as Hc.
  { intros id d e. unfold iif_direct_fence_create. repeat case_match; intros [= <- <- <-];
      split_and!; done || (apply Z.ltb_ge; done). }
  destruct (iif_direct_fence_create p memory ida w.(table)) as [id [[d e]|]]; [|done].
  destruct (Hc id d e eq_refl) as (-> & Hpos & Hd). clear Hc. cbn [snd].
  cbn [allowed] in Ha. cbv zeta in Ha.
  apply andb_true_iff in Ha as [Ha Hida]. apply andb_true_iff in Ha as [Ha Hmax].
  apply andb_true_iff in Ha as [Hip%Z.leb_le Hmin%Z.leb_le]. apply Z.ltb_lt in Hmax.
  rewrite (proj2 (Z.ltb_ge _ _)) in Hida by done. cbn in Hida.
  apply andb_true_iff in Hida as [Hida Hfresh%negb_true_iff%bool_decide_eq_false].
  apply andb_true_iff in Hida as [H1%Z.leb_le H2%Z.ltb_lt].
  pose proof (inv_next _ _ Hi w.(next) (Nat.le_refl _)) as Hnone.
  assert (∀ q, q ∈ w.(threads) → ¬ uses w.(next) q) as Hno by by intros; apply (inv_none _ _ Hi).
  assert (∀ o, w.(next) ∈ op_fences o → cnt (cnt (mark o)) w.(threads) = 0%nat) as Hz.
  { intros o Ho. apply cnt_zero. intros q Hq. apply cnt_zero. intros o' Ho'. apply one_no. intros ->.
    apply (Hno q Hq). by eapply uses_elem. }
  split; cbn [fences next table pool registered wakelocks threads log].
  - intros k q Hk Hq. apply lookup_insert_None in Hk as [Hk _]. by apply (inv_none _ _ Hi k).
  - intros k f' d' Hk. apply lookup_insert_Some in Hk as [[<- [= <- <-]]|[Hne Hk]];
      [|by apply (inv_fence _ _ Hi)].
    split; cbn; try done; try lia.
    + split; unfold total; cbn; done || lia.
    + by exists d.
    + rewrite Hz by by left. done.
    + rewrite Hz by by left. done.
    + rewrite Hz by by left. done.
    + intros q Hq Hf. destruct (Hno q Hq). eapply uses_elem; [done|by left].
  - apply (inv_wf _ _ Hi).
  - intros k Hk. rewrite lookup_insert_ne by lia. apply (inv_next _ _ Hi). lia.
  - intros k f' d' Hk Hr. apply lookup_insert_Some in Hk as [[<- [= <- <-]]|[Hne Hk]]; cbn; [set_solver|].
    apply elem_of_union. left. by eapply (inv_pool _ _ Hi).
  - assert (∀ k f' d', w.(fences) !! k = Some (f', d') → f'.(retired) = false → f'.(id) ≠ ida) as Hids.
    { intros k f' d' Hk Hr Heq. apply Hfresh. rewrite <-Heq. by eapply (inv_pool _ _ Hi). }
    intros k1 f1 d1 k2 f2 d2 Hk1 Hk2 Hr1 Hr2 He.
    apply lookup_insert_Some in Hk1 as [[<- [= <- <-]]|[Hne1 Hk1]];
      apply lookup_insert_Some in Hk2 as [[<- [= <- <-]]|[Hne2 Hk2]]; cbn in *.
    + done.
    + by destruct (Hids k2 f2 d2).
    + by destruct (Hids k1 f1 d1).
    + by eapply (inv_ids _ _ Hi k1 f1 d1 k2 f2 d2).
  - apply (inv_registered _ _ Hi).
  - intros ip. rewrite (inv_wakelocks _ _ Hi ip). destruct (decide _); [|done].
    unfold threads_owe, fences_owe. cbn [fences threads].
    rewrite owe_insert by done. cbn. lia.
Qed.

(** ** Any move *)

Lemma register_step ip r w :
  inv none w → 0 ≤ ip → Z.of_nat (threads_owe ip w) + fences_owe ip w = 0 →
  r = w.(registered) ∖ {[ip]} ∨ ip < IIF_IP_NUM ∧ r = {[ip]} ∪ w.(registered) →
  inv none (set_registered r w).
Proof.
  intros Hi Hip H0 Hr. destruct Hi as [I1 I2 I3 I4 I5 I6 I7 I8].
  split; cbn [fences next table pool registered wakelocks threads log set_registered]; try done.
  - intros ip' Hin. destruct Hr as [->|[Hlt ->]]; [apply I7; set_solver|].
    apply elem_of_union in Hin as [->%elem_of_singleton|Hin]; [done|by apply I7].
  - intros ip'. rewrite I8. unfold none, threads_owe, fences_owe in *.
    cbn [fences threads set_registered] in *.
    destruct (decide (ip' = ip)) as [->|Hne].
    + repeat case_decide; lia.
    + assert (ip' ∈ r ↔ ip' ∈ w.(registered)) as Heq by (destruct Hr as [->|[_ ->]]; set_solver).
      repeat case_decide; tauto || lia.
Qed.

Lemma step_inv mv w : inv none w → allowed mv w = true → wp (step mv w) (inv none).
Proof.
  intros Hi Ha.
  destruct mv as [p memory ida|c memory|k u|k a|k|k|id'|k|id' s|ip|ip|k|k|k|i driver]; cbn [step].
  - by apply init_step.
  - cbn in Ha. apply andb_true_iff in Ha as [Ha _]. by apply submit_step.
  - cbn in Ha. apply andb_true_iff in Ha as [Ha _]. by apply call_step.
  - cbn in Ha. apply andb_true_iff in Ha as [Hr Ha].
    destruct (referenced_alive _ _ Hr) as (f & d & Hk & Hpos). rewrite Hk in Ha.
    apply wp_bind. eapply wp_locked; [done|].
    eapply wp_mono; [eapply (user_section true k (atomic a) w f d Hi Hk Hpos)|by intros [[] w']].
    intros Hv Hs. apply atomic_vrel; [done|done|]. destruct a; try done. by apply negb_true_iff.
  - destruct (referenced_alive _ _ Ha) as (f & d & Hk & Hpos). apply wp_bind. unfold update.
    apply wp_bind.
    eapply wp_mono; [eapply (user_section true k _ w f d Hi Hk Hpos)|by intros [[] w']].
    intros _ _. cbn. keep.
  - eapply wp_mono; [by apply get_step|]. by intros w' [H _].
  - cbn in Ha. destruct (iif_manager_get_fence_from_id id' w) as [k|]; [|done].
    eapply wp_mono; [by apply get_step|]. by intros w' [H _].
  - apply wp_bind. eapply wp_mono; [by apply get_step|]. intros w' [Hi' Hr]. cbn [wp].
    apply world_spawn; [done| |by intros k' o [-> |[-> | ->]]|done|done].
    intros k' Hu. unfold uses in Hu. cbn in Hu. apply list_elem_of_singleton in Hu as ->.
    by apply referenced_alive.
  - cbn [wp]. by destruct Hi.
  - cbn in Ha. apply andb_true_iff in Ha as [Hip%Z.leb_le Ha%Z.eqb_eq]. cbn [wp].
    case_match eqn:He; [done|]. apply Z.leb_gt in He. eapply register_step; eauto.
  - cbn in Ha. apply andb_true_iff in Ha as [Hip%Z.leb_le Ha%Z.eqb_eq]. cbn [wp].
    case_match eqn:He; [done|]. eapply register_step; eauto.
  - cbn in Ha. apply bool_decide_eq_true in Ha. by apply run_signaled_step.
  - cbn in Ha. apply bool_decide_eq_true in Ha. by apply run_waited_step.
  - cbn in Ha. apply bool_decide_eq_true in Ha. by apply run_put_step.
  - unfold run_thread. cbn in Ha. destruct (w.(threads) !! i) as [p|] eqn:Hp; [|done].
    cbn [must mbind outcome_bind]. destruct p as [|o p]; [done|].
    apply wp_bind. eapply wp_mono; [apply exec_step; [done|done|by destruct o]|].
    intros [q w'] H. exact H.
Qed.
