(* ===== verification/IifPower.v ===== *)
(** * Inter-IP fences: the power of those that wait

    A fence counts the waits of each IP and the wakelocks that it has to release for
    it.  While a fence has references, it counts no fewer wakelocks than waits
    ([powered]), as long as nobody ends a wait that was not begun ([paired]). *)

From S2P Require Import Prelude.
From S2P Require Import Interleaving.
From S2P Require Import IifTable.
From S2P Require Import IifFence.
From S2P Require Import IifSystem.
From S2P Require Import IifInv.
From S2P Require Import IifWorld.
From S2P Require Import IifSteps.
From S2P Require Import IifSubmit.
From S2P Require Import IifOrder.
From S2P Require Import IifMoves.

(** What holds of the result, if there is one. *)
Definition wlp {A} (o : outcome A) (Q : A → Prop) : Prop :=
  match o with Ok x => Q x | _ => True end.

Lemma wlp_bind {A B} (o : outcome A) (F : A → outcome B) (Q : B → Prop) :
  wlp o (λ x, wlp (F x) Q) → wlp (o ≫= F) Q.
Proof. by destruct o. Qed.

Lemma wlp_mono {A} (o : outcome A) (P Q : A → Prop) :
  wlp o P → (∀ x, P x → Q x) → wlp o Q.
Proof. destruct o; simpl; auto. Qed.

Lemma wlp_must {A} (o : option A) (Q : A → Prop) : (∀ x, o = Some x → Q x) → wlp (must o) Q.
Proof. destruct o; simpl; auto. Qed.

(** What the power of those that wait depends on. *)
Definition power (f : iif_fence) : (Z → Z) * (Z → Z) * Z :=
  (f.(outstanding_waiters_per_ip), f.(outstanding_block_wakelock), f.(kref)).

Definition power_of (w : world) (k : nat) : option ((Z → Z) * (Z → Z) * Z) :=
  (λ p, power p.1) <$> w.(fences) !! k.

Definition same_power (w w' : world) : Prop := ∀ k, power_of w' k = power_of w k.

(** ** Sections *)

(** A section that leaves it alone. *)
Definition idles (v : view) (v' : view) : Prop := power v'.(fence) = power v.(fence).

Ltac idling :=
  simpl; repeat (first [apply wlp_bind | case_match]; simpl in * ); try done.

Ltac ifs := match goal with |- wlp (if ?b then _ else _) _ => destruct b; [done|] end.

Lemma notify_idles v : idles v (iif_fence_notify_poll_cb_locked v).
Proof.
  unfold iif_fence_notify_poll_cb_locked, iif_fence_notify_poll_cb_single_shot_locked,
    iif_fence_notify_poll_cb_reusable_locked. by repeat case_match.
Qed.

Lemma set_status_idles s f : power (iif_fence_set_status_locked s f).2 = power f.
Proof. by destruct (set_status_locked_fence s f) as (? & ? & ? & ->). Qed.

Lemma poll_cb_func_idles s v : idles v (iif_fence_poll_cb_func_locked s v).
Proof.
  unfold iif_fence_poll_cb_func_locked. pose proof (set_status_idles s v.(fence)) as Hs.
  destruct (iif_fence_set_status_locked s (fence v)) as [[] f]; simpl in *; [|done].
  unfold idles. by rewrite notify_idles.
Qed.

Lemma handle_error_idles e v : wlp (iif_direct_fence_handle_signal_error e v) (idles v).
Proof.
 unfold iif_direct_fence_handle_signal_error. destruct v.(direct); idling.
Qed.

Lemma invoke_single_shot_idles v : wlp (iif_direct_fence_invoke_poll_callbacks_single_shot v) (idles v).
Proof.
  unfold iif_direct_fence_invoke_poll_callbacks_single_shot. destruct v.(direct); idling.
  unfold idles. by rewrite poll_cb_func_idles.
Qed.

Lemma invoke_reusable_idles v : wlp (iif_direct_fence_invoke_poll_callbacks_reusable v) (idles v).
Proof.
  unfold iif_direct_fence_invoke_poll_callbacks_reusable. destruct v.(direct) as [d|]; [|done].
  cbn [must mbind outcome_bind]. destruct (negb _); [done|].
  set (v1 := if poll_cb d then _ else v).
  assert (idles v v1) as H1.
  { subst v1. unfold idles. destruct (poll_cb d); [|done]. rewrite poll_cb_func_idles. by case_match. }
  by destruct v1.(direct).
Qed.

Lemma sync_status_idles F v : (∀ v, wlp (F v) (idles v)) →
  wlp (iif_direct_fence_sync_status F v) (idles v).
Proof.
  intros HF. unfold iif_direct_fence_sync_status. destruct v.(direct); [|done].
  cbn [must mbind outcome_bind]. case_match; [done|].
  match goal with |- wlp (F ?v1) _ => eapply wlp_mono; [apply (HF v1)|done] end.
Qed.

Lemma signal_idles error force v :
  wlp (iif_fence_signal_with_status_locked error force v) (λ r, idles v r.2).
Proof.
  unfold iif_fence_signal_with_status_locked, iif_direct_fence_signal,
    iif_direct_fence_signal_single_shot, iif_direct_fence_signal_reusable.
  do 4 ifs.
  destruct v.(direct) as [d|]; [|done]. cbn [must mbind outcome_bind].
  destruct (fence_type (d_params d)); [apply wlp_bind..|done].
  - apply wlp_bind. eapply wlp_mono; [apply handle_error_idles|]. intros v1 E1.
    eapply wlp_mono; [apply sync_status_idles, invoke_single_shot_idles|]. intros v2 E2.
    unfold idles in *. cbn. rewrite E2. unfold iif_direct_fence_table_set_remaining_signals.
    by destruct (propagate (fence v1)).
  - apply wlp_bind. eapply wlp_mono; [apply handle_error_idles|]. intros v1 E1.
    eapply wlp_mono; [apply sync_status_idles, invoke_reusable_idles|]. intros v2 E2.
    unfold idles in *. cbn. rewrite E2. unfold iif_direct_fence_table_inc_timeline.
    by destruct (_ <? _), (propagate (fence v1)).
Qed.

Lemma retire_idles v : wlp (iif_fence_retire_locked v) (idles v).
Proof.
  unfold iif_fence_retire_locked, iif_direct_remove_poll_cb, iif_direct_fence_retire.
  case_match; [done|]. by destruct v.(direct).
Qed.

Lemma retire_if_possible_idles v : wlp (iif_fence_retire_if_possible_locked v) (idles v).
Proof. unfold iif_fence_retire_if_possible_locked. case_match; [apply retire_idles|done]. Qed.

Lemma inc_signaled_idles complete v :
  wlp (iif_fence_inc_signaled_signalers_locked complete v) (λ r, idles v r.2).
Proof.
  unfold iif_fence_inc_signaled_signalers_locked. case_match; [done|]. apply wlp_bind.
  eapply wlp_mono; [apply retire_if_possible_idles|]. done.
Qed.

Lemma signaler_done_idles v : wlp (signaler_done_locked v) (λ r, idles v r.2).
Proof.
  unfold signaler_done_locked. repeat (case_match; [done|]). apply wlp_bind.
  eapply wlp_mono; [apply inc_signaled_idles|]. by intros [].
Qed.

Lemma submit_signaler_idles complete v : idles v (iif_fence_submit_signaler_locked complete v).
Proof. unfold iif_fence_submit_signaler_locked. by case_match. Qed.

Lemma do_destroy_idles v : wlp (do_destroy_locked v) (λ r, idles v r.2).
Proof.
  unfold do_destroy_locked. cbv zeta. set (v1 := if _ && _ then _ else v).
  assert (idles v v1) as H1.
  { subst v1. case_match; [|done]. unfold idles. by rewrite submit_signaler_idles. }
  apply wlp_bind. eapply (wlp_mono _ (λ r, idles v1 r.2)).
  - case_match; [done|]. cbv zeta.
    pose proof (set_status_idles (FenceStatus (- EDEADLK) true (timeout (params (set_propagate true
      (fence v1))))) (set_propagate true (fence v1))) as Hs.
    destruct (iif_fence_set_status_locked _ _) as [updated f2]. apply wlp_bind.
    eapply wlp_mono; [apply inc_signaled_idles|]. intros [ret v3] H3. unfold idles in *. cbn in *.
    by rewrite H3.
  - intros [updated v2] H2. apply wlp_bind. eapply wlp_mono; [apply retire_idles|]. intros v3 H3.
    unfold idles in *. cbn in *. by rewrite notify_idles, H3, H2.
Qed.

Lemma atomic_idles a v : wlp (atomic a v) (λ r, idles v r.2).
Proof.
  destruct a; cbn [atomic]; unfold iif_fence_add_sync_point, iif_direct_fence_add_sync_point,
    iif_fence_set_flags, iif_fence_add_poll_callback, iif_fence_remove_poll_callback,
    iif_fence_add_all_signaler_submitted_callback, iif_fence_remove_all_signaler_submitted_callback.
  - apply wlp_bind. do 2 ifs. destruct v.(direct) as [d|]; [|done]. cbn [must mbind outcome_bind].
    destruct (fence_type (d_params d)); try done.
    ifs. cbv zeta. apply wlp_bind.
    eapply wlp_mono; [apply invoke_reusable_idles|]. done.
  - repeat case_match; try done. cbn. unfold idles. by rewrite notify_idles.
  - by repeat case_match.
  - by repeat case_match.
  - by repeat case_match.
  - by repeat case_match.
Qed.

(** ** The world *)

Lemma same_refl w : same_power w w.
Proof. done. Qed.

Lemma same_trans w1 w2 w3 : same_power w1 w2 → same_power w2 w3 → same_power w1 w3.
Proof. intros H1 H2 k. by rewrite H2. Qed.

Lemma same_fences w w' : w'.(fences) = w.(fences) → same_power w w'.
Proof. intros Hf k. unfold power_of. by rewrite Hf. Qed.

Lemma on_view_wlp {A} k (F : view → outcome (A * view)) w Q :
  (∀ f d, w.(fences) !! k = Some (f, d) →
     wlp (F (view_at w f d)) (λ r, Q (r.1, put_view k r.2 w))) →
  wlp (on_view k F w) Q.
Proof.
  intros HF. unfold on_view, view_of. destruct (w.(fences) !! k) as [[f d]|] eqn:Hk; [|done].
  cbn [must mbind outcome_bind]. fold (view_at w f d). specialize (HF f d eq_refl).
  destruct (F (view_at w f d)) as [[x v']| |]; done.
Qed.

Lemma locked_wlp {A} k (F : view → outcome (A * view)) w Q :
  wlp (on_view k F w) Q → wlp (locked k F w) Q.
Proof.
  intros HF. unfold locked. unfold view_of at 1. destruct (w.(fences) !! k) as [[f d]|]; [|done].
  cbn [must mbind outcome_bind fence]. by destruct (fence_lock f).
Qed.

Lemma put_view_power k v w : power_of (put_view k v w) k = Some (power v.(fence)).
Proof. unfold power_of. cbn. by rewrite lookup_insert_eq. Qed.

Lemma put_view_others k v w k' : k' ≠ k → power_of (put_view k v w) k' = power_of w k'.
Proof. intros Hne. unfold power_of. cbn. by rewrite lookup_insert_ne. Qed.

Lemma on_view_same {A} k (F : view → outcome (A * view)) w :
  (∀ v, wlp (F v) (λ r, idles v r.2)) → wlp (on_view k F w) (λ r, same_power w r.2).
Proof.
  intros HF. apply on_view_wlp. intros f d Hk. eapply wlp_mono; [apply HF|]. intros [x v'] Hi k'. cbn in *.
  destruct (decide (k' = k)) as [->|]; [|by apply put_view_others]. rewrite put_view_power.
  unfold power_of. rewrite Hk. simpl. by rewrite Hi.
Qed.

Lemma locked_same {A} k (F : view → outcome (A * view)) w :
  (∀ v, wlp (F v) (λ r, idles v r.2)) → wlp (locked k F w) (λ r, same_power w r.2).
Proof. intros HF. by apply locked_wlp, on_view_same. Qed.

Lemma update_same k F w : (∀ f, power (F f) = power f) → wlp (update k F w) (λ r, same_power w r.2).
Proof.
  intros HF. unfold update. apply wlp_bind.
  eapply wlp_mono; [apply on_view_same|by intros [[] w']]. intros v. apply HF.
Qed.

(** ** The invariant *)

Definition powered (w : world) : Prop :=
  ∀ k per wl refs, power_of w k = Some (per, wl, refs) → 0 < refs → ∀ ip, per ip ≤ wl ip.

Lemma powered_same w w' : same_power w w' → powered w → powered w'.
Proof. intros Hs Hp k per wl refs Hk. rewrite Hs in Hk. by apply (Hp k). Qed.

Lemma powered_update w w' k :
  (∀ k', k' ≠ k → power_of w' k' = power_of w k') → powered w →
  (∀ per wl refs, power_of w' k = Some (per, wl, refs) → 0 < refs → ∀ ip, per ip ≤ wl ip) →
  powered w'.
Proof.
  intros Ho Hp Hk k' per wl refs Hk'. destruct (decide (k' = k)) as [->|Hne]; [by apply Hk|].
  rewrite Ho in Hk' by done. by apply (Hp k').
Qed.

(** A section of one fence. *)
Lemma on_view_powered {A} k (F : view → outcome (A * view)) w :
  powered w →
  (∀ v d, w.(fences) !! k = Some (v.(fence), d) →
     (0 < v.(fence).(kref) →
        ∀ ip, v.(fence).(outstanding_waiters_per_ip) ip ≤ v.(fence).(outstanding_block_wakelock) ip) →
     wlp (F v) (λ r, 0 < r.2.(fence).(kref) →
        ∀ ip, r.2.(fence).(outstanding_waiters_per_ip) ip
              ≤ r.2.(fence).(outstanding_block_wakelock) ip)) →
  wlp (on_view k F w) (λ r, powered r.2).
Proof.
  intros Hp HF. apply on_view_wlp. intros f d Hk. eapply wlp_mono; [eapply HF; [done|]|].
  - intros Hr. apply (Hp k _ _ f.(kref)); [|done]. unfold power_of. by rewrite Hk.
  - intros [x v'] Hv. cbn [snd] in *. eapply powered_update; [by apply put_view_others|done|].
    intros per wl refs. rewrite put_view_power. intros [= <- <- <-]. exact Hv.
Qed.

Lemma remove_waiter_power ip v :
  wlp (iif_fence_remove_waiter_locked ip v) (λ v', power v'.(fence)
    = (at_ip ip (u16 (v.(fence).(outstanding_waiters_per_ip) ip - 1))
         v.(fence).(outstanding_waiters_per_ip), v.(fence).(outstanding_block_wakelock),
       v.(fence).(kref))).
Proof.
  unfold iif_fence_remove_waiter_locked. eapply wlp_mono; [apply retire_if_possible_idles|].
  intros v' Hv. by rewrite Hv.
Qed.

(** Whoever ends a wait has begun it. *)
Definition waits (k : nat) (ip : Z) (w : world) : Prop :=
  ∀ f d, w.(fences) !! k = Some (f, d) → 0 < f.(outstanding_waiters_per_ip) ip.

Lemma remove_waiter_powered ip v :
  0 < v.(fence).(outstanding_waiters_per_ip) ip → fits v.(fence) →
  (0 < v.(fence).(kref) →
     ∀ ip, v.(fence).(outstanding_waiters_per_ip) ip ≤ v.(fence).(outstanding_block_wakelock) ip) →
  wlp (iif_fence_remove_waiter_locked ip v) (λ v', 0 < v'.(fence).(kref) → ∀ ip',
    v'.(fence).(outstanding_waiters_per_ip) ip'
    ≤ v'.(fence).(outstanding_block_wakelock) ip' - (if ip' =? ip then 1 else 0)).
Proof.
  intros Hip Hfit Hp. eapply wlp_mono; [apply remove_waiter_power|].
  intros v' [= Hper Hwl Hk] Hr ip'.
  rewrite Hk in Hr. specialize (Hp Hr ip'). specialize (Hfit ip'). rewrite Hper, Hwl. unfold at_ip.
  destruct (Z.eqb_spec ip' ip) as [->|]; [|lia]. rewrite u16_small by lia. lia.
Qed.

Lemma remove_waiter_keeps_power k ip w :
  powered w → waits k ip w → (∀ f d, w.(fences) !! k = Some (f, d) → fits f) →
  wlp (iif_fence_remove_waiter k ip w) (λ r, powered r.2).
Proof.
  intros Hp Hw Hfit. unfold iif_fence_remove_waiter. apply wlp_bind, locked_wlp.
  eapply wlp_mono; [eapply on_view_powered; [done|]|by intros [[] w']].
  intros v d Hk Hv. apply wlp_bind. eapply wlp_mono; [apply remove_waiter_powered; [by eapply Hw|by eapply Hfit|done]|].
  intros v' H Hr ip'. cbn in *. specialize (H Hr ip'). case_match; lia.
Qed.

Lemma waiter_completed_keeps_power k ip w :
  powered w → waits k ip w →
  (∀ f d, w.(fences) !! k = Some (f, d) → fits f) →
  wlp (iif_fence_waiter_completed k ip w) (λ r, powered r.2).
Proof.
  intros Hp Hw Hfit. unfold iif_fence_waiter_completed. apply wlp_bind, locked_wlp.
  eapply wlp_mono; [eapply on_view_powered; [done|]|by intros [[] w']].
  intros v d Hk Hv. apply wlp_bind.
  eapply (wlp_mono _ (λ v', (0 < v'.(fence).(kref) → ∀ ip',
    v'.(fence).(outstanding_waiters_per_ip) ip'
    ≤ v'.(fence).(outstanding_block_wakelock) ip' - (if ip' =? ip then 1 else 0))
    ∧ fits v'.(fence))).
  - pose proof (remove_waiter_powered ip v (Hw _ _ Hk) (Hfit _ _ Hk) Hv) as H1.
    pose proof (remove_waiter_power ip v) as H2.
    destruct (iif_fence_remove_waiter_locked ip v) as [v'| |]; [|done|done]. split; [done|].
    injection H2 as _ H2 _. unfold fits. rewrite H2. by eapply Hfit.
  - intros v' [H1 H2]. destruct (_ && _); cbn; intros Hr ip'; specialize (H1 Hr ip');
      [|case_match; lia].
    unfold at_ip. destruct (Z.eqb_spec ip' ip) as [Heq|]; [rewrite Heq in *|lia].
    specialize (H2 ip). destruct (decide (outstanding_block_wakelock (fence v') ip = 0)) as [E|E].
    + rewrite E. change (u16 (0 - 1)) with 65535. lia.
    + rewrite u16_small by lia. lia.
Qed.

Lemma waited_keeps_power k w : powered w → wlp (iif_fence_waited_work_func k w) (λ r, powered r.2).
Proof.
  intros Hp. unfold iif_fence_waited_work_func. apply wlp_bind, locked_wlp.
  eapply wlp_mono; [eapply on_view_powered; [done|]|by intros [locks w']].
  intros v d Hk Hv. unfold of_fence, waited_work_locked. destruct (negb _); [done|]. cbn.
  intros Hr ip. specialize (Hv Hr ip). case_match; lia.
Qed.

(** ** The commit *)

Notation pw := ((Z → Z) * (Z → Z) * Z)%type (only parsing).

(** A pass over the fences [ks]: what [F] does to the power of the [i]-th is [G i]. *)
Lemma for_fences_power (G : nat → pw → pw) ks F n w :
  NoDup ks → (∀ i v, wlp (F i v) (λ r, power r.2.(fence) = G i (power v.(fence)))) →
  wlp (for_fences ks F n w) (λ w',
    (∀ k, k ∉ ks → power_of w' k = power_of w k) ∧
    ∀ j k, ks !! j = Some k → power_of w' k = G (n + j)%nat <$> power_of w k).
Proof.
  intros Hnd HF. revert n w. induction Hnd as [|k ks Hk Hnd IH]; intros n w; [done|].
  cbn [for_fences]. apply wlp_bind, on_view_wlp. intros f d Hkf.
  eapply wlp_mono; [apply HF|]. intros [[] v'] Hv. cbn [fst snd] in *.
  eapply wlp_mono; [apply (IH (S n))|]. intros w' [H1 H2]. split.
  - intros k' Hk'. apply not_elem_of_cons in Hk' as [Hne Hk']. rewrite H1 by done.
    by apply put_view_others.
  - intros [|j] k' Hj; simplify_eq/=.
    + rewrite H1, put_view_power, Nat.add_0_r, Hv by done. unfold power_of. by rewrite Hkf.
    + rewrite (H2 j k' Hj). replace (n + S j)%nat with (S n + j)%nat by lia. f_equal.
      apply put_view_others. intros ->. apply Hk. by eapply list_elem_of_lookup_2.
Qed.

Lemma for_fences_power_same ks F n w :
  NoDup ks → (∀ i v, wlp (F i v) (λ r, idles v r.2)) →
  wlp (for_fences ks F n w) (λ w', same_power w w').
Proof.
  intros Hnd HF. eapply wlp_mono; [by apply (for_fences_power (λ _ p, p))|].
  intros w' [H1 H2] k. destruct (decide (k ∈ ks)) as [[j Hj]%list_elem_of_lookup|Hk].
  - rewrite (H2 j k Hj). by destruct (power_of w k).
  - by apply H1.
Qed.

Definition begin_wait (ip : Z) (p : pw) : pw :=
  let '(per, wl, refs) := p in (at_ip ip (u16 (per ip + 1)) per, wl, refs).

Definition count_one (p : pw) (ip : Z) : pw :=
  let '(per, wl, refs) := p in (per, at_ip ip (u16 (wl ip + 1)) wl, refs).

Lemma submit_waiter_power ip v :
  power (iif_fence_submit_waiter_locked ip v).(fence) = begin_wait ip (power v.(fence)).
Proof. unfold iif_fence_submit_waiter_locked. by case_match. Qed.

Lemma count_power ips f : power (foldl count_wakelock f ips) = foldl count_one (power f) ips.
Proof. revert f. induction ips as [|ip ips IH]; intros f; [done|]. cbn. by rewrite IH. Qed.

Lemma unlock_same ks w : NoDup ks → wlp (iif_fences_write_unlock ks w) (λ w', same_power w w').
Proof.
  intros Hnd. apply for_fences_power_same; [by rewrite reverse_Permutation|]. done.
Qed.

(** What the submission does to the power of each of its fences. *)
Lemma submit_locked_power c held w :
  NoDup (c.(ins) ++ c.(outs)) →
  wlp (submit_locked c held w) (λ w',
    (∀ k, k ∉ c.(ins) ++ c.(outs) → power_of w' k = power_of w k)
    ∧ (∀ k, k ∈ c.(ins) → power_of w' k
         = (λ p, count_one (begin_wait c.(waiter_ip) p) c.(waiter_ip)) <$> power_of w k)
    ∧ ∀ j k, c.(outs) !! j = Some k → power_of w' k
         = (λ p, foldl count_one p (default [] (held !! j))) <$> power_of w k).
Proof.
  intros (Hnd1 & Hdis & Hnd2)%NoDup_app. unfold submit_locked.
  apply wlp_bind. eapply wlp_mono.
  { apply (for_fences_power (λ _, begin_wait c.(waiter_ip))); [done|]. intros i v. apply submit_waiter_power. }
  intros w1 [A1 B1]. apply wlp_bind. eapply wlp_mono.
  { apply for_fences_power_same; [done|]. intros i v. apply submit_signaler_idles. }
  intros w2 S2. apply wlp_bind. eapply wlp_mono.
  { apply (for_fences_power (λ _ p, count_one p c.(waiter_ip))); [done|]. done. }
  intros w3 [A3 B3]. eapply wlp_mono.
  { apply (for_fences_power (λ j p, foldl count_one p (default [] (held !! j)))); [done|].
    intros i v. apply count_power. }
  intros w4 [A4 B4]. split_and!.
  - intros k [Hk1 Hk2]%not_elem_of_app. by rewrite A4, A3, S2, A1.
  - intros k Hk. pose proof Hk as [j Hj]%list_elem_of_lookup.
    rewrite A4 by (by apply Hdis). rewrite (B3 j k Hj), S2, (B1 j k Hj).
    by destruct (power_of w k).
  - intros j k Hj. assert (k ∉ c.(ins)) as Hni.
    { intros Hk. apply (Hdis k Hk). by eapply list_elem_of_lookup_2. }
    by rewrite (B4 j k Hj), A3, S2, A1.
Qed.

Lemma count_one_le p ips ip :
  NoDup ips → (∀ ip', ip' ∈ ips → 0 ≤ p.1.2 ip' < 2 ^ 16 - 1) →
  p.1.2 ip ≤ (foldl count_one p ips).1.2 ip ∧ (foldl count_one p ips).1.1 = p.1.1
  ∧ (foldl count_one p ips).2 = p.2.
Proof.
  intros Hnd. revert p. induction Hnd as [|ip1 ips Hip Hnd IH]; intros [[per wl] refs] Hlt; [done|].
  cbn [foldl count_one]. destruct (IH (per, at_ip ip1 (u16 (wl ip1 + 1)) wl, refs)) as (H1 & H2 & H3).
  { intros ip' Hin. cbn. unfold at_ip. destruct (Z.eqb_spec ip' ip1) as [->|]; [done|].
    apply (Hlt ip'). by right. }
  pose proof (Hlt ip1 (list_elem_of_here _ _)) as Hb. cbn in Hb.
  split_and!; [|done|done]. etrans; [|exact H1]. cbn. unfold at_ip.
  destruct (Z.eqb_spec ip ip1) as [->|]; [rewrite u16_small|]; lia.
Qed.

Lemma u16_le x : 0 ≤ x → u16 x ≤ x.
Proof. intros Hx. unfold u16. apply Z.mod_le; lia. Qed.

(** What the invariants say of the power of a fence. *)
Lemma power_known e w k per wl refs :
  inv e w → powered w → power_of w k = Some (per, wl, refs) → 0 < refs →
  (∀ ip, 0 ≤ per ip ≤ wl ip ∧ wl ip < 2 ^ 16)
  ∧ ∃ f d, w.(fences) !! k = Some (f, d) ∧ f.(outstanding_block_wakelock) = wl.
Proof.
  intros Hi Hp Hk Hr. pose proof (Hp k _ _ _ Hk Hr) as Hle. unfold power_of in Hk.
  destruct (w.(fences) !! k) as [[f d]|] eqn:Hkf; [|done]. injection Hk as Hper Hwl Href.
  destruct (inv_fence _ _ Hi k f d Hkf) as [Hc _ _ Hwk _ _ _ _ _ _ _].
  split; [|by exists f, d]. intros ip. specialize (Hle ip). specialize (Hwk ip). subst.
  pose proof (ok_per_ip _ Hc ip). cbn in *. lia.
Qed.

Lemma submit_locked_powered c held w :
  inv none w → powered w → NoDup (c.(ins) ++ c.(outs)) → length held = length c.(outs) →
  Forall (NoDup (A := Z)) held → counts_fit c held w = true →
  wlp (submit_locked c held w) powered.
Proof.
  intros Hi Hp Hnd Hlen Hheld Hfit. eapply wlp_mono; [by apply submit_locked_power|].
  intros w1 (A & B & C) k per wl refs Hk Hr ip.
  destruct (decide (k ∈ c.(ins))) as [Hin|Hni]; [|destruct (decide (k ∈ c.(outs))) as [Hout|Hno]].
  - rewrite (B k Hin) in Hk. destruct (power_of w k) as [[[per0 wl0] refs0]|] eqn:Hk0; [|done].
    injection Hk as <- <- ->. destruct (power_known _ _ _ _ _ _ Hi Hp Hk0 Hr) as (H1 & f & d & Hkf & Hwl).
    pose proof (counts_fit_ins _ _ _ _ _ _ Hfit Hin Hkf) as H4. rewrite Hwl in H4.
    specialize (H1 ip). unfold at_ip. destruct (Z.eqb_spec ip c.(waiter_ip)) as [->|]; [|lia].
    rewrite (u16_small (wl0 _ + 1)) by lia. pose proof (u16_le (per0 (waiter_ip c) + 1)). lia.
  - pose proof Hout as [j Hj]%list_elem_of_lookup. rewrite (C j k Hj) in Hk.
    destruct (power_of w k) as [[[per0 wl0] refs0]|] eqn:Hk0; [|done]. simpl in Hk.
    destruct (lookup_lt_is_Some_2 held j) as [ips Hips].
    { rewrite Hlen. by eapply lookup_lt_Some. }
    rewrite Hips in Hk. cbn [default from_option id] in Hk.
    assert (∀ ip', ip' ∈ ips → 0 ≤ wl0 ip' < 2 ^ 16 - 1) as Hlt.
    { unfold power_of in Hk0. destruct (w.(fences) !! k) as [[f d]|] eqn:Hkf; [|done].
      injection Hk0 as _ <- _. intros ip' Hip'.
      pose proof (counts_fit_outs _ _ _ _ _ _ _ _ _ Hfit Hj Hips Hip' Hkf).
      pose proof (fi_wakelock _ _ _ _ (inv_fence _ _ Hi k f d Hkf) ip'). cbn in *. lia. }
    rewrite Forall_forall in Hheld.
    destruct (count_one_le (per0, wl0, refs0) ips ip (Hheld _ (list_elem_of_lookup_2 _ _ _ Hips)) Hlt)
      as (H1 & H2 & H3).
    injection Hk as Hk. rewrite Hk in H1, H2, H3. cbn in H1, H2, H3. subst.
    destruct (power_known _ _ _ _ _ _ Hi Hp Hk0 Hr) as (H4 & _). specialize (H4 ip). lia.
  - rewrite A in Hk by (by apply not_elem_of_app). by apply (Hp k per wl refs).
Qed.

Lemma commit_keeps_power i c held p w :
  inv none w → powered w → w.(threads) !! i = Some (Commit c held :: p) →
  counts_fit c held w = true → wlp (commit c held w) (λ r, powered r.2).
Proof.
  intros Hi Hp Hth Hfit. destruct (head_ok _ _ _ _ _ Hi Hth) as (Hnd & Hlen & Hheld).
  unfold command_ok in Hnd. pose proof Hnd as (Hnd1 & _ & Hnd2)%NoDup_app.
  unfold commit. apply wlp_bind. destruct (fences_of c.(ins) w) as [l| |]; [|done|done].
  apply wlp_bind. destruct (fences_of c.(outs) w) as [r| |]; [|done|done]. cbv zeta. simpl.
  apply wlp_bind. eapply (wlp_mono _ powered).
  - destruct (_ =? 0); [by apply submit_locked_powered|done].
  - intros w1 Hp1. apply wlp_bind. eapply wlp_mono; [by apply unlock_same|]. intros w2 S2.
    apply wlp_bind. eapply wlp_mono; [by apply unlock_same|]. intros w3 S3. cbn.
    eapply powered_same; [exact S3|]. by eapply powered_same.
Qed.

(** ** The end of a fence *)

(** Who is to release all the wakelocks of a fence is to free it then. *)
Definition closing (p : list op) : Prop := ∀ k, Destroy_release k ∈ p → Free k ∈ p.

Definition plain (o : op) : bool := match o with Destroy_release _ => false | _ => true end.

Definition closed_ops (q : list op) : Prop :=
  Forall (λ o, plain o = true) q ∨ ∃ k, q = iif_fence_do_destroy k.

Lemma closed_closing q : closed_ops q → closing q.
Proof.
  intros [Hq|[k' ->]] k Hk; unfold iif_fence_do_destroy in *.
  - rewrite Forall_forall in Hq. by specialize (Hq _ Hk).
  - singletons; simplify_eq. set_solver.
Qed.

Lemma plain_releases l : Forall (λ o, ∃ k ip, o = Release k ip) l → Forall (λ o, plain o = true) l.
Proof. intros Hl. eapply Forall_impl; [exact Hl|]. by intros o (k & ip & ->). Qed.

Lemma release_command_ops c held : Forall (λ o, ∃ k ip, o = Release k ip) (release_command c held).
Proof.
  apply Forall_forall. intros o [Ho|Ho]%elem_of_app.
  - unfold iif_fences_release_block_wakelock_of_waiters in Ho.
    apply list_elem_of_In, in_concat in Ho as (q & Hq & Ho).
    apply list_elem_of_In in Ho. apply list_elem_of_In in Hq. apply (proj1 (elem_of_reverse _ _)) in Hq.
    apply elem_of_lookup_zip_with in Hq as (j & k & ips & -> & _ & _).
    apply list_elem_of_fmap in Ho as (ip & -> & _). eauto.
  - apply list_elem_of_fmap in Ho as (k & -> & _). eauto.
Qed.

Lemma plain_app q1 q2 : Forall (λ o, plain o = true) q1 → Forall (λ o, plain o = true) q2 →
  Forall (λ o, plain o = true) (q1 ++ q2).
Proof. apply Forall_app_2. Qed.

Ltac plains := left; repeat (apply Forall_cons; split; [done|]); by apply Forall_nil.

(** What an op leaves to do. *)
Lemma exec_closed i driver o w : wlp (exec i driver o w) (λ r, closed_ops r.1).
Proof.
  assert (∀ c held ret, closed_ops (release_command c held ++ [Return ret])) as Hrel.
  { intros. left. apply plain_app; [apply plain_releases, release_command_ops|by apply Forall_singleton]. }
  assert (∀ k F w, wlp (update k F w) (λ r, closed_ops r.1)) as Hup.
  { clear. intros k F w. unfold update. destruct (on_view _ _ _) as [[] | |]; simpl; try done. plains. }
  destruct o; cbn [exec]; try apply Hup.
  - unfold iif_fences_acquire_block_wakelock. case_match; [|plains]. destruct (must _); simpl; try done.
    destruct (iif_manager_acquire_block_wakelock _ _ _) as [ret w1]. simpl. case_match; [plains|].
    left. apply plain_app; [|by apply Forall_singleton]. apply Forall_forall.
    by intros o (k & -> & _)%list_elem_of_fmap.
  - unfold next_out. case_match.
    + destruct (must _) as [[]| |]; simpl; try done. plains.
    + left. apply plain_app; [|by apply Forall_singleton]. apply Forall_forall.
      by intros o (k & -> & _)%list_elem_of_fmap.
  - unfold iif_fences_acquire_block_wakelock_of_waiters. case_match; [plains|].
    destruct (must _); simpl; try done. destruct (must _); simpl; try done.
    destruct (iif_manager_acquire_block_wakelock _ _ _) as [ret w1]. simpl. case_match; [plains|apply Hrel].
  - destruct (locked _ _ _) as [[]| |]; simpl; try done. plains.
  - unfold commit. destruct (fences_of (ins c) w) as [l| |]; simpl; try done.
    destruct (fences_of _ w) as [r| |]; simpl; try done. apply wlp_bind.
    destruct (if _ =? 0 then submit_locked _ _ _ else _) as [w1| |]; simpl; try done.
    destruct (iif_fences_write_unlock _ w1) as [w2| |]; simpl; try done.
    destruct (iif_fences_write_unlock _ w2) as [w3| |]; simpl; try done.
    case_match; [plains|apply Hrel].
  - destruct (must _); simpl; try done. plains.
  - unfold iif_fence_signal_and_update. destruct (locked _ _ _) as [[]| |]; simpl; try done.
    destruct (must _) as [[]| |]; simpl; try done. repeat case_match; plains.
  - unfold signaler_done. destruct (locked _ _ _) as [[[]]| |]; simpl; try done.
    repeat case_match; plains.
  - unfold iif_fence_signaler_completed. destruct (must _) as [[]| |]; simpl; try done.
    repeat case_match; plains.
  - unfold iif_fence_waited_work_func. destruct (locked _ _ _) as [[]| |]; simpl; try done.
    left. apply Forall_forall. by intros o (ip & ->)%releases_ops.
  - unfold flush_signaled. destruct (must _) as [[]| |]; simpl; try done. case_match; simpl; [plains|done].
  - unfold iif_manager_broadcast_fence_unblocked. destruct (must _) as [[]| |]; simpl; try done. plains.
  - unfold iif_fence_waiter_completed. destruct (locked _ _ _) as [[[]]| |]; simpl; try done; plains.
  - unfold iif_fence_remove_waiter. destruct (locked _ _ _) as [[]| |]; simpl; try done. plains.
  - unfold sync_file_dec. destruct (must _) as [[]| |]; simpl; try done. apply wlp_bind.
    destruct (update _ _ _) as [[]| |]; simpl; try done. case_match; plains.
  - unfold iif_fence_on_sync_file_release. destruct (locked _ _ _) as [[]| |]; simpl; try done. plains.
  - destruct (locked _ _ _) as [[]| |]; simpl; try done. plains.
  - unfold kref_put. destruct (must _) as [[]| |]; simpl; try done. case_match; [done|]. apply wlp_bind.
    destruct (update _ _ _) as [[]| |]; simpl; try done. case_match; [plains|]. case_match; [|right; by eexists].
    apply Hup.
  - unfold destroy_flush. destruct (must _) as [[]| |]; simpl; try done. case_match; simpl; [plains|done].
  - unfold destroy. destruct (locked _ _ _) as [[[]]| |]; simpl; try done; plains.
  - unfold iif_fence_release_all_block_wakelock. destruct (locked _ _ _) as [[]| |]; simpl; try done.
    left. apply Forall_forall. by intros o (ip & ->)%releases_ops.
  - unfold on_release. destruct (must _) as [[]| |]; simpl; try done. case_match; simpl; [plains|done].
  - simpl. plains.
Qed.

(** ** Every step *)

Definition begun (o : op) (w : world) : Prop :=
  match o with
  | Waiter_completed k ip | Remove_waiter k ip => waits k ip w
  | _ => True
  end.

Lemma update_powered k F w :
  powered w → (∀ f d, w.(fences) !! k = Some (f, d) →
    ∃ refs, power (F f) = (f.(outstanding_waiters_per_ip), f.(outstanding_block_wakelock), refs)
            ∧ (0 < refs → 0 < f.(kref))) →
  wlp (update k F w) (λ r, powered r.2).
Proof.
  intros Hp HF. unfold update. apply wlp_bind.
  eapply wlp_mono; [apply on_view_powered; [done|]|by intros [[] w']].
  intros v d Hk Hv. destruct (HF _ _ Hk) as (refs & [= Hper Hwl Hk'] & Hr). cbn.
  rewrite Hper, Hwl, Hk'. auto.
Qed.

Lemma kref_put_keeps_power k async w : powered w → wlp (kref_put k async w) (λ r, powered r.2).
Proof.
  intros Hp. unfold kref_put. apply wlp_bind, wlp_must. intros [f d] Hk. case_match; [done|].
  apply wlp_bind. eapply wlp_mono.
  { apply update_powered; [done|]. intros f' d' Hk'. eexists. split; [reflexivity|cbn; lia]. }
  intros [q w1] Hp1. cbn [snd] in Hp1. case_match; [done|]. case_match; [|done].
  eapply wlp_mono; [apply update_same; intros f1; reflexivity|]. intros r Hs.
  eapply powered_same; [exact Hs|exact Hp1].
Qed.

Lemma kref_get_keeps_power k w : powered w → wlp (kref_get k w) powered.
Proof.
  intros Hp. unfold kref_get. apply wlp_bind, wlp_must. intros [f d] Hk. case_match eqn:Hr; [done|].
  apply Z.leb_gt in Hr. apply wlp_bind. eapply (wlp_mono _ (λ r, powered r.2)); [|intros [q w'] H; exact H].
  apply update_powered; [done|]. intros f' d' Hk'. eexists. split; [reflexivity|].
  rewrite Hk in Hk'. by injection Hk' as <- <-.
Qed.

Lemma destroy_release_keeps_power i k p w :
  inv none w → powered w → w.(threads) !! i = Some (Destroy_release k :: p) →
  closing (Destroy_release k :: p) →
  wlp (iif_fence_release_all_block_wakelock k w) (λ r, powered r.2).
Proof.
  intros Hi Hp Hth Hc. unfold iif_fence_release_all_block_wakelock. apply wlp_bind, locked_wlp.
  eapply wlp_mono; [eapply on_view_powered; [done|]|by intros [locks w']].
  intros v d Hk _. cbn. intros Hr.
  destruct (referenced_no_free _ _ _ _ _ (inv_fence _ _ Hi k _ _ Hk) Hr
    (list_elem_of_lookup_2 _ _ _ Hth)). apply Hc. by left.
Qed.

Lemma on_release_keeps_power k w : powered w → wlp (on_release k w) (λ r, powered r.2).
Proof.
  intros Hp. unfold on_release. apply wlp_bind, wlp_must. intros [f d] Hk. case_match; [|done].
  intros k' per wl refs Hk'. apply (Hp k'). unfold power_of in *. cbn in Hk'.
  destruct (decide (k' = k)) as [->|Hne]; [by rewrite lookup_delete_eq in Hk'|].
  by rewrite lookup_delete_ne in Hk'.
Qed.

Lemma acquire_fences ip driver w :
  (iif_manager_acquire_block_wakelock ip driver w).2.(fences) = w.(fences).
Proof. unfold iif_manager_acquire_block_wakelock. by repeat case_match. Qed.

Lemma exec_powered i driver o p w :
  inv none w → powered w → w.(threads) !! i = Some (o :: p) → run_allowed i o w → begun o w →
  closing (o :: p) → wlp (exec i driver o w) (λ r, powered r.2).
Proof.
  intros Hi Hp Hth Ha Hb Hc.
  assert (∀ {A} k (F : view → outcome (A * view)) (B : A * world → outcome (list op * world)),
    (∀ v, wlp (F v) (λ r, idles v r.2)) →
    (∀ r, powered r.2 → wlp (B r) (λ r, powered r.2)) →
    wlp (locked k F w ≫= B) (λ r, powered r.2)) as Hl.
  { intros A k F B HF HB. apply wlp_bind. eapply wlp_mono; [by apply locked_same|].
    intros r Hs. apply HB. eapply powered_same; [exact Hs|exact Hp]. }
  assert (∀ k F, (∀ f, power (F f) = power f) → wlp (update k F w) (λ r, powered r.2)) as Hu.
  { intros k F HF. eapply wlp_mono; [by apply update_same|]. intros r Hs. eapply powered_same; [exact Hs|exact Hp]. }
  destruct o as [c n|c held|c held got todo|k|c held|k ip|k error async|k async signal|k async|k|k|k|k|k
    |k|k ip|k ip|k|k|k|k cb|k async|k|k|k|k|ret]; cbn [exec run_allowed begun] in *;
    try (apply Hu; intros f1; reflexivity).
  - unfold iif_fences_acquire_block_wakelock. case_match; [|done]. apply wlp_bind, wlp_must. intros _ _.
    pose proof (acquire_fences (waiter_ip c) driver w) as Hf.
    destruct (iif_manager_acquire_block_wakelock _ _ _) as [ret w1]. cbn in *.
    eapply powered_same; [|done]. by apply same_fences.
  - unfold next_out. case_match; [|done]. by apply wlp_bind, wlp_must; intros [].
  - unfold iif_fences_acquire_block_wakelock_of_waiters. case_match; [done|].
    apply wlp_bind, wlp_must. intros k Hk. apply wlp_bind, wlp_must. intros _ _.
    match goal with |- context [iif_manager_acquire_block_wakelock ?ip _ _] =>
      pose proof (acquire_fences ip driver w) as Hf end.
    destruct (iif_manager_acquire_block_wakelock _ _ _) as [ret w1]. cbn in *.
    eapply powered_same; [|done]. by apply same_fences.
  - apply Hl; [done|]. by intros [[] w'].
  - by eapply commit_keeps_power.
  - apply wlp_bind, wlp_must. intros _ _. cbn. unfold iif_manager_release_block_wakelock.
    by repeat case_match.
  - unfold iif_fence_signal_and_update. apply Hl; [apply signal_idles|]. intros [ret w'] Hw. cbn in *.
    apply wlp_bind, wlp_must. intros [f d] _. done.
  - unfold signaler_done. apply Hl; [apply signaler_done_idles|]. by intros [[ret waited] w'].
  - unfold iif_fence_signaler_completed. by apply wlp_bind, wlp_must; intros [].
  - by apply waited_keeps_power.
  - unfold flush_signaled. apply wlp_bind, wlp_must. intros [] _. by case_match.
  - unfold iif_manager_broadcast_fence_unblocked. by apply wlp_bind, wlp_must; intros [].
  - apply waiter_completed_keeps_power; [done|done|]. intros f d Hk ip'.
    apply (inv_fence _ _ Hi k f d Hk).
  - apply remove_waiter_keeps_power; [done|done|]. intros f d Hk ip'.
    apply (inv_fence _ _ Hi k f d Hk).
  - unfold sync_file_dec. apply wlp_bind, wlp_must. intros [f d] _. apply wlp_bind.
    eapply wlp_mono; [by apply Hu|]. by intros [q w'].
  - unfold iif_fence_on_sync_file_release. apply Hl; [|by intros [[] w']].
    intros v. apply wlp_bind. eapply wlp_mono; [apply retire_if_possible_idles|]. done.
  - apply Hl; [|by intros [[] w']]. intros v. pose proof (atomic_idles (Iif_fence_remove_poll_callback cb) v) as H.
    exact H.
  - by apply kref_put_keeps_power.
  - unfold destroy_flush. apply wlp_bind, wlp_must. intros [] _. by case_match.
  - unfold destroy. apply Hl; [apply do_destroy_idles|]. by intros [updated w'].
  - by eapply destroy_release_keeps_power.
  - by apply on_release_keeps_power.
  - done.
Qed.

(** A move that ends a wait ends one that was begun. *)
Definition begins (mv : move) (w : world) : bool :=
  match mv with
  | Run i _ =>
      match w.(threads) !! i with
      | Some (Waiter_completed k ip :: _) | Some (Remove_waiter k ip :: _) =>
          match w.(fences) !! k with
          | Some (f, _) => 0 <? f.(outstanding_waiters_per_ip) ip
          | None => false
          end
      | _ => true
      end
  | _ => true
  end.

(** The waits of [ip] for all the fences that have references. *)
Definition fence_waits (ip : Z) (k : nat) (p : iif_fence * option iif_direct_fence) (n : Z) : Z :=
  (if 0 <? p.1.(kref) then p.1.(outstanding_waiters_per_ip) ip else 0) + n.

Definition fences_wait (ip : Z) (w : world) : Z := map_fold (fence_waits ip) 0 w.(fences).

Fixpoint paired (mvs : list move) (w : world) : bool :=
  match mvs with
  | [] => true
  | mv :: mvs => begins mv w && match step mv w with Ok w => paired mvs w | _ => true end
  end.

Definition strong (w : world) : Prop :=
  powered w ∧ ∀ p, p ∈ w.(threads) → closing p.

Lemma strong_spawn w p : strong w → closed_ops p → strong (spawn p w).
Proof.
  intros [Hp Hc] Hq. split; [by eapply powered_same; [apply same_fences|]|].
  intros p' [Hp'| ->%list_elem_of_singleton]%elem_of_app; [by apply Hc|by apply closed_closing].
Qed.

Lemma strong_update k F w : (∀ f, power (F f) = power f) → strong w →
  wlp (update k F w) (λ r, strong r.2).
Proof.
  intros HF [Hp Hc]. pose proof (update_same k F w HF) as Hs.
  assert (wlp (update k F w) (λ r, r.2.(threads) = w.(threads))) as Ht.
  { unfold update. apply wlp_bind, on_view_wlp. intros f d _. done. }
  destruct (update k F w) as [[q w']| |]; [|done|done]. simpl in *.
  split; [by eapply powered_same|]. by rewrite Ht.
Qed.

Lemma kref_get_threads k w : wlp (kref_get k w) (λ w', w'.(threads) = w.(threads)).
Proof.
  unfold kref_get. apply wlp_bind, wlp_must. intros [f d] _. case_match; [done|].
  apply wlp_bind. unfold update. apply wlp_bind, on_view_wlp. intros f' d' _. done.
Qed.

Lemma strong_get k w : strong w → wlp (kref_get k w) strong.
Proof.
  intros [Hp Hc]. pose proof (kref_get_threads k w) as Ht. pose proof (kref_get_keeps_power k w Hp) as Hg.
  destruct (kref_get k w) as [w'| |]; [|done|done]. simpl in *. split; [done|]. by rewrite Ht.
Qed.

(** ** The other threads *)

Lemma on_view_threads {A} k (F : view → outcome (A * view)) w :
  wlp (on_view k F w) (λ r, r.2.(threads) = w.(threads)).
Proof. apply on_view_wlp. intros f d _. destruct (F _) as [[]| |]; done. Qed.

Lemma locked_threads {A} k (F : view → outcome (A * view)) w :
  wlp (locked k F w) (λ r, r.2.(threads) = w.(threads)).
Proof. apply locked_wlp, on_view_threads. Qed.

Lemma update_threads k F w : wlp (update k F w) (λ r, r.2.(threads) = w.(threads)).
Proof.
  unfold update. apply wlp_bind. eapply wlp_mono; [apply on_view_threads|]. by intros [[] w'].
Qed.

Lemma for_fences_threads ks F n w : wlp (for_fences ks F n w) (λ w', w'.(threads) = w.(threads)).
Proof.
  revert n w. induction ks as [|k ks IH]; intros n w; [done|]. cbn. apply wlp_bind.
  eapply wlp_mono; [apply on_view_threads|]. intros [[] w1] H1. cbn in H1. rewrite <-H1. apply IH.
Qed.

Lemma submit_locked_threads c held w : wlp (submit_locked c held w) (λ w', w'.(threads) = w.(threads)).
Proof.
  unfold submit_locked. do 3 (apply wlp_bind; eapply wlp_mono; [apply for_fences_threads|];
    let w1 := fresh in let H := fresh in intros w1 H; rewrite <-H).
  apply for_fences_threads.
Qed.

Lemma exec_threads i driver o w : wlp (exec i driver o w) (λ r, r.2.(threads) = w.(threads)).
Proof.
  assert (∀ {A} k (F : view → outcome (A * view)) (B : A * world → outcome (list op * world)),
    (∀ x w', w'.(threads) = w.(threads) → wlp (B (x, w')) (λ r, r.2.(threads) = w.(threads))) →
    wlp (locked k F w ≫= B) (λ r, r.2.(threads) = w.(threads))) as Hl.
  { intros A k F B HB. apply wlp_bind. eapply wlp_mono; [apply locked_threads|].
    intros [x w'] Hw. by apply HB. }
  assert (∀ ip w1, iif_manager_acquire_block_wakelock ip driver w = w1 →
    w1.2.(threads) = w.(threads)) as Hacq.
  { intros ip w1 <-. unfold iif_manager_acquire_block_wakelock. by repeat case_match. }
  destruct o as [c n|c held|c held got todo|k|c held|k ip|k error async|k async signal|k async|k|k|k|k|k
    |k|k ip|k ip|k|k|k|k cb|k async|k|k|k|k|ret]; cbn [exec]; try apply update_threads; try done.
  - unfold iif_fences_acquire_block_wakelock. case_match; [|done]. apply wlp_bind, wlp_must. intros _ _.
    destruct (iif_manager_acquire_block_wakelock _ _ _) eqn:E. by apply Hacq in E.
  - unfold next_out. case_match; [|done]. by apply wlp_bind, wlp_must; intros [].
  - unfold iif_fences_acquire_block_wakelock_of_waiters. case_match; [done|].
    apply wlp_bind, wlp_must. intros k' _. apply wlp_bind, wlp_must. intros _ _.
    destruct (iif_manager_acquire_block_wakelock _ _ _) eqn:E. by apply Hacq in E.
  - apply Hl. done.
  - unfold commit. apply wlp_bind. destruct (fences_of (ins c) w); [|done|done].
    apply wlp_bind. destruct (fences_of (outs c) w); [|done|done]. simpl. apply wlp_bind.
    eapply (wlp_mono _ (λ w', w'.(threads) = w.(threads))).
    { destruct (_ =? 0); [apply submit_locked_threads|done]. }
    intros w1 <-. do 2 (apply wlp_bind; eapply wlp_mono; [apply for_fences_threads|];
      let w2 := fresh in let H := fresh in intros w2 H; rewrite <-H). done.
  - apply wlp_bind, wlp_must. intros _ _. cbn. unfold iif_manager_release_block_wakelock.
    by repeat case_match.
  - apply Hl. intros ret w' Hw. by apply wlp_bind, wlp_must; intros [].
  - apply Hl. by intros [ret waited] w' Hw.
  - unfold iif_fence_signaler_completed. by apply wlp_bind, wlp_must; intros [].
  - apply Hl. done.
  - unfold flush_signaled. apply wlp_bind, wlp_must. intros [] _. by case_match.
  - unfold iif_manager_broadcast_fence_unblocked. by apply wlp_bind, wlp_must; intros [].
  - apply Hl. done.
  - apply Hl. done.
  - unfold sync_file_dec. apply wlp_bind, wlp_must. intros [] _. apply wlp_bind.
    eapply wlp_mono; [apply update_threads|]. by intros [].
  - apply Hl. done.
  - apply Hl. done.
  - unfold kref_put. apply wlp_bind, wlp_must. intros [] _. case_match; [done|]. apply wlp_bind.
    eapply wlp_mono; [apply update_threads|]. intros [q w1] Hw. cbn in Hw. rewrite <-Hw.
    repeat case_match; try done. apply update_threads.
  - unfold destroy_flush. apply wlp_bind, wlp_must. intros [] _. by case_match.
  - apply Hl. done.
  - apply Hl. done.
  - unfold on_release. apply wlp_bind, wlp_must. intros [] _. by case_match.
Qed.

(** ** The theorem *)

Lemma thread_strong i o p q w :
  inv none w → w.(threads) !! i = Some (o :: p) → strong w → closed_ops q →
  closing (q ++ p).
Proof.
  intros Hi Hp [_ Hc] Hq k Hk. pose proof (list_elem_of_lookup_2 _ _ _ Hp) as Hin.
  apply elem_of_app in Hk as [Hk|Hk]; apply elem_of_app; [left; by apply closed_closing|].
  right. specialize (Hc _ Hin k). apply (list_elem_of_further _ o) in Hk as Hk'. specialize (Hc Hk').
  apply elem_of_cons in Hc as [<-|Hc]; [|done].
  destruct (inv_wf _ _ Hi _ Hin) as [Hf _]. rewrite Hf in Hk by done.
  by apply elem_of_nil in Hk.
Qed.

Lemma run_strong i driver w :
  inv none w → strong w → allowed (Run i driver) w = true → begins (Run i driver) w = true →
  wlp (step (Run i driver) w) strong.
Proof.
  intros Hi Hs Ha Hb. cbn [step]. unfold run_thread. cbn in Ha, Hb.
  destruct (w.(threads) !! i) as [p|] eqn:Hp; [|done]. cbn [must mbind outcome_bind].
  destruct p as [|o p]; [done|]. pose proof Hs as [Hpw Hc].
  pose proof (list_elem_of_lookup_2 _ _ _ Hp) as Hin.
  assert (run_allowed i o w) as Hra by by destruct o.
  assert (begun o w) as Hbe.
  { destruct o as [| | | | | | | | | | | | | | |k ip|k ip| | | | | | | | | |]; try done;
      intros f d Hk; rewrite Hk in Hb; by apply Z.ltb_lt. }
  pose proof (exec_powered i driver o p w Hi Hpw Hp Hra Hbe (Hc _ Hin)) as H1.
  pose proof (exec_closed i driver o w) as H2. pose proof (exec_threads i driver o w) as H3.
  destruct (exec i driver o w) as [[q w1]| |]; [|done|done]. cbn [wlp fst snd mbind outcome_bind] in *.
  split; [exact H1|]. intros p' Hp'. cbn in Hp'. rewrite H3 in Hp'.
  apply list_elem_of_lookup in Hp' as [j Hj]. destruct (decide (j = i)) as [->|Hne].
  - rewrite list_lookup_insert_eq in Hj by (by eapply lookup_lt_Some). injection Hj as <-.
    by eapply thread_strong.
  - rewrite list_lookup_insert_ne in Hj by done. apply Hc. by eapply list_elem_of_lookup_2.
Qed.

Lemma step_strong mv w :
  inv none w → strong w → allowed mv w = true → begins mv w = true → wlp (step mv w) strong.
Proof.
  intros Hi Hs Ha Hb. pose proof Hs as [Hpw Hc].
  destruct mv as [p memory ida|c memory|k u|k a|k|k|id'|k|id' s|ip|ip|k|k|k|i driver]; cbn [step].
  - cbn. unfold iif_fence_init_with_params.
    destruct (_ <=? _); [done|]. destruct (_ =? 0); [done|].
    destruct (iif_direct_fence_create _ _ _ _) as [id [[d e]|]]; [|done]. split; [|done].
    eapply (powered_update w _ w.(next)); [|done|].
    + intros k Hne. unfold power_of. cbn. by rewrite lookup_insert_ne.
    + intros per wl refs. unfold power_of. cbn. rewrite lookup_insert_eq. by intros [= <- <- <-].
  - apply wlp_bind. destruct (iif_fence_submit_signaler_and_waiter c memory w) as [p| |] eqn:Hp;
      [|done|done]. apply strong_spawn; [done|].
    destruct (submit_ok _ _ _ _ Hp) as [(ret & -> & _)|(c' & -> & _)]; plains.
  - apply strong_spawn; [done|]. destruct u as [| |ip []| |[cb|]]; plains.
  - apply wlp_bind. pose proof (locked_threads k (atomic a) w) as Ht.
    pose proof (locked_same k (atomic a) w (atomic_idles a)) as Hp.
    destruct (locked k (atomic a) w) as [[[] w']| |]; [|done|done]. cbn in *.
    split; [by eapply powered_same|]. by rewrite Ht.
  - apply wlp_bind. eapply wlp_mono; [apply strong_update; [intros f; reflexivity|done]|].
    intros [q w'] H. exact H.
  - by apply strong_get.
  - destruct (iif_manager_get_fence_from_id id' w); [by apply strong_get|done].
  - apply wlp_bind. eapply wlp_mono; [by apply strong_get|]. intros w' Hw. apply strong_spawn; [done|].
    plains.
  - done.
  - by case_match.
  - by case_match.
  - apply wlp_bind, wlp_must. intros [f d] _. case_match; [done|]. apply wlp_bind.
    eapply wlp_mono; [apply strong_update; [intros f1; reflexivity|done]|].
    intros [q w'] Hw. apply strong_spawn; [exact Hw|]. plains.
  - apply wlp_bind, wlp_must. intros [f d] _. case_match; [done|]. apply wlp_bind.
    eapply wlp_mono; [apply strong_update; [intros f1; reflexivity|done]|].
    intros [q w'] Hw. apply strong_spawn; [exact Hw|]. plains.
  - apply wlp_bind, wlp_must. intros [f d] _. case_match; [done|]. apply wlp_bind.
    eapply wlp_mono; [apply strong_update; [intros f1; reflexivity|done]|].
    intros [q w'] Hw. apply strong_spawn; [exact Hw|]. right. by exists k.
  - by apply run_strong.
Qed.

Lemma play_strong mvs w :
  inv none w → strong w → disciplined mvs w = true → paired mvs w = true → wlp (play mvs w) strong.
Proof.
  revert w. induction mvs as [|mv mvs IH]; intros w Hi Hs Hd Hp; [done|].
  cbn in *. apply andb_true_iff in Hd as [Ha Hd]. apply andb_true_iff in Hp as [Hb Hp].
  apply wlp_bind. pose proof (step_inv mv w Hi Ha) as H1.
  pose proof (step_strong mv w Hi Hs Ha Hb) as H2.
  destruct (step mv w) as [w'| |]; [|done|done]. cbn in *. by apply IH.
Qed.

Lemma fences_wait_owe ip w : inv none w → powered w → fences_wait ip w ≤ fences_owe ip w.
Proof.
  intros Hi Hp. unfold fences_wait, fences_owe.
  assert (∀ k p, w.(fences) !! k = Some p →
    (if 0 <? p.1.(kref) then p.1.(outstanding_waiters_per_ip) ip else 0)
    ≤ p.1.(outstanding_block_wakelock) ip) as Hle.
  { intros k [f d] Hk. cbn. destruct (Z.ltb_spec 0 f.(kref)) as [Hr|Hr].
    - apply (Hp k _ _ f.(kref)); [|done]. unfold power_of. by rewrite Hk.
    - apply (inv_fence _ _ Hi k f d Hk). }
  clear Hi Hp. revert Hle. generalize w.(fences) as m. intros m.
  induction m as [|k p m Hk IH] using map_ind; intros Hle; [done|].
  rewrite !map_fold_insert_L by (intros; unfold fence_waits, fence_owes; lia || done).
  unfold fence_waits at 1, fence_owes at 1. pose proof (Hle k p (lookup_insert_eq _ _ _)).
  assert (map_fold (fence_waits ip) 0 m ≤ map_fold (fence_owes ip) 0 m); [|lia].
  apply IH. intros k1 p1 H1. apply (Hle k1). rewrite lookup_insert_ne; [done|]. intros ->. congruence.
Qed.
