(* ===== verification/IifSignal.v ===== *)
(** * Inter-IP fences: what the signals of a fence amount to

    A direct single-shot fence that the AP signals is unblocked by the last of its
    signalers, with the last error that one of them passed ([signals_ok]). *)

From S2P Require Import Prelude.
From S2P Require Import Interleaving.
From S2P Require Import IifTable.
From S2P Require Import IifFence.
From S2P Require Import IifSystem.
From S2P Require Import IifInv.

(** The sections of [iif_fence_signal_with_status], one after the other, and what the
    last call returns. *)
Fixpoint signals (es : list Z) (ret : Z) (v : view) : outcome (Z * view) :=
  match es with
  | [] => Ok (ret, v)
  | e :: es =>
      '(ret, v) ← iif_fence_signal_with_status_locked e false v;
      if negb (ret =? 0) then signals es ret v
      else '(ret, _, v) ← signaler_done_locked v; signals es ret v
  end.

Definition valid_error (e : Z) : Prop := - MAX_ERRNO ≤ e ≤ 0.

(** The last error of those that are not zero. *)
Definition last_error (es : list Z) : Z := foldl (λ err e, if e =? 0 then err else e) 0 es.

(** A fence of [n] signalers, all submitted, [i] of which have signaled it with [err]
    so far, and the callbacks that wait for it.  Waiters or a file keep it from
    retiring. *)
Record signaling (n i err : Z) (cbs : list nat) (l : list call) (v : view) : Prop := {
  sg_type : v.(fence).(params).(fence_type) = IIF_FENCE_TYPE_SINGLE_SHOT;
  sg_total : v.(fence).(params).(remaining_signalers) = n;
  sg_flags : v.(fence).(params).(flags) = IIF_FLAGS_DIRECT;
  sg_propagate : v.(fence).(propagate) = true;
  sg_submitted : v.(fence).(submitted_signalers) = n;
  sg_signaled : v.(fence).(signaled_signalers) = i;
  sg_waiters : v.(fence).(outstanding_waiters) ≠ 0;
  sg_bound : 0 ≤ i ≤ n ∧ n < 2 ^ 16;
  sg_timeline : v.(fence).(timeline) = 0;
  sg_error : valid_error err;
  sg_table : v.(entry).(st).(remaining) = n - i;
  sg_flag : is_errored v.(entry) = negb (err =? 0);
  sg_direct : ∃ d, v.(direct) = Some d ∧ d.(d_params).(fence_type) = IIF_FENCE_TYPE_SINGLE_SHOT
    ∧ d.(d_params).(remaining_signalers) = n ∧ d.(d_timeline) = i ∧ d.(d_error) = err
    ∧ (err ≠ 0 → d.(error_set_by_kernel) = true) ∧ d.(poll_cb) = negb (i =? n);
  sg_status :
    if i =? n
    then v.(fence).(signaled) = true ∧ v.(fence).(signal_error) = err
         ∧ v.(fence).(poll_cb_list) = []
         ∧ v.(calls) = l ++ ((λ cb, Poll_called cb true 0 err) <$> cbs)
    else v.(fence).(signaled) = false ∧ v.(fence).(signal_error) = 0
         ∧ v.(fence).(poll_cb_list) = cbs ∧ v.(calls) = l
}.


(** ** One signal *)

Lemma set_error_flag e t : e ≠ 0 → is_errored (iif_fence_table_set_error e t) = true
  ∧ (iif_fence_table_set_error e t).(st).(remaining) = t.(st).(remaining).
Proof.
  intros He. unfold iif_fence_table_set_error, is_errored. rewrite (proj2 (Z.eqb_neq _ _) He). cbn.
  by rewrite flag_errored.
Qed.

(** The table and the direct fence after [handle_signal_error]. *)
Lemma handle_error_ok e err v d :
  v.(fence).(propagate) = true → v.(direct) = Some d → d.(d_error) = err →
  is_errored v.(entry) = negb (err =? 0) →
  let err' := if e =? 0 then err else e in
  ∃ v' d', iif_direct_fence_handle_signal_error e v = Ok v'
    ∧ v' = View v.(fence) (Some d') v'.(entry) v.(idp) v.(calls)
    ∧ v'.(entry).(st).(remaining) = v.(entry).(st).(remaining)
    ∧ is_errored v'.(entry) = negb (err' =? 0) ∧ d'.(d_error) = err'
    ∧ d'.(error_set_by_kernel) = true ∧ d'.(d_params) = d.(d_params)
    ∧ d'.(d_timeline) = d.(d_timeline) ∧ d'.(poll_cb) = d.(poll_cb).
Proof.
  intros Hp Hd He Hf. cbv zeta. unfold iif_direct_fence_handle_signal_error. rewrite Hd, Hp.
  cbn [must mbind outcome_bind orb mark_error_set_by_kernel error_set_by_kernel negb].
  rewrite orb_false_r. destruct (Z.eqb_spec e 0) as [->|Hne].
  - do 2 eexists. split_and!; done.
  - destruct (set_error_flag e v.(entry) Hne) as [H1 H2].
    do 2 eexists. split; [done|]. split; [done|]. cbn.
    rewrite H1, H2, (proj2 (Z.eqb_neq _ _) Hne). done.
Qed.

(** The callback of the fence: its own callbacks are called, once. *)
Lemma poll_cb_func_ok err v :
  v.(fence).(params).(fence_type) = IIF_FENCE_TYPE_SINGLE_SHOT →
  v.(fence).(params).(flags) = IIF_FLAGS_DIRECT →
  v.(fence).(signaled) = false → v.(fence).(signal_error) = 0 → v.(fence).(timeline) = 0 →
  valid_error err →
  iif_fence_poll_cb_func_locked (FenceStatus err true 0) v
  = called ((λ cb, Poll_called cb true 0 err) <$> v.(fence).(poll_cb_list))
      (with_fence (set_poll_cbs [] false
                     (schedule_signaled_work (set_status 0 true err v.(fence)))) v).
Proof.
  destruct v as [f d e p c], f as [? [? ? ? ? ? ? fl] ????????????????????]. cbn.
  intros -> -> -> -> -> [H1 H2]. unfold iif_fence_poll_cb_func_locked, iif_fence_set_status_locked.
  cbn. rewrite (proj2 (Z.ltb_ge 0 err)), (proj2 (Z.ltb_ge err _)) by done.
  cbn [orb]. destruct err; reflexivity.
Qed.

(** The status of the fence once it is synchronized with the table. *)
Lemma sync_status_ok n i err cbs l v d :
  v.(fence).(params).(fence_type) = IIF_FENCE_TYPE_SINGLE_SHOT →
  v.(fence).(params).(flags) = IIF_FLAGS_DIRECT →
  v.(fence).(signaled) = false → v.(fence).(signal_error) = 0 → v.(fence).(timeline) = 0 →
  v.(fence).(poll_cb_list) = cbs → v.(calls) = l →
  v.(direct) = Some d → d.(d_params).(fence_type) = IIF_FENCE_TYPE_SINGLE_SHOT →
  d.(d_params).(remaining_signalers) = n → d.(d_timeline) = i → d.(d_error) = err →
  d.(error_set_by_kernel) = true → d.(poll_cb) = true → valid_error err →
  v.(entry).(st).(remaining) = n - (i + 1) → is_errored v.(entry) = negb (err =? 0) →
  0 ≤ i < n → n < 2 ^ 16 →
  ∃ v' d', iif_direct_fence_sync_status iif_direct_fence_invoke_poll_callbacks_single_shot v = Ok v'
    ∧ v'.(fence).(params) = v.(fence).(params) ∧ v'.(fence).(propagate) = v.(fence).(propagate)
    ∧ v'.(fence).(submitted_signalers) = v.(fence).(submitted_signalers)
    ∧ v'.(fence).(signaled_signalers) = v.(fence).(signaled_signalers)
    ∧ v'.(fence).(outstanding_waiters) = v.(fence).(outstanding_waiters)
    ∧ v'.(fence).(timeline) = 0 ∧ v'.(entry) = v.(entry) ∧ v'.(direct) = Some d'
    ∧ d'.(d_params) = d.(d_params) ∧ d'.(d_timeline) = i + 1 ∧ d'.(d_error) = err
    ∧ d'.(error_set_by_kernel) = true ∧ d'.(poll_cb) = negb (i + 1 =? n)
    ∧ (if i + 1 =? n
       then v'.(fence).(signaled) = true ∧ v'.(fence).(signal_error) = err
            ∧ v'.(fence).(poll_cb_list) = []
            ∧ v'.(calls) = l ++ ((λ cb, Poll_called cb true 0 err) <$> cbs)
       else v'.(fence).(signaled) = false ∧ v'.(fence).(signal_error) = 0
            ∧ v'.(fence).(poll_cb_list) = cbs ∧ v'.(calls) = l).
Proof.
  intros Ht Hfl Hs Hse Htl Hcb Hc Hd Hdt Hdn Hdi Hde Hk Hpc Hv Hr Hf Hi Hn.
  unfold iif_direct_fence_sync_status, iif_direct_fence_table_get_timeline.
  rewrite Hd. cbn [must mbind outcome_bind]. rewrite Hk, Hdt, Hdn, Hr, Hde, Hdi, Hf.
  replace (n - (n - (i + 1))) with (i + 1) by lia.
  rewrite u32_small, s32_small by lia.
  assert ((negb (err =? 0) || negb (err =? 0)) = negb (err =? 0)) as -> by by destruct (err =? 0).
  assert ((if negb (negb (err =? 0)) && negb (err =? 0) then 0 else err) = err) as ->
    by by destruct (err =? 0).
  assert ((if negb (err =? 0) && (err =? 0) then - ECANCELED else err) = err) as ->
    by by destruct (err =? 0).
  rewrite (proj2 (Z.ltb_ge (i + 1) i)) by lia. rewrite (proj2 (Z.eqb_neq i (i + 1))) by lia.
  cbn [andb]. unfold iif_direct_fence_invoke_poll_callbacks_single_shot.
  cbn [with_direct direct must mbind outcome_bind d_timeline d_params iif_direct_fence_set_timeline
    iif_direct_fence_set_error poll_cb d_error]. rewrite Hdn, Hpc. cbn [negb].
  destruct (Z.eqb_spec (i + 1) n) as [He|He].
  - rewrite (proj2 (Z.ltb_ge _ _)) by lia. rewrite poll_cb_func_ok by done.
    do 2 eexists. split; [reflexivity|]. cbn. rewrite Hcb, Hc. split_and!; done.
  - rewrite (proj2 (Z.ltb_lt _ _)) by lia.
    do 2 eexists. split; [reflexivity|]. cbn. split_and!; done.
Qed.

(** One signal, of a fence that others have still to signal or not. *)
Lemma signal_ok n i err cbs l v e ret es :
  signaling n i err cbs l v → i < n → valid_error e →
  ∃ v', signals (e :: es) ret v = signals es (n - (i + 1)) v'
    ∧ signaling n (i + 1) (if e =? 0 then err else e) cbs l v'.
Proof.
  intros [Ht Hn Hfl Hp Hsub Hsig Hw Hb Htl Hv Hr Hf (d & Hd & Hdt & Hdn & Hdi & Hde & Hk & Hpc) Hst]
    Hi He.
  rewrite (proj2 (Z.eqb_neq i n)) in Hst, Hpc by lia. destruct Hst as (Hs & Hse & Hcb & Hc).
  set (err' := if e =? 0 then err else e). assert (valid_error err') as Hv' by (subst err'; by case_match).
  cbn [signals]. unfold iif_fence_signal_with_status_locked, iif_fence_all_signalers_signaled_locked,
    iif_fence_outstanding_signalers_locked, iif_direct_fence_signal, iif_direct_fence_signal_single_shot.
  rewrite Hsig, Hn, Hsub, (proj2 (Z.eqb_neq i n)), (proj2 (Z.eqb_neq (n - i) 0)) by lia.
  destruct He as [He1 He2].
  rewrite (proj2 (Z.ltb_ge 0 e)), (proj2 (Z.ltb_ge e (- MAX_ERRNO))) by lia.
  rewrite Hp, Hd. cbn [negb andb orb must mbind outcome_bind]. rewrite Hdt, Hr.
  rewrite (proj2 (Z.eqb_neq (n - i) 0)) by lia. cbn [negb andb].
  destruct (handle_error_ok e err v d Hp Hd Hde Hf) as (v1 & d1 & -> & E1 & Hr1 & Hf1 & He' & Hk1 & Hp1 & Ht1 & Hc1).
  cbn [mbind outcome_bind]. fold err' in Hf1, He'.
  assert (v1.(fence) = v.(fence) ∧ v1.(direct) = Some d1 ∧ v1.(calls) = v.(calls)) as (Ef & Ed & Ec)
    by by rewrite E1.
  unfold iif_direct_fence_table_set_remaining_signals, iif_fence_table_set_remaining_signals.
  rewrite Ef, Hp, Hr1, Hr, (proj2 (Z.ltb_lt _ _)) by lia.
  set (v2 := with_entry _ v1).
  destruct (sync_status_ok n i err' cbs l v2 d1) as
    (v3 & d3 & -> & P3 & Pp3 & Psub & Psig & Pw & Ptl & Pe & Pd & Pdp & Pdt & Pde & Pk & Ppc & Pst);
    subst v2; cbn; rewrite ?Ef, ?Hp1, ?u16_small by lia; rewrite ?Ht1, ?Hc1, ?Ec; try done; try lia.
  cbn in *. rewrite Ef in *.
  cbn [mbind outcome_bind Z.eqb negb]. unfold signaler_done_locked,
    iif_fence_all_signalers_signaled_locked, iif_fence_outstanding_signalers_locked,
    iif_fence_inc_signaled_signalers_locked, iif_fence_all_signalers_signaled_locked.
  rewrite Psig, Psub, P3, Hsig, Hsub, Hn, (proj2 (Z.eqb_neq i n)), (proj2 (Z.eqb_neq (n - i) 0)) by lia.
  unfold iif_fence_retire_if_possible_locked. cbn [fence with_fence outstanding_waiters set_signalers].
  rewrite Pw, (proj2 (Z.eqb_neq _ 0)) by done. rewrite andb_false_r. cbn [andb mbind outcome_bind].
  rewrite u16_small by lia. eexists. split; [reflexivity|].
  split; cbn; rewrite ?P3, ?Pp3, ?Psub, ?Pw, ?Pe, ?Hp1; try done; try lia.
  - cbn. rewrite u16_small by lia. lia.
  - exists d3. rewrite Pdp, Pdt, Pde, Hp1. done.
Qed.

(** C14.  A direct single-shot fence of [n] signalers, all submitted, which the kernel
    signals, one signal after the other under its lock ([iif_signal_race] is about two at
    once): the first signals change nothing that its waiters see; the [n]-th, and only
    that one, unblocks it, with the error of the last signaler that had one; the
    callbacks that wait for it are called then, once each and in order, with this
    error, and taken off the list.  Each signal returns how many are left, and one
    more is refused with [-EBUSY]. *)
Theorem iif_signals_unblock_once es n cbs l v :
  signaling n 0 0 cbs l v → es ≠ [] → Forall valid_error es → Z.of_nat (length es) ≤ n →
  ∃ v', signals es 0 v = Ok (n - Z.of_nat (length es), v')
  ∧ if Z.of_nat (length es) =? n
    then v'.(fence).(signaled) = true ∧ v'.(fence).(signal_error) = last_error es
         ∧ v'.(fence).(poll_cb_list) = []
         ∧ v'.(calls) = l ++ ((λ cb, Poll_called cb true 0 (last_error es)) <$> cbs)
         ∧ ∀ e force, iif_fence_signal_with_status_locked e force v' = Ok (- EBUSY, v')
    else v'.(fence).(signaled) = false ∧ v'.(fence).(signal_error) = 0
         ∧ v'.(fence).(poll_cb_list) = cbs ∧ v'.(calls) = l.
Proof.
  intros Hs Hne Hes Hn.
  assert (∀ es i err ret v, signaling n i err cbs l v → Forall valid_error es →
    i + Z.of_nat (length es) ≤ n →
    ∃ v', signals es ret v = Ok (if bool_decide (es = []) then ret
                                 else n - (i + Z.of_nat (length es)), v')
      ∧ signaling n (i + Z.of_nat (length es)) (foldl (λ err e, if e =? 0 then err else e) err es)
          cbs l v') as Hall.
  { clear. induction es as [|e es IH]; intros i err ret v Hs Hes Hn.
    - exists v. rewrite Z.add_0_r. done.
    - inversion Hes; subst. cbn [length] in *.
      destruct (signal_ok n i err cbs l v e ret es Hs) as (v1 & -> & Hs1); [lia|done|].
      destruct (IH (i + 1) _ (n - (i + 1)) v1 Hs1) as (v2 & -> & Hs2); [done|lia|].
      exists v2. rewrite (bool_decide_eq_false_2 (e :: es = [])) by done. split.
      + do 2 f_equal. case_bool_decide; subst; cbn [length]; lia.
      + replace (i + Z.of_nat (S (length es))) with (i + 1 + Z.of_nat (length es)) by lia. done. }
  destruct (Hall es 0 0 0 v Hs Hes) as (v' & -> & Hs'); [lia|].
  exists v'. rewrite bool_decide_eq_false_2 by done. split; [done|]. rewrite Z.add_0_l in Hs'.
  destruct Hs' as [_ Hn' _ _ _ Hsig _ _ _ _ _ _ _ Hst].
  case_match eqn:He; destruct Hst as (? & ? & ? & ?); split_and!; try done.
  intros e force. unfold iif_fence_signal_with_status_locked, iif_fence_all_signalers_signaled_locked.
  by rewrite Hsig, Hn', He.
Qed.

(** The TPU waits for a fence that two threads of the AP have submitted to signal. *)
Definition ex_two : list move :=
  [Init (iif_fence_init 3 2) true 3072; Submit (Command [0%nat] [] 1) true]
  ++ replicate 5 (Run 0 0) ++ [Submit (Command [] [0%nat] 9) true] ++ replicate 7 (Run 1 0)
  ++ [Submit (Command [] [0%nat] 9) true] ++ replicate 7 (Run 2 0)
  ++ [Atomic 0 (Iif_fence_add_poll_callback 7)].

Lemma iif_signals_unblock_once_witness :
  ∃ w v, play ex_two (iif_manager_init (λ _, TableEntry (WaitEntry 0 0 []) (SignalEntry 0 0 0 0))) = Ok w
  ∧ view_of 0 w = Ok v ∧ signaling 2 0 0 [7%nat] [] v
  ∧ ∃ v', signals [- EIO; 0] 0 v = Ok (0, v')
  ∧ v'.(fence).(signaled) = true ∧ v'.(fence).(signal_error) = - EIO
  ∧ v'.(fence).(poll_cb_list) = [] ∧ v'.(calls) = [Poll_called 7 true 0 (- EIO)]
  ∧ ∀ e force, iif_fence_signal_with_status_locked e force v' = Ok (- EBUSY, v').
Proof.
  destruct (play ex_two _) as [w| |] eqn:Hp;
    [|vm_compute in Hp; discriminate Hp|vm_compute in Hp; discriminate Hp].
  vm_compute in Hp. injection Hp as <-. eexists _, _. split; [reflexivity|]. split; [reflexivity|].
  match goal with |- signaling _ _ _ _ _ ?v ∧ _ => assert (signaling 2 0 0 [7%nat] [] v) as Hs end.
  { split; try reflexivity; try discriminate; try (split; discriminate).
    - split; [split; discriminate|reflexivity].
    - eexists. split_and!; reflexivity || discriminate || by intros ?.
    - split_and!; reflexivity. }
  split; [exact Hs|].
  apply (iif_signals_unblock_once [- EIO; 0] 2 [7%nat] [] _ Hs); [discriminate| |reflexivity].
  repeat constructor; discriminate.
Defined.
