(* ===== verification/IifProps.v ===== *)
(** * Inter-IP fences: what they promise

    The properties of the fences for every interleaving of their users, of the works
    and of the firmware; then what goes wrong. *)

From stdpp Require Import sorting.
From S2P Require Import Prelude.
From S2P Require Import Interleaving.
From S2P Require Import IifTable.
From S2P Require Import IifFence.
From S2P Require Import IifSystem.
From S2P Require Import IifInv.
From S2P Require Import IifWorld.
From S2P Require Import IifSteps.
From S2P Require Import IifOrder.
From S2P Require Import IifMoves.
From S2P Require Import IifPower.

(** ** Reachable states *)

Lemma iif_init_inv t : inv none (iif_manager_init t).
Proof.
  split; cbn; try done.
  - intros k p _ Hp. by apply elem_of_nil in Hp.
  - intros p Hp. by apply elem_of_nil in Hp.
Qed.

Lemma play_inv mvs w : inv none w → disciplined mvs w = true → wp (play mvs w) (inv none).
Proof.
  revert w. induction mvs as [|mv mvs IH]; intros w Hi Hd; [done|].
  cbn in *. apply andb_true_iff in Hd as [Ha Hd]. apply wp_bind.
  pose proof (step_inv mv w Hi Ha) as Hs.
  destruct (step mv w) as [w'| |]; [|done|done]. cbn in *. by apply IH.
Qed.

(** Every state that disciplined users reach. *)
Lemma reach_inv t mvs w :
  disciplined mvs (iif_manager_init t) = true → play mvs (iif_manager_init t) = Ok w → inv none w.
Proof.
  intros Hd Hp. pose proof (play_inv mvs _ (iif_init_inv t) Hd) as H. by rewrite Hp in H.
Qed.

Definition empty_table : Z → table_entry :=
  λ _, TableEntry (WaitEntry 0 0 []) (SignalEntry 0 0 0 0).

(** The TPU waits for a fence that the AP signals once. *)
Definition ex_signal : list move :=
  [Register 1; Init (iif_fence_init 3 1) true 3072;
   Submit (Command [0%nat] [] 1) true; Run 0 0; Run 0 0; Run 0 0; Run 0 0; Run 0 0;
   Submit (Command [] [0%nat] 9) true; Run 1 0; Run 1 0; Run 1 0; Run 1 0; Run 1 0; Run 1 0; Run 1 0;
   Atomic 0 (Iif_fence_add_poll_callback 7);
   Call 0 (Iif_fence_signal_with_status (-5) false); Run 2 0; Run 2 0; Run 2 0; Run_signaled 0;
   Run 3 0; Run 3 0; Run 2 0; Run 2 0].

(** The waiter ends and the last reference is put. *)
Definition ex_end : list move :=
  ex_signal ++
  [Call 0 (Iif_fence_waiter_completed 1 false); Run 4 0; Run 4 0; Run 0 0; Run 1 0; Run 2 0;
   Call 0 (Iif_fence_put false); Run 5 0; Run 5 0; Run 5 0; Run 5 0; Run 5 0].

(** ** Memory and identifiers *)

(** C7.  In every interleaving of the users of the fences, of the works and of what the
    firmwares write to the table which is [disciplined] (no sync point is added to a fence
    that has retired, none is looked up by its identifier while it dies), no function uses a fence that is freed, the
    direct fence of one that has retired, or takes a reference of one without any.
    At every moment a fence has its direct fence exactly until it retires, its
    identifier is of the range of its signaler and taken from the pool, no two fences
    that have not retired share one, and no more signalers signaled than submitted,
    nor submitted than there are. *)
Theorem iif_fence_safe t mvs :
  disciplined mvs (iif_manager_init t) = true →
  play mvs (iif_manager_init t) ≠ Undef ∧
  ∀ w, play mvs (iif_manager_init t) = Ok w →
  (∀ k f d, w.(fences) !! k = Some (f, d) →
    (f.(retired) = true ∧ d = None
     ∨ f.(retired) = false ∧ f.(id) ∈ w.(pool) ∧ ∃ d', d = Some d' ∧ d'.(d_id) = f.(id))
    ∧ 0 ≤ f.(id) - f.(params).(signaler_ip) * IIF_NUM_FENCES_PER_IP < IIF_NUM_FENCES_PER_IP
    ∧ 0 ≤ f.(submitted_signalers) ≤ f.(params).(remaining_signalers)
    ∧ 0 ≤ f.(signaled_signalers) ≤ f.(params).(remaining_signalers))
  ∧ (∀ k1 f1 d1 k2 f2 d2, w.(fences) !! k1 = Some (f1, d1) → w.(fences) !! k2 = Some (f2, d2) →
      f1.(retired) = false → f2.(retired) = false → f1.(id) = f2.(id) → k1 = k2).
Proof.
  intros Hd. split.
  { intros Hp. pose proof (play_inv mvs _ (iif_init_inv t) Hd) as H. by rewrite Hp in H. }
  intros w Hp. pose proof (reach_inv t mvs w Hd Hp) as Hi. split; [|apply (inv_ids _ _ Hi)].
  intros k f d Hk. destruct (inv_fence _ _ Hi k f d Hk) as [[? Hsub Hsig ? ? ?] Hdir ? ? ? ? ? ? ? ? Hr].
  cbv zeta in Hr. split_and!; try lia; try apply Hsub; try apply Hsig.
  unfold direct_ok in Hdir. destruct (retired f) eqn:Hret; [by left|right].
  split_and!; [done|by apply (inv_pool _ _ Hi k f d)|done].
Qed.

Lemma iif_fence_safe_witness :
  disciplined ex_end (iif_manager_init empty_table) = true ∧
  play ex_end (iif_manager_init empty_table) ≠ Undef.
Proof.
  assert (disciplined ex_end (iif_manager_init empty_table) = true) as Hd
    by (vm_compute; reflexivity).
  split; [exact Hd|exact (proj1 (iif_fence_safe empty_table ex_end Hd))].
Defined.

(** ** Block wakelocks *)

Lemma owe_nonneg ip (m : gmap nat (iif_fence * option iif_direct_fence)) :
  (∀ k p, m !! k = Some p → 0 ≤ p.1.(outstanding_block_wakelock) ip) →
  0 ≤ map_fold (fence_owes ip) 0 m.
Proof.
  induction m as [|k p m Hk IH] using map_ind; intros Hnn; [done|].
  rewrite owe_insert by done. pose proof (Hnn k p (lookup_insert_eq _ _ _)).
  assert (0 ≤ map_fold (fence_owes ip) 0 m); [|lia].
  apply IH. intros k1 p1 H1. apply (Hnn k1). rewrite lookup_insert_ne; [done|]. intros ->. congruence.
Qed.

Lemma fences_owe_lookup e w ip k f d : inv e w → w.(fences) !! k = Some (f, d) →
  f.(outstanding_block_wakelock) ip ≤ fences_owe ip w.
Proof.
  intros Hi Hk. unfold fences_owe. rewrite (owe_delete ip k (f, d) _ Hk). cbn.
  assert (0 ≤ map_fold (fence_owes ip) 0 (delete k w.(fences))); [|lia].
  apply owe_nonneg. intros k' [f' d'] [_ Hk']%lookup_delete_Some.
  by apply (inv_fence _ _ Hi k' f' d' Hk').
Qed.

(** C8.  The driver of an IP is asked to release the block wakelock once for each time
    that it granted it, and never more: what it holds at any moment is what the fences
    count and the functions under way have left to count or to release, so that it
    is never negative, an IP stays powered while a fence counts a wakelock of it, and
    once the fences are gone and all functions have returned it is zero.  An IP that
    has no operators registered is never asked. *)
Theorem iif_wakelocks_balance t mvs w ip :
  disciplined mvs (iif_manager_init t) = true → play mvs (iif_manager_init t) = Ok w →
  w.(wakelocks) ip = (if decide (ip ∈ w.(registered))
                      then Z.of_nat (threads_owe ip w) + fences_owe ip w else 0)
  ∧ 0 ≤ w.(wakelocks) ip
  ∧ (∀ k f d, ip ∈ w.(registered) → w.(fences) !! k = Some (f, d) →
       0 ≤ f.(outstanding_block_wakelock) ip ≤ w.(wakelocks) ip)
  ∧ ((∀ p, p ∈ w.(threads) → p = []) → w.(fences) = ∅ → w.(wakelocks) ip = 0).
Proof.
  intros Hd Hp. pose proof (reach_inv t mvs w Hd Hp) as Hi.
  pose proof (inv_wakelocks _ _ Hi ip) as Hw. unfold none in Hw. rewrite Z.add_0_r in Hw.
  assert (0 ≤ fences_owe ip w) as Hnn.
  { apply owe_nonneg. intros k [f d] Hk. by apply (inv_fence _ _ Hi k f d Hk). }
  split_and!; [done|rewrite Hw; case_decide; lia| |].
  - intros k f d Hr Hk. rewrite Hw, decide_True by done.
    pose proof (fences_owe_lookup _ _ ip k f d Hi Hk).
    pose proof (fi_wakelock _ _ _ _ (inv_fence _ _ Hi k f d Hk) ip). lia.
  - intros Ht Hf. rewrite Hw. case_decide; [|done]. unfold threads_owe, fences_owe. rewrite Hf.
    rewrite (proj2 (cnt_zero _ _)); [done|]. intros p Hin. by rewrite (Ht p Hin).
Qed.

Lemma iif_wakelocks_balance_witness :
  ∃ w1 w2, play ex_signal (iif_manager_init empty_table) = Ok w1
    ∧ play ex_end (iif_manager_init empty_table) = Ok w2
    ∧ w1.(wakelocks) 1 = 1 ∧ 0 ≤ w1.(wakelocks) 1
    ∧ disciplined ex_end (iif_manager_init empty_table) = true
    ∧ w2.(wakelocks) 1 = 0.
Proof.
  assert (disciplined ex_signal (iif_manager_init empty_table) = true) as Hd1 by (vm_compute; reflexivity).
  assert (disciplined ex_end (iif_manager_init empty_table) = true) as Hd2 by (vm_compute; reflexivity).
  destruct (play ex_signal (iif_manager_init empty_table)) as [w1| |] eqn:H1;
    [|vm_compute in H1; discriminate H1|vm_compute in H1; discriminate H1].
  destruct (play ex_end (iif_manager_init empty_table)) as [w2| |] eqn:H2;
    [|vm_compute in H2; discriminate H2|vm_compute in H2; discriminate H2].
  exists w1, w2. split; [reflexivity|]. split; [reflexivity|].
  pose proof (iif_wakelocks_balance empty_table ex_signal w1 1 Hd1 H1) as (_ & Hnn & _).
  pose proof (iif_wakelocks_balance empty_table ex_end w2 1 Hd2 H2) as (_ & _ & _ & Hz).
  assert (match play ex_signal (iif_manager_init empty_table) with
          | Ok w => w.(wakelocks) 1 = 1 | _ => False end) as Hw1 by (vm_compute; reflexivity).
  assert (match play ex_end (iif_manager_init empty_table) with
          | Ok w => map_to_list w.(fences) = [] ∧ forallb (λ p, bool_decide (p = [])) w.(threads) = true
          | _ => False end) as Hw2 by (vm_compute; split; reflexivity).
  rewrite H1 in Hw1. rewrite H2 in Hw2. destruct Hw2 as [Hf Ht].
  split; [exact Hw1|]. split; [exact Hnn|]. split; [exact Hd2|]. apply Hz.
  - intros p Hp. rewrite forallb_forall in Ht. 
    exact (proj1 (bool_decide_eq_true _) (Ht p (proj1 (list_elem_of_In _ _) Hp))).
  - by apply map_to_list_empty_iff.
Defined.

(** C9.  As long as nobody ends a wait that was not begun, an IP that waits is powered: its
    driver is asked to hold at least as many wakelocks as the IP has waits under way,
    for all the fences that somebody has a reference of. *)
Theorem iif_waiters_powered t mvs w ip :
  disciplined mvs (iif_manager_init t) = true → paired mvs (iif_manager_init t) = true →
  play mvs (iif_manager_init t) = Ok w → ip ∈ w.(registered) →
  fences_wait ip w ≤ w.(wakelocks) ip.
Proof.
  intros Hd Hpair Hp Hr. pose proof (reach_inv t mvs w Hd Hp) as Hi.
  assert (powered w) as Hpw.
  { pose proof (play_strong mvs (iif_manager_init t) (iif_init_inv t)) as Hs. rewrite Hp in Hs.
    apply Hs; [|done|done]. split; [intros k per wl refs Hk; done|].
    intros p Hin. by apply elem_of_nil in Hin. }
  pose proof (fences_wait_owe ip w Hi Hpw). pose proof (inv_wakelocks _ _ Hi ip) as Hw.
  rewrite decide_True in Hw by done. unfold none in Hw. lia.
Qed.

Lemma iif_waiters_powered_witness :
  ∃ w, play ex_signal (iif_manager_init empty_table) = Ok w ∧ fences_wait 1 w = 1
    ∧ fences_wait 1 w ≤ w.(wakelocks) 1
    ∧ disciplined ex_end (iif_manager_init empty_table) = true
    ∧ paired ex_end (iif_manager_init empty_table) = true.
Proof.
  assert (disciplined ex_signal (iif_manager_init empty_table) = true) as Hd by (vm_compute; reflexivity).
  assert (paired ex_signal (iif_manager_init empty_table) = true) as Hq by (vm_compute; reflexivity).
  destruct (play ex_signal (iif_manager_init empty_table)) as [w| |] eqn:Hp;
    [|vm_compute in Hp; discriminate Hp|vm_compute in Hp; discriminate Hp].
  exists w. split; [reflexivity|].
  assert (match play ex_signal (iif_manager_init empty_table) with
          | Ok w => fences_wait 1 w = 1 ∧ bool_decide (1 ∈ w.(registered)) = true
          | _ => False end) as Hw by (vm_compute; split; reflexivity).
  rewrite Hp in Hw. destruct Hw as [Hw Hr]. split; [exact Hw|]. split.
  - exact (iif_waiters_powered empty_table ex_signal w 1 Hd Hq Hp (proj1 (bool_decide_eq_true _) Hr)).
  - split; vm_compute; reflexivity.
Defined.

(** ** Submissions *)

(** C25.  The sort and the merge of the fences of a command accept it exactly when no
    identifier occurs twice, in one array or in both, and refuse it with [-EDEADLK]
    otherwise; they keep the fences and put the identifiers of each array in
    increasing order. *)
Theorem iif_submission_uniqueness (l r : list (Z * nat)) :
  let '(ret_l, l') := iif_fences_sort_by_id l in
  let '(ret_r, r') := iif_fences_sort_by_id r in
  let ret := if ret_l =? 0
             then if ret_r =? 0 then iif_fences_check_fence_uniqueness l' r' else ret_r
             else ret_l in
  l' ≡ₚ l ∧ r' ≡ₚ r
  ∧ (ret = 0 ∧ NoDup (l.*1 ++ r.*1) ∧ StronglySorted Z.lt l'.*1 ∧ StronglySorted Z.lt r'.*1
     ∨ ret = - EDEADLK ∧ ¬ NoDup (l.*1 ++ r.*1)).
Proof.
  pose proof (sort_by_id_ok l) as [Pl Sl]. pose proof (sort_by_id_ok r) as [Pr Sr].
  destruct (iif_fences_sort_by_id l) as [ret l'], (iif_fences_sort_by_id r) as [ret2 r'].
  cbn [fst snd] in *. split; [done|]. split; [done|].
  destruct Sl as [[-> Sl]|[-> Hl]]; cbn; [|right; split; [done|]; by intros [? _]%NoDup_app].
  destruct Sr as [[-> Sr]|[-> Hr]]; cbn; [|right; split; [done|]; by intros (_ & _ & ?)%NoDup_app].
  destruct (check_ok (length l' + length r') l' r' Sl Sr (Nat.le_refl _))
    as [[Hc Hd]|[Hc (x & y & Hx & Hy & He)]].
  - left. split_and!; [exact Hc| |by apply before_sorted|by apply before_sorted].
    apply NoDup_app. split_and!; [by rewrite <-Pl; apply before_ids| |by rewrite <-Pr; apply before_ids].
    intros i (x & -> & Hx)%list_elem_of_fmap (y & He & Hy)%list_elem_of_fmap.
    rewrite <-Pl in Hx. rewrite <-Pr in Hy. by apply (Hd x y).
  - right. split; [exact Hc|]. intros (_ & Hn & _)%NoDup_app. apply (Hn x.1).
    + rewrite <-Pl. apply list_elem_of_fmap. by exists x.
    + rewrite <-Pr. apply list_elem_of_fmap. exists y. by rewrite He.
Qed.

(** ** What goes wrong *)

Lemma all_fences (g : iif_fence * option iif_direct_fence → bool)
    (m : gmap nat (iif_fence * option iif_direct_fence)) :
  forallb (λ kp, g kp.2) (map_to_list m) = true → ∀ (k : nat) p, m !! k = Some p → g p = true.
Proof.
  intros Hg k p Hk. rewrite forallb_forall in Hg.
  apply (Hg (k, p)). by apply list_elem_of_In, elem_of_map_to_list.
Qed.

(** One thread waits for two fences, the other signals the one with the smaller
    identifier and waits for the other. *)
Definition ex_deadlock : list move :=
  [Init (iif_fence_init 3 1) true 3072; Init (iif_fence_init 3 1) true 3073;
   Submit (Command [0%nat; 1%nat] [] 1) true; Submit (Command [1%nat] [0%nat] 1) true]
  ++ replicate 5 (Run 0 0) ++ replicate 6 (Run 1 0).

(** C37.  The arrays of a command are sorted one by one, and the locks of the fences to
    wait for are taken before those of the fences to signal: two disciplined
    commands, one of which waits for two fences and the other of which waits for the
    second and signals the first, stop each other for good.  Each holds the lock
    that the other waits for, no thread and no work can run, and none of the two has
    returned. *)
Theorem iif_submissions_deadlock :
  disciplined ex_deadlock (iif_manager_init empty_table) = true ∧
  ∃ w f0 d0 f1 d1, play ex_deadlock (iif_manager_init empty_table) = Ok w
  ∧ w.(fences) !! 0%nat = Some (f0, d0) ∧ f0.(fence_lock) = Some 0%nat
  ∧ w.(fences) !! 1%nat = Some (f1, d1) ∧ f1.(fence_lock) = Some 1%nat
  ∧ (∀ i driver, step (Run i driver) w ≠ Blocked → length w.(threads) ≤ i)%nat
  ∧ (∀ k f d, w.(fences) !! k = Some (f, d) →
       work_idle f.(signaled_work) && work_idle f.(waited_work) && negb f.(put_work) = true)
  ∧ ∀ i ret, Returned i ret ∉ w.(log).
Proof.
  split; [vm_compute; reflexivity|].
  destruct (play ex_deadlock (iif_manager_init empty_table)) as [w| |] eqn:Hp;
    [|vm_compute in Hp; discriminate Hp|vm_compute in Hp; discriminate Hp].
  vm_compute in Hp. injection Hp as <-.
  do 5 eexists. split; [reflexivity|]. split; [reflexivity|]. split; [reflexivity|].
  split; [reflexivity|]. split; [reflexivity|]. split_and!.
  - intros [|[|i]] driver Hs; [by destruct Hs|by destruct Hs|]. cbn. lia.
  - intros k f d Hk. eapply (all_fences (λ p, work_idle p.1.(signaled_work)
      && work_idle p.1.(waited_work) && negb p.1.(put_work)) _ _ k (f, d) Hk).
    Unshelve. vm_compute. reflexivity.
  - intros i ret Hin. by apply elem_of_nil in Hin.
Qed.

(** A fence of two signalers, one of which is submitted, and two threads of the AP
    that signal it at once. *)
Definition ex_signal_race : list move :=
  [Init (iif_fence_init 3 2) true 3072; Submit (Command [] [0%nat] 9) true]
  ++ replicate 7 (Run 0 0)
  ++ [Atomic 0 (Iif_fence_add_poll_callback 7); Call 0 (Iif_fence_signal_with_status 0 true);
      Call 0 (Iif_fence_signal_with_status 0 true);
      Run 1 0; Run 2 0; Run 1 0; Run 2 0; Run 1 0; Run 2 0; Run 1 0].

(** A signal checks that a submitted signaler has not signaled yet and counts it
    in two sections of the lock, so that two signals can pass the check for the same
    signaler: the second is refused with [-EPERM], and has unblocked the fence, whose
    waiters are told that it succeeded while a signaler is still to be
    submitted. *)
Theorem iif_signal_race :
  disciplined ex_signal_race (iif_manager_init empty_table) = true ∧
  ∃ w f d, play ex_signal_race (iif_manager_init empty_table) = Ok w
  ∧ w.(fences) !! 0%nat = Some (f, d)
  ∧ f.(params).(remaining_signalers) = 2 ∧ f.(submitted_signalers) = 1
  ∧ f.(signaled_signalers) = 1 ∧ f.(signaled) = true
  ∧ w.(log) = [Returned 0 0; Called 0 (Poll_called 7 true 0 0); Returned 2 (- EPERM); Returned 1 1].
Proof.
  split; [vm_compute; reflexivity|].
  destruct (play ex_signal_race (iif_manager_init empty_table)) as [w| |] eqn:Hp;
    [|vm_compute in Hp; discriminate Hp|vm_compute in Hp; discriminate Hp].
  vm_compute in Hp. injection Hp as <-. do 3 eexists. split_and!; reflexivity.
Qed.

(** The manager finds a fence by its identifier until it retires, which is after
    the last reference is put: a thread that looks for one meanwhile takes a reference
    of a fence that is on its way to be freed. *)
Theorem iif_get_from_id_dying :
  let mvs := [Init (iif_fence_init 3 1) true 3072; Call 0 (Iif_fence_put false); Run 0 0] in
  disciplined mvs (iif_manager_init empty_table) = true ∧
  ∃ w f d, play mvs (iif_manager_init empty_table) = Ok w
  ∧ iif_manager_get_fence_from_id 3072 w = Some 0%nat
  ∧ w.(fences) !! 0%nat = Some (f, d) ∧ f.(kref) = 0
  ∧ step (Get_from_id 3072) w = Undef.
Proof.
  intros mvs. split; [vm_compute; reflexivity|].
  destruct (play mvs (iif_manager_init empty_table)) as [w| |] eqn:Hp;
    [|vm_compute in Hp; discriminate Hp|vm_compute in Hp; discriminate Hp].
  vm_compute in Hp. injection Hp as <-. do 3 eexists. split_and!; reflexivity.
Qed.

(** A fence that nobody signals and nobody waits for retires when its last file
    is released, while its user still has a reference: a sync point that the user adds
    then is added to a direct fence that is freed. *)
Theorem iif_sync_point_after_retire :
  let mvs := [Init (FenceParams IIF_FENCE_SIGNALER_TYPE_IP IIF_FENCE_TYPE_REUSABLE 3 0 0 10
                      IIF_FLAGS_DIRECT) true 3072;
              Sync_file_create 0; Run 0 0; Call 0 (Iif_sync_file_release None);
              Run 1 0; Run 1 0; Run 1 0] in
  disciplined mvs (iif_manager_init empty_table) = true ∧
  ∃ w f, play mvs (iif_manager_init empty_table) = Ok w
  ∧ w.(fences) !! 0%nat = Some (f, None) ∧ f.(kref) = 1 ∧ f.(retired) = true
  ∧ step (Atomic 0 (Iif_fence_add_sync_point 1 1)) w = Undef.
Proof.
  intros mvs. split; [vm_compute; reflexivity|].
  destruct (play mvs (iif_manager_init empty_table)) as [w| |] eqn:Hp;
    [|vm_compute in Hp; discriminate Hp|vm_compute in Hp; discriminate Hp].
  vm_compute in Hp. injection Hp as <-. do 2 eexists. split_and!; reflexivity.
Qed.
